(* ===== verification/_CoqProject ===== *)
-Q . S2P
Prelude.v
LinkedList.v
TimeUtil.v
Queue.v
HttpStream.v
Timers.v
Dispatch.v
Delegate.v
Threads.v
Clocks.v
Strings.v
ListView.v
Input.v
Process.v
Audio.v
PlayerState.v
Player.v
Geometry.v
Windows.v
Painting.v
Desktop.v
Surfaces.v
Screen.v
Holders.v
VideoPipe.v
Presentation.v
Playback.v
AudioDecoder.v
SoundTrack.v
Listening.v
Dvd.v
DvdReads.v
Application.v
Settings.v
Titles.v
Library.v
Browsing.v
FileIO.v
