(* ===== verification/Prelude.v ===== *)
(** * MediaBox / libavbox: a verification library

    MediaBox is a C media center built on its own runtime library, libavbox
    (src/lib, include/libavbox).  This library models the parts of libavbox
    that the rest of the program stands on and proves the properties they
    must have.  Paths below are relative to the src directory of the
    repository.

    ** The program and its parts

    Every thread of libavbox runs a message loop: it takes messages from a
    blocking queue and hands them to reference-counted objects.  Timers, the
    delegates of the thread pool, the input drivers and the process monitor
    talk to the rest by sending messages, and user-interface widgets, the
    stream layer and the player are clients of those services.  All
    collections are intrusive doubly linked lists.

    - [LinkedList]: the list macros of include/libavbox/linkedlist.h on a
      heap of list heads; [is_list] is the representation predicate,
      [ListStore] the interface the clients use, with the heap and an
      abstract store as instances.
    - [TimeUtil]: src/lib/time_util.c, [struct timespec] arithmetic with
      the 64-bit wrap-around of the code.
    - [Queue]: src/lib/queue.c, the bounded blocking queue with its node
      pool, as atomic sections (the code between taking and releasing the
      mutex) of any number of threads, over the [ListStore] interface.
    - [HttpStream]: src/lib/stream.c.  [Net] is the curl side (write
      callback, left-over bytes, fillbuf), [Ring] the read-ahead ring with
      its worker and reader as interleaved steps.
    - [Timers]: src/lib/timers.c, the pass of the timers thread,
      registration and cancellation.
    - [Dispatch]: src/lib/dispatch.c, objects, messages, reference counts
      and the DESTROY/CLEANUP protocol.
    - [Delegate]: src/lib/delegate.c ([Delegate]) and the choice of a
      worker in src/lib/thread.c ([Pool]).
    - [Threads]: src/lib/thread.c, the start of a thread ([Start]), its
      message loop ([Loop]) and the pool of threads ([Workqueue]).
    - [Clocks]: src/lib/stopwatch.c ([Stopwatch]) and
      include/libavbox/checkpoint.h ([Checkpoint]).
    - [Strings]: src/lib/string_util.c ([Builder], [Str], [Replace]) and
      src/lib/url_util.c ([Url]).
    - [ListView]: src/lib/ui/listview.c, items, selection and scrolling.
    - [Input]: src/lib/ui/input.c ([Endpoints], on the heap of
      [LinkedList] and sending through [Dispatch]) and
      src/lib/ui/input-socket.c ([Socket]).
    - [Process]: src/lib/process.c, the manager of child processes.
    - [Audio]: src/lib/audio.c, the audio stream: writers, control calls
      and the output thread as interleaved atomic sections over the packet
      queue and pool, ALSA as a parameter.
    - [PlayerState], [Player]: include/libavbox/ui/player.h, player_p.h and
      src/lib/ui/player.c, the state of the player and its control thread
      (every message it handles, playlist, seeking, underruns, start-up and
      end of a stream) with the start and the end of the parser thread;
      calls into the queues, the audio stream and the checkpoints are
      effects recorded in order.
    - [Windows], [Painting], [Desktop]: src/lib/ui/video.c and
      include/libavbox/ui/video.h, the window system.  [Windows] has the
      heap of windows, the stack of the visible ones and every operation on
      them, with the calls that leave the module in a log; [Painting] the
      invariant and what painting, showing, hiding, creating and destroying
      do; [Desktop] the runs of a program and their properties.
    - [Surfaces], [Screen]: src/lib/ui/video-software.c, the software
      driver on byte buffers, with the clearing loop of video.c; [Screen]
      executes the calls of the window system on the driver.
    - [VideoPipe], [Presentation], [Playback]: the threads of
      src/lib/ui/player.c that carry a picture from the file to the screen
      (the loop of the parser, the video decoder, the video output thread,
      its delegate on the main thread) and what the control thread does to
      them when it seeks, drops, flushes or pauses, as interleaved steps
      over the pools, the two queues and the checkpoints.  [Presentation]
      has the invariants, [Playback] the properties of runs.
    - [AudioDecoder], [SoundTrack], [Listening]: the same for sound: the
      parser with its choice of a stream, the audio decoder, the callback of
      the audio stream and the audio side of drops, flushes and changes of
      the track; invariants and properties of runs.
    - [Holders]: the pools of the player and the lemmas by which both
      pipelines show that every frame and packet has one holder.
    - [Dvd], [DvdReads]: src/lib/dvdio.c, the DVD input stream: the thread
      that reads blocks and events from libdvdnav, the reader that copies
      out of the block buffer, waiting, skipping, menus, seeks and the end.
    - [Application]: src/lib/application.c, the arguments on the kernel
      command line ([KernelArgs]), the subscribers of application events
      ([Subscribers]), options, order of start and of shutdown and the main
      loop ([Startup]).
    - [Settings]: src/lib/db_util.c ([Sql]), src/lib/settings.c ([Store],
      over the interface [Sqlite] with a small database as an instance) and
      src/lib/volume.c ([Volume]).
    - [Titles], [Library], [Browsing]: src/library.c.  [Titles] makes
      titles of file names; [Library] has the table of the local library
      ([Objects], with SQLite as the interface [Sqlite] and a table in
      memory as an instance) and what changes it, scans and the events of
      inotify ([Catalogue]); [Browsing] opens and reads its directories.
    - [FileIO]: src/lib/pipe_util.c ([Pipes]) and the directories and
      resources of src/lib/file_util.c ([Dirs]).
    - [Geometry]: the helpers of include/libavbox/math_util.h and the
      picture size computed by [avbox_player_scale2display].
    - [Prelude] (this file): C integers, [errno], tactics, lemmas on lists
      and step relations.

    ** How the code is modelled

    A structure is a [Record], an operation one [Definition] with the names
    of the source.  Pointers are addresses into finite maps; a read through
    a pointer that is not allocated, a store outside an array, an undefined
    signed overflow or a failed assertion makes the operation [None] (the
    player is modelled as a release build, without its assertions).  The
    answers of the allocator, of system calls, of libcurl, libdvdnav, ALSA
    and FFmpeg and of user callbacks are arguments of the operations, so
    that their failures are cases of the model.  Code under one lock is one step; blocking calls
    are split where they release the lock.  Sizes and times keep their
    width ([wrapu], [wraps]) and a signed overflow is [None] ([chk_int]).

    Faults and contracts.  The properties of runs say until when they hold.
    A run of a component is a sequence of its steps; where the code itself
    can go wrong (an allocation nobody checks, an answer of a library
    outside of its documentation, a call the interface forbids) a predicate
    of the component names the situation: [fault] in [HttpStream], [Presentation], [SoundTrack], [Player],
    [Audio], [DvdReads], [Desktop] and [Process].  The theorems then say that a run
    is safe up to its first fault, that a step that fails is one of the
    listed faults ([crash_is_fault], [player_never_fails],
    [crash_hazard]), or that faults end what is promised.  [contract] and
    [promised] are the conditions on callers and on libraries that are
    documented and not tested by the code.  What two threads do between a
    lock and its use is split into steps of their own: the decrement and the
    later test of a reference counter in [Dispatch], the look-up and the use
    of a process record in [Process]; [overlap] names the interleavings
    that the code does not exclude and after which the theorem promises
    nothing (see [unref_race]).

    What the calls into SQLite answer is a finite list, used up call by
    call and followed by successes.  The loops of the library leave on the
    codes on which the source leaves ([prepare_loop], [step_loop]); any
    other code is retried ([full_disk_retried]), so the theorems on the
    library say nothing of a failure that is retried and never goes away.

    ** What the theorems show

    - Refinement: the list macros implement lists and leave disjoint lists
      alone; the queue implements a FIFO for any interleaving of threads;
      the http stream returns the bytes of the file at the reader's
      position through any interleaving of worker, reads and seeks until a
      [fault]; the
      input endpoints are a stack of distinct objects; the audio stream
      plays the accepted frames once and in order; whatever windows a
      program shows, hides, raises or updates, the display then shows the
      topmost visible window at every pixel ([display_shows_topmost]); the
      video pipeline is a FIFO of pictures from the filter graph to the
      window ([pictures_in_order]), the audio pipeline one of sounds behind
      their clock ([sounds_in_order]); reads of a DVD return the blocks of the
      disc one after the other; the application's subscribers are a list
      without repetitions; the settings are a map, a message written to a
      pipe is read back whole; the catalogue of the local library is the
      set of the videos that were found ([catalogue_refines_set]), and it
      stays a tree in which every file has its place even when statements
      fail or are retried ([catalogue_keeps_shape]).
    - Types: the state of the player is typed by its start-up stage in
      every reachable state ([player_state_typed]).
    - Safety: no use after free, double free or out-of-bounds access in the
      queue, the dispatcher, the read-ahead ring, the delegates, the list
      view (while nothing is removed) and the process manager; no lost
      child and no leaked descriptor; the window stack holds exactly the
      visible windows and legal calls never fail, the failed creation of
      a content window apart ([content_failure_dangles]); reference counts are exact; an object
      is cleaned up once; a message makes the player abort or
      use a part of its pipeline that is not there only with one of its
      listed faults; the threads of the
      video pipeline never lose track of a frame or a packet, and when they
      have ended all are back in their pools; the audio decoder fails only
      in the ways that [fault] and [hazard] list.
    - Bounds and liveness: the number of queued audio frames stays within
      its limit; pictures are presented at most 30 ms early and at most
      three late ones in a row are skipped; with a device that accepts frames the output thread
      empties the queue; the start-up messages bring the player to play.
    - Function: that a thread executes the calls it is given in order, each
      once, what a pass of the timers thread fires, keeps and waits
      for, what becomes of a child that exits, what the remote-control
      protocol sends, time differences and deadlines, string building,
      trimming, replacing and decoding, selection and scrolling, what the
      end of a stream releases, that a drop leaves both pipelines
      empty, that [mkdir_p] makes the missing directories and nothing
      else, that every directory of the library opens under the path it is
      listed with; the kernel arguments against the words of the command line, the
      chapter loop of the player against its closed form, the clearing loop of a window against a plain fill.
    - Errors and termination: the error returns of the queue, the loops
      over lists and of [strreplace] end, and so do the jump between the
      two labels of [avbox_player_scale2display] and the loops that make a
      title of a file name.
    - Divergences: where the code does not do what it means to, a theorem
      or a lemma exhibits the run (for example [stop_twice_dangles],
      [unref_race], [put_after_close_accepted], [remove_selected_dangles],
      [track_long_sends_track], [drop_strands_writer], [stop_is_permanent],
      [playlist_forgotten], [audio_only_starts_video],
      [clock_rescaled_twice], [drop_during_flush_halts_parser],
      [drop_never_ends], [flush_before_sound_crashes],
      [track_change_crashes], [null_value_crashes],
      [truncated_update_overwrites_all], [episode_keeps_old_text],
      [delete_takes_siblings]).

    ** Bounds and fuel

    Loops over lists take fuel; one more than the number of elements (or
    than the number of allocated nodes) is enough, and the theorems say so.
    [strreplace] runs with one step per character plus one; the carry loop
    of [abstime] with two; the chapter loop of the player with one step per
    five minutes of the file plus one ([synth_fuel]); two steps of
    [scale_loop] are enough.  The scan of the kernel command line and
    [mkdir_p], the loop that joins spaces in a title and the resolution of
    a path of the library run with one step per character plus one, the
    digits of an integer with ten.  Painting takes the number of windows plus the
    height of the stack plus three ([enough]): the subwindow trees are at
    most as deep as there are windows, and [paint_root] shows that it
    suffices.  Reference counts and queue counters are
    assumed to be below their width where a theorem says so.

    ** What is not modelled

    Drawing with Cairo and Pango (a paint handler is an arbitrary function
    of its call and of the buffer of its window), D-Bus and device back
    ends (calls into third-party libraries with little logic of their own),
    the creation of the databases, the directories of UPnP devices, discs
    and Bluetooth devices in the library, what FFmpeg computes, the
    conversion of YUV buffers, the child side of a fork, thread creation
    and priorities, and the screens of the application.  The first scan of
    the library runs on a thread of its own without a lock; scans and
    events of inotify are modelled one after the other, each statement whole.
    [SQLITE_MISUSE] (a wrong use of the interface, on which the code aborts)
    is not an answer of the model.  Memory is
    sequentially consistent between atomic steps.  The object counters do
    not wrap.

    ** Plan

    Left: the hardware display drivers, the torrent stream
    (src/lib/torrent_stream.cpp, over libtorrent), the remote directories
    of the media library (src/library.c) and the shell (src/shell.c). *)

From stdpp Require Export base tactics list gmap sets strings numbers relations.
From Stdlib Require Export ZArith Lia.

Declare Scope avbox_scope.
Delimit Scope avbox_scope with avbox.

Open Scope Z_scope.

(** ** C integers

    A w-bit integer is a [Z] with the wrap-around written out: unsigned
    arithmetic is reduced modulo [2^w], signed conversion keeps the
    two's-complement representative.  C division truncates ([Z.quot],
    [Z.rem]). *)

Definition wrapu (w z : Z) : Z := z `mod` 2 ^ w.

Definition wraps (w z : Z) : Z :=
  (z + 2 ^ (w - 1)) `mod` 2 ^ w - 2 ^ (w - 1).

Definition in_s (w z : Z) : bool := bool_decide (- 2 ^ (w - 1) <= z < 2 ^ (w - 1)).

(** Signed overflow is undefined behaviour: an [int] result that does not
    fit is [None]. *)
Definition chk_int (z : Z) : option Z := if in_s 32 z then Some z else None.

Notation "'u64' z" := (wrapu 64 z) (at level 10) : avbox_scope.
Notation "'u32' z" := (wrapu 32 z) (at level 10) : avbox_scope.
Notation "'s64' z" := (wraps 64 z) (at level 10) : avbox_scope.
Notation "'s32' z" := (wraps 32 z) (at level 10) : avbox_scope.
Notation "'s8' z" := (wraps 8 z) (at level 10) : avbox_scope.

Definition SIZE_MAX : Z := 2 ^ 64 - 1.
Definition INT_MAX : Z := 2 ^ 31 - 1.

(** ** errno values the sources set or test *)

Inductive errno :=
  | ENOMEM | EAGAIN | ESHUTDOWN | ENOENT | EINVAL | EALREADY | EPERM | EINTR | ECHILD
  | EEXIST | EFAULT | ENOSYS | EIO | EBUSY.

#[export] Instance errno_eq_dec : EqDecision errno.
Proof. solve_decision. Defined.

(** A call that returns a value or fails with [errno] set. *)
Definition result (A : Type) : Type := errno + A.

(** ** Hint databases of the development *)

Create HintDb avbox discriminated.
Create Rewrite HintDb avbox_int.

(** ** Tactics *)

(** Split every [match]/[if]/[decide] in the goal and in the context and
    close the absurd branches. *)
Ltac split_cases :=
  repeat first
    [ progress simplify_eq/=
    | case_bool_decide
    | case_decide
    | case_match ].

Ltac zify_bool :=
  repeat match goal with
  | H : bool_decide _ = true |- _ => apply bool_decide_eq_true in H
  | H : bool_decide _ = false |- _ => apply bool_decide_eq_false in H
  | H : (_ <? _) = true |- _ => apply Z.ltb_lt in H
  | H : (_ <? _) = false |- _ => apply Z.ltb_ge in H
  | H : (_ <=? _) = true |- _ => apply Z.leb_le in H
  | H : (_ <=? _) = false |- _ => apply Z.leb_gt in H
  | H : (_ =? _) = true |- _ => apply Z.eqb_eq in H
  | H : (_ =? _) = false |- _ => apply Z.eqb_neq in H
  | H : andb _ _ = true |- _ => apply andb_true_iff in H as [? ?]
  | H : orb _ _ = false |- _ => apply orb_false_iff in H as [? ?]
  | H : negb _ = true |- _ => apply negb_true_iff in H
  | H : negb _ = false |- _ => apply negb_false_iff in H
  end.

(** A closed decidable goal, by evaluation. *)
Ltac by_eval := apply (bool_decide_unpack _); vm_compute; exact I.

(** Arithmetic after turning boolean tests into propositions. *)
Ltac blia := zify_bool; lia.

(** ** Machine integers *)

Lemma wrapu_bound w z : 0 <= w -> 0 <= wrapu w z < 2 ^ w.
Proof. intros. unfold wrapu. apply Z.mod_pos_bound. lia. Qed.

Lemma wrapu_small w z : 0 <= z < 2 ^ w -> wrapu w z = z.
Proof. intros. unfold wrapu. by apply Z.mod_small. Qed.

Lemma wrapu_add_l w a b : wrapu w (wrapu w a + b) = wrapu w (a + b).
Proof. unfold wrapu. apply Zplus_mod_idemp_l. Qed.

Lemma wrapu_sub_l w a b : wrapu w (wrapu w a - b) = wrapu w (a - b).
Proof. unfold wrapu. apply Zminus_mod_idemp_l. Qed.

Lemma wraps_small w z : 1 <= w -> - 2 ^ (w - 1) <= z < 2 ^ (w - 1) -> wraps w z = z.
Proof.
  intros Hw Hz. unfold wraps.
  assert (2 ^ w = 2 * 2 ^ (w - 1)) as Hp.
  { rewrite <- Z.pow_succ_r by lia. f_equal. lia. }
  rewrite Z.mod_small by lia. lia.
Qed.

Lemma wraps_shift w z k : wraps w (z + k * 2 ^ w) = wraps w z.
Proof.
  unfold wraps. f_equal. rewrite <- (Z_mod_plus_full (z + 2 ^ (w - 1)) k (2 ^ w)). f_equal. lia.
Qed.

Lemma wraps_cong w z : 0 <= w -> exists k, wraps w z = z + k * 2 ^ w.
Proof.
  intros Hw. exists (- ((z + 2 ^ (w - 1)) / 2 ^ w)). unfold wraps.
  rewrite Z.mod_eq by lia. lia.
Qed.

Lemma wraps_add w a b : 0 <= w -> wraps w (wraps w a + wraps w b) = wraps w (a + b).
Proof.
  intros Hw. destruct (wraps_cong w a Hw) as [i ->], (wraps_cong w b Hw) as [j ->].
  rewrite <- (wraps_shift w (a + b) (i + j)). f_equal. lia.
Qed.

Lemma chk_int_Some z : - 2 ^ 31 <= z < 2 ^ 31 -> chk_int z = Some z.
Proof. intros. unfold chk_int, in_s. by rewrite bool_decide_true. Qed.

#[export] Hint Rewrite wrapu_add_l wrapu_sub_l : avbox_int.

(** ** Reachability *)

(** Invariants of a step relation by rule induction. *)
Lemma rtc_invariant {S : Type} (R : relation S) (I : S -> Prop) :
  (forall x y, I x -> R x y -> I y) ->
  forall x y, rtc R x y -> I x -> I y.
Proof. intros Hp x y. induction 1; eauto. Qed.

(** A run in which faults may happen is one without faults or has a first
    fault. *)
Definition faulty {S : Type} (R F : relation S) : relation S := fun x y => R x y \/ F x y.

Definition faulted {S : Type} (R F : relation S) (x y : S) : Prop :=
  exists a b, rtc R x a /\ F a b /\ rtc (faulty R F) b y.

Lemma first_fault {S : Type} (R F : relation S) x y : rtc (faulty R F) x y -> faulted R F x y \/ rtc R x y.
Proof.
  induction 1 as [x|x y z [Hxy|Hxy] Hyz [(a & b & Hya & Hab & Hbz)|IH]].
  - by right.
  - left. exists a, b. split_and!; [by eapply rtc_l|done|done].
  - right. by eapply rtc_l.
  - left. exists x, y. by split_and!.
  - left. exists x, y. by split_and!.
Qed.

(** Forward simulation: a relation preserved by every concrete step, each
    matched by zero or more abstract steps, extends to runs. *)
Lemma rtc_simulation {S T : Type} (R : relation S) (Q : relation T) (sim : S -> T -> Prop) :
  (forall x y a, R x y -> sim x a -> exists b, rtc Q a b /\ sim y b) ->
  forall x y a, rtc R x y -> sim x a -> exists b, rtc Q a b /\ sim y b.
Proof.
  intros Hstep x y a Hr. revert a. induction Hr as [|x z y Hxz Hzy IH]; intros a Ha.
  - exists a. split; [apply rtc_refl | done].
  - destruct (Hstep _ _ _ Hxz Ha) as (b & Hab & Hb).
    destruct (IH _ Hb) as (c & Hbc & Hc). exists c. split; [by etrans | done].
Qed.

(** ** Lists *)

Section lists.
Context {A : Type}.
Implicit Types (l k : list A) (x y : A).

Lemma last_snoc_inv l x : last l = Some x -> exists k, l = k ++ [x].
Proof. intros H. apply last_Some in H. exact H. Qed.

Lemma NoDup_snoc l x : NoDup (l ++ [x]) <-> NoDup l /\ x ∉ l.
Proof.
  rewrite NoDup_app. split.
  - intros (Hl & Hd & _). split; [done|]. intros Hx. apply (Hd x Hx). set_solver.
  - intros (Hl & Hx). repeat split; [done| |apply NoDup_singleton].
    intros y Hy Hyx. apply list_elem_of_singleton in Hyx as ->. done.
Qed.

Lemma NoDup_perm l k : l ≡ₚ k -> NoDup l -> NoDup k.
Proof. by intros ->. Qed.

Lemma NoDup_remove_mid l k x : NoDup (l ++ x :: k) -> NoDup (l ++ k) /\ x ∉ l ++ k.
Proof.
  rewrite !NoDup_app, NoDup_cons. intros (Hl & Hd & Hx & Hk).
  split; [split; [done|]; split; [|done] | ]; set_solver.
Qed.

Lemma filter_all (P : A -> Prop) `{!forall x, Decision (P x)} l :
  (forall x, x ∈ l -> P x) -> filter P l = l.
Proof.
  induction l as [|y l IH]; intros HP; [done|].
  rewrite filter_cons_True by set_solver. f_equal. apply IH. set_solver.
Qed.

Lemma head_app_cons (l k : list A) x : head (l ++ x :: k) = head (l ++ [x]).
Proof. by destruct l. Qed.

Lemma Forall_sublist (P : A -> Prop) l k : sublist k l -> Forall P l -> Forall P k.
Proof.
  rewrite !Forall_forall. intros Hs HP x Hx. apply HP. by eapply elem_of_sublist.
Qed.
End lists.

(** ** Byte strings

    Lengths and offsets of buffers are [Z], as the C code computes them. *)

Abbreviation byte := Z.

Definition len {A} (l : list A) : Z := Z.of_nat (length l).
Definition ztake {A} (n : Z) (l : list A) : list A := take (Z.to_nat n) l.
Definition zdrop {A} (n : Z) (l : list A) : list A := drop (Z.to_nat n) l.

Lemma ztake_all {A} n (l : list A) : len l <= n -> ztake n l = l.
Proof. intros. unfold ztake, len in *. apply take_ge. lia. Qed.

Lemma ztake_zdrop {A} n (l : list A) : ztake n l ++ zdrop n l = l.
Proof. apply take_drop. Qed.

Lemma len_ztake {A} n (l : list A) : 0 <= n <= len l -> len (ztake n l) = n.
Proof. unfold len, ztake. rewrite length_take. lia. Qed.

Lemma len_zdrop {A} n (l : list A) : 0 <= n <= len l -> len (zdrop n l) = len l - n.
Proof. unfold len, zdrop. rewrite length_drop. lia. Qed.

Lemma len_app {A} (l k : list A) : len (l ++ k) = len l + len k.
Proof. unfold len. rewrite length_app. lia. Qed.

Lemma len_nonneg {A} (l : list A) : 0 <= len l.
Proof. unfold len. lia. Qed.


Lemma len_cons {A} (x : A) l : len (x :: l) = 1 + len l.
Proof. unfold len. cbn [length]. lia. Qed.

Lemma len_replicate {A} n (x : A) : len (replicate n x) = Z.of_nat n.
Proof. unfold len. by rewrite length_replicate. Qed.
