(* ===== verification/LinkedList.v ===== *)
(** * The intrusive doubly linked list (include/libavbox/linkedlist.h)

    Every list of libavbox (queues, timers, dispatch queues, node pools,
    menu items, input endpoints, processes) is a circular doubly linked
    list threaded through a [struct __listhead] embedded at the start of
    its elements.  This file models the macros on an explicit heap of list
    heads, where an access to an unmapped address is an error ([None]), and
    proves that each macro implements the corresponding operation on the
    list of element addresses. *)

From S2P Require Import Prelude.

(** ** Heap of list heads *)

(** Addresses; [NULL] is [None] in [option loc]. *)
Definition loc := positive.

(** [struct __listhead]: its two pointers. *)
Record listhead := Listhead { prev : loc; next : loc }.

Abbreviation heap := (gmap loc listhead).

Definition get_prev (h : heap) (p : loc) : option loc := prev <$> h !! p.
Definition get_next (h : heap) (p : loc) : option loc := next <$> h !! p.

Definition set_prev (h : heap) (p v : loc) : option heap :=
  n ← h !! p; Some (<[p := Listhead v (next n)]> h).
Definition set_next (h : heap) (p v : loc) : option heap :=
  n ← h !! p; Some (<[p := Listhead (prev n) v]> h).

(** ** The macros *)

Definition LIST_INIT (h : heap) (list : loc) : option heap :=
  h1 ← set_next h list list;
  set_prev h1 list list.

Definition LIST_EMPTY (h : heap) (list : loc) : option bool :=
  n ← get_next h list; Some (bool_decide (n = list)).

(** The four stores of [LIST_INSERT], in the order of the macro. *)
Definition LIST_INSERT (h : heap) (iitem iprev inext : loc) : option heap :=
  h1 ← set_prev h inext iitem;
  h2 ← set_next h1 iitem inext;
  h3 ← set_prev h2 iitem iprev;
  set_next h3 iprev iitem.

Definition LIST_ADD (h : heap) (list item : loc) : option heap :=
  n ← get_next h list; LIST_INSERT h item list n.

Definition LIST_APPEND (h : heap) (list item : loc) : option heap :=
  p ← get_prev h list; LIST_INSERT h item p list.

Definition LIST_REMOVE (h : heap) (item : loc) : option heap :=
  p ← get_prev h item;
  n ← get_next h item;
  h1 ← set_prev h n p;
  set_next h1 p n.

Definition LIST_SWAP (h : heap) (a b : loc) : option heap :=
  p ← get_prev h a;
  n ← get_next h a;
  bp ← get_prev h b;
  h1 ← set_prev h a bp;
  bn ← get_next h1 b;
  h2 ← set_next h1 a bn;
  h3 ← set_prev h2 b p;
  set_next h3 b n.

Definition LIST_ISNULL (list item : loc) : bool := bool_decide (item = list).

Definition LIST_NEXT (h : heap) (item : loc) : option loc := get_next h item.
Definition LIST_PREV (h : heap) (item : loc) : option loc := get_prev h item.

(** [None] outside is a bad access, [Some None] the C value [NULL]. *)
Definition LIST_TAIL (h : heap) (list : loc) : option (option loc) :=
  e ← LIST_EMPTY h list;
  if (e : bool) then Some None else Some <$> get_prev h list.

(** A loop body: it gets the current element, may change the heap and the
    loop's local state, and says whether it left the loop with [break]. *)
Definition loop_body (St : Type) : Type := loc -> heap -> St -> option (bool * heap * St).

(** [LIST_FOREACH]: the successor is read after the body ran. *)
Fixpoint LIST_FOREACH_from {St} (fuel : nat) (body : loop_body St) (list ivar : loc)
    (h : heap) (s : St) : option (heap * St) :=
  match fuel with
  | O => None
  | S fuel =>
      if bool_decide (ivar = list) then Some (h, s) else
      '(brk, h', s') ← body ivar h s;
      if (brk : bool) then Some (h', s') else
      n ← LIST_NEXT h' ivar;
      LIST_FOREACH_from fuel body list n h' s'
  end.

Definition LIST_FOREACH {St} (fuel : nat) (body : loop_body St) (list : loc)
    (h : heap) (s : St) : option (heap * St) :=
  v ← LIST_NEXT h list; LIST_FOREACH_from fuel body list v h s.

(** [LIST_FOREACH_SAFE]: the successor is read before the body runs. *)
Fixpoint LIST_FOREACH_SAFE_from {St} (fuel : nat) (body : loop_body St) (list var : loc)
    (h : heap) (s : St) : option (heap * St) :=
  match fuel with
  | O => None
  | S fuel =>
      if bool_decide (var = list) then Some (h, s) else
      n ← LIST_NEXT h var;
      '(brk, h', s') ← body var h s;
      if (brk : bool) then Some (h', s') else
      LIST_FOREACH_SAFE_from fuel body list n h' s'
  end.

Definition LIST_FOREACH_SAFE {St} (fuel : nat) (body : loop_body St) (list : loc)
    (h : heap) (s : St) : option (heap * St) :=
  v ← LIST_NEXT h list; LIST_FOREACH_SAFE_from fuel body list v h s.

(** [LIST_COUNT] counts with a [size_t]. *)
Definition LIST_COUNT (fuel : nat) (h : heap) (list : loc) : option Z :=
  snd <$> LIST_FOREACH fuel (fun _ h sz => Some (false, h, wrapu 64 (sz + 1))) list h 0.

Definition LIST_SIZE (fuel : nat) (h : heap) (list : loc) : option Z :=
  LIST_COUNT fuel h list.

(** ** Representation predicate *)

(** Two neighbours point at each other. *)
Definition link (h : heap) (a b : loc) : Prop :=
  get_next h a = Some b /\ get_prev h b = Some a.

Fixpoint chain (h : heap) (l : list loc) : Prop :=
  match l with
  | a :: (b :: _) as t => link h a b /\ chain h t
  | _ => True
  end.

(** [is_list h hd xs]: the ring that starts at the list head [hd] runs
    through the elements [xs] in order and back to [hd]. *)
Definition is_list (h : heap) (hd : loc) (xs : list loc) : Prop :=
  NoDup (hd :: xs) /\ chain h (hd :: xs ++ [hd]).

(** ** Stores *)

Lemma set_next_Some h p v :
  p ∈ dom h -> exists h', set_next h p v = Some h' /\
    (forall q, get_next h' q = if decide (q = p) then Some v else get_next h q) /\
    (forall q, get_prev h' q = get_prev h q) /\ dom h' = dom h.
Proof.
  intros [n Hn]%elem_of_dom. unfold set_next, get_next, get_prev. rewrite Hn. simpl.
  eexists. split; [done|]. split_and!.
  - intros q. destruct (decide (q = p)) as [->|]; by simplify_map_eq.
  - intros q. destruct (decide (q = p)) as [->|]; simplify_map_eq; by rewrite ?Hn.
  - rewrite dom_insert_L. apply elem_of_dom_2 in Hn. set_solver.
Qed.

Lemma set_prev_Some h p v :
  p ∈ dom h -> exists h', set_prev h p v = Some h' /\
    (forall q, get_prev h' q = if decide (q = p) then Some v else get_prev h q) /\
    (forall q, get_next h' q = get_next h q) /\ dom h' = dom h.
Proof.
  intros [n Hn]%elem_of_dom. unfold set_prev, get_next, get_prev. rewrite Hn. simpl.
  eexists. split; [done|]. split_and!.
  - intros q. destruct (decide (q = p)) as [->|]; by simplify_map_eq.
  - intros q. destruct (decide (q = p)) as [->|]; simplify_map_eq; by rewrite ?Hn.
  - rewrite dom_insert_L. apply elem_of_dom_2 in Hn. set_solver.
Qed.

Lemma LIST_INSERT_Some h i p n :
  i ∈ dom h -> p ∈ dom h -> n ∈ dom h -> i <> p -> i <> n ->
  exists h', LIST_INSERT h i p n = Some h' /\
    (forall q, get_next h' q =
       if decide (q = p) then Some i else if decide (q = i) then Some n else get_next h q) /\
    (forall q, get_prev h' q =
       if decide (q = i) then Some p else if decide (q = n) then Some i else get_prev h q) /\
    dom h' = dom h.
Proof.
  intros Hi Hp Hn Hip Hin. unfold LIST_INSERT.
  destruct (set_prev_Some h n i) as (h1 & -> & P1 & N1 & D1); [done|]. simpl.
  destruct (set_next_Some h1 i n) as (h2 & -> & N2 & P2 & D2); [by rewrite D1|]. simpl.
  destruct (set_prev_Some h2 i p) as (h3 & -> & P3 & N3 & D3); [by rewrite D2, D1|]. simpl.
  destruct (set_next_Some h3 p i) as (h4 & -> & N4 & P4 & D4); [by rewrite D3, D2, D1|].
  exists h4. split_and!; [done| | |congruence].
  - intros q. rewrite N4, N3, N2, N1. done.
  - intros q. rewrite P4, P3, P2, P1. done.
Qed.

Lemma LIST_REMOVE_Some h i p n :
  get_prev h i = Some p -> get_next h i = Some n -> p ∈ dom h -> n ∈ dom h ->
  exists h', LIST_REMOVE h i = Some h' /\
    (forall q, get_next h' q = if decide (q = p) then Some n else get_next h q) /\
    (forall q, get_prev h' q = if decide (q = n) then Some p else get_prev h q) /\
    dom h' = dom h.
Proof.
  intros Hp Hn Dp Dn. unfold LIST_REMOVE. rewrite Hp, Hn. simpl.
  destruct (set_prev_Some h n p) as (h1 & -> & P1 & N1 & D1); [done|]. simpl.
  destruct (set_next_Some h1 p n) as (h2 & -> & N2 & P2 & D2); [by rewrite D1|].
  exists h2. split_and!; [done| | |congruence].
  - intros q. by rewrite N2, N1.
  - intros q. by rewrite P2, P1.
Qed.

(** ** Chains *)

Lemma link_dom h a b : link h a b -> a ∈ dom h /\ b ∈ dom h.
Proof.
  intros [Hn Hp]. unfold get_next, get_prev in *.
  split; apply elem_of_dom; [destruct (h !! a)|destruct (h !! b)]; simplify_eq/=; eauto.
Qed.

Lemma chain_app h l a k :
  chain h (l ++ a :: k) <-> chain h (l ++ [a]) /\ chain h (a :: k).
Proof.
  induction l as [|b l IH]; [simpl; tauto|].
  destruct l as [|c l]; [simpl; tauto|].
  change (chain h ((b :: c :: l) ++ a :: k)) with (link h b c /\ chain h ((c :: l) ++ a :: k)).
  change (chain h ((b :: c :: l) ++ [a])) with (link h b c /\ chain h ((c :: l) ++ [a])).
  rewrite IH. tauto.
Qed.

Lemma chain_mid h l a b k :
  chain h (l ++ a :: b :: k) <-> chain h (l ++ [a]) /\ link h a b /\ chain h (b :: k).
Proof. rewrite chain_app. simpl. tauto. Qed.

(** A chain survives a heap change that keeps the [next] pointers of all
    its nodes but the last and the [prev] pointers of all but the first. *)
Lemma chain_frame h h' a l b :
  (forall q, q ∈ a :: l -> get_next h' q = get_next h q) ->
  (forall q, q ∈ l ++ [b] -> get_prev h' q = get_prev h q) ->
  chain h (a :: l ++ [b]) -> chain h' (a :: l ++ [b]).
Proof.
  revert a. induction l as [|c l IH]; intros a Hn Hp Hc.
  - simpl in *. unfold link in *. rewrite Hn, Hp by set_solver. done.
  - change (link h a c /\ chain h (c :: l ++ [b])) in Hc. destruct Hc as [Hl Hc].
    change (link h' a c /\ chain h' (c :: l ++ [b])). split.
    + unfold link in *. rewrite Hn, Hp by set_solver. done.
    + apply IH; [set_solver..|done].
Qed.

Lemma chain_frame1 h h' l a :
  (forall q, q ∈ l -> get_next h' q = get_next h q) ->
  (forall q, q ∈ tail (l ++ [a]) -> get_prev h' q = get_prev h q) ->
  chain h (l ++ [a]) -> chain h' (l ++ [a]).
Proof. destruct l as [|b l]; [done|]. apply chain_frame. Qed.

(** Heaps that agree on the nodes of a ring. *)
Definition agree_on (h h' : heap) (nodes : list loc) : Prop :=
  forall q, q ∈ nodes -> get_next h' q = get_next h q /\ get_prev h' q = get_prev h q.

Lemma is_list_agree h h' hd xs :
  agree_on h h' (hd :: xs) -> is_list h hd xs -> is_list h' hd xs.
Proof.
  intros Ha [Hnd Hc]. split; [done|].
  apply (chain_frame h); [intros q Hq; apply Ha; set_solver..|done].
Qed.

Lemma chain_dom h a l b q : chain h (a :: l ++ [b]) -> q ∈ a :: l ++ [b] -> q ∈ dom h.
Proof.
  revert a. induction l as [|c l IH]; intros a Hc Hq.
  - destruct Hc as [Hl _]. apply link_dom in Hl. set_solver.
  - change (link h a c /\ chain h (c :: l ++ [b])) in Hc. destruct Hc as [Hl Hc].
    apply link_dom in Hl as [? _]. apply elem_of_cons in Hq as [->|Hq]; [done|]. eauto.
Qed.

Lemma is_list_dom h hd xs q : is_list h hd xs -> q ∈ hd :: xs -> q ∈ dom h.
Proof. intros [_ Hc] Hq. eapply chain_dom; [done|]. set_solver. Qed.

(** The two halves of a ring around [p] and [n] survive stores that touch
    only the [next] pointer of [p], the [prev] pointer of [n] and nodes
    outside the ring. *)
Lemma ring_halves_frame h h' hd l k l' k' p n :
  hd :: l = l' ++ [p] -> k ++ [hd] = n :: k' -> NoDup (hd :: l ++ k) ->
  (forall q, q ∈ hd :: l ++ k -> q <> p -> get_next h' q = get_next h q) ->
  (forall q, q ∈ hd :: l ++ k -> q <> n -> get_prev h' q = get_prev h q) ->
  chain h (l' ++ [p]) -> chain h (n :: k') ->
  chain h' (l' ++ [p]) /\ chain h' (n :: k').
Proof.
  intros El Ek [Hhd Hnd]%NoDup_cons N P C1 C2.
  assert (p ∈ hd :: l) by (rewrite El; set_solver).
  assert (n ∈ hd :: k). { assert (n ∈ k ++ [hd]) by (rewrite Ek; set_solver). set_solver. }
  assert (NoDup (l' ++ [p])) as [_ Hpl']%NoDup_snoc.
  { rewrite <- El. apply NoDup_app in Hnd as [? _]. apply NoDup_cons. set_solver. }
  assert (forall q, q ∈ l' -> q ∈ hd :: l) as Hl' by (intros; rewrite El; set_solver).
  assert (tail (l' ++ [p]) = l) as Ht by (by rewrite <- El).
  apply NoDup_app in Hnd as (_ & Hlk & Hk).
  split.
  - apply (chain_frame1 h); [..|done]; [intros q Hq; apply N | rewrite Ht; intros q Hq; apply P];
      set_solver.
  - destruct k as [|n0 k0]; simplify_eq/=; [done|].
    apply NoDup_cons in Hk as [? _].
    apply (chain_frame h); [intros q Hq; apply N | intros q Hq; apply P | done]; set_solver.
Qed.

Lemma ring_insert_eq {A} (hd : A) l k l' k' (p n i : A) :
  hd :: l = l' ++ [p] -> k ++ [hd] = n :: k' ->
  hd :: (l ++ i :: k) ++ [hd] = l' ++ p :: i :: n :: k'.
Proof.
  intros El Ek. rewrite <- app_assoc. cbn [app]. rewrite Ek.
  change (hd :: l ++ i :: n :: k') with ((hd :: l) ++ i :: n :: k').
  by rewrite El, <- app_assoc.
Qed.

Lemma ring_eq {A} (hd : A) l k l' k' (p n : A) :
  hd :: l = l' ++ [p] -> k ++ [hd] = n :: k' ->
  hd :: (l ++ k) ++ [hd] = l' ++ p :: n :: k'.
Proof.
  intros El Ek. rewrite <- app_assoc, Ek.
  change (hd :: l ++ n :: k') with ((hd :: l) ++ n :: k').
  by rewrite El, <- app_assoc.
Qed.

Lemma ring_ends {A} (hd : A) (l k : list A) :
  exists l' k' p n, hd :: l = l' ++ [p] /\ k ++ [hd] = n :: k' /\
    last (hd :: l) = Some p /\ head (k ++ [hd]) = Some n.
Proof.
  destruct (last (hd :: l)) as [p|] eqn:Hp; [|by apply last_None in Hp].
  apply last_snoc_inv in Hp as Hl'. destruct Hl' as [l' El].
  destruct k as [|n k]; simpl; eauto 10.
Qed.

(** Insertion between two neighbours. *)
Lemma LIST_INSERT_ring h hd l k i p n :
  is_list h hd (l ++ k) -> i ∈ dom h -> i ∉ hd :: l ++ k ->
  last (hd :: l) = Some p -> head (k ++ [hd]) = Some n ->
  exists h', LIST_INSERT h i p n = Some h' /\ is_list h' hd (l ++ i :: k) /\
    dom h' = dom h /\ (forall ys, (forall q, q ∈ ys -> q ∉ hd :: l ++ i :: k) -> agree_on h h' ys).
Proof.
  intros [Hnd Hc] Hi Hf Hp Hn.
  destruct (ring_ends hd l k) as (l' & k' & p' & n' & El & Ek & Hp' & Hn').
  rewrite Hp in Hp'. rewrite Hn in Hn'. simplify_eq.
  rewrite (ring_eq _ _ _ _ _ _ _ El Ek) in Hc. apply chain_mid in Hc as (C1 & Lk & C2).
  assert (p' ∈ hd :: l) by (rewrite El; set_solver).
  assert (n' ∈ hd :: k). { assert (n' ∈ k ++ [hd]) by (rewrite Ek; set_solver). set_solver. }
  destruct (link_dom _ _ _ Lk) as [Dp Dn].
  destruct (LIST_INSERT_Some h i p' n') as (h' & Hh' & N & P & D); [set_solver..|].
  exists h'. split_and!; [done| |done|].
  - split.
    { apply NoDup_cons in Hnd as [? ?]. apply NoDup_cons. split; [set_solver|].
      rewrite <- Permutation_middle. apply NoDup_cons. set_solver. }
    rewrite (ring_insert_eq _ _ _ _ _ _ _ i El Ek).
    destruct (ring_halves_frame h h' hd l k l' k' p' n') as [C1' C2']; [done..| | |done|done|].
    + intros q Hq Hqp. rewrite N, !decide_False by set_solver. done.
    + intros q Hq Hqn. rewrite P, !decide_False by set_solver. done.
    + apply chain_mid. split_and!; [done|..|split; [|done]]; split; rewrite ?N, ?P.
      * by rewrite decide_True.
      * by rewrite decide_True.
      * rewrite decide_False, decide_True; set_solver.
      * rewrite decide_False, decide_True; set_solver.
  - intros ys Hys q Hq. specialize (Hys q Hq).
    rewrite N, P, !decide_False by set_solver. done.
Qed.

(** Removal of an element. *)
Lemma LIST_REMOVE_ring h hd l k i :
  is_list h hd (l ++ i :: k) ->
  exists h', LIST_REMOVE h i = Some h' /\ is_list h' hd (l ++ k) /\
    dom h' = dom h /\ (forall ys, (forall q, q ∈ ys -> q ∉ hd :: l ++ k) -> agree_on h h' ys).
Proof.
  intros [Hnd Hc].
  destruct (ring_ends hd l k) as (l' & k' & p & n & El & Ek & Hp & Hn).
  rewrite (ring_insert_eq _ _ _ _ _ _ _ i El Ek) in Hc.
  apply chain_mid in Hc as (C1 & Lpi & Lin & C2).
  assert (p ∈ hd :: l) by (rewrite El; set_solver).
  assert (n ∈ hd :: k). { assert (n ∈ k ++ [hd]) by (rewrite Ek; set_solver). set_solver. }
  assert (NoDup (hd :: l ++ k)) as Hnd'.
  { apply NoDup_cons in Hnd as [? Hnd]. apply NoDup_cons. split; [set_solver|].
    by apply NoDup_remove_mid in Hnd as [? _]. }
  destruct (link_dom _ _ _ Lpi) as [Dp _]. destruct (link_dom _ _ _ Lin) as [_ Dn].
  destruct Lpi as [_ Pi]. destruct Lin as [Ni _].
  destruct (LIST_REMOVE_Some h i p n) as (h' & Hh' & N & P & D); [done..|].
  exists h'. split_and!; [done| |done|].
  - split; [done|]. rewrite (ring_eq _ _ _ _ _ _ _ El Ek).
    destruct (ring_halves_frame h h' hd l k l' k' p n) as [C1' C2']; [done..| | |done|done|].
    + intros q Hq Hqp. by rewrite N, decide_False.
    + intros q Hq Hqn. by rewrite P, decide_False.
    + apply chain_mid. split_and!; [done| |done]. split; rewrite ?N, ?P; by rewrite decide_True.
  - intros ys Hys q Hq. specialize (Hys q Hq).
    rewrite N, P, !decide_False by set_solver. done.
Qed.

Lemma is_list_next h hd xs : is_list h hd xs -> get_next h hd = head (xs ++ [hd]).
Proof. intros [_ Hc]. destruct xs; apply Hc. Qed.

Lemma is_list_prev h hd xs : is_list h hd xs -> get_prev h hd = last (hd :: xs).
Proof.
  intros [_ Hc]. destruct (ring_ends hd xs []) as (l' & k' & p & n & El & Ek & Hp & Hn).
  rewrite <- (app_nil_r xs), (ring_eq _ _ _ _ _ _ _ El Ek) in Hc.
  apply chain_mid in Hc as (_ & [_ Hprev] & _). injection Ek as -> <-. by rewrite Hp.
Qed.

(** ** Iteration *)

Lemma is_list_succ h hd l i k :
  is_list h hd (l ++ i :: k) -> get_next h i = head (k ++ [hd]).
Proof.
  intros [_ Hc]. destruct (ring_ends hd l k) as (l' & k' & p & n & El & Ek & Hp & Hn).
  rewrite (ring_insert_eq _ _ _ _ _ _ _ i El Ek) in Hc.
  apply chain_mid in Hc as (_ & _ & [? _] & _). by rewrite Hn.
Qed.

(** A loop whose body neither changes the heap nor breaks is a fold. *)
Lemma LIST_FOREACH_from_fold {St} (f : loc -> St -> St) fuel h hd l k v s :
  is_list h hd (l ++ k) -> head (k ++ [hd]) = Some v -> (length k < fuel)%nat ->
  LIST_FOREACH_from fuel (fun q h s => Some (false, h, f q s)) hd v h s
    = Some (h, foldl (fun s q => f q s) s k).
Proof.
  revert l k v s. induction fuel as [|fuel IH]; intros l k v s Hl Hv Hf; [lia|]. simpl.
  destruct k as [|x k]; simplify_eq/=.
  { by rewrite bool_decide_true. }
  rewrite bool_decide_false.
  2:{ destruct Hl as [[Hd _]%NoDup_cons _]. set_solver. }
  unfold LIST_NEXT. rewrite (is_list_succ h hd l v k Hl).
  destruct (ring_ends hd [] k) as (_ & _ & _ & n & _ & _ & _ & Hn). rewrite Hn. simpl.
  rewrite (IH (l ++ [v]) k n); [done| |done|lia]. by rewrite <- app_assoc.
Qed.

(** A [LIST_FOREACH_SAFE] loop that removes the current element when [f]
    says so and collects what it removed. *)
Definition remove_if (f : loc -> bool) : loop_body (list loc) :=
  fun q h s => if f q then h' ← LIST_REMOVE h q; Some (false, h', s ++ [q]) else Some (false, h, s).

Lemma remove_if_true (f : loc -> bool) q h h' s :
  f q = true -> LIST_REMOVE h q = Some h' -> remove_if f q h s = Some (false, h', s ++ [q]).
Proof. unfold remove_if. by intros -> ->. Qed.

Lemma remove_if_false (f : loc -> bool) q h s :
  f q = false -> remove_if f q h s = Some (false, h, s).
Proof. unfold remove_if. by intros ->. Qed.

Lemma LIST_FOREACH_SAFE_from_remove (f : loc -> bool) fuel h hd l k v s :
  is_list h hd (l ++ k) -> head (k ++ [hd]) = Some v -> (length k < fuel)%nat ->
  exists h', LIST_FOREACH_SAFE_from fuel (remove_if f) hd v h s = Some (h', s ++ filter f k) /\
    is_list h' hd (l ++ filter (fun q => ~ f q) k).
Proof.
  revert l k v s h. induction fuel as [|fuel IH]; intros l k v s h Hl Hv Hf; [lia|].
  destruct k as [|x k]; simplify_eq/=.
  { rewrite bool_decide_true by done. exists h. by rewrite app_nil_r. }
  rewrite bool_decide_false.
  2:{ destruct Hl as [[Hd _]%NoDup_cons _]. set_solver. }
  unfold LIST_NEXT. rewrite (is_list_succ h hd l v k Hl).
  destruct (ring_ends hd [] k) as (_ & _ & _ & n & _ & _ & _ & Hn). rewrite Hn. simpl.
  rewrite !filter_cons. destruct (f v) eqn:Ef.
  - destruct (LIST_REMOVE_ring h hd l k v Hl) as (h1 & Hr & Hl1 & _ & _).
    rewrite (remove_if_true f v h h1) by done. simpl.
    destruct (IH l k n (s ++ [v]) h1) as (h' & -> & ?); [done..|lia|].
    exists h'. by rewrite <- app_assoc.
  - rewrite (remove_if_false f v h s) by done. simpl.
    destruct (IH (l ++ [v]) k n s h) as (h' & -> & Hl'); [by rewrite <- app_assoc|done|lia|].
    exists h'. split; [done|]. by rewrite <- app_assoc in Hl'.
Qed.

Lemma foldl_count {A} (l : list A) z :
  foldl (fun s (_ : A) => wrapu 64 (s + 1)) (wrapu 64 z) l = wrapu 64 (z + Z.of_nat (length l)).
Proof.
  revert z. induction l as [|x l IH]; intros z; simpl; [by rewrite Z.add_0_r|].
  rewrite wrapu_add_l, IH. f_equal. lia.
Qed.

Lemma foldl_collect {A} (l s : list A) : foldl (fun s q => s ++ [q]) s l = s ++ l.
Proof.
  revert s. induction l as [|x l IH]; intros s; simpl; [by rewrite app_nil_r|].
  by rewrite IH, <- app_assoc.
Qed.

Lemma is_list_size h hd xs : is_list h hd xs -> (length xs < size h)%nat.
Proof.
  intros Hl. destruct Hl as [Hnd Hc] eqn:E. rewrite <- size_dom.
  assert (length (hd :: xs) <= size (dom h))%nat; [|simpl in *; lia].
  rewrite <- (size_list_to_set (C := gset loc) (hd :: xs)) by done.
  apply subseteq_size. intros q Hq. apply elem_of_list_to_set in Hq.
  by apply (is_list_dom h hd xs).
Qed.

(** The invariant rule for a loop that neither changes the heap nor
    breaks. *)
Lemma LIST_FOREACH_from_inv {St} (I : list loc -> St -> Prop) (body : loop_body St) fuel h hd l k v s :
  is_list h hd (l ++ k) -> head (k ++ [hd]) = Some v -> (length k < fuel)%nat -> I l s ->
  (forall l' q k' s, l ++ k = l' ++ q :: k' -> I l' s ->
     exists s', body q h s = Some (false, h, s') /\ I (l' ++ [q]) s') ->
  exists s', LIST_FOREACH_from fuel body hd v h s = Some (h, s') /\ I (l ++ k) s'.
Proof.
  revert l k v s. induction fuel as [|fuel IH]; intros l k v s Hl Hv Hf Hi Hb; [lia|]. simpl.
  destruct k as [|x k]; simplify_eq/=.
  { rewrite bool_decide_true, app_nil_r by done. eauto. }
  rewrite bool_decide_false.
  2:{ destruct Hl as [[Hd _]%NoDup_cons _]. set_solver. }
  destruct (Hb l v k s eq_refl Hi) as (s' & -> & Hi'). simpl.
  unfold LIST_NEXT. rewrite (is_list_succ h hd l v k Hl).
  destruct (ring_ends hd [] k) as (_ & _ & _ & n & _ & _ & _ & Hn). rewrite Hn. simpl.
  rewrite cons_middle, (assoc_L (++)) in Hl, Hb |- *. apply IH; auto with lia.
Qed.

Lemma LIST_FOREACH_inv {St} (I : list loc -> St -> Prop) (body : loop_body St) h hd xs s :
  is_list h hd xs -> I [] s ->
  (forall l q k s, xs = l ++ q :: k -> I l s ->
     exists s', body q h s = Some (false, h, s') /\ I (l ++ [q]) s') ->
  exists s', LIST_FOREACH (S (size h)) body hd h s = Some (h, s') /\ I xs s'.
Proof.
  intros Hl Hi Hb. unfold LIST_FOREACH, LIST_NEXT. rewrite (is_list_next h hd xs Hl).
  destruct (ring_ends hd [] xs) as (_ & _ & _ & n & _ & _ & _ & Hn). rewrite Hn.
  pose proof (is_list_size h hd xs Hl).
  apply (LIST_FOREACH_from_inv I body _ h hd [] xs n); auto with lia.
Qed.

(** A loop that does nothing on the elements [l] and leaves with [break]
    at the element [q]: both loops end with what the body returned. *)
Lemma FOREACH_from_break {St} (body : loop_body St) fuel h hd m l q k v s r :
  is_list h hd (m ++ l ++ q :: k) -> head ((l ++ q :: k) ++ [hd]) = Some v -> (length l < fuel)%nat ->
  (forall p, p ∈ l -> body p h s = Some (false, h, s)) -> body q h s = Some (true, r.1, r.2) ->
  LIST_FOREACH_from fuel body hd v h s = Some r /\
  LIST_FOREACH_SAFE_from fuel body hd v h s = Some r.
Proof.
  revert m l v. induction fuel as [|fuel IH]; intros m l v Hl Hv Hf Hb Hq; [lia|]. simpl.
  rewrite bool_decide_false.
  2:{ destruct Hl as [[Hd _]%NoDup_cons _]. destruct l; simplify_eq/=; set_solver. }
  destruct l as [|x l]; simplify_eq/=.
  { unfold LIST_NEXT. rewrite (is_list_succ h hd m v k Hl).
    destruct (ring_ends hd [] k) as (_ & _ & _ & n & _ & _ & _ & Hn). rewrite Hn, Hq. simpl.
    by destruct r. }
  unfold LIST_NEXT. rewrite Hb by set_solver. simpl. rewrite (is_list_succ h hd m v _ Hl).
  destruct (ring_ends hd [] (l ++ q :: k)) as (_ & _ & _ & n & _ & _ & _ & Hn). rewrite Hn. simpl.
  apply (IH (m ++ [v]) l n); [by rewrite <- app_assoc|done|lia| |done].
  set_solver.
Qed.

Lemma FOREACH_break {St} (body : loop_body St) h hd l q k s r :
  is_list h hd (l ++ q :: k) ->
  (forall p, p ∈ l -> body p h s = Some (false, h, s)) -> body q h s = Some (true, r.1, r.2) ->
  LIST_FOREACH (S (size h)) body hd h s = Some r /\
  LIST_FOREACH_SAFE (S (size h)) body hd h s = Some r.
Proof.
  intros Hl Hb Hq. unfold LIST_FOREACH, LIST_FOREACH_SAFE, LIST_NEXT.
  rewrite (is_list_next h hd _ Hl).
  destruct (ring_ends hd [] (l ++ q :: k)) as (_ & _ & _ & n & _ & _ & _ & Hn). rewrite Hn.
  pose proof (is_list_size h hd _ Hl) as Hsz. rewrite length_app in Hsz.
  apply (FOREACH_from_break body _ h hd [] l q k n); auto with lia.
Qed.

(** A [LIST_FOREACH_SAFE] loop that does nothing. *)
Lemma LIST_FOREACH_SAFE_from_skip {St} (body : loop_body St) fuel h hd l k v s :
  is_list h hd (l ++ k) -> head (k ++ [hd]) = Some v -> (length k < fuel)%nat ->
  (forall p, p ∈ k -> body p h s = Some (false, h, s)) ->
  LIST_FOREACH_SAFE_from fuel body hd v h s = Some (h, s).
Proof.
  revert l k v. induction fuel as [|fuel IH]; intros l k v Hl Hv Hf Hb; [lia|]. simpl.
  destruct k as [|x k]; simplify_eq/=; [by rewrite bool_decide_true|].
  rewrite bool_decide_false.
  2:{ destruct Hl as [[Hd _]%NoDup_cons _]. set_solver. }
  unfold LIST_NEXT. rewrite (is_list_succ h hd l v k Hl).
  destruct (ring_ends hd [] k) as (_ & _ & _ & n & _ & _ & _ & Hn). rewrite Hn. simpl.
  rewrite Hb by set_solver. simpl. apply (IH (l ++ [v]) k n); [by rewrite <- app_assoc|done|lia|set_solver].
Qed.

Lemma LIST_FOREACH_SAFE_skip {St} (body : loop_body St) h hd xs s :
  is_list h hd xs -> (forall p, p ∈ xs -> body p h s = Some (false, h, s)) ->
  LIST_FOREACH_SAFE (S (size h)) body hd h s = Some (h, s).
Proof.
  intros Hl Hb. unfold LIST_FOREACH_SAFE, LIST_NEXT. rewrite (is_list_next h hd xs Hl).
  destruct (ring_ends hd [] xs) as (_ & _ & _ & n & _ & _ & _ & Hn). rewrite Hn.
  pose proof (is_list_size h hd xs Hl).
  apply (LIST_FOREACH_SAFE_from_skip body _ h hd [] xs n); auto with lia.
Qed.

(** The elements a loop over the list visits, in order. *)
Definition LIST_ELEMS (h : heap) (hd : loc) : option (list loc) :=
  snd <$> LIST_FOREACH (S (size h)) (fun q h s => Some (false, h, s ++ [q])) hd h [].

Lemma LIST_ELEMS_list h hd xs : is_list h hd xs -> LIST_ELEMS h hd = Some xs.
Proof.
  intros Hl. unfold LIST_ELEMS, LIST_FOREACH, LIST_NEXT. rewrite (is_list_next h hd xs Hl).
  destruct (ring_ends hd [] xs) as (_ & _ & _ & n & _ & _ & _ & Hn). rewrite Hn.
  cbn [mbind option_bind]. pose proof (is_list_size h hd xs Hl).
  rewrite (LIST_FOREACH_from_fold (fun q s => s ++ [q]) _ h hd [] xs n []) by (done || lia).
  simpl. by rewrite foldl_collect.
Qed.

(** ** The interface the clients of the list rely on *)

(** A store of list nodes with the operations the library uses on a list
    given by its head (the clients only ever initialise a list, add at
    either end, remove an element and look at the tail), and what each
    operation promises: about the list it works on, about every disjoint
    list of the same store, and about the allocated nodes. *)
Definition disjoint_ring (hd : loc) (xs : list loc) (hd2 : loc) (ys : list loc) : Prop :=
  forall q, q ∈ hd2 :: ys -> q ∉ hd :: xs.

Class ListStore (M : Type) := {
  list_init : M -> loc -> option M;
  list_add : M -> loc -> loc -> option M;
  list_append : M -> loc -> loc -> option M;
  list_remove : M -> loc -> option M;
  list_tail : M -> loc -> option (option loc);
  (** the elements in the order the loops visit them *)
  list_elems : M -> loc -> option (list loc);
  (** [malloc] of a node that is not yet on any list *)
  list_alloc : M -> loc -> M;
  (** the elements of the list with a given head, and the allocated nodes *)
  rep : M -> loc -> list loc -> Prop;
  allocated : M -> loc -> Prop;
  rep_NoDup : forall m hd xs, rep m hd xs -> NoDup (hd :: xs);
  rep_allocated : forall m hd xs q, rep m hd xs -> q ∈ hd :: xs -> allocated m q;
  list_alloc_rep : forall m i, ~ allocated m i ->
    (forall hd xs, rep m hd xs -> rep (list_alloc m i) hd xs) /\
    (forall q, allocated (list_alloc m i) q <-> q = i \/ allocated m q);
  list_init_rep : forall m hd, allocated m hd ->
    exists m', list_init m hd = Some m' /\ rep m' hd [] /\
      (forall q, allocated m' q <-> allocated m q) /\
      (forall hd2 ys, hd ∉ hd2 :: ys -> rep m hd2 ys -> rep m' hd2 ys);
  list_add_rep : forall m hd xs i, rep m hd xs -> allocated m i -> i ∉ hd :: xs ->
    exists m', list_add m hd i = Some m' /\ rep m' hd (i :: xs) /\
      (forall q, allocated m' q <-> allocated m q) /\
      (forall hd2 ys, disjoint_ring hd (i :: xs) hd2 ys -> rep m hd2 ys -> rep m' hd2 ys);
  list_append_rep : forall m hd xs i, rep m hd xs -> allocated m i -> i ∉ hd :: xs ->
    exists m', list_append m hd i = Some m' /\ rep m' hd (xs ++ [i]) /\
      (forall q, allocated m' q <-> allocated m q) /\
      (forall hd2 ys, disjoint_ring hd (i :: xs) hd2 ys -> rep m hd2 ys -> rep m' hd2 ys);
  list_remove_rep : forall m hd l i k, rep m hd (l ++ i :: k) ->
    exists m', list_remove m i = Some m' /\ rep m' hd (l ++ k) /\
      (forall q, allocated m' q <-> allocated m q) /\
      (forall hd2 ys, disjoint_ring hd (l ++ i :: k) hd2 ys -> rep m hd2 ys -> rep m' hd2 ys);
  list_tail_rep : forall m hd xs, rep m hd xs -> list_tail m hd = Some (last xs);
  list_elems_rep : forall m hd xs, rep m hd xs -> list_elems m hd = Some xs;
}.

(** The macros on the heap of list heads implement the interface.  The
    contents of a node fresh from [malloc] are arbitrary; the model picks
    self-links. *)
#[export] Program Instance heap_list_store : ListStore heap := {|
  list_init h hd := LIST_INIT h hd;
  list_add h hd i := LIST_ADD h hd i;
  list_append h hd i := LIST_APPEND h hd i;
  list_remove h i := LIST_REMOVE h i;
  list_tail h hd := LIST_TAIL h hd;
  list_elems h hd := LIST_ELEMS h hd;
  list_alloc h i := <[i := Listhead i i]> h;
  rep h hd xs := is_list h hd xs;
  allocated h q := q ∈ dom h;
|}.
Next Obligation. by intros h hd xs [? _]. Qed.
Next Obligation. intros h hd xs q. apply is_list_dom. Qed.
Next Obligation.
  intros h i Hi. split; [|intros q; rewrite dom_insert_L; set_solver].
  intros hd xs Hl. apply (is_list_agree h); [|done]. intros q Hq.
  pose proof (is_list_dom _ _ _ _ Hl Hq). unfold get_next, get_prev.
  by rewrite lookup_insert_ne by set_solver.
Qed.
Next Obligation.
  intros h hd Hd. unfold LIST_INIT.
  destruct (set_next_Some h hd hd Hd) as (h1 & -> & N1 & P1 & D1). simpl.
  destruct (set_prev_Some h1 hd hd) as (h2 & -> & P2 & N2 & D2); [by rewrite D1|].
  exists h2. split_and!; [done| |by rewrite D2, D1|].
  - split; [apply NoDup_singleton|]. split; [|done].
    split; [rewrite N2, N1 | rewrite P2]; by rewrite decide_True.
  - intros hd2 ys Hh. apply is_list_agree. intros q Hq.
    rewrite N2, N1, P2, P1, !decide_False by set_solver. done.
Qed.
Next Obligation.
  intros h hd xs i Hl Hi Hf. unfold LIST_ADD. rewrite (is_list_next h hd xs) by done.
  destruct (ring_ends hd [] xs) as (l' & k' & p & n & El & Ek & Hp & Hn). rewrite Hn. simpl.
  destruct (LIST_INSERT_ring h hd [] xs i hd n) as (h' & -> & ? & D & Hfr); [done..|].
  exists h'. rewrite D. split_and!; [done..|]. intros hd2 ys Hd.
  apply is_list_agree, Hfr. exact Hd.
Qed.
Next Obligation.
  intros h hd xs i Hl Hi Hf. unfold LIST_APPEND. rewrite (is_list_prev h hd xs) by done.
  destruct (ring_ends hd xs []) as (l' & k' & p & n & El & Ek & Hp & Hn). rewrite Hp.
  cbn [mbind option_bind].
  destruct (LIST_INSERT_ring h hd xs [] i p hd) as (h' & -> & ? & D & Hfr);
    [by rewrite app_nil_r|done|rewrite app_nil_r; set_solver|done..|].
  exists h'. rewrite D. split_and!; [done..|]. intros hd2 ys Hd.
  apply is_list_agree, Hfr. intros q Hq. specialize (Hd q Hq). set_solver.
Qed.
Next Obligation.
  intros h hd l i k Hl. destruct (LIST_REMOVE_ring h hd l k i Hl) as (h' & -> & ? & D & Hfr).
  exists h'. rewrite D. split_and!; [done..|]. intros hd2 ys Hd.
  apply is_list_agree, Hfr. intros q Hq. specialize (Hd q Hq). set_solver.
Qed.
Next Obligation.
  intros h hd xs Hl. unfold LIST_TAIL, LIST_EMPTY.
  rewrite (is_list_next h hd xs), (is_list_prev h hd xs) by done.
  destruct xs as [|x xs]; cbn [head app mbind option_bind].
  - by rewrite bool_decide_true.
  - destruct Hl as [[Hx _]%NoDup_cons _]. rewrite bool_decide_false by set_solver.
    rewrite last_cons_cons. by destruct (last (x :: xs)) eqn:E; [|apply last_None in E].
Qed.
Next Obligation. intros h hd xs. apply LIST_ELEMS_list. Qed.

(** The abstract specification: a map from list heads to lists of
    addresses implements it too. *)
Record abs_store := AbsStore { lists : gmap loc (list loc); cells : gset loc }.

#[export] Program Instance abs_list_store : ListStore abs_store := {|
  list_init m hd := Some (AbsStore (<[hd := []]> (lists m)) (cells m));
  list_add m hd i := l ← lists m !! hd; Some (AbsStore (<[hd := i :: l]> (lists m)) (cells m));
  list_append m hd i := l ← lists m !! hd; Some (AbsStore (<[hd := l ++ [i]]> (lists m)) (cells m));
  list_remove m i := Some (AbsStore (filter (fun q => q <> i) <$> lists m) (cells m));
  list_tail m hd := last <$> lists m !! hd;
  list_elems m hd := lists m !! hd;
  list_alloc m i := AbsStore (lists m) ({[i]} ∪ cells m);
  rep m hd xs := lists m !! hd = Some xs /\ NoDup (hd :: xs) /\ (forall q, q ∈ hd :: xs -> q ∈ cells m);
  allocated m q := q ∈ cells m;
|}.
Next Obligation. naive_solver. Qed.
Next Obligation. naive_solver. Qed.
Next Obligation. intros m i Hi. simpl. split; [|set_solver]. intros hd xs (? & ? & ?). set_solver. Qed.
Next Obligation.
  intros m hd Hd. eexists. split; [done|]. split; [simpl; rewrite lookup_insert_eq|split; [done|]].
  - split_and!; [done|apply NoDup_singleton|set_solver].
  - intros hd2 ys Hh (? & ? & ?). simpl. rewrite lookup_insert_ne by set_solver. done.
Qed.
Next Obligation.
  intros m hd xs i (E & Hnd & Hc) Hi Hf. simpl. rewrite E. simpl.
  eexists. split; [done|]. split; [simpl; rewrite lookup_insert_eq|split; [done|]].
  - apply NoDup_cons in Hnd as [? ?]. split_and!; [done| |set_solver].
    repeat (apply NoDup_cons; split; [set_solver|]). done.
  - intros hd2 ys Hd (? & ? & ?). simpl.
    rewrite lookup_insert_ne; [done|]. intros ->. apply (Hd hd2); set_solver.
Qed.
Next Obligation.
  intros m hd xs i (E & Hnd & Hc) Hi Hf. simpl. rewrite E. simpl.
  eexists. split; [done|]. split; [simpl; rewrite lookup_insert_eq|split; [done|]].
  - split_and!; [done|change (hd :: xs ++ [i]) with ((hd :: xs) ++ [i]); by apply NoDup_snoc|set_solver].
  - intros hd2 ys Hd (? & ? & ?). simpl.
    rewrite lookup_insert_ne; [done|]. intros ->. apply (Hd hd2); set_solver.
Qed.
Next Obligation.
  intros m hd l i k (E & Hnd & Hc). simpl.
  change (hd :: l ++ i :: k) with ((hd :: l) ++ i :: k) in Hnd.
  apply NoDup_remove_mid in Hnd as [Hnd Hi].
  eexists. split; [done|]. split; [simpl|split; [done|]].
  - rewrite lookup_fmap, E. simpl. split_and!; [|done|set_solver].
    rewrite filter_app, filter_cons_False by (intros HH; by apply HH).
    by rewrite !filter_all by set_solver.
  - intros hd2 ys Hd (E2 & ? & ?). simpl. rewrite lookup_fmap, E2. simpl.
    rewrite filter_all; [done|]. intros x Hx ->. apply (Hd i); set_solver.
Qed.
Next Obligation. intros m hd xs (E & _). simpl. by rewrite E. Qed.
Next Obligation. by intros m hd xs (E & _). Qed.

(** ** Properties *)

(** Every other list of the heap that shares no node with the ring of
    [hd] through [xs] is still a list after the step from [h] to [h']. *)
Definition others_kept (h h' : heap) (hd : loc) (xs : list loc) : Prop :=
  forall hd2 ys, disjoint_ring hd xs hd2 ys -> is_list h hd2 ys -> is_list h' hd2 ys.

(** C19. The list macros implement lists: on a well-formed ring
    [LIST_TAIL] is the last element (or NULL), [LIST_ADD] of an allocated
    node that is not on the ring puts it first, [LIST_APPEND] puts it
    last, [LIST_REMOVE] takes exactly that element out; none of them
    touches an unmapped address, and every disjoint list of the same heap
    is left as it was. *)
Theorem list_macros_refine (h : heap) (hd : loc) (xs : list loc) :
  is_list h hd xs ->
  LIST_TAIL h hd = Some (last xs) /\
  (forall i, i ∈ dom h -> i ∉ hd :: xs ->
     (exists h', LIST_ADD h hd i = Some h' /\ is_list h' hd (i :: xs) /\
        others_kept h h' hd (i :: xs)) /\
     (exists h', LIST_APPEND h hd i = Some h' /\ is_list h' hd (xs ++ [i]) /\
        others_kept h h' hd (i :: xs))) /\
  (forall l i k, xs = l ++ i :: k ->
     exists h', LIST_REMOVE h i = Some h' /\ is_list h' hd (l ++ k) /\ others_kept h h' hd xs).
Proof.
  intros Hl. split_and!.
  - exact (@list_tail_rep heap heap_list_store h hd xs Hl).
  - intros i Hi Hf. split.
    + destruct (@list_add_rep heap heap_list_store h hd xs i Hl Hi Hf) as (h' & ? & ? & _ & ?). by exists h'.
    + destruct (@list_append_rep heap heap_list_store h hd xs i Hl Hi Hf) as (h' & ? & ? & _ & ?). by exists h'.
  - intros l i k ->. destruct (@list_remove_rep heap heap_list_store h hd l i k Hl) as (h' & ? & ? & _ & ?). by exists h'.
Qed.

(** [LIST_FOREACH_SAFE] may remove the current element: the loop that
    calls [LIST_REMOVE] on every element satisfying [f] ends after at most
    [length xs + 1] tests, removes exactly those elements, in order, and
    leaves the list of the others. *)
Lemma foreach_safe_remove (h : heap) (hd : loc) (xs : list loc) (f : loc -> bool) :
  is_list h hd xs ->
  exists h', LIST_FOREACH_SAFE (S (length xs)) (remove_if f) hd h [] = Some (h', filter f xs) /\
    is_list h' hd (filter (fun q => ~ f q) xs).
Proof.
  intros Hl. unfold LIST_FOREACH_SAFE, LIST_NEXT. rewrite (is_list_next h hd xs Hl).
  destruct (ring_ends hd [] xs) as (_ & _ & _ & n & _ & _ & _ & Hn). rewrite Hn. cbn [mbind option_bind].
  destruct (LIST_FOREACH_SAFE_from_remove f (S (length xs)) h hd [] xs n [])
    as (h' & E & Hl'); [done..|lia|].
  exists h'. by rewrite E.
Qed.

(** [LIST_SIZE] returns the number of elements, as a [size_t]. *)
Lemma list_size_length (h : heap) (hd : loc) (xs : list loc) :
  is_list h hd xs -> Z.of_nat (length xs) <= SIZE_MAX ->
  LIST_SIZE (S (length xs)) h hd = Some (Z.of_nat (length xs)).
Proof.
  intros Hl Hsz. unfold LIST_SIZE, LIST_COUNT, LIST_FOREACH, LIST_NEXT.
  rewrite (is_list_next h hd xs Hl).
  destruct (ring_ends hd [] xs) as (_ & _ & _ & n & _ & _ & _ & Hn). rewrite Hn. cbn [mbind option_bind].
  rewrite (LIST_FOREACH_from_fold (fun _ sz => wrapu 64 (sz + 1)) _ h hd [] xs n 0) by (done || lia).
  simpl. rewrite <- (wrapu_small 64 0) at 1 by lia. rewrite foldl_count, wrapu_small; [done|].
  unfold SIZE_MAX in Hsz. lia.
Qed.

(** *** Witnesses *)

(** Head 1, elements 2 and 3, and a free node 4. *)
Definition sample_heap : heap :=
  list_to_map [(1, Listhead 3 2); (2, Listhead 1 3);
               (3, Listhead 2 1); (4, Listhead 4 4)]%positive.

Lemma sample_is_list : is_list sample_heap 1%positive [2; 3]%positive.
Proof.
  split; [|repeat split; reflexivity].
  repeat (apply NoDup_cons; split; [set_solver|]). by apply NoDup_nil.
Qed.

Lemma list_macros_refine_witness :
  LIST_TAIL sample_heap 1%positive = Some (Some 3%positive) /\
  (exists h', LIST_ADD sample_heap 1%positive 4%positive = Some h' /\ is_list h' 1%positive [4; 2; 3]%positive) /\
  (exists h', LIST_REMOVE sample_heap 2%positive = Some h' /\ is_list h' 1%positive [3]%positive).
Proof.
  destruct (list_macros_refine sample_heap 1%positive [2; 3]%positive sample_is_list) as (Ht & Ha & Hr).
  split; [exact Ht|]. split.
  - destruct (Ha 4%positive) as [(h' & ? & ? & _) _];
      [vm_compute; reflexivity|set_solver|eauto].
  - destruct (Hr [] 2%positive [3%positive]) as (h' & ? & ? & _); [done|eauto].
Defined.

Lemma foreach_safe_remove_witness :
  exists h', LIST_FOREACH_SAFE 3 (remove_if (Pos.eqb 2)) 1%positive sample_heap [] = Some (h', [2%positive]) /\
    is_list h' 1%positive [3%positive].
Proof. exact (foreach_safe_remove sample_heap 1%positive [2; 3]%positive (Pos.eqb 2) sample_is_list). Defined.

Lemma list_size_length_witness : LIST_SIZE 3 sample_heap 1%positive = Some 2.
Proof. apply (list_size_length sample_heap 1%positive [2; 3]%positive sample_is_list). vm_compute. discriminate. Defined.

(** [LIST_SWAP] exchanges the pointers of its two arguments but not those
    of their neighbours: swapping the two ends of a three-element ring
    does not give the ring in the swapped order. *)
Lemma list_swap_breaks_ring :
  let h := list_to_map [(1, Listhead 4 2); (2, Listhead 1 3);
                        (3, Listhead 2 4); (4, Listhead 3 1)]%positive in
  is_list h 1%positive [2; 3; 4]%positive /\
  exists h', LIST_SWAP h 2%positive 4%positive = Some h' /\ ~ is_list h' 1%positive [4; 3; 2]%positive.
Proof.
  split.
  - split; [|repeat split; reflexivity].
    repeat (apply NoDup_cons; split; [set_solver|]). by apply NoDup_nil.
  - eexists. split; [vm_compute; reflexivity|]. intros [_ [[Hn _] _]]. by vm_compute in Hn.
Qed.
