(* ===== verification/TimeUtil.v ===== *)
(** * Time arithmetic (src/lib/time_util.c)

    [struct timespec] and the comparisons, sums and differences the timers,
    the queues and the clocks are built on.  [time_t] and [long] are 64-bit
    signed; the two functions written with [double] ([utimediff],
    [timeaddu]) use the IEEE binary64 operations of [SpecFloat]. *)

From Stdlib Require Import Floats.SpecFloat.
From S2P Require Import Prelude.

Open Scope avbox_scope.

(** ** Data *)

Record timespec := Timespec { tv_sec : Z; tv_nsec : Z }.

(** What [gettimeofday] reports. *)
Record timeval := Timeval { tval_sec : Z; tval_usec : Z }.

#[export] Instance timespec_eq_dec : EqDecision timespec.
Proof. solve_decision. Defined.

Definition NSEC : Z := 1000 * 1000 * 1000.

Definition zerotime : timespec := Timespec 0 0.

(** ** Comparisons *)

Definition _timelt (time1 time2 : timespec) : bool :=
  if tv_sec time1 <? tv_sec time2 then true
  else if tv_sec time1 >? tv_sec time2 then false
  else if tv_nsec time1 <? tv_nsec time2 then true
  else false.

Definition timelt (time1 time2 : timespec) : bool := _timelt time1 time2.

Definition timelte (time1 time2 : timespec) : bool :=
  if (tv_sec time1 =? tv_sec time2) && (tv_nsec time1 =? tv_nsec time2) then true
  else _timelt time1 time2.

Definition timegt (time1 time2 : timespec) : bool := negb (timelte time1 time2).

Definition timegte (time1 time2 : timespec) : bool := negb (timelt time1 time2).

Definition timeeq (time1 time2 : timespec) : bool :=
  if negb (tv_nsec time1 =? tv_nsec time2) || negb (tv_sec time1 =? tv_sec time2)
  then false else true.

(** ** Sums and differences *)

Definition timeadd (time1 time2 : timespec) : timespec :=
  let nsec := s64 (tv_nsec time1 + tv_nsec time2) in
  let sec := s64 (tv_sec time1 + tv_sec time2) in
  Timespec (s64 (sec + Z.quot nsec NSEC)) (Z.rem nsec NSEC).

(** A NULL argument stands for the zero time. *)
Definition or_zero (t : option timespec) : timespec := default zerotime t.

Definition timediff (start tend : option timespec) : timespec :=
  let start := or_zero start in
  let tend := or_zero tend in
  if s64 (tv_nsec tend - tv_nsec start) <? 0 then
    Timespec (s64 (s64 (tv_sec tend - tv_sec start) - 1))
             (s64 (NSEC + s64 (tv_nsec tend - tv_nsec start)))
  else
    Timespec (s64 (tv_sec tend - tv_sec start)) (s64 (tv_nsec tend - tv_nsec start)).

(** The carry loop of [abstime]; [fuel] bounds its iterations. *)
Fixpoint abstime_carry (fuel : nat) (tv : timespec) : option timespec :=
  match fuel with
  | O => None
  | S fuel =>
      if tv_nsec tv >? NSEC
      then abstime_carry fuel (Timespec (s64 (tv_sec tv + 1)) (s64 (tv_nsec tv - NSEC)))
      else Some tv
  end.

(** [now] is the answer of [gettimeofday]. *)
Definition abstime (fuel : nat) (now : timeval) : option timespec :=
  abstime_carry fuel (Timespec (tval_sec now) (s64 (tval_usec now * 1000))).

Definition delay2abstime (fuel : nat) (now : timeval) (tv : timespec) : option timespec :=
  abs ← abstime fuel now; Some (timeadd tv abs).

(** ** The functions written with [double] *)

Definition dbl_of_Z (z : Z) : spec_float := binary_normalize 53 1024 z 0 false.
Definition dadd := SFadd 53 1024.
Definition dmul := SFmul 53 1024.
Definition ddiv := SFdiv 53 1024.

(** Conversion of a finite [double] to an integer truncates toward zero. *)
Definition Z_of_dbl (f : spec_float) : Z :=
  match f with
  | S754_finite s m e =>
      let a := if 0 <=? e then Z.pos m * 2 ^ e else Z.pos m / 2 ^ (- e) in
      if s then - a else a
  | _ => 0
  end.

(** [(tv_sec * 1000.0 * 1000.0) + (tv_nsec / 1000.0)] as an [int64_t]. *)
Definition usecs_of (t : timespec) : Z :=
  Z_of_dbl (dadd (dmul (dmul (dbl_of_Z (tv_sec t)) (dbl_of_Z 1000)) (dbl_of_Z 1000))
                 (ddiv (dbl_of_Z (tv_nsec t)) (dbl_of_Z 1000))).

Definition utimediff (a b : option timespec) : Z :=
  let aa := usecs_of (or_zero a) in
  let bb := usecs_of (or_zero b) in
  s64 (aa - bb).

Definition timeaddu (tv : timespec) (usecs : Z) : timespec :=
  Timespec
    (Z_of_dbl (dadd (dbl_of_Z (tv_sec tv))
                    (ddiv (dbl_of_Z usecs) (dmul (dbl_of_Z 1000) (dbl_of_Z 1000)))))
    (s64 (tv_nsec tv + s64 (Z.rem usecs (1000 * 1000) * 1000))).

(** ** Meaning *)

(** The instant a [timespec] stands for, in nanoseconds. *)
Definition ns (t : timespec) : Z := tv_sec t * NSEC + tv_nsec t.

(** Normalised: the nanoseconds are a proper fraction of a second. *)
Definition normal (t : timespec) : Prop := 0 <= tv_nsec t < NSEC.

(** Far from the limits of [time_t] (about 70 billion years). *)
Definition sane (t : timespec) : Prop :=
  - 2 ^ 61 <= tv_sec t < 2 ^ 61 /\ - 2 ^ 62 <= tv_nsec t < 2 ^ 62.

(** A clock reading or an interval: normalised and not negative. *)
Definition sane_time (t : timespec) : Prop := normal t /\ 0 <= tv_sec t < 2 ^ 60.

Lemma sane_time_sane t : sane_time t -> sane t /\ normal t.
Proof. intros [Hn Hs]. split; [|done]. unfold sane, normal, NSEC in *. lia. Qed.

#[export] Hint Unfold normal sane ns NSEC : avbox.

Lemma s64_small z : - 2 ^ 63 <= z < 2 ^ 63 -> s64 z = z.
Proof. intros. apply wraps_small; lia. Qed.

(** Replaces [s64 e] by [e] wherever the bounds in the context allow. *)
Ltac drop_s64 :=
  repeat match goal with
  | |- context [wraps 64 ?z] => rewrite (s64_small z) by lia
  | H : context [wraps 64 ?z] |- _ => rewrite (s64_small z) in H by lia
  end.

Lemma ns_inj a b : normal a -> normal b -> ns a = ns b -> a = b.
Proof. destruct a, b. unfold normal, ns, NSEC. simpl. intros. f_equal; lia. Qed.

(** ** Lemmas *)

Lemma timelt_ns a b : normal a -> normal b -> timelt a b = true <-> ns a < ns b.
Proof. intros Ha Hb. unfold timelt, _timelt. autounfold with avbox in *. split_cases; blia. Qed.

Lemma timelte_ns a b : normal a -> normal b -> timelte a b = true <-> ns a <= ns b.
Proof.
  intros Ha Hb. unfold timelte. fold (timelt a b).
  destruct ((_ =? _) && (_ =? _)) eqn:E; [autounfold with avbox in *; split_cases; blia|].
  rewrite timelt_ns by done. apply andb_false_iff in E. autounfold with avbox in *. split; [lia|].
  destruct E as [E|E]; apply Z.eqb_neq in E; lia.
Qed.

(** [timeadd] adds, and normalises even unnormalised arguments (the queues
    pass a delay with any number of nanoseconds). *)
Lemma timeadd_sum (a b : timespec) :
  sane a -> sane b -> 0 <= tv_nsec a -> 0 <= tv_nsec b ->
  ns (timeadd a b) = ns a + ns b /\ normal (timeadd a b).
Proof.
  unfold sane, timeadd, ns, normal. intros Ha Hb H1 H2. cbn [tv_sec tv_nsec].
  rewrite (s64_small (tv_nsec a + tv_nsec b)) by lia.
  rewrite (s64_small (tv_sec a + tv_sec b)) by lia.
  pose proof (Z.quot_rem' (tv_nsec a + tv_nsec b) NSEC).
  assert (0 <= Z.rem (tv_nsec a + tv_nsec b) NSEC < NSEC) by (apply Z.rem_bound_pos; unfold NSEC; lia).
  unfold NSEC in *. rewrite s64_small; lia.
Qed.

Lemma timediff_ns (start tend : option timespec) :
  sane (or_zero start) -> sane (or_zero tend) ->
  normal (or_zero start) -> normal (or_zero tend) ->
  ns (timediff start tend) = ns (or_zero tend) - ns (or_zero start) /\
  normal (timediff start tend).
Proof.
  unfold sane, timediff, ns, normal. intros Hs He Hns Hne. unfold NSEC in *.
  rewrite (s64_small (tv_nsec (or_zero tend) - tv_nsec (or_zero start))) by lia.
  destruct (_ <? 0) eqn:E; cbn [tv_sec tv_nsec]; zify_bool; drop_s64; lia.
Qed.

(** ** Properties *)

(** The five comparisons decide the order of the instants: on
    normalised times [timelt], [timelte], [timegt], [timegte] and [timeeq]
    return true exactly when the corresponding relation holds between the
    two numbers of nanoseconds. *)
Lemma time_comparisons (a b : timespec) :
  normal a -> normal b ->
  (timelt a b = true <-> ns a < ns b) /\
  (timelte a b = true <-> ns a <= ns b) /\
  (timegt a b = true <-> ns a > ns b) /\
  (timegte a b = true <-> ns a >= ns b) /\
  (timeeq a b = true <-> a = b).
Proof.
  intros Ha Hb. pose proof (timelt_ns a b Ha Hb) as Hlt. pose proof (timelte_ns a b Ha Hb) as Hlte.
  split_and!; [done|done|unfold timegt|unfold timegte|].
  - rewrite negb_true_iff, <- not_true_iff_false, Hlte. lia.
  - rewrite negb_true_iff, <- not_true_iff_false, Hlt. lia.
  - destruct a as [s1 n1], b as [s2 n2]. unfold timeeq. simpl.
    destruct (Z.eqb_spec n1 n2), (Z.eqb_spec s1 s2); simpl; split; congruence.
Qed.

(** [timediff start end] is [end - start]: the difference of the
    instants, with a normalised fraction also when the difference is
    negative; a NULL argument is the time zero. *)
Lemma timediff_difference (start tend : option timespec) :
  sane (or_zero start) -> sane (or_zero tend) ->
  normal (or_zero start) -> normal (or_zero tend) ->
  ns (timediff start tend) = ns (or_zero tend) - ns (or_zero start) /\
  normal (timediff start tend).
Proof. apply timediff_ns. Qed.

Lemma abstime_usec fuel now :
  0 <= tval_usec now < 1000000 ->
  abstime (S fuel) now = Some (Timespec (tval_sec now) (tval_usec now * 1000)).
Proof.
  intros H. unfold abstime. simpl. rewrite s64_small by lia. unfold NSEC.
  destruct (_ >? _) eqn:E; [|done]. rewrite Z.gtb_ltb in E. blia.
Qed.

(** [delay2abstime] turns a delay into the deadline
    [pthread_cond_timedwait] expects: with a clock reading whose
    microseconds are proper the carry loop stops at its first test and the
    result is the normalised instant [now + delay]. *)
Lemma delay2abstime_deadline (now : timeval) (tv : timespec) (fuel : nat) :
  0 <= tval_usec now < 1000000 -> - 2 ^ 61 <= tval_sec now < 2 ^ 61 ->
  sane tv -> 0 <= tv_nsec tv ->
  exists d, delay2abstime (S fuel) now tv = Some d /\ normal d /\
    ns d = ns tv + (tval_sec now * NSEC + tval_usec now * 1000).
Proof.
  intros Hu Hs Htv Hn. unfold delay2abstime. rewrite abstime_usec by done. cbn [mbind option_bind].
  eexists. split; [done|].
  destruct (timeadd_sum tv (Timespec (tval_sec now) (tval_usec now * 1000))) as [E N];
    [done|unfold sane; simpl; lia|done|simpl; lia|].
  by rewrite E.
Qed.

(** [utimediff] is antisymmetric and additive along a chain of
    instants (as 64-bit differences), so clocks built on it never drift
    when they are re-based. *)
Lemma utimediff_chain (a b c : option timespec) :
  s64 (utimediff a b + utimediff b c) = utimediff a c /\
  s64 (utimediff a b + utimediff b a) = 0.
Proof.
  unfold utimediff. rewrite !wraps_add by lia.
  split; [f_equal; lia|]. rewrite <- (s64_small 0) by lia. f_equal. lia.
Qed.

(** [timeaddu] does not carry: adding one microsecond to
    0.9999995 s leaves more than a second of nanoseconds in the result,
    which is no longer a normalised time. *)
Lemma timeaddu_not_normal :
  normal (Timespec 0 999999500) /\
  timeaddu (Timespec 0 999999500) 1 = Timespec 0 1000000500 /\
  ~ normal (timeaddu (Timespec 0 999999500) 1).
Proof.
  assert (timeaddu (Timespec 0 999999500) 1 = Timespec 0 1000000500) as E by (vm_compute; reflexivity).
  rewrite E. unfold normal, NSEC. simpl. split; [lia|split; [done|lia]].
Qed.

(** *** Witnesses *)

Lemma time_comparisons_witness : timelt (Timespec 1 5) (Timespec 2 0) = true.
Proof. apply (time_comparisons (Timespec 1 5) (Timespec 2 0)); vm_compute; intuition congruence. Defined.

Lemma timediff_difference_witness :
  ns (timediff (Some (Timespec 7 600000000)) (Some (Timespec 9 100000000))) = 1500000000.
Proof.
  destruct (timediff_difference (Some (Timespec 7 600000000)) (Some (Timespec 9 100000000)))
    as [E _]; [vm_compute; intuition congruence..|]. exact E.
Defined.

Lemma delay2abstime_deadline_witness :
  exists d, delay2abstime 1 (Timeval 100 999999) (Timespec 0 250000000) = Some d /\ ns d = 101249999000.
Proof.
  destruct (delay2abstime_deadline (Timeval 100 999999) (Timespec 0 250000000) 0)
    as (d & E & _ & N); [vm_compute; intuition congruence..|].
  exists d. split; [exact E | exact N].
Defined.
