(* ===== verification/Queue.v ===== *)
(** * The blocking queue (src/lib/queue.c)

    [struct avbox_queue] and its operations.  The nodes live on two
    intrusive lists of one list store (the items and the pool of spare
    nodes); the model is written against the [ListStore] interface, so it
    runs on the heap of list heads and on the abstract lists.  The code
    between [pthread_mutex_lock] and the next [pthread_cond_wait] or
    [pthread_mutex_unlock] is one atomic definition: an operation that may
    sleep is split into the part before the wait ([..._begin]) and the part
    after it ([..._wake]).  [None] is an access to an unmapped address. *)

From S2P Require Import Prelude LinkedList TimeUtil.

Open Scope avbox_scope.

Section queue.
  Context {M : Type} `{LS : ListStore M}.
  (** The type of the (non-NULL) item pointers. *)
  Context {V : Type}.

(** ** Data *)

(** [struct avbox_queue_node], without its list head.  The value of a node
    fresh from [malloc] is not set. *)
Record avbox_queue_node := QueueNode { value : option V; must_free : bool }.

Record avbox_queue := AvboxQueue {
  store : M;                            (* the memory of the list nodes *)
  nodes : gmap loc avbox_queue_node;    (* the node contents *)
  closed : bool;
  nodes_alloc : Z;
  cnt : Z;
  sz : Z;
  waiters : Z;
  items : loc;
  nodes_pool : loc;
  name : string;
}.

Definition set_store (q : avbox_queue) (m : M) : avbox_queue :=
  AvboxQueue m (nodes q) (closed q) (nodes_alloc q) (cnt q) (sz q) (waiters q)
    (items q) (nodes_pool q) (name q).
Definition set_nodes (q : avbox_queue) (n : gmap loc avbox_queue_node) : avbox_queue :=
  AvboxQueue (store q) n (closed q) (nodes_alloc q) (cnt q) (sz q) (waiters q)
    (items q) (nodes_pool q) (name q).
Definition set_closed (q : avbox_queue) : avbox_queue :=
  AvboxQueue (store q) (nodes q) true (nodes_alloc q) (cnt q) (sz q) (waiters q)
    (items q) (nodes_pool q) (name q).
Definition set_nodes_alloc (q : avbox_queue) (z : Z) : avbox_queue :=
  AvboxQueue (store q) (nodes q) (closed q) z (cnt q) (sz q) (waiters q)
    (items q) (nodes_pool q) (name q).
Definition set_cnt (q : avbox_queue) (z : Z) : avbox_queue :=
  AvboxQueue (store q) (nodes q) (closed q) (nodes_alloc q) z (sz q) (waiters q)
    (items q) (nodes_pool q) (name q).
Definition set_sz (q : avbox_queue) (z : Z) : avbox_queue :=
  AvboxQueue (store q) (nodes q) (closed q) (nodes_alloc q) (cnt q) z (waiters q)
    (items q) (nodes_pool q) (name q).
Definition set_waiters (q : avbox_queue) (z : Z) : avbox_queue :=
  AvboxQueue (store q) (nodes q) (closed q) (nodes_alloc q) (cnt q) (sz q) z
    (items q) (nodes_pool q) (name q).
Definition set_name (q : avbox_queue) (s : string) : avbox_queue :=
  AvboxQueue (store q) (nodes q) (closed q) (nodes_alloc q) (cnt q) (sz q) (waiters q)
    (items q) (nodes_pool q) s.

(** ** The node pool *)

(** [mem] is the answer of [malloc] (consulted only when the pool is
    empty).  [inl ENOMEM] is the NULL return. *)
Definition acquire_node (inst : avbox_queue) (mem : option loc) :
    option (result loc * avbox_queue) :=
  node ← list_tail (store inst) (nodes_pool inst);
  match node with
  | None =>
      match mem with
      | None => Some (inl ENOMEM, inst)
      | Some node =>
          let inst := set_store inst (list_alloc (store inst) node) in
          let inst := set_nodes inst (<[node := QueueNode None true]> (nodes inst)) in
          let inst := set_nodes_alloc inst (s32 (nodes_alloc inst + 1)) in
          Some (inr node, inst)
      end
  | Some node =>
      m ← list_remove (store inst) node;
      Some (inr node, set_store inst m)
  end.

Definition release_node (inst : avbox_queue) (node : loc) : option avbox_queue :=
  m ← list_add (store inst) (nodes_pool inst) node;
  Some (set_store inst m).

(** ** Accessors *)

Definition avbox_queue_count (inst : avbox_queue) : Z := cnt inst.
Definition avbox_queue_isclosed (inst : avbox_queue) : bool := closed inst.
Definition avbox_queue_setsize (inst : avbox_queue) (s : Z) : avbox_queue := set_sz inst s.

(** [mem] is false when [strdup] fails. *)
Definition avbox_queue_setname (inst : avbox_queue) (s : string) (mem : bool) :
    result unit * avbox_queue :=
  if mem then (inr tt, set_name inst s) else (inl ENOMEM, inst).

(** The waking broadcast of [avbox_queue_wake] has no effect on the state;
    a sleeping thread may wake up at any time anyway. *)
Definition avbox_queue_close (inst : avbox_queue) : avbox_queue := set_closed inst.

(** ** Getting a node *)

(** How far [avbox_queue_getnode] got: a node, an error, or asleep in
    [pthread_cond_wait] ([None]) or [pthread_cond_timedwait] until the
    given deadline. *)
Inductive getnode_out :=
  | GnNode (node : loc)
  | GnErr (e : errno)
  | GnWait (deadline : option timespec).

Definition inc_waiters (inst : avbox_queue) : avbox_queue :=
  set_waiters inst (u32 (waiters inst + 1)).
Definition dec_waiters (inst : avbox_queue) : avbox_queue :=
  set_waiters inst (u32 (waiters inst - 1)).

(** [now] is the wall clock read by [delay2abstime]. *)
Definition avbox_queue_getnode_begin (inst : avbox_queue) (block : bool) (timeout : Z)
    (now : timeval) : option (getnode_out * avbox_queue) :=
  let inst := inc_waiters inst in
  node ← list_tail (store inst) (items inst);
  match node with
  | Some node => Some (GnNode node, dec_waiters inst)
  | None =>
      if closed inst then Some (GnErr ESHUTDOWN, dec_waiters inst)
      else if negb block then Some (GnErr EAGAIN, dec_waiters inst)
      else if timeout =? 0 then Some (GnWait None, inst)
      else
        tv ← delay2abstime 2 now (Timespec 0 (s64 (timeout * 1000)));
        Some (GnWait (Some tv), inst)
  end.

Definition avbox_queue_getnode_wake (inst : avbox_queue) :
    option (getnode_out * avbox_queue) :=
  node ← list_tail (store inst) (items inst);
  match node with
  | Some node => Some (GnNode node, dec_waiters inst)
  | None => Some (GnErr EAGAIN, dec_waiters inst)
  end.

(** ** Operations that may sleep *)

(** The outcome of a call: it returned, or it sleeps on the condition. *)
Inductive outcome (A : Type) :=
  | Done (a : A)
  | Sleep.
Arguments Done {A} _.
Arguments Sleep {A}.

Definition node_value (inst : avbox_queue) (node : loc) : option V :=
  n ← nodes inst !! node; value n.

(** [avbox_queue_peek] and [avbox_queue_timedpeek] after [getnode]. *)
Definition peek_finish (r : getnode_out * avbox_queue) :
    option (outcome (result V) * avbox_queue) :=
  match r.1 with
  | GnNode node => v ← node_value r.2 node; Some (Done (inr v), r.2)
  | GnErr e => Some (Done (inl e), r.2)
  | GnWait _ => Some (Sleep, r.2)
  end.

Definition avbox_queue_peek_begin (inst : avbox_queue) (block : bool) (now : timeval) :
    option (outcome (result V) * avbox_queue) :=
  r ← avbox_queue_getnode_begin inst block 0 now; peek_finish r.

Definition avbox_queue_timedpeek_begin (inst : avbox_queue) (timeout : Z) (now : timeval) :
    option (outcome (result V) * avbox_queue) :=
  r ← avbox_queue_getnode_begin inst true timeout now; peek_finish r.

Definition avbox_queue_peek_wake (inst : avbox_queue) :
    option (outcome (result V) * avbox_queue) :=
  r ← avbox_queue_getnode_wake inst; peek_finish r.

(** Dequeue and recycle the node. *)
Definition get_finish (r : getnode_out * avbox_queue) :
    option (outcome (result V) * avbox_queue) :=
  match r.1 with
  | GnNode node =>
      v ← node_value r.2 node;
      m ← list_remove (store r.2) node;
      inst ← release_node (set_store r.2 m) node;
      Some (Done (inr v), set_cnt inst (u64 (cnt inst - 1)))
  | GnErr e => Some (Done (inl e), r.2)
  | GnWait _ => Some (Sleep, r.2)
  end.

Definition avbox_queue_get_begin (inst : avbox_queue) (now : timeval) :
    option (outcome (result V) * avbox_queue) :=
  r ← avbox_queue_getnode_begin inst true 0 now; get_finish r.

Definition avbox_queue_get_wake (inst : avbox_queue) :
    option (outcome (result V) * avbox_queue) :=
  r ← avbox_queue_getnode_wake inst; get_finish r.

(** [avbox_queue_put]: [acquire_node] runs first, without the queue lock;
    the two parts below run with the node it returned. *)
Definition put_commit (inst : avbox_queue) (node : loc) (item : V) :
    option (outcome (result unit) * avbox_queue) :=
  n ← nodes inst !! node;
  let inst := set_nodes inst (<[node := QueueNode (Some item) (must_free n)]> (nodes inst)) in
  m ← list_add (store inst) (items inst) node;
  let inst := set_cnt (set_store inst m) (u64 (cnt inst + 1)) in
  Some (Done (inr tt), dec_waiters inst).

Definition put_fail (inst : avbox_queue) (node : loc) (e : errno) :
    option (outcome (result unit) * avbox_queue) :=
  inst ← release_node inst node;
  Some (Done (inl e), dec_waiters inst).

Definition avbox_queue_put_begin (inst : avbox_queue) (node : loc) (item : V) :
    option (outcome (result unit) * avbox_queue) :=
  let inst := inc_waiters inst in
  if (sz inst >? 0) && (cnt inst >=? sz inst) then
    if closed inst then put_fail inst node ESHUTDOWN
    else Some (Sleep, inst)
  else put_commit inst node item.

Definition avbox_queue_put_wake (inst : avbox_queue) (node : loc) (item : V) :
    option (outcome (result unit) * avbox_queue) :=
  if cnt inst >=? sz inst then put_fail inst node EAGAIN
  else put_commit inst node item.

(** ** Creation and destruction *)

(** The preallocation loop: one answer of [malloc] per iteration; a failed
    one is skipped. *)
Fixpoint prealloc (mems : list (option loc)) (inst : avbox_queue) : option avbox_queue :=
  match mems with
  | [] => Some inst
  | None :: mems => prealloc mems inst
  | Some node :: mems =>
      let inst := set_store inst (list_alloc (store inst) node) in
      let inst := set_nodes inst (<[node := QueueNode None true]> (nodes inst)) in
      m ← list_add (store inst) (nodes_pool inst) node;
      prealloc mems (set_store inst m)
  end.

(** [mem]: the store and the addresses of the two list heads inside the
    structure, or [None] when [malloc] fails; [name_ok]: [strdup]
    succeeded; [mems]: the answers of [malloc], of which the loop uses the
    first [sz] (an answer that is missing counts as NULL); [init]: the result of
    the three pthread initialisers. *)
Definition avbox_queue_new (size : Z) (mem : option (M * loc * loc)) (name_ok : bool)
    (mems : list (option loc)) (init : result unit) : option (result avbox_queue) :=
  match mem with
  | None => Some (inl ENOMEM)
  | Some (m, items_hd, pool_hd) =>
      m ← list_init m pool_hd;
      m ← list_init m items_hd;
      if negb name_ok then Some (inl ENOMEM) else
      let inst := AvboxQueue m ∅ false 0 0 size 0 items_hd pool_hd "unnamed"%string in
      inst ← prealloc (take (Z.to_nat size) mems) inst;
      match init with
      | inl e => Some (inl e)
      | inr _ => Some (inr inst)
      end
  end.

(** [avbox_queue_destroy]: close, then poll until nobody waits. *)
Definition destroy_ready (inst : avbox_queue) : bool := negb (waiters inst >? 0).

(** Every element of the items goes back to the pool ... *)
Fixpoint flush_items (todo : list loc) (inst : avbox_queue) : option avbox_queue :=
  match todo with
  | [] => Some inst
  | node :: todo =>
      m ← list_remove (store inst) node;
      inst ← release_node (set_store inst m) node;
      flush_items todo inst
  end.

(** ... and the pool is emptied, collecting the nodes handed to [free]. *)
Fixpoint flush_pool (todo : list loc) (inst : avbox_queue) (freed : list loc) :
    option (avbox_queue * list loc) :=
  match todo with
  | [] => Some (inst, freed)
  | node :: todo =>
      m ← list_remove (store inst) node;
      n ← nodes inst !! node;
      flush_pool todo (set_store inst m) (if must_free n then freed ++ [node] else freed)
  end.

Definition avbox_queue_destroy_finish (inst : avbox_queue) :
    option (avbox_queue * list loc) :=
  its ← list_elems (store inst) (items inst);
  inst ← flush_items its inst;
  pool ← list_elems (store inst) (nodes_pool inst);
  flush_pool pool inst [].

(** ** Concurrent callers

    Any number of threads share the queue.  A thread is idle, holds a node
    it acquired for a put, or sleeps in one of the three waiting calls.  A
    sleeping thread may run its second part at any moment, which covers
    broadcasts, timeouts and spurious wake-ups. *)

Inductive thread :=
  | Idle
  | Putting (item : V) (node : loc)
  | PutAsleep (item : V) (node : loc)
  | GetAsleep
  | PeekAsleep.

(** The logs record the items whose put and get succeeded, in order. *)
Record system := System {
  queue : avbox_queue;
  threads : list thread;
  put_log : list V;
  got_log : list V;
}.

(** Where a caller of [put] is after a part of it ran, and what it logs. *)
Definition after_put (item : V) (node : loc) (r : outcome (result unit)) : thread * list V :=
  match r with
  | Sleep => (PutAsleep item node, [])
  | Done (inl _) => (Idle, [])
  | Done (inr _) => (Idle, [item])
  end.

Definition after_get (r : outcome (result V)) : thread * list V :=
  match r with
  | Sleep => (GetAsleep, [])
  | Done (inl _) => (Idle, [])
  | Done (inr v) => (Idle, [v])
  end.

Definition after_peek (r : outcome (result V)) : thread :=
  match r with
  | Sleep => PeekAsleep
  | Done _ => Idle
  end.

(** What [malloc] may answer: NULL or an address not in use. *)
Definition fresh_mem (inst : avbox_queue) (mem : option loc) : Prop :=
  forall i, mem = Some i -> ~ allocated (store inst) i.

(** What [gettimeofday] guarantees. *)
Definition clock_ok (now : timeval) : Prop := 0 <= tval_usec now < 1000000.

(** [resize] says whether [avbox_queue_setsize] may be called. *)
Inductive step (resize : bool) : system -> system -> Prop :=
  | step_acquire q q' r mem v l1 l2 pl gl :
      fresh_mem q mem -> acquire_node q mem = Some (r, q') ->
      step resize (System q (l1 ++ Idle :: l2) pl gl)
        (System q' (l1 ++ (match r with inr n => Putting v n | inl _ => Idle end) :: l2) pl gl)
  | step_put q q' r v n l1 l2 pl gl :
      avbox_queue_put_begin q n v = Some (r, q') ->
      step resize (System q (l1 ++ Putting v n :: l2) pl gl)
        (System q' (l1 ++ (after_put v n r).1 :: l2) (pl ++ (after_put v n r).2) gl)
  | step_put_wake q q' r v n l1 l2 pl gl :
      avbox_queue_put_wake q n v = Some (r, q') ->
      step resize (System q (l1 ++ PutAsleep v n :: l2) pl gl)
        (System q' (l1 ++ (after_put v n r).1 :: l2) (pl ++ (after_put v n r).2) gl)
  | step_get q q' r now l1 l2 pl gl :
      clock_ok now -> avbox_queue_get_begin q now = Some (r, q') ->
      step resize (System q (l1 ++ Idle :: l2) pl gl)
        (System q' (l1 ++ (after_get r).1 :: l2) pl (gl ++ (after_get r).2))
  | step_get_wake q q' r l1 l2 pl gl :
      avbox_queue_get_wake q = Some (r, q') ->
      step resize (System q (l1 ++ GetAsleep :: l2) pl gl)
        (System q' (l1 ++ (after_get r).1 :: l2) pl (gl ++ (after_get r).2))
  | step_peek q q' r block now l1 l2 pl gl :
      clock_ok now -> avbox_queue_peek_begin q block now = Some (r, q') ->
      step resize (System q (l1 ++ Idle :: l2) pl gl) (System q' (l1 ++ after_peek r :: l2) pl gl)
  | step_timedpeek q q' r timeout now l1 l2 pl gl :
      clock_ok now -> avbox_queue_timedpeek_begin q timeout now = Some (r, q') ->
      step resize (System q (l1 ++ Idle :: l2) pl gl) (System q' (l1 ++ after_peek r :: l2) pl gl)
  | step_peek_wake q q' r l1 l2 pl gl :
      avbox_queue_peek_wake q = Some (r, q') ->
      step resize (System q (l1 ++ PeekAsleep :: l2) pl gl) (System q' (l1 ++ after_peek r :: l2) pl gl)
  | step_close q ts pl gl :
      step resize (System q ts pl gl) (System (avbox_queue_close q) ts pl gl)
  | step_setsize q s ts pl gl :
      resize = true -> 0 <= s ->
      step resize (System q ts pl gl) (System (avbox_queue_setsize q s) ts pl gl).

(** ** What the queue holds *)

(** [qrep q its pool h vs]: the items list holds the nodes [its] (newest
    first) carrying the values [vs], the pool holds [pool], callers hold
    the nodes [h]; no node is in two places, every node is allocated, and
    the counter is the number of items. *)
Definition qrep (q : avbox_queue) (its pool h : list loc) (vs : list V) : Prop :=
  rep (store q) (items q) its /\ rep (store q) (nodes_pool q) pool /\
  NoDup (items q :: nodes_pool q :: its ++ pool ++ h) /\
  (forall n, n ∈ h -> allocated (store q) n) /\
  (forall n, n ∈ its ++ pool ++ h -> is_Some (nodes q !! n)) /\
  cnt q = u64 (Z.of_nat (length its)) /\
  Forall2 (fun n v => node_value q n = Some v) its vs.

(** The fields no node operation changes. *)
Definition cfg (q : avbox_queue) : bool * Z * loc * loc :=
  (closed q, sz q, items q, nodes_pool q).

Definition held (t : thread) : list loc :=
  match t with
  | Putting _ n | PutAsleep _ n => [n]
  | _ => []
  end.

Definition asleep (t : thread) : bool :=
  match t with
  | PutAsleep _ _ | GetAsleep | PeekAsleep => true
  | _ => false
  end.

Definition helds (ts : list thread) : list loc := concat (map held ts).

Definition n_asleep (ts : list thread) : nat := length (filter asleep ts).

(** ** Lemmas on the operations *)

#[local] Instance qrep_perm_proper q its pool :
  Proper (Permutation ==> eq ==> iff) (qrep q its pool).
Proof.
  intros h h' Hp vs ? <-. unfold qrep. setoid_rewrite Hp. reflexivity.
Qed.

Lemma qrep_waiters q w its pool h vs : qrep (set_waiters q w) its pool h vs <-> qrep q its pool h vs.
Proof. reflexivity. Qed.

Lemma qrep_disjoint q its pool h vs :
  qrep q its pool h vs ->
  disjoint_ring (items q) its (nodes_pool q) pool /\
  disjoint_ring (nodes_pool q) pool (items q) its.
Proof.
  intros (_ & _ & Hnd & _). apply NoDup_cons in Hnd as [H1 Hnd].
  apply NoDup_cons in Hnd as [H2 Hnd]. apply NoDup_app in Hnd as (_ & Hd & _).
  split; intros x Hx Hy; set_solver.
Qed.

(** A held node is on neither list. *)
Lemma qrep_held_fresh q its pool n h vs :
  qrep q its pool (n :: h) vs ->
  n ∉ items q :: its /\ n ∉ nodes_pool q :: pool /\ n ∉ h.
Proof.
  intros (_ & _ & Hnd & _). repeat setoid_rewrite NoDup_cons in Hnd.
  setoid_rewrite NoDup_app in Hnd. setoid_rewrite NoDup_app in Hnd.
  setoid_rewrite NoDup_cons in Hnd. set_solver.
Qed.

Lemma values_agree q q' its vs :
  (forall x, x ∈ its -> node_value q' x = node_value q x) ->
  Forall2 (fun n v => node_value q n = Some v) its vs ->
  Forall2 (fun n v => node_value q' n = Some v) its vs.
Proof.
  intros Ha. induction 1 as [|x v its vs Hx _ IH]; constructor.
  - rewrite Ha by set_solver. done.
  - apply IH. set_solver.
Qed.

(** [release_node]: a held node goes back to the pool. *)
Lemma release_node_qrep q its pool n h vs :
  qrep q its pool (n :: h) vs ->
  exists q', release_node q n = Some q' /\ qrep q' its (n :: pool) h vs /\
    cfg q' = cfg q /\ waiters q' = waiters q /\
    (forall x, allocated (store q') x <-> allocated (store q) x).
Proof.
  intros Hq. pose proof Hq as (Ri & Rp & Hnd & Ha & Hn & Hc & Hv).
  destruct (qrep_held_fresh _ _ _ _ _ _ Hq) as (F1 & F2 & F3).
  destruct (list_add_rep (store q) (nodes_pool q) pool n) as (m & E & Rp' & Al & Fr);
    [done|apply Ha; set_solver|done|].
  unfold release_node. rewrite E. eexists. split; [done|]. split; [|done].
  unfold qrep. cbn. split_and!; try done.
  - apply Fr; [|done]. destruct (qrep_disjoint _ _ _ _ _ Hq) as [_ Hd]. intros x Hx Hy.
    specialize (Hd x Hx). set_solver.
  - eapply NoDup_perm; [|exact Hnd]. solve_Permutation.
  - intros x Hx. apply Al, Ha. set_solver.
  - intros x Hx. apply Hn. set_solver.
Qed.
(** [acquire_node] fails only with an empty pool and no memory; otherwise
    the caller holds a node nobody else has. *)
Lemma acquire_node_qrep q its pool h vs mem :
  qrep q its pool h vs -> fresh_mem q mem ->
  (exists n q' pool', acquire_node q mem = Some (inr n, q') /\
     qrep q' its pool' (n :: h) vs /\ cfg q' = cfg q /\ waiters q' = waiters q) \/
  (acquire_node q mem = Some (inl ENOMEM, q) /\ pool = [] /\ mem = None).
Proof.
  intros Hq Hm. pose proof Hq as (Ri & Rp & Hnd & Ha & Hn & Hc & Hv).
  unfold acquire_node. rewrite (list_tail_rep _ _ _ Rp). cbn [mbind option_bind].
  destruct (last pool) as [n|] eqn:Hl.
  - left. apply last_snoc_inv in Hl as [pool' ->].
    destruct (list_remove_rep (store q) (nodes_pool q) pool' n []) as (m & -> & Rp' & Al & Fr); [done|].
    rewrite app_nil_r in Rp'. exists n, (set_store q m), pool'.
    split; [done|]. split; [|done]. unfold qrep. cbn. split_and!; try done.
    + apply Fr; [|done]. apply (qrep_disjoint _ _ _ _ _ Hq).
    + eapply NoDup_perm; [|exact Hnd]. solve_Permutation.
    + intros x Hx. apply Al. apply elem_of_cons in Hx as [->|Hx]; [|auto].
      eapply rep_allocated; [exact Rp|]. set_solver.
    + intros x Hx. apply Hn. set_solver.
  - apply last_None in Hl as ->. destruct mem as [n|]; [left|by right].
    specialize (Hm n eq_refl). destruct (list_alloc_rep (store q) n Hm) as [Hrep Hal].
    eexists n, _, []. split; [done|]. split; [|done].
    assert (n ∉ its /\ n ∉ h /\ n <> items q /\ n <> nodes_pool q) as (? & ? & ? & ?).
    { split_and!; intros Hx; apply Hm; subst; [|by apply Ha| |];
        eapply rep_allocated; [exact Ri|set_solver|exact Ri|set_solver|exact Rp|set_solver]. }
    unfold qrep. cbn. split_and!; try by auto.
    + repeat setoid_rewrite NoDup_cons in Hnd. repeat setoid_rewrite NoDup_cons.
      rewrite NoDup_app, NoDup_cons in *. set_solver.
    + intros x Hx. apply Hal. set_solver.
    + intros x Hx. destruct (decide (x = n)) as [->|]; [by rewrite lookup_insert_eq|].
      rewrite lookup_insert_ne by done. apply Hn. set_solver.
    + eapply values_agree; [|exact Hv]. intros x Hx. unfold node_value. cbn.
      rewrite lookup_insert_ne by set_solver. done.
Qed.

(** [put_commit]: the held node becomes the newest item. *)
Lemma put_commit_qrep q its pool n h vs v :
  qrep q its pool (n :: h) vs ->
  exists q', put_commit q n v = Some (Done (inr tt), q') /\
    qrep q' (n :: its) pool h (v :: vs) /\
    cfg q' = cfg q /\ waiters q' = u32 (waiters q - 1).
Proof.
  intros Hq. pose proof Hq as (Ri & Rp & Hnd & Ha & Hn & Hc & Hv).
  destruct (qrep_held_fresh _ _ _ _ _ _ Hq) as (F1 & F2 & F3).
  unfold put_commit. destruct (Hn n) as [nd Hnd']; [set_solver|]. rewrite Hnd'. cbn.
  destruct (list_add_rep (store q) (items q) its n) as (m & E & Ri' & Al & Fr);
    [done|apply Ha; set_solver|done|].
  rewrite E. eexists. split; [done|]. split; [|done]. unfold qrep. cbn. split_and!; try done.
  - apply Fr; [|done]. destruct (qrep_disjoint _ _ _ _ _ Hq) as [Hd _]. intros x Hx Hy.
    specialize (Hd x Hx). set_solver.
  - eapply NoDup_perm; [|exact Hnd]. solve_Permutation.
  - intros x Hx. apply Al, Ha. set_solver.
  - intros x Hx. destruct (decide (x = n)) as [->|]; [by rewrite lookup_insert_eq|].
    rewrite lookup_insert_ne by done. apply Hn. set_solver.
  - rewrite Hc, wrapu_add_l. f_equal. lia.
  - constructor.
    + unfold node_value. cbn. by rewrite lookup_insert_eq.
    + eapply values_agree; [|exact Hv]. intros x Hx. unfold node_value. cbn.
      rewrite lookup_insert_ne by set_solver. done.
Qed.

(** [get_finish] on the oldest item: it is returned and its node recycled. *)
Lemma get_finish_qrep q its n pool h vs v :
  qrep q (its ++ [n]) pool h (vs ++ [v]) ->
  exists q', get_finish (GnNode n, q) = Some (Done (inr v), q') /\
    qrep q' its (n :: pool) h vs /\ cfg q' = cfg q /\ waiters q' = waiters q.
Proof.
  intros Hq. pose proof Hq as (Ri & Rp & Hnd & Ha & Hn & Hc & Hv).
  apply Forall2_app_inv in Hv as [Hv Hv1]; [|apply Forall2_length in Hv; rewrite !length_app in Hv; simpl in *; lia].
  inversion Hv1 as [|? ? ? ? Hnv _]; subst.
  unfold get_finish. cbn [fst snd]. rewrite Hnv. cbn [mbind option_bind].
  destruct (list_remove_rep (store q) (items q) its n []) as (m & -> & Ri' & Al & Fr); [done|].
  rewrite app_nil_r in Ri'. cbn [mbind option_bind].
  assert (qrep (set_cnt (set_store q m) (u64 (cnt q - 1))) its pool (n :: h) vs) as Hq1.
  { unfold qrep. cbn. split_and!; try done.
    - apply Fr; [|done]. apply (qrep_disjoint _ _ _ _ _ Hq).
    - eapply NoDup_perm; [|exact Hnd]. solve_Permutation.
    - intros x Hx. apply Al. apply elem_of_cons in Hx as [->|Hx]; [|auto].
      eapply rep_allocated; [exact Ri|set_solver].
    - intros x Hx. apply Hn. set_solver.
    - rewrite Hc, wrapu_sub_l, length_app. f_equal. simpl. lia. }
  destruct (release_node_qrep _ _ _ _ _ _ Hq1) as (q' & E & Hq' & Hcfg & Hw & _).
  unfold release_node in *. cbn in E. cbn.
  destruct (list_add m (nodes_pool q) n) as [m'|]; simplify_eq/=. eauto 10.
Qed.

(** *** What each part of an operation leaves behind

    [w] counts the sleeping threads other than the caller. *)

Definition put_post (q : avbox_queue) (its pool : list loc) (n : loc) (h : list loc) (vs : list V)
    (v : V) (w : Z) (r : outcome (result unit)) (q' : avbox_queue) : Prop :=
  cfg q' = cfg q /\
  match r with
  | Sleep => qrep q' its pool (n :: h) vs /\ waiters q' = u32 (w + 1)
  | Done (inl _) => qrep q' its (n :: pool) h vs /\ waiters q' = u32 w
  | Done (inr _) => qrep q' (n :: its) pool h (v :: vs) /\ waiters q' = u32 w
  end.

Definition get_post (q : avbox_queue) (its pool h : list loc) (vs : list V)
    (w : Z) (r : outcome (result V)) (q' : avbox_queue) : Prop :=
  cfg q' = cfg q /\
  match r with
  | Sleep => qrep q' its pool h vs /\ waiters q' = u32 (w + 1)
  | Done (inl _) => qrep q' its pool h vs /\ waiters q' = u32 w
  | Done (inr v) => exists its' n vs', its = its' ++ [n] /\ vs = vs' ++ [v] /\
      qrep q' its' (n :: pool) h vs' /\ waiters q' = u32 w
  end.

Definition peek_post (q : avbox_queue) (its pool h : list loc) (vs : list V)
    (w : Z) (r : outcome (result V)) (q' : avbox_queue) : Prop :=
  cfg q' = cfg q /\ qrep q' its pool h vs /\
  match r with
  | Sleep => waiters q' = u32 (w + 1)
  | Done (inl _) => waiters q' = u32 w
  | Done (inr v) => last vs = Some v /\ waiters q' = u32 w
  end.

Lemma waiters_dec w : u32 (u32 (w + 1) - 1) = u32 w.
Proof. rewrite wrapu_sub_l. f_equal. lia. Qed.

Lemma waiters_inc w : u32 (u32 w + 1) = u32 (w + 1).
Proof. apply wrapu_add_l. Qed.

Lemma put_fail_post q its pool n h vs v w e :
  qrep q its pool (n :: h) vs -> waiters q = u32 (w + 1) ->
  exists q', put_fail q n e = Some (Done (inl e), q') /\ put_post q its pool n h vs v w (Done (inl e)) q'.
Proof.
  intros Hq Hw. unfold put_fail.
  destruct (release_node_qrep _ _ _ _ _ _ Hq) as (q' & -> & Hq' & Hc & Hw' & _). cbn.
  eexists. split; [done|]. split; [done|]. split; [done|]. cbn. by rewrite Hw', Hw, waiters_dec.
Qed.

Lemma put_commit_post q its pool n h vs v w :
  qrep q its pool (n :: h) vs -> waiters q = u32 (w + 1) ->
  exists q', put_commit q n v = Some (Done (inr tt), q') /\
    put_post q its pool n h vs v w (Done (inr tt)) q'.
Proof.
  intros Hq Hw. destruct (put_commit_qrep q its pool n h vs v Hq) as (q' & E & Hq' & Hc & Hw').
  exists q'. split; [done|]. split; [done|]. split; [done|]. by rewrite Hw', Hw, waiters_dec.
Qed.

Lemma put_begin_post q its pool n h vs v w :
  qrep q its pool (n :: h) vs -> waiters q = u32 w ->
  exists r q', avbox_queue_put_begin q n v = Some (r, q') /\ put_post q its pool n h vs v w r q'.
Proof.
  intros Hq Hw. assert (waiters (inc_waiters q) = u32 (w + 1)) as Hw' by (cbn; by rewrite Hw, waiters_inc).
  unfold avbox_queue_put_begin. destruct (_ && _); [destruct (closed _)|].
  - destruct (put_fail_post (inc_waiters q) its pool n h vs v w ESHUTDOWN) as (q' & E & Hp); eauto.
  - eexists _, _. split; [done|]. by split.
  - destruct (put_commit_post (inc_waiters q) its pool n h vs v w) as (q' & E & Hp); eauto.
Qed.

Lemma put_wake_post q its pool n h vs v w :
  qrep q its pool (n :: h) vs -> waiters q = u32 (w + 1) ->
  exists r q', avbox_queue_put_wake q n v = Some (r, q') /\
    put_post q its pool n h vs v w r q' /\ r <> Sleep.
Proof.
  intros Hq Hw. unfold avbox_queue_put_wake. destruct (_ >=? _).
  - destruct (put_fail_post q its pool n h vs v w EAGAIN) as (q' & E & Hp); [done..|].
    eexists _, _. by split_and!.
  - destruct (put_commit_post q its pool n h vs v w) as (q' & E & Hp); [done..|].
    eexists _, _. by split_and!.
Qed.

(** The node [getnode] finds is the oldest item. *)
Lemma qrep_last q its pool h vs n :
  qrep q its pool h vs -> last its = Some n ->
  exists its' vs' v, its = its' ++ [n] /\ vs = vs' ++ [v] /\ node_value q n = Some v.
Proof.
  intros (_ & _ & _ & _ & _ & _ & Hv) Hl. apply last_snoc_inv in Hl as [its' ->].
  apply Forall2_app_inv_l in Hv as (vs' & l & ? & Hl & ->).
  inversion Hl as [|? v ? l' Hv Hnil]; subst. inversion Hnil; subst. eauto 10.
Qed.

Lemma getnode_begin_cases q its pool h vs w block timeout now :
  qrep q its pool h vs -> waiters q = u32 w ->
  0 <= tval_usec now < 1000000 ->
  exists out q', avbox_queue_getnode_begin q block timeout now = Some (out, q') /\
    cfg q' = cfg q /\ qrep q' its pool h vs /\
    match out with
    | GnNode n => last its = Some n /\ waiters q' = u32 w
    | GnErr e => its = [] /\ waiters q' = u32 w /\
        e = (if closed q then ESHUTDOWN else EAGAIN) /\ (closed q = false -> block = false)
    | GnWait _ => its = [] /\ closed q = false /\ block = true /\ waiters q' = u32 (w + 1)
    end.
Proof.
  intros Hq Hw Hnow. pose proof Hq as (Ri & _). unfold avbox_queue_getnode_begin.
  change (store (inc_waiters q)) with (store q). change (items (inc_waiters q)) with (items q).
  change (closed (inc_waiters q)) with (closed q).
  rewrite (list_tail_rep _ _ _ Ri). cbn [mbind option_bind].
  destruct (last its) as [n|] eqn:Hl; [|apply last_None in Hl as ->].
  - eexists _, _. split; [done|]. split; [done|]. split; [done|]. split; [done|].
    cbn. by rewrite Hw, waiters_inc, waiters_dec.
  - destruct (closed q) eqn:Hcl.
    + eexists _, _. split; [done|]. split_and!; try done. cbn. by rewrite Hw, waiters_inc, waiters_dec.
    + destruct block; simpl negb; cbn iota.
      * destruct (timeout =? 0).
        -- eexists _, _. split; [done|]. split_and!; try done. cbn. by rewrite Hw, waiters_inc.
        -- unfold delay2abstime. rewrite abstime_usec by done. cbn [mbind option_bind].
           eexists _, _. split; [done|]. split_and!; try done. cbn. by rewrite Hw, waiters_inc.
      * eexists _, _. split; [done|]. split_and!; try done. cbn. by rewrite Hw, waiters_inc, waiters_dec.
Qed.

Lemma getnode_wake_cases q its pool h vs w :
  qrep q its pool h vs -> waiters q = u32 (w + 1) ->
  exists out q', avbox_queue_getnode_wake q = Some (out, q') /\
    cfg q' = cfg q /\ qrep q' its pool h vs /\ waiters q' = u32 w /\
    match out with
    | GnNode n => last its = Some n
    | GnErr e => its = [] /\ e = EAGAIN
    | GnWait _ => False
    end.
Proof.
  intros Hq Hw. pose proof Hq as (Ri & _). unfold avbox_queue_getnode_wake.
  rewrite (list_tail_rep _ _ _ Ri). cbn [mbind option_bind].
  destruct (last its) as [n|] eqn:Hl; [|apply last_None in Hl as ->];
    (eexists _, _; split; [done|]; split_and!; try done; cbn; by rewrite Hw, waiters_dec).
Qed.

Lemma get_finish_post q0 q its pool h vs w out :
  cfg q = cfg q0 -> qrep q its pool h vs ->
  match out with
  | GnNode n => last its = Some n /\ waiters q = u32 w
  | GnErr e => waiters q = u32 w
  | GnWait _ => waiters q = u32 (w + 1)
  end ->
  exists r q', get_finish (out, q) = Some (r, q') /\ get_post q0 its pool h vs w r q'.
Proof.
  intros Hc Hq Hout. destruct out as [n|e|d].
  - destruct Hout as [Hl Hw]. destruct (qrep_last _ _ _ _ _ _ Hq Hl) as (its' & vs' & v & -> & -> & Hv).
    destruct (get_finish_qrep _ _ _ _ _ _ _ Hq) as (q' & E & Hq' & Hc' & Hw').
    eexists _, _. split; [done|]. split; [congruence|]. exists its', n, vs'. rewrite Hw'. done.
  - eexists _, _. split; [done|]. done.
  - eexists _, _. split; [done|]. done.
Qed.

Lemma get_begin_post q its pool h vs w now :
  qrep q its pool h vs -> waiters q = u32 w -> 0 <= tval_usec now < 1000000 ->
  exists r q', avbox_queue_get_begin q now = Some (r, q') /\ get_post q its pool h vs w r q'.
Proof.
  intros Hq Hw Hnow. unfold avbox_queue_get_begin.
  destruct (getnode_begin_cases q its pool h vs w true 0 now) as (out & q1 & -> & Hc & Hq1 & Hout); [done..|].
  cbn [mbind option_bind]. apply get_finish_post; [done..|]. destruct out; naive_solver.
Qed.

Lemma get_wake_post q its pool h vs w :
  qrep q its pool h vs -> waiters q = u32 (w + 1) ->
  exists r q', avbox_queue_get_wake q = Some (r, q') /\ get_post q its pool h vs w r q'.
Proof.
  intros Hq Hw. unfold avbox_queue_get_wake.
  destruct (getnode_wake_cases q its pool h vs w) as (out & q1 & -> & Hc & Hq1 & Hw1 & Hout); [done..|].
  cbn [mbind option_bind]. apply get_finish_post; [done..|]. destruct out; naive_solver.
Qed.

Lemma peek_finish_post q0 q its pool h vs w out :
  cfg q = cfg q0 -> qrep q its pool h vs ->
  match out with
  | GnNode n => last its = Some n /\ waiters q = u32 w
  | GnErr e => waiters q = u32 w
  | GnWait _ => waiters q = u32 (w + 1)
  end ->
  exists r, peek_finish (out, q) = Some (r, q) /\ peek_post q0 its pool h vs w r q.
Proof.
  intros Hc Hq Hout. destruct out as [n|e|d].
  - destruct Hout as [Hl Hw]. destruct (qrep_last _ _ _ _ _ _ Hq Hl) as (its' & vs' & v & -> & -> & Hv).
    unfold peek_finish. cbn [fst snd]. rewrite Hv. cbn. eexists. split; [done|].
    split; [done|]. split; [done|]. by rewrite last_snoc.
  - eexists. split; [done|]. done.
  - eexists. split; [done|]. done.
Qed.

Lemma peek_any_post q its pool h vs w block timeout now :
  qrep q its pool h vs -> waiters q = u32 w -> 0 <= tval_usec now < 1000000 ->
  exists r q', (r' ← avbox_queue_getnode_begin q block timeout now; peek_finish r') = Some (r, q') /\
    peek_post q its pool h vs w r q'.
Proof.
  intros Hq Hw Hnow.
  destruct (getnode_begin_cases q its pool h vs w block timeout now)
    as (out & q1 & -> & Hc & Hq1 & Hout); [done..|].
  cbn [mbind option_bind].
  destruct (peek_finish_post q q1 its pool h vs w out) as (r & E & Hp); [done..| |eauto].
  destruct out; naive_solver.
Qed.

Lemma peek_wake_post q its pool h vs w :
  qrep q its pool h vs -> waiters q = u32 (w + 1) ->
  exists r q', avbox_queue_peek_wake q = Some (r, q') /\ peek_post q its pool h vs w r q'.
Proof.
  intros Hq Hw. unfold avbox_queue_peek_wake.
  destruct (getnode_wake_cases q its pool h vs w) as (out & q1 & -> & Hc & Hq1 & Hw1 & Hout); [done..|].
  cbn [mbind option_bind].
  destruct (peek_finish_post q q1 its pool h vs w out) as (r & E & Hp); [done..| |eauto].
  destruct out; naive_solver.
Qed.

(** ** The invariant of the system *)

Definition inv (s : system) : Prop :=
  exists its pool vs,
    qrep (queue s) its pool (helds (threads s)) vs /\
    waiters (queue s) = u32 (Z.of_nat (n_asleep (threads s))) /\
    put_log s = got_log s ++ reverse vs.

Lemma helds_perm l1 t l2 : helds (l1 ++ t :: l2) ≡ₚ held t ++ helds (l1 ++ l2).
Proof.
  unfold helds. rewrite !map_app, !concat_app. simpl. rewrite !app_assoc.
  f_equiv. apply Permutation_app_comm.
Qed.

Lemma n_asleep_mid l1 t l2 :
  Z.of_nat (n_asleep (l1 ++ t :: l2)) =
  Z.of_nat (n_asleep (l1 ++ l2)) + (if asleep t then 1 else 0).
Proof.
  unfold n_asleep. rewrite !filter_app, filter_cons, !length_app.
  destruct (asleep t); simpl; lia.
Qed.

(** The invariant seen from one thread [t]: the nodes it holds come first,
    and [w] other threads sleep. *)
Lemma inv_focus q l1 t l2 pl gl :
  inv (System q (l1 ++ t :: l2) pl gl) <->
  exists its pool vs, qrep q its pool (held t ++ helds (l1 ++ l2)) vs /\
    waiters q = u32 (Z.of_nat (n_asleep (l1 ++ l2)) + (if asleep t then 1 else 0)) /\
    pl = gl ++ reverse vs.
Proof.
  unfold inv. cbn [queue threads put_log got_log].
  setoid_rewrite helds_perm. setoid_rewrite n_asleep_mid. reflexivity.
Qed.

Lemma put_post_inv q its pool n l1 l2 vs v r q' pl gl :
  put_post q its pool n (helds (l1 ++ l2)) vs v (Z.of_nat (n_asleep (l1 ++ l2))) r q' ->
  pl = gl ++ reverse vs ->
  inv (System q' (l1 ++ (after_put v n r).1 :: l2) (pl ++ (after_put v n r).2) gl).
Proof.
  intros [_ Hr] ->. apply inv_focus. destruct r as [[e|u]|]; destruct Hr as [Hq Hw]; cbn;
    rewrite ?Z.add_0_r, ?app_nil_r.
  - eauto 10.
  - exists (n :: its), pool, (v :: vs). rewrite reverse_cons, app_assoc. eauto.
  - eauto 10.
Qed.

Lemma get_post_inv q its pool l1 l2 vs r q' pl gl :
  get_post q its pool (helds (l1 ++ l2)) vs (Z.of_nat (n_asleep (l1 ++ l2))) r q' ->
  pl = gl ++ reverse vs ->
  inv (System q' (l1 ++ (after_get r).1 :: l2) pl (gl ++ (after_get r).2)).
Proof.
  intros [_ Hr] ->. apply inv_focus. destruct r as [[e|v]|]; cbn; rewrite ?Z.add_0_r, ?app_nil_r.
  - destruct Hr as [Hq Hw]. eauto 10.
  - destruct Hr as (its' & n & vs' & -> & -> & Hq & Hw). exists its', (n :: pool), vs'.
    rewrite reverse_snoc, <- app_assoc. eauto.
  - destruct Hr as [Hq Hw]. eauto 10.
Qed.

Lemma peek_post_inv q its pool l1 l2 vs r q' pl gl :
  peek_post q its pool (helds (l1 ++ l2)) vs (Z.of_nat (n_asleep (l1 ++ l2))) r q' ->
  pl = gl ++ reverse vs ->
  inv (System q' (l1 ++ after_peek r :: l2) pl gl).
Proof.
  intros (_ & Hq & Hr) ->. apply inv_focus. exists its, pool, vs.
  destruct r as [[e|v]|]; cbn; rewrite ?Z.add_0_r; naive_solver.
Qed.

Lemma inv_step resize s s' : inv s -> step resize s s' -> inv s'.
Proof.
  intros Hinv Hs. destruct Hs as
    [q q' r mem v l1 l2 pl gl Hm E|q q' r v n l1 l2 pl gl E|q q' r v n l1 l2 pl gl E
    |q q' r now l1 l2 pl gl Hck E|q q' r l1 l2 pl gl E|q q' r b now l1 l2 pl gl Hck E
    |q q' r t now l1 l2 pl gl Hck E|q q' r l1 l2 pl gl E|q ts pl gl|q sz ts pl gl Hr Hsz];
    [apply inv_focus in Hinv as (its & pool & vs & Hq & Hw & Hpl); cbn in Hq, Hw;
     rewrite ?Z.add_0_r in Hw..| |].
  - destruct (acquire_node_qrep q its pool _ vs mem Hq Hm)
      as [(n & q1 & pool' & E1 & Hq1 & _ & Hw1)|(E1 & _ & _)];
      rewrite E1 in E; simplify_eq; apply inv_focus; cbn; rewrite Z.add_0_r, ?Hw1; eauto 10.
  - destruct (put_begin_post q its pool n _ vs v _ Hq Hw) as (r1 & q1 & E1 & Hp).
    rewrite E1 in E. simplify_eq. by eapply put_post_inv.
  - destruct (put_wake_post q its pool n _ vs v _ Hq Hw) as (r1 & q1 & E1 & Hp & _).
    rewrite E1 in E. simplify_eq. by eapply put_post_inv.
  - destruct (get_begin_post q its pool _ vs _ now Hq Hw Hck) as (r1 & q1 & E1 & Hp).
    rewrite E1 in E. simplify_eq. by eapply get_post_inv.
  - destruct (get_wake_post q its pool _ vs _ Hq Hw) as (r1 & q1 & E1 & Hp).
    rewrite E1 in E. simplify_eq. by eapply get_post_inv.
  - destruct (peek_any_post q its pool _ vs _ b 0 now Hq Hw Hck) as (r1 & q1 & E1 & Hp).
    unfold avbox_queue_peek_begin in E. rewrite E1 in E. simplify_eq. by eapply peek_post_inv.
  - destruct (peek_any_post q its pool _ vs _ true t now Hq Hw Hck) as (r1 & q1 & E1 & Hp).
    unfold avbox_queue_timedpeek_begin in E. rewrite E1 in E. simplify_eq. by eapply peek_post_inv.
  - destruct (peek_wake_post q its pool _ vs _ Hq Hw) as (r1 & q1 & E1 & Hp).
    rewrite E1 in E. simplify_eq. by eapply peek_post_inv.
  - exact Hinv.
  - exact Hinv.
Qed.

(** ** A new queue *)

(** The answers of the preallocation loop: distinct fresh addresses. *)
Definition fresh_mems (m : M) (mems : list (option loc)) : Prop :=
  NoDup (omap id mems) /\ (forall i, i ∈ omap id mems -> ~ allocated m i).

Lemma fresh_mems_take m n mems : fresh_mems m mems -> fresh_mems m (take n mems).
Proof.
  intros [Hnd Hf]. rewrite <- (take_drop n mems), omap_app in Hnd, Hf. split.
  - by apply NoDup_app in Hnd as [? _].
  - intros i Hi. apply Hf. set_solver.
Qed.

Lemma prealloc_qrep mems q pool :
  qrep q [] pool [] [] -> fresh_mems (store q) mems ->
  exists q' pool', prealloc mems q = Some q' /\ qrep q' [] pool' [] [] /\
    cfg q' = cfg q /\ waiters q' = waiters q.
Proof.
  revert q pool. induction mems as [|[i|] mems IH]; intros q pool Hq [Hnd Hfr]; simpl in *.
  - eauto 10.
  - apply NoDup_cons in Hnd as [Hi Hnd].
    assert (fresh_mem q (Some i)) as Hf by (intros ? [= <-]; apply Hfr; set_solver).
    assert (~ allocated (store q) i) as Hna by (apply Hfr; set_solver).
    destruct (list_alloc_rep (store q) i Hna) as [Hrep Hal].
    set (q1 := set_nodes (set_store q (list_alloc (store q) i))
                 (<[i := QueueNode None true]> (nodes q))).
    assert (qrep q1 [] pool [i] []) as Hq1.
    { destruct Hq as (Ri & Rp & Hnd' & _ & Hn & Hc & Hv). unfold qrep. cbn. split_and!; auto.
      - rewrite app_nil_r in Hnd'. repeat setoid_rewrite NoDup_cons in Hnd'.
        assert (i <> items q) by (intros ->; apply Hna; eapply rep_allocated; [exact Ri|set_solver]).
        assert (i ∉ nodes_pool q :: pool) by (intros Hx; apply Hna; eapply rep_allocated; [exact Rp|set_solver]).
        repeat setoid_rewrite NoDup_cons. rewrite NoDup_snoc. set_solver.
      - intros n Hx. apply Hal. set_solver.
      - intros n Hx. destruct (decide (n = i)) as [->|]; [by rewrite lookup_insert_eq|].
        rewrite lookup_insert_ne by done. apply Hn. set_solver. }
    destruct (release_node_qrep _ _ _ _ _ _ Hq1) as (q2 & E & Hq2 & Hc2 & Hw2 & Hal2).
    unfold release_node in E. cbn in E.
    destruct (list_add (list_alloc (store q) i) (nodes_pool q) i) as [m|] eqn:Ea; simplify_eq/=.
    destruct (IH _ _ Hq2) as (q' & pool' & E & Hq' & Hc & Hw).
    + split; [done|]. intros j Hj. rewrite Hal2. cbn. rewrite Hal. specialize (Hfr j). set_solver.
    + exists q', pool'. eauto.
  - by apply (IH q pool Hq).
Qed.

(** The memory [avbox_queue_new] gets: two distinct list heads. *)
Definition new_mem_ok (m : M) (items_hd pool_hd : loc) : Prop :=
  allocated m items_hd /\ allocated m pool_hd /\ items_hd <> pool_hd.

Lemma avbox_queue_new_qrep size m ih ph mems :
  new_mem_ok m ih ph -> fresh_mems m mems ->
  exists q pool, avbox_queue_new size (Some (m, ih, ph)) true mems (inr tt) = Some (inr q) /\
    qrep q [] pool [] [] /\ waiters q = 0 /\ closed q = false /\ sz q = size.
Proof.
  intros (Ai & Ap & Hne) Hfm. unfold avbox_queue_new.
  destruct (fresh_mems_take m (Z.to_nat size) mems Hfm) as [Hnd Hfr].
  destruct (list_init_rep m ph Ap) as (m1 & -> & Rp & Al1 & _). cbn [mbind option_bind].
  destruct (list_init_rep m1 ih) as (m2 & -> & Ri & Al2 & Fr); [by apply Al1|].
  cbn [mbind option_bind negb].
  destruct (prealloc_qrep (take (Z.to_nat size) mems) (AvboxQueue m2 ∅ false 0 0 size 0 ih ph "unnamed"%string) [])
    as (q & pool & -> & Hq & Hc & Hw).
  - unfold qrep. cbn. split_and!; [done|apply Fr; [set_solver|done]| |set_solver..|done|constructor].
    repeat (apply NoDup_cons; split; [set_solver|]). by apply NoDup_nil.
  - split; [done|]. intros i Hi. cbn. rewrite Al2, Al1. auto.
  - exists q, pool. unfold cfg in Hc. cbn in *. simplify_eq. done.
Qed.

(** An initial system: a new queue and idle threads. *)
Definition initial (size : Z) (s : system) : Prop :=
  exists m ih ph mems,
    new_mem_ok m ih ph /\ fresh_mems m mems /\
    avbox_queue_new size (Some (m, ih, ph)) true mems (inr tt) = Some (inr (queue s)) /\
    Forall (fun t => t = Idle) (threads s) /\ put_log s = [] /\ got_log s = [].

Lemma all_idle ts : Forall (fun t => t = Idle) ts -> helds ts = [] /\ n_asleep ts = 0%nat.
Proof. induction 1 as [|t ts -> _ [IH1 IH2]]; [done|]. by unfold helds, n_asleep in *. Qed.

Lemma initial_inv size s : initial size s -> inv s /\ sz (queue s) = size.
Proof.
  intros (m & ih & ph & mems & Hm & Hf & E & Hi & Hp & Hg).
  destruct (avbox_queue_new_qrep size m ih ph mems Hm Hf) as (q & pool & E' & Hq & Hw & _ & Hsz).
  rewrite E' in E. simplify_eq. split; [|done]. exists [], pool, [].
  destruct (all_idle _ Hi) as [-> ->]. rewrite Hp, Hg. by rewrite Hw.
Qed.

Lemma queue_reachable_inv resize size s0 s : initial size s0 -> rtc (step resize) s0 s -> inv s.
Proof.
  intros Hi Hr. apply (rtc_invariant (step resize) inv (inv_step resize) s0 s Hr).
  by apply (initial_inv size).
Qed.

(** ** The abstract queue *)

Record fifo := Fifo { pending : list V; puts : list V; gots : list V }.

Inductive fifo_step : fifo -> fifo -> Prop :=
  | fifo_enqueue p pu go v : fifo_step (Fifo p pu go) (Fifo (p ++ [v]) (pu ++ [v]) go)
  | fifo_dequeue p pu go v : fifo_step (Fifo (v :: p) pu go) (Fifo p pu (go ++ [v])).

(** The abstract state of a system. *)
Definition sim (s : system) (a : fifo) : Prop :=
  inv s /\ a = Fifo (drop (length (got_log s)) (put_log s)) (put_log s) (got_log s).

Lemma inv_logs s : inv s -> exists vs, put_log s = got_log s ++ vs.
Proof. intros (_ & _ & vs & _ & _ & E). eauto. Qed.

Lemma step_logs resize s s' : step resize s s' ->
  (put_log s' = put_log s /\ got_log s' = got_log s) \/
  (exists v, put_log s' = put_log s ++ [v] /\ got_log s' = got_log s) \/
  (exists v, put_log s' = put_log s /\ got_log s' = got_log s ++ [v]).
Proof.
  destruct 1; cbn; try tauto.
  all: match goal with r : outcome _ |- _ => destruct r as [[?|?]|] end;
    cbn; rewrite ?app_nil_r; eauto.
Qed.

Lemma sim_step resize s s' a :
  step resize s s' -> sim s a -> exists b, rtc fifo_step a b /\ sim s' b.
Proof.
  intros Hs [Hinv ->]. pose proof (inv_step _ _ _ Hinv Hs) as Hinv'.
  eexists. split; [|split; [done|reflexivity]].
  destruct (inv_logs _ Hinv) as [vs E]. destruct (inv_logs _ Hinv') as [vs' E'].
  destruct (step_logs _ _ _ Hs) as [[-> ->]|[(v & -> & ->)|(v & Hp & Hg)]]; [done| |].
  - apply rtc_once. rewrite E, <- !app_assoc, !drop_app_length.
    rewrite (app_assoc (got_log s) vs [v]) at 1. constructor.
  - rewrite Hp, Hg in *. rewrite E' at 1 3. rewrite drop_app_length, <- app_assoc, drop_app_length.
    apply rtc_once. constructor.
Qed.

(** ** Properties *)

(** C1. The queue refines a FIFO: whatever the interleaving of any number
    of threads that put, get, peek, close and resize, with spurious
    wake-ups and failing allocations, a run from a new queue is matched
    step by step by a run of the abstract queue; the items got are exactly
    the items put, in order and without loss or duplication, followed by
    the pending items the list of nodes still carries. *)
Theorem queue_refines_fifo (size : Z) (s0 s : system) :
  initial size s0 -> rtc (step true) s0 s ->
  exists its pool vs,
    qrep (queue s) its pool (helds (threads s)) vs /\
    put_log s = got_log s ++ reverse vs /\
    rtc fifo_step (Fifo [] [] []) (Fifo (reverse vs) (put_log s) (got_log s)).
Proof.
  intros Hi Hr. destruct (initial_inv size s0 Hi) as [Hinv0 _].
  assert (sim s0 (Fifo [] [] [])) as Hs0.
  { split; [done|]. destruct Hi as (_ & _ & _ & _ & _ & _ & _ & _ & -> & ->). done. }
  destruct (rtc_simulation (step true) fifo_step sim (sim_step true) _ _ _ Hr Hs0)
    as (b & Hb & (its & pool & vs & Hq & _ & E) & ->).
  exists its, pool, vs. split; [done|]. split; [done|].
  rewrite E, drop_app_length in Hb. by rewrite E.
Qed.

(** C31. Memory safety and accounting: in every reachable state no part of
    any operation reads or writes an unmapped list node, the count is the
    number of items, the waiter count is the number of sleeping threads,
    and no node is at once queued, pooled or held by two callers. *)
Theorem queue_memory_safe (resize : bool) (size : Z) (s0 s : system) :
  initial size s0 -> rtc (step resize) s0 s ->
  let q := queue s in
  (forall mem, fresh_mem q mem -> is_Some (acquire_node q mem)) /\
  (forall now, clock_ok now ->
     is_Some (avbox_queue_get_begin q now) /\
     (forall block, is_Some (avbox_queue_peek_begin q block now)) /\
     (forall timeout, is_Some (avbox_queue_timedpeek_begin q timeout now))) /\
  (forall v n, Putting v n ∈ threads s -> is_Some (avbox_queue_put_begin q n v)) /\
  (forall v n, PutAsleep v n ∈ threads s -> is_Some (avbox_queue_put_wake q n v)) /\
  (GetAsleep ∈ threads s -> is_Some (avbox_queue_get_wake q)) /\
  (PeekAsleep ∈ threads s -> is_Some (avbox_queue_peek_wake q)) /\
  waiters q = u32 (Z.of_nat (n_asleep (threads s))) /\
  (exists its pool, rep (store q) (items q) its /\ rep (store q) (nodes_pool q) pool /\
     cnt q = u64 (Z.of_nat (length its)) /\ NoDup (its ++ pool ++ helds (threads s))).
Proof.
  intros Hi Hr q. pose proof (queue_reachable_inv _ _ _ _ Hi Hr) as Hinv.
  assert (forall t, t ∈ threads s -> exists its pool vs l1 l2,
    qrep q its pool (held t ++ helds (l1 ++ l2)) vs /\
    waiters q = u32 (Z.of_nat (n_asleep (l1 ++ l2)) + (if asleep t then 1 else 0))) as Hfocus.
  { intros t (l1 & l2 & E)%list_elem_of_split. subst q. destruct s as [q ts pl gl]. cbn in *. subst ts.
    apply inv_focus in Hinv as (its & pool & vs & ? & ? & _). eauto 10. }
  destruct Hinv as (its & pool & vs & Hq & Hw & _). fold q in Hq, Hw. split_and!.
  - intros mem Hm. destruct (acquire_node_qrep _ _ _ _ _ mem Hq Hm) as [(? & ? & ? & -> & _)|[-> _]]; eauto.
  - intros now Hck. split_and!.
    + destruct (get_begin_post _ _ _ _ _ _ now Hq Hw Hck) as (? & ? & -> & _); eauto.
    + intros b. destruct (peek_any_post _ _ _ _ _ _ b 0 now Hq Hw Hck) as (? & ? & E & _).
      unfold avbox_queue_peek_begin. rewrite E. eauto.
    + intros t. destruct (peek_any_post _ _ _ _ _ _ true t now Hq Hw Hck) as (? & ? & E & _).
      unfold avbox_queue_timedpeek_begin. rewrite E. eauto.
  - intros v n Ht. destruct (Hfocus _ Ht) as (? & ? & ? & ? & ? & Hq1 & Hw1). cbn in Hq1, Hw1.
    rewrite Z.add_0_r in Hw1. destruct (put_begin_post _ _ _ _ _ _ v _ Hq1 Hw1) as (? & ? & -> & _); eauto.
  - intros v n Ht. destruct (Hfocus _ Ht) as (? & ? & ? & ? & ? & Hq1 & Hw1). cbn in Hq1, Hw1.
    destruct (put_wake_post _ _ _ _ _ _ v _ Hq1 Hw1) as (? & ? & -> & _); eauto.
  - intros Ht. destruct (Hfocus _ Ht) as (? & ? & ? & ? & ? & Hq1 & Hw1). cbn in Hq1, Hw1.
    destruct (get_wake_post _ _ _ _ _ _ Hq1 Hw1) as (? & ? & -> & _); eauto.
  - intros Ht. destruct (Hfocus _ Ht) as (? & ? & ? & ? & ? & Hq1 & Hw1). cbn in Hq1, Hw1.
    destruct (peek_wake_post _ _ _ _ _ _ Hq1 Hw1) as (? & ? & -> & _); eauto.
  - done.
  - destruct Hq as (? & ? & Hnd & _ & _ & ? & _). exists its, pool. split_and!; try done.
    apply NoDup_cons in Hnd as [_ [_ Hnd]%NoDup_cons]. done.
Qed.

(** The bound: a commit needs room. *)
Lemma put_room q n v u q' :
  0 < sz q ->
  avbox_queue_put_begin q n v = Some (Done (inr u), q') \/
  avbox_queue_put_wake q n v = Some (Done (inr u), q') -> cnt q < sz q.
Proof.
  intros Hsz [E|E].
  - unfold avbox_queue_put_begin in E. change (sz (inc_waiters q)) with (sz q) in E.
    change (cnt (inc_waiters q)) with (cnt q) in E.
    destruct ((sz q >? 0) && (cnt q >=? sz q)) eqn:Hf.
    + destruct (closed _); [|done]. unfold put_fail in E. by destruct (release_node _ _).
    + apply andb_false_iff in Hf. lia.
  - unfold avbox_queue_put_wake in E. destruct (cnt q >=? sz q) eqn:Hf; [|lia].
    unfold put_fail in E. by destruct (release_node _ _).
Qed.

Definition bounded (size : Z) (s : system) : Prop :=
  inv s /\ sz (queue s) = size /\
  exists its, rep (store (queue s)) (items (queue s)) its /\ Z.of_nat (length its) <= size.

Lemma rep_unique m hd xs ys : rep m hd xs -> rep m hd ys -> xs = ys.
Proof. intros Hx%list_elems_rep Hy%list_elems_rep. congruence. Qed.

(** A step with the size fixed: the items are the same, one fewer, or one
    more and then there was room. *)
Lemma step_items s s' : inv s -> step false s s' ->
  sz (queue s') = sz (queue s) /\
  exists its its', rep (store (queue s)) (items (queue s)) its /\
    rep (store (queue s')) (items (queue s')) its' /\
    cnt (queue s) = u64 (Z.of_nat (length its)) /\
    ((length its' <= length its)%nat \/
     (length its' = S (length its) /\ (0 < sz (queue s) -> cnt (queue s) < sz (queue s)))).
Proof.
  intros Hinv Hs. destruct Hs as
    [q q' r mem v l1 l2 pl gl Hm E|q q' r v n l1 l2 pl gl E|q q' r v n l1 l2 pl gl E
    |q q' r now l1 l2 pl gl Hck E|q q' r l1 l2 pl gl E|q q' r b now l1 l2 pl gl Hck E
    |q q' r t now l1 l2 pl gl Hck E|q q' r l1 l2 pl gl E|q ts pl gl|q sz ts pl gl Hr Hsz];
    [apply inv_focus in Hinv as (its & pool & vs & Hq & Hw & Hpl); cbn in Hq, Hw;
     rewrite ?Z.add_0_r in Hw..| |]; cbn.
  - destruct (acquire_node_qrep q its pool _ vs mem Hq Hm)
      as [(n & q1 & pool' & E1 & Hq1 & Hc & _)|(E1 & _ & _)];
      rewrite E1 in E; unfold cfg in *; simplify_eq;
      (split; [done|]); exists its, its; unfold qrep in *; naive_solver.
  - destruct (put_begin_post q its pool n _ vs v _ Hq Hw) as (r1 & q1 & E1 & Hc & Hp).
    rewrite E1 in E. unfold cfg in *. simplify_eq. split; [done|]. exists its. unfold qrep in *.
    destruct r as [[e|u]|].
    + exists its. naive_solver.
    + exists (n :: its). pose proof (put_room q n v u q'). naive_solver.
    + exists its. naive_solver.
  - destruct (put_wake_post q its pool n _ vs v _ Hq Hw) as (r1 & q1 & E1 & [Hc Hp] & _).
    rewrite E1 in E. unfold cfg in *. simplify_eq. split; [done|]. exists its. unfold qrep in *.
    destruct r as [[e|u]|].
    + exists its. naive_solver.
    + exists (n :: its). pose proof (put_room q n v u q'). naive_solver.
    + exists its. naive_solver.
  - destruct (get_begin_post q its pool _ vs _ now Hq Hw Hck) as (r1 & q1 & E1 & Hc & Hp).
    rewrite E1 in E. unfold cfg in *. simplify_eq. split; [done|]. exists its. unfold qrep in *.
    destruct r as [[e|v]|]; [exists its; naive_solver| |exists its; naive_solver].
    destruct Hp as (its' & n & vs' & -> & _ & Hq' & _). exists its'. destruct_and!. split_and!; try done. left. rewrite length_app. lia.
  - destruct (get_wake_post q its pool _ vs _ Hq Hw) as (r1 & q1 & E1 & Hc & Hp).
    rewrite E1 in E. unfold cfg in *. simplify_eq. split; [done|]. exists its. unfold qrep in *.
    destruct r as [[e|v]|]; [exists its; naive_solver| |exists its; naive_solver].
    destruct Hp as (its' & n & vs' & -> & _ & Hq' & _). exists its'. destruct_and!. split_and!; try done. left. rewrite length_app. lia.
  - destruct (peek_any_post q its pool _ vs _ b 0 now Hq Hw Hck) as (r1 & q1 & E1 & Hc & Hq1 & _).
    unfold avbox_queue_peek_begin in E. rewrite E1 in E. unfold cfg in *. simplify_eq.
    split; [done|]. exists its, its. unfold qrep in *. naive_solver.
  - destruct (peek_any_post q its pool _ vs _ true t now Hq Hw Hck) as (r1 & q1 & E1 & Hc & Hq1 & _).
    unfold avbox_queue_timedpeek_begin in E. rewrite E1 in E. unfold cfg in *. simplify_eq.
    split; [done|]. exists its, its. unfold qrep in *. naive_solver.
  - destruct (peek_wake_post q its pool _ vs _ Hq Hw) as (r1 & q1 & E1 & Hc & Hq1 & _).
    rewrite E1 in E. unfold cfg in *. simplify_eq.
    split; [done|]. exists its, its. unfold qrep in *. naive_solver.
  - destruct Hinv as (its & pool & vs & Hq & _). split; [done|]. exists its, its.
    unfold qrep in *. naive_solver.
  - done.
Qed.

Lemma bounded_step size s s' :
  0 < size <= SIZE_MAX -> bounded size s -> step false s s' -> bounded size s'.
Proof.
  intros Hsize (Hinv & Hsz & its0 & R0 & Hb) Hs.
  destruct (step_items _ _ Hinv Hs) as (Hsz' & its & its' & R & R' & Hc & Hl).
  pose proof (rep_unique _ _ _ _ R0 R) as ->. split_and!; [by eapply inv_step|congruence|].
  exists its'. split; [done|]. rewrite Hsz in *. unfold SIZE_MAX in *.
  destruct Hl as [Hl|[Hl Hroom]]; [lia|]. rewrite Hc, wrapu_small in Hroom by lia. lia.
Qed.

(** The size limit holds: with a limit [size > 0] that is never
    changed, no reachable state has more than [size] items, so
    [avbox_queue_count] never exceeds it, whatever the threads do. *)
Lemma queue_bounded (size : Z) (s0 s : system) :
  0 < size <= SIZE_MAX -> initial size s0 -> rtc (step false) s0 s ->
  0 <= avbox_queue_count (queue s) <= size.
Proof.
  intros Hsize Hi Hr. destruct (initial_inv size s0 Hi) as [Hinv0 Hsz0].
  assert (bounded size s0) as Hb0.
  { split_and!; [done..|]. destruct Hi as (m & ih & ph & mems & Hm & Hf & E & _).
    destruct (avbox_queue_new_qrep size m ih ph mems Hm Hf) as (q & pool & E' & (R & _) & _).
    rewrite E' in E. simplify_eq. exists []. split; [done|]. simpl. lia. }
  destruct (rtc_invariant (step false) (bounded size) (fun x y Hx => bounded_step size x y Hsize Hx)
              s0 s Hr Hb0) as ((its & pool & vs & (R & _ & _ & _ & _ & Hc & _) & _) & _ & its' & R' & Hl).
  pose proof (rep_unique _ _ _ _ R R') as ->. unfold avbox_queue_count, SIZE_MAX in *.
  rewrite Hc, wrapu_small; lia.
Qed.

(** The results of calls by what they find: the oldest item if there is
    one, whether the queue is closed, and whether the call may sleep. *)
Definition begin_result (block is_closed : bool) (oldest : option V) : outcome (result V) :=
  match oldest with
  | Some v => Done (inr v)
  | None => if is_closed then Done (inl ESHUTDOWN) else if block then Sleep else Done (inl EAGAIN)
  end.

Definition wake_result (oldest : option V) : outcome (result V) :=
  match oldest with Some v => Done (inr v) | None => Done (inl EAGAIN) end.

Definition put_result (is_closed full : bool) : outcome (result unit) :=
  if full then (if is_closed then Done (inl ESHUTDOWN) else Sleep) else Done (inr tt).

(** What [getnode] found, as a result. *)
Definition found (r : outcome (result V)) (q : avbox_queue) (out : getnode_out) : Prop :=
  match out with
  | GnNode n => exists v, node_value q n = Some v /\ r = Done (inr v)
  | GnErr e => r = Done (inl e)
  | GnWait _ => r = Sleep
  end.

Lemma found_get r q out r' q' : found r q out -> get_finish (out, q) = Some (r', q') -> r' = r.
Proof.
  unfold get_finish. destruct out as [n|e|d]; cbn [fst snd]; [|by intros -> [= <- _]..].
  intros (v & -> & ->). cbn [mbind option_bind]. destruct (list_remove _ _); [|done]. cbn [mbind option_bind].
  destruct (release_node _ _); [|done]. by intros [= <- _].
Qed.

Lemma found_peek r q out r' q' : found r q out -> peek_finish (out, q) = Some (r', q') -> r' = r.
Proof.
  unfold peek_finish. destruct out as [n|e|d]; cbn [fst snd]; [|by intros -> [= <- _]..].
  intros (v & -> & ->). by intros [= <- _].
Qed.

Lemma begin_found q its pool h vs w block timeout now :
  qrep q its pool h vs -> waiters q = u32 w -> clock_ok now ->
  exists out q', avbox_queue_getnode_begin q block timeout now = Some (out, q') /\
    found (begin_result block (closed q) (last vs)) q' out.
Proof.
  intros Hq Hw Hck. destruct (getnode_begin_cases q its pool h vs w block timeout now) as (out & q1 & E & _ & Hq1 & Ho); [done..|].
  exists out, q1. split; [done|]. pose proof Hq as (_ & _ & _ & _ & _ & _ & Hvs). destruct out as [n|e|d]; cbn.
  - destruct Ho as [Hl _]. destruct (qrep_last _ _ _ _ _ _ Hq1 Hl) as (its' & vs' & v & -> & -> & Hv). exists v. by rewrite last_snoc.
  - destruct Ho as (-> & _ & -> & Hb). inversion Hvs; subst. cbn. destruct (closed q); [done|]. by rewrite Hb.
  - destruct Ho as (-> & Hcl & -> & _). inversion Hvs; subst. cbn. by rewrite Hcl.
Qed.

Lemma wake_found q its pool h vs w :
  qrep q its pool h vs -> waiters q = u32 (w + 1) ->
  exists out q', avbox_queue_getnode_wake q = Some (out, q') /\ found (wake_result (last vs)) q' out.
Proof.
  intros Hq Hw. destruct (getnode_wake_cases q its pool h vs w) as (out & q1 & E & _ & Hq1 & _ & Ho); [done..|].
  exists out, q1. split; [done|]. pose proof Hq as (_ & _ & _ & _ & _ & _ & Hvs). destruct out as [n|e|d]; cbn; [| |done].
  - destruct (qrep_last _ _ _ _ _ _ Hq1 Ho) as (its' & vs' & v & -> & -> & Hv). exists v. by rewrite last_snoc.
  - destruct Ho as (-> & ->). by inversion Hvs.
Qed.


(** A put into a closed queue that is not full is accepted: the item
    is enqueued and 0 returned, although the comment on
    [avbox_queue_close] promises ESHUTDOWN for all attempts to write. *)
Lemma put_after_close_accepted (q : avbox_queue) (its pool : list loc) (n : loc) (h : list loc)
    (vs : list V) (v : V) (w : Z) :
  qrep q its pool (n :: h) vs -> waiters q = u32 w -> sz q = 0 \/ cnt q < sz q ->
  exists q', avbox_queue_put_begin (avbox_queue_close q) n v = Some (Done (inr tt), q') /\
    qrep q' (n :: its) pool h (v :: vs) /\ avbox_queue_isclosed q' = true.
Proof.
  intros Hq Hw Hroom. unfold avbox_queue_put_begin.
  change (sz (inc_waiters (avbox_queue_close q))) with (sz q).
  change (cnt (inc_waiters (avbox_queue_close q))) with (cnt q).
  assert ((sz q >? 0) && (cnt q >=? sz q) = false) as -> by (apply andb_false_iff; lia).
  destruct (put_commit_qrep (inc_waiters (avbox_queue_close q)) its pool n h vs v)
    as (q' & -> & Hq' & Hc & _); [done|].
  exists q'. split_and!; [done..|]. unfold cfg in Hc. by simplify_eq/=.
Qed.

(** ** Destruction *)

(** The two lists of a queue, whatever the counters say. *)
Definition two_lists (q : avbox_queue) (its pool : list loc) : Prop :=
  rep (store q) (items q) its /\ rep (store q) (nodes_pool q) pool /\
  NoDup (items q :: nodes_pool q :: its ++ pool).

Lemma two_lists_disjoint q its pool :
  two_lists q its pool ->
  disjoint_ring (items q) its (nodes_pool q) pool /\ disjoint_ring (nodes_pool q) pool (items q) its.
Proof.
  intros (_ & _ & Hnd). repeat setoid_rewrite NoDup_cons in Hnd. setoid_rewrite NoDup_app in Hnd.
  split; intros x Hx Hy; set_solver.
Qed.

(** Only the list store changes. *)
Definition same_nodes (q q' : avbox_queue) : Prop :=
  items q' = items q /\ nodes_pool q' = nodes_pool q /\ nodes q' = nodes q.

Lemma flush_items_lists its q pool :
  two_lists q its pool ->
  exists q', flush_items its q = Some q' /\ two_lists q' [] (reverse its ++ pool) /\ same_nodes q q'.
Proof.
  revert q pool. induction its as [|n its IH]; intros q pool Ht.
  { exists q. by split. }
  pose proof (two_lists_disjoint _ _ _ Ht) as [D1 D2]. destruct Ht as (Ri & Rp & Hnd). simpl.
  destruct (list_remove_rep (store q) (items q) [] n its Ri) as (m & -> & Ri' & Al & Fr).
  cbn [mbind option_bind]. simpl in Ri'.
  assert (n ∉ nodes_pool q :: pool /\ n <> items q /\ n ∉ its) as (F1 & F2 & F3).
  { repeat setoid_rewrite NoDup_cons in Hnd. setoid_rewrite NoDup_app in Hnd. set_solver. }
  destruct (list_add_rep m (nodes_pool q) pool n) as (m2 & E2 & Rp2 & Al2 & Fr2);
    [by apply Fr|apply Al; eapply rep_allocated; [exact Ri|set_solver]|done|].
  unfold release_node. cbn [store nodes_pool set_store]. rewrite E2. cbn [mbind option_bind].
  destruct (IH (set_store (set_store q m) m2) (n :: pool)) as (q' & E & Ht' & Hs).
  - split_and!; [|done|].
    + apply Fr2; [|done]. intros x Hx Hy. specialize (D2 x). set_solver.
    + eapply NoDup_perm; [|exact Hnd]. cbn. solve_Permutation.
  - exists q'. split; [done|]. rewrite reverse_cons, <- app_assoc. split; [exact Ht'|].
    destruct Hs as (? & ? & ?). by repeat split.
Qed.

Lemma flush_pool_lists pool q freed :
  two_lists q [] pool -> (forall n, n ∈ pool -> is_Some (nodes q !! n)) ->
  exists q', flush_pool pool q freed =
      Some (q', freed ++ filter (fun n => must_free <$> nodes q !! n = Some true) pool) /\
    two_lists q' [] [].
Proof.
  revert q freed. induction pool as [|n pool IH]; intros q freed Ht Hn.
  { exists q. by rewrite app_nil_r. }
  pose proof (two_lists_disjoint _ _ _ Ht) as [D1 D2]. destruct Ht as (Ri & Rp & Hnd). simpl.
  destruct (list_remove_rep (store q) (nodes_pool q) [] n pool Rp) as (m & -> & Rp' & Al & Fr).
  cbn [mbind option_bind]. destruct (Hn n) as [nd E]; [set_solver|]. rewrite E. cbn [mbind option_bind].
  destruct (IH (set_store q m) (if must_free nd then freed ++ [n] else freed)) as (q' & E' & Ht').
  - split_and!; [by apply Fr|done|].
    repeat setoid_rewrite NoDup_cons in Hnd. repeat setoid_rewrite NoDup_cons. set_solver.
  - intros x Hx. apply Hn. set_solver.
  - exists q'. rewrite E'. split; [|done]. rewrite filter_cons, E. cbn.
    destruct (must_free nd); cbn; [by rewrite <- app_assoc|done].
Qed.

(** Destruction frees every node: once nobody waits,
    [avbox_queue_destroy] empties both lists without a bad access and
    hands to [free] exactly the dynamically allocated nodes that were
    queued or pooled, each of them once. *)
Lemma destroy_frees_all (q : avbox_queue) (its pool : list loc) (vs : list V) :
  qrep q its pool [] vs ->
  exists q' freed, avbox_queue_destroy_finish (avbox_queue_close q) = Some (q', freed) /\
    rep (store q') (items q') [] /\ rep (store q') (nodes_pool q') [] /\
    NoDup freed /\
    (forall n, n ∈ freed <-> (n ∈ its \/ n ∈ pool) /\ must_free <$> nodes q !! n = Some true).
Proof.
  intros (Ri & Rp & Hnd & _ & Hn & _). rewrite app_nil_r in *.
  unfold avbox_queue_destroy_finish. cbn [store items avbox_queue_close set_closed].
  rewrite (list_elems_rep _ _ _ Ri). cbn [mbind option_bind].
  destruct (flush_items_lists its (avbox_queue_close q) pool) as (q1 & E1 & Ht1 & Hs1 & Hs2 & Hs3);
    [done|]. rewrite E1. cbn [mbind option_bind].
  pose proof Ht1 as (_ & Rp1 & Hnd1). rewrite (list_elems_rep _ _ _ Rp1). cbn [mbind option_bind].
  destruct (flush_pool_lists (reverse its ++ pool) q1 []) as (q' & -> & Ri' & Rp' & _); [done| |].
  { rewrite Hs3. intros n Hx. apply Hn. rewrite <- (reverse_Permutation its). done. }
  eexists _, _. split; [done|]. split_and!; [done..| |].
  - apply NoDup_filter. apply NoDup_cons in Hnd1 as [_ [_ Hnd1]%NoDup_cons]. done.
  - intros n. cbn [app]. rewrite list_elem_of_filter, Hs3, elem_of_app, elem_of_reverse. tauto.
Qed.

End queue.

Arguments Done {A} _.
Arguments Sleep {A}.

(** *** Witnesses: a queue of at most two numbers on the heap of list heads *)

Definition sample_store : heap :=
  list_to_map [(1, Listhead 1 1); (2, Listhead 2 2)]%positive.

Definition sample_mems : list (option loc) := [Some 3; None; Some 4]%positive.

Definition sample_queue : @avbox_queue heap nat :=
  match avbox_queue_new 2 (Some (sample_store, 1%positive, 2%positive)) true sample_mems (inr tt) with
  | Some (inr q) => q
  | _ => AvboxQueue ∅ ∅ false 0 0 0 0 1%positive 2%positive "failed"%string
  end.

Definition sample_system : @system heap nat := System sample_queue [Idle; Idle] [] [].

Lemma sample_initial : initial 2 sample_system.
Proof.
  exists sample_store, 1%positive, 2%positive, sample_mems.
  split; [|split; [|split; [vm_compute; reflexivity|split; [|done]]]].
  - split; [|split]; [apply elem_of_dom; by eexists..|done].
  - split; [repeat (apply NoDup_cons; split; [set_solver|]); by apply NoDup_nil|].
    intros i Hi. change (omap id sample_mems) with [3; 4]%positive in Hi.
    intros Hd. apply elem_of_dom in Hd as [x Hx].
    assert (i = 3 \/ i = 4)%positive as [-> | ->] by set_solver; by vm_compute in Hx.
  - repeat constructor.
Qed.

(** One thread puts 7 while the other gets it. *)
Lemma sample_run resize :
  exists s, rtc (step resize) sample_system s /\ put_log s = [7%nat] /\ got_log s = [7%nat].
Proof.
  eexists. split; [|split]; cycle 1.
  1,2: shelve.
  eapply rtc_l.
  { eapply (step_acquire resize sample_queue _ _ None 7%nat [] [Idle]); [by intros ?|].
    vm_compute. reflexivity. }
  eapply rtc_l.
  { eapply (step_put resize _ _ _ 7%nat _ [] [Idle]). vm_compute. reflexivity. }
  eapply rtc_l.
  { eapply (step_get resize _ _ _ (Timeval 0 0) [Idle] []); [by split|]. vm_compute. reflexivity. }
  apply rtc_refl.
  Unshelve. all: reflexivity.
Qed.

Lemma queue_refines_fifo_witness :
  exists s : @system heap nat, got_log s = [7%nat] /\
    exists vs, rtc fifo_step (Fifo [] [] []) (Fifo (reverse vs) (put_log s) (got_log s)).
Proof.
  destruct (sample_run true) as (s & Hr & _ & Hg). exists s. split; [exact Hg|].
  destruct (queue_refines_fifo 2 sample_system s sample_initial Hr) as (_ & _ & vs & _ & _ & H).
  exists vs. exact H.
Defined.

Lemma queue_memory_safe_witness :
  exists s : @system heap nat, put_log s = [7%nat] /\
    is_Some (avbox_queue_get_begin (queue s) (Timeval 0 0)).
Proof.
  destruct (sample_run false) as (s & Hr & Hp & _). exists s. split; [exact Hp|].
  destruct (queue_memory_safe false 2 sample_system s sample_initial Hr) as (_ & H & _).
  apply (H (Timeval 0 0)). by split.
Defined.

Lemma queue_bounded_witness :
  exists s : @system heap nat, put_log s = [7%nat] /\ 0 <= avbox_queue_count (queue s) <= 2.
Proof.
  destruct (sample_run false) as (s & Hr & Hp & _). exists s. split; [exact Hp|].
  apply (queue_bounded 2 sample_system s); [vm_compute; split; [reflexivity|discriminate]|
    exact sample_initial|exact Hr].
Defined.

Lemma sample_qrep : exists pool, qrep sample_queue [] pool [] [].
Proof.
  destruct sample_initial as (m & ih & ph & mems & Hm & Hf & E & _).
  destruct (avbox_queue_new_qrep (V := nat) 2 m ih ph mems Hm Hf) as (q & pool & E' & Hq & _).
  exists pool. rewrite E' in E. cbn in E. simplify_eq. exact Hq.
Qed.


Lemma put_after_close_accepted_witness :
  exists q q' n, avbox_queue_put_begin (avbox_queue_close q) n 7%nat = Some (Done (inr tt), q') /\
    @avbox_queue_isclosed heap nat q' = true.
Proof.
  destruct sample_qrep as [pool Hq].
  destruct (acquire_node_qrep sample_queue [] pool [] [] None Hq) as [(n & q & pool' & E & Hq' & Hc & Hw)|(E & _)];
    [by intros ?| |vm_compute in E; discriminate].
  destruct (put_after_close_accepted q [] pool' n [] [] 7%nat 0) as (q' & E' & _ & Hcl);
    [exact Hq'|by rewrite Hw|right; vm_compute in E; by simplify_eq|].
  exists q, q', n. split; [exact E'|exact Hcl].
Defined.

Lemma destroy_frees_all_witness :
  exists q' freed, avbox_queue_destroy_finish (avbox_queue_close sample_queue) = Some (q', freed) /\
    NoDup freed.
Proof.
  destruct sample_qrep as [pool Hq].
  destruct (destroy_frees_all sample_queue [] pool [] Hq) as (q' & freed & E & _ & _ & Hnd & _).
  exists q', freed. split; [exact E|exact Hnd].
Defined.
