(* ===== verification/HttpStream.v ===== *)
(** * The HTTP stream with read-ahead (src/lib/stream.c)

    A background worker fills a ring buffer through libcurl while a reader
    drains it.  libcurl is a parameter: what each call to it answered (the
    chunks it passed to the write callback, whether the transfer still
    runs) is an argument of the definitions.  The file has three parts: the
    write callback and [fillbuf] (module [Net]), the ring buffer shared by
    worker and reader with the seek logic (module [Ring]), and their
    interleaving. *)

From S2P Require Import Prelude.

Definition KB : Z := 1024.
Definition MB : Z := 1024 * 1024.
Definition READAHEAD_BUFSZ_START : Z := 64 * KB.
Definition READAHEAD_BUFSZ_STEP : Z := 2 * MB.
Definition READAHEAD_BUFSZ_MAX : Z := 10 * MB + READAHEAD_BUFSZ_START.
Definition READAHEAD_CHUNK_SIZE : Z := 8 * KB.
Definition READAHEAD_TRESHOLD : Z := 5.
Definition READAHEAD_FSEEK_MAX : Z := 64 * KB.
Definition RETRIES_MAX : Z := 3.

Definition CURLE_OK : Z := 0.
Definition CURLE_COULDNT_CONNECT : Z := 7.


(** ** The write callback and [fillbuf] *)
Module Net.

(** The fields of [struct avbox_httpstream] that belong to the transfer.
    [buf] has [bufsz] bytes, of which the [bufcnt] bytes from [ptr] are
    data that did not fit in an earlier request.  [delivered] is a ghost:
    every byte accepted from libcurl since the stream was opened. *)
Record net := Net {
  handle : bool;            (* false after curl_easy_cleanup *)
  connected : bool;
  result : Z;
  buf : list byte;
  ptr : Z;
  bufsz : Z;
  bufcnt : Z;
  delivered : list byte;
}.

(** [struct avbox_httpstream_cbdata]: [out] is what was written to (or, for
    a NULL buffer, skipped for) the request so far; its length is [avail]. *)
Record cbdata := Cbdata { out : list byte; rem : Z }.

Definition avail (cb : cbdata) : Z := len (out cb).

(** [memcpy(buf + off, src, n)] into a buffer. *)
Definition splice (b : list byte) (off : Z) (src : list byte) : list byte :=
  ztake off b ++ src ++ zdrop (off + len src) b.

(** [avbox_httpstream_writecb]: [buffer] is the chunk, [mem] says whether
    [realloc] succeeds.  Returns the number of bytes taken. *)
Definition avbox_httpstream_writecb (file : net) (cb : cbdata) (buffer : list byte) (mem : bool) :
    Z * net * cbdata :=
  let size := len buffer in
  let n := if rem cb >? 0 then Z.min size (rem cb) else 0 in
  let cb := if rem cb >? 0 then Cbdata (out cb ++ ztake n buffer) (rem cb - n) else cb in
  let buffer' := zdrop n buffer in
  let sz := size - n in
  if sz >? 0 then
    let avail_buf := bufsz file - bufcnt file in
    let '(size, sz, b, bsz) :=
      if sz >? avail_buf then
        let needed_buf := sz - avail_buf in
        if mem then (size, sz, buf file ++ replicate (Z.to_nat needed_buf) 0, bufsz file + needed_buf)
        else (size - (sz - avail_buf), avail_buf, buf file, bufsz file)
      else (size, sz, buf file, bufsz file) in
    (size,
     Net (handle file) (connected file) (result file)
       (splice b (bufcnt file) (ztake sz buffer')) (ptr file) bsz (bufcnt file + sz)
       (delivered file ++ ztake size buffer),
     cb)
  else
    (size,
     Net (handle file) (connected file) (result file) (buf file) (ptr file) (bufsz file)
       (bufcnt file) (delivered file ++ buffer),
     cb).

(** One [curl_multi_perform]: the chunks it passed to the callback with
    the answers of [realloc], whether the transfer still runs, and the
    results [curl_multi_info_read] reports when it does not. *)
Record perform := Perform {
  chunks : list (list byte * bool);
  still_running : bool;
  messages : list Z;
}.

Fixpoint write_chunks (cs : list (list byte * bool)) (file : net) (cb : cbdata) : net * cbdata :=
  match cs with
  | [] => (file, cb)
  | (c, mem) :: cs =>
      let '(_, file, cb) := avbox_httpstream_writecb file cb c mem in
      write_chunks cs file cb
  end.

Definition set_result (file : net) (r : Z) : net :=
  Net (handle file) (connected file) r (buf file) (ptr file) (bufsz file) (bufcnt file) (delivered file).
Definition set_connected (file : net) (c : bool) : net :=
  Net (handle file) c (result file) (buf file) (ptr file) (bufsz file) (bufcnt file) (delivered file).
Definition set_ptr (file : net) (p : Z) : net :=
  Net (handle file) (connected file) (result file) (buf file) p (bufsz file) (bufcnt file) (delivered file).
Definition drop_handle (file : net) : net :=
  Net false (connected file) (result file) (buf file) (ptr file) (bufsz file) (bufcnt file) (delivered file).

(** What one turn of the transfer loop meets. *)
Inductive turn :=
  | FdsetFails
  | SelectFails
  | Performs (p : perform).

(** The [do ... while] loop; a list of turns that ends too early is [None].
    [running] is the local [still_running]. *)
Fixpoint fill_loop (turns : list turn) (running : bool) (file : net) (cb : cbdata) :
    option (option Z * net * cbdata) :=
  match turns with
  | [] => None
  | FdsetFails :: _ => Some (None, file, cb)
  | t :: turns =>
      let '(running, file, cb) :=
        match t with
        | Performs p =>
            let '(file, cb) := write_chunks (chunks p) file cb in
            let file := if still_running p then file
                        else match last (messages p) with Some r => set_result file r | None => file end in
            (still_running p, file, cb)
        | _ => (running, file, cb)
        end in
      if running && (rem cb >? 0) then fill_loop turns running file cb
      else Some (if avail cb =? 0 then None else Some (avail cb), file, cb)
  end.

(** [avbox_httpstream_fillbuf] for [size] bytes.  [connect] is the perform
    that establishes a connection when there is none.  The result is the
    byte count or [None] for -1. *)
Definition avbox_httpstream_fillbuf (file : net) (size : Z) (connect : perform) (turns : list turn) :
    option (option Z * net * cbdata) :=
  let cb := Cbdata [] size in
  let '(file, cb) :=
    if negb (bufcnt file =? 0) && negb (rem cb =? 0) then
      let n := Z.min (bufcnt file) (rem cb) in
      (Net (handle file) (connected file) (result file) (buf file) (ptr file + n) (bufsz file)
         (bufcnt file - n) (delivered file),
       Cbdata (out cb ++ ztake n (zdrop (ptr file) (buf file))) (rem cb - n))
    else (file, cb) in
  if negb (avail cb =? 0) && (rem cb =? 0) then Some (Some (avail cb), file, cb) else
  let file := set_ptr file 0 in
  if negb (connected file) then
    let '(file, cb) := write_chunks (chunks connect) file cb in
    let file := set_connected file (still_running connect) in
    if negb (still_running connect) then
      if avail cb =? 0 then
        Some (None, set_result (drop_handle file) CURLE_COULDNT_CONNECT, cb)
      else Some (Some (avail cb), file, cb)
    else if rem cb =? 0 then Some (Some (avail cb), file, cb)
    else fill_loop turns true file cb
  else fill_loop turns false file cb.

(** The data kept for later requests. *)
Definition leftover (file : net) : list byte := ztake (bufcnt file) (zdrop (ptr file) (buf file)).

Definition net_ok (file : net) : Prop :=
  bufsz file = len (buf file) /\ 0 <= ptr file /\ 0 <= bufcnt file /\
  ptr file + bufcnt file <= bufsz file.

(** ** Lemmas *)

(** The state of a request in progress: everything accepted since the
    start is, in order, what the request got and what is kept; data is
    kept only once the request is full. *)
Definition progress (D L : list byte) (size : Z) (file : net) (cb : cbdata) : Prop :=
  net_ok file /\ ptr file = 0 /\ 0 <= rem cb /\ avail cb + rem cb = size /\
  (rem cb > 0 -> bufcnt file = 0) /\
  exists data, delivered file = D ++ data /\ out cb ++ leftover file = L ++ data.

Lemma leftover_empty file : bufcnt file = 0 -> leftover file = [].
Proof. intros H. unfold leftover. rewrite H. done. Qed.

Lemma splice_take b off src n :
  n = off + len src -> 0 <= off <= len b ->
  ztake n (splice b off src) = ztake off b ++ src.
Proof.
  intros -> Ho. unfold splice, ztake, zdrop, len in *.
  rewrite app_assoc, take_app_length'; [done|].
  rewrite length_app, length_take. lia.
Qed.

Lemma len_splice b off src : 0 <= off -> off + len src <= len b -> len (splice b off src) = len b.
Proof.
  intros Ho Hl. unfold splice, ztake, zdrop, len in *.
  rewrite !length_app, length_take, length_drop. lia.
Qed.

(** The callback stores the tail of a chunk after what it keeps already. *)
Lemma keep_tail file b bsz src :
  net_ok file -> ptr file = 0 -> bsz = len b -> ztake (bufcnt file) b = ztake (bufcnt file) (buf file) ->
  bufcnt file + len src <= bsz ->
  ztake (bufcnt file + len src) (splice b (bufcnt file) src) = leftover file ++ src /\
  len (splice b (bufcnt file) src) = bsz.
Proof.
  intros (Hsz & Hp & Hc & Hl) Hp0 -> Hb Hfit. pose proof (len_nonneg src). split.
  - rewrite (splice_take b (bufcnt file) src) by lia. unfold leftover. rewrite Hp0, Hb. done.
  - apply len_splice; lia.
Qed.

Lemma writecb_progress D L size file cb buffer mem n file' cb' :
  progress D L size file cb ->
  avbox_httpstream_writecb file cb buffer mem = (n, file', cb') ->
  progress D L size file' cb'.
Proof.
  intros (Hok & Hp & Hr & Ha & Hk & data & HD & HL) E. pose proof Hok as (Hsz & _ & Hc & Hlim).
  pose proof (len_nonneg buffer) as Hb.
  unfold avbox_httpstream_writecb in E.
  set (k := if rem cb >? 0 then Z.min (len buffer) (rem cb) else 0) in *.
  set (cb1 := if rem cb >? 0 then Cbdata (out cb ++ ztake k buffer) (rem cb - k) else cb) in *.
  assert (0 <= k <= len buffer) as Hkb by (subst k; destruct (rem cb >? 0); lia).
  assert (out cb1 = out cb ++ ztake k buffer /\ rem cb1 = rem cb - k) as [Eo Er].
  { subst cb1 k. destruct (rem cb >? 0); [done|]. unfold ztake. cbn. rewrite app_nil_r. split; [done|lia]. }
  assert (0 <= rem cb1 /\ avail cb1 + rem cb1 = size) as [Hr1 Ha1].
  { unfold avail in *. rewrite Eo, Er, len_app, len_ztake by done.
    subst k. destruct (rem cb >? 0) eqn:Hg; lia. }
  destruct (len buffer - k >? 0) eqn:Hrest; cycle 1.
  - simplify_eq. assert (k = len buffer) as Ek by lia. split_and!; try done.
    + intros Hr'. cbn. apply Hk. lia.
    + exists (data ++ buffer). cbn. rewrite HD, <- app_assoc. split; [done|].
      rewrite Eo, Ek, ztake_all by lia.
      destruct (decide (rem cb > 0)) as [Hpos|Hz].
      * change (leftover (Net _ _ _ (buf file) (ptr file) (bufsz file) (bufcnt file) _)) with (leftover file).
        rewrite leftover_empty in * by auto. rewrite app_nil_r in *. by rewrite HL, <- app_assoc.
      * assert (len buffer = 0) by (subst k; destruct (rem cb >? 0) eqn:Hg; lia).
        destruct buffer as [|? ?]; [|unfold len in *; simpl in *; lia].
        rewrite !app_nil_r. exact HL.
  - assert (rem cb1 = 0) as Er0.
    { rewrite Er. subst k. destruct (rem cb >? 0) eqn:Hg; lia. }
    set (rest := zdrop k buffer) in *.
    assert (len rest = len buffer - k) as Hlr by (subst rest; rewrite len_zdrop; lia).
    assert (forall m, leftover file ++ ztake m rest = [] ++ leftover file ++ ztake m rest) as _ by done.
    assert (forall sz b bsz, 0 <= sz <= len buffer - k -> bsz = len b ->
       ztake (bufcnt file) b = ztake (bufcnt file) (buf file) -> bufcnt file + sz <= bsz ->
       progress D L size
         (Net (handle file) (connected file) (result file) (splice b (bufcnt file) (ztake sz rest))
            (ptr file) bsz (bufcnt file + sz) (delivered file ++ ztake (k + sz) buffer)) cb1) as Hkeep.
    { intros sz b bsz Hszr Hbsz Hbt Hfit.
      destruct (keep_tail file b bsz (ztake sz rest)) as [Et El];
        [done..|rewrite len_ztake; lia|]. rewrite len_ztake in Et by lia.
      split_and!; try done; [repeat split; cbn; lia|lia|].
      exists (data ++ ztake (k + sz) buffer). cbn. rewrite HD, <- app_assoc. split; [done|].
      unfold leftover at 1. cbn [bufcnt ptr buf]. rewrite Hp. change (zdrop 0 ?x) with x. rewrite Et, Eo.
      assert (ztake (k + sz) buffer = ztake k buffer ++ ztake sz rest) as ->.
      { subst rest. unfold ztake, zdrop. rewrite Z2Nat.inj_add, take_take_drop by lia. done. }
      destruct (decide (rem cb > 0)) as [Hpos|Hz].
      - rewrite leftover_empty in * by auto. rewrite app_nil_r in HL. cbn [app].
        by rewrite HL, <- !app_assoc.
      - assert (k = 0) as Hk0 by (subst k; destruct (rem cb >? 0) eqn:Hg; lia).
        rewrite Hk0. change (ztake 0 buffer) with (@nil byte). rewrite app_nil_r. cbn [app].
        rewrite !app_assoc. by rewrite HL. }
    assert (ztake (k + (len buffer - k)) buffer = ztake (len buffer) buffer) as Hfull by (f_equal; lia).
    destruct (len buffer - k >? bufsz file - bufcnt file) eqn:Hgrow; [destruct mem|]; simplify_eq.
    + rewrite <- Hfull. apply Hkeep; [lia| | |lia].
      * rewrite len_app. unfold len at 3. rewrite length_replicate. lia.
      * unfold ztake. rewrite take_app_le; [done|]. unfold len in *. lia.
    + replace (len buffer - (len buffer - k - (bufsz file - bufcnt file)))
        with (k + (bufsz file - bufcnt file)) by lia.
      apply Hkeep; [lia|done|done|lia].
    + rewrite <- Hfull. apply Hkeep; [lia|done|done|lia].
Qed.

Lemma write_chunks_progress D L size cs file cb file' cb' :
  progress D L size file cb -> write_chunks cs file cb = (file', cb') -> progress D L size file' cb'.
Proof.
  revert file cb. induction cs as [|[c mem] cs IH]; intros file cb Hp E; cbn in E; [by simplify_eq|].
  destruct (avbox_httpstream_writecb file cb c mem) as [[n f1] cb1] eqn:Ew.
  eauto using writecb_progress.
Qed.

Lemma progress_same D L size file cb r c h :
  progress D L size file cb ->
  progress D L size (Net h c r (buf file) (ptr file) (bufsz file) (bufcnt file) (delivered file)) cb.
Proof. done. Qed.

Lemma fill_loop_progress D L size turns running file cb r file' cb' :
  progress D L size file cb -> fill_loop turns running file cb = Some (r, file', cb') ->
  progress D L size file' cb'.
Proof.
  revert running file cb. induction turns as [|t turns IH]; intros running file cb Hp E; [done|].
  cbn in E. destruct t as [| |p].
  - by simplify_eq.
  - destruct (running && (rem cb >? 0)); [eauto|by simplify_eq].
  - destruct (write_chunks (chunks p) file cb) as [f1 cb1] eqn:Ew.
    eapply write_chunks_progress in Ew; [|exact Hp].
    set (f2 := if still_running p then f1 else _) in E.
    assert (progress D L size f2 cb1) by (subst f2; destruct (still_running p), (last (messages p)); done).
    destruct (still_running p && (rem cb1 >? 0)); [eauto|by simplify_eq].
Qed.

(** The first step of [fillbuf]: kept data is used before the network. *)
Lemma take_leftover_progress size file :
  net_ok file -> 0 <= size ->
  let n := Z.min (bufcnt file) size in
  let got := ztake n (zdrop (ptr file) (buf file)) in
  out (Cbdata got (size - n)) ++
    leftover (Net (handle file) (connected file) (result file) (buf file) (ptr file + n) (bufsz file)
      (bufcnt file - n) (delivered file)) = leftover file /\ len got = n.
Proof.
  intros (Hsz & Hp & Hc & Hl) Hs n got. assert (0 <= n <= bufcnt file) as Hn by lia. split.
  - unfold leftover. cbn. subst got. unfold ztake, zdrop, len in *.
    rewrite Z2Nat.inj_add, <- drop_drop by lia.
    replace (Z.to_nat (bufcnt file)) with (Z.to_nat n + Z.to_nat (bufcnt file - n))%nat by lia.
    by rewrite take_take_drop.
  - subst got. rewrite len_ztake; [done|]. rewrite len_zdrop by lia. lia.
Qed.

(** What a successful or failed request means. *)
Lemma fill_loop_result turns running file cb r file' cb' :
  fill_loop turns running file cb = Some (r, file', cb') ->
  (forall n, r = Some n -> n = avail cb') /\
  (r = None -> FdsetFails ∉ turns -> avail cb' = 0).
Proof.
  revert running file cb. induction turns as [|t turns IH]; intros running file cb E; [done|].
  cbn in E. destruct t as [| |p].
  - simplify_eq. split; [done|]. set_solver.
  - destruct (running && _).
    + destruct (IH _ _ _ E) as [H1 H2]. split; [done|]. set_solver.
    + simplify_eq. destruct (avail cb' =? 0) eqn:Ha; naive_solver blia.
  - destruct (write_chunks (chunks p) file cb) as [f1 cb1].
    destruct (still_running p && _).
    + destruct (IH _ _ _ E) as [H1 H2]. split; [done|]. set_solver.
    + simplify_eq. destruct (avail cb' =? 0) eqn:Ha; naive_solver blia.
Qed.

(** The network half of [fillbuf], once the kept data is used up. *)
Definition fill_network (file : net) (cb : cbdata) (connect : perform) (turns : list turn) :
    option (option Z * net * cbdata) :=
  if negb (connected file) then
    let '(file, cb) := write_chunks (chunks connect) file cb in
    let file := set_connected file (still_running connect) in
    if negb (still_running connect) then
      if avail cb =? 0 then
        Some (None, set_result (drop_handle file) CURLE_COULDNT_CONNECT, cb)
      else Some (Some (avail cb), file, cb)
    else if rem cb =? 0 then Some (Some (avail cb), file, cb)
    else fill_loop turns true file cb
  else fill_loop turns false file cb.

Lemma fill_network_progress D L size file cb connect turns r file' cb' :
  progress D L size file cb -> fill_network file cb connect turns = Some (r, file', cb') ->
  progress D L size file' cb' /\
  (forall n, r = Some n -> n = avail cb') /\ (r = None -> FdsetFails ∉ turns -> avail cb' = 0).
Proof.
  intros Hp E. unfold fill_network in E. destruct (connected file); cbn [negb] in E.
  { split; [by eapply fill_loop_progress|by eapply fill_loop_result]. }
  destruct (write_chunks (chunks connect) file cb) as [f1 cb1] eqn:Ew.
  eapply write_chunks_progress in Ew; [|exact Hp].
  destruct (still_running connect); cbn [negb] in E.
  - destruct (rem cb1 =? 0).
    + simplify_eq. split; [done|]. naive_solver.
    + split; [eapply fill_loop_progress; [|exact E]; done|by eapply fill_loop_result].
  - destruct (avail cb1 =? 0) eqn:Ha; simplify_eq; (split; [done|]); naive_solver blia.
Qed.

Lemma progress_spec D L size file cb :
  progress D L size file cb ->
  net_ok file /\ len (out cb) <= size /\
  exists data, delivered file = D ++ data /\ out cb ++ leftover file = L ++ data.
Proof. intros (Hok & _ & Hr & Ha & _ & Hd). unfold avail in Ha. split_and!; [done|lia|done]. Qed.

(** One request: see [fillbuf_preserves_stream]. *)
Lemma fillbuf_stream file size connect turns r file' cb' :
  net_ok file -> 0 < size ->
  avbox_httpstream_fillbuf file size connect turns = Some (r, file', cb') ->
  net_ok file' /\ len (out cb') <= size /\
  (exists data, delivered file' = delivered file ++ data /\
     out cb' ++ leftover file' = leftover file ++ data) /\
  (forall n, r = Some n -> n = len (out cb')) /\
  (r = None -> FdsetFails ∉ turns -> out cb' = []).
Proof.
  intros Hok Hs E. pose proof Hok as (Hsz & Hp & Hc & Hl). unfold avbox_httpstream_fillbuf in E.
  cbn [rem out app] in E.
  assert ((size =? 0) = false) as Hs0 by lia. rewrite Hs0, andb_true_r in E.
  assert (exists file1 cb1, net_ok file1 /\ 0 <= rem cb1 /\ avail cb1 + rem cb1 = size /\
    (rem cb1 > 0 -> bufcnt file1 = 0) /\ delivered file1 = delivered file /\
    out cb1 ++ leftover file1 = leftover file /\
    (if negb (avail cb1 =? 0) && (rem cb1 =? 0) then Some (Some (avail cb1), file1, cb1)
     else fill_network (set_ptr file1 0) cb1 connect turns) = Some (r, file', cb'))
    as (f1 & cb1 & Hok1 & Hr1 & Ha1 & Hk1 & Hd1 & Ho1 & E1).
  { destruct (take_leftover_progress size file Hok) as [Ht Hlen]; [lia|].
    destruct (bufcnt file =? 0) eqn:Hb; cbn [negb] in E.
    - exists file, (Cbdata [] size). split_and!; try done; unfold avail, len; cbn; lia.
    - exists (Net (handle file) (connected file) (result file) (buf file)
        (ptr file + Z.min (bufcnt file) size) (bufsz file) (bufcnt file - Z.min (bufcnt file) size)
        (delivered file)),
        (Cbdata (ztake (Z.min (bufcnt file) size) (zdrop (ptr file) (buf file)))
          (size - Z.min (bufcnt file) size)).
      split_and!; try done; unfold avail; cbn in *; try lia. repeat split; cbn; lia. }
  destruct (negb (avail cb1 =? 0) && (rem cb1 =? 0)) eqn:Hdone.
  - simplify_eq. split_and!; [done|unfold avail; lia| |naive_solver|done].
    exists []. by rewrite !app_nil_r.
  - assert (progress (delivered file) (leftover file) size (set_ptr f1 0) cb1) as Hpr.
    { assert (rem cb1 > 0) by (unfold avail in *; pose proof (len_nonneg (out cb1)); blia).
      destruct Hok1 as (? & ? & ? & ?). split_and!; try done; [repeat split; cbn; lia|].
      exists []. rewrite !app_nil_r. split; [done|]. rewrite <- Ho1, !leftover_empty by auto. done. }
    apply fill_network_progress with (1 := Hpr) in E1 as (Hpr' & Hn & Hz).
    apply progress_spec in Hpr' as (? & ? & ?). split_and!; try done.
    intros Hr Hf. specialize (Hz Hr Hf). unfold avail, len in Hz. by destruct (out cb').
Qed.

(** No byte is lost, duplicated or reordered by the transfer layer:
    whatever libcurl delivers in whatever chunks, and whether or not the
    buffer can grow, what a request returns followed by what is kept is what
    was kept before followed by what was accepted; a request never gets more
    than it asked for, and reports how much it got. *)
Lemma fillbuf_preserves_stream file size connect turns r file' cb' :
  net_ok file -> 0 < size ->
  avbox_httpstream_fillbuf file size connect turns = Some (r, file', cb') ->
  net_ok file' /\ len (out cb') <= size /\
  (exists data, delivered file' = delivered file ++ data /\
     out cb' ++ leftover file' = leftover file ++ data) /\
  (forall n, r = Some n -> n = len (out cb')) /\
  (r = None -> FdsetFails ∉ turns -> out cb' = []).
Proof. apply fillbuf_stream. Qed.

(** A stream with two kept bytes asked for five: the kept bytes, then a
    chunk of four of which one is kept. *)
Lemma fillbuf_preserves_stream_witness :
  len (out (Cbdata [1; 2; 3; 4; 5] 0)) <= 5 /\
  leftover (Net true true 0 [6; 1; 2] 0 3 1 [1; 2; 3; 4; 5; 6]) = [6].
Proof.
  split; [|reflexivity].
  eapply (fillbuf_preserves_stream (Net true true 0 [0; 1; 2] 1 3 2 [1; 2]) 5 (Perform [] true [])
    [Performs (Perform [([3], true)] true []); SelectFails; Performs (Perform [([4; 5; 6], true)] true [])] (Some 5)
    (Net true true 0 [6; 1; 2] 0 3 1 [1; 2; 3; 4; 5; 6])).
  - repeat split; cbn; vm_compute; congruence.
  - lia.
  - vm_compute. reflexivity.
Defined.

End Net.

(** ** The read-ahead ring, its worker and its reader *)
Module Ring.

(** [ra_buf] is address 0; the usable part ends at [ra_bufend]. *)
Record ring := MkRing {
  mem : Z -> byte;
  ra_ptr : Z;
  ra_bufend : Z;
  ra_avail : Z;
  ra_growbuf : bool;
}.

Record ctl := MkCtl {
  ra_wants : Z;
  ra_seekto : Z;
  ra_offset : Z;
  ra_running : bool;
  ra_reads : Z;
  ra_abort : bool;
  offset : Z;
  eof : bool;
  retries : Z;
}.

(** Where the worker thread is between two accesses to shared fields. *)
Inductive wphase :=
  | WNone                  (* no thread *)
  | WLoop                  (* at the head of its loop *)
  | WChunk (chunksz : Z)   (* chunk size computed *)
  | WFilled (n : Z)        (* [n] bytes stored at [ptr] *)
  | WAdvanced (n : Z)      (* [ptr] and [ra_offset] moved, not yet published *)
  | WExit.                 (* at THREAD_EXIT *)

(** Where the caller of [read]/[seek] is. *)
Inductive rphase :=
  | RIdle
  | RLoop (size : Z) (got : list byte)            (* at the head of the loop *)
  | RCopied (size : Z) (got : list byte) (c : Z)  (* [c] bytes copied *)
  | RMoved (size : Z) (got : list byte) (c : Z)   (* [ra_ptr] moved past them *)
  | RSeek.                                        (* waits for the worker *)

(** A stream; [ptr] is the worker's local.  [pos] and [log] are ghosts: the
    position an application expects, and every read that returned data,
    with the position it was issued at. *)
Record stream := MkStream {
  fnet : Net.net;
  mapped : bool;           (* ra_buf != NULL *)
  rg : ring;
  ct : ctl;
  ptr : Z;
  worker : wphase;
  reader : rphase;
  pos : Z;
  log : list (Z * list byte);
}.

Definition load (m : Z -> byte) (p n : Z) : list byte := m <$> seqZ p n.

Definition store (m : Z -> byte) (p : Z) (bs : list byte) : Z -> byte :=
  fun a => if (p <=? a) && (a <? p + len bs) then nth (Z.to_nat (a - p)) bs 0 else m a.

Definition with_worker (s : stream) (w : wphase) : stream :=
  MkStream (fnet s) (mapped s) (rg s) (ct s) (ptr s) w (reader s) (pos s) (log s).
Definition with_reader (s : stream) (r : rphase) : stream :=
  MkStream (fnet s) (mapped s) (rg s) (ct s) (ptr s) (worker s) r (pos s) (log s).
Definition with_ring (s : stream) (g : ring) : stream :=
  MkStream (fnet s) (mapped s) g (ct s) (ptr s) (worker s) (reader s) (pos s) (log s).
Definition with_ctl (s : stream) (c : ctl) : stream :=
  MkStream (fnet s) (mapped s) (rg s) c (ptr s) (worker s) (reader s) (pos s) (log s).
Definition with_net (s : stream) (f : Net.net) : stream :=
  MkStream f (mapped s) (rg s) (ct s) (ptr s) (worker s) (reader s) (pos s) (log s).

(** A freshly opened stream. *)
Definition fresh : stream :=
  MkStream (Net.Net true false 0 [] 0 0 0 []) false
    (MkRing (fun _ => 0) 0 0 0 false) (MkCtl 0 (-1) 0 false 0 false 0 false 0) 0 WNone RIdle 0 [].

(** [READAHEAD_INIT] *)
Definition READAHEAD_INIT (s : stream) : stream :=
  let c := ct s in
  MkStream (fnet s) (mapped s) (MkRing (mem (rg s)) 0 (ra_bufend (rg s)) 0 false)
    (MkCtl (ra_wants c) (-1) (ra_offset c) true 0 false (offset c) (eof c) (retries c))
    0 WLoop (reader s) (pos s) (log s).

Definition avbox_httpstream_doseek (s : stream) (off : Z) : stream :=
  let f := fnet s in let c := ct s in
  with_ctl (with_net s (Net.Net (Net.handle f) false (Net.result f) (Net.buf f) 0 (Net.bufsz f) 0 (Net.delivered f)))
    (MkCtl (ra_wants c) (ra_seekto c) off (ra_running c) (ra_reads c) (ra_abort c) off false (retries c)).

(** The worker's first lines, up to READAHEAD_START; [mm] says whether
    [mmap] succeeds. *)
Definition worker_start (s : stream) (mm : bool) : stream :=
  if mapped s then READAHEAD_INIT s
  else if mm then
    let g := rg s in
    READAHEAD_INIT
      (MkStream (Net.set_result (fnet s) CURLE_OK) true
         (MkRing (mem g) (ra_ptr g) READAHEAD_BUFSZ_START (ra_avail g) (ra_growbuf g))
         (ct s) (ptr s) (worker s) (reader s) (pos s) (log s))
  else with_worker s WExit.

(** The worker's CALC_CHUNKSZ. *)
Definition worker_chunksz (s : stream) : Z :=
  let chunksz := ra_bufend (rg s) - ra_avail (rg s) in
  let chunksz := Z.min (ra_bufend (rg s) - ptr s) chunksz in
  let chunksz := Z.min READAHEAD_CHUNK_SIZE chunksz in
  if ra_reads (ct s) <? READAHEAD_TRESHOLD then Z.min (ra_wants (ct s)) chunksz else chunksz.

(** The loop test and the chunk size; a worker with nothing to do waits. *)
Definition worker_calc (s : stream) : stream :=
  if ra_abort (ct s) then with_worker s WExit
  else let chunksz := worker_chunksz s in
       if chunksz =? 0 then s else with_worker s (WChunk chunksz).

Definition set_retries (c : ctl) (n : Z) : ctl :=
  MkCtl (ra_wants c) (ra_seekto c) (ra_offset c) (ra_running c) (ra_reads c) (ra_abort c)
    (offset c) (eof c) n.

(** The call to [fillbuf] and its error handling. *)
Definition worker_fill (s : stream) (chunksz : Z) (connect : Net.perform) (turns : list Net.turn) :
    option stream :=
  match Net.avbox_httpstream_fillbuf (fnet s) chunksz connect turns with
  | None => None
  | Some (r, f, cb) =>
      let g := rg s in
      let g := MkRing (store (mem g) (ptr s) (Net.out cb)) (ra_ptr g) (ra_bufend g) (ra_avail g) (ra_growbuf g) in
      let s := with_ring (with_net s f) g in
      match r with
      | Some n => Some (with_worker s (if n =? 0 then WLoop else WFilled n))
      | None =>
          if Net.result f =? CURLE_OK then Some (with_worker s WExit)
          else
            let again := retries (ct s) <=? RETRIES_MAX in
            Some (with_worker
                    (with_ctl (with_net s (Net.set_connected f false))
                       (set_retries (ct s) (retries (ct s) + 1)))
                    (if again then WLoop else WExit))
      end
  end.

(** Moving the worker's pointer, with the growth of the buffer. *)
Definition worker_advance (s : stream) (n : Z) : stream :=
  let g := rg s in let c := ct s in
  let p := ptr s + n in
  let '(p, bufend, grow) :=
    if p =? ra_bufend g then
      if (ra_bufend g <? READAHEAD_BUFSZ_MAX) && ra_growbuf g
      then (p, ra_bufend g + READAHEAD_BUFSZ_STEP, false)
      else (0, ra_bufend g, ra_growbuf g)
    else (p, ra_bufend g, ra_growbuf g) in
  MkStream (fnet s) (mapped s) (MkRing (mem g) (ra_ptr g) bufend (ra_avail g) grow)
    (MkCtl (ra_wants c) (ra_seekto c) (ra_offset c + n) (ra_running c) (ra_reads c) (ra_abort c)
       (offset c) (eof c) 0)
    p (WAdvanced n) (reader s) (pos s) (log s).

Definition worker_publish (s : stream) (n : Z) : stream :=
  let g := rg s in
  with_worker
    (with_ring s (MkRing (mem g) (ra_ptr g) (ra_bufend g) (ra_avail g + n) (ra_growbuf g))) WLoop.

(** The in-buffer seek at THREAD_EXIT. *)
Definition seek_inbuffer (s : stream) : stream :=
  let g := rg s in let c := ct s in
  let skip := ra_seekto c - offset c in
  let p := ra_ptr g + skip in
  let p := if p >=? ra_bufend g then p - ra_bufend g else p in
  MkStream (fnet s) (mapped s) (MkRing (mem g) p (ra_bufend g) (ra_avail g - skip) (ra_growbuf g))
    (MkCtl (ra_wants c) (-1) (ra_offset c) (ra_running c) (ra_reads c) false (ra_seekto c)
       (eof c) (retries c))
    (ptr s) WLoop (reader s) (pos s) (log s).

(** The short seek: the bytes up to the target are read and dropped. *)
Definition seek_short (s : stream) (connect : Net.perform) (turns : list Net.turn) : option stream :=
  let g := rg s in let c := ct s in
  let skip := ra_seekto c - ra_offset c in
  match Net.avbox_httpstream_fillbuf (fnet s) skip connect turns with
  | None => None
  | Some (r, f, _) =>
      let n := match r with Some n => n | None => 0 end in
      Some (MkStream f (mapped s) (MkRing (mem g) 0 (ra_bufend g) 0 (ra_growbuf g))
              (MkCtl (ra_wants c) (-1) (ra_offset c + n) (ra_running c) (ra_reads c) false
                 (ra_seekto c) (eof c) (retries c))
              0 (match r with Some _ => WLoop | None => WExit end) (reader s) (pos s) (log s))
  end.

(** THREAD_EXIT: serve a pending seek or end the thread. *)
Definition worker_exit (s : stream) (connect : Net.perform) (turns : list Net.turn) : option stream :=
  let c := ct s in
  if negb (ra_seekto c =? -1) then
    if (ra_seekto c >? offset c) && (ra_seekto c <=? ra_offset c) then Some (seek_inbuffer s)
    else if (ra_seekto c >? offset c) && (ra_seekto c - ra_offset c <? READAHEAD_FSEEK_MAX)
    then seek_short s connect turns
    else Some (READAHEAD_INIT (avbox_httpstream_doseek s (ra_seekto c)))
  else
    Some (with_worker
            (with_ctl s (MkCtl (ra_wants c) (-1) (ra_offset c) false 0 false (offset c) (eof c) (retries c)))
            WNone).

(** [avbox_httpstream_seek]: hand the request to a running worker (and
    wait in [RSeek]) or seek directly. *)
Definition avbox_httpstream_seek (s : stream) (off : Z) : stream :=
  let c := ct s in
  let s' :=
    if ra_running c then
      with_reader (with_ctl s (MkCtl (ra_wants c) off (ra_offset c) true (ra_reads c) true
                                 (offset c) (eof c) (retries c))) RSeek
    else avbox_httpstream_doseek s off in
  MkStream (fnet s') (mapped s') (rg s') (ct s') (ptr s') (worker s') (reader s') off (log s').

(** [avbox_httpstream_read] up to its loop.  [create] is the answer of
    [pthread_create], [mm] that of [mmap] in the new thread. *)
Definition read_begin (s : stream) (size : Z) (create mm : bool) : stream :=
  let c := ct s in
  if size =? 0 then s
  else
    let size := if size >? SIZE_MAX / 2 then SIZE_MAX / 2 else size in
    let s := with_ctl s (MkCtl size (ra_seekto c) (ra_offset c) (ra_running c) (ra_reads c) (ra_abort c)
                           (offset c) (eof c) (retries c)) in
    if negb (ra_running c) && (ra_avail (rg s) =? 0) then
      if create then with_reader (worker_start s mm) (RLoop size []) else s
    else with_reader s (RLoop size []).

(** The reader's CALC_CHUNKSZ. *)
Definition read_chunksz (s : stream) (size : Z) (got : list byte) : Z :=
  let chunksz := Z.min (size - len got) (ra_avail (rg s)) in
  Z.min (ra_bufend (rg s) - ra_ptr (rg s)) chunksz.

(** The end of a read: the position moves past what was copied. *)
Definition read_return (s : stream) (got : list byte) (full : bool) : stream :=
  let c := ct s in
  MkStream (fnet s) (mapped s) (rg s)
    (MkCtl (ra_wants c) (ra_seekto c) (ra_offset c) (ra_running c)
       (if full then u32 (ra_reads c + 1) else ra_reads c)%avbox (ra_abort c)
       (offset c + len got) (eof c) (retries c))
    (ptr s) (worker s) RIdle (pos s + len got) (log s ++ [(pos s, got)]).

(** One turn of the loop of [avbox_httpstream_read] up to the [memcpy]. *)
Definition read_turn (s : stream) (size : Z) (got : list byte) : stream :=
  let g := rg s in let c := ct s in
  if len got <? size then
    let chunksz := read_chunksz s size got in
    if chunksz =? 0 then
      if negb (ra_running c) then
        if len got =? 0 then
          if (Net.result (fnet s) =? CURLE_OK) && negb (eof c) then
            with_reader
              (with_ctl s (MkCtl (ra_wants c) (ra_seekto c) (ra_offset c) (ra_running c) (ra_reads c)
                             (ra_abort c) (offset c) true (retries c))) RIdle
          else with_reader s RIdle
        else read_return s got false
      else if ra_reads c >? READAHEAD_TRESHOLD then
        with_ring s (MkRing (mem g) (ra_ptr g) (ra_bufend g) (ra_avail g) true)
      else s
    else with_reader s (RCopied size (got ++ load (mem g) (ra_ptr g) chunksz) chunksz)
  else read_return s got true.

(** Moving [ra_ptr], then the locked update of the counts. *)
Definition read_move (s : stream) (size : Z) (got : list byte) (c : Z) : stream :=
  let g := rg s in
  let p := ra_ptr g + c in
  let p := if p =? ra_bufend g then 0 else p in
  with_reader (with_ring s (MkRing (mem g) p (ra_bufend g) (ra_avail g) (ra_growbuf g))) (RMoved size got c).

Definition read_release (s : stream) (size : Z) (got : list byte) (n : Z) : stream :=
  let g := rg s in let c := ct s in
  with_reader
    (with_ctl (with_ring s (MkRing (mem g) (ra_ptr g) (ra_bufend g) (ra_avail g - n) (ra_growbuf g)))
       (MkCtl (ra_wants c - n) (ra_seekto c) (ra_offset c) (ra_running c) (ra_reads c) (ra_abort c)
          (offset c) (eof c) (retries c)))
    (RLoop size got).

(** ** Interleaving *)

Definition slice (content : Z -> byte) (a n : Z) : list byte := content <$> seqZ a n.

(** What the server sends: a connected transfer continues where it was, a
    new one resumes at [ra_offset], and a transfer that ended while bytes of
    it are still kept sends nothing more. *)
Definition served (content : Z -> byte) (s : stream) (f' : Net.net) : Prop :=
  exists data, Net.delivered f' = Net.delivered (fnet s) ++ data /\
    if Net.connected (fnet s)
    then data = slice content (ra_offset (ct s) + Net.bufcnt (fnet s)) (len data)
    else data = slice content (ra_offset (ct s)) (len data) /\ (Net.bufcnt (fnet s) <> 0 -> data = []).

(** The steps of the worker and of one application thread, in any order, a
    call to the network serving the content.  What can go wrong is apart, in
    [fault]. *)
Inductive step (content : Z -> byte) : stream -> stream -> Prop :=
  | StepCalc s : worker s = WLoop -> step content s (worker_calc s)
  | StepFill s c connect turns r f cb s' :
      worker s = WChunk c -> Net.FdsetFails ∉ turns ->
      Net.avbox_httpstream_fillbuf (fnet s) c connect turns = Some (r, f, cb) -> served content s f ->
      worker_fill s c connect turns = Some s' -> step content s s'
  | StepAdvance s n : worker s = WFilled n -> step content s (worker_advance s n)
  | StepPublish s n : worker s = WAdvanced n -> step content s (worker_publish s n)
  | StepExit s connect turns s' :
      worker s = WExit ->
      (forall r f cb,
         Net.avbox_httpstream_fillbuf (fnet s) (ra_seekto (ct s) - ra_offset (ct s)) connect turns =
           Some (r, f, cb) -> served content s f /\ r = Some (ra_seekto (ct s) - ra_offset (ct s))) ->
      worker_exit s connect turns = Some s' -> step content s s'
  | StepRead s size create mm :
      reader s = RIdle -> 0 <= size -> (ra_running (ct s) = false -> worker s = WNone) ->
      step content s (read_begin s size create mm)
  | StepTurn s size got : reader s = RLoop size got -> step content s (read_turn s size got)
  | StepMove s size got c : reader s = RCopied size got c -> step content s (read_move s size got c)
  | StepRelease s size got c : reader s = RMoved size got c -> step content s (read_release s size got c)
  | StepSeek s off :
      reader s = RIdle -> 0 <= off < 2 ^ 63 -> (ra_running (ct s) = false -> ra_avail (rg s) = 0) ->
      step content s (avbox_httpstream_seek s off)
  | StepSought s : reader s = RSeek -> ra_seekto (ct s) = -1 -> step content s (with_reader s RIdle).

(** The steps in which the code loses track of the position:
    [curl_multi_fdset] fails, and [fillbuf] with it, after bytes were stored
    in the ring; a short seek gets fewer bytes than it skips (the source
    asserts that it does not); a seek finds no worker but unread bytes in
    the ring, which it leaves there; a read starts a second worker while one
    that could not map its buffer has not yet ended. *)
Inductive fault (content : Z -> byte) : stream -> stream -> Prop :=
  | FaultFdset s c connect turns r f cb s' :
      worker s = WChunk c -> Net.FdsetFails ∈ turns ->
      Net.avbox_httpstream_fillbuf (fnet s) c connect turns = Some (r, f, cb) -> served content s f ->
      worker_fill s c connect turns = Some s' -> fault content s s'
  | FaultShort s connect turns r f cb s' :
      worker s = WExit ->
      Net.avbox_httpstream_fillbuf (fnet s) (ra_seekto (ct s) - ra_offset (ct s)) connect turns = Some (r, f, cb) ->
      served content s f -> r <> Some (ra_seekto (ct s) - ra_offset (ct s)) ->
      worker_exit s connect turns = Some s' -> fault content s s'
  | FaultStale s off :
      reader s = RIdle -> 0 <= off < 2 ^ 63 -> ra_running (ct s) = false -> ra_avail (rg s) <> 0 ->
      fault content s (avbox_httpstream_seek s off)
  | FaultSecond s size create mm :
      reader s = RIdle -> 0 <= size -> ra_running (ct s) = false -> worker s <> WNone ->
      fault content s (read_begin s size create mm).

(** ** Invariant *)

Definition wrap (cap x : Z) : Z := if x <? cap then x else x - cap.

(** Bytes stored by the worker and not yet counted in [ra_avail], the part
    of them counted in [ra_offset], and the room the worker has reserved. *)
Definition unpub (s : stream) : Z := match worker s with WFilled n | WAdvanced n => n | _ => 0 end.
Definition adv (s : stream) : Z := match worker s with WAdvanced n => n | _ => 0 end.
Definition reserved (s : stream) : Z :=
  match worker s with WChunk n | WFilled n | WAdvanced n => n | _ => 0 end.

(** Bytes of [ra_avail] before [ra_ptr], and bytes copied from before it. *)
Definition moved (s : stream) : Z := match reader s with RMoved _ _ c => c | _ => 0 end.
Definition rgot (s : stream) : Z :=
  match reader s with
  | RLoop _ g | RMoved _ g _ => len g
  | RCopied _ g c => len g - c
  | _ => 0
  end.

Definition readable (s : stream) : Z := ra_avail (rg s) - moved s.
Definition rpos (s : stream) : Z := offset (ct s) + rgot s.

Definition ring_inv (content : Z -> byte) (s : stream) : Prop :=
  let g := rg s in let cap := ra_bufend g in
  0 <= ra_ptr g /\ (ra_ptr g < cap \/ ra_ptr g = cap) /\ 0 <= moved s /\ 0 <= readable s /\
  ra_avail g + reserved s <= cap /\ 0 <= reserved s /\
  ptr s = wrap cap (ra_ptr g + readable s + adv s) /\
  (forall i, 0 <= i < readable s + unpub s -> mem g (wrap cap (ra_ptr g + i)) = content (rpos s + i)).

Definition size_inv (s : stream) : Prop :=
  let cap := ra_bufend (rg s) in
  if mapped s then ra_ptr (rg s) < cap /\
    exists k, 0 <= k <= 5 /\ cap = READAHEAD_BUFSZ_START + k * READAHEAD_BUFSZ_STEP
  else cap = 0 /\ ra_running (ct s) = false.

Definition net_inv (content : Z -> byte) (s : stream) : Prop :=
  Net.net_ok (fnet s) /\
  ra_offset (ct s) = rpos s + readable s + adv s /\
  Net.leftover (fnet s) =
    slice content (ra_offset (ct s) + (unpub s - adv s)) (Net.bufcnt (fnet s)).

Definition worker_inv (s : stream) : Prop :=
  match worker s with
  | WNone => ra_running (ct s) = false
  | WExit => ra_running (ct s) = false -> ra_avail (rg s) = 0 /\ ra_seekto (ct s) = -1
  | WLoop => ra_running (ct s) = true
  | WChunk n | WFilled n => ra_running (ct s) = true /\ 0 < n /\ ptr s + n <= ra_bufend (rg s)
  | WAdvanced n => ra_running (ct s) = true /\ 0 < n
  end /\ 0 <= ra_wants (ct s).

Definition reader_inv (content : Z -> byte) (s : stream) : Prop :=
  match reader s with
  | RIdle => offset (ct s) = pos s /\ ra_seekto (ct s) = -1
  | RSeek => if ra_seekto (ct s) =? -1 then offset (ct s) = pos s
             else ra_seekto (ct s) = pos s /\ 0 <= pos s /\ ra_running (ct s) = true
  | RLoop size got =>
      ra_wants (ct s) = size - len got /\ len got <= size /\
      got = slice content (pos s) (len got) /\ offset (ct s) = pos s /\ ra_seekto (ct s) = -1
  | RCopied size got c =>
      ra_wants (ct s) = size - len got + c /\ len got <= size /\ 0 < c <= ra_avail (rg s) /\
      ra_ptr (rg s) + c <= ra_bufend (rg s) /\
      got = slice content (pos s) (len got) /\ offset (ct s) = pos s /\ ra_seekto (ct s) = -1
  | RMoved size got c =>
      ra_wants (ct s) = size - len got + c /\ len got <= size /\ 0 < c /\
      got = slice content (pos s) (len got) /\ offset (ct s) = pos s /\ ra_seekto (ct s) = -1
  end.

Definition inv (content : Z -> byte) (s : stream) : Prop :=
  ring_inv content s /\ size_inv s /\ net_inv content s /\ worker_inv s /\ reader_inv content s /\
  Forall (fun '(p, got) => got = slice content p (len got)) (log s).

Lemma len_slice content a n : 0 <= n -> len (slice content a n) = n.
Proof. intros. unfold slice, len. rewrite length_fmap, length_seqZ. lia. Qed.

Lemma slice_app content a n m : 0 <= n -> 0 <= m ->
  slice content a (n + m) = slice content a n ++ slice content (a + n) m.
Proof. intros. unfold slice. by rewrite seqZ_app, fmap_app. Qed.

Lemma slice_lookup content a n i : 0 <= i < n -> nth (Z.to_nat i) (slice content a n) 0 = content (a + i).
Proof.
  intros Hi. unfold slice. apply nth_lookup_Some with (d := 0).
  rewrite list_lookup_fmap, lookup_seqZ_lt by lia. cbn. f_equal. f_equal. lia.
Qed.

(** One request at the content level. *)
Lemma fillbuf_content content s c connect turns r f cb :
  Net.net_ok (fnet s) -> 0 < c ->
  Net.leftover (fnet s) = slice content (ra_offset (ct s)) (Net.bufcnt (fnet s)) ->
  Net.avbox_httpstream_fillbuf (fnet s) c connect turns = Some (r, f, cb) -> served content s f ->
  Net.net_ok f /\ len (Net.out cb) <= c /\
  Net.out cb = slice content (ra_offset (ct s)) (len (Net.out cb)) /\
  Net.leftover f = slice content (ra_offset (ct s) + len (Net.out cb)) (Net.bufcnt f) /\
  (forall n, r = Some n -> n = len (Net.out cb)) /\
  (r = None -> Net.FdsetFails ∉ turns -> Net.out cb = []).
Proof.
  intros Hok Hc Hl E (data & Hd & Hs). pose proof Hok as (_ & _ & Hb & _).
  destruct (Net.fillbuf_stream _ _ _ _ _ _ _ Hok Hc E) as (Hok' & Hle & (data' & Hd' & Ho) & Hn & Hz).
  assert (data' = data) as -> by (apply (app_inv_head (Net.delivered (fnet s))); congruence).
  assert (Net.leftover (fnet s) ++ data =
    slice content (ra_offset (ct s)) (Net.bufcnt (fnet s) + len data)) as Hall.
  { rewrite slice_app, Hl by (pose proof (len_nonneg data); lia). f_equal.
    destruct (Net.connected (fnet s)); [done|]. destruct Hs as [Hs Hs0].
    destruct (decide (Net.bufcnt (fnet s) = 0)) as [->|Hnz]; [by rewrite Z.add_0_r|].
    rewrite (Hs0 Hnz). done. }
  rewrite Hall in Ho.
  assert (len (Net.leftover f) = Net.bufcnt f) as Hlf.
  { destruct Hok' as (? & ? & ? & ?). unfold Net.leftover. rewrite len_ztake; [done|].
    rewrite len_zdrop; lia. }
  pose proof (len_nonneg (Net.out cb)). pose proof (len_nonneg (Net.leftover f)).
  assert (Net.bufcnt (fnet s) + len data = len (Net.out cb) + Net.bufcnt f) as Hsum.
  { apply (f_equal len) in Ho. rewrite len_app, len_slice in Ho; [lia|].
    pose proof (len_nonneg data). lia. }
  rewrite Hsum, slice_app in Ho by lia.
  apply app_inj_1 in Ho as [Ho1 Ho2].
  - split_and!; done.
  - apply Nat2Z.inj. fold (len (Net.out cb)). fold (len (slice content (ra_offset (ct s)) (len (Net.out cb)))).
    by rewrite len_slice.
Qed.

(** ** Preservation *)

Ltac open_inv s H :=
  destruct s as [fn mp [mm p cap av gr] [w sk ro run rd ab off eo rt] wp wk re po lg];
  destruct H as ((Hp0 & Hp1 & Hm0 & Ha0 & Hcap & Hres & Hwp & Hmem) & Hsize & (Hok & Hro & Hleft) &
    (Hw & Hwants) & Hr & Hlog);
  cbn in *; simplify_eq.

Ltac unfold_inv :=
  unfold inv, ring_inv, size_inv, net_inv, worker_inv, reader_inv, readable, rpos, unpub, adv, moved,
    rgot, reserved in *; cbn in *.

Lemma worker_calc_inv content s : inv content s -> worker s = WLoop -> inv content (worker_calc s).
Proof.
  intros H Hwk. unfold worker_calc. destruct (ra_abort (ct s)) eqn:Hab.
  { open_inv s H. unfold_inv. split_and!; try done; congruence. }
  destruct (worker_chunksz s =? 0) eqn:Hc; [done|]. unfold worker_chunksz in Hc |- *.
  open_inv s H. unfold_inv.
  assert (wp <= cap) by (unfold wrap in Hwp; destruct (_ <? cap) eqn:?; lia).
  set (c := if rd <? READAHEAD_TRESHOLD then _ else _) in *.
  assert (0 < c /\ c <= cap - av /\ c <= cap - wp).
  { assert (0 < READAHEAD_CHUNK_SIZE) by done. subst c. destruct (rd <? READAHEAD_TRESHOLD); lia. }
  split_and!; try done; lia.
Qed.

Lemma worker_publish_inv content s n :
  inv content s -> worker s = WAdvanced n -> inv content (worker_publish s n).
Proof.
  intros H Hwk. open_inv s H. unfold_inv.
  split_and!; try done; try lia; try tauto.
  - rewrite Hwp. f_equal. lia.
  - intros i Hi. apply Hmem. lia.
  - rewrite Hleft. f_equal. lia.
  - destruct re; naive_solver lia.
Qed.

(** The worker's end of the ring moves by [n]; when the data ends at the
    end of the buffer it is contiguous, so the buffer may also grow. *)
Lemma wrap_end cap p a n : 0 <= p < cap -> 0 <= a -> a + n <= cap -> 0 < n ->
  wrap cap (p + a) + n = cap -> p + a + n = cap.
Proof. unfold wrap. intros. destruct (p + a <? cap) eqn:?; lia. Qed.

Lemma wrap_next cap p a n : 0 <= p < cap -> 0 <= a -> a + n <= cap -> 0 < n ->
  wrap cap (p + a) + n < cap -> wrap cap (p + a + n) = wrap cap (p + a) + n.
Proof. unfold wrap. intros. destruct (p + a <? cap) eqn:?, (p + a + n <? cap) eqn:?; lia. Qed.

Lemma wrap_lt cap x : x < cap -> wrap cap x = x.
Proof. unfold wrap. intros. destruct (x <? cap) eqn:?; lia. Qed.

Lemma worker_advance_inv content s n :
  inv content s -> worker s = WFilled n -> inv content (worker_advance s n).
Proof.
  intros H Hwk. unfold worker_advance. open_inv s H. unfold_inv.
  destruct Hw as (Hrun & Hn & Hfit). destruct mp; [|naive_solver].
  destruct Hsize as (Hp & k & Hk & Ek).
  set (a := av - _) in *. assert (a <= av) by (subst a; lia). rewrite Z.add_0_r in Hwp.
  destruct (wp + n =? cap) eqn:Hend; [destruct ((cap <? READAHEAD_BUFSZ_MAX) && gr) eqn:Hgrow|]; cbn.
  - assert (p + a + n = cap) as Hpan by (apply wrap_end; lia).
    assert (cap <= cap + READAHEAD_BUFSZ_STEP) by (unfold READAHEAD_BUFSZ_STEP, MB; lia).
    assert (0 < READAHEAD_BUFSZ_STEP) by done.
    split_and!; try done; try lia.
    + rewrite wrap_lt by lia. lia.
    + intros i Hi. rewrite wrap_lt by lia. specialize (Hmem i). rewrite wrap_lt in Hmem by lia. auto.
    + exists (k + 1). apply andb_true_iff in Hgrow as [Hgrow _].
      unfold READAHEAD_BUFSZ_MAX, READAHEAD_BUFSZ_START, READAHEAD_BUFSZ_STEP, MB, KB in *. lia.
    + rewrite Hleft. f_equal. lia.
    + destruct re; naive_solver lia.
  - assert (p + a + n = cap) as Hpan by (apply wrap_end; lia).
    split_and!; try done; try lia; eauto.
    + unfold wrap. destruct (_ <? cap) eqn:?; lia.
    + rewrite Hleft. f_equal. lia.
  - assert (wp + n < cap) by lia.
    split_and!; try done; try lia; eauto.
    + fold a. rewrite wrap_next by lia. lia.
    + rewrite Hleft. f_equal. lia.
Qed.

Lemma store_out m q bs a : a < q \/ q + len bs <= a -> store m q bs a = m a.
Proof. unfold store. intros. destruct (q <=? a) eqn:?, (a <? q + len bs) eqn:?; cbn; lia || done. Qed.

Lemma store_in m q bs i : 0 <= i < len bs -> store m q bs (q + i) = nth (Z.to_nat i) bs 0.
Proof.
  unfold store. intros. destruct (q <=? q + i) eqn:?, (q + i <? q + len bs) eqn:?; cbn; try lia.
  f_equal. lia.
Qed.

(** Storing a served chunk at the worker's pointer extends the data. *)
Lemma store_extends content m cap p a q base bs :
  0 <= p < cap -> 0 <= a -> a + len bs <= cap -> q = wrap cap (p + a) -> q + len bs <= cap ->
  (forall i, 0 <= i < a -> m (wrap cap (p + i)) = content (base + i)) ->
  bs = slice content (base + a) (len bs) ->
  forall i, 0 <= i < a + len bs -> store m q bs (wrap cap (p + i)) = content (base + i).
Proof.
  intros Hp Ha Hfit Hq Hq2 Hm Hbs i Hi. destruct (decide (i < a)) as [Hia|Hia].
  - rewrite store_out; [apply Hm; lia|]. subst q. unfold wrap in *.
    destruct (p + a <? cap) eqn:?, (p + i <? cap) eqn:?; lia.
  - assert (wrap cap (p + i) = q + (i - a)) as ->.
    { subst q. unfold wrap in *. destruct (p + a <? cap) eqn:?, (p + i <? cap) eqn:?; lia. }
    rewrite store_in by lia. rewrite Hbs, slice_lookup by lia. f_equal. lia.
Qed.

Lemma worker_fill_inv content s c connect turns r f cb s' :
  inv content s -> worker s = WChunk c -> Net.FdsetFails ∉ turns ->
  Net.avbox_httpstream_fillbuf (fnet s) c connect turns = Some (r, f, cb) -> served content s f ->
  worker_fill s c connect turns = Some s' -> inv content s'.
Proof.
  intros H Hwk Hfd Ef Hserv. unfold worker_fill. rewrite Ef. intros E.
  assert (Net.net_ok f /\ len (Net.out cb) <= c /\
    Net.out cb = slice content (ra_offset (ct s)) (len (Net.out cb)) /\
    Net.leftover f = slice content (ra_offset (ct s) + len (Net.out cb)) (Net.bufcnt f) /\
    (forall n, r = Some n -> n = len (Net.out cb)) /\
    (r = None -> Net.FdsetFails ∉ turns -> Net.out cb = [])) as (Hok' & Hle & Hout & Hl' & Hn & Hz).
  { eapply fillbuf_content; [| | |done|done]; open_inv s H; unfold_inv; try done.
    - by destruct Hw as (_ & ? & _).
    - rewrite Hleft. f_equal. lia. }
  clear Ef Hserv. pose proof (len_nonneg (Net.out cb)) as Hlen.
  open_inv s H. unfold_inv. destruct Hw as (Hrun & Hc & Hfit). destruct mp; [|naive_solver].
  destruct Hsize as (Hp & Hk).
  set (a := av - _) in *. assert (a <= av) by (subst a; lia).
  assert (forall i, 0 <= i < a + len (Net.out cb) ->
    store mm wp (Net.out cb) (wrap cap (p + i)) = content (off + rgot (MkStream f true (MkRing mm p cap av gr) (MkCtl w sk ro run rd ab off eo rt) wp (WChunk c) re po lg) + i)) as Hst.
  { apply store_extends; try done; try lia.
    - rewrite Hwp. f_equal. lia.
    - intros i Hi. apply Hmem. lia.
    - rewrite Hout at 1. f_equal. unfold rgot. cbn. lia. }
  unfold rgot in Hst. cbn in Hst.
  destruct r as [n|].
  - specialize (Hn n eq_refl). subst n. cbn in E. simplify_eq.
    destruct (len (Net.out cb) =? 0) eqn:Hz0; unfold_inv; split_and!; try done; try lia; eauto.
    all: first [ intros i Hi; apply Hst; lia | rewrite Hl'; f_equal; lia ].
  - specialize (Hz eq_refl Hfd). rewrite Hz in *. unfold len in *. cbn in Hst, Hl'.
    destruct (Net.result f =? CURLE_OK); cbn in E; simplify_eq;
      [|destruct (rt <=? RETRIES_MAX)]; unfold_inv; split_and!; try done; try lia; eauto.
    all: first [ intros i Hi; apply Hst; lia
               | change (Net.leftover _) with (Net.leftover f); rewrite Hl'; f_equal; lia ].
Qed.

Lemma doseek_leftover s off : Net.leftover (fnet (avbox_httpstream_doseek s off)) = [].
Proof. done. Qed.

Lemma seek_pending content s :
  inv content s -> ra_seekto (ct s) <> -1 ->
  reader s = RSeek /\ ra_seekto (ct s) = pos s /\ 0 <= pos s /\ ra_running (ct s) = true /\ mapped s = true.
Proof.
  intros H Hsk. open_inv s H. unfold_inv. clear Hmem. destruct re; try (exfalso; tauto).
  destruct (sk =? -1) eqn:E; [lia|]. destruct mp; intuition congruence.
Qed.

Lemma worker_exit_inv content s connect turns s' :
  inv content s -> worker s = WExit ->
  (forall r f cb,
     Net.avbox_httpstream_fillbuf (fnet s) (ra_seekto (ct s) - ra_offset (ct s)) connect turns =
       Some (r, f, cb) -> served content s f /\ r = Some (ra_seekto (ct s) - ra_offset (ct s))) ->
  worker_exit s connect turns = Some s' -> inv content s'.
Proof.
  intros H Hwk Hfill E. unfold worker_exit in E.
  destruct (ra_seekto (ct s) =? -1) eqn:Hsk; cbn [negb] in E.
  { open_inv s H. unfold_inv. apply Z.eqb_eq in Hsk as ->.
    split_and!; try done; by destruct mp; destruct Hsize. }
  assert (ra_seekto (ct s) <> -1) as Hsk' by lia.
  destruct (seek_pending content s H Hsk') as (Hre & Hpos & Hpos0 & Hrun & Hmp).
  destruct ((ra_seekto (ct s) >? offset (ct s)) && (ra_seekto (ct s) <=? ra_offset (ct s))) eqn:Hin.
  { simplify_eq. clear Hfill. apply andb_true_iff in Hin as [Hin1 Hin2]. unfold seek_inbuffer.
    open_inv s H. unfold_inv. destruct Hsize as (Hp & Hk).
    set (q := if p + (po - off) >=? cap then p + (po - off) - cap else p + (po - off)).
    assert (q = wrap cap (p + (po - off))) as Hq.
    { subst q. unfold wrap. destruct (_ <? cap) eqn:?, (_ >=? cap) eqn:?; lia. }
    assert (0 <= q < cap) by (subst q; destruct (_ >=? cap) eqn:?; lia).
    assert (forall i, 0 <= i <= av - (po - off) -> wrap cap (q + i) = wrap cap (p + ((po - off) + i))) as Hwrap.
    { intros i Hi. rewrite Hq. unfold wrap.
      destruct (p + (po - off) <? cap) eqn:?, (p + (po - off + i) <? cap) eqn:?;
        repeat case_match; lia. }
    split_and!; try done; try lia.
    - rewrite Hwp. etrans; [|symmetry; etrans; [|apply (Hwrap (av - (po - off)))]]; f_equal; lia.
    - intros i Hi. rewrite Hwrap, Hmem by lia. f_equal. lia. }
  destruct ((ra_seekto (ct s) >? offset (ct s)) &&
    (ra_seekto (ct s) - ra_offset (ct s) <? READAHEAD_FSEEK_MAX)) eqn:Hshort.
  - unfold seek_short in E.
    destruct (Net.avbox_httpstream_fillbuf _ _ _ _) as [[[r f] cb]|] eqn:Ef; [|done].
    destruct (Hfill _ _ _ eq_refl) as [Hserv ->]. cbn in E. simplify_eq.
    apply andb_true_iff in Hshort as [Hgt _].
    assert (0 < ra_seekto (ct s) - ra_offset (ct s)) as Hskip.
    { rewrite Hgt in Hin. cbn in Hin. lia. }
    eapply fillbuf_content in Ef as (Hok' & _ & _ & Hl' & Hn & _); [| | | |exact Hserv].
    + specialize (Hn _ eq_refl). open_inv s H. unfold_inv. destruct Hsize as (Hp & Hk).
      split_and!; try done; try lia.
      * unfold wrap. destruct (_ <? cap) eqn:?; lia.
      * rewrite Hl', <- Hn. f_equal. lia.
    + by open_inv s H.
    + done.
    + open_inv s H. unfold_inv. rewrite Hleft. f_equal. lia.
  - simplify_eq. clear Hfill. open_inv s H. unfold_inv. destruct Hsize as (Hp & Hk).
    destruct Hok as (? & ? & ? & ?).
    split_and!; try done; try lia.
    + unfold wrap. destruct (_ <? cap) eqn:?; lia.
    + repeat split; cbn; lia.
Qed.

Lemma seek_inv content s to :
  inv content s -> reader s = RIdle -> 0 <= to < 2 ^ 63 ->
  (ra_running (ct s) = false -> ra_avail (rg s) = 0) ->
  inv content (avbox_httpstream_seek s to).
Proof.
  intros H Hre Hoff Hempty. unfold avbox_httpstream_seek.
  open_inv s H. destruct run; unfold_inv.
  - split_and!; try done; [by destruct wk|]. destruct (to =? -1) eqn:?; [lia|]. split_and!; done || lia.
  - specialize (Hempty eq_refl). destruct Hok as (? & ? & ? & ?).
    assert (wk = WNone \/ wk = WExit) as Hwk by (destruct wk; auto; intuition congruence).
    destruct Hwk as [-> | ->]; cbn in *; split_and!; try done; try lia.
    all: repeat split; cbn; lia.
Qed.

Lemma read_begin_inv content s size create map_ok :
  inv content s -> reader s = RIdle -> 0 <= size -> (ra_running (ct s) = false -> worker s = WNone) ->
  inv content (read_begin s size create map_ok).
Proof.
  intros H Hre Hsize0 Hwk. unfold read_begin. destruct (size =? 0); [done|].
  set (sz := if size >? SIZE_MAX / 2 then SIZE_MAX / 2 else size).
  assert (0 <= sz) as Hsz by (subst sz; destruct (_ >? _); [done|lia]). clearbody sz.
  assert (len (@nil byte) = 0) as Hnil by done. open_inv s H. unfold worker_start. cbn.
  destruct run; cbn [negb andb].
  { unfold_inv. split_and!; try done; try lia. all: tauto || (by destruct wk). }
  specialize (Hwk eq_refl). subst wk. unfold_inv.
  destruct (av =? 0) eqn:Hav; [destruct create; [destruct mp; [|destruct map_ok]|]|]; unfold_inv;
    split_and!; try done; try lia; try tauto; try (by left).
  - unfold wrap. destruct (_ <? cap) eqn:?; lia.
  - exists 0. lia.
Qed.

(** Reading through the ring reads the content. *)
Lemma load_content content m cap p a base c :
  0 <= c <= a -> p + c <= cap ->
  (forall i, 0 <= i < a -> m (wrap cap (p + i)) = content (base + i)) ->
  load m p c = slice content base c.
Proof.
  intros Hc Hp Hm. unfold load, slice. apply list_eq. intros i. rewrite !list_lookup_fmap.
  destruct (decide (Z.of_nat i < c)) as [Hi|Hi].
  - rewrite !lookup_seqZ_lt by lia. cbn. f_equal. rewrite <- Hm by lia. rewrite wrap_lt by lia. done.
  - rewrite !lookup_seqZ_ge by lia. done.
Qed.

Lemma read_return_inv content s size got full :
  inv content s -> reader s = RLoop size got -> inv content (read_return s got full).
Proof.
  intros H Hre. open_inv s H. unfold_inv. destruct Hr as (Ew & Hle & Hgot & -> & ->). unfold_inv.
  split_and!; try done; try lia.
  - intros i Hi. rewrite Hmem by lia. f_equal. lia.
  - apply Forall_app. split; [done|]. by constructor.
Qed.

Lemma read_turn_inv content s size got :
  inv content s -> reader s = RLoop size got -> inv content (read_turn s size got).
Proof.
  intros H Hre. unfold read_turn. destruct (len got <? size) eqn:Hlt; [|by eapply read_return_inv].
  destruct (read_chunksz s size got =? 0) eqn:Hc.
  - destruct (ra_running (ct s)) eqn:Hrun; cbn [negb].
    { destruct (ra_reads (ct s) >? READAHEAD_TRESHOLD); [|done]. by open_inv s H. }
    destruct (len got =? 0) eqn:Hg; [|by eapply read_return_inv].
    assert (len got = 0) as Hg0 by lia.
    destruct (_ && _); open_inv s H; unfold_inv; rewrite Hg0 in *; split_and!; try done; tauto.
  - unfold read_chunksz in *. open_inv s H. unfold_inv. destruct Hr as (Ew & Hle & Hgot & -> & ->).
    pose proof (len_nonneg got).
    unfold_inv. set (c := (cap - p) `min` _) in *.
    assert (0 < c <= av /\ p + c <= cap /\ len got + c <= size) as (? & ? & ?).
    { destruct mp; [destruct Hsize|]; subst c; lia. }
    rewrite (load_content content mm cap p (av - 0) (po + len got) c);
      [|lia|done|intros i Hi; apply Hmem; destruct wk; lia].
    rewrite len_app, len_slice by lia.
    split_and!; try done; try lia.
    + intros i Hi. rewrite Hmem by lia. f_equal. lia.
    + rewrite slice_app by lia. by rewrite Hgot at 1.
Qed.

Lemma read_move_inv content s size got c :
  inv content s -> reader s = RCopied size got c -> inv content (read_move s size got c).
Proof.
  intros H Hre. open_inv s H. unfold_inv. destruct Hr as (Ew & Hle & Hc & Hpc & Hgot & -> & ->). unfold_inv.
  set (q := if p + c =? cap then 0 else p + c).
  assert (0 < cap) by lia.
  assert (p < cap) by lia.
  assert (q = wrap cap (p + c) /\ 0 <= q < cap) as [Hq Hqr].
  { subst q. unfold wrap. destruct (_ =? cap) eqn:?, (_ <? cap) eqn:?; lia. }
  assert (forall i, 0 <= i -> p + c + i <= 2 * cap -> c + i <= cap -> wrap cap (q + i) = wrap cap (p + (c + i))) as Hwrap.
  { intros i Hi ? ?. rewrite Hq. unfold wrap.
    destruct (p + c <? cap) eqn:?, (p + (c + i) <? cap) eqn:?; repeat case_match; lia. }
  clearbody q.
  split_and!; try done; try lia.
  - rewrite Hwp. rewrite <- (Z.add_assoc q), Hwrap; [f_equal; destruct wk; lia|destruct wk; lia..].
  - intros i Hi. rewrite Hwrap by (destruct wk; lia). rewrite Hmem by lia. f_equal. lia.
  - destruct mp; [|done]. destruct Hsize. split; [lia|done].
Qed.

Lemma read_release_inv content s size got c :
  inv content s -> reader s = RMoved size got c -> inv content (read_release s size got c).
Proof.
  intros H Hre. open_inv s H. unfold_inv. destruct Hr as (Ew & Hle & Hc & Hgot & -> & ->). unfold_inv.
  pose proof (len_nonneg got).
  split_and!; try done; try lia; [by rewrite Hwp; f_equal; lia|intros i Hi; apply Hmem; lia|].
  destruct wk; try tauto. intros Hrun. destruct (Hw Hrun). lia.
Qed.

Lemma ring_step_inv content s s' : step content s s' -> inv content s -> inv content s'.
Proof.
  intros Hst H. destruct Hst.
  - by apply worker_calc_inv.
  - by eapply worker_fill_inv.
  - by apply worker_advance_inv.
  - by apply worker_publish_inv.
  - by eapply worker_exit_inv.
  - by apply read_begin_inv.
  - by apply read_turn_inv.
  - by apply read_move_inv.
  - by apply read_release_inv.
  - by apply seek_inv.
  - open_inv s H. unfold_inv. by split_and!.
Qed.

Lemma fresh_inv content : inv content fresh.
Proof. unfold_inv. unfold wrap. cbn. split_and!; try done; try lia. Qed.

Lemma ring_reachable_inv content s : rtc (step content) fresh s -> inv content s.
Proof. intros Hr. eapply rtc_invariant; [|exact Hr|apply fresh_inv]. eauto using ring_step_inv. Qed.

(** ** Specification: a file with a position *)

Inductive file_step (content : Z -> byte) : relation (Z * list (Z * list byte)) :=
  | FRead p l n : 0 <= n -> file_step content (p, l) (p + n, l ++ [(p, slice content p n)])
  | FSeek p l off : 0 <= off -> file_step content (p, l) (off, l).

Lemma step_simulates content s s' :
  step content s s' -> inv content s -> rtc (file_step content) (pos s, log s) (pos s', log s').
Proof.
  intros Hst H. destruct Hst; try (apply rtc_refl).
  - unfold worker_calc. repeat case_match; apply rtc_refl.
  - match goal with E : worker_fill _ _ _ _ = Some _ |- _ => unfold worker_fill in E end.
    repeat case_match; simplify_eq; apply rtc_refl.
  - unfold worker_advance. repeat case_match; apply rtc_refl.
  - match goal with E : worker_exit _ _ _ = Some _ |- _ => unfold worker_exit, seek_short in E end.
    repeat case_match; simplify_eq; apply rtc_refl.
  - unfold read_begin, worker_start. repeat case_match; apply rtc_refl.
  - assert (got = slice content (pos s) (len got)) as Hg.
    { destruct H as (_ & _ & _ & _ & Hr & _). unfold reader_inv in Hr.
      match goal with E : reader s = _ |- _ => rewrite E in Hr end. tauto. }
    pose proof (len_nonneg got).
    assert (file_step content (pos s, log s) (pos s + len got, log s ++ [(pos s, got)])).
    { rewrite Hg at 2. by constructor. }
    unfold read_turn. repeat case_match; try apply rtc_refl; by apply rtc_once.
  - unfold avbox_httpstream_seek. cbn. case_match; apply rtc_once; constructor; lia.
Qed.

(** A run without faults is a run of the file. *)
Lemma steps_refine content s :
  rtc (step content) fresh s ->
  rtc (file_step content) (0, []) (pos s, log s) /\ (reader s = RIdle -> offset (ct s) = pos s).
Proof.
  intros Hr. split.
  - assert (exists b, rtc (file_step content) (0, []) b /\ inv content s /\ b = (pos s, log s))
      as (b & Hb & _ & ->); [|done].
    apply (rtc_simulation (step content) (file_step content)
      (fun x a => inv content x /\ a = (pos x, log x))) with (x := fresh); [|done|split; [apply fresh_inv|done]].
    intros x y a Hxy [Hx ->]. exists (pos y, log y). eauto using step_simulates, ring_step_inv.
  - intros Hidle. apply ring_reachable_inv in Hr as (_ & _ & _ & _ & Hri & _).
    unfold reader_inv in Hri. rewrite Hidle in Hri. tauto.
Qed.


(** C29. The ring is memory safe and free of data races: the area the worker
    fills lies in the mapping, the area a read copies lies in the buffer,
    the two never overlap, and the buffer never outgrows the mapping. *)
Theorem httpstream_ring_safe content s :
  rtc (step content) fresh s ->
  let g := rg s in
  ra_bufend g <= READAHEAD_BUFSZ_MAX /\
  (forall c, worker s = WChunk c ->
     0 <= ptr s /\ 0 < c /\ ptr s + c <= ra_bufend g /\
     forall size got i, reader s = RLoop size got -> 0 <= i < read_chunksz s size got ->
       ~ (ptr s <= ra_ptr g + i < ptr s + c)) /\
  (forall size got, reader s = RLoop size got -> 0 < read_chunksz s size got ->
     0 <= ra_ptr g /\ ra_ptr g + read_chunksz s size got <= ra_bufend g).
Proof.
  intros H. apply ring_reachable_inv in H. unfold read_chunksz. open_inv s H. unfold_inv.
  split_and!.
  - destruct mp; [destruct Hsize as (_ & k & Hk & ->)|destruct Hsize as [-> _]; done].
    unfold READAHEAD_BUFSZ_MAX, READAHEAD_BUFSZ_START, READAHEAD_BUFSZ_STEP, MB, KB. lia.
  - intros c ->. destruct Hw as (Hrun & Hc & Hfit). destruct mp; [|destruct Hsize; congruence].
    destruct Hsize as [Hp _].
    assert (0 <= wp) by (subst wp; unfold wrap; destruct (_ <? cap) eqn:?; lia).
    split_and!; try lia. intros size got i -> Hi. cbn in *.
    subst wp. unfold wrap in *. destruct (_ <? cap) eqn:?; lia.
  - intros size got -> Hpos. lia.
Qed.

(** A seek that finds no worker does not empty the ring: when the worker
    has ended (the whole resource was fetched) and unread bytes remain, the
    read after a seek to any [to] returns the byte at the old position. *)
Lemma seek_without_worker_stale content s to :
  inv content s -> reader s = RIdle -> ra_running (ct s) = false -> 0 < ra_avail (rg s) ->
  reader (read_turn (read_begin (avbox_httpstream_seek s to) 1 true true) 1 []) =
    RCopied 1 [content (offset (ct s))] 1.
Proof.
  intros H Hre Hrun Hav. unfold avbox_httpstream_seek, read_begin. rewrite Hrun.
  replace (if 1 >? SIZE_MAX / 2 then SIZE_MAX / 2 else 1) with 1 by done. cbn.
  open_inv s H. unfold_inv.
  destruct (av =? 0) eqn:Ha; [lia|]. unfold read_turn, read_chunksz.
  change (len (@nil byte)) with 0. change (1 - 0) with 1. cbn -[Z.min].
  assert (p < cap) by (destruct mp; [by destruct Hsize|lia]).
  destruct ((cap - p) `min` (1 `min` av) =? 0) eqn:Hc; [lia|]. cbn -[Z.min].
  replace ((cap - p) `min` (1 `min` av)) with 1 by lia. f_equal.
  rewrite (load_content content mm cap p (av - 0) off 1); [done|lia..|].
  intros i Hi. rewrite Hmem by (destruct wk; lia). f_equal. lia.
Qed.

(** A first read of two bytes out of a chunk of three. *)
Definition demo_content (z : Z) : byte := z mod 256.
Definition demo_connect : Net.perform := Net.Perform [] true [].
Definition demo_turns : list Net.turn := [Net.Performs (Net.Perform [([0; 1; 2], true)] true [])].
Definition demo1 : stream := worker_calc (read_begin fresh 2 true true).
Definition demo2 : stream := default fresh (worker_fill demo1 2 demo_connect demo_turns).
Definition demo3 : stream := read_turn (worker_publish (worker_advance demo2 2) 2) 2 [].
Definition demo4 : stream := read_turn (read_release (read_move demo3 2 [0; 1] 2) 2 [0; 1] 2) 2 [0; 1].

Lemma demo1_run : rtc (step demo_content) fresh demo1.
Proof.
  eapply rtc_l; [apply (StepRead _ fresh 2 true true); done|]. apply rtc_once, StepCalc. done.
Qed.

Lemma demo4_run : rtc (step demo_content) fresh demo4.
Proof.
  etrans; [apply demo1_run|].
  eapply rtc_l.
  { eapply (StepFill _ demo1 2 demo_connect demo_turns); [done|set_solver|reflexivity| |reflexivity].
    exists [0; 1; 2]. done. }
  eapply rtc_l; [apply (StepAdvance _ demo2 2); done|].
  eapply rtc_l; [apply (StepPublish _ (worker_advance demo2 2) 2); done|].
  eapply rtc_l; [apply (StepTurn _ _ 2 []); done|].
  eapply rtc_l; [apply (StepMove _ _ 2 [0; 1] 2); done|].
  eapply rtc_l; [apply (StepRelease _ _ 2 [0; 1] 2); done|].
  eapply rtc_l; [apply (StepTurn _ _ 2 [0; 1]); done|]. apply rtc_refl.
Qed.


Lemma httpstream_ring_safe_witness : worker demo1 = WChunk 2 /\ ptr demo1 + 2 <= ra_bufend (rg demo1).
Proof.
  split; [reflexivity|].
  destruct (httpstream_ring_safe demo_content demo1 demo1_run) as (_ & Hw & _).
  destruct (Hw 2 eq_refl) as (_ & _ & H & _). exact H.
Defined.

(** Two bytes fetched and unread, the worker gone, a seek to 100. *)
Definition demo_ended : stream :=
  MkStream (Net.Net true true 0 [] 0 0 0 []) true (MkRing demo_content 0 READAHEAD_BUFSZ_START 2 false)
    (MkCtl 0 (-1) 2 false 0 false 0 false 0) 2 WNone RIdle 0 [].

(** The fault of a seek that finds no worker is reached: unread bytes, and
    the worker gone. *)
Lemma stale_seek_faults : fault demo_content demo_ended (avbox_httpstream_seek demo_ended 100).
Proof. by apply FaultStale. Qed.

Lemma demo_ended_inv : inv demo_content demo_ended.
Proof.
  unfold_inv. split_and!; try done; try lia; try (by left).
  - intros i Hi. rewrite wrap_lt; [done|]. unfold READAHEAD_BUFSZ_START, KB. lia.
  - exists 0. done.
Qed.

Lemma seek_without_worker_stale_witness :
  reader (read_turn (read_begin (avbox_httpstream_seek demo_ended 100) 1 true true) 1 []) = RCopied 1 [0] 1 /\
  demo_content 100 <> 0.
Proof.
  split; [|done].
  apply (seek_without_worker_stale demo_content demo_ended 100 demo_ended_inv); [reflexivity|reflexivity|].
  vm_compute. reflexivity.
Defined.

End Ring.
