(* ===== verification/Timers.v ===== *)
(** * Timers (src/lib/timers.c)

    The list of armed timers, the pass the timers thread makes over it each
    time it wakes, registration and cancellation.  Lists are given by their
    elements (the ring macros implement them, see [LinkedList]); the clock
    readings, the answers of [malloc], of the callbacks and of
    [avbox_object_sendmsg] are arguments.  The two pools of structures are
    given by their sizes: a structure is overwritten when it is taken. *)

From S2P Require Import Prelude TimeUtil.

(** ** Data *)

Definition AVBOX_TIMER_TYPE_AUTORELOAD : Z := 1.
Definition AVBOX_TIMER_MESSAGE : Z := 2.

Inductive avbox_timer_result :=
  | AVBOX_TIMER_CALLBACK_RESULT_CONTINUE
  | AVBOX_TIMER_CALLBACK_RESULT_STOP.

Record avbox_timer_data := TimerData { id : Z; data : Z }.

(** [callback] and [message_object] are [None] for NULL. *)
Record avbox_timer_state := TimerState {
  public : avbox_timer_data;
  interval : timespec;
  value : timespec;
  flags : Z;
  message_object : option Z;
  callback : option Z;
}.

Record timers_state := Timers {
  timers : list avbox_timer_state;
  quit : bool;
  nextid : Z;
  timer_pool : nat;
  timer_data_pool : nat;
  last_sleep : timespec;
}.

(** What the thread does to the outside. *)
Inductive event :=
  | Called (cb : Z) (d : avbox_timer_data)
  | Sent (obj : Z) (d : avbox_timer_data)
  | NoMemory (d : avbox_timer_data)
  | SendFailed (d : avbox_timer_data).

(** The environment of one pass. *)
Record env := Env {
  run_callback : Z -> avbox_timer_data -> avbox_timer_result;
  payload_mem : avbox_timer_data -> bool;
  sendmsg : Z -> avbox_timer_data -> bool;
}.

(** ** Operations *)

(** [acquire_timer] and [acquire_payload]: take from the pool, or allocate. *)
Definition acquire (mem : bool) (pool : nat) : option nat :=
  match pool with S n => Some n | O => if mem then Some O else None end.

Definition has_flag (t : avbox_timer_state) (f : Z) : bool := negb (Z.land (flags t) f =? 0).

Definition set_value (t : avbox_timer_state) (v : timespec) : avbox_timer_state :=
  TimerState (public t) (interval t) v (flags t) (message_object t) (callback t).

(** The TIMER message of an elapsed timer. *)
Definition notify (e : env) (t : avbox_timer_state) (pool : nat) : list event * nat :=
  if has_flag t AVBOX_TIMER_MESSAGE then
    match message_object t with
    | None => ([], pool)
    | Some obj =>
        match acquire (payload_mem e (public t)) pool with
        | None => ([NoMemory (public t)], pool)
        | Some pool =>
            if sendmsg e obj (public t) then ([Sent obj (public t)], pool)
            else ([SendFailed (public t)], S pool)
        end
    end
  else ([], pool).

Definition call (e : env) (t : avbox_timer_state) : avbox_timer_result * list event :=
  match callback t with
  | Some cb => (run_callback e cb (public t), [Called cb (public t)])
  | None => (AVBOX_TIMER_CALLBACK_RESULT_CONTINUE, [])
  end.

(** The body of the loop for one timer: the timer if it stays in the list,
    the new [sleeptime], the events and the payload pool. *)
Definition visit (e : env) (elapsed sleeptime : timespec) (pool : nat) (t : avbox_timer_state) :
    option avbox_timer_state * timespec * list event * nat :=
  if timelte (value t) elapsed then
    let '(ret, ev1) := call e t in
    let '(ev2, pool) := notify e t pool in
    if has_flag t AVBOX_TIMER_TYPE_AUTORELOAD then
      match ret with
      | AVBOX_TIMER_CALLBACK_RESULT_CONTINUE =>
          let t := set_value t (interval t) in
          (Some t, if timelt (value t) sleeptime then interval t else sleeptime, ev1 ++ ev2, pool)
      | AVBOX_TIMER_CALLBACK_RESULT_STOP => (None, sleeptime, ev1 ++ ev2, pool)
      end
    else (None, sleeptime, ev1 ++ ev2, pool)
  else
    let t := set_value t (timediff (Some elapsed) (Some (value t))) in
    (Some t, if timelt (value t) sleeptime then value t else sleeptime, [], pool).

(** The [LIST_FOREACH_SAFE] loop; each removed timer goes to its pool. *)
Fixpoint visit_all (e : env) (elapsed sleeptime : timespec) (pool tpool : nat)
    (ts : list avbox_timer_state) : list avbox_timer_state * timespec * list event * nat * nat :=
  match ts with
  | [] => ([], sleeptime, [], pool, tpool)
  | t :: ts =>
      let '(kept, sleeptime, ev, pool) := visit e elapsed sleeptime pool t in
      let tpool := match kept with None => S tpool | Some _ => tpool end in
      let '(ts, sleeptime, evs, pool, tpool) := visit_all e elapsed sleeptime pool tpool ts in
      (match kept with Some t => t :: ts | None => ts end, sleeptime, ev ++ evs, pool, tpool)
  end.

(** One turn of [avbox_timers_thread] up to its timed wait: the new state,
    how long it will sleep at most, and the events. *)
Definition MAX_SLEEP : timespec := Timespec 10 0.

Definition timers_pass (e : env) (now : timespec) (s : timers_state) :
    timers_state * timespec * list event :=
  let elapsed := timediff (Some (last_sleep s)) (Some now) in
  let '(ts, sleeptime, evs, pool, tpool) :=
    visit_all e elapsed MAX_SLEEP (timer_data_pool s) (timer_pool s) (timers s) in
  (Timers ts (quit s) (nextid s) tpool pool now, sleeptime, evs).

(** The deadline passed to [pthread_cond_timedwait]. *)
Definition wait_deadline (wall : timeval) (sleeptime : timespec) : option timespec :=
  delay2abstime 2 wall sleeptime.

(** [nextid++]; overflow of the [int] is undefined. *)
Definition avbox_timers_getnextid (s : timers_state) : option (Z * timers_state) :=
  n ← chk_int (nextid s + 1);
  Some (nextid s, Timers (timers s) (quit s) n (timer_pool s) (timer_data_pool s) (last_sleep s)).

(** [avbox_timer_register]: [None] is undefined behaviour, [inl ENOMEM]
    the -1 for a failed allocation. *)
Definition avbox_timer_register (mem : bool) (iv : timespec) (fl : Z) (msgobj func : option Z) (d : Z)
    (s : timers_state) : option (result Z * timers_state) :=
  match acquire mem (timer_pool s) with
  | None => Some (inl ENOMEM, s)
  | Some pool =>
      '(i, s) ← avbox_timers_getnextid s;
      let t := TimerState (TimerData i d) iv iv fl msgobj func in
      Some (inr i, Timers (t :: timers s) (quit s) (nextid s) pool (timer_data_pool s) (last_sleep s))
  end.

(** The search loop of [avbox_timer_cancel], which stops at the first match. *)
Fixpoint cancel_first (i : Z) (ts : list avbox_timer_state) : option (list avbox_timer_state) :=
  match ts with
  | [] => None
  | t :: ts => if id (public t) =? i then Some ts else ts ← cancel_first i ts; Some (t :: ts)
  end.

Definition avbox_timer_cancel (i : Z) (s : timers_state) : Z * timers_state :=
  match cancel_first i (timers s) with
  | Some ts => (0, Timers ts (quit s) (nextid s) (S (timer_pool s)) (timer_data_pool s) (last_sleep s))
  | None => (-1, s)
  end.

Definition avbox_timers_releasepayload (s : timers_state) : timers_state :=
  Timers (timers s) (quit s) (nextid s) (timer_pool s) (S (timer_data_pool s)) (last_sleep s).

(** [avbox_timers_init] and the thread's first clock reading. *)
Definition avbox_timers_init (now : timespec) : timers_state := Timers [] false 1 0 0 now.

(** [avbox_timers_shutdown]: the thread is joined, the timers are pooled. *)
Definition avbox_timers_shutdown (s : timers_state) : timers_state :=
  Timers [] true (nextid s) (length (timers s) + timer_pool s) (timer_data_pool s) (last_sleep s).

(** ** Steps

    The thread wakes at any time (its timed wait ended, it was signalled, or
    spuriously) and never goes back in time; other threads register and
    cancel while it sleeps. *)

Inductive step : timers_state -> list event -> timers_state -> Prop :=
  | StepPass e now s s' sl evs :
      quit s = false -> sane_time now -> ns (last_sleep s) <= ns now ->
      timers_pass e now s = (s', sl, evs) -> step s evs s'
  | StepRegister mem iv fl obj f d s r s' :
      sane_time iv -> avbox_timer_register mem iv fl obj f d s = Some (r, s') -> step s [] s'
  | StepCancel i s r s' : avbox_timer_cancel i s = (r, s') -> step s [] s'
  | StepRelease s : step s [] (avbox_timers_releasepayload s)
  | StepShutdown s : step s [] (avbox_timers_shutdown s).

(** Runs, with the events in order. *)
Inductive run : timers_state -> list event -> timers_state -> Prop :=
  | run_nil s : run s [] s
  | run_step s ev s1 evs s2 : run s evs s1 -> step s1 ev s2 -> run s (evs ++ ev) s2.

(** ** Invariant *)

Definition ids (ts : list avbox_timer_state) : list Z := (fun t => id (public t)) <$> ts.

Definition timer_ok (t : avbox_timer_state) : Prop := sane_time (interval t) /\ sane_time (value t).

Definition inv (s : timers_state) : Prop :=
  NoDup (ids (timers s)) /\ Forall (fun i => 0 < i < nextid s) (ids (timers s)) /\
  Forall timer_ok (timers s) /\ sane_time (last_sleep s) /\ 0 < nextid s.

(** ** Lemmas *)

Lemma timediff_sane a b :
  sane_time a -> sane_time b -> ns a <= ns b ->
  sane_time (timediff (Some a) (Some b)) /\ ns (timediff (Some a) (Some b)) = ns b - ns a.
Proof.
  intros Ha Hb Hle. destruct (sane_time_sane a Ha), (sane_time_sane b Hb).
  destruct (timediff_ns (Some a) (Some b)) as [E N]; [done..|]. cbn in E. split; [|done].
  split; [done|]. destruct Ha as [Hna Ha], Hb as [Hnb Hb].
  unfold ns, normal, NSEC in *. lia.
Qed.

Lemma timelt_sane a b : sane_time a -> sane_time b -> timelt a b = true <-> ns a < ns b.
Proof. intros [? _] [? _]. by apply timelt_ns. Qed.

Lemma timelte_sane a b : sane_time a -> sane_time b -> timelte a b = true <-> ns a <= ns b.
Proof. intros [? _] [? _]. by apply timelte_ns. Qed.

(** What a pass leaves of one timer. *)
Definition continues (e : env) (t : avbox_timer_state) : bool :=
  has_flag t AVBOX_TIMER_TYPE_AUTORELOAD &&
  match (call e t).1 with AVBOX_TIMER_CALLBACK_RESULT_CONTINUE => true | _ => false end.

Definition after (e : env) (elapsed : timespec) (t : avbox_timer_state) : option avbox_timer_state :=
  if timelte (value t) elapsed
  then if continues e t then Some (set_value t (interval t)) else None
  else Some (set_value t (timediff (Some elapsed) (Some (value t)))).

Definition tmin (sl v : timespec) : timespec := if timelt v sl then v else sl.

Lemma visit_spec e elapsed sl pool t :
  exists pool' evs,
    visit e elapsed sl pool t =
      (after e elapsed t, match after e elapsed t with Some t' => tmin sl (value t') | None => sl end,
       evs, pool') /\
    evs = if timelte (value t) elapsed then (call e t).2 ++ (notify e t pool).1 else [].
Proof.
  unfold visit, after, continues, tmin. destruct (timelte (value t) elapsed); [|by eauto].
  destruct (call e t) as [ret ev1], (notify e t pool) as [ev2 pool2].
  destruct (has_flag t _); [destruct ret|]; cbn; eauto.
Qed.

Lemma visit_all_spec e elapsed sl pool tpool ts ts' sl' evs pool' tpool' :
  visit_all e elapsed sl pool tpool ts = (ts', sl', evs, pool', tpool') ->
  ts' = omap (after e elapsed) ts /\ sl' = foldl tmin sl (value <$> ts') /\
  (forall ev, ev ∈ evs -> exists t p, t ∈ ts /\ timelte (value t) elapsed = true /\
     (ev ∈ (call e t).2 \/ ev ∈ (notify e t p).1)) /\
  (forall t ev, t ∈ ts -> timelte (value t) elapsed = true -> ev ∈ (call e t).2 -> ev ∈ evs).
Proof.
  revert sl pool tpool ts' sl' evs pool' tpool'.
  induction ts as [|t ts IH]; intros sl pool tpool ts' sl' evs pool' tpool' E; cbn in E.
  { simplify_eq. split_and!; [done|done|set_solver..]. }
  destruct (visit_spec e elapsed sl pool t) as (p1 & ev1 & Ev & Hev1). rewrite Ev in E.
  set (sl1 := match after e elapsed t with Some t' => tmin sl (value t') | None => sl end) in *.
  destruct (visit_all e elapsed sl1 p1 _ ts) as [[[[ts2 sl2] evs2] p2] tp2] eqn:E2.
  destruct (IH _ _ _ _ _ _ _ _ E2) as (Hts & Hsl & Hsound & Hcompl). simplify_eq. split_and!.
  - cbn. by destruct (after e elapsed t).
  - subst sl1. by destruct (after e elapsed t).
  - intros ev. rewrite elem_of_app. intros [Hin|Hin].
    + exists t, pool. destruct (timelte (value t) elapsed) eqn:Hlt; set_solver.
    + apply Hsound in Hin as (t2 & p & ? & ? & ?). exists t2, p. set_solver.
  - intros t2 ev Ht2 Hlt Hev. apply elem_of_app. apply elem_of_cons in Ht2 as [->|Ht2].
    + left. rewrite Hlt. set_solver.
    + right. by eapply Hcompl.
Qed.

Lemma after_ok e elapsed t t' :
  sane_time elapsed -> timer_ok t -> after e elapsed t = Some t' ->
  timer_ok t' /\ public t' = public t /\ interval t' = interval t /\ flags t' = flags t /\
  message_object t' = message_object t /\ callback t' = callback t.
Proof.
  intros He [Hi Hv] E. unfold after in E. destruct (timelte (value t) elapsed) eqn:Hlt.
  { destruct (continues e t); [|done]. by simplify_eq. }
  simplify_eq. split_and!; try done. split; [done|]. cbn. apply timediff_sane; try done.
  apply not_true_iff_false in Hlt. rewrite timelte_sane in Hlt by done. lia.
Qed.

Lemma pass_elapsed s now :
  inv s -> sane_time now -> ns (last_sleep s) <= ns now ->
  sane_time (timediff (Some (last_sleep s)) (Some now)) /\
  ns (timediff (Some (last_sleep s)) (Some now)) = ns now - ns (last_sleep s).
Proof. intros (_ & _ & _ & Hl & _) Hn Hle. by apply timediff_sane. Qed.

Lemma pass_timers e now s s' sl evs :
  timers_pass e now s = (s', sl, evs) ->
  timers s' = omap (after e (timediff (Some (last_sleep s)) (Some now))) (timers s) /\
  sl = foldl tmin MAX_SLEEP (value <$> timers s') /\ last_sleep s' = now /\ nextid s' = nextid s /\
  (forall ev, ev ∈ evs -> exists t p, t ∈ timers s /\
     timelte (value t) (timediff (Some (last_sleep s)) (Some now)) = true /\
     (ev ∈ (call e t).2 \/ ev ∈ (notify e t p).1)) /\
  (forall t ev, t ∈ timers s -> timelte (value t) (timediff (Some (last_sleep s)) (Some now)) = true ->
     ev ∈ (call e t).2 -> ev ∈ evs).
Proof.
  unfold timers_pass. intros E.
  destruct (visit_all _ _ _ _ _ _) as [[[[ts sl1] evs1] p1] tp1] eqn:Ev.
  apply visit_all_spec in Ev as (Hts & Hsl & Hs & Hc). simplify_eq. by split_and!.
Qed.

Lemma after_public e elapsed t t' : after e elapsed t = Some t' -> public t' = public t.
Proof. unfold after. repeat case_match; intros; by simplify_eq. Qed.

Lemma omap_ids e elapsed ts :
  sublist (ids (omap (after e elapsed) ts)) (ids ts).
Proof.
  induction ts as [|t ts IH]; cbn; [constructor|].
  destruct (after e elapsed t) as [t'|] eqn:E; cbn.
  - rewrite (after_public _ _ _ _ E). by constructor.
  - by constructor.
Qed.

Lemma cancel_first_ids i ts ts' :
  cancel_first i ts = Some ts' -> sublist ts' ts /\ i ∈ ids ts /\ (NoDup (ids ts) -> i ∉ ids ts').
Proof.
  revert ts'. induction ts as [|t ts IH]; intros ts' E; [done|]. cbn in E.
  destruct (id (public t) =? i) eqn:Hi; zify_bool.
  - simplify_eq. split_and!; [by constructor|set_solver|]. cbn. intros Hnd. by apply NoDup_cons in Hnd as [? _].
  - destruct (cancel_first i ts) as [k|]; [|done]. cbn in E. simplify_eq.
    destruct (IH k eq_refl) as (? & ? & Hn). split_and!; [by constructor|set_solver|].
    cbn. intros Hnd. apply NoDup_cons in Hnd as [_ Hnd]. specialize (Hn Hnd). set_solver.
Qed.

Lemma cancel_first_None i ts : cancel_first i ts = None <-> i ∉ ids ts.
Proof.
  induction ts as [|t ts IH]; cbn; [set_solver|].
  destruct (id (public t) =? i) eqn:Hi; zify_bool; [set_solver|].
  destruct (cancel_first i ts); cbn; set_solver.
Qed.

Lemma ids_sublist ts ts' : sublist ts' ts -> sublist (ids ts') (ids ts).
Proof. induction 1; cbn; by constructor. Qed.

Lemma timers_step_inv s evs s' : step s evs s' -> inv s -> inv s'.
Proof.
  intros Hst Hinv. pose proof Hinv as (Hnd & Hlt & Hok & Hl & Hn). destruct Hst.
  - destruct (pass_elapsed s now) as [He _]; [done..|].
    match goal with E : timers_pass _ _ _ = _ |- _ =>
      apply pass_timers in E as (Hts & _ & Els & En & _) end.
    pose proof (omap_ids e (timediff (Some (last_sleep s)) (Some now)) (timers s)) as Hsub.
    unfold inv. rewrite Hts, Els, En. split_and!; try done.
    + by eapply sublist_NoDup.
    + eapply Forall_sublist; [exact Hsub|done].
    + apply Forall_forall. intros t' Ht'. apply list_elem_of_omap in Ht' as (t & Ht & E).
      rewrite Forall_forall in Hok. by destruct (after_ok e _ t t' He (Hok _ Ht) E).
  - match goal with E : avbox_timer_register _ _ _ _ _ _ _ = _ |- _ =>
      unfold avbox_timer_register, avbox_timers_getnextid, chk_int in E end.
    destruct (acquire mem (timer_pool s)); [|by simplify_eq].
    destruct (in_s 32 (nextid s + 1)); [|done]. cbn in *. simplify_eq. unfold inv. cbn. split_and!; try done; try lia.
    + constructor; [|done]. intros Hin. rewrite Forall_forall in Hlt. apply Hlt in Hin. lia.
    + constructor; [lia|]. eapply Forall_impl; [exact Hlt|]. cbn. lia.
    + by constructor.
  - match goal with E : avbox_timer_cancel _ _ = _ |- _ => unfold avbox_timer_cancel in E end.
    destruct (cancel_first i (timers s)) as [ts|] eqn:Ec; simplify_eq; [|done].
    apply cancel_first_ids in Ec as (Hsub & _ & _). unfold inv. cbn. split_and!; try done.
    + eapply sublist_NoDup; [done|by apply ids_sublist].
    + eapply Forall_sublist; [by apply ids_sublist|done].
    + by eapply Forall_sublist.
  - done.
  - unfold inv. cbn. split_and!; try done; constructor.
Qed.

Lemma timers_init_inv now : sane_time now -> inv (avbox_timers_init now).
Proof. intros. unfold inv. cbn. split_and!; try done; constructor. Qed.

Lemma run_inv s evs s' : run s evs s' -> inv s -> inv s'.
Proof. induction 1; eauto using timers_step_inv. Qed.

Definition event_data (ev : event) : avbox_timer_data :=
  match ev with Called _ d | Sent _ d | NoMemory d | SendFailed d => d end.

Lemma fired_data e t p ev : ev ∈ (call e t).2 \/ ev ∈ (notify e t p).1 -> event_data ev = public t.
Proof.
  unfold call, notify. intros [H|H]; repeat case_match; simplify_eq/=; set_solver.
Qed.

Lemma step_absent i s evs s' :
  step s evs s' -> i < nextid s -> i ∉ ids (timers s) ->
  i < nextid s' /\ i ∉ ids (timers s') /\ forall ev, ev ∈ evs -> id (event_data ev) <> i.
Proof.
  intros Hst Hi Hn. destruct Hst; try (split_and!; [done| |set_solver]; done).
  - match goal with E : timers_pass _ _ _ = _ |- _ =>
      apply pass_timers in E as (Hts & _ & _ & En & Hs & _) end.
    rewrite Hts, En. split_and!; [done| |].
    + intros Hin. apply Hn. eapply elem_of_sublist; [exact Hin|apply omap_ids].
    + intros ev Hev Eid. apply Hs in Hev as (t & p & Ht & _ & Hf). apply fired_data in Hf.
      apply Hn. unfold ids. apply list_elem_of_fmap. exists t. by rewrite <- Hf.
  - match goal with E : avbox_timer_register _ _ _ _ _ _ _ = _ |- _ =>
      unfold avbox_timer_register, avbox_timers_getnextid, chk_int in E end.
    destruct (acquire mem (timer_pool s)); [|simplify_eq; set_solver].
    destruct (in_s 32 (nextid s + 1)); [|done]. cbn in *. simplify_eq. cbn.
    split_and!; [lia| |set_solver]. rewrite elem_of_cons. intros [?|?]; [lia|done].
  - match goal with E : avbox_timer_cancel _ _ = _ |- _ => unfold avbox_timer_cancel in E end.
    destruct (cancel_first _ (timers s)) as [ts|] eqn:Ec; simplify_eq; [|set_solver].
    apply cancel_first_ids in Ec as (Hsub & _ & _). cbn. split_and!; [done| |set_solver].
    intros Hin. apply Hn. eapply elem_of_sublist; [exact Hin|by apply ids_sublist].
  - split_and!; [done|set_solver..].
Qed.

Lemma run_absent i s evs s' :
  run s evs s' -> i < nextid s -> i ∉ ids (timers s) ->
  i < nextid s' /\ i ∉ ids (timers s') /\ forall ev, ev ∈ evs -> id (event_data ev) <> i.
Proof.
  induction 1 as [|s ev s1 evs s2 Hrun IH Hst]; intros Hi Hn; [set_solver|].
  destruct (IH Hi Hn) as (Hi1 & Hn1 & Hev1).
  destruct (step_absent i _ _ _ Hst Hi1 Hn1) as (Hi2 & Hn2 & Hev2). split_and!; [done|done|].
  intros x Hx. apply elem_of_app in Hx as [Hx|Hx]; auto.
Qed.

Lemma tmin_ns a b : sane_time a -> sane_time b -> sane_time (tmin a b) /\ ns (tmin a b) = Z.min (ns a) (ns b).
Proof.
  intros Ha Hb. unfold tmin. pose proof (timelt_sane b a Hb Ha) as H.
  destruct (timelt b a) eqn:E; (split; [done|]).
  - apply proj1 in H. specialize (H eq_refl). lia.
  - assert (~ ns b < ns a) by (rewrite <- H; congruence). lia.
Qed.

Lemma foldl_tmin sl vs :
  sane_time sl -> Forall sane_time vs ->
  sane_time (foldl tmin sl vs) /\ ns (foldl tmin sl vs) <= ns sl /\
  (forall v, v ∈ vs -> ns (foldl tmin sl vs) <= ns v) /\
  (foldl tmin sl vs = sl \/ foldl tmin sl vs ∈ vs).
Proof.
  revert sl. induction vs as [|v vs IH]; intros sl Hsl Hvs; cbn; [split_and!; [done|lia|set_solver|by left]|].
  apply Forall_cons in Hvs as [Hv Hvs]. destruct (tmin_ns sl v Hsl Hv) as [Hm Em].
  destruct (IH _ Hm Hvs) as (H1 & H2 & H3 & H4). split_and!; [done|lia| |].
  - intros w Hw. apply elem_of_cons in Hw as [->|Hw]; [lia|auto].
  - destruct H4 as [H4|H4]; [|set_solver]. rewrite H4. unfold tmin. destruct (timelt v sl); set_solver.
Qed.

(** When a timer is due, as the thread's state says it. *)
Definition due (s : timers_state) (t : avbox_timer_state) : Z := ns (last_sleep s) + ns (value t).

Lemma due_elapsed s now t :
  inv s -> sane_time now -> ns (last_sleep s) <= ns now -> t ∈ timers s ->
  timelte (value t) (timediff (Some (last_sleep s)) (Some now)) = true <-> due s t <= ns now.
Proof.
  intros Hinv Hn Hle Ht. destruct (pass_elapsed s now) as [He Ee]; [done..|].
  destruct Hinv as (_ & _ & Hok & _). rewrite Forall_forall in Hok.
  rewrite timelte_sane by (try done; by apply Hok). unfold due. lia.
Qed.

(** A timer whose number is gone from the list of kept timers. *)
Lemma removed_absent e elapsed ts t :
  NoDup (ids ts) -> t ∈ ts -> after e elapsed t = None -> id (public t) ∉ ids (omap (after e elapsed) ts).
Proof.
  intros Hnd Ht Ha Hin. apply list_elem_of_fmap in Hin as (t' & Eid & Ht').
  apply list_elem_of_omap in Ht' as (t2 & Ht2 & E2). rewrite (after_public _ _ _ _ E2) in Eid.
  assert (t2 = t); [|congruence].
  apply list_elem_of_lookup in Ht as [a Ha'], Ht2 as [b Hb].
  assert (a = b) as ->; [|congruence].
  eapply (NoDup_lookup (ids ts)); [done|unfold ids; by rewrite list_lookup_fmap, Ha'|].
  unfold ids. rewrite list_lookup_fmap, Hb. cbn. by rewrite Eid.
Qed.

(** ** Properties *)

(** C20. A pass of the timers thread is exact: the callbacks it runs are
    those of the timers that are due, each timer that is not due keeps its
    due time, a due auto-reload timer whose callback wants to continue is due
    again one interval later and every other due timer is removed; the
    thread then sleeps no longer than ten seconds or the earliest remaining
    timer, and no shorter. *)
Theorem timers_pass_exact e now s s' sl evs :
  inv s -> sane_time now -> ns (last_sleep s) <= ns now -> timers_pass e now s = (s', sl, evs) ->
  (forall cb d, Called cb d ∈ evs <->
     exists t, t ∈ timers s /\ due s t <= ns now /\ callback t = Some cb /\ public t = d) /\
  (forall t, t ∈ timers s -> ns now < due s t ->
     exists t', t' ∈ timers s' /\ public t' = public t /\ interval t' = interval t /\ due s' t' = due s t) /\
  (forall t, t ∈ timers s -> due s t <= ns now ->
     if continues e t
     then exists t', t' ∈ timers s' /\ public t' = public t /\ due s' t' = ns now + ns (interval t)
     else id (public t) ∉ ids (timers s')) /\
  ns sl <= ns MAX_SLEEP /\ (forall t', t' ∈ timers s' -> ns now + ns sl <= due s' t') /\
  (sl = MAX_SLEEP \/ exists t', t' ∈ timers s' /\ ns now + ns sl = due s' t').
Proof.
  intros Hinv Hnow Hle E. destruct (pass_elapsed s now) as [He Ee]; [done..|].
  pose proof (fun t => due_elapsed s now t Hinv Hnow Hle) as Hdue.
  pose proof Hinv as (Hnd & _ & Hok & _). rewrite Forall_forall in Hok.
  apply pass_timers in E as (Hts & Hsl & El & _ & Hs & Hc).
  set (el := timediff (Some (last_sleep s)) (Some now)) in *.
  assert (forall t t', t ∈ timers s -> after e el t = Some t' -> t' ∈ timers s') as Hin.
  { intros t t' Ht Ea. rewrite Hts. apply list_elem_of_omap. eauto. }
  assert (Forall sane_time (value <$> timers s')) as Hvs.
  { apply Forall_fmap, Forall_forall. intros t' Ht'. rewrite Hts in Ht'.
    apply list_elem_of_omap in Ht' as (t & Ht & Ea). by destruct (after_ok e el t t' He (Hok _ Ht) Ea) as [[? ?] _]. }
  destruct (foldl_tmin MAX_SLEEP (value <$> timers s')) as (_ & Hm & Hall & Hsome); [done..|].
  rewrite <- Hsl in *. unfold due in *. rewrite El. split_and!; [|..|done| |].
  - intros cb d. split.
    + intros Hev. apply Hs in Hev as (t & p & Ht & Hlt & Hf). exists t.
      unfold call, notify in Hf. split_and!; [done|by apply Hdue|..]; repeat case_match; set_solver.
    + intros (t & Ht & Hd & Hcb & <-). eapply Hc; [done|by apply Hdue|]. unfold call. rewrite Hcb. by left.
  - intros t Ht Hlate. assert (timelte (value t) el = false) as Hlt.
    { apply not_true_iff_false. rewrite Hdue by done. lia. }
    exists (set_value t (timediff (Some el) (Some (value t)))). split_and!; try done.
    + apply (Hin t); [done|]. unfold after. by rewrite Hlt.
    + cbn. destruct (Hok _ Ht) as [_ Hv]. destruct (timediff_sane el (value t)) as [_ ->]; [done..|lia|lia].
  - intros t Ht Hd. apply Hdue in Hd; [|done]. destruct (continues e t) eqn:Hcont.
    + exists (set_value t (interval t)). split_and!; try done.
      apply (Hin t); [done|]. unfold after. by rewrite Hd, Hcont.
    + rewrite Hts. apply removed_absent; [done..|]. unfold after. by rewrite Hd, Hcont.
  - intros t' Ht'. assert (ns sl <= ns (value t')); [|lia]. apply Hall. by apply list_elem_of_fmap_2.
  - destruct Hsome as [?|Hsome]; [by left|right]. apply list_elem_of_fmap in Hsome as (t' & -> & ?). eauto.
Qed.

(** A timer that was cancelled never fires again: timer numbers are
    unique and not reused, so after a successful cancel no later callback
    and no later message, in any run, carries its number. *)
Lemma cancelled_never_fires now evs0 i s s1 evs s2 :
  sane_time now -> run (avbox_timers_init now) evs0 s -> avbox_timer_cancel i s = (0, s1) -> run s1 evs s2 ->
  i ∉ ids (timers s1) /\ forall ev, ev ∈ evs -> id (event_data ev) <> i.
Proof.
  intros Hnow Hr0 Hc Hr. assert (inv s) as Hinv by eauto using run_inv, timers_init_inv.
  destruct Hinv as (Hnd & Hlt & _). unfold avbox_timer_cancel in Hc.
  destruct (cancel_first i (timers s)) as [ts|] eqn:Ec; simplify_eq.
  apply cancel_first_ids in Ec as (_ & Hin & Hn). specialize (Hn Hnd).
  split; [done|]. rewrite Forall_forall in Hlt. apply Hlt in Hin.
  by apply (run_absent i _ _ _ Hr); [cbn; lia|].
Qed.

(** A timer registered while the thread sleeps is charged the whole
    sleep: if the thread went to sleep at least [iv] ago, a timer of interval
    [iv] registered now fires at once. *)
Lemma register_fires_early e mem iv fl obj cb d now s i s1 s2 sl evs :
  inv s -> sane_time iv -> sane_time now -> ns (last_sleep s) + ns iv <= ns now ->
  avbox_timer_register mem iv fl obj (Some cb) d s = Some (inr i, s1) ->
  timers_pass e now s1 = (s2, sl, evs) ->
  Called cb (TimerData i d) ∈ evs.
Proof.
  intros Hinv Hiv Hnow Hle Hreg Hp.
  unfold avbox_timer_register, avbox_timers_getnextid, chk_int in Hreg.
  destruct (acquire mem (timer_pool s)); [|done].
  destruct (in_s 32 (nextid s + 1)); [|done]. cbn in Hreg. simplify_eq.
  destruct Hinv as (_ & _ & _ & Hl & _). destruct Hiv as [Hivn Hivs].
  apply pass_timers in Hp as (_ & _ & _ & _ & _ & Hc).
  eapply Hc; [by left| |by left]. cbn.
  destruct (timediff_sane (last_sleep s) now) as [Hs E]; [done|done| |].
  { unfold ns, normal, NSEC in *. lia. }
  apply timelte_sane; [done|done|]. lia.
Qed.

(** *** Witnesses *)

Definition demo_env : env :=
  Env (fun _ _ => AVBOX_TIMER_CALLBACK_RESULT_CONTINUE) (fun _ => true) (fun _ _ => true).

(** A one-shot timer of 2 s and an auto-reload timer of 5 s, armed at 100 s. *)
Definition demo_state : timers_state :=
  Timers [TimerState (TimerData 2 7) (Timespec 5 0) (Timespec 5 0) 1 None (Some 40);
          TimerState (TimerData 1 7) (Timespec 2 0) (Timespec 2 0) 0 None (Some 41)] false 3 0 0 (Timespec 100 0).

Lemma demo_sane a : 0 <= a < 2 ^ 60 -> sane_time (Timespec a 0).
Proof. intros. unfold sane_time, normal, NSEC. cbn. lia. Qed.

Lemma demo_inv : inv demo_state.
Proof.
  unfold inv, timer_ok. cbn. split_and!; try lia.
  - apply (bool_decide_unpack _). vm_compute. done.
  - repeat constructor; lia.
  - repeat constructor; cbn; unfold NSEC; lia.
  - by apply demo_sane.
Qed.

Lemma timers_pass_exact_witness :
  Called 41 (TimerData 1 7) ∈ (timers_pass demo_env (Timespec 103 0) demo_state).2.
Proof.
  eapply (timers_pass_exact demo_env (Timespec 103 0) demo_state);
    [apply demo_inv|by apply demo_sane|vm_compute; congruence|reflexivity|].
  exists (TimerState (TimerData 1 7) (Timespec 2 0) (Timespec 2 0) 0 None (Some 41)).
  split_and!; [by right; left|vm_compute; congruence|reflexivity|reflexivity].
Defined.

Lemma register_fires_early_witness :
  Called 9 (TimerData 1 0) ∈
    (timers_pass demo_env (Timespec 108 0)
       (Timers [TimerState (TimerData 1 0) (Timespec 5 0) (Timespec 5 0) 0 None (Some 9)] false 2 0 0
          (Timespec 100 0))).2.
Proof.
  apply (register_fires_early demo_env true (Timespec 5 0) 0 None 9 0 (Timespec 108 0)
    (avbox_timers_init (Timespec 100 0)) 1 _ _ _ _
    (timers_init_inv _ (demo_sane 100 ltac:(lia))) (demo_sane 5 ltac:(lia)) (demo_sane 108 ltac:(lia))
    ltac:(vm_compute; congruence) eq_refl eq_refl).
Defined.

Definition demo_one : timers_state :=
  Timers [TimerState (TimerData 1 0) (Timespec 5 0) (Timespec 5 0) 0 None None] false 2 0 0 (Timespec 0 0).

Lemma demo_one_run : run (avbox_timers_init (Timespec 0 0)) [] demo_one.
Proof.
  change (@nil event) with ([] ++ @nil event). eapply run_step; [apply run_nil|].
  eapply (StepRegister true (Timespec 5 0) 0 None None 0); [by apply demo_sane|reflexivity].
Qed.

Lemma cancelled_never_fires_witness :
  avbox_timer_cancel 1 demo_one = (0, Timers [] false 2 1 0 (Timespec 0 0)) /\ 1 ∉ ids [].
Proof.
  split; [reflexivity|].
  apply (cancelled_never_fires (Timespec 0 0) [] 1 demo_one (Timers [] false 2 1 0 (Timespec 0 0)) [] _
    (demo_sane 0 ltac:(lia)) demo_one_run eq_refl (run_nil _)).
Defined.
