(* ===== verification/Dispatch.v ===== *)
(** * Message dispatch and the life of objects (src/lib/dispatch.c)

    Objects with reference counts, messages that hold references to their
    destinations, and the protocol that destroys an object through DESTROY
    and CLEANUP messages.  Objects live in a heap ([objects]); a lookup that
    fails is an access to freed memory, and an operation that makes one is
    [None].  The queues of all threads are one list in the order of the
    puts: a thread takes the first message that is in its own queue (each
    queue is a FIFO, see [Queue]).  Handlers are user code: what a handler
    returns and which messages it sends is an argument, and so are the
    answers of [malloc], [avbox_queue_put] and [avbox_timer_register].  The
    counter of an object is tested some time after it was decremented: the
    tests still to be made are part of a run ([tstep], [overlap]). *)

From S2P Require Import Prelude.

(** ** Data *)

Definition AVBOX_DISPATCH_UNICAST : Z := 0.
Definition AVBOX_DISPATCH_BROADCAST : Z := 1.
Definition AVBOX_DISPATCH_MULTICAST : Z := 2.
Definition AVBOX_DISPATCH_ANYCAST : Z := 4.

Definition AVBOX_MESSAGETYPE_TIMER : Z := 2.
Definition AVBOX_MESSAGETYPE_DESTROY : Z := 12.
Definition AVBOX_MESSAGETYPE_CLEANUP : Z := 13.

Definition AVBOX_DISPATCH_OK : Z := 0.
Definition AVBOX_DISPATCH_CONTINUE : Z := 1.

(** [refs] does not wrap in the model: it counts references of which each
    occupies a pointer, so the 32-bit counter cannot overflow in practice.
    [owned] and [ext] are ghosts: whether the reference of
    [avbox_object_new] is still held, and how many references users took
    with [avbox_object_ref]. *)
Record avbox_object := Obj {
  refs : Z;
  destroyed : bool;
  destroy_timer_id : Z;
  oq : Z;
  owned : bool;
  ext : Z;
}.

(** [dest] of a message: one object (must_free_dest = 0) or an array. *)
Inductive msgdest := One (o : Z) | Many (os : list Z).

(** The payload of a TIMER message stands for the timer's number. *)
Record avbox_message := Msg {
  mid : Z;
  flags : Z;
  dest : msgdest;
  payload : Z;
}.

Inductive event :=
  | Handled (o : Z) (mid : Z) (ret : Z)
  | Freed (o : Z).

(** [pending] are the armed destructor timers (number and object); [dying]
    is a ghost: the objects [avbox_object_destroy] was called on. *)
Record world := World {
  objects : gmap Z avbox_object;
  queued : list (Z * avbox_message);
  tids : gset Z;
  message_pool : nat;
  pending : list (Z * Z);
  nexttimer : Z;
  dying : gset Z;
  trace : list event;
}.

(** Answers of [malloc] (message, destination array) and of
    [avbox_queue_put] for one call of [avbox_object_sendmsg]. *)
Record mem := Mem { msg_mem : bool; dup_mem : bool; put_ok : bool }.

(** A message a handler sends: destinations, id, cast, payload. *)
Record send := Send { to : msgdest; sid : Z; sflags : Z; spayload : Z; smem : mem }.

(** What one invocation of a handler does. *)
Record answer := Answer {
  ret : Z;
  sends : list send;
  own_mem : mem;       (* for the message the dispatcher itself sends *)
  timer_ok : bool;     (* avbox_timer_register succeeds *)
}.

Definition set_objects (w : world) (os : gmap Z avbox_object) : world :=
  World os (queued w) (tids w) (message_pool w) (pending w) (nexttimer w) (dying w) (trace w).
Definition set_queued (w : world) (q : list (Z * avbox_message)) : world :=
  World (objects w) q (tids w) (message_pool w) (pending w) (nexttimer w) (dying w) (trace w).
Definition set_pool (w : world) (n : nat) : world :=
  World (objects w) (queued w) (tids w) n (pending w) (nexttimer w) (dying w) (trace w).
Definition emit (w : world) (e : event) : world :=
  World (objects w) (queued w) (tids w) (message_pool w) (pending w) (nexttimer w) (dying w) (trace w ++ [e]).

Definition with_refs (ob : avbox_object) (r : Z) : avbox_object :=
  Obj r (destroyed ob) (destroy_timer_id ob) (oq ob) (owned ob) (ext ob).
Definition with_destroyed (ob : avbox_object) : avbox_object :=
  Obj (refs ob) true (destroy_timer_id ob) (oq ob) (owned ob) (ext ob).
Definition with_timer (ob : avbox_object) (t : Z) : avbox_object :=
  Obj (refs ob) (destroyed ob) t (oq ob) (owned ob) (ext ob).

(** ** Messages and references *)

Definition acquire_message (ok : bool) (w : world) : option world :=
  match message_pool w with
  | S n => Some (set_pool w n)
  | O => if ok then Some w else None
  end.

Definition release_message (w : world) : world := set_pool w (S (message_pool w)).

Definition avbox_object_ref (w : world) (o : Z) : option world :=
  ob ← objects w !! o;
  Some (set_objects w (<[o := with_refs ob (refs ob + 1)]> (objects w))).

(** [avbox_object_unref] decrements, then tests the counter again. *)
Definition unref_dec (w : world) (o : Z) : option world :=
  ob ← objects w !! o;
  Some (set_objects w (<[o := with_refs ob (refs ob - 1)]> (objects w))).

Definition unref_check (w : world) (o : Z) : option world :=
  ob ← objects w !! o;
  Some (if refs ob =? 0 then emit (set_objects w (delete o (objects w))) (Freed o) else w).

Definition avbox_object_unref (w : world) (o : Z) : option world :=
  w ← unref_dec w o; unref_check w o.

Fixpoint unref_all (w : world) (os : list Z) : option world :=
  match os with
  | [] => Some w
  | o :: os => w ← avbox_object_unref w o; unref_all w os
  end.

Definition avbox_dispatch_freemsg (w : world) (m : avbox_message) : option world :=
  w ← match dest m with
      | One o => avbox_object_unref w o
      | Many os => unref_all w os
      end;
  Some (release_message w).

Fixpoint ref_all (w : world) (os : list Z) : option world :=
  match os with
  | [] => Some w
  | o :: os => w ← avbox_object_ref w o; ref_all w os
  end.

(** [avbox_dispatch_destdup]: the array is copied, each object referenced;
    [inl ENOMEM] when the copy cannot be allocated. *)
Definition avbox_dispatch_destdup (w : world) (os : list Z) (ok : bool) : option (result world) :=
  if ok then w ← ref_all w os; Some (inr w) else Some (inl ENOMEM).

Definition cast_of (fl : Z) : Z :=
  Z.land fl (Z.lor (Z.lor (Z.lor AVBOX_DISPATCH_UNICAST AVBOX_DISPATCH_ANYCAST) AVBOX_DISPATCH_MULTICAST)
               AVBOX_DISPATCH_BROADCAST).

(** The queue of a thread exists until the thread shuts it down. *)
Definition put (w : world) (t : Z) (m : avbox_message) : option world :=
  if bool_decide (t ∈ tids w) then Some (set_queued w (queued w ++ [(t, m)])) else None.

(** [avbox_object_sendmsg]: the result says whether a message was sent. *)
Definition avbox_object_sendmsg (w : world) (d : msgdest) (id fl payload : Z) (a : mem) :
    option (bool * world) :=
  match acquire_message (msg_mem a) w with
  | None => Some (false, w)
  | Some w =>
      match d with
      | One o =>
          if cast_of fl =? AVBOX_DISPATCH_UNICAST then
            w ← avbox_object_ref w o;
            ob ← objects w !! o;
            let m := Msg id fl (One o) payload in
            if put_ok a then w ← put w (oq ob) m; Some (true, w)
            else w ← avbox_dispatch_freemsg w m; Some (false, w)
          else None
      | Many os =>
          if (cast_of fl =? AVBOX_DISPATCH_ANYCAST) || (cast_of fl =? AVBOX_DISPATCH_MULTICAST) then
            r ← avbox_dispatch_destdup w os (dup_mem a);
            match r with
            | inl _ => Some (false, release_message w)
            | inr w =>
                o ← head os;
                ob ← objects w !! o;
                let m := Msg id fl (Many os) payload in
                if put_ok a then w ← put w (oq ob) m; Some (true, w)
                else w ← avbox_dispatch_freemsg w m; Some (false, w)
            end
          else None
      end
  end.

(** ** Handlers *)

Fixpoint run_sends (w : world) (ss : list send) : option world :=
  match ss with
  | [] => Some w
  | s :: ss =>
      '(_, w) ← avbox_object_sendmsg w (to s) (sid s) (sflags s) (spayload s) (smem s);
      run_sends w ss
  end.

(** [object->handler(object->context, msg)] *)
Definition user_handler (w : world) (o : Z) (m : avbox_message) (a : answer) : option (Z * world) :=
  _ ← objects w !! o;
  w ← run_sends w (sends a);
  Some (ret a, emit w (Handled o (mid m) (ret a))).

Definition send_own (w : world) (o id : Z) (a : answer) : option world :=
  '(_, w) ← avbox_object_sendmsg w (One o) id AVBOX_DISPATCH_UNICAST 0 (own_mem a);
  Some w.

Definition update_object (w : world) (o : Z) (f : avbox_object -> avbox_object) : option world :=
  ob ← objects w !! o; Some (set_objects w (<[o := f ob]> (objects w))).

(** [avbox_timer_register] for the destructor timer. *)
Definition arm_timer (w : world) (o : Z) : world :=
  World (objects w) (queued w) (tids w) (message_pool w) (pending w ++ [(nexttimer w, o)])
    (nexttimer w + 1) (dying w) (trace w).

Definition drop_owner (ob : avbox_object) : avbox_object :=
  Obj (refs ob) (destroyed ob) (destroy_timer_id ob) (oq ob) false (ext ob).

Definition avbox_object_handler (w : world) (o : Z) (m : avbox_message) (a : answer) :
    option (Z * world) :=
  ob ← objects w !! o;
  if mid m =? AVBOX_MESSAGETYPE_TIMER then
    if payload m =? destroy_timer_id ob then
      w ← send_own w o AVBOX_MESSAGETYPE_DESTROY a;
      w ← update_object w o (fun ob => with_timer ob (-1));
      Some (AVBOX_DISPATCH_OK, w)
    else user_handler w o m a
  else if mid m =? AVBOX_MESSAGETYPE_DESTROY then
    '(r, w) ← user_handler w o m a;
    if r =? AVBOX_DISPATCH_OK then
      w ← update_object w o with_destroyed;
      w ← send_own w o AVBOX_MESSAGETYPE_CLEANUP a;
      Some (AVBOX_DISPATCH_OK, w)
    else if timer_ok a then
      let t := nexttimer w in
      w ← update_object (arm_timer w o) o (fun ob => with_timer ob t);
      Some (AVBOX_DISPATCH_OK, w)
    else
      w ← update_object w o (fun ob => with_timer ob (-1));
      w ← send_own w o AVBOX_MESSAGETYPE_DESTROY a;
      Some (AVBOX_DISPATCH_OK, w)
  else if mid m =? AVBOX_MESSAGETYPE_CLEANUP then
    '(_, w) ← user_handler w o m a;
    w ← update_object w o drop_owner;
    w ← avbox_object_unref w o;
    Some (AVBOX_DISPATCH_OK, w)
  else user_handler w o m a.

(** Delivery to one destination: a destroyed object only gets CLEANUP.
    After the handler the object's lock is released, so the object is
    accessed once more. *)
Definition deliver (w : world) (o : Z) (m : avbox_message) (a : answer) : option (option Z * world) :=
  ob ← objects w !! o;
  if negb (destroyed ob) || (mid m =? AVBOX_MESSAGETYPE_CLEANUP) then
    '(r, w) ← avbox_object_handler w o m a;
    _ ← objects w !! o;
    Some (Some r, w)
  else Some (None, w).

Fixpoint anycast (w : world) (os : list Z) (m : avbox_message) (env : nat -> answer) : option world :=
  match os with
  | [] => Some w
  | o :: os =>
      '(r, w) ← deliver w o m (env O);
      if bool_decide (r = Some AVBOX_DISPATCH_OK) then Some w
      else anycast w os m (fun i => env (S i))
  end.

Fixpoint multicast (w : world) (os : list Z) (m : avbox_message) (env : nat -> answer) : option world :=
  match os with
  | [] => Some w
  | o :: os =>
      '(_, w) ← deliver w o m (env O);
      multicast w os m (fun i => env (S i))
  end.

(** [avbox_message_dispatch]; [env i] is what the [i]-th handler does. *)
Definition avbox_message_dispatch (w : world) (m : avbox_message) (env : nat -> answer) : option world :=
  let cast := cast_of (flags m) in
  w ← match dest m with
      | One o =>
          if cast =? AVBOX_DISPATCH_UNICAST
          then '(_, w) ← deliver w o m (env O); Some w
          else None
      | Many os =>
          if cast =? AVBOX_DISPATCH_ANYCAST then anycast w os m env
          else if cast =? AVBOX_DISPATCH_MULTICAST then multicast w os m env
          else None
      end;
  avbox_dispatch_freemsg w m.

(** A thread takes the first message of its queue. *)
Fixpoint take_first (t : Z) (q : list (Z * avbox_message)) :
    option (avbox_message * list (Z * avbox_message)) :=
  match q with
  | [] => None
  | (t', m) :: q =>
      if t' =? t then Some (m, q)
      else '(m', q) ← take_first t q; Some (m', (t', m) :: q)
  end.

(** ** Objects and queues *)

Definition avbox_dispatch_getqueue (w : world) (t : Z) : result Z :=
  if bool_decide (t ∈ tids w) then inr t else inl ENOENT.

(** [avbox_object_new] on thread [t]; [o] is the address [malloc] returns
    ([None] when it fails). *)
Definition avbox_object_new (w : world) (t : Z) (o : option Z) : result Z * world :=
  match avbox_dispatch_getqueue w t with
  | inl e => (inl e, w)
  | inr q =>
      match o with
      | None => (inl ENOMEM, w)
      | Some o =>
          (inr o, World (<[o := Obj 1 false (-1) q true 0]> (objects w)) (queued w) (tids w)
                    (message_pool w) (pending w) (nexttimer w) (dying w ∖ {[o]}) (trace w))
      end
  end.

Definition mark_dying (w : world) (o : Z) : world :=
  World (objects w) (queued w) (tids w) (message_pool w) (pending w) (nexttimer w)
    ({[o]} ∪ dying w) (trace w).

Definition avbox_object_destroy (w : world) (o : Z) (a : mem) : option world :=
  '(_, w) ← avbox_object_sendmsg (mark_dying w o) (One o) AVBOX_MESSAGETYPE_DESTROY AVBOX_DISPATCH_UNICAST 0 a;
  Some w.

Definition AVBOX_MESSAGE_POOL_SIZE : nat := 10.

(** [avbox_dispatch_init]: the queue, and a primed message pool. *)
Definition avbox_dispatch_init (w : world) (t : Z) (mem_q : errno + unit) : result unit * world :=
  if bool_decide (t ∈ tids w) then (inl EALREADY, w)
  else match mem_q with
       | inl e => (inl e, w)
       | inr _ =>
           (inr tt, World (objects w) (queued w) ({[t]} ∪ tids w)
                      (Nat.max (message_pool w) AVBOX_MESSAGE_POOL_SIZE)
                      (pending w) (nexttimer w) (dying w) (trace w))
       end.

(** [avbox_dispatch_shutdown]: flush the thread's queue, remove it, free
    the message pool. *)
Fixpoint flush (w : world) (t : Z) (q : list (Z * avbox_message)) : option world :=
  match q with
  | [] => Some w
  | (t', m) :: q =>
      if t' =? t then w ← avbox_dispatch_freemsg w m; flush w t q
      else flush w t q
  end.

Definition avbox_dispatch_shutdown (w : world) (t : Z) : option world :=
  if bool_decide (t ∈ tids w) then
    let q := queued w in
    w ← flush (set_queued w (filter (fun p => p.1 <> t) q)) t q;
    Some (World (objects w) (queued w) (tids w ∖ {[t]}) O (pending w) (nexttimer w) (dying w) (trace w))
  else None.

(** ** Steps

    Any thread may create objects, send messages to objects that exist,
    take and drop references, destroy an object it has not destroyed yet,
    or dispatch the next message of its queue; timers fire at any time.
    Users do not send the message types of the destruction protocol. *)

Definition targets (m : avbox_message) : list Z := match dest m with One o => [o] | Many os => os end.
Definition dest_list (d : msgdest) : list Z := match d with One o => [o] | Many os => os end.

Definition is_token (id : Z) : bool :=
  (id =? AVBOX_MESSAGETYPE_TIMER) || (id =? AVBOX_MESSAGETYPE_DESTROY) || (id =? AVBOX_MESSAGETYPE_CLEANUP).

Definition cast_ok (d : msgdest) (fl : Z) : bool :=
  match d with
  | One _ => cast_of fl =? AVBOX_DISPATCH_UNICAST
  | Many os =>
      ((cast_of fl =? AVBOX_DISPATCH_ANYCAST) || (cast_of fl =? AVBOX_DISPATCH_MULTICAST)) &&
      bool_decide (os <> [])
  end.

Definition user_send (w : world) (s : send) : Prop :=
  is_token (sid s) = false /\ cast_ok (to s) (sflags s) = true /\
  forall o, o ∈ dest_list (to s) -> is_Some (objects w !! o).

Definition user_ref (w : world) (o : Z) : option world :=
  w ← avbox_object_ref w o;
  update_object w o (fun ob => Obj (refs ob) (destroyed ob) (destroy_timer_id ob) (oq ob) (owned ob) (ext ob + 1)).

Definition user_unref (w : world) (o : Z) : option world :=
  w ← update_object w o
        (fun ob => Obj (refs ob) (destroyed ob) (destroy_timer_id ob) (oq ob) (owned ob) (ext ob - 1));
  avbox_object_unref w o.

(** A destructor timer fires: a TIMER message to its object. *)
Definition fire_timer (w : world) (t o : Z) (rest : list (Z * Z)) (a : mem) : option world :=
  '(_, w) ← avbox_object_sendmsg
              (World (objects w) (queued w) (tids w) (message_pool w) rest (nexttimer w) (dying w) (trace w))
              (One o) AVBOX_MESSAGETYPE_TIMER AVBOX_DISPATCH_UNICAST t a;
  Some w.

Inductive step : world -> world -> Prop :=
  | StepInit w t w' : avbox_dispatch_init w t (inr tt) = (inr tt, w') -> step w w'
  | StepNew w t o w' :
      objects w !! o = None -> avbox_object_new w t (Some o) = (inr o, w') -> step w w'
  | StepSend w s b w' :
      user_send w s ->
      avbox_object_sendmsg w (to s) (sid s) (sflags s) (spayload s) (smem s) = Some (b, w') -> step w w'
  | StepDestroy w o a w' :
      is_Some (objects w !! o) -> o ∉ dying w -> avbox_object_destroy w o a = Some w' -> step w w'
  | StepRef w o w' : user_ref w o = Some w' -> step w w'
  | StepUnref w o ob w' : objects w !! o = Some ob -> 0 < ext ob -> user_unref w o = Some w' -> step w w'
  | StepDispatch w t m q env w' :
      take_first t (queued w) = Some (m, q) -> (forall i, Forall (user_send w) (sends (env i))) ->
      avbox_message_dispatch (set_queued w q) m env = Some w' -> step w w'
  | StepFire w l1 t o l2 a w' :
      pending w = l1 ++ (t, o) :: l2 -> fire_timer w t o (l1 ++ l2) a = Some w' -> step w w'.

Definition start : world := World ∅ [] ∅ 0 [] 1 ∅ [].

(** ** Invariant *)

Fixpoint cnt (o : Z) (l : list Z) : Z :=
  match l with [] => 0 | x :: l => (if x =? o then 1 else 0) + cnt o l end.

(** References to [o] held by messages in the queues. *)
Definition held (o : Z) (q : list (Z * avbox_message)) : Z := cnt o (mjoin ((fun p => targets p.2) <$> q)).

(** Steps of the destruction protocol of [o] that are under way: its
    DESTROY, TIMER and CLEANUP messages and its armed timers. *)
Definition msg_tokens (q : list (Z * avbox_message)) : list Z :=
  mjoin ((fun p => if is_token (mid p.2) then targets p.2 else []) <$> q).
Definition tokens (w : world) (o : Z) : Z := cnt o (msg_tokens (queued w)) + cnt o (pending w).*2.

Definition cleanups (o : Z) (q : list (Z * avbox_message)) : Z :=
  cnt o (mjoin ((fun p => if mid p.2 =? AVBOX_MESSAGETYPE_CLEANUP then targets p.2 else []) <$> q)).

Definition own (ob : avbox_object) : Z := if owned ob then 1 else 0.

(** [xr] are references held by a message being dispatched, [xt] the
    objects whose protocol step it is. *)
Definition obj_inv (w : world) (xr xt : list Z) (o : Z) (ob : avbox_object) : Prop :=
  refs ob = own ob + ext ob + held o (queued w) + cnt o xr /\ 0 <= ext ob /\ 0 < refs ob /\
  oq ob ∈ tids w /\ tokens w o + cnt o xt <= 1 /\
  (0 < tokens w o + cnt o xt -> owned ob = true /\ o ∈ dying w) /\
  (owned ob = false -> destroyed ob = true /\ o ∈ dying w) /\ (0 < cleanups o (queued w) -> destroyed ob = true).

Definition msg_ok (m : avbox_message) : Prop :=
  cast_ok (dest m) (flags m) = true /\ (is_token (mid m) = true -> exists o, dest m = One o).

Definition inv (w : world) (xr xt : list Z) : Prop :=
  (forall o ob, objects w !! o = Some ob -> obj_inv w xr xt o ob) /\
  (forall o, objects w !! o = None ->
     held o (queued w) = 0 /\ cnt o xr = 0 /\ tokens w o = 0 /\ cnt o xt = 0) /\
  Forall (fun p => msg_ok p.2) (queued w).

#[local] Arguments held : simpl never.
#[local] Arguments cleanups : simpl never.
#[local] Arguments tokens : simpl never.
#[local] Arguments msg_tokens : simpl never.

Lemma cnt_app o l k : cnt o (l ++ k) = cnt o l + cnt o k.
Proof. induction l; cbn; lia. Qed.

Lemma cnt_nonneg o l : 0 <= cnt o l.
Proof. induction l; cbn; [lia|]. case_match; lia. Qed.

Lemma cnt_pos o l : o ∈ l -> 0 < cnt o l.
Proof.
  induction l as [|x l IH]; intros H; [set_solver|]. cbn. pose proof (cnt_nonneg o l).
  apply elem_of_cons in H as [->|H]; [rewrite Z.eqb_refl; lia|]. specialize (IH H). case_match; lia.
Qed.

Lemma cnt_zero o l : cnt o l = 0 -> o ∉ l.
Proof. intros H Hin. apply cnt_pos in Hin. lia. Qed.

Lemma held_app o q k : held o (q ++ k) = held o q + held o k.
Proof. unfold held. by rewrite fmap_app, join_app, cnt_app. Qed.

Lemma held_one o t m : held o [(t, m)] = cnt o (targets m).
Proof. unfold held. cbn. by rewrite app_nil_r. Qed.

Lemma msg_tokens_app q k : msg_tokens (q ++ k) = msg_tokens q ++ msg_tokens k.
Proof. unfold msg_tokens. by rewrite fmap_app, join_app. Qed.

Lemma cleanups_app o q k : cleanups o (q ++ k) = cleanups o q + cleanups o k.
Proof. unfold cleanups. by rewrite fmap_app, join_app, cnt_app. Qed.

Lemma cleanups_nonneg o q : 0 <= cleanups o q.
Proof. apply cnt_nonneg. Qed.

Lemma cleanups_held o q : cleanups o q <= held o q.
Proof.
  induction q as [|[t m] q IH]; [done|]. change ((t, m) :: q) with ([(t, m)] ++ q).
  rewrite cleanups_app, held_app, held_one. pose proof (cnt_nonneg o (targets m)).
  assert (cleanups o [(t, m)] <= cnt o (targets m)); [|lia].
  unfold cleanups. cbn. rewrite app_nil_r. destruct (mid m =? _); cbn; lia.
Qed.

#[export] Hint Rewrite cnt_app held_app held_one msg_tokens_app cleanups_app : avbox_int.

(** ** Lemmas *)

(** The part of the state that sending messages leaves alone. *)
Definition flags_of (w : world) : gmap Z avbox_object := (fun ob => with_refs ob 0) <$> objects w.

Definition same (w w' : world) : Prop :=
  flags_of w' = flags_of w /\ tids w' = tids w /\ pending w' = pending w /\
  nexttimer w' = nexttimer w /\ dying w' = dying w.

#[export] Instance same_preorder : PreOrder same.
Proof. split; [by intros w|]. unfold same. intros ? ? ? ? ?. naive_solver congruence. Qed.

Lemma same_lookup w w' o : same w w' -> is_Some (objects w !! o) <-> is_Some (objects w' !! o).
Proof.
  intros [Hf _]. apply (f_equal (lookup o)) in Hf. unfold flags_of in Hf. rewrite !lookup_fmap in Hf.
  destruct (objects w !! o), (objects w' !! o); cbn in Hf; split; intros [? ?]; eauto; congruence.
Qed.

Lemma same_fields w w' o ob ob' :
  same w w' -> objects w !! o = Some ob -> objects w' !! o = Some ob' -> ob' = with_refs ob (refs ob').
Proof.
  intros [Hf _] H H'. apply (f_equal (lookup o)) in Hf. unfold flags_of in Hf.
  rewrite !lookup_fmap, H, H' in Hf. cbn in Hf. unfold with_refs in *. destruct ob, ob'. naive_solver.
Qed.

Lemma inv_alive w xr xt o : inv w xr xt -> o ∈ xr -> is_Some (objects w !! o).
Proof.
  intros (_ & Hn & _) Ho. destruct (objects w !! o) eqn:E; [eauto|].
  destruct (Hn o E) as (_ & Hc & _). apply cnt_zero in Hc. done.
Qed.

(** Rebuild an object's invariant from [H], its invariant before. *)
Ltac obj_split H :=
  destruct H as (Hr & Hext & Hpos & Hq & Htok & Htok2 & Hof & Hcl);
  split_and!; try done; try lia; try (intros Hp; apply Htok2; lia); try (intros Hp; apply Hcl; lia).

Lemma inv_drop w xr l xt : inv w xr (l ++ xt) -> inv w xr xt.
Proof.
  intros (Ho & Hn & Hm). split_and!; [|intros o E; specialize (Hn o E)|done].
  - intros o ob E. specialize (Ho o ob E). pose proof (cnt_nonneg o l). unfold obj_inv in *.
    rewrite cnt_app in Ho. obj_split Ho.
  - rewrite cnt_app in *. pose proof (cnt_nonneg o l). pose proof (cnt_nonneg o xt). intuition lia.
Qed.

Lemma tokens_objects w os o : tokens (set_objects w os) o = tokens w o.
Proof. done. Qed.

(** Changing the counter of one object together with the references that
    are held outside of the queues. *)
Lemma inv_refs w xr xr' xt o ob r :
  inv w xr xt -> objects w !! o = Some ob ->
  (forall o', cnt o' xr' = cnt o' xr + (if o' =? o then r - refs ob else 0)) -> 0 < r ->
  inv (set_objects w (<[o := with_refs ob r]> (objects w))) xr' xt.
Proof.
  intros (Ho & Hn & Hm) E Hc Hr0. split_and!; [| |done].
  - intros o' ob'. cbn. rewrite lookup_insert_Some. intros [[<- <-]|[Hne E']].
    + specialize (Ho o ob E). specialize (Hc o). rewrite Z.eqb_refl in Hc. unfold obj_inv in *.
      rewrite tokens_objects. unfold own in *. cbn in *. obj_split Ho.
    + specialize (Ho o' ob' E'). specialize (Hc o'). unfold obj_inv in *.
      rewrite tokens_objects. cbn in *. destruct (o' =? o) eqn:Eo; [zify_bool; congruence|]. obj_split Ho.
  - intros o'. cbn. rewrite lookup_insert_None. intros [E' Hne]. specialize (Hn o' E'). specialize (Hc o').
    rewrite tokens_objects. cbn in *. destruct (o' =? o) eqn:Eo; [zify_bool; congruence|]. intuition lia.
Qed.

Lemma same_refs w o ob r : objects w !! o = Some ob ->
  same w (set_objects w (<[o := with_refs ob r]> (objects w))).
Proof.
  intros E. split_and!; try done. unfold flags_of. cbn. rewrite fmap_insert. apply insert_id.
  rewrite lookup_fmap, E. done.
Qed.

Lemma ref_inv w xr xt o :
  inv w xr xt -> is_Some (objects w !! o) ->
  exists w', avbox_object_ref w o = Some w' /\ inv w' (o :: xr) xt /\ same w w' /\ queued w' = queued w.
Proof.
  intros Hinv [ob E]. unfold avbox_object_ref. rewrite E. cbn. eexists. split; [done|].
  pose proof Hinv as (Ho & _). destruct (Ho o ob E) as (_ & _ & ? & _). split_and!; [|by apply same_refs|done].
  eapply inv_refs; [done|done| |lia]. intros o'. cbn. rewrite (Z.eqb_sym o o'). case_match; lia.
Qed.

Lemma unref_inv w xr xt o :
  inv w (o :: xr) xt ->
  exists w', avbox_object_unref w o = Some w' /\ inv w' xr xt /\
    tids w' = tids w /\ pending w' = pending w /\ dying w' = dying w /\ queued w' = queued w /\
    (forall ob, objects w !! o = Some ob -> 1 < refs ob -> same w w').
Proof.
  intros Hinv. destruct (inv_alive w (o :: xr) xt o Hinv) as [ob E]; [by left|].
  pose proof Hinv as (Ho & Hn & Hm). pose proof (Ho o ob E) as Hob.
  unfold avbox_object_unref, unref_dec, unref_check. rewrite E. cbn. rewrite lookup_insert_eq. cbn.
  assert (forall o', cnt o' (o :: xr) = (if o' =? o then 1 else 0) + cnt o' xr) as Hcnt.
  { intros o'. cbn. by rewrite (Z.eqb_sym o o'). }
  destruct (refs ob - 1 =? 0) eqn:Hz; zify_bool.
  - eexists. split; [done|]. rewrite delete_insert_eq. split_and!; try done; [|intros; simplify_eq; lia].
    assert (own ob + ext ob + held o (queued w) + cnt o xr = 0 /\ 0 <= own ob) as [Hsum Hown].
    { destruct Hob as (Hr & _). rewrite Hcnt, Z.eqb_refl in Hr. unfold own in *. split; [lia|case_match; lia]. }
    pose proof (cnt_nonneg o xr). assert (0 <= held o (queued w)) by apply cnt_nonneg.
    split_and!; [| |done].
    + intros o' ob'. cbn. rewrite lookup_delete_Some. intros [Hne E']. specialize (Ho o' ob' E').
      unfold obj_inv in *. change (tokens (emit _ _) o') with (tokens w o'). cbn in *. destruct (o =? o') eqn:Eo; [zify_bool; congruence|]. obj_split Ho.
    + intros o'. cbn. rewrite lookup_delete_None. intros [<-|E'].
      * destruct Hob as (_ & Hext & _ & _ & _ & Htok & _).
        assert (owned ob = false) as Hof by (unfold own in *; destruct (owned ob); [lia|done]).
        assert (tokens w o + cnt o xt <= 0).
        { destruct (decide (0 < tokens w o + cnt o xt)) as [Hp|]; [|lia]. destruct (Htok Hp). congruence. }
        pose proof (cnt_nonneg o xt). assert (0 <= tokens w o).
        { unfold tokens. pose proof (cnt_nonneg o (msg_tokens (queued w))). pose proof (cnt_nonneg o (pending w).*2). lia. }
        change (tokens (emit _ _) o) with (tokens w o). split_and!; lia.
      * specialize (Hn o' E'). rewrite Hcnt in Hn. change (tokens (emit _ _) o') with (tokens w o').
        pose proof (cnt_nonneg o' xr). destruct (o' =? o); intuition lia.
  - eexists. split; [done|]. split_and!; try done; [|intros; by apply same_refs].
    eapply inv_refs; [done|done| |destruct Hob; lia]. intros o'. rewrite Hcnt. case_match; lia.
Qed.

Lemma inv_pool w n xr xt : inv w xr xt -> inv (set_pool w n) xr xt.
Proof. done. Qed.

Lemma ref_all_inv w xr xt os :
  inv w xr xt -> (forall o, o ∈ os -> is_Some (objects w !! o)) ->
  exists w', ref_all w os = Some w' /\ inv w' (os ++ xr) xt /\ same w w' /\ queued w' = queued w.
Proof.
  revert w xr. induction os as [|o os IH]; intros w xr Hinv Hal; [by exists w|].
  destruct (ref_inv w xr xt o Hinv) as (w1 & E1 & H1 & S1 & Q1); [apply Hal; by left|].
  destruct (IH w1 (o :: xr) H1) as (w2 & E2 & H2 & S2 & Q2).
  { intros o' Ho'. apply (same_lookup w w1); [done|]. apply Hal. by right. }
  exists w2. cbn. rewrite E1. cbn. split_and!; [done| |by etrans|congruence].
  destruct H2 as (Ho & Hn & Hm). split_and!; [| |done].
  - intros o' ob' E'. specialize (Ho o' ob' E'). unfold obj_inv in *. rewrite cnt_app in *. cbn in *.
    rewrite cnt_app. obj_split Ho.
  - intros o' E'. specialize (Hn o' E'). rewrite cnt_app in *. cbn in *. rewrite cnt_app. intuition lia.
Qed.

Lemma unref_all_inv w xr xt os :
  inv w (os ++ xr) xt ->
  exists w', unref_all w os = Some w' /\ inv w' xr xt /\
    tids w' = tids w /\ pending w' = pending w /\ dying w' = dying w /\ queued w' = queued w.
Proof.
  revert w. induction os as [|o os IH]; intros w Hinv; [by exists w|].
  destruct (unref_inv w (os ++ xr) xt o Hinv) as (w1 & E1 & H1 & T1 & P1 & D1 & Q1 & _).
  destruct (IH w1 H1) as (w2 & E2 & H2 & T2 & P2 & D2 & Q2).
  exists w2. cbn. rewrite E1. cbn. split_and!; try done; congruence.
Qed.

Lemma freemsg_inv w xr xt m :
  inv w (targets m ++ xr) xt ->
  exists w', avbox_dispatch_freemsg w m = Some w' /\ inv w' xr xt /\
    tids w' = tids w /\ pending w' = pending w /\ dying w' = dying w /\ queued w' = queued w.
Proof.
  intros Hinv. unfold avbox_dispatch_freemsg, targets in *. destruct (dest m) as [o|os].
  - destruct (unref_inv w xr xt o Hinv) as (w1 & E1 & ? & ? & ? & ? & ? & _). rewrite E1. cbn.
    eexists. split; [done|]. by split_and!.
  - destruct (unref_all_inv w xr xt os Hinv) as (w1 & E1 & ? & ? & ? & ? & ?). rewrite E1. cbn.
    eexists. split; [done|]. by split_and!.
Qed.

(** A message that goes into a queue takes its references and its place in
    the destruction protocol with it. *)
Definition token_of (m : avbox_message) : list Z := if is_token (mid m) then targets m else [].

Lemma put_inv w t m xr xt :
  inv w (targets m ++ xr) (token_of m ++ xt) -> msg_ok m ->
  (forall o ob, mid m = AVBOX_MESSAGETYPE_CLEANUP -> o ∈ targets m -> objects w !! o = Some ob -> destroyed ob = true) ->
  inv (set_queued w (queued w ++ [(t, m)])) xr xt.
Proof.
  intros (Ho & Hn & Hm) Hok Hcl0.
  assert (forall o, tokens (set_queued w (queued w ++ [(t, m)])) o = tokens w o + cnt o (token_of m)) as Htk.
  { intros o. unfold tokens. cbn. rewrite msg_tokens_app, cnt_app. unfold msg_tokens at 2, token_of. cbn.
    rewrite app_nil_r. lia. }
  assert (forall o, held o (queued w ++ [(t, m)]) = held o (queued w) + cnt o (targets m)) as Hh.
  { intros o. by rewrite held_app, held_one. }
  split_and!.
  - intros o ob E. specialize (Ho o ob E). unfold obj_inv in *. rewrite Htk. cbn. rewrite Hh.
    rewrite !cnt_app in Ho. obj_split Ho.
    intros Hp. rewrite cleanups_app in Hp. unfold cleanups at 2 in Hp. cbn in Hp. rewrite app_nil_r in Hp.
    destruct (mid m =? AVBOX_MESSAGETYPE_CLEANUP) eqn:Ec; [|apply Hcl; cbn in Hp; lia].
    destruct (decide (o ∈ targets m)) as [Hin|Hnin]; [zify_bool; eauto|].
    apply Hcl. assert (cnt o (targets m) = 0) as Hz; [|lia].
    clear -Hnin. induction (targets m) as [|x l IH]; [done|]. cbn. apply not_elem_of_cons in Hnin as [? ?].
    rewrite IH by done. destruct (x =? o) eqn:?; zify_bool; [congruence|done].
  - intros o E. specialize (Hn o E). rewrite Htk. cbn. rewrite Hh. rewrite !cnt_app in Hn.
    pose proof (cnt_nonneg o (targets m)). pose proof (cnt_nonneg o (token_of m)).
    pose proof (cnt_nonneg o xr). pose proof (cnt_nonneg o xt). intuition lia.
  - cbn. apply Forall_app. split; [done|]. by constructor.
Qed.

(** Objects that are referenced from elsewhere survive. *)
Definition kept (w : world) (xr : list Z) (o : Z) : Prop :=
  forall ob, objects w !! o = Some ob -> 0 < own ob + ext ob + held o (queued w) + cnt o xr.

Lemma kept_same w w' xr o : same w w' -> queued w' = queued w -> kept w xr o -> kept w' xr o.
Proof.
  intros Hs Hq Hk ob' E'. assert (is_Some (objects w !! o)) as [ob E] by (apply (same_lookup w w'); eauto).
  rewrite (same_fields w w' o ob ob' Hs E E'), Hq. exact (Hk ob E).
Qed.

Lemma unref_all_same w w' xr xt os :
  inv w (os ++ xr) xt -> (forall o, o ∈ os -> kept w xr o) -> unref_all w os = Some w' -> same w w'.
Proof.
  revert w. induction os as [|o os IH]; intros w Hinv Hk E; cbn in E; [by simplify_eq|].
  destruct (unref_inv w (os ++ xr) xt o Hinv) as (w1 & E1 & H1 & _ & _ & _ & Q1 & S1).
  rewrite E1 in E. cbn in E.
  destruct (inv_alive w (o :: os ++ xr) xt o Hinv) as [ob Eo]; [by left|].
  assert (same w w1) as Hs.
  { apply (S1 ob Eo). destruct Hinv as (Ho & _). destruct (Ho o ob Eo) as (Hr & _).
    specialize (Hk o ltac:(by left) ob Eo). cbn in Hr. rewrite Z.eqb_refl, cnt_app in Hr.
    pose proof (cnt_nonneg o os). lia. }
  etrans; [exact Hs|]. apply (IH w1 H1); [|done]. intros o' Ho'.
  apply (kept_same w w1); [done|done|]. apply Hk. by right.
Qed.

Lemma freemsg_same w w' xr xt m :
  inv w (targets m ++ xr) xt -> (forall o, o ∈ targets m -> kept w xr o) ->
  avbox_dispatch_freemsg w m = Some w' -> same w w'.
Proof.
  unfold avbox_dispatch_freemsg, targets. intros Hinv Hk E. destruct (dest m) as [o|os].
  - destruct (avbox_object_unref w o) as [w1|] eqn:E1; [|done]. cbn in E. simplify_eq.
    change (same w w1). apply (unref_all_same w w1 xr xt [o] Hinv Hk). cbn. by rewrite E1.
  - destruct (unref_all w os) as [w1|] eqn:E1; [|done]. cbn in E. simplify_eq.
    change (same w w1). by apply (unref_all_same w w1 xr xt os).
Qed.

Lemma inv_kept w xr xt o : inv w xr xt -> kept w xr o.
Proof. intros (Ho & _) ob E. destruct (Ho o ob E) as (Hr & _ & Hp & _). lia. Qed.

(** The end of [avbox_object_sendmsg], once the destinations are referenced. *)
Lemma post_inv w0 w m o ob (ok : bool) xr xt :
  inv w0 xr (token_of m ++ xt) -> same w0 w -> queued w = queued w0 ->
  inv w (targets m ++ xr) (token_of m ++ xt) -> msg_ok m ->
  (forall o ob, mid m = AVBOX_MESSAGETYPE_CLEANUP -> o ∈ targets m -> objects w !! o = Some ob -> destroyed ob = true) ->
  objects w !! o = Some ob ->
  exists b w',
    (if ok then w ← put w (oq ob) m; Some (true, w)
     else w ← avbox_dispatch_freemsg w m; Some (false, w)) = Some (b, w') /\ inv w' xr xt /\ same w w'.
Proof.
  intros H0 Hs Hq Hinv Hok Hcl E. destruct ok.
  - unfold put. pose proof Hinv as (Ho & _). destruct (Ho o ob E) as (_ & _ & _ & Hoq & _).
    rewrite bool_decide_true by done. cbn. do 2 eexists. split; [done|]. split; [by apply put_inv|done].
  - destruct (freemsg_inv w xr (token_of m ++ xt) m Hinv) as (w1 & E1 & H1 & _). rewrite E1. cbn.
    do 2 eexists. split; [done|]. split; [by eapply inv_drop|].
    eapply freemsg_same; [exact Hinv| |exact E1]. intros o' _.
    apply (kept_same w0 w); [done|done|]. by eapply inv_kept.
Qed.

(** Sending with given outcome of the allocations: never a bad access, the
    references are accounted for, nothing else changes. *)
Lemma sendmsg_inv w d id fl pl a xr xt :
  let m := Msg id fl d pl in
  inv w xr (token_of m ++ xt) -> msg_ok m -> (forall o, o ∈ dest_list d -> is_Some (objects w !! o)) ->
  (forall o ob, id = AVBOX_MESSAGETYPE_CLEANUP -> o ∈ dest_list d -> objects w !! o = Some ob -> destroyed ob = true) ->
  exists b w', avbox_object_sendmsg w d id fl pl a = Some (b, w') /\ inv w' xr xt /\ same w w'.
Proof.
  intros m Hinv Hok Hal Hcl. unfold avbox_object_sendmsg.
  destruct (acquire_message (msg_mem a) w) as [w0|] eqn:Ea;
    [|do 2 eexists; split; [done|split; [by eapply inv_drop|done]]].
  assert (objects w0 = objects w /\ queued w0 = queued w /\ same w w0 /\ inv w0 xr (token_of m ++ xt))
    as (Eo & Eq & S0 & H0).
  { unfold acquire_message in Ea. destruct (message_pool w); [destruct (msg_mem a)|]; by simplify_eq. }
  rewrite <- Eo in Hal, Hcl. pose proof Hok as [Hcast _]. unfold cast_ok in Hcast. cbn in Hcast.
  destruct d as [o|os].
  - rewrite Hcast. destruct (ref_inv w0 xr _ o H0) as (w1 & E1 & H1 & S1 & Q1); [apply Hal; by left|].
    rewrite E1. cbn. destruct (inv_alive _ _ _ o H1) as [ob E]; [by left|]. rewrite E. cbn.
    destruct (post_inv w0 w1 m o ob (put_ok a) xr xt) as (b & w2 & E2 & H2 & S2); try done.
    { intros o' ob' Em Ho' E'. destruct (proj2 (same_lookup w0 w1 o' S1)) as [ob0 E0]; [eauto|].
      rewrite (same_fields w0 w1 o' ob0 ob' S1 E0 E'). cbn. by eapply Hcl. }
    exists b, w2. split; [exact E2|]. split; [done|]. etrans; [exact S0|]. by etrans.
  - apply andb_true_iff in Hcast as [Hcast Hne]. rewrite Hcast. apply bool_decide_eq_true in Hne.
    unfold avbox_dispatch_destdup. destruct (dup_mem a); cbn.
    2:{ do 2 eexists. split; [done|]. split; [|done]. by eapply inv_drop. }
    destruct (ref_all_inv w0 xr _ os H0 Hal) as (w1 & E1 & H1 & S1 & Q1). rewrite E1. cbn.
    destruct os as [|o os]; [done|]. cbn.
    destruct (inv_alive _ _ _ o H1) as [ob E]; [by left|]. rewrite E. cbn.
    destruct (post_inv w0 w1 m o ob (put_ok a) xr xt) as (b & w2 & E2 & H2 & S2); try done.
    { intros o' ob' Em Ho' E'. destruct (proj2 (same_lookup w0 w1 o' S1)) as [ob0 E0]; [eauto|].
      rewrite (same_fields w0 w1 o' ob0 ob' S1 E0 E'). cbn. by eapply Hcl. }
    exists b, w2. split; [exact E2|]. split; [done|]. etrans; [exact S0|]. by etrans.
Qed.


Lemma user_send_inv w s xr xt :
  inv w xr xt -> user_send w s ->
  exists b w', avbox_object_sendmsg w (to s) (sid s) (sflags s) (spayload s) (smem s) = Some (b, w') /\
    inv w' xr xt /\ same w w'.
Proof.
  intros Hinv (Hid & Hc & Hal). apply sendmsg_inv; [|split; cbn; [done|congruence]|done|].
  - unfold token_of. cbn. by rewrite Hid.
  - intros o ob E. rewrite E in Hid. done.
Qed.

Lemma user_send_same w w' s : same w w' -> user_send w s -> user_send w' s.
Proof. intros Hs (? & ? & Hal). split_and!; [done..|]. intros o Ho. apply (same_lookup w w'); auto. Qed.

Lemma run_sends_inv w ss xr xt :
  inv w xr xt -> Forall (user_send w) ss ->
  exists w', run_sends w ss = Some w' /\ inv w' xr xt /\ same w w'.
Proof.
  revert w. induction ss as [|s ss IH]; intros w Hinv Hss; [by exists w|].
  apply Forall_cons in Hss as [Hs Hss].
  destruct (user_send_inv w s xr xt Hinv Hs) as (b & w1 & E1 & H1 & S1).
  destruct (IH w1 H1) as (w2 & E2 & H2 & S2).
  { eapply Forall_impl; [exact Hss|]. intros x. by apply user_send_same. }
  exists w2. cbn. rewrite E1. cbn. split_and!; [done|done|by etrans].
Qed.

Lemma user_handler_inv w o m a xr xt :
  inv w xr xt -> is_Some (objects w !! o) -> Forall (user_send w) (sends a) ->
  exists w', user_handler w o m a = Some (ret a, w') /\ inv w' xr xt /\ same w w'.
Proof.
  intros Hinv [ob E] Hss. unfold user_handler. rewrite E. cbn.
  destruct (run_sends_inv w (sends a) xr xt Hinv Hss) as (w1 & E1 & H1 & S1). rewrite E1. cbn.
  eexists. split; [done|]. by split.
Qed.

Definition alive (w w' : world) : Prop := forall o, is_Some (objects w !! o) <-> is_Some (objects w' !! o).

Lemma same_alive w w' : same w w' -> alive w w'.
Proof. intros Hs o. by apply same_lookup. Qed.

Lemma alive_trans w1 w2 w3 : alive w1 w2 -> alive w2 w3 -> alive w1 w3.
Proof. unfold alive. intros H1 H2 o. by rewrite H1. Qed.

(** Updates of the destruction fields of an object. *)
Lemma update_inv w xr xt o f :
  inv w xr xt -> is_Some (objects w !! o) ->
  (forall ob, refs (f ob) = refs ob /\ owned (f ob) = owned ob /\ ext (f ob) = ext ob /\ oq (f ob) = oq ob /\
     (destroyed ob = true -> destroyed (f ob) = true)) ->
  exists w', update_object w o f = Some w' /\ inv w' xr xt /\ alive w w' /\
    (forall ob, objects w !! o = Some ob -> objects w' !! o = Some (f ob)) /\ dying w' = dying w.
Proof.
  intros (Ho & Hn & Hm) [ob E] Hf. unfold update_object. rewrite E. cbn. eexists. split; [done|].
  split_and!; [split_and!; [| |done]| | |done].
  - intros o' ob'. cbn. rewrite lookup_insert_Some. intros [[<- <-]|[Hne E']]; [|by apply Ho].
    specialize (Ho o ob E). destruct (Hf ob) as (Fr & Fo & Fe & Fq & Fd). unfold obj_inv, own in *.
    rewrite tokens_objects, Fr, Fo, Fe, Fq. cbn in *. intuition auto.
  - intros o'. cbn. rewrite lookup_insert_None. intros [E' _]. by apply Hn.
  - intros o'. cbn. rewrite lookup_insert_is_Some. split; [|intros [<-|[_ ?]]; eauto].
    intros ?. destruct (decide (o = o')); eauto.
  - intros ob0 E0. cbn. rewrite lookup_insert_eq. by simplify_eq.
Qed.

(** Handing an in-flight protocol step to a timer. *)
Lemma arm_inv w xr xt o : inv w xr (o :: xt) -> inv (arm_timer w o) xr xt.
Proof.
  intros (Ho & Hn & Hm).
  assert (forall o', tokens (arm_timer w o) o' + cnt o' xt = tokens w o' + cnt o' (o :: xt)) as Ht.
  { intros o'. unfold tokens. cbn. rewrite fmap_app, cnt_app. cbn. lia. }
  split_and!; [| |done].
  - intros o' ob E. specialize (Ho o' ob E). unfold obj_inv in *. rewrite Ht. exact Ho.
  - intros o' E. specialize (Hn o' E). specialize (Ht o'). pose proof (cnt_nonneg o' xt).
    assert (0 <= tokens (arm_timer w o) o').
    { unfold tokens. pose proof (cnt_nonneg o' (msg_tokens (queued (arm_timer w o)))).
      pose proof (cnt_nonneg o' (pending (arm_timer w o)).*2). lia. }
    cbn in *. intuition lia.
Qed.

(** The CLEANUP step: the creator's reference is dropped. *)
Lemma cleanup_inv w xr o ob :
  inv w xr [o] -> o ∈ xr -> objects w !! o = Some ob -> destroyed ob = true ->
  exists w1 w', update_object w o drop_owner = Some w1 /\ avbox_object_unref w1 o = Some w' /\
    inv w' xr [] /\ alive w w'.
Proof.
  intros (Ho & Hn & Hm) Hin E Hd. unfold update_object. rewrite E. cbn. eexists.
  assert (cnt o [o] = 1) as H1 by (cbn; by rewrite Z.eqb_refl).
  set (w1 := set_objects w (<[o := drop_owner ob]> (objects w))).
  pose proof (Ho o ob E) as (Gr & Gext & Gpos & Gq & Gtok & Gtok2 & Gof & Gcl).
  destruct Gtok2 as [Hown Hdy]; [unfold tokens in *; pose proof (cnt_nonneg o (msg_tokens (queued w)));
    pose proof (cnt_nonneg o (pending w).*2); lia|].
  assert (inv w1 (o :: xr) []) as Hw1.
  { split_and!; [| |done].
    - intros o' ob'. subst w1. cbn. rewrite lookup_insert_Some. intros [[<- <-]|[Hne E']].
      + unfold obj_inv, own in *. rewrite tokens_objects. cbn in *. rewrite Hown, Z.eqb_refl in *.
        split_and!; try done; try lia.
      + specialize (Ho o' ob' E'). unfold obj_inv in *. rewrite tokens_objects. cbn in *.
        destruct (o =? o') eqn:?; [zify_bool; congruence|]. obj_split Ho.
    - intros o'. subst w1. cbn. rewrite lookup_insert_None. intros [E' Hne]. specialize (Hn o' E').
      rewrite tokens_objects. cbn in *. destruct (o =? o') eqn:?; [zify_bool; congruence|]. intuition lia. }
  destruct (unref_inv w1 xr [] o Hw1) as (w' & E' & H' & _ & _ & _ & _ & S').
  exists w'. split_and!; [done|done|done|].
  assert (alive w w1) as Ha.
  { intros o'. subst w1. cbn. rewrite lookup_insert_is_Some. split; [|intros [<-|[_ ?]]; eauto].
    intros ?. destruct (decide (o = o')); eauto. }
  eapply alive_trans; [exact Ha|]. apply same_alive. eapply S'; [subst w1; cbn; by rewrite lookup_insert_eq|].
  cbn. apply cnt_pos in Hin. assert (0 <= held o (queued w)) by apply cnt_nonneg. unfold own in Gr.
  rewrite Hown in Gr. lia.
Qed.

(** The dispatcher's own messages of the protocol. *)
Lemma send_own_inv w o id a xr xt ob :
  inv w xr (o :: xt) -> is_token id = true -> objects w !! o = Some ob ->
  (id = AVBOX_MESSAGETYPE_CLEANUP -> destroyed ob = true) ->
  exists w', send_own w o id a = Some w' /\ inv w' xr xt /\ same w w'.
Proof.
  intros Hinv Hid E Hd. unfold send_own.
  destruct (sendmsg_inv w (One o) id AVBOX_DISPATCH_UNICAST 0 (own_mem a) xr xt) as (b & w' & E' & H' & S').
  - unfold token_of. cbn. by rewrite Hid.
  - split; [done|]. eauto.
  - intros o' Ho'. apply list_elem_of_singleton in Ho' as ->. eauto.
  - intros o' ob' Ei Ho' E'. apply list_elem_of_singleton in Ho' as ->. simplify_eq. auto.
  - rewrite E'. cbn. eauto.
Qed.

Definition step_of (m : avbox_message) (o : Z) : list Z := if is_token (mid m) then [o] else [].

Lemma handler_inv w o m a xr :
  inv w xr (step_of m o) -> o ∈ xr -> Forall (user_send w) (sends a) ->
  (forall ob, mid m = AVBOX_MESSAGETYPE_CLEANUP -> objects w !! o = Some ob -> destroyed ob = true) ->
  exists r w', avbox_object_handler w o m a = Some (r, w') /\ inv w' xr [] /\ alive w w'.
Proof.
  intros Hinv Hin Hss Hcl. destruct (inv_alive w xr _ o Hinv Hin) as [ob E].
  unfold avbox_object_handler, step_of, is_token in *. rewrite E. cbn.
  assert (inv w xr [] -> exists r w', user_handler w o m a = Some (r, w') /\ inv w' xr [] /\ alive w w') as Huser.
  { intros Hi. destruct (user_handler_inv w o m a xr [] Hi) as (w1 & E1 & H1 & S1); [eauto|done|].
    exists (ret a), w1. split_and!; [done|done|by apply same_alive]. }
  destruct (mid m =? AVBOX_MESSAGETYPE_TIMER) eqn:Et; cbn [orb] in Hinv.
  - destruct (payload m =? destroy_timer_id ob).
    + destruct (send_own_inv w o AVBOX_MESSAGETYPE_DESTROY a xr [] ob) as (w1 & E1 & H1 & S1); [done..|].
      rewrite E1. cbn.
      destruct (update_inv w1 xr [] o (fun ob => with_timer ob (-1))) as (w2 & E2 & H2 & A2 & _);
        [done|apply (same_lookup w w1); eauto|done|]. rewrite E2. cbn.
      do 2 eexists. split; [done|]. split; [done|]. eapply alive_trans; [by apply same_alive|done].
    + apply Huser. by apply (inv_drop w xr [o] []).
  - destruct (mid m =? AVBOX_MESSAGETYPE_DESTROY) eqn:Ed; cbn [orb] in Hinv.
    + destruct (user_handler_inv w o m a xr [o] Hinv) as (w1 & E1 & H1 & S1); [eauto|done|].
      rewrite E1. cbn. assert (is_Some (objects w1 !! o)) as Hal1 by (apply (same_lookup w w1); eauto).
      destruct (ret a =? AVBOX_DISPATCH_OK).
      * destruct (update_inv w1 xr [o] o with_destroyed) as (w2 & E2 & H2 & A2 & F2 & _); [done..|].
        rewrite E2. cbn. destruct Hal1 as [ob1 Eo1].
        destruct (send_own_inv w2 o AVBOX_MESSAGETYPE_CLEANUP a xr [] (with_destroyed ob1))
          as (w3 & E3 & H3 & S3); [done|done|by apply F2|done|]. rewrite E3. cbn.
        do 2 eexists. split; [done|]. split; [done|].
        eapply alive_trans; [by apply same_alive|]. eapply alive_trans; [done|by apply same_alive].
      * destruct (timer_ok a).
        -- destruct (update_inv (arm_timer w1 o) xr [] o (fun ob => with_timer ob (nexttimer w1)))
             as (w2 & E2 & H2 & A2 & _); [by apply arm_inv|done|done|]. rewrite E2. cbn.
           do 2 eexists. split; [done|]. split; [done|]. eapply alive_trans; [by apply same_alive|exact A2].
        -- destruct (update_inv w1 xr [o] o (fun ob => with_timer ob (-1))) as (w2 & E2 & H2 & A2 & F2 & _);
             [done..|]. rewrite E2. cbn. destruct Hal1 as [ob1 Eo1].
           destruct (send_own_inv w2 o AVBOX_MESSAGETYPE_DESTROY a xr [] (with_timer ob1 (-1)))
             as (w3 & E3 & H3 & S3); [done|done|by apply F2|done|]. rewrite E3. cbn.
           do 2 eexists. split; [done|]. split; [done|].
           eapply alive_trans; [by apply same_alive|]. eapply alive_trans; [done|by apply same_alive].
    + destruct (mid m =? AVBOX_MESSAGETYPE_CLEANUP) eqn:Ec; [|by apply Huser].
      destruct (user_handler_inv w o m a xr [o] Hinv) as (w1 & E1 & H1 & S1); [eauto|done|].
      rewrite E1. cbn. assert (is_Some (objects w1 !! o)) as [ob1 Eo1] by (apply (same_lookup w w1); eauto).
      destruct (cleanup_inv w1 xr o ob1 H1 Hin Eo1) as (w2 & w3 & E2 & E3 & H3 & A3).
      { rewrite (same_fields w w1 o ob ob1 S1 E Eo1). cbn. apply Hcl; [blia|done]. }
      rewrite E2. cbn. rewrite E3. cbn. do 2 eexists. split; [done|]. split; [done|].
      eapply alive_trans; [by apply same_alive|done].
Qed.

Lemma deliver_inv w o m a xr :
  inv w xr (step_of m o) -> o ∈ xr -> Forall (user_send w) (sends a) ->
  (forall ob, mid m = AVBOX_MESSAGETYPE_CLEANUP -> objects w !! o = Some ob -> destroyed ob = true) ->
  exists r w', deliver w o m a = Some (r, w') /\ inv w' xr [] /\ alive w w'.
Proof.
  intros Hinv Hin Hss Hcl. destruct (inv_alive w xr _ o Hinv Hin) as [ob E].
  unfold deliver. rewrite E. cbn. destruct (negb (destroyed ob) || _).
  - destruct (handler_inv w o m a xr Hinv Hin Hss Hcl) as (r & w1 & E1 & H1 & A1). rewrite E1. cbn.
    destruct (inv_alive w1 xr [] o H1 Hin) as [ob1 Eo1]. rewrite Eo1. cbn. eauto.
  - do 2 eexists. split; [done|]. split; [|done]. unfold step_of in *.
    destruct (is_token (mid m)); [by apply (inv_drop w xr [o] [])|done].
Qed.

Lemma user_send_alive w w' s : alive w w' -> user_send w s -> user_send w' s.
Proof. intros Ha (? & ? & Hal). split_and!; [done..|]. intros o Ho. apply Ha. auto. Qed.

Section many.
Context (m : avbox_message) (Hm : is_token (mid m) = false).

Lemma deliver_user_inv w o a xr :
  inv w xr [] -> o ∈ xr -> Forall (user_send w) (sends a) ->
  exists r w', deliver w o m a = Some (r, w') /\ inv w' xr [] /\ alive w w'.
Proof.
  intros Hinv Hin Hss. apply deliver_inv; [|done|done|].
  - unfold step_of. by rewrite Hm.
  - intros ob E. unfold is_token in Hm. rewrite E in Hm. done.
Qed.

Lemma sends_alive w w' (env : nat -> answer) :
  alive w w' -> (forall i, Forall (user_send w) (sends (env i))) ->
  forall i, Forall (user_send w') (sends (env i)).
Proof. intros Ha Hs i. eapply Forall_impl; [apply Hs|]. intros x. by apply user_send_alive. Qed.

Lemma anycast_inv w os env xr :
  inv w xr [] -> (forall o, o ∈ os -> o ∈ xr) -> (forall i, Forall (user_send w) (sends (env i))) ->
  exists w', anycast w os m env = Some w' /\ inv w' xr [].
Proof.
  revert w env. induction os as [|o os IH]; intros w env Hinv Hin Hss; [by exists w|]. cbn.
  destruct (deliver_user_inv w o (env O) xr Hinv) as (r & w1 & E1 & H1 & A1); [apply Hin; by left|done|].
  rewrite E1. cbn. case_bool_decide; [by exists w1|].
  apply IH; [done| |]; [set_solver|]. intros i. by apply (sends_alive w w1 env).
Qed.

Lemma multicast_inv w os env xr :
  inv w xr [] -> (forall o, o ∈ os -> o ∈ xr) -> (forall i, Forall (user_send w) (sends (env i))) ->
  exists w', multicast w os m env = Some w' /\ inv w' xr [].
Proof.
  revert w env. induction os as [|o os IH]; intros w env Hinv Hin Hss; [by exists w|]. cbn.
  destruct (deliver_user_inv w o (env O) xr Hinv) as (r & w1 & E1 & H1 & A1); [apply Hin; by left|done|].
  rewrite E1. cbn. apply IH; [done| |]; [set_solver|]. intros i. by apply (sends_alive w w1 env).
Qed.
End many.

(** A dispatched message: taken from the queue with its references. *)
Lemma dispatch_inv w m env :
  inv w (targets m) (token_of m) -> msg_ok m -> (forall i, Forall (user_send w) (sends (env i))) ->
  (forall o ob, mid m = AVBOX_MESSAGETYPE_CLEANUP -> o ∈ targets m -> objects w !! o = Some ob -> destroyed ob = true) ->
  exists w', avbox_message_dispatch w m env = Some w' /\ inv w' [] [].
Proof.
  intros Hinv [Hcast Htok] Hss Hcl. unfold avbox_message_dispatch.
  assert (exists w1, match dest m with
      | One o => if cast_of (flags m) =? AVBOX_DISPATCH_UNICAST
                 then '(_, w) ← deliver w o m (env O); Some w else None
      | Many os => if cast_of (flags m) =? AVBOX_DISPATCH_ANYCAST then anycast w os m env
                   else if cast_of (flags m) =? AVBOX_DISPATCH_MULTICAST then multicast w os m env else None
      end = Some w1 /\ inv w1 (targets m) []) as (w1 & E1 & H1).
  { unfold targets, token_of, targets in *. destruct (dest m) as [o|os] eqn:Ed; cbn in Hcast.
    - rewrite Hcast. destruct (deliver_inv w o m (env O) [o]) as (r & w1 & E1 & H1 & _);
        [done|by left|done|intros ob Em Eo; eapply Hcl; [done|by left|done]|].
      rewrite E1. cbn. eauto.
    - assert (is_token (mid m) = false) as Hnt.
      { destruct (is_token (mid m)); [|done]. destruct Htok as [? ?]; done. }
      rewrite Hnt in Hinv. apply andb_true_iff in Hcast as [Hcast _].
      destruct (cast_of (flags m) =? AVBOX_DISPATCH_ANYCAST); [by apply anycast_inv|].
      cbn in Hcast. rewrite Hcast. by apply multicast_inv. }
  rewrite E1. cbn. destruct (freemsg_inv w1 [] [] m) as (w2 & E2 & H2 & _); [by rewrite app_nil_r|]. eauto.
Qed.

Lemma take_first_split t q m q' :
  take_first t q = Some (m, q') -> exists q1 q2, q = q1 ++ (t, m) :: q2 /\ q' = q1 ++ q2 /\ t ∉ q1.*1.
Proof.
  revert m q'. induction q as [|[t' m'] q IH]; intros m q' E; [done|]. cbn in E.
  destruct (t' =? t) eqn:Et; zify_bool.
  - simplify_eq. exists [], q'. set_solver.
  - destruct (take_first t q) as [[m1 q1']|] eqn:E1; [|done]. cbn in E. simplify_eq.
    destruct (IH m q1' eq_refl) as (q1 & q2 & -> & -> & ?). exists ((t', m') :: q1), q2. set_solver.
Qed.

Lemma taken_inv w t m q :
  inv w [] [] -> take_first t (queued w) = Some (m, q) ->
  inv (set_queued w q) (targets m) (token_of m) /\ msg_ok m /\
  (forall o ob, mid m = AVBOX_MESSAGETYPE_CLEANUP -> o ∈ targets m -> objects w !! o = Some ob -> destroyed ob = true).
Proof.
  intros (Ho & Hn & Hm) E. apply take_first_split in E as (q1 & q2 & Eq & -> & _).
  assert (forall o, held o (queued w) = held o (q1 ++ q2) + cnt o (targets m)) as Hh.
  { intros o. rewrite Eq. change ((t, m) :: q2) with ([(t, m)] ++ q2).
    rewrite !held_app, held_one. lia. }
  assert (forall o, tokens w o = tokens (set_queued w (q1 ++ q2)) o + cnt o (token_of m)) as Ht.
  { intros o. unfold tokens. cbn. rewrite Eq. change ((t, m) :: q2) with ([(t, m)] ++ q2).
    rewrite !msg_tokens_app, !cnt_app. unfold msg_tokens at 2, token_of. cbn. rewrite app_nil_r. lia. }
  assert (forall o, cleanups o (queued w) = cleanups o (q1 ++ q2) +
    cnt o (if mid m =? AVBOX_MESSAGETYPE_CLEANUP then targets m else [])) as Hc.
  { intros o. rewrite Eq. change ((t, m) :: q2) with ([(t, m)] ++ q2). rewrite !cleanups_app.
    unfold cleanups at 2. cbn. rewrite app_nil_r. lia. }
  assert (msg_ok m) as Hok.
  { rewrite Eq in Hm. apply Forall_app in Hm as [_ Hm]. by apply Forall_cons in Hm as [? _]. }
  split_and!; [split_and!| |].
  - intros o ob E. specialize (Ho o ob E). unfold obj_inv in *. rewrite Hh, Ht, Hc in Ho. cbn in *.
    pose proof (cnt_nonneg o (if mid m =? AVBOX_MESSAGETYPE_CLEANUP then targets m else [])). obj_split Ho.
  - intros o E. specialize (Hn o E). rewrite Hh, Ht in Hn. cbn in *.
    pose proof (cnt_nonneg o (targets m)). pose proof (cnt_nonneg o (token_of m)).
    assert (0 <= held o (q1 ++ q2)) by apply cnt_nonneg.
    assert (0 <= tokens (set_queued w (q1 ++ q2)) o).
    { unfold tokens. apply Z.add_nonneg_nonneg; apply cnt_nonneg. }
    intuition lia.
  - rewrite Eq in Hm. cbn. apply Forall_app in Hm as [? Hm]. apply Forall_cons in Hm as [_ ?]. by apply Forall_app.
  - exact Hok.
  - intros o ob Em Hin E. destruct (Ho o ob E) as (_ & _ & _ & _ & _ & _ & _ & Hcl). apply Hcl.
    rewrite Hc, Em. cbn. apply cnt_pos in Hin. pose proof (cleanups_nonneg o (q1 ++ q2)). lia.
Qed.

Lemma dispatch_next_inv w t m q env :
  inv w [] [] -> take_first t (queued w) = Some (m, q) -> (forall i, Forall (user_send w) (sends (env i))) ->
  exists w', avbox_message_dispatch (set_queued w q) m env = Some w' /\ inv w' [] [].
Proof.
  intros Hinv E Hss. destruct (taken_inv w t m q Hinv E) as (H1 & Hok & Hcl). by apply dispatch_inv.
Qed.

Lemma inv_tokens_pending w t o l1 l2 :
  inv w [] [] -> pending w = l1 ++ (t, o) :: l2 ->
  inv (World (objects w) (queued w) (tids w) (message_pool w) (l1 ++ l2) (nexttimer w) (dying w) (trace w)) [] [o].
Proof.
  intros (Ho & Hn & Hm) E.
  set (w1 := World _ _ _ _ _ _ _ _).
  assert (forall o', tokens w o' + cnt o' [] = tokens w1 o' + cnt o' [o]) as Ht.
  { intros o'. unfold tokens. subst w1. cbn. rewrite E, !fmap_app, !cnt_app. cbn. lia. }
  split_and!; [| |done].
  - intros o' ob E'. specialize (Ho o' ob E'). unfold obj_inv in *. rewrite Ht in Ho. exact Ho.
  - intros o' E'. specialize (Hn o' E'). specialize (Ht o'). pose proof (cnt_nonneg o' [o]).
    assert (0 <= tokens w1 o') by (unfold tokens; apply Z.add_nonneg_nonneg; apply cnt_nonneg).
    cbn in *. intuition lia.
Qed.

Lemma fire_inv w t o l1 l2 a :
  inv w [] [] -> pending w = l1 ++ (t, o) :: l2 ->
  exists w', fire_timer w t o (l1 ++ l2) a = Some w' /\ inv w' [] [].
Proof.
  intros Hinv E. pose proof (inv_tokens_pending w t o l1 l2 Hinv E) as H1. unfold fire_timer.
  destruct (sendmsg_inv (World (objects w) (queued w) (tids w) (message_pool w) (l1 ++ l2) (nexttimer w)
     (dying w) (trace w)) (One o) AVBOX_MESSAGETYPE_TIMER AVBOX_DISPATCH_UNICAST t a [] [])
    as (b & w' & E' & H' & _); [done| | |done|rewrite E'; cbn; eauto].
  - split; [done|]. eauto.
  - intros o' Ho'. apply list_elem_of_singleton in Ho' as ->. cbn.
    destruct (objects w !! o) eqn:Eo; [eauto|]. destruct H1 as (_ & Hn & _).
    destruct (Hn o Eo) as (_ & _ & _ & Hx). cbn in Hx. rewrite Z.eqb_refl in Hx. lia.
Qed.

(** Asking for the destruction of [o] starts its protocol. *)
Lemma mark_inv w o :
  inv w [] [] -> is_Some (objects w !! o) -> o ∉ dying w -> inv (mark_dying w o) [] [o].
Proof.
  intros (Ho & Hn & Hm) [ob E] Hd.
  assert (forall o', tokens (mark_dying w o) o' = tokens w o') as Htk by done.
  split_and!; [| |done].
  - intros o' ob' E'. specialize (Ho o' ob' E'). unfold obj_inv in *. rewrite Htk. cbn in *.
    assert (0 <= tokens w o') by (unfold tokens; apply Z.add_nonneg_nonneg; apply cnt_nonneg).
    destruct (decide (o = o')) as [<-|Hne].
    + simplify_eq. rewrite Z.eqb_refl.
      assert (owned ob = true) as Hown by (destruct (owned ob); [done|]; exfalso; tauto).
      assert (tokens w o = 0) as Ht0.
      { destruct (decide (0 < tokens w o + 0)) as [Hp|]; [|lia]. exfalso. tauto. }
      obj_split Ho; [intros _; split; [done|set_solver]|congruence].
    + assert ((o =? o') = false) as -> by lia. obj_split Ho; intros Hp.
      * destruct Htok2 as [? ?]; [lia|]. split; [done|set_solver].
      * destruct (Hof Hp). split; [done|set_solver].
  - intros o' E'. specialize (Hn o' E'). rewrite Htk. cbn in *.
    destruct (o =? o') eqn:?; [zify_bool; congruence|]. intuition lia.
Qed.

Lemma destroy_inv w o a :
  inv w [] [] -> is_Some (objects w !! o) -> o ∉ dying w ->
  exists w', avbox_object_destroy w o a = Some w' /\ inv w' [] [].
Proof.
  intros Hinv Hal Hd. pose proof (mark_inv w o Hinv Hal Hd) as H1. unfold avbox_object_destroy.
  destruct (sendmsg_inv (mark_dying w o) (One o) AVBOX_MESSAGETYPE_DESTROY AVBOX_DISPATCH_UNICAST 0 a [] [])
    as (b & w' & E' & H' & _); [done| | |done|rewrite E'; cbn; eauto].
  - split; [done|]. eauto.
  - intros o' Ho'. apply list_elem_of_singleton in Ho' as ->. done.
Qed.

Lemma dispatch_new_inv w t o r w' :
  inv w [] [] -> objects w !! o = None -> avbox_object_new w t (Some o) = (inr r, w') -> inv w' [] [].
Proof.
  intros (Ho & Hn & Hm) E H. unfold avbox_object_new, avbox_dispatch_getqueue in H.
  case_bool_decide as Ht; [|done]. simplify_eq. destruct (Hn r E) as (Hh & _ & Htk & _).
  split_and!; [| |done].
  - intros o' ob'. cbn. rewrite lookup_insert_Some. intros [[<- <-]|[Hne E']].
    + unfold obj_inv, own. cbn. change (tokens (World _ _ _ _ _ _ _ _) r) with (tokens w r).
      rewrite Hh, Htk. split_and!; try done; try lia. intros Hp. exfalso.
      pose proof (cleanups_held r (queued w)). lia.
    + specialize (Ho o' ob' E'). unfold obj_inv in *. change (tokens (World _ _ _ _ _ _ _ _) o') with (tokens w o').
      cbn in *. obj_split Ho; intros Hp; [destruct Htok2 as [? ?]; [lia|]|destruct (Hof Hp)]; (split; [done|set_solver]).
  - intros o'. cbn. rewrite lookup_insert_None. intros [E' _].
    change (tokens (World _ _ _ _ _ _ _ _) o') with (tokens w o'). by apply Hn.
Qed.

Lemma user_ref_inv w o w' : inv w [] [] -> user_ref w o = Some w' -> inv w' [] [].
Proof.
  intros Hinv E. unfold user_ref in E. destruct (avbox_object_ref w o) as [w1|] eqn:E1; [|done]. cbn in E.
  assert (is_Some (objects w !! o)) as Hal.
  { unfold avbox_object_ref in E1. destruct (objects w !! o); [eauto|done]. }
  destruct (ref_inv w [] [] o Hinv Hal) as (w2 & E2 & (Ho & Hn & Hm) & _ & _). simplify_eq.
  unfold update_object in E. destruct (objects w1 !! o) as [ob|] eqn:Eo; [|done]. cbn in E. simplify_eq.
  split_and!; [| |done].
  - intros o' ob'. cbn. rewrite lookup_insert_Some. intros [[<- <-]|[Hne E']].
    + specialize (Ho o ob Eo). unfold obj_inv, own in *. rewrite tokens_objects. cbn in *.
      rewrite Z.eqb_refl in Ho. obj_split Ho.
    + specialize (Ho o' ob' E'). unfold obj_inv in *. rewrite tokens_objects. cbn in *.
      assert ((o =? o') = false) as H0 by lia. rewrite H0 in Ho. obj_split Ho.
  - intros o'. cbn. rewrite lookup_insert_None. intros [E' Hne]. specialize (Hn o' E').
    rewrite tokens_objects. cbn in *. intuition lia.
Qed.

Lemma user_unref_inv w o ob :
  inv w [] [] -> objects w !! o = Some ob -> 0 < ext ob ->
  exists w', user_unref w o = Some w' /\ inv w' [] [].
Proof.
  intros (Ho & Hn & Hm) E Hext0. unfold user_unref, update_object. rewrite E. cbn.
  set (w1 := set_objects w _).
  assert (inv w1 [o] []) as H1.
  { split_and!; [| |done].
    - intros o' ob'. subst w1. cbn. rewrite lookup_insert_Some. intros [[<- <-]|[Hne E']].
      + specialize (Ho o ob E). unfold obj_inv, own in *. rewrite tokens_objects. cbn in *.
        rewrite Z.eqb_refl. obj_split Ho.
      + specialize (Ho o' ob' E'). unfold obj_inv in *. rewrite tokens_objects. cbn in *.
        assert ((o =? o') = false) as -> by lia. obj_split Ho.
    - intros o'. subst w1. cbn. rewrite lookup_insert_None. intros [E' Hne]. specialize (Hn o' E').
      rewrite tokens_objects. cbn in *. assert ((o =? o') = false) as -> by lia. intuition lia. }
  destruct (unref_inv w1 [] [] o H1) as (w2 & E2 & H2 & _). eauto.
Qed.

Lemma dispatch_init_inv w t w' : inv w [] [] -> avbox_dispatch_init w t (inr tt) = (inr tt, w') -> inv w' [] [].
Proof.
  intros (Ho & Hn & Hm) E. unfold avbox_dispatch_init in E. case_bool_decide; [done|]. simplify_eq.
  split_and!; [| |done]; [|exact Hn]. intros o ob E. specialize (Ho o ob E).
  unfold obj_inv in *. cbn in *. obj_split Ho. set_solver.
Qed.

Lemma dispatch_step_inv w w' : step w w' -> inv w [] [] -> inv w' [] [].
Proof.
  intros Hst Hinv. destruct Hst.
  - by eapply dispatch_init_inv.
  - by eapply dispatch_new_inv.
  - destruct (user_send_inv w s [] []) as (? & ? & E & ? & _); [done|done|]. by simplify_eq.
  - destruct (destroy_inv w o a) as (? & E & ?); [done..|]. by simplify_eq.
  - by eapply user_ref_inv.
  - destruct (user_unref_inv w o ob) as (? & E & ?); [done..|]. by simplify_eq.
  - destruct (dispatch_next_inv w t m q env) as (? & E & ?); [done..|]. by simplify_eq.
  - destruct (fire_inv w t o l1 l2 a) as (? & E & ?); [done..|]. by simplify_eq.
Qed.

Lemma start_inv : inv start [] [].
Proof. split_and!; [done|done|constructor]. Qed.

Lemma dispatch_reachable_inv w : rtc step start w -> inv w [] [].
Proof.
  intros Hr. apply (rtc_invariant step (fun w => inv w [] [])) with (x := start); [|done|apply start_inv].
  eauto using dispatch_step_inv.
Qed.

(** ** The test after the decrement

    [avbox_object_unref] decrements the counter and then reads it again, with
    no lock in between.  The last release of an object is one step all the
    same: nobody else holds a reference by then ([refcount_exact]).  Any
    other release leaves its thread with a test still to be made, some time
    later: [ck] are the objects of these tests.  A run goes on as long as no
    step frees an object whose counter another thread is about to test. *)
Inductive tstep : world * list Z -> world * list Z -> Prop :=
  | TStep w w' ck rs :
      step w w' -> (forall o, o ∈ ck ++ rs -> is_Some (objects w' !! o)) -> tstep (w, ck) (w', ck ++ rs)
  | TTest w ck1 o ck2 w' : unref_check w o = Some w' -> tstep (w, ck1 ++ o :: ck2) (w', ck1 ++ ck2).

(** The fault that ends such a run. *)
Definition overlap (w w' : world) (ck : list Z) : Prop := step w w' /\ exists o, o ∈ ck /\ objects w' !! o = None.

Lemma check_alive w o : inv w [] [] -> is_Some (objects w !! o) -> unref_check w o = Some w.
Proof.
  intros (Ho & _ & _) [ob E]. unfold unref_check. rewrite E. cbn. destruct (Ho o ob E) as (_ & _ & Hp & _).
  by destruct (Z.eqb_spec (refs ob) 0); [lia|].
Qed.

Lemma tstep_inv x y :
  tstep x y -> inv x.1 [] [] /\ (forall o, o ∈ x.2 -> is_Some (objects x.1 !! o)) ->
  inv y.1 [] [] /\ (forall o, o ∈ y.2 -> is_Some (objects y.1 !! o)).
Proof.
  intros Ht [Hi Ha]. destruct Ht as [w w' ck rs Hs Hal|w ck1 o ck2 w' Hc]; cbn in *.
  - split; [by eapply dispatch_step_inv|done].
  - assert (w' = w) as ->.
    { rewrite (check_alive w o Hi) in Hc; [by injection Hc|]. apply Ha. set_solver. }
    split; [done|]. intros o' Ho'. apply Ha. set_solver.
Qed.

Lemma tested_inv w ck :
  rtc tstep (start, []) (w, ck) -> inv w [] [] /\ forall o, o ∈ ck -> is_Some (objects w !! o).
Proof.
  intros Hr.
  apply (rtc_invariant tstep (fun x => inv x.1 [] [] /\ forall o, o ∈ x.2 -> is_Some (objects x.1 !! o)))
    with (x := (start, [])) (y := (w, ck)); [|done|].
  - intros x y Hx Hxy. by eapply tstep_inv.
  - split; [apply start_inv|]. cbn. intros o Ho. by apply elem_of_nil in Ho.
Qed.

Lemma steps_tested w w' : rtc step w w' -> rtc tstep (w, []) (w', []).
Proof.
  induction 1 as [w|w w' w'' Hs _ IH]; [done|]. eapply rtc_l; [|exact IH].
  apply (TStep w w' [] []); [done|]. intros o Ho. by apply elem_of_nil in Ho.
Qed.

(** ** Properties *)

(** C10. No message is ever delivered to freed memory: in every state
    reached without an overlap ([overlap]: the last reference to an object
    is released while another thread, having released one too, is about to
    test its counter) and without destroying an object twice, dispatching
    the next message of any queue and firing any armed destructor timer
    runs to its end without touching an object that was freed, whatever the
    handlers answer, whichever messages of their own they send to objects
    that exist, and whichever allocations fail; a test that is still to be
    made finds its object alive and leaves it alone; and every step that
    can be made next either continues such a run or is an overlap. *)
Theorem dispatch_no_use_after_free w ck :
  rtc tstep (start, []) (w, ck) ->
  (forall t m q env, take_first t (queued w) = Some (m, q) ->
     (forall i, Forall (user_send w) (sends (env i))) ->
     is_Some (avbox_message_dispatch (set_queued w q) m env)) /\
  (forall l1 t o l2 a, pending w = l1 ++ (t, o) :: l2 -> is_Some (fire_timer w t o (l1 ++ l2) a)) /\
  (forall o, o ∈ ck -> unref_check w o = Some w) /\
  (forall w', step w w' -> tstep (w, ck) (w', ck) \/ overlap w w' ck).
Proof.
  intros [Hr Ha]%tested_inv. split_and!.
  - intros t m q env E Hss. destruct (dispatch_next_inv w t m q env Hr E Hss) as (w' & -> & _). eauto.
  - intros l1 t o l2 a E. destruct (fire_inv w t o l1 l2 a Hr E) as (w' & -> & _). eauto.
  - intros o Ho. apply check_alive; auto.
  - intros w' Hs. destruct (decide (Forall (fun o => is_Some (objects w' !! o)) ck)) as [Hal|Hex].
    + left. rewrite <- (app_nil_r ck) at 2. apply TStep; [done|]. rewrite app_nil_r. by apply Forall_forall.
    + right. split; [done|]. apply not_Forall_Exists in Hex; [|apply _]. apply Exists_exists in Hex as (o & Ho & Hn). exists o. split; [done|].
      by apply eq_None_not_Some.
Qed.

(** C30. The reference counts are exact: an object's counter is one for its
    creator until CLEANUP was handled, plus one for each reference users
    took, plus one for each time it is a destination of a queued message; it
    is positive as long as the object exists, and no queued message or armed
    destructor timer refers to an object that does not exist. *)
Theorem refcount_exact w :
  rtc step start w ->
  (forall o ob, objects w !! o = Some ob ->
     refs ob = own ob + ext ob + held o (queued w) /\ 0 < refs ob) /\
  (forall o, objects w !! o = None -> o ∉ (pending w).*2 /\ forall t m, (t, m) ∈ queued w -> o ∉ targets m).
Proof.
  intros Hr. apply dispatch_reachable_inv in Hr as (Ho & Hn & _). split.
  - intros o ob E. destruct (Ho o ob E) as (Hr & _ & Hp & _). cbn in Hr. lia.
  - intros o E. destruct (Hn o E) as (Hh & _ & Ht & _). unfold tokens in Ht.
    pose proof (cnt_nonneg o (msg_tokens (queued w))). pose proof (cnt_nonneg o (pending w).*2).
    split; [apply cnt_zero; lia|]. intros t m Hin Hm. unfold held in Hh. apply cnt_zero in Hh. apply Hh.
    apply list_elem_of_join. exists (targets m). split; [done|]. apply list_elem_of_fmap. by exists (t, m).
Qed.

(** An object is cleaned up once and is silent afterwards: once CLEANUP
    was handled the object is marked destroyed, no step of its destruction is
    under way any more, and every message still queued for it is dropped
    without reaching its handler. *)
Lemma cleanup_once w o ob :
  rtc step start w -> objects w !! o = Some ob -> owned ob = false ->
  o ∉ (pending w).*2 /\
  forall t m a, (t, m) ∈ queued w -> o ∈ targets m -> deliver w o m a = Some (None, w).
Proof.
  intros Hr E Hown. apply dispatch_reachable_inv in Hr as (Ho & _ & _).
  destruct (Ho o ob E) as (_ & _ & _ & _ & _ & Htok & Hof & _). destruct (Hof Hown) as [Hd _].
  assert (tokens w o = 0) as Ht.
  { assert (0 <= tokens w o) by (unfold tokens; apply Z.add_nonneg_nonneg; apply cnt_nonneg).
    destruct (decide (0 < tokens w o + cnt o [])) as [Hp|Hp]; [|cbn in Hp; lia].
    destruct (Htok Hp). congruence. }
  unfold tokens in Ht. pose proof (cnt_nonneg o (msg_tokens (queued w))). pose proof (cnt_nonneg o (pending w).*2).
  split; [apply cnt_zero; lia|]. intros t m a Hin Hm. unfold deliver. rewrite E. cbn. rewrite Hd. cbn [negb orb].
  destruct (mid m =? AVBOX_MESSAGETYPE_CLEANUP) eqn:Ec; [|done]. exfalso.
  assert (o ∉ msg_tokens (queued w)) as Hnot by (apply cnt_zero; lia). apply Hnot.
  unfold msg_tokens. apply list_elem_of_join. exists (targets m). split; [done|].
  apply list_elem_of_fmap. exists (t, m). split; [|done]. cbn. unfold is_token. rewrite Ec.
  by rewrite orb_true_r.
Qed.

(** The two halves of [avbox_object_unref] are not atomic: when two
    threads drop the last two references and both decrement before either
    tests the counter, the first frees the object and the second then reads
    freed memory. *)
Lemma unref_race w o ob :
  objects w !! o = Some ob -> refs ob = 2 ->
  (w ← unref_dec w o; w ← unref_dec w o; w ← unref_check w o; unref_check w o) = None /\
  is_Some (w ← avbox_object_unref w o; avbox_object_unref w o).
Proof.
  intros E Hr. unfold avbox_object_unref, unref_dec, unref_check. rewrite E. cbn.
  rewrite !lookup_insert_eq. cbn. rewrite !lookup_insert_eq. cbn. rewrite Hr.
  change (2 - 1 - 1 =? 0) with true. change (2 - 1 =? 0) with false. cbn. split.
  - by rewrite lookup_delete_eq.
  - rewrite E || rewrite !lookup_insert_eq. cbn. rewrite !lookup_insert_eq. cbn. eauto.
Qed.

(** Destroying an object twice is not safe: when the first DESTROY is
    answered with CONTINUE, which arms the destructor timer, and the second
    with OK, CLEANUP frees the object while its timer is still armed, and
    the timer then sends a message to freed memory. *)
Lemma double_destroy_dangling :
  let ok := Mem true true true in
  let answer r := fun _ : nat => Answer r [] ok true in
  let next w r := '(m, q) ← take_first 7 (queued w); avbox_message_dispatch (set_queued w q) m (answer r) in
  exists w t,
    (let w := (avbox_object_new (avbox_dispatch_init start 7 (inr tt)).2 7 (Some 1)).2 in
     w ← avbox_object_destroy w 1 ok;
     w ← avbox_object_destroy w 1 ok;
     w ← next w AVBOX_DISPATCH_CONTINUE;
     w ← next w AVBOX_DISPATCH_OK;
     next w AVBOX_DISPATCH_OK) = Some w /\
    objects w !! 1 = None /\ pending w = [(t, 1)] /\ fire_timer w t 1 [] ok = None.
Proof. do 2 eexists. split; [vm_compute; reflexivity|]. vm_compute. repeat split. Qed.

(** *** Witnesses *)

Definition all_ok : mem := Mem true true true.
Definition quiet (r : Z) : answer := Answer r [] all_ok true.

(** Thread 7 creates object 1; a message is sent to it. *)
Definition hello : send := Send (One 1) 255 AVBOX_DISPATCH_UNICAST 0 all_ok.
Definition demo_new : world := (avbox_object_new (avbox_dispatch_init start 7 (inr tt)).2 7 (Some 1)).2.
Definition demo_sent : world :=
  match avbox_object_sendmsg demo_new (One 1) 255 AVBOX_DISPATCH_UNICAST 0 all_ok with
  | Some (_, w) => w
  | None => demo_new
  end.

Lemma demo_new_run : rtc step start demo_new.
Proof.
  eapply rtc_l; [apply (StepInit start 7); reflexivity|].
  eapply rtc_once, (StepNew _ 7 1); [reflexivity|]. reflexivity.
Qed.

Lemma demo_hello : user_send demo_new hello.
Proof.
  split_and!; [reflexivity|reflexivity|]. intros o Ho. apply list_elem_of_singleton in Ho as ->.
  eexists. reflexivity.
Qed.

Lemma demo_sent_run : rtc step start demo_sent.
Proof.
  eapply rtc_r; [apply demo_new_run|]. eapply (StepSend _ hello); [apply demo_hello|reflexivity].
Qed.

Lemma dispatch_no_use_after_free_witness :
  exists m q, take_first 7 (queued demo_sent) = Some (m, q) /\
    is_Some (avbox_message_dispatch (set_queued demo_sent q) m (fun _ => quiet 0)).
Proof.
  do 2 eexists. split; [reflexivity|].
  eapply (proj1 (dispatch_no_use_after_free demo_sent [] (steps_tested _ _ demo_sent_run)) 7); [reflexivity|].
  intros _. constructor.
Defined.

Lemma refcount_exact_witness : refs <$> (objects demo_sent !! 1) = Some 2 /\ 0 < 2.
Proof.
  split; [reflexivity|].
  destruct (refcount_exact demo_sent demo_sent_run) as [H _].
  destruct (H 1 (Obj 2 false (-1) 7 true 0) eq_refl) as [_ Hp]. exact Hp.
Defined.

(** Object 1, referenced by its user, is destroyed and cleaned up while a
    message to it is still queued. *)
Definition run_dispatch (w : world) (t : Z) (a : answer) : world :=
  match take_first t (queued w) with
  | Some (m, q) => default w (avbox_message_dispatch (set_queued w q) m (fun _ => a))
  | None => w
  end.

Definition demo_dying : world := default demo_new (avbox_object_destroy demo_new 1 all_ok).
Definition demo_destroyed : world := run_dispatch demo_dying 7 (quiet 0).
Definition demo_late : world :=
  match avbox_object_sendmsg demo_destroyed (One 1) 255 AVBOX_DISPATCH_UNICAST 0 all_ok with
  | Some (_, w) => w
  | None => demo_destroyed
  end.
Definition demo_cleaned : world := run_dispatch demo_late 7 (quiet 0).

Lemma run_dispatch_steps w t a : sends a = [] -> rtc step w (run_dispatch w t a).
Proof.
  intros Ha. unfold run_dispatch. destruct (take_first t (queued w)) as [[m q]|] eqn:E; [|apply rtc_refl].
  destruct (avbox_message_dispatch (set_queued w q) m (fun _ => a)) as [w'|] eqn:Ed; [|apply rtc_refl].
  cbn. eapply rtc_once, StepDispatch; [exact E| |exact Ed]. intros i. cbn. rewrite Ha. constructor.
Qed.

Lemma demo_cleaned_run : rtc step start demo_cleaned.
Proof.
  etrans; [apply demo_new_run|].
  eapply rtc_l; [apply (StepDestroy demo_new 1 all_ok demo_dying)|].
  { eexists. vm_compute. reflexivity. }
  { vm_compute. by intros ?. }
  { unfold demo_dying. destruct (avbox_object_destroy demo_new 1 all_ok) eqn:E; [done|].
    vm_compute in E. done. }
  etrans; [apply (run_dispatch_steps demo_dying 7 (quiet 0) eq_refl)|]. fold demo_destroyed.
  eapply rtc_l; [apply (StepSend demo_destroyed hello true demo_late)|].
  { split_and!; [done|done|]. intros o Ho. apply list_elem_of_singleton in Ho as ->.
    eexists. vm_compute. reflexivity. }
  { unfold demo_late. cbn [to sid sflags spayload smem hello].
    destruct (avbox_object_sendmsg demo_destroyed (One 1) 255 AVBOX_DISPATCH_UNICAST 0 all_ok) as [[[] ?]|] eqn:E;
      [done|vm_compute in E; done..]. }
  apply (run_dispatch_steps demo_late 7 (quiet 0) eq_refl).
Qed.

Lemma cleanup_once_witness :
  deliver demo_cleaned 1 (Msg 255 0 (One 1) 0) (quiet 0) = Some (None, demo_cleaned).
Proof.
  eapply (cleanup_once demo_cleaned 1 (Obj 1 true (-1) 7 false 0) demo_cleaned_run) with (t := 7);
    [vm_compute; reflexivity|reflexivity|vm_compute; left|left].
Defined.

Lemma unref_race_witness :
  let w := set_objects start {[1 := Obj 2 true (-1) 7 false 2]} in
  (w ← unref_dec w 1; w ← unref_dec w 1; w ← unref_check w 1; unref_check w 1) = None.
Proof.
  apply (unref_race (set_objects start {[1 := Obj 2 true (-1) 7 false 2]}) 1 (Obj 2 true (-1) 7 false 2));
    reflexivity.
Defined.
