(* ===== verification/Delegate.v ===== *)
(** * Delegates and the work queue (src/lib/delegate.c, src/lib/thread.c)

    A delegate is a function call handed to another thread, whose creator
    waits for the result or detaches it.  Module [Delegate] models the
    creator and the executing thread as two sequences of steps that
    interleave; a freed delegate is absent from the state and an access to it
    is [None].  Module [Pool] models the choice of a work-queue thread and the
    life of the pool. *)

From S2P Require Import Prelude TimeUtil.

Module Delegate.

Definition AVBOX_DELEGATE_DETTACHED : Z := 1.
Definition AVBOX_DELEGATE_RECYCLE : Z := 2.

(** [struct avbox_delegate]; [func] is the value its function returns for
    its argument. *)
Record avbox_delegate := Del {
  func : Z -> Z;
  arg : Z;
  result : option Z;
  finished : bool;
  flags : Z;
}.

Definition has (d : avbox_delegate) (f : Z) : bool := negb (Z.land (flags d) f =? 0).

(** [avbox_delegate_new]; [mem] and [init] are the answers of [malloc] and
    of the pthread initialisers. *)
Definition avbox_delegate_new (fn : Z -> Z) (a fl : Z) (mem init : bool) : errno + avbox_delegate :=
  if mem then if init then inr (Del fn a None false fl) else inl EINVAL else inl ENOMEM.

Definition avbox_delegate_reset (d : avbox_delegate) : avbox_delegate :=
  Del (func d) (arg d) None false (flags d).

(** The executing thread: before the call, between the call and the locked
    update, after. *)
Inductive ephase := EWaiting | ERan | EDone.

(** The creator: nothing done yet, blocked in [avbox_delegate_wait], past
    the wait, returned with a result, detached. *)
Inductive cphase := CHolds | CBlocked | CPast | CReturned (r : option Z) | CDetached.

Record state := State {
  del : option avbox_delegate;   (* None: freed *)
  executor : ephase;
  creator : cphase;
  signalled : bool;              (* the condition was signalled *)
}.

(** [avbox_delegate_execute], first line: the call itself. *)
Definition execute_call (s : state) : option state :=
  d ← del s;
  Some (State (Some (Del (func d) (arg d) (Some (func d (arg d))) (finished d) (flags d)))
          ERan (creator s) (signalled s)).

(** The rest, under the lock. *)
Definition execute_finish (s : state) : option state :=
  d ← del s;
  let d := Del (func d) (arg d) (result d) true (flags d) in
  if has d AVBOX_DELEGATE_DETTACHED then
    if has d AVBOX_DELEGATE_RECYCLE
    then Some (State (Some (avbox_delegate_reset d)) EDone (creator s) (signalled s))
    else Some (State None EDone (creator s) (signalled s))
  else Some (State (Some d) EDone (creator s) true).

(** [avbox_delegate_wait] up to the test of [finished]. *)
Definition wait_begin (s : state) : option state :=
  d ← del s;
  Some (State (del s) (executor s) (if finished d then CPast else CBlocked) (signalled s)).

(** The condition wait returns: the code does not test [finished] again. *)
Definition wait_wake (s : state) : state := State (del s) (executor s) CPast (signalled s).

(** The rest of [avbox_delegate_wait]. *)
Definition wait_end (s : state) : option state :=
  d ← del s;
  Some (State (if has d AVBOX_DELEGATE_RECYCLE then Some (avbox_delegate_reset d) else None)
          (executor s) (CReturned (result d)) (signalled s)).

Definition avbox_delegate_dettach (s : state) : option state :=
  d ← del s;
  if finished d then Some (State None (executor s) CDetached (signalled s))
  else Some (State (Some (Del (func d) (arg d) (result d) (finished d)
                            (Z.lor (flags d) AVBOX_DELEGATE_DETTACHED)))
               (executor s) CDetached (signalled s)).

Definition avbox_delegate_finished (s : state) : option bool := d ← del s; Some (finished d).

(** One step of either thread; [spurious] allows the condition wait to
    return without a signal. *)
Inductive step (spurious : bool) : state -> option state -> Prop :=
  | StepCall s : executor s = EWaiting -> step spurious s (execute_call s)
  | StepFinish s : executor s = ERan -> step spurious s (execute_finish s)
  | StepWait s : creator s = CHolds -> step spurious s (wait_begin s)
  | StepWake s : creator s = CBlocked -> signalled s || spurious = true -> step spurious s (Some (wait_wake s))
  | StepEnd s : creator s = CPast -> step spurious s (wait_end s)
  | StepDettach s : creator s = CHolds -> step spurious s (avbox_delegate_dettach s).

Definition ok_step (spurious : bool) (s s' : state) : Prop := step spurious s (Some s').

Definition init (fn : Z -> Z) (a : Z) : state := State (Some (Del fn a None false 0)) EWaiting CHolds false.

(** ** Invariant, for a delegate that is not recycled *)
Definition inv (fn : Z -> Z) (a : Z) (s : state) : Prop :=
  match creator s with
  | CHolds | CBlocked | CPast =>
      exists r f, del s = Some (Del fn a r f 0) /\
        match executor s with
        | EWaiting => r = None /\ f = false /\ signalled s = false
        | ERan => r = Some (fn a) /\ f = false /\ signalled s = false
        | EDone => r = Some (fn a) /\ f = true
        end /\
        (creator s = CPast -> executor s = EDone)
  | CReturned r => r = Some (fn a) /\ del s = None /\ executor s = EDone
  | CDetached =>
      match executor s with
      | EDone => del s = None
      | EWaiting => del s = Some (Del fn a None false 1)
      | ERan => del s = Some (Del fn a (Some (fn a)) false 1)
      end
  end.

Ltac crush :=
  repeat match goal with
  | H : exists _, _ |- _ => destruct H
  | H : _ /\ _ |- _ => destruct H
  | H : ?x = ?x -> _ |- _ => specialize (H eq_refl)
  end; simplify_eq/=.

Lemma delegate_step_inv fn a s o : inv fn a s -> step false s o -> exists s', o = Some s' /\ inv fn a s'.
Proof.
  intros Hinv Hst. unfold inv in Hinv.
  destruct Hst as [s|s|s|s ? Hs|s|s]; destruct s as [d e c sg]; cbn in *; subst;
    rewrite ?orb_false_r in *; subst;
    unfold execute_call, execute_finish, wait_begin, wait_wake, wait_end, avbox_delegate_dettach; cbn;
    try destruct c; try destruct e; crush;
    (eexists; split; [done|]); unfold inv; cbn; split_and?; try done;
    repeat eexists; try done; try tauto; intros; discriminate.
Qed.

Lemma delegate_reachable_inv fn a s : rtc (ok_step false) (init fn a) s -> inv fn a s.
Proof.
  intros Hr. eapply (rtc_invariant (ok_step false) (inv fn a)); [|exact Hr|].
  - intros x y Hx Hxy. destruct (delegate_step_inv fn a x (Some y) Hx Hxy) as (s' & E & H). congruence.
  - unfold inv, init. cbn. do 2 eexists. split_and!; done.
Qed.

(** A delegated call is safe and exact when condition waits return only
    after a signal: in every interleaving of creator and executor no step
    touches a freed delegate, [avbox_delegate_wait] returns the value of the
    function, and when both threads are done the delegate was freed. *)
Lemma delegate_exact fn a s :
  rtc (ok_step false) (init fn a) s ->
  (forall o, step false s o -> o <> None) /\
  (forall r, creator s = CReturned r -> r = Some (fn a)) /\
  (executor s = EDone -> match creator s with CReturned _ | CDetached => del s = None | _ => True end).
Proof.
  intros Hr. apply delegate_reachable_inv in Hr as Hinv. split_and!.
  - intros o Ho. destruct (delegate_step_inv fn a s o Hinv Ho) as (s' & -> & _). done.
  - intros r Ec. unfold inv in Hinv. rewrite Ec in Hinv. tauto.
  - intros Ee. unfold inv in Hinv. destruct (creator s); rewrite ?Ee in Hinv; tauto.
Qed.

(** [avbox_delegate_wait] tests [finished] with an [if]: a spurious
    wake-up of the condition lets it return without a result and free the
    delegate the executor has yet to run, which then uses freed memory. *)
Lemma spurious_wait_frees_running fn a :
  exists s, rtc (ok_step true) (init fn a) s /\ creator s = CReturned None /\ executor s = EWaiting /\
    execute_call s = None.
Proof.
  exists (State None EWaiting (CReturned None) false). split_and!; try done.
  eapply rtc_l; [apply (StepWait true (init fn a)); done|].
  eapply rtc_l; [apply StepWake; done|].
  eapply rtc_once. apply (StepEnd true (wait_wake (State (Some (Del fn a None false 0)) EWaiting CBlocked false))). done.
Qed.

Lemma delegate_demo_run (fn : Z -> Z) (a : Z) :
  rtc (ok_step false) (init fn a) (State None EDone (CReturned (Some (fn a))) true).
Proof.
  apply (rtc_l _ _ (State (Some (Del fn a None false 0)) EWaiting CBlocked false));
    [exact (StepWait false (init fn a) eq_refl)|].
  apply (rtc_l _ _ (State (Some (Del fn a (Some (fn a)) false 0)) ERan CBlocked false));
    [exact (StepCall false (State (Some (Del fn a None false 0)) EWaiting CBlocked false) eq_refl)|].
  apply (rtc_l _ _ (State (Some (Del fn a (Some (fn a)) true 0)) EDone CBlocked true));
    [exact (StepFinish false (State (Some (Del fn a (Some (fn a)) false 0)) ERan CBlocked false) eq_refl)|].
  apply (rtc_l _ _ (State (Some (Del fn a (Some (fn a)) true 0)) EDone CPast true));
    [exact (StepWake false (State (Some (Del fn a (Some (fn a)) true 0)) EDone CBlocked true) eq_refl eq_refl)|].
  apply rtc_once. exact (StepEnd false (State (Some (Del fn a (Some (fn a)) true 0)) EDone CPast true) eq_refl).
Qed.

Lemma delegate_exact_witness : Some 42 = Some ((fun x => x + 1) 41).
Proof. apply (proj1 (proj2 (delegate_exact _ _ _ (delegate_demo_run (fun x => x + 1) 41))) (Some 42)). reflexivity. Defined.

End Delegate.

(** ** Work queue *)
Module Pool.

(** The fields of [struct avbox_thread] the pool looks at; [no] tells the
    threads apart. *)
Record avbox_thread := Thread {
  no : Z;
  start_time : timespec;
  stop_time : timespec;
}.

(** The loop of [avbox_thread_pick]; [now] are the clock readings of its
    turns. *)
Fixpoint pick_loop (ts : list (avbox_thread * timespec)) (best : option avbox_thread) (best_time : timespec) :
    option avbox_thread :=
  match ts with
  | [] => best
  | (t, now) :: ts =>
      if timegte (stop_time t) (start_time t) then Some t
      else
        let runtime := timediff (Some now) (Some (start_time t)) in
        if timelt runtime best_time then pick_loop ts (Some t) runtime
        else pick_loop ts best best_time
  end.

(** The final [assert] makes an empty result an abort. *)
Definition avbox_thread_pick (ts : list (avbox_thread * timespec)) : option avbox_thread :=
  pick_loop ts None (Timespec 16777215 (999 * 1000 * 1000)).

(** A thread is idle when its last job ended after it began. *)
Definition idle (t : avbox_thread) : bool := timegte (stop_time t) (start_time t).

(** A reading of the loop is well formed: the clock has not gone back. *)
Definition reading_ok (p : avbox_thread * timespec) : Prop :=
  sane_time (start_time p.1) /\ sane_time (stop_time p.1) /\ sane_time p.2 /\ ns (start_time p.1) <= ns p.2.

(** How long a thread has been running at the reading. *)
Definition running_for (p : avbox_thread * timespec) : Z := ns p.2 - ns (start_time p.1).

Lemma runtime_ns p : reading_ok p ->
  ns (timediff (Some p.2) (Some (start_time p.1))) = - running_for p /\
  normal (timediff (Some p.2) (Some (start_time p.1))).
Proof.
  intros (Hs & _ & Hn & _). destruct (sane_time_sane _ Hs), (sane_time_sane _ Hn).
  destruct (timediff_ns (Some p.2) (Some (start_time p.1))) as [E N]; [done..|].
  split; [|done]. rewrite E. unfold running_for. cbn. lia.
Qed.

(** The busy threads seen so far: the one kept has run longest. *)
Lemma pick_loop_busy ts best bt :
  normal bt -> Forall reading_ok ts -> Forall (fun p => idle p.1 = false) ts ->
  (pick_loop ts best bt = best /\ Forall (fun p => ns bt <= - running_for p) ts) \/
  exists p, p ∈ ts /\ pick_loop ts best bt = Some p.1 /\ - running_for p < ns bt /\
    Forall (fun p' => running_for p' <= running_for p) ts.
Proof.
  revert best bt. induction ts as [|p ts IH]; intros best bt Hbt Hok Hbusy; [left; split; [done|constructor]|].
  apply Forall_cons in Hok as [Hp Hok], Hbusy as [Hb Hbusy].
  destruct (runtime_ns p Hp) as [Er Hr]. destruct p as [t now]. cbn in *. unfold idle in Hb. rewrite Hb.
  pose proof (timelt_ns _ bt Hr Hbt) as Hlt. destruct (timelt _ bt) eqn:El.
  - apply proj1 in Hlt. specialize (Hlt eq_refl). rewrite Er in Hlt. right.
    destruct (IH (Some t) (timediff (Some now) (Some (start_time t))) Hr Hok Hbusy) as [[-> Hall]|(p & Hin & -> & Hlt' & Hall)].
    + exists (t, now). split_and!; [by left|done|done|]. constructor; [lia|].
      eapply Forall_impl; [exact Hall|]. cbn. intros x. rewrite Er. lia.
    + exists p. rewrite Er in Hlt'. split_and!; [by right|done|lia|]. constructor; [|done]. lia.
  - assert (ns bt <= - running_for (t, now)) as Hge.
    { rewrite <- Er. assert (~ ns (timediff (Some now) (Some (start_time t))) < ns bt); [|lia].
      rewrite <- Hlt. congruence. }
    destruct (IH best bt Hbt Hok Hbusy) as [[-> Hall]|(p & Hin & -> & Hlt' & Hall)].
    + left. split; [done|]. by constructor.
    + right. exists p. split_and!; [by right|done|done|]. constructor; [|done]. lia.
Qed.

(** An idle thread is taken as soon as one is met. *)
Lemma pick_loop_idle ts best bt :
  Exists (fun p => idle p.1 = true) ts -> exists p, p ∈ ts /\ pick_loop ts best bt = Some p.1 /\ idle p.1 = true.
Proof.
  revert best bt. induction ts as [|[t now] ts IH]; intros best bt Hex; [by apply Exists_nil in Hex|]. cbn.
  destruct (timegte (stop_time t) (start_time t)) eqn:Ei.
  { exists (t, now). split_and!; [by left|done|done]. }
  apply Exists_cons in Hex as [Hex|Hex]; [unfold idle in Hex; cbn in Hex; congruence|].
  assert (forall b bt', exists p, p ∈ (t, now) :: ts /\ pick_loop ts b bt' = Some p.1 /\ idle p.1 = true) as H.
  { intros b bt'. destruct (IH b bt' Hex) as (p & Hin & E & Hi). exists p. split_and!; [by right|done|done]. }
  destruct (timelt _ bt); apply H.
Qed.

(** [avbox_thread_pick] never fails on a non-empty pool.  It picks an
    idle thread when there is one; when every thread is busy it picks the
    one that has been running the longest (the comment says the
    shortest). *)
Lemma pick_longest_running ts :
  ts <> [] -> Forall reading_ok ts ->
  (Exists (fun p => idle p.1 = true) ts ->
     exists p, p ∈ ts /\ avbox_thread_pick ts = Some p.1 /\ idle p.1 = true) /\
  (Forall (fun p => idle p.1 = false) ts ->
     exists p, p ∈ ts /\ avbox_thread_pick ts = Some p.1 /\
       forall p', p' ∈ ts -> running_for p' <= running_for p).
Proof.
  intros Hne Hok. split.
  - apply pick_loop_idle.
  - intros Hbusy. unfold avbox_thread_pick.
    destruct (pick_loop_busy ts None (Timespec 16777215 (999 * 1000 * 1000))) as [[_ Hall]|(p & Hin & -> & _ & Hall)];
      [done|done|done| |].
    + exfalso. destruct ts as [|p ts]; [done|]. apply Forall_cons in Hall as [Hp _], Hok as [Hok _].
      destruct Hok as (_ & _ & _ & Hle). unfold running_for, ns, NSEC in *. cbn in Hp. lia.
    + exists p. split_and!; [done|done|]. by apply Forall_forall.
Qed.

Lemma pick_longest_running_witness :
  avbox_thread_pick
    [(Thread 0 (Timespec 10 0) (Timespec 9 0), Timespec 20 0); (Thread 1 (Timespec 15 0) (Timespec 9 0), Timespec 20 0)]
  = Some (Thread 0 (Timespec 10 0) (Timespec 9 0)).
Proof.
  destruct (pick_longest_running
    [(Thread 0 (Timespec 10 0) (Timespec 9 0), Timespec 20 0);
     (Thread 1 (Timespec 15 0) (Timespec 9 0), Timespec 20 0)]) as [_ H].
  - discriminate.
  - repeat constructor; vm_compute; congruence.
  - destruct H as (p & Hin & -> & Hmax); [repeat constructor|].
    apply elem_of_cons in Hin as [->|Hin]; [reflexivity|].
    apply list_elem_of_singleton in Hin as ->.
    specialize (Hmax (Thread 0 (Timespec 10 0) (Timespec 9 0), Timespec 20 0) ltac:(left)).
    vm_compute in Hmax. congruence.
Defined.

End Pool.
