(* ===== verification/Threads.v ===== *)
(** * Threads and their message loops (src/lib/thread.c)

    Module [Start] models [avbox_thread_new] and the beginning of
    [avbox_thread_run]: two threads that meet on a mutex and a condition.
    Module [Loop] models the message loop and [avbox_thread_msghandler] over
    the inbox of the thread, which is the queue of [Queue] with its order
    and its closing.  Module [Workqueue] models the pool of threads.  The
    choice of a thread is [Pool.avbox_thread_pick] of [Delegate]. *)

From S2P Require Import Prelude TimeUtil Delegate.

(** ** Starting a thread *)
Module Start.

(** The creator holds [thread->mutex] until it waits. *)
Inductive creator_phase := CLocked | CSpawned | CWaiting | CReturned (r : bool).
Inductive runner_phase := RNone | RInit | RReady (ok : bool) | RLoop | RGone.

(** [running]: the field of the structure, [None] once it is freed. *)
Record start_state := State {
  running : option bool; creator : creator_phase; runner : runner_phase; signalled : bool }.

Definition start_init : start_state := State (Some false) CLocked RNone false.

(** pthread_create; when it fails the structure is freed. *)
Definition thread_create (ok : bool) (s : start_state) : option start_state :=
  r ← running s;
  if ok then Some (State (Some r) CSpawned RInit (signalled s))
  else Some (State None (CReturned false) RNone (signalled s)).

(** pthread_cond_wait releases the mutex. *)
Definition thread_wait (s : start_state) : option start_state :=
  r ← running s; Some (State (Some r) CWaiting (runner s) (signalled s)).

(** After the wait the creator looks at [running]. *)
Definition thread_woken (s : start_state) : option start_state :=
  r ← running s;
  Some (State (if (r : bool) then Some r else None) (CReturned r) (runner s) (signalled s)).

(** avbox_thread_run up to the mutex: [ok] when the dispatcher and the
    object could be created, which are stored in the structure. *)
Definition run_init (ok : bool) (s : start_state) : option start_state :=
  r ← running s; Some (State (Some r) (creator s) (RReady ok) (signalled s)).

(** The section under the mutex. *)
Definition run_signal (ok : bool) (s : start_state) : option start_state :=
  r ← running s;
  Some (State (Some (if ok then true else r)) (creator s) (if ok then RLoop else RGone) true).

(** [spurious] allows the wait to return without a signal. *)
Inductive step (spurious : bool) : start_state -> option start_state -> Prop :=
  | StepCreate s ok : creator s = CLocked -> step spurious s (thread_create ok s)
  | StepWait s : creator s = CSpawned -> step spurious s (thread_wait s)
  | StepInit s ok : runner s = RInit -> step spurious s (run_init ok s)
  | StepSignal s ok : runner s = RReady ok -> creator s <> CSpawned -> step spurious s (run_signal ok s)
  | StepWoken s : creator s = CWaiting -> signalled s || spurious = true -> step spurious s (thread_woken s).

Definition ok_step (spurious : bool) (s s' : start_state) : Prop := step spurious s (Some s').

Definition inv (s : start_state) : Prop :=
  match creator s, runner s with
  | CLocked, RNone => running s = Some false /\ signalled s = false
  | (CSpawned | CWaiting), (RInit | RReady _) => running s = Some false /\ signalled s = false
  | CWaiting, RLoop => running s = Some true /\ signalled s = true
  | CWaiting, RGone => running s = Some false /\ signalled s = true
  | CReturned true, RLoop => running s = Some true
  | CReturned false, (RNone | RGone) => running s = None
  | _, _ => False
  end.

Lemma start_step_inv s s' : inv s -> step false s s' -> exists s'', s' = Some s'' /\ inv s''.
Proof.
  intros Hi Hs. destruct s as [run c r sg]. unfold inv in *. cbn in *.
  inversion Hs as [? ok Hc|? Hc|? ok Hc|? ok Hc Hn|? Hc Hw]; subst; cbn in Hc, Hi; subst;
    unfold thread_create, thread_wait, run_init, run_signal, thread_woken; cbn in *.
  - destruct r; try done. destruct Hi as [-> ->]. destruct ok; by eexists.
  - destruct r; try done; destruct Hi as [-> ->]; by eexists.
  - destruct c as [| | |[]]; try done; destruct Hi as [-> ->]; by eexists.
  - destruct c as [| | |[]]; try done; destruct Hi as [-> ->]; destruct ok; by eexists.
  - destruct r; try done; destruct Hi as [-> ->]; try done; by eexists.
Qed.

Lemma start_reachable_inv s : rtc (ok_step false) start_init s -> inv s.
Proof.
  intros H. eapply (rtc_invariant (ok_step false) inv); [|exact H|done].
  intros x y Hx Hs. destruct (start_step_inv x _ Hx Hs) as (z & [= ->] & Hz). done.
Qed.

(** Starting a thread, if a condition wait only returns when it is
    signalled: neither side touches the structure after it is freed, the
    creator gets the thread exactly when its message loop runs, and when
    the thread could not be set up it has stopped using the structure
    before that is freed. *)
Lemma thread_new_exact s :
  rtc (ok_step false) start_init s ->
  (forall s', step false s s' -> is_Some s') /\
  (forall r, creator s = CReturned r ->
     if r then runner s = RLoop /\ running s = Some true
     else running s = None /\ (runner s = RNone \/ runner s = RGone)).
Proof.
  intros H. apply start_reachable_inv in H as Hi. split.
  - intros s' Hs. destruct (start_step_inv s s' Hi Hs) as (s'' & -> & _). done.
  - intros r Hr. unfold inv in Hi. rewrite Hr in Hi. destruct r, (runner s); auto; done.
Qed.

(** A wait that returns early frees the structure under the new thread. *)
Lemma spurious_wake_frees_running :
  exists s, rtc (ok_step true) start_init s /\ runner s = RReady true /\ step true s None.
Proof.
  exists (State None (CReturned false) (RReady true) false). split_and!; [|done|].
  - eapply rtc_l; [exact (StepCreate true start_init true eq_refl)|].
    eapply rtc_l; [exact (StepInit true (State (Some false) CSpawned RInit false) true eq_refl)|].
    eapply rtc_l; [exact (StepWait true (State (Some false) CSpawned (RReady true) false) eq_refl)|].
    apply rtc_once. exact (StepWoken true (State (Some false) CWaiting (RReady true) false) eq_refl eq_refl).
  - exact (StepSignal true (State None (CReturned false) (RReady true) false) true eq_refl ltac:(done)).
Qed.

Lemma thread_new_exact_witness :
  runner (State (Some true) (CReturned true) RLoop true) = RLoop.
Proof.
  refine (proj1 (proj2 (thread_new_exact (State (Some true) (CReturned true) RLoop true) _) true eq_refl)).
  eapply rtc_l; [exact (StepCreate false start_init true eq_refl)|].
  eapply rtc_l; [exact (StepWait false (State (Some false) CSpawned RInit false) eq_refl)|].
  eapply rtc_l; [exact (StepInit false (State (Some false) CWaiting RInit false) true eq_refl)|].
  eapply rtc_l; [exact (StepSignal false (State (Some false) CWaiting (RReady true) false) true eq_refl ltac:(done))|].
  apply rtc_once. exact (StepWoken false (State (Some true) CWaiting RLoop true) eq_refl eq_refl).
Defined.

End Start.

(** ** The message loop *)
Module Loop.

Inductive thread_msg := MDelegate (d : Z) | MDestroy | MCleanup | MUser (id : Z).

#[export] Instance message_eq_dec : EqDecision thread_msg.
Proof. solve_decision. Defined.

(** What the thread does, in order: it executes a delegate, or calls the
    handler it was created with. *)
Inductive action := Execute (d : Z) | Handle (m : thread_msg).

Record avbox_thread := Thread {
  handler : bool;             (* a handler was given *)
  inbox : list thread_msg;       (* its queue, oldest first *)
  closed : bool;
  start_time : timespec; stop_time : timespec;
  done : list action;
  ended : bool }.             (* it has left the loop *)

Definition act (a : action) (t : avbox_thread) : avbox_thread :=
  Thread (handler t) (inbox t) (closed t) (start_time t) (stop_time t) (done t ++ [a]) (ended t).

Definition call_handler (m : thread_msg) (t : avbox_thread) : avbox_thread :=
  if handler t then act (Handle m) t else t.

(** [t1] and [t2] are the clock readings around a delegate. *)
Definition avbox_thread_msghandler (t1 t2 : timespec) (m : thread_msg) (t : avbox_thread) : option avbox_thread :=
  match m with
  | MDelegate d =>
      let t := act (Execute d) t in
      Some (Thread (handler t) (inbox t) (closed t) t1 t2 (done t) (ended t))
  | MDestroy => Some (call_handler m t)
  | MCleanup =>
      Some (call_handler m
        (Thread (handler t) (inbox t) true (start_time t) (stop_time t) (done t) (ended t)))
  | MUser _ => if handler t then Some (act (Handle m) t) else None
  end.

(** One turn of the loop of avbox_thread_run: a message is taken and
    dispatched; a closed, empty queue ends the loop. [None]: the thread
    waits, or aborts. *)
Definition loop_turn (t1 t2 : timespec) (t : avbox_thread) : option avbox_thread :=
  if ended t then None
  else match inbox t with
  | m :: l =>
      avbox_thread_msghandler t1 t2 m
        (Thread (handler t) l (closed t) (start_time t) (stop_time t) (done t) (ended t))
  | [] =>
      if closed t
      then Some (Thread (handler t) [] (closed t) (start_time t) (stop_time t) (done t) true)
      else None
  end.

(** A message is queued, also after the queue was closed. *)
Definition post (m : thread_msg) (t : avbox_thread) : avbox_thread :=
  Thread (handler t) (inbox t ++ [m]) (closed t) (start_time t) (stop_time t) (done t) (ended t).

Definition avbox_thread_delegate (d : Z) (t : avbox_thread) : avbox_thread := post (MDelegate d) t.

(** The loop as it runs beside the senders; the label is what was sent. *)
Inductive step : avbox_thread -> option thread_msg -> avbox_thread -> Prop :=
  | StepTurn t1 t2 t t' : loop_turn t1 t2 t = Some t' -> step t None t'
  | StepPost m t : step t (Some m) (post m t).

Inductive runs : avbox_thread -> list thread_msg -> avbox_thread -> Prop :=
  | runs_nil t : runs t [] t
  | runs_turn t ms t' t'' : runs t ms t' -> step t' None t'' -> runs t ms t''
  | runs_post t ms t' m t'' : runs t ms t' -> step t' (Some m) t'' -> runs t (ms ++ [m]) t''.

Definition fresh (h : bool) (now : timespec) : avbox_thread := Thread h [] false now now [] false.

(** What a message makes the thread do. *)
Definition effect (h : bool) (m : thread_msg) : list action :=
  match m with MDelegate d => [Execute d] | _ => if h then [Handle m] else [] end.

Lemma msghandler_effect t1 t2 m t t' :
  avbox_thread_msghandler t1 t2 m t = Some t' ->
  done t' = done t ++ effect (handler t) m /\ handler t' = handler t /\ inbox t' = inbox t /\ ended t' = ended t /\
  closed t' = closed t || bool_decide (m = MCleanup).
Proof.
  destruct t as [h l c s1 s2 dn e]. unfold avbox_thread_msghandler, call_handler, effect. cbn. intros E.
  destruct m, h; simplify_eq/=; rewrite ?app_nil_r, ?orb_false_r, ?orb_true_r; by split_and!.
Qed.

Lemma turn_spec t1 t2 t t' :
  loop_turn t1 t2 t = Some t' ->
  handler t' = handler t /\ ended t = false /\
  match inbox t with
  | m :: l => inbox t' = l /\ done t' = done t ++ effect (handler t) m /\ ended t' = false
  | [] => inbox t' = [] /\ done t' = done t /\ closed t = true /\ ended t' = true
  end.
Proof.
  unfold loop_turn. destruct (ended t) eqn:Ee; [done|]. destruct (inbox t) as [|m l].
  - destruct (closed t) eqn:Ec; [|done]. intros [= <-]. by split_and!.
  - intros H. apply msghandler_effect in H as (D & Hh & Hl & He & _). cbn in *. by split_and!.
Qed.

(** What was done and what is left is what was sent. *)
Lemma runs_order t ms t' :
  runs t ms t' -> handler t' = handler t /\
  done t' ++ flat_map (effect (handler t)) (inbox t') =
  done t ++ flat_map (effect (handler t)) (inbox t ++ ms).
Proof.
  induction 1 as [t|t ms t' t'' _ IH Hs|t ms t' m t'' _ IH Hs].
  - by rewrite app_nil_r.
  - destruct IH as [Eh IH]. inversion Hs as [t1 t2 ? ? E|]; subst. apply turn_spec in E as (Eh' & _ & E).
    split; [congruence|]. rewrite <- IH. rewrite Eh in E. destruct (inbox t') as [|m l].
    + destruct E as (-> & -> & _). done.
    + destruct E as (-> & -> & _). cbn. by rewrite <- app_assoc.
  - destruct IH as [Eh IH]. inversion Hs; subst. cbn. split; [done|].
    rewrite flat_map_app, app_assoc, IH, app_assoc, <- !app_assoc, !flat_map_app, <- !app_assoc. done.
Qed.

(** The delegates among the things done. *)
Definition executed (l : list action) : list Z :=
  flat_map (fun a => match a with Execute d => [d] | _ => [] end) l.
Definition delegates (l : list thread_msg) : list Z :=
  flat_map (fun m => match m with MDelegate d => [d] | _ => [] end) l.

Lemma executed_effects h l : executed (flat_map (effect h) l) = delegates l.
Proof.
  induction l as [|m l IH]; [done|]. cbn [flat_map]. unfold executed in *. rewrite flat_map_app, IH.
  by destruct m, h.
Qed.

(** A thread executes what it is given: whatever else is sent to it and
    however sending and executing interleave, the delegates executed so far
    followed by those still in its queue are those that were sent, in that
    order, and a thread that has left its loop with an empty queue has
    executed every one of them exactly once. *)
Lemma delegates_executed_in_order h now ms t :
  runs (fresh h now) ms t ->
  executed (done t) ++ delegates (inbox t) = delegates ms /\
  (inbox t = [] -> executed (done t) = delegates ms).
Proof.
  intros H. apply runs_order in H as [_ H]. cbn in H.
  assert (executed (done t) ++ delegates (inbox t) = delegates ms) as E.
  { rewrite <- !(executed_effects h), <- H. unfold executed. by rewrite flat_map_app. }
  split; [done|]. intros Hn. rewrite Hn in E. cbn in E. by rewrite app_nil_r in E.
Qed.

(** Messages a thread can handle. *)
Definition handled (h : bool) (m : thread_msg) : Prop := match m with MUser _ => h = true | _ => True end.

Fixpoint turns (n : nat) (t1 t2 : timespec) (t : avbox_thread) : option avbox_thread :=
  match n with O => Some t | S n => t ← loop_turn t1 t2 t; turns n t1 t2 t end.

(** A thread that was told to clean up ends: it works off its queue, in as
    many turns as there are messages and one more. *)
Lemma loop_ends t1 t2 l : forall t,
  inbox t = l -> ended t = false -> Forall (handled (handler t)) l -> closed t = true \/ MCleanup ∈ l ->
  exists t', turns (S (length l)) t1 t2 t = Some t' /\ ended t' = true /\ inbox t' = [] /\
    executed (done t') = executed (done t) ++ delegates l.
Proof.
  induction l as [|m l IH]; intros t El Ee Hh Hc; cbn [turns length].
  - destruct Hc as [Hc|Hc]; [|by apply elem_of_nil in Hc]. unfold loop_turn. rewrite Ee, El, Hc. cbn.
    eexists. split; [reflexivity|]. cbn. by rewrite app_nil_r.
  - apply Forall_cons in Hh as [Hm Hh].
    assert (exists t', loop_turn t1 t2 t = Some t') as [t' Et].
    { unfold loop_turn. rewrite Ee, El. destruct m; cbn in *; try by eexists. rewrite Hm. by eexists. }
    rewrite Et. cbn [mbind option_bind]. pose proof Et as Et'. unfold loop_turn in Et'. rewrite Ee, El in Et'.
    apply msghandler_effect in Et' as (D & Hh' & Hl & He & Hcl). cbn in D, Hh', Hl, He, Hcl.
    destruct (IH t' Hl) as (u & Eu & U1 & U2 & U3).
    + by rewrite He.
    + by rewrite Hh'.
    + rewrite Hcl. destruct Hc as [->|Hc]; [by left|]. apply elem_of_cons in Hc as [<-|Hc]; [left|by right].
      by rewrite bool_decide_true, orb_true_r.
    + exists u. split; [exact Eu|]. split; [done|]. split; [done|]. rewrite U3, D.
      unfold executed, delegates. rewrite flat_map_app, <- app_assoc. f_equal. cbn [flat_map]. by destruct m, (handler t).
Qed.

(** Without a handler of its own a thread aborts on any other message. *)
Lemma unhandled_aborts t1 t2 id t : handler t = false -> avbox_thread_msghandler t1 t2 (MUser id) t = None.
Proof. intros H. cbn. by rewrite H. Qed.

(** A delegate sent after the loop ended is never executed. *)
Lemma late_delegate_lost d t1 t2 t : ended t = true -> loop_turn t1 t2 (avbox_thread_delegate d t) = None.
Proof. intros H. unfold loop_turn. cbn. by rewrite H. Qed.

Lemma delegates_executed_in_order_witness :
  exists t, runs (fresh false (Timespec 0 0)) [MDelegate 1; MDelegate 2] t /\ executed (done t) = [1; 2].
Proof.
  set (z := Timespec 0 0).
  set (t0 := fresh false z). set (t2 := post (MDelegate 2) (post (MDelegate 1) t0)).
  assert (runs t0 [MDelegate 1; MDelegate 2] t2) as R0.
  { apply (runs_post t0 [MDelegate 1] (post (MDelegate 1) t0)); [|constructor].
    apply (runs_post t0 [] t0); [constructor|constructor]. }
  eexists. split.
  - eapply runs_turn; [eapply runs_turn; [exact R0|apply (StepTurn z z); reflexivity]|apply (StepTurn z z); reflexivity].
  - refine (proj2 (delegates_executed_in_order false z [MDelegate 1; MDelegate 2] _ _) _); [|reflexivity].
    eapply runs_turn; [eapply runs_turn; [exact R0|apply (StepTurn z z); reflexivity]|apply (StepTurn z z); reflexivity].
Defined.

End Loop.

(** ** The pool *)
Module Workqueue.

Definition N_THREADS : nat := 3.

(** The list of the pool and the threads that were destroyed. *)
Record pool := Pool { workqueue_threads : list Z; freed : list Z }.

(** Destroys the thread object, joins the thread and frees it. *)
Definition avbox_thread_destroy (t : Z) (p : pool) : option pool :=
  if bool_decide (t ∈ freed p) then None else Some (Pool (workqueue_threads p) (freed p ++ [t])).

Fixpoint destroy_all (ts : list Z) (p : pool) : option pool :=
  match ts with
  | [] => Some p
  | t :: ts => p ← avbox_thread_destroy t p; destroy_all ts p
  end.

(** [answers]: the threads avbox_thread_new gives, and whether the first
    call could be delegated to each.  On a failure the threads on the list
    are destroyed and stay on it. *)
Fixpoint init_loop (n : nat) (answers : list (option Z * bool)) (p : pool) : option (Z * pool) :=
  match n, answers with
  | O, _ => Some (0, p)
  | S _, [] => None
  | S n, (Some t, true) :: answers => init_loop n answers (Pool (workqueue_threads p ++ [t]) (freed p))
  | S _, (thread, _) :: _ =>
      p ← (match thread with Some t => avbox_thread_destroy t p | None => Some p end);
      p ← destroy_all (workqueue_threads p) p;
      Some (-1, p)
  end.

Definition avbox_workqueue_init (answers : list (option Z * bool)) (p : pool) : option (Z * pool) :=
  init_loop N_THREADS answers (Pool [] (freed p)).

(** From the tail, until the list is empty. *)
Fixpoint shutdown_loop (fuel : nat) (p : pool) : option pool :=
  match fuel with
  | O => None
  | S fuel =>
      match last (workqueue_threads p) with
      | None => Some p
      | Some t =>
          p ← avbox_thread_destroy t (Pool (removelast (workqueue_threads p)) (freed p));
          shutdown_loop fuel p
      end
  end.

Definition avbox_workqueue_shutdown (p : pool) : option pool :=
  shutdown_loop (S (length (workqueue_threads p))) p.

(** The delegate goes to the thread picked ([readings]: the threads of the
    list with the clock readings of the loop); [ts] are the threads by
    number. *)
Definition avbox_workqueue_delegate (d : Z) (readings : list (Pool.avbox_thread * timespec))
    (ts : gmap Z Loop.avbox_thread) : option (gmap Z Loop.avbox_thread) :=
  t ← Pool.avbox_thread_pick readings;
  th ← ts !! Pool.no t;
  Some (<[Pool.no t := Loop.avbox_thread_delegate d th]> ts).

(** With an idle thread on the list the call is queued to the first one,
    and nowhere else. *)
Lemma workqueue_delegate_idle d readings ts t th now before rest :
  readings = before ++ (t, now) :: rest -> Forall (fun p => Pool.idle p.1 = false) before ->
  Pool.idle t = true -> ts !! Pool.no t = Some th ->
  exists ts', avbox_workqueue_delegate d readings ts = Some ts' /\
    Loop.inbox <$> ts' !! Pool.no t = Some (Loop.inbox th ++ [Loop.MDelegate d]) /\
    (forall n, n <> Pool.no t -> ts' !! n = ts !! n).
Proof.
  intros -> Hb Hi Ht. unfold avbox_workqueue_delegate, Pool.avbox_thread_pick.
  assert (forall best bt, Pool.pick_loop (before ++ (t, now) :: rest) best bt = Some t) as ->.
  { induction before as [|[u n] before IH]; intros best bt; cbn [app Pool.pick_loop].
    - unfold Pool.idle in Hi. by rewrite Hi.
    - apply Forall_cons in Hb as [Hu Hb]. unfold Pool.idle in Hu. cbn in Hu. rewrite Hu.
      destruct (timelt _ _); by apply IH. }
  cbn [mbind option_bind]. rewrite Ht. cbn [mbind option_bind]. eexists. split; [reflexivity|]. split.
  - by rewrite lookup_insert_eq.
  - intros n Hn. by rewrite lookup_insert_ne.
Qed.

Lemma shutdown_frees ts : forall fr,
  NoDup ts -> (forall t, t ∈ ts -> t ∉ fr) ->
  shutdown_loop (S (length ts)) (Pool ts fr) = Some (Pool [] (fr ++ rev ts)).
Proof.
  induction ts as [|t ts IH] using rev_ind; intros fr Hn Hf.
  { cbn. by rewrite app_nil_r. }
  rewrite length_app, Nat.add_1_r. remember (S (length ts)) as n eqn:En. cbn [shutdown_loop workqueue_threads freed]. rewrite last_snoc, removelast_last.
  unfold avbox_thread_destroy. cbn [freed workqueue_threads].
  apply NoDup_app in Hn as (Hn & Hd & _).
  rewrite bool_decide_false by (apply Hf; set_solver). cbn [mbind option_bind].
  rewrite IH; [|done|].
  - rewrite rev_app_distr, <- app_assoc. done.
  - intros x Hx. rewrite elem_of_app, list_elem_of_singleton. intros [Hx'|<-]; [by eapply Hf; [|exact Hx']; set_solver|].
    apply (Hd x Hx). set_solver.
Qed.

(** A pool that came up is shut down completely: every thread is destroyed
    once, the last one first. *)
Lemma pool_life t1 t2 t3 fr :
  NoDup [t1; t2; t3] -> (forall t, t ∈ [t1; t2; t3] -> t ∉ fr) ->
  exists p, avbox_workqueue_init [(Some t1, true); (Some t2, true); (Some t3, true)] (Pool [] fr) = Some (0, p) /\
    workqueue_threads p = [t1; t2; t3] /\
    avbox_workqueue_shutdown p = Some (Pool [] (fr ++ [t3; t2; t1])).
Proof.
  intros Hn Hf. eexists. split; [reflexivity|]. split; [done|].
  exact (shutdown_frees [t1; t2; t3] fr Hn Hf).
Qed.

(** When a later thread cannot be created, those already running are freed
    and left on the list; shutting down frees them again. *)
Lemma init_failure_dangles t rest fr :
  t ∉ fr ->
  exists p, avbox_workqueue_init ((Some t, true) :: (None, rest) :: []) (Pool [] fr) = Some (-1, p) /\
    t ∈ workqueue_threads p /\ t ∈ freed p /\ avbox_workqueue_shutdown p = None.
Proof.
  intros Ht. unfold avbox_workqueue_init. cbn. unfold avbox_thread_destroy. cbn.
  rewrite bool_decide_false by done. cbn. eexists. split; [reflexivity|]. cbn.
  split_and!; [set_solver|set_solver|]. unfold avbox_workqueue_shutdown, avbox_thread_destroy. cbn.
  rewrite bool_decide_true by set_solver. done.
Qed.

End Workqueue.
