(* ===== verification/Clocks.v ===== *)
(** * Stopwatch and checkpoint (src/lib/stopwatch.c, include/libavbox/checkpoint.h)

    The stopwatch of the player's clock, and the checkpoint at which the
    player halts its worker threads: module [Checkpoint] models the worker
    and its controller as interleaved steps. *)

From S2P Require Import Prelude TimeUtil.

Open Scope avbox_scope.

Module Stopwatch.

Record avbox_stopwatch := Stopwatch { reset : Z; value : Z; running : bool }.

(** [now] is the reading of the clock; times are 64-bit microseconds. *)
Definition avbox_stopwatch_reset (now : timespec) (inst : avbox_stopwatch) (v : Z) : avbox_stopwatch :=
  Stopwatch (utimediff (Some now) None) v false.

Definition avbox_stopwatch_time (now : timespec) (inst : avbox_stopwatch) : Z :=
  if running inst then s64 (s64 (utimediff (Some now) None - reset inst) + value inst) else value inst.

(** [start] and [stop] read the clock twice: once for the time, once for
    the reset. *)
Definition avbox_stopwatch_start (now1 now2 : timespec) (inst : avbox_stopwatch) : avbox_stopwatch :=
  let inst := avbox_stopwatch_reset now2 inst (avbox_stopwatch_time now1 inst) in
  Stopwatch (reset inst) (value inst) true.

Definition avbox_stopwatch_running (inst : avbox_stopwatch) : bool := running inst.

Definition avbox_stopwatch_stop (now1 now2 : timespec) (inst : avbox_stopwatch) : avbox_stopwatch :=
  avbox_stopwatch_reset now2 inst (avbox_stopwatch_time now1 inst).

Definition avbox_stopwatch_new : avbox_stopwatch := Stopwatch 0 0 false.

(** A lap: started and stopped, with the clock readings of both calls. *)
Record lap := Lap { start1 : timespec; start2 : timespec; stop1 : timespec; stop2 : timespec }.

Definition run_lap (inst : avbox_stopwatch) (l : lap) : avbox_stopwatch :=
  avbox_stopwatch_stop (stop1 l) (stop2 l) (avbox_stopwatch_start (start1 l) (start2 l) inst).

(** Microseconds of an instant, as the code computes them. *)
Definition us (t : timespec) : Z := utimediff (Some t) None.

Definition lap_time (l : lap) : Z := us (stop1 l) - us (start2 l).

Lemma s64_drop a b : s64 (s64 a + b) = s64 (a + b).
Proof. destruct (wraps_cong 64 a ltac:(lia)) as [k ->]. rewrite <- (wraps_shift 64 (a + b) k). f_equal. lia. Qed.

Lemma run_lap_value inst l :
  running inst = false -> running (run_lap inst l) = false /\
  value (run_lap inst l) = s64 (lap_time l + value inst).
Proof.
  intros Hr. unfold run_lap, avbox_stopwatch_stop, avbox_stopwatch_start, avbox_stopwatch_reset,
    avbox_stopwatch_time. cbn. rewrite Hr, s64_drop. split; [done|]. f_equal.
Qed.

(** The stopwatch shows, as a 64-bit count of microseconds, the value
    it was set to plus the length of every lap it ran, and a stopped
    stopwatch does not move; while it runs it shows the stopped value plus
    the time since it was started. *)
Lemma stopwatch_accumulates now v laps t0 t1 t2 t3 :
  let inst := foldl run_lap (avbox_stopwatch_reset now avbox_stopwatch_new v) laps in
  s64 (avbox_stopwatch_time t0 inst) = s64 (v + foldr (fun l a => lap_time l + a) 0 laps) /\
  avbox_stopwatch_time t0 inst = avbox_stopwatch_time t1 inst /\
  avbox_stopwatch_time t3 (avbox_stopwatch_start t1 t2 inst) =
    s64 (us t3 - us t2 + avbox_stopwatch_time t0 inst).
Proof.
  intros inst.
  assert (forall w, running w = false -> running (foldl run_lap w laps) = false /\
    s64 (value (foldl run_lap w laps)) = s64 (value w + foldr (fun l a => lap_time l + a) 0 laps)) as H.
  { induction laps as [|l laps IH]; intros w Hw; cbn; [split; [done|]; f_equal; lia|].
    destruct (run_lap_value w l Hw) as [Hr Hv]. destruct (IH (run_lap w l) Hr) as [H1 H2].
    split; [done|]. rewrite H2, Hv, s64_drop. f_equal. lia. }
  destruct (H (avbox_stopwatch_reset now avbox_stopwatch_new v) eq_refl) as [Hr Hv]. fold inst in Hr, Hv.
  unfold avbox_stopwatch_start, avbox_stopwatch_reset, avbox_stopwatch_time. cbn. rewrite Hr.
  split_and!; [done|done|]. by rewrite s64_drop.
Qed.

End Stopwatch.

(** ** Checkpoint *)
Module Checkpoint.

Definition AVBOX_CHECKPOINT_ENABLED : Z := 1.
Definition AVBOX_CHECKPOINT_HALTED : Z := 2.

Record avbox_checkpoint := Checkpoint { count : Z; state : Z }.

(** The worker in [avbox_checkpoint_here]: not in it, at the loop test,
    blocked on [released], past the loop with HALTED not yet cleared. *)
Inductive wphase := KRunning | KLoop | KBlocked | KLeaving.

Definition clear (s bit : Z) : Z := Z.land s (Z.lnot bit).

Definition avbox_checkpoint_init : avbox_checkpoint := Checkpoint 0 0.

(** The worker's steps. *)
Definition here_enter (c : avbox_checkpoint) : wphase := if count c >? 0 then KLoop else KRunning.

Definition here_loop (c : avbox_checkpoint) : wphase * avbox_checkpoint :=
  if count c >? 0 then (KBlocked, Checkpoint (count c) (Z.lor (state c) AVBOX_CHECKPOINT_HALTED))
  else (KLeaving, c).

Definition here_leave (c : avbox_checkpoint) : avbox_checkpoint :=
  Checkpoint (count c) (clear (state c) AVBOX_CHECKPOINT_HALTED).

(** The controller's operations. *)
Definition avbox_checkpoint_disable (c : avbox_checkpoint) : avbox_checkpoint :=
  Checkpoint (count c) (clear (state c) AVBOX_CHECKPOINT_ENABLED).

Definition avbox_checkpoint_enable (c : avbox_checkpoint) : avbox_checkpoint :=
  Checkpoint (count c) (Z.lor (state c) AVBOX_CHECKPOINT_ENABLED).

Definition avbox_checkpoint_halt (c : avbox_checkpoint) : avbox_checkpoint := Checkpoint (count c + 1) (state c).

(** [avbox_checkpoint_continue] asserts a positive count. *)
Definition avbox_checkpoint_continue (c : avbox_checkpoint) : option avbox_checkpoint :=
  if count c >? 0 then Some (Checkpoint (count c - 1) (state c)) else None.

(** [avbox_checkpoint_wait]: [c] is the state when it tests, [c'] after the
    timed wait. *)
Definition avbox_checkpoint_wait (c c' : avbox_checkpoint) : Z :=
  if state c =? AVBOX_CHECKPOINT_ENABLED then
    if negb (state c' =? AVBOX_CHECKPOINT_ENABLED) then 1 else 0
  else 1.

Definition avbox_checkpoint_halted (c : avbox_checkpoint) : bool :=
  negb (Z.land (state c) AVBOX_CHECKPOINT_HALTED =? 0).

(** Interleaving of the worker and the controllers; a condition wait may
    return at any time. *)
Inductive step : wphase * avbox_checkpoint -> wphase * avbox_checkpoint -> Prop :=
  | StepEnter c : step (KRunning, c) (here_enter c, c)
  | StepLoop c : step (KLoop, c) (here_loop c)
  | StepWake c : step (KBlocked, c) (KLoop, c)
  | StepLeave c : step (KLeaving, c) (KRunning, here_leave c)
  | StepHalt w c : step (w, c) (w, avbox_checkpoint_halt c)
  | StepContinue w c c' : avbox_checkpoint_continue c = Some c' -> step (w, c) (w, c')
  | StepEnable w c : step (w, c) (w, avbox_checkpoint_enable c)
  | StepDisable w c : step (w, c) (w, avbox_checkpoint_disable c).

Definition in_loop (w : wphase) : Prop := w = KLoop \/ w = KBlocked.

(** Steps that leave the checkpoint halted. *)
Definition held_step (x y : wphase * avbox_checkpoint) : Prop := step x y /\ 0 < count y.2.

Definition start : wphase * avbox_checkpoint := (KRunning, avbox_checkpoint_init).

Lemma land_bit s : negb (Z.land s 2 =? 0) = Z.testbit s 1.
Proof.
  destruct (Z.testbit s 1) eqn:E.
  - apply negb_true_iff, Z.eqb_neq. intros H. apply (f_equal (fun z => Z.testbit z 1)) in H.
    rewrite Z.land_spec, E in H. done.
  - apply negb_false_iff, Z.eqb_eq. apply Z.bits_inj'. intros n Hn. rewrite Z.land_spec, Z.bits_0.
    destruct (decide (n = 1)) as [->|Hne]; [by rewrite E|].
    assert (Z.testbit 2 n = false) as ->; [|apply andb_false_r].
    change 2 with (2 ^ 1). apply Z.pow2_bits_false. lia.
Qed.

Lemma halted_bit c : avbox_checkpoint_halted c = Z.testbit (state c) 1.
Proof. apply land_bit. Qed.

(** HALTED is only set while the worker is in the checkpoint. *)
Lemma step_halted x y :
  step x y -> (avbox_checkpoint_halted x.2 = true -> x.1 <> KRunning) ->
  (avbox_checkpoint_halted y.2 = true -> y.1 <> KRunning).
Proof.
  intros Hst. rewrite !halted_bit. destruct Hst; cbn [fst snd]; try done.
  - unfold here_enter. destruct (count c >? 0); [done|]. tauto.
  - unfold here_loop. destruct (count c >? 0); done.
  - intros _. unfold here_leave, clear. cbn [state]. rewrite Z.land_spec, Z.lnot_spec by lia.
    by rewrite andb_false_r.
  - unfold avbox_checkpoint_continue in *. destruct (count c >? 0); [|done]. by simplify_eq.
  - unfold avbox_checkpoint_enable. cbn [state]. rewrite Z.lor_spec. by rewrite orb_false_r.
  - unfold avbox_checkpoint_disable, clear. cbn [state]. rewrite Z.land_spec, Z.lnot_spec by lia.
    by rewrite andb_true_r.
Qed.

Lemma held_in_loop x y : held_step x y -> 0 < count x.2 -> in_loop x.1 -> in_loop y.1.
Proof.
  intros [Hst Hy] Hx. unfold in_loop. destruct Hst; cbn in *; try tauto; try (intros [?|?]; discriminate).
  unfold here_loop. assert ((count c >? 0) = true) as -> by lia. cbn. tauto.
Qed.

(** A halted checkpoint holds its worker: the HALTED flag is never set
    while the worker runs outside of the checkpoint, and a worker that has
    entered the loop while the checkpoint is halted stays there, in every
    interleaving and through every wake-up, for as long as the count stays
    positive. *)
Lemma checkpoint_holds x y :
  (rtc step start x -> avbox_checkpoint_halted x.2 = true -> x.1 <> KRunning) /\
  (0 < count x.2 -> in_loop x.1 -> rtc held_step x y -> in_loop y.1).
Proof.
  split.
  - intros Hr. apply (rtc_invariant step (fun x => avbox_checkpoint_halted x.2 = true -> x.1 <> KRunning))
      with (x := start); [eauto using step_halted|done|done].
  - intros Hx Hl Hr. assert (0 < count y.2 /\ in_loop y.1) as [_ ?]; [|done].
    apply (rtc_invariant held_step (fun x => 0 < count x.2 /\ in_loop x.1)) with (x := x); [|done|done].
    intros a b [Ha Hla] Hab. split; [apply Hab|]. by eapply held_in_loop.
Qed.

(** The HALTED flag is cleared after the loop and outside of the lock:
    when the controller continues and halts again before the worker clears
    it, [avbox_checkpoint_wait] answers from the stale flag that the worker
    is halted, and the worker then runs on while the count is positive. *)
Lemma checkpoint_wait_stale :
  exists c, rtc step start (KLeaving, c) /\ 0 < count c /\ avbox_checkpoint_wait c c = 1 /\
    avbox_checkpoint_halted c = true /\ step (KLeaving, c) (KRunning, here_leave c) /\
    0 < count (here_leave c).
Proof.
  exists (Checkpoint 1 3). split_and!; try done; [|apply StepLeave].
  eapply rtc_l; [apply StepEnable|]. eapply rtc_l; [apply StepHalt|]. eapply rtc_l; [apply StepEnter|].
  eapply rtc_l; [apply StepLoop|]. eapply rtc_l; [by apply StepContinue|].
  eapply rtc_l; [apply StepWake|]. eapply rtc_l; [apply StepLoop|]. eapply rtc_l; [apply StepHalt|].
  apply rtc_refl.
Qed.

Lemma checkpoint_holds_witness :
  in_loop KBlocked /\ in_loop KLoop.
Proof.
  split; [by right|].
  apply (proj2 (checkpoint_holds (KBlocked, Checkpoint 1 3) (KLoop, Checkpoint 1 3))); [done|by right|].
  apply rtc_once. split; [apply StepWake|done].
Defined.

End Checkpoint.
