(* ===== verification/Strings.v ===== *)
(** * String utilities (src/lib/string_util.c, src/lib/url_util.c)

    A C string is the list of its bytes without the terminator.  Where the
    code writes into a buffer it allocated, the buffer is a list of its
    [capacity] bytes and a write outside of it is [None]. *)

From S2P Require Import Prelude.

Open Scope avbox_scope.

Definition SPACE : byte := 32.
Definition TAB : byte := 9.
Definition PERCENT : byte := 37.
Definition PLUS : byte := 43.

(** The bytes of a string constant. *)
Definition text (s : string) : list byte :=
  map (fun a => Z.of_N (Ascii.N_of_ascii a)) (String.list_ascii_of_string s).

Definition isdigit (c : byte) : bool := (48 <=? c) && (c <=? 57).
Definition isxdigit (c : byte) : bool :=
  isdigit c || ((65 <=? c) && (c <=? 70)) || ((97 <=? c) && (c <=? 102)).

(** [memcpy(buf + off, src, len src)] *)
Definition memcpy (buf : list byte) (off : Z) (src : list byte) : option (list byte) :=
  if (0 <=? off) && (off + len src <=? len buf)
  then Some (ztake off buf ++ src ++ zdrop (off + len src) buf) else None.

(** The C string at the start of a buffer: up to the first zero. *)
Fixpoint cstring (buf : list byte) : list byte :=
  match buf with
  | [] => []
  | c :: buf => if c =? 0 then [] else c :: cstring buf
  end.

(** ** The string builder *)
Module Builder.

Definition AVBOX_STRINGBUILDER_EXTRA_ROOM : Z := 512.

Record avbox_stringbuilder := Builder { buf : list byte; size : Z; capacity : Z }.

Definition avbox_stringbuilder_size (inst : avbox_stringbuilder) : Z := size inst.
Definition avbox_stringbuilder_cstr (inst : avbox_stringbuilder) : list byte := cstring (buf inst).

(** [malloc] of a size that was computed in an [int]: a negative size is
    converted to one no allocation can satisfy. *)
Definition malloc_int (mem : bool) (n : Z) : option (list byte) :=
  if mem && (0 <=? n) then Some (replicate (Z.to_nat n) 0) else None.

(** [avbox_stringbuilder_append]: the outer option is a write outside of
    the buffer, the inner result the new size or -1 with ENOMEM. *)
Definition avbox_stringbuilder_append (inst : avbox_stringbuilder) (str : list byte) (mem : bool) :
    option (result Z * avbox_stringbuilder) :=
  let n := len str in
  let grown :=
    if capacity inst <=? size inst + n then
      let cap := s32 (size inst + n + AVBOX_STRINGBUILDER_EXTRA_ROOM) in
      match malloc_int mem cap with
      | None => Some None
      | Some b =>
          b ← memcpy b 0 (ztake (size inst + 1) (buf inst));
          Some (Some (Builder b (size inst) cap))
      end
    else Some (Some inst) in
  g ← grown;
  match g with
  | None => Some (inl ENOMEM, inst)
  | Some inst =>
      b ← memcpy (buf inst) (size inst) (str ++ [0]);
      Some (inr (size inst + n), Builder b (size inst + n) (capacity inst))
  end.

Definition avbox_stringbuilder_new (cap : Z) (mem : bool) : option avbox_stringbuilder :=
  let cap := if cap =? 0 then AVBOX_STRINGBUILDER_EXTRA_ROOM else cap in
  b ← malloc_int mem cap;
  b ← memcpy b 0 [0];
  Some (Builder b 0 cap).

(** The builder holds the string [s]. *)
Definition holds (inst : avbox_stringbuilder) (s : list byte) : Prop :=
  exists rest, buf inst = s ++ 0 :: rest /\ size inst = len s /\ capacity inst = len (buf inst).

Lemma cstring_zero s rest : Forall (fun c => c <> 0) s -> cstring (s ++ 0 :: rest) = s.
Proof.
  induction 1 as [|c s Hc Hs IH]; [done|]. cbn. destruct (c =? 0) eqn:E; zify_bool; [done|]. by rewrite IH.
Qed.

Lemma memcpy_app a b c src :
  len src = len b -> memcpy (a ++ b ++ c) (len a) src = Some (a ++ src ++ c).
Proof.
  intros E. unfold memcpy. rewrite !len_app.
  pose proof (len_nonneg a). pose proof (len_nonneg c).
  destruct (_ && _) eqn:H1; [|exfalso; apply andb_false_iff in H1 as [?|?]; blia].
  f_equal. unfold ztake, zdrop, len in *. rewrite Z2Nat.inj_add, !Nat2Z.id by lia. f_equal.
  - rewrite take_app_le by lia. by rewrite take_ge by lia.
  - f_equal. rewrite app_assoc, drop_app_ge; rewrite length_app; [|lia].
    replace (length a + length src - (length a + length b))%nat with O by lia. done.
Qed.

Lemma memcpy_start b c src : len src = len b -> memcpy (b ++ c) 0 src = Some (src ++ c).
Proof. exact (memcpy_app [] b c src). Qed.

Lemma new_holds cap mem inst :
  0 <= cap -> avbox_stringbuilder_new cap mem = Some inst -> holds inst [].
Proof.
  intros Hc E. unfold avbox_stringbuilder_new, malloc_int in E.
  set (c := if cap =? 0 then _ else cap) in E. assert (0 < c) as Hc0.
  { subst c. unfold AVBOX_STRINGBUILDER_EXTRA_ROOM. destruct (cap =? 0) eqn:?; lia. }
  destruct (mem && (0 <=? c)); [|done]. cbn in E.
  replace (Z.to_nat c) with (S (Z.to_nat (c - 1))) in E by lia. cbn [replicate] in E.
  change (0 :: replicate (Z.to_nat (c - 1)) 0) with ([0] ++ replicate (Z.to_nat (c - 1)) 0) in E.
  rewrite memcpy_start in E by done. cbn in E. simplify_eq.
  eexists. split_and!; [done|done|]. cbn. unfold len. cbn. rewrite length_replicate. lia.
Qed.

(** One append. *)
Lemma append_holds inst s str mem :
  holds inst s -> len s + len str + AVBOX_STRINGBUILDER_EXTRA_ROOM <= INT_MAX ->
  (exists inst', avbox_stringbuilder_append inst str mem = Some (inr (len s + len str), inst') /\
     holds inst' (s ++ str)) \/
  (mem = false /\ avbox_stringbuilder_append inst str mem = Some (inl ENOMEM, inst)).
Proof.
  intros (rest & Hb & Hs & Hc) Hmax. unfold avbox_stringbuilder_append. rewrite Hs.
  pose proof (len_nonneg s). pose proof (len_nonneg str).
  assert (forall inst1 rest1, buf inst1 = s ++ 0 :: rest1 -> size inst1 = len s -> capacity inst1 = len (buf inst1) ->
    len s + len str < capacity inst1 ->
    exists inst', (b ← memcpy (buf inst1) (size inst1) (str ++ [0]);
      Some (inr (size inst1 + len str), Builder b (size inst1 + len str) (capacity inst1))) =
        Some (@inr errno Z (len s + len str), inst') /\ holds inst' (s ++ str)) as Hput.
  { intros inst1 rest1 Hb1 Hs1 Hc1 Hfit. rewrite Hb1, Hs1.
    rewrite Hc1, Hb1, len_app in Hfit.
    assert (0 :: rest1 = ztake (len str + 1) (0 :: rest1) ++ zdrop (len str + 1) (0 :: rest1)) as ->
      by (by rewrite ztake_zdrop).
    rewrite memcpy_app; cbn.
    2:{ rewrite len_app, len_ztake by lia. unfold len at 2. cbn. lia. }
    eexists. split; [done|]. exists (zdrop (len str + 1) (0 :: rest1)). cbn.
    rewrite <- !app_assoc. cbn. split_and!; [done|by rewrite len_app|].
    rewrite Hc1, Hb1. rewrite !len_app, !len_cons, len_zdrop by lia. rewrite len_cons. lia. }
  destruct (capacity inst <=? len s + len str) eqn:Hgrow.
  - unfold malloc_int. rewrite wraps_small by (unfold AVBOX_STRINGBUILDER_EXTRA_ROOM, INT_MAX in *; lia).
    destruct mem; cbn [andb]; [|right; done].
    assert ((0 <=? len s + len str + AVBOX_STRINGBUILDER_EXTRA_ROOM) = true) as ->
      by (unfold AVBOX_STRINGBUILDER_EXTRA_ROOM; lia).
    set (n := Z.to_nat (len s + len str + AVBOX_STRINGBUILDER_EXTRA_ROOM)).
    assert (ztake (len s + 1) (buf inst) = s ++ [0]) as ->.
    { rewrite Hb. unfold ztake, len. rewrite Z2Nat.inj_add, Nat2Z.id by lia.
      rewrite take_app_ge by lia. f_equal. replace (_ + _ - _)%nat with 1%nat by lia. done. }
    assert (replicate n 0 = replicate (length s + 1) 0 ++ replicate (n - (length s + 1)) 0) as ->.
    { rewrite <- replicate_add. f_equal. unfold n, len, AVBOX_STRINGBUILDER_EXTRA_ROOM in *. lia. }
    rewrite memcpy_start
      by (rewrite len_app; unfold len; rewrite length_replicate; cbn; lia).
    cbn. left. rewrite <- app_assoc. cbn [app].
    apply (Hput (Builder (s ++ 0 :: replicate (n - (length s + 1)) 0) (len s)
      (len s + len str + AVBOX_STRINGBUILDER_EXTRA_ROOM)) (replicate (n - (length s + 1)) 0)); [done|done| |].
    + cbn. rewrite len_app, len_cons, len_replicate.
      unfold n, len, AVBOX_STRINGBUILDER_EXTRA_ROOM in *. lia.
    + cbn. unfold AVBOX_STRINGBUILDER_EXTRA_ROOM. lia.
  - left. destruct (Hput inst rest) as (i & E & Hi); [done|done|done|lia|]. cbn. eauto.
Qed.

(** Appending several strings in turn; stops at the first failure. *)
Fixpoint append_all (inst : avbox_stringbuilder) (strs : list (list byte * bool)) :
    option (result avbox_stringbuilder) :=
  match strs with
  | [] => Some (inr inst)
  | (str, mem) :: strs =>
      r ← avbox_stringbuilder_append inst str mem;
      match r with
      | (inl e, _) => Some (inl e)
      | (inr _, inst) => append_all inst strs
      end
  end.

Lemma append_all_holds inst s strs :
  holds inst s -> len s + len (mjoin strs.*1) + AVBOX_STRINGBUILDER_EXTRA_ROOM <= INT_MAX ->
  (exists inst', append_all inst strs = Some (inr inst') /\ holds inst' (s ++ mjoin strs.*1)) \/
  append_all inst strs = Some (inl ENOMEM).
Proof.
  revert inst s. induction strs as [|[str mem] strs IH]; intros inst s Hh Hmax.
  { left. exists inst. split; [done|]. cbn. by rewrite app_nil_r. }
  change (mjoin ((str, mem) :: strs).*1) with (str ++ mjoin strs.*1) in *. cbn [append_all].
  rewrite len_app in Hmax. pose proof (len_nonneg (mjoin strs.*1)).
  destruct (append_holds inst s str mem Hh) as [(i & E & Hi)|[_ E]]; [lia| |rewrite E; by right].
  rewrite E. cbn. destruct (IH i (s ++ str) Hi) as [(j & Ej & Hj)|Ej]; [rewrite len_app; lia| |by right].
  left. exists j. by rewrite app_assoc.
Qed.

(** A string builder concatenates: whatever its initial capacity and
    however often it has to grow, appending strings whose total length fits
    an [int] with the extra room never writes outside of the buffer, and
    either fails with ENOMEM or leaves exactly the concatenation, with its
    length as the size. *)
Lemma stringbuilder_concat cap mem inst strs :
  0 <= cap -> avbox_stringbuilder_new cap mem = Some inst ->
  Forall (Forall (fun c => c <> 0)) strs.*1 ->
  len (mjoin strs.*1) + AVBOX_STRINGBUILDER_EXTRA_ROOM <= INT_MAX ->
  append_all inst strs = Some (inl ENOMEM) \/
  exists inst', append_all inst strs = Some (inr inst') /\
    avbox_stringbuilder_cstr inst' = mjoin strs.*1 /\
    avbox_stringbuilder_size inst' = len (mjoin strs.*1) /\
    avbox_stringbuilder_size inst' < capacity inst'.
Proof.
  intros Hc Hnew Hnz Hmax. apply new_holds in Hnew; [|done].
  destruct (append_all_holds inst [] strs Hnew) as [(i & E & rest & Hb & Hs & Hcap)|E]; [done| |by left].
  right. exists i. cbn in *. split_and!; [done| |done|].
  - unfold avbox_stringbuilder_cstr. rewrite Hb. apply cstring_zero.
    clear -Hnz. induction Hnz as [|x l Hx _ IH]; cbn; [constructor|]. apply Forall_app. done.
  - unfold avbox_stringbuilder_size. rewrite Hcap, Hb, Hs, len_app, len_cons. pose proof (len_nonneg rest). lia.
Qed.

Lemma stringbuilder_concat_witness :
  exists inst', append_all (Builder [0; 0] 0 2) [([65; 66], true); ([67], true)] = Some (inr inst') /\
    avbox_stringbuilder_cstr inst' = [65; 66; 67].
Proof.
  destruct (stringbuilder_concat 2 true (Builder [0; 0] 0 2) [([65; 66], true); ([67], true)])
    as [E|(i & E & Hs & _)].
  - lia.
  - reflexivity.
  - repeat constructor; discriminate.
  - vm_compute. congruence.
  - vm_compute in E. discriminate.
  - exists i. split; [exact E|exact Hs].
Defined.

End Builder.

(** ** strisdigit, strtrim, strendswith *)
Module Str.

Fixpoint strisdigit (str : list byte) : bool :=
  match str with
  | [] => true
  | c :: str => if negb (isdigit c) then false else strisdigit str
  end.

Definition blank (c : byte) : bool := (c =? SPACE) || (c =? TAB).

(** The two loops of [strtrim]: from the end (on the reversed string), then
    from the start. *)
Fixpoint skip_blanks (str : list byte) : list byte :=
  match str with
  | [] => []
  | c :: str' => if blank c then skip_blanks str' else str
  end.

Definition strtrim (str : option (list byte)) : result (list byte) :=
  match str with
  | None => inl EINVAL
  | Some str => inr (skip_blanks (reverse (skip_blanks (reverse str))))
  end.

Fixpoint streq (a b : list byte) : bool :=
  match a, b with
  | [], [] => true
  | x :: a, y :: b => (x =? y) && streq a b
  | _, _ => false
  end.

Definition strendswith (str1 str2 : list byte) : Z :=
  if len str1 <? len str2 then 0
  else if streq (zdrop (len str1 - len str2) str1) str2 then 1 else 0.

Lemma skip_blanks_spec s :
  exists pre, s = pre ++ skip_blanks s /\ Forall (fun c => blank c = true) pre /\
    (forall c, head (skip_blanks s) = Some c -> blank c = false).
Proof.
  induction s as [|c s IH]; cbn; [by exists []|]. destruct (blank c) eqn:E.
  - destruct IH as (pre & Hs & Hp & Hh). exists (c :: pre). cbn. rewrite <- Hs. auto.
  - exists []. split_and!; [done|done|]. cbn. naive_solver.
Qed.

(** [strtrim] removes exactly the blanks at both ends: the string is
    the result between two runs of spaces and tabs, and the result neither
    begins nor ends with one; only a NULL argument is an error. *)
Lemma strtrim_exact str :
  strtrim None = inl EINVAL /\
  exists r pre post, strtrim (Some str) = inr r /\ str = pre ++ r ++ post /\
    Forall (fun c => blank c = true) pre /\ Forall (fun c => blank c = true) post /\
    (forall c, head r = Some c -> blank c = false) /\ (forall c, last r = Some c -> blank c = false).
Proof.
  split; [done|]. cbn.
  destruct (skip_blanks_spec (reverse str)) as (post & H1 & Hpost & Hh1).
  set (u := skip_blanks (reverse str)) in *.
  destruct (skip_blanks_spec (reverse u)) as (pre & H2 & Hpre & Hh2).
  exists (skip_blanks (reverse u)), pre, (reverse post). split_and!; try done.
  - apply (f_equal reverse) in H1. rewrite reverse_involutive, reverse_app in H1. rewrite H1, H2 at 1.
    by rewrite <- app_assoc.
  - by apply Forall_reverse.
  - intros c Hl. apply Hh1. apply last_snoc_inv in Hl as (k & Hl). rewrite Hl in H2.
    apply (f_equal reverse) in H2. rewrite reverse_involutive, app_assoc, reverse_snoc in H2. by rewrite H2.
Qed.

Lemma streq_eq a b : streq a b = true <-> a = b.
Proof.
  revert b. induction a as [|x a IH]; intros [|y b]; cbn; try (split; congruence).
  rewrite andb_true_iff, IH, Z.eqb_eq. naive_solver.
Qed.

(** [strendswith] decides the suffix relation and [strisdigit] decides
    that every character is a digit. *)
Lemma string_predicates str1 str2 :
  (strendswith str1 str2 = 1 <-> exists pre, str1 = pre ++ str2) /\
  (strisdigit str1 = true <-> Forall (fun c => isdigit c = true) str1).
Proof.
  split.
  - unfold strendswith. destruct (len str1 <? len str2) eqn:Hl.
    + split; [done|]. intros [pre ->]. rewrite len_app in Hl. pose proof (len_nonneg pre). blia.
    + destruct (streq _ _) eqn:E.
      * apply streq_eq in E. split; [|done]. intros _. exists (ztake (len str1 - len str2) str1).
        etrans; [symmetry; apply (ztake_zdrop (len str1 - len str2))|]. by rewrite E.
      * split; [done|]. intros [pre ->]. rewrite len_app in E.
        replace (len pre + len str2 - len str2) with (len pre) in E by lia.
        unfold zdrop, len in E. rewrite Nat2Z.id, drop_app_length in E.
        assert (streq str2 str2 = true) by (by apply streq_eq). congruence.
  - induction str1 as [|c s IH]; cbn; [split; [constructor|done]|]. rewrite Forall_cons.
    destruct (isdigit c); cbn; [rewrite IH; tauto|]. split; [done|]. by intros [? _].
Qed.

End Str.

(** ** strreplace *)
Module Replace.

(** [strstr]: the part before the first occurrence and the part after it. *)
Fixpoint strip (what s : list byte) : option (list byte) :=
  match what, s with
  | [], _ => Some s
  | w :: what, c :: s => if w =? c then strip what s else None
  | _ :: _, [] => None
  end.

Fixpoint strstr (s what : list byte) : option (list byte * list byte) :=
  match strip what s with
  | Some rest => Some ([], rest)
  | None => match s with
            | [] => None
            | c :: s => '(pre, rest) ← strstr s what; Some (c :: pre, rest)
            end
  end.

(** The loop that computes the new length; [fuel] bounds its turns, an
    [int] overflow is [None]. *)
Fixpoint new_length (fuel : nat) (ins what : list byte) (n diff : Z) : option Z :=
  match fuel with
  | O => None
  | S fuel =>
      match strstr ins what with
      | None => Some n
      | Some (_, rest) => n ← chk_int (n + diff); new_length fuel rest what n diff
      end
  end.

(** The loop that builds the new string. *)
Fixpoint build (fuel : nat) (ins what with_ ret : list byte) : option (list byte) :=
  match fuel with
  | O => None
  | S fuel =>
      match strstr ins what with
      | None => Some (ret ++ ins)
      | Some (pre, rest) => build fuel rest what with_ (ret ++ pre ++ with_)
      end
  end.

(** [strreplace]: [None] when a loop does not end or an [int] overflows;
    the inner option is the NULL of a failed allocation.  The second
    component is the size of the buffer that was allocated. *)
Definition strreplace (fuel : nat) (str what with_ : list byte) (mem : bool) :
    option (option (list byte) * Z) :=
  match strstr str what with
  | None => Some (Some str, len str + 1)
  | Some _ =>
      n ← new_length fuel str what (len str) (len with_ - len what);
      if mem then ret ← build fuel str what with_ []; Some (Some ret, n + 1)
      else Some (None, 0)
  end.

(** Specification: replace the first occurrence, go on after it. *)
Definition occurs (what s : list byte) : Prop := exists a b, s = a ++ what ++ b.

Inductive replaced (what with_ : list byte) : list byte -> list byte -> Prop :=
  | replaced_none s : ~ occurs what s -> replaced what with_ s s
  | replaced_first pre rest r :
      (forall a b, pre ++ what ++ rest = a ++ what ++ b -> (length pre <= length a)%nat) ->
      replaced what with_ rest r ->
      replaced what with_ (pre ++ what ++ rest) (pre ++ with_ ++ r).

Lemma strip_Some what s rest : strip what s = Some rest <-> s = what ++ rest.
Proof.
  revert s. induction what as [|w what IH]; intros s; cbn; [split; congruence|].
  destruct s as [|c s]; [split; discriminate|]. destruct (w =? c) eqn:E; zify_bool.
  - rewrite IH. subst. split; [by intros ->|congruence].
  - split; [done|]. intros ?. simplify_eq.
Qed.

Lemma strstr_None s what : strstr s what = None -> ~ occurs what s.
Proof.
  induction s as [|c s IH]; cbn; intros E (a & b & Hs).
  - destruct (strip what []) eqn:E1; [done|]. destruct a; [|done]. cbn in Hs.
    symmetry in Hs. destruct what; [done|]. done.
  - destruct (strip what (c :: s)) as [r|] eqn:E1; [done|].
    destruct a as [|x a]; cbn in Hs.
    + symmetry in Hs. assert (strip what (c :: s) = Some b) by (by apply strip_Some). congruence.
    + simplify_eq. destruct (strstr (a ++ what ++ b) what) as [[??]|] eqn:E2; [done|].
      apply IH; [done|]. by exists a, b.
Qed.

Lemma strstr_Some s what pre rest :
  strstr s what = Some (pre, rest) ->
  s = pre ++ what ++ rest /\ forall a b, s = a ++ what ++ b -> (length pre <= length a)%nat.
Proof.
  revert pre rest. induction s as [|c s IH]; intros pre rest; cbn.
  - destruct (strip what []) as [r|] eqn:E1; [|done]. intros [= <- <-].
    apply strip_Some in E1. split; [done|]. cbn. lia.
  - destruct (strip what (c :: s)) as [r|] eqn:E1.
    + intros [= <- <-]. apply strip_Some in E1. split; [done|]. cbn. lia.
    + destruct (strstr s what) as [[p r]|] eqn:E2; [|done]. cbn. intros [= <- <-].
      destruct (IH p r eq_refl) as [Hs Hmin]. split; [by rewrite Hs|].
      intros a b Hab. destruct a as [|x a]; cbn in Hab.
      * assert (strip what (c :: s) = Some b) by (by apply strip_Some). congruence.
      * injection Hab as -> Hab. cbn. specialize (Hmin a b Hab). lia.
Qed.

(** Both loops follow the specification, and agree on the length. *)
Lemma loops_replaced what with_ fuel s ret :
  what <> [] -> (length s < fuel)%nat ->
  exists r k, replaced what with_ s r /\ build fuel s what with_ ret = Some (ret ++ r) /\
    0 <= k <= len s /\ len r - len s = k * (len with_ - len what) /\
    (forall n, 0 <= n <= INT_MAX -> 0 <= n + (len r - len s) <= INT_MAX ->
     new_length fuel s what n (len with_ - len what) = Some (n + (len r - len s))).
Proof.
  intros Hw. revert s ret. induction fuel as [|fuel IH]; intros s ret Hf; [lia|]. cbn.
  destruct (strstr s what) as [[pre rest]|] eqn:E.
  - apply strstr_Some in E as [Hs Hmin].
    assert (length rest < fuel)%nat as Hf'.
    { rewrite Hs, !length_app in Hf. destruct what; [done|]. cbn in Hf. lia. }
    destruct (IH rest (ret ++ pre ++ with_) Hf') as (r & k & Hr & Eb & Hk & Ed & El).
    exists (pre ++ with_ ++ r), (k + 1).
    assert (len (pre ++ with_ ++ r) - len s = len with_ - len what + (len r - len rest)) as Hd.
    { rewrite Hs, !len_app. lia. }
    assert (len rest + 1 <= len s) by (unfold len; rewrite Hs, !length_app; destruct what; [done|]; cbn; lia).
    split_and!; [| |lia|lia|lia|].
    + rewrite Hs. constructor; [|done]. by rewrite <- Hs.
    + rewrite Eb. by rewrite <- !app_assoc.
    + intros n Hn Hn'. rewrite Hd in *. set (d := len with_ - len what) in *.
      assert (0 <= n + d <= INT_MAX) as Hnd.
      { destruct (decide (0 <= d)); [assert (0 <= k * d) by nia|assert (k * d <= 0) by nia]; lia. }
      rewrite chk_int_Some by (unfold INT_MAX in *; lia). cbn. rewrite El by lia. f_equal. lia.
  - exists s, 0. split_and!; [constructor; by apply strstr_None|done|lia|apply len_nonneg|lia|]. intros. f_equal. lia.
Qed.

(** [strreplace] replaces every occurrence, first to last: for a
    non-empty [what] and lengths that fit an [int] its loops end (within as
    many turns as the string is long), the result is the specified string,
    and the buffer it allocates has exactly the size of the result with its
    terminator, so the concatenations never overflow it; a failed
    allocation is reported as NULL. *)
Lemma strreplace_replaces str what with_ mem :
  what <> [] -> len str * (1 + len with_) <= INT_MAX ->
  exists r, replaced what with_ str r /\
    (strreplace (S (length str)) str what with_ mem = Some (Some r, len r + 1) \/
     mem = false /\ strreplace (S (length str)) str what with_ mem = Some (None, 0)).
Proof.
  intros Hw Hmax. unfold strreplace.
  destruct (loops_replaced what with_ (S (length str)) str [] Hw) as (r & k & Hr & Eb & Hk & Ed & El); [lia|].
  pose proof (len_nonneg str). pose proof (len_nonneg r). pose proof (len_nonneg with_). pose proof (len_nonneg what).
  assert (len r <= INT_MAX /\ len str <= INT_MAX) as [? ?] by nia.
  destruct (strstr str what) as [p|] eqn:E.
  - exists r. split; [done|]. rewrite El by lia. cbn [mbind option_bind]. destruct mem; [|by right].
    left. rewrite Eb. cbn. f_equal. f_equal. lia.
  - exists str. split; [|by left]. constructor. by apply strstr_None.
Qed.

(** An empty [what] makes [strreplace] loop for ever: it never ends,
    however many turns it is given. *)
Lemma strreplace_empty_diverges fuel str with_ mem :
  strreplace fuel str [] with_ mem = None.
Proof.
  unfold strreplace. assert (strstr str [] = Some ([], str)) as E by (by destruct str).
  rewrite E. assert (forall n d, new_length fuel str [] n d = None) as ->; [|done].
  induction fuel as [|fuel IH]; intros n d; [done|]. cbn. rewrite E.
  destruct (chk_int (n + d)); [apply IH|done].
Qed.

Lemma strreplace_replaces_witness :
  exists r, strreplace 6 [97; 98; 97; 98; 99] [97; 98] [120] true = Some (Some r, len r + 1).
Proof.
  destruct (strreplace_replaces [97; 98; 97; 98; 99] [97; 98] [120] true) as (r & _ & [E|[E _]]).
  - discriminate.
  - vm_compute. congruence.
  - exists r. exact E.
  - discriminate.
Defined.

End Replace.

(** ** urldecode *)
Module Url.

(** The value of a hexadecimal digit, with the two subtractions of the
    source on a [char]. *)
Definition hexval (a : byte) : Z :=
  let a := if 97 <=? a then a - (97 - 65) else a in
  if 65 <=? a then a - (65 - 10) else a - 48.

(** A [char] stored as a byte. *)
Definition to_byte (z : Z) : byte := wrapu 8 z.

Fixpoint urldecode (src : list byte) : list byte :=
  match src with
  | [] => []
  | c :: rest =>
      if c =? PERCENT then
        match rest with
        | a :: b :: rest' =>
            if isxdigit a && isxdigit b
            then to_byte (16 * hexval a + hexval b) :: urldecode rest'
            else c :: urldecode rest
        | _ => c :: urldecode rest
        end
      else if c =? PLUS then SPACE :: urldecode rest
      else c :: urldecode rest
  end.

(** Specification: the ways to encode a byte. *)
Definition hexdigit (d : Z) (c : byte) : Prop := isxdigit c = true /\ hexval c = d.

Inductive encodes : byte -> list byte -> Prop :=
  | enc_plain c : c <> PERCENT -> c <> PLUS -> encodes c [c]
  | enc_space : encodes SPACE [PLUS]
  | enc_hex c hi lo :
      hexdigit (c / 16) hi -> hexdigit (c mod 16) lo -> encodes c [PERCENT; hi; lo].

Lemma hexval_range a : isxdigit a = true -> 0 <= hexval a < 16.
Proof.
  unfold isxdigit, isdigit, hexval. intros H.
  destruct (97 <=? a) eqn:?; [destruct (65 <=? a - (97 - 65)) eqn:?|destruct (65 <=? a) eqn:?];
    rewrite ?orb_true_iff, ?andb_true_iff in H; lia.
Qed.

(** [urldecode] undoes every percent-encoding: a string in which each
    byte is written plainly, as [+] for a space, or as [%] and two
    hexadecimal digits of either case decodes to the bytes. *)
Lemma urldecode_roundtrip (bytes : list byte) (codes : list (list byte)) :
  Forall (fun c => 0 <= c < 256) bytes -> Forall2 encodes bytes codes ->
  urldecode (mjoin codes) = bytes.
Proof.
  intros Hb He. revert Hb. induction He as [|c code bytes codes Hc He IH]; intros Hb; [done|].
  apply Forall_cons in Hb as [Hr Hb]. specialize (IH Hb).
  change (mjoin (code :: codes)) with (code ++ mjoin codes).
  destruct Hc as [c Hp Hq| |c hi lo [Hi Ei] [Hl El]]; cbn [app urldecode];
    [|change (PLUS =? PERCENT) with false|change (PERCENT =? PERCENT) with true]; cbv iota.
  - destruct (c =? PERCENT) eqn:?; [blia|]. destruct (c =? PLUS) eqn:?; [blia|]. by rewrite IH.
  - change (PLUS =? PLUS) with true. by rewrite IH.
  - rewrite Hi, Hl. cbn [andb]. rewrite IH, Ei, El. f_equal. unfold to_byte.
    rewrite <- (Z.div_mod c 16) by lia. apply wrapu_small. lia.
Qed.

(** The decoded string is never longer than the source, so it fits a
    buffer of the same size (or the source's own), and it consists of bytes. *)
Lemma urldecode_bounds src :
  Forall (fun c => 0 <= c < 256) src ->
  (length (urldecode src) <= length src)%nat /\ Forall (fun c => 0 <= c < 256) (urldecode src).
Proof.
  remember (length src) as n eqn:En. revert src En.
  induction n as [n IH] using lt_wf_ind. intros src -> Hs. destruct src as [|c rest]; [done|].
  apply Forall_cons in Hs as [Hc Hs].
  assert (forall l, (length l < length (c :: rest))%nat -> Forall (fun c => 0 <= c < 256) l ->
    (length (urldecode l) <= length l)%nat /\ Forall (fun c => 0 <= c < 256) (urldecode l)) as IH'
    by (intros l Hl; by apply (IH (length l) Hl)).
  destruct (IH' rest) as [H1 H2]; [cbn; lia|done|].
  assert (forall d, 0 <= d < 256 -> (length (d :: urldecode rest) <= length (c :: rest))%nat /\
    Forall (fun c => 0 <= c < 256) (d :: urldecode rest)) as Hplain.
  { intros d Hd. split; [cbn; lia|]. by constructor. }
  cbn [urldecode]. destruct (c =? PERCENT); [|destruct (c =? PLUS); by apply Hplain].
  destruct rest as [|a [|b rest']]; [by apply Hplain..|].
  destruct (isxdigit a && isxdigit b) eqn:E; [|by apply Hplain].
  apply Forall_cons in Hs as [_ Hs]. apply Forall_cons in Hs as [_ Hs].
  destruct (IH' rest') as [H3 H4]; [cbn; lia|done|].
  split; [cbn in *; lia|]. constructor; [|done]. unfold to_byte. apply wrapu_bound. lia.
Qed.

(** *** Downloads into memory *)

Record MemoryStruct := Mem { memory : option (list byte); msize : Z; limit : Z }.

(** [WriteMemoryCallback]: the old block is lost when [realloc] fails. *)
Definition WriteMemoryCallback (contents : list byte) (mem : bool) (m : MemoryStruct) : Z * MemoryStruct :=
  if mem then
    (len contents, Mem (Some (default [] (memory m) ++ contents)) (msize m + len contents) (limit m))
  else (0, Mem None (msize m) (limit m)).

(** [avbox_net_geturl]: [chunks] are what libcurl delivered, [ok] its
    verdict; a callback that takes less than it is given aborts. *)
Fixpoint download (chunks : list (list byte * bool)) (m : MemoryStruct) : bool * MemoryStruct :=
  match chunks with
  | [] => (true, m)
  | (c, mem) :: chunks =>
      let '(n, m) := WriteMemoryCallback c mem m in
      if n =? len c then download chunks m else (false, m)
  end.

Definition avbox_net_geturl (size : Z) (init : bool) (chunks : list (list byte * bool)) (ok : bool) :
    Z * option (list byte) * Z :=
  let m := Mem (Some []) 0 (if size >? 0 then size else 0) in
  if init then
    let '(done, m) := download chunks m in
    if done && ok then (0, memory m, msize m) else (-1, None, size)
  else (-1, None, size).

(** A successful download returns the concatenation of everything that
    was delivered and its length; the size limit the caller passes is not
    looked at. *)
Lemma geturl_ignores_limit size chunks :
  Forall (fun c => c.2 = true) chunks ->
  avbox_net_geturl size true chunks true = (0, Some (mjoin chunks.*1), len (mjoin chunks.*1)).
Proof.
  intros Hc. unfold avbox_net_geturl.
  assert (forall m b, memory m = Some b -> msize m = len b ->
    download chunks m = (true, Mem (Some (b ++ mjoin chunks.*1)) (len (b ++ mjoin chunks.*1)) (limit m))) as H.
  { induction Hc as [|[c mem] chunks Hmem Hc IH]; intros m b Hm Hs.
    - destruct m. cbn in *. subst. by rewrite app_nil_r.
    - cbn in Hmem. subst mem. cbn [download WriteMemoryCallback]. rewrite Z.eqb_refl, Hm. cbn [default].
      change (mjoin ((c, true) :: chunks).*1) with (c ++ mjoin chunks.*1). rewrite app_assoc.
      apply (IH (Mem (Some (b ++ c)) (msize m + len c) (limit m)) (b ++ c)); [done|].
      cbn. rewrite len_app. lia. }
  rewrite (H _ []) by done. done.
Qed.

Lemma urldecode_roundtrip_witness : urldecode (mjoin [[97]; [43]; [37; 50; 102]]) = [97; 32; 47].
Proof.
  apply (urldecode_roundtrip [97; 32; 47] [[97]; [43]; [37; 50; 102]]).
  - repeat constructor; lia.
  - repeat constructor; discriminate.
Defined.

Lemma urldecode_bounds_witness : (length (urldecode [37; 50; 102; 120]%Z) <= 4)%nat.
Proof. apply (urldecode_bounds [37; 50; 102; 120]). repeat constructor; lia. Defined.

Lemma geturl_ignores_limit_witness :
  avbox_net_geturl 1 true [([1; 2], true); ([3], true)] true = (0, Some [1; 2; 3], 3).
Proof. apply (geturl_ignores_limit 1 [([1; 2], true); ([3], true)]). repeat constructor. Defined.

End Url.
