(* ===== verification/ListView.v ===== *)
(** * The list widget (src/lib/ui/listview.c)

    A list of items of which a window shows a few rows.  Items are identified
    by their address: [selected] is an address, and an operation that follows
    it to an item that is no longer in the list touches freed memory and is
    [None].  Windows are the indices of the preallocated rows.  Painting and
    the sending of messages are left to the arguments and results. *)

From S2P Require Import Prelude.

(** ** Data *)

Record avbox_listitem := Item {
  addr : Z;
  window : option Z;
  name : option string;   (* NULL after a failed strdup *)
  dirty : bool;
  data : Z;
}.

Record avbox_listview := View {
  items : list avbox_listitem;
  selected : option Z;
  visible_items : Z;
  visible_window_offset : Z;
  count : Z;
  end_of_list_callback : bool;
}.

Definition with_items (v : avbox_listview) (its : list avbox_listitem) : avbox_listview :=
  View its (selected v) (visible_items v) (visible_window_offset v) (count v) (end_of_list_callback v).
Definition with_selected (v : avbox_listview) (s : option Z) : avbox_listview :=
  View (items v) s (visible_items v) (visible_window_offset v) (count v) (end_of_list_callback v).

(** [avbox_listview_new] for a window with room for [rows] rows. *)
Definition avbox_listview_new (height itemheight : Z) : avbox_listview :=
  View [] None (Z.quot height itemheight) 0 0 false.

(** ** Items *)

Fixpoint find_item (a : Z) (its : list avbox_listitem) : option avbox_listitem :=
  match its with
  | [] => None
  | it :: its => if addr it =? a then Some it else find_item a its
  end.

Definition mark (it : avbox_listitem) : avbox_listitem := Item (addr it) (window it) (name it) true (data it).

(** Writing [dirty] through a pointer to an item. *)
Definition set_dirty (a : Z) (v : avbox_listview) : option avbox_listview :=
  _ ← find_item a (items v);
  Some (with_items v ((fun it => if addr it =? a then mark it else it) <$> items v)).

Definition avbox_listview_setselected (v : avbox_listview) (a : Z) : option avbox_listview :=
  if bool_decide (selected v = Some a) then Some v
  else
    v ← match selected v with Some old => set_dirty old v | None => Some v end;
    set_dirty a (with_selected v (Some a)).

(** [avbox_listview_getselected]: NULL when nothing is selected. *)
Definition avbox_listview_getselected (v : avbox_listview) : option (option Z) :=
  match selected v with
  | None => Some None
  | Some a => it ← find_item a (items v); Some (Some (data it))
  end.

(** [avbox_listview_setitemtext]; [mem] is the answer of [strdup], [None] a
    failed assertion: after a failure the name is NULL. *)
Fixpoint settext_loop (d : Z) (text : string) (mem : bool) (its : list avbox_listitem) :
    option (Z * list avbox_listitem) :=
  match its with
  | [] => Some (-1, [])
  | it :: its =>
      if data it =? d then
        _ ← name it;
        Some (if mem then 0 else -1, Item (addr it) (window it) (if mem then Some text else None) true (data it) :: its)
      else '(r, its) ← settext_loop d text mem its; Some (r, it :: its)
  end.

Definition avbox_listview_setitemtext (v : avbox_listview) (d : Z) (text : string) (mem : bool) :
    option (Z * avbox_listview) :=
  '(r, its) ← settext_loop d text mem (items v); Some (r, with_items v its).

Inductive direction := MB_UI_DIRECTION_NONE | MB_UI_DIRECTION_UP | MB_UI_DIRECTION_DOWN.

(** The loop of [avbox_listview_scrollitems] with its two counters. *)
Fixpoint scroll_loop (i j off vis : Z) (its : list avbox_listitem) : list avbox_listitem :=
  match its with
  | [] => []
  | it :: its =>
      if i <? off then Item (addr it) None (name it) (dirty it) (data it) :: scroll_loop (i + 1) j off vis its
      else if j <? vis then
        Item (addr it) (Some j) (name it)
          (if bool_decide (window it = Some j) then dirty it else true) (data it)
        :: scroll_loop (i + 1) (j + 1) off vis its
      else Item (addr it) None (name it) (dirty it) (data it) :: scroll_loop (i + 1) j off vis its
  end.

(** Scrolling up asserts a positive offset. *)
Definition avbox_listview_scrollitems (v : avbox_listview) (d : direction) : option avbox_listview :=
  off ← match d with
        | MB_UI_DIRECTION_DOWN => Some (visible_window_offset v + 1)
        | MB_UI_DIRECTION_UP => if visible_window_offset v >? 0 then Some (visible_window_offset v - 1) else None
        | MB_UI_DIRECTION_NONE => Some (visible_window_offset v)
        end;
  Some (View (scroll_loop 0 0 off (visible_items v) (items v)) (selected v) (visible_items v) off (count v)
          (end_of_list_callback v)).

(** [avbox_listview_additem]: [a] is the address [malloc] returned, [mem]
    the answer of [strdup]. *)
Definition avbox_listview_additem (v : avbox_listview) (nm : string) (d : Z) (a : option Z) (mem : bool) :
    Z * avbox_listview :=
  match a with
  | None => (-1, v)
  | Some a =>
      let '(w, v) :=
        if count v <? visible_items v
        then (Some (count v), if bool_decide (selected v = None) then with_selected v (Some a) else v)
        else (None, v) in
      if mem then
        (0, View (items v ++ [Item a w (Some nm) true d]) (selected v) (visible_items v) (visible_window_offset v)
              (count v + 1) (end_of_list_callback v))
      else (-1, v)
  end.

(** The loop of [avbox_listview_removeitem].  [prev] is the [data] of the
    item visited before (the item itself may have been freed) and [next] the
    flag; [selected] is compared with the item's [data] and assigned one. *)
Fixpoint remove_loop (d : Z) (its : list avbox_listitem) (prev : option Z) (next : bool)
    (sel : option Z) (n : Z) : list avbox_listitem * option Z * Z :=
  match its with
  | [] => ([], sel, n)
  | it :: its =>
      if data it =? d then
        let '(sel, next) :=
          if bool_decide (sel = Some d)
          then match prev with Some p => (Some p, next) | None => (None, true) end
          else (sel, next) in
        remove_loop d its (Some (data it)) next sel (n - 1)
      else if next then (it :: its, Some (data it), n)
      else
        let '(its, sel, n) := remove_loop d its (Some (data it)) next sel n in (it :: its, sel, n)
  end.

Definition avbox_listview_removeitem (v : avbox_listview) (d : Z) : avbox_listview :=
  let '(its, sel, n) := remove_loop d (items v) None false (selected v) (count v) in
  View its sel (visible_items v) (visible_window_offset v) n (end_of_list_callback v).

Definition avbox_listview_clearitems (v : avbox_listview) : avbox_listview :=
  View [] None (visible_items v) (visible_window_offset v) 0 (end_of_list_callback v).

Definition avbox_listview_seteolcallback (v : avbox_listview) : Z * avbox_listview :=
  if end_of_list_callback v then (-1, v)
  else (0, View (items v) (selected v) (visible_items v) (visible_window_offset v) (count v) true).

(** ** Key presses *)

Fixpoint up_loop (sel : option Z) (prev found : option avbox_listitem) (its : list avbox_listitem) :
    option avbox_listitem :=
  match its with
  | [] => found
  | it :: its =>
      if bool_decide (sel = Some (addr it)) then up_loop sel prev prev its
      else up_loop sel (Some it) found its
  end.

Fixpoint down_loop (sel : option Z) (select_next : bool) (found : option avbox_listitem)
    (its : list avbox_listitem) : option avbox_listitem :=
  match its with
  | [] => found
  | it :: its =>
      if select_next then down_loop sel false (Some it) its
      else if bool_decide (sel = Some (addr it)) then down_loop sel true found its
      else down_loop sel false found its
  end.

Definition select_scrolling (v : avbox_listview) (it : avbox_listitem) (d : direction) : option avbox_listview :=
  v ← match window it with None => avbox_listview_scrollitems v d | Some _ => Some v end;
  avbox_listview_setselected v (addr it).

Definition arrow_up (v : avbox_listview) : option avbox_listview :=
  match up_loop (selected v) None None (items v) with
  | Some it => select_scrolling v it MB_UI_DIRECTION_UP
  | None => Some v
  end.

(** An item the end-of-list callback adds. *)
Record newitem := New { nname : string; ndata : Z; naddr : option Z; nmem : bool }.

Fixpoint add_all (v : avbox_listview) (ns : list newitem) : avbox_listview :=
  match ns with
  | [] => v
  | n :: ns => add_all (avbox_listview_additem v (nname n) (ndata n) (naddr n) (nmem n)).2 ns
  end.

(** ARROW_DOWN: [batches] are the items each call of the end-of-list
    callback that returns 0 adds; after them it returns non-zero. *)
Fixpoint arrow_down (v : avbox_listview) (batches : list (list newitem)) : option avbox_listview :=
  match down_loop (selected v) false None (items v) with
  | Some it => select_scrolling v it MB_UI_DIRECTION_DOWN
  | None =>
      if end_of_list_callback v then
        match batches with
        | [] => Some v
        | b :: batches => arrow_down (add_all v b) batches
        end
      else Some v
  end.

(** ENTER notifies the parent when there is a selection. *)
Definition enter (v : avbox_listview) : bool := bool_decide (selected v <> None).

(** ** Invariant *)

(** The row an item at index [i] is shown in. *)
Definition place (off vis i : Z) : option Z := if (off <=? i) && (i <? off + vis) then Some (i - off) else None.

Definition inv (v : avbox_listview) : Prop :=
  0 < visible_items v /\ 0 <= visible_window_offset v /\
  (visible_window_offset v = 0 \/ visible_window_offset v + visible_items v <= len (items v)) /\
  count v = len (items v) /\ NoDup (addr <$> items v) /\
  window <$> items v = place (visible_window_offset v) (visible_items v) <$> seqZ 0 (len (items v)) /\
  match selected v with
  | None => items v = []
  | Some a => exists l1 it l2, items v = l1 ++ it :: l2 /\ addr it = a /\
      visible_window_offset v <= len l1 < visible_window_offset v + visible_items v
  end.

(** The next items to be added have addresses of their own. *)
Fixpoint fresh_addrs (used : list Z) (ns : list newitem) : Prop :=
  match ns with
  | [] => True
  | n :: ns =>
      nmem n = true /\ match naddr n with
                       | Some a => a ∉ used /\ fresh_addrs (used ++ [a]) ns
                       | None => fresh_addrs used ns
                       end
  end.

(** Steps of a list whose items are only added and browsed. *)
Inductive step : avbox_listview -> avbox_listview -> Prop :=
  | StepAdd v nm d a r v' :
      a ∉ addr <$> items v -> avbox_listview_additem v nm d (Some a) true = (r, v') -> step v v'
  | StepText v d t mem r v' : avbox_listview_setitemtext v d t mem = Some (r, v') -> step v v'
  | StepUp v v' : arrow_up v = Some v' -> step v v'
  | StepDown v bs v' :
      fresh_addrs (addr <$> items v) (mjoin bs) -> arrow_down v bs = Some v' -> step v v'
  | StepEol v r v' : avbox_listview_seteolcallback v = (r, v') -> step v v'
  | StepClear v : visible_window_offset v = 0 -> step v (avbox_listview_clearitems v).

(** ** Lemmas *)

Lemma scroll_loop_windows i j off vis its :
  0 <= vis -> j = Z.max 0 (Z.min vis (i - off)) ->
  window <$> scroll_loop i j off vis its = place off vis <$> seqZ i (len its) /\
  addr <$> scroll_loop i j off vis its = addr <$> its /\ length (scroll_loop i j off vis its) = length its.
Proof.
  intros Hv. revert i j. induction its as [|it its IH]; intros i j Hj; [done|]. cbn [scroll_loop].
  rewrite len_cons, seqZ_cons by (pose proof (len_nonneg its); lia).
  replace (Z.pred (1 + len its)) with (len its) by lia. replace (Z.succ i) with (i + 1) by lia.
  unfold place at 1. cbn [fmap list_fmap].
  destruct (i <? off) eqn:H1; [|destruct (j <? vis) eqn:H2]; cbn [fmap list_fmap window addr length].
  - destruct (IH (i + 1) j) as (-> & -> & ->); [lia|]. assert ((off <=? i) = false) as -> by lia. done.
  - destruct (IH (i + 1) (j + 1)) as (-> & -> & ->); [lia|].
    assert ((off <=? i) && (i <? off + vis) = true) as -> by lia. split_and!; try done. do 2 f_equal. lia.
  - destruct (IH (i + 1) j) as (-> & -> & ->); [lia|].
    assert ((off <=? i) && (i <? off + vis) = false) as -> by lia. done.
Qed.

Lemma addr_mid x l1 it l2 :
  NoDup (addr <$> (x :: l1) ++ it :: l2) -> addr x <> addr it /\ NoDup (addr <$> l1 ++ it :: l2).
Proof.
  cbn. rewrite NoDup_cons. intros [Hx Hnd]. split; [|done]. intros E. apply Hx.
  rewrite fmap_app. cbn. rewrite E. apply elem_of_app. right. left.
Qed.

Lemma addr_head x l : NoDup (addr <$> x :: l) -> addr x ∉ addr <$> l.
Proof. cbn. by rewrite NoDup_cons; intros [? _]. Qed.

Lemma find_item_mid a l1 it l2 :
  addr it = a -> NoDup (addr <$> l1 ++ it :: l2) -> find_item a (l1 ++ it :: l2) = Some it.
Proof.
  intros Ha. induction l1 as [|x l1 IH]; intros Hnd; cbn.
  - rewrite Ha, Z.eqb_refl. done.
  - apply addr_mid in Hnd as [Hx Hnd]. destruct (addr x =? a) eqn:E; [zify_bool; congruence|]. by apply IH.
Qed.

Lemma up_loop_mid a l1 it l2 prev :
  addr it = a -> NoDup (addr <$> l1 ++ it :: l2) ->
  up_loop (Some a) prev None (l1 ++ it :: l2) = match last l1 with Some x => Some x | None => prev end.
Proof.
  intros Ha. revert prev. induction l1 as [|x l1 IH]; intros prev Hnd; cbn [app up_loop].
  - rewrite bool_decide_true by congruence. apply addr_head in Hnd as Hx.
    assert (forall p f l, a ∉ addr <$> l -> up_loop (Some a) p f l = f) as Hrest.
    { clear. intros p f l. revert p. induction l as [|y l IH]; intros p Hn; [done|]. cbn in *.
      apply not_elem_of_cons in Hn as [? ?]. rewrite bool_decide_false by congruence. auto. }
    apply Hrest. congruence.
  - apply addr_mid in Hnd as [Hx Hnd]. rewrite bool_decide_false by congruence.
    rewrite IH, last_cons by done. by destruct (last l1).
Qed.

Lemma down_loop_mid a l1 it l2 :
  addr it = a -> NoDup (addr <$> l1 ++ it :: l2) -> down_loop (Some a) false None (l1 ++ it :: l2) = head l2.
Proof.
  intros Ha. induction l1 as [|x l1 IH]; intros Hnd; cbn.
  - rewrite bool_decide_true by congruence. apply addr_head in Hnd as Hx.
    assert (forall f l, a ∉ addr <$> l -> down_loop (Some a) false f l = f) as Hrest.
    { clear. intros f l. induction l as [|y l IH]; intros Hn; [done|]. cbn in *.
      apply not_elem_of_cons in Hn as [? ?]. rewrite bool_decide_false by congruence. auto. }
    destruct l2 as [|y l2]; [done|]. cbn in *. apply Hrest. apply not_elem_of_cons in Hx as [_ Hx]. congruence.
  - apply addr_mid in Hnd as [Hx Hnd]. rewrite bool_decide_false by congruence. by apply IH.
Qed.

(** Marking items dirty changes nothing the invariant speaks of. *)
Lemma set_dirty_spec a v l1 it l2 :
  items v = l1 ++ it :: l2 -> addr it = a -> NoDup (addr <$> items v) ->
  exists its, set_dirty a v = Some (with_items v its) /\
    addr <$> its = addr <$> items v /\ window <$> its = window <$> items v.
Proof.
  intros Hi Ha Hnd. unfold set_dirty.
  assert (find_item a (items v) = Some it) as ->.
  { rewrite Hi in Hnd |- *. by apply find_item_mid. }
  cbn.
  eexists. split; [done|]. rewrite <- !list_fmap_compose.
  split; apply list_fmap_ext; intros i x _; cbn; by destruct (addr x =? a).
Qed.

(** The invariant of a list whose selection is at [it]. *)
Lemma inv_selected v its off l1 it l2 (sel : option Z) :
  0 < visible_items v -> 0 <= off -> (off = 0 \/ off + visible_items v <= len its) ->
  count v = len its -> NoDup (addr <$> its) ->
  window <$> its = place off (visible_items v) <$> seqZ 0 (len its) ->
  addr <$> its = addr <$> l1 ++ it :: l2 -> sel = Some (addr it) ->
  off <= len l1 < off + visible_items v ->
  inv (View its sel (visible_items v) off (count v) (end_of_list_callback v)).
Proof.
  intros Hv Ho Hf Hc Hnd Hw Ha -> Hl. split_and!; try done. cbn.
  rewrite fmap_app in Ha. cbn in Ha. apply fmap_app_inv in Ha as (k1 & k2 & E1 & E2 & ->).
  destruct k2 as [|x k2]; [done|]. cbn in E2. injection E2 as Ex _.
  exists k1, x, k2. split_and!; [done|done|..]; assert (length k1 = length l1) as Hlen
    by (by rewrite <- (length_fmap addr k1), <- E1, length_fmap); unfold len in *; lia.
Qed.

Lemma scroll_inv v d v1 :
  inv v -> avbox_listview_scrollitems v d = Some v1 ->
  exists off, v1 = View (items v1) (selected v) (visible_items v) off (count v) (end_of_list_callback v) /\
    addr <$> items v1 = addr <$> items v /\ length (items v1) = length (items v) /\
    window <$> items v1 = place off (visible_items v) <$> seqZ 0 (len (items v)) /\
    off = visible_window_offset v +
      match d with MB_UI_DIRECTION_DOWN => 1 | MB_UI_DIRECTION_UP => -1 | _ => 0 end.
Proof.
  intros (Hv & Ho & _) E. unfold avbox_listview_scrollitems in E.
  assert (forall off, 0 <= off -> window <$> scroll_loop 0 0 off (visible_items v) (items v) =
    place off (visible_items v) <$> seqZ 0 (len (items v)) /\
    addr <$> scroll_loop 0 0 off (visible_items v) (items v) = addr <$> items v /\
    length (scroll_loop 0 0 off (visible_items v) (items v)) = length (items v)) as H.
  { intros off Hoff. apply scroll_loop_windows; lia. }
  destruct d; cbn in E.
  - simplify_eq. destruct (H (visible_window_offset v) Ho) as (? & ? & ?). eexists. split_and!; done || lia.
  - destruct (visible_window_offset v >? 0) eqn:Hg; [|done]. cbn in E. simplify_eq.
    destruct (H (visible_window_offset v - 1)) as (? & ? & ?); [lia|]. eexists. split_and!; done || lia.
  - simplify_eq. destruct (H (visible_window_offset v + 1)) as (? & ? & ?); [lia|]. eexists. by split_and!.
Qed.

(** Selecting an item of a list with exact windows. *)
Lemma setselected_spec v a l1 it l2 old k1 ot k2 :
  NoDup (addr <$> items v) -> items v = l1 ++ it :: l2 -> addr it = a ->
  selected v = Some old -> items v = k1 ++ ot :: k2 -> addr ot = old ->
  exists its, avbox_listview_setselected v a = Some (with_selected (with_items v its) (Some a)) /\
    addr <$> its = addr <$> items v /\ window <$> its = window <$> items v.
Proof.
  intros Hnd Hi Ha Hs Ho Hao. unfold avbox_listview_setselected. case_bool_decide as Hsame.
  { exists (items v). split_and!; [|done|done]. rewrite <- Hsame. by destruct v. }
  rewrite Hs. destruct (set_dirty_spec old v k1 ot k2 Ho Hao Hnd) as (its1 & -> & Ea & Ew). cbn [mbind option_bind].
  assert (exists m1 x m2, its1 = m1 ++ x :: m2 /\ addr x = a) as (m1 & x & m2 & Ei & Ex).
  { rewrite Hi, fmap_app in Ea. cbn in Ea. apply fmap_app_inv in Ea as (m1 & m2 & _ & E2 & ->).
    destruct m2 as [|x m2]; [done|]. cbn in E2. injection E2 as E2 _. exists m1, x, m2. split; congruence. }
  destruct (set_dirty_spec a (with_selected (with_items v its1) (Some a)) m1 x m2) as (its2 & -> & Ea2 & Ew2);
    [done|done|cbn; by rewrite Ea|]. cbn in *.
  exists its2. split_and!; [done|congruence|congruence].
Qed.

(** The window of the item at a known index. *)
Lemma inv_window v l1 it l2 :
  inv v -> items v = l1 ++ it :: l2 ->
  window it = place (visible_window_offset v) (visible_items v) (len l1).
Proof.
  intros (_ & _ & _ & _ & _ & Hw & _) Hi. apply (f_equal (lookup (length l1))) in Hw.
  rewrite !list_lookup_fmap, Hi, list_lookup_middle in Hw by done.
  rewrite lookup_seqZ_lt in Hw by (unfold len; rewrite length_app; cbn; lia). cbn in Hw. injection Hw as ->. done.
Qed.

(** Moving the selection to a neighbour, scrolling when it has no row. *)
Lemma select_scrolling_inv v l1 it l2 old d :
  inv v -> items v = l1 ++ it :: l2 -> selected v = Some old ->
  (d = MB_UI_DIRECTION_UP -> len l1 < visible_window_offset v + visible_items v /\ visible_window_offset v <= len l1 + 1) ->
  (d = MB_UI_DIRECTION_DOWN -> visible_window_offset v <= len l1 <= visible_window_offset v + visible_items v) ->
  d <> MB_UI_DIRECTION_NONE ->
  exists v', select_scrolling v it d = Some v' /\ inv v' /\ selected v' = Some (addr it) /\
    addr <$> items v' = addr <$> items v.
Proof.
  intros Hinv Hi Hs Hup Hdown Hd. pose proof (inv_window v l1 it l2 Hinv Hi) as Hw.
  pose proof Hinv as (Hv & Ho & Hf & Hc & Hnd & Hws & Hsel). rewrite Hs in Hsel.
  destruct Hsel as (k1 & ot & k2 & Hk & Hko & _). pose proof (len_nonneg l1) as Hl1.
  assert (len l1 + 1 <= len (items v)) as Hlen1.
  { rewrite Hi, len_app, len_cons. pose proof (len_nonneg l2). lia. }
  unfold select_scrolling.
  assert (exists v1, match window it with None => avbox_listview_scrollitems v d | Some _ => Some v end = Some v1 /\
    exists off, v1 = View (items v1) (selected v) (visible_items v) off (count v) (end_of_list_callback v) /\
      addr <$> items v1 = addr <$> items v /\ length (items v1) = length (items v) /\
      window <$> items v1 = place off (visible_items v) <$> seqZ 0 (len (items v)) /\
      0 <= off /\ (off = 0 \/ off + visible_items v <= len (items v)) /\
      off <= len l1 < off + visible_items v) as (v1 & E1 & off & Ev & Ea & El & Ew & Hoff & Hfit & Hvis).
  { unfold place in Hw. destruct (_ && _) eqn:Hin in Hw; rewrite Hw.
    - exists v. split; [done|]. exists (visible_window_offset v). split_and!; try done; try blia. by destruct v.
    - destruct (avbox_listview_scrollitems v d) as [v1|] eqn:E.
      + destruct (scroll_inv v d v1 Hinv E) as (off & Ev & Ea & El & Ew & Eo). exists v1. split; [done|].
        exists off. apply andb_false_iff in Hin.
        split_and!; try done; destruct d; try done; specialize (Hup eq_refl) || specialize (Hdown eq_refl);
          destruct Hin; blia.
      + exfalso. unfold avbox_listview_scrollitems in E. destruct d; try done. specialize (Hup eq_refl).
        destruct (visible_window_offset v >? 0) eqn:Hg; [done|]. apply andb_false_iff in Hin as [?|?]; blia. }
  rewrite E1. cbn.
  assert (forall l x r, items v = l ++ x :: r -> exists m1 y m2, items v1 = m1 ++ y :: m2 /\ addr y = addr x) as Hmid.
  { intros l x r Hx. rewrite Hx, fmap_app in Ea. cbn in Ea. apply fmap_app_inv in Ea as (m1 & m2 & _ & E2 & ->).
    destruct m2 as [|y m2]; [done|]. cbn in E2. injection E2 as E2 _. by exists m1, y, m2. }
  destruct (Hmid _ _ _ Hi) as (m1 & y & m2 & Ey & Hy). destruct (Hmid _ _ _ Hk) as (n1 & z & n2 & Ez & Hz).
  destruct (setselected_spec v1 (addr it) m1 y m2 old n1 z n2) as (its & E2 & Ea2 & Ew2);
    [by rewrite Ea|done|done|by rewrite Ev|done|congruence|].
  rewrite E2. eexists. split; [done|]. rewrite Ev. cbn.
  assert (length its = length (items v)) as Hlen.
  { rewrite <- El, <- (length_fmap addr its), Ea2, length_fmap. done. }
  split_and!; [|done|congruence].
  apply (inv_selected v its off l1 it l2); try done.
  - unfold len. by rewrite Hlen.
  - rewrite Hc. unfold len. by rewrite Hlen.
  - by rewrite Ea2, Ea.
  - unfold len. rewrite Hlen, Ew2, Ew. done.
  - by rewrite Ea2, Ea, Hi.
Qed.

Lemma place_snoc off vis n : 0 <= n ->
  place off vis <$> seqZ 0 (n + 1) = (place off vis <$> seqZ 0 n) ++ [place off vis n].
Proof. intros Hn. rewrite seqZ_app by lia. rewrite fmap_app. cbn. do 3 f_equal. Qed.

Lemma additem_inv v nm d a r v' :
  inv v -> a ∉ addr <$> items v -> avbox_listview_additem v nm d (Some a) true = (r, v') ->
  inv v' /\ addr <$> items v' = (addr <$> items v) ++ [a].
Proof.
  intros (Hv & Ho & Hf & Hc & Hnd & Hw & Hsel) Ha E. unfold avbox_listview_additem in E.
  pose proof (len_nonneg (items v)) as Hlen.
  assert (forall s, match s with
     | None => False
     | Some b => exists l1 it l2, (items v ++ [Item a (place (visible_window_offset v) (visible_items v) (count v)) (Some nm) true d]) =
         l1 ++ it :: l2 /\ addr it = b /\
         visible_window_offset v <= len l1 < visible_window_offset v + visible_items v
     end -> inv (View (items v ++ [Item a (place (visible_window_offset v) (visible_items v) (count v)) (Some nm) true d]) s
       (visible_items v) (visible_window_offset v) (count v + 1) (end_of_list_callback v))) as Hinv'.
  { intros s Hs. split_and!; cbn; try done.
    - rewrite len_app. unfold len at 2. cbn. destruct Hf; [by left|right; lia].
    - rewrite Hc, len_app. done.
    - rewrite fmap_app. cbn. by apply NoDup_snoc.
    - rewrite fmap_app, len_app. change (len [_]) with 1. rewrite place_snoc, Hw, Hc by done. done.
    - destruct s; [done|]. by destruct Hs. }
  assert (place (visible_window_offset v) (visible_items v) (count v) =
    if count v <? visible_items v then Some (count v) else None) as Hp.
  { unfold place. destruct (count v <? visible_items v) eqn:H1, (_ && _) eqn:H2; try done.
    - f_equal. destruct Hf; blia.
    - apply andb_false_iff in H2. destruct Hf, H2; blia.
    - destruct Hf; blia. }
  destruct (count v <? visible_items v) eqn:Hlt; simplify_eq; rewrite Hp in Hinv'.
  - case_bool_decide as Hn; cbn; (split; [|by rewrite fmap_app]); apply Hinv'.
    + rewrite Hn in Hsel. rewrite Hsel in *. cbn in *. rewrite Hc in *. cbn in *.
      do 3 eexists. split; [apply (eq_refl ([] ++ _ :: []))|]. split; [done|]. cbn. unfold len in *. cbn in *.
      destruct Hf; lia.
    + destruct (selected v) as [b|]; [|done]. destruct Hsel as (l1 & it & l2 & Hi & Hb & Hr).
      exists l1, it. eexists. split; [rewrite Hi, <- app_assoc; cbn; reflexivity|done].
  - cbn. split; [|by rewrite fmap_app]. apply Hinv'. destruct (selected v) as [b|].
    + destruct Hsel as (l1 & it & l2 & Hi & Hb & Hr).
      exists l1, it. eexists. split; [rewrite Hi, <- app_assoc; cbn; reflexivity|done].
    + rewrite Hsel in *. unfold len in *. cbn in *. blia.
Qed.

Lemma add_all_inv v ns :
  inv v -> fresh_addrs (addr <$> items v) ns ->
  inv (add_all v ns) /\ exists l, addr <$> items (add_all v ns) = (addr <$> items v) ++ l /\
    forall used more, fresh_addrs (addr <$> items v) (ns ++ more) ->
      used = addr <$> items (add_all v ns) -> fresh_addrs used more.
Proof.
  revert v. induction ns as [|n ns IH]; intros v Hinv Hf; cbn.
  { split; [done|]. exists []. rewrite app_nil_r. split; [done|]. by intros used more ? ->. }
  cbn in Hf. destruct Hf as [Hm Hf]. rewrite Hm. destruct (naddr n) as [a|] eqn:Ea.
  - destruct Hf as [Ha Hf].
    destruct (avbox_listview_additem v (nname n) (ndata n) (Some a) true) as [r v1] eqn:E. cbn.
    destruct (additem_inv v (nname n) (ndata n) a r v1 Hinv Ha E) as [H1 A1].
    destruct (IH v1 H1) as [H2 (l & A2 & Hrest)]; [by rewrite A1|]. split; [done|].
    exists (a :: l). split; [rewrite A2, A1, <- app_assoc; done|].
    intros used more [_ Hmore] Hu. destruct Hmore as [_ Hmore].
    apply (Hrest used more); [by rewrite A1|done].
  - destruct (IH v Hinv Hf) as [H2 (l & A2 & Hrest)]. split; [done|]. exists l. split; [done|].
    intros used more [_ Hmore] Hu. by apply Hrest.
Qed.

Lemma settext_same d t mem its r its' :
  settext_loop d t mem its = Some (r, its') -> addr <$> its' = addr <$> its /\ window <$> its' = window <$> its.
Proof.
  revert r its'. induction its as [|it its IH]; intros r its' E; cbn in E; [by simplify_eq|].
  destruct (data it =? d); [destruct (name it); by simplify_eq/=|].
  destruct (settext_loop d t mem its) as [[r1 k]|]; [|done]. cbn in E. simplify_eq.
  destruct (IH r k eq_refl) as [E1 E2]. cbn. by rewrite E1, E2.
Qed.

(** A second change of an item's text fails after a failed one. *)
Lemma settext_after_failure d t t' it its :
  data it = d -> is_Some (name it) ->
  exists its', settext_loop d t false (it :: its) = Some (-1, its') /\ settext_loop d t' true its' = None.
Proof. intros Hd [n Hn]. cbn. rewrite Hd, Z.eqb_refl, Hn. eexists. split; [done|]. cbn. by rewrite Z.eqb_refl. Qed.

(** The invariant only looks at addresses and windows. *)
Lemma inv_items v its :
  inv v -> addr <$> its = addr <$> items v -> window <$> its = window <$> items v -> inv (with_items v its).
Proof.
  intros (Hv & Ho & Hf & Hc & Hnd & Hw & Hsel) Ha Hwi.
  assert (len its = len (items v)) as Hl by (unfold len; by rewrite <- (length_fmap addr its), Ha, length_fmap).
  destruct (selected v) as [b|] eqn:Es.
  - destruct Hsel as (l1 & it & l2 & Hi & Hb & Hr). unfold with_items.
    apply (inv_selected v its (visible_window_offset v) l1 it l2); rewrite ?Hl; try done.
    + by rewrite Ha.
    + by rewrite Hwi.
    + by rewrite Ha, Hi.
    + by rewrite Es, Hb.
  - rewrite Hsel in *. destruct its; [|done]. unfold inv. cbn. rewrite Es. by split_and!.
Qed.

(** Where the selection is. *)
Definition at_index (v : avbox_listview) (k : nat) : Prop := selected v <> None /\ selected v = (addr <$> items v) !! k.

Lemma at_index_split v k :
  inv v -> at_index v k ->
  exists l1 it l2, items v = l1 ++ it :: l2 /\ selected v = Some (addr it) /\ length l1 = k /\
    visible_window_offset v <= len l1 < visible_window_offset v + visible_items v.
Proof.
  intros (_ & _ & _ & _ & Hnd & _ & Hsel) [Hne Hat]. destruct (selected v) as [b|]; [|done].
  destruct Hsel as (l1 & it & l2 & Hi & Hb & Hr). exists l1, it, l2. split_and!; try done; [congruence| |lia|lia].
  eapply (NoDup_lookup (addr <$> items v)); [done| |by rewrite <- Hat].
  rewrite Hi, list_lookup_fmap, list_lookup_middle by done. cbn. by rewrite Hb.
Qed.

Lemma arrow_up_spec v k :
  inv v -> at_index v k -> exists v', arrow_up v = Some v' /\ inv v' /\ at_index v' (Nat.pred k) /\
    addr <$> items v' = addr <$> items v.
Proof.
  intros Hinv Hat. destruct (at_index_split v k Hinv Hat) as (l1 & it & l2 & Hi & Hs & Hk & Hr).
  pose proof Hinv as (_ & _ & _ & _ & Hnd & _). unfold arrow_up.
  assert (up_loop (selected v) None None (items v) = last l1) as ->.
  { rewrite Hs, Hi in *. rewrite (up_loop_mid (addr it) l1 it l2 None) by done. by destruct (last l1). }
  destruct (last l1) as [x|] eqn:El.
  - apply last_snoc_inv in El as [m ->]. rewrite <- app_assoc in Hi. cbn in Hi.
    rewrite len_app in Hr. change (len [x]) with 1 in Hr.
    destruct (select_scrolling_inv v m x (it :: l2) (addr it) MB_UI_DIRECTION_UP) as (v' & E & H' & Hs' & Ha');
      [done|done|done|intros _; lia|done|done|].
    exists v'. split_and!; [done|done| |done]. split; [congruence|].
    rewrite length_app in Hk. cbn in Hk. rewrite Ha', Hi, Hs', list_lookup_fmap.
    replace (Nat.pred k) with (length m) by lia. by rewrite list_lookup_middle.
  - apply last_None in El as ->. cbn in Hk. subst k. exists v. by split_and!.
Qed.

Lemma arrow_down_spec v k bs :
  inv v -> at_index v k -> (S k < length (items v))%nat ->
  exists v', arrow_down v bs = Some v' /\ inv v' /\ at_index v' (S k) /\ addr <$> items v' = addr <$> items v.
Proof.
  intros Hinv Hat Hlt. destruct (at_index_split v k Hinv Hat) as (l1 & it & l2 & Hi & Hs & Hk & Hr).
  pose proof Hinv as (_ & _ & _ & _ & Hnd & _).
  assert (exists y r, l2 = y :: r) as (y & r & ->).
  { destruct l2 as [|y r]; [|eauto]. rewrite Hi, length_app in Hlt. cbn in Hlt. lia. }
  assert (down_loop (selected v) false None (items v) = Some y) as Ed.
  { rewrite Hs, Hi in *. by rewrite (down_loop_mid (addr it) l1 it). }
  destruct (select_scrolling_inv v (l1 ++ [it]) y r (addr it) MB_UI_DIRECTION_DOWN) as (v' & E & H' & Hs' & Ha');
    [done|by rewrite <- app_assoc|done|done|intros _; rewrite len_app; change (len [it]) with 1; lia|done|].
  exists v'. split_and!; [destruct bs; cbn; by rewrite Ed|done| |done]. split; [congruence|].
  rewrite Ha', Hi, Hs', list_lookup_fmap.
  replace (l1 ++ it :: y :: r) with ((l1 ++ [it]) ++ y :: r) by (by rewrite <- app_assoc).
  rewrite list_lookup_middle; [done|]. rewrite length_app. cbn. lia.
Qed.

Lemma selected_at v a : inv v -> selected v = Some a -> exists k, at_index v k /\ (k < length (items v))%nat.
Proof.
  intros (_ & _ & _ & _ & _ & _ & Hsel) Hs. rewrite Hs in Hsel. destruct Hsel as (l1 & it & l2 & Hi & Hb & _).
  exists (length l1). unfold at_index. rewrite Hi, Hs, list_lookup_fmap, list_lookup_middle by done. cbn.
  rewrite Hb. split; [done|]. rewrite length_app. cbn. lia.
Qed.

Lemma down_cases v :
  inv v -> (exists k, at_index v k /\ (S k < length (items v))%nat) \/
           down_loop (selected v) false None (items v) = None.
Proof.
  intros Hinv. destruct (selected v) as [a|] eqn:Es.
  - destruct (selected_at v a Hinv Es) as (k & Hat & Hk).
    destruct (decide (S k < length (items v))%nat) as [Hlt|Hge]; [eauto|right].
    destruct (at_index_split v k Hinv Hat) as (l1 & it & l2 & Hi & Hs & Hl & _).
    pose proof Hinv as (_ & _ & _ & _ & Hnd & _). rewrite Hi, length_app in Hge. cbn in Hge.
    rewrite <- Es, Hs, Hi in *. rewrite (down_loop_mid (addr it) l1 it l2) by done.
    destruct l2; [done|cbn in Hge; lia].
  - right. destruct Hinv as (_ & _ & _ & _ & _ & _ & Hsel). rewrite Es in Hsel. by rewrite Hsel.
Qed.

Lemma fresh_app used b c : fresh_addrs used (b ++ c) -> fresh_addrs used b.
Proof.
  revert used. induction b as [|n b IH]; intros used; cbn; [done|]. intros [? Hf]. split; [done|].
  destruct (naddr n); [destruct Hf; split; eauto|eauto].
Qed.

(** ARROW_DOWN in general: at the end of the list the callback may add. *)
Lemma arrow_down_inv v bs :
  inv v -> fresh_addrs (addr <$> items v) (mjoin bs) -> exists v', arrow_down v bs = Some v' /\ inv v'.
Proof.
  revert v. induction bs as [|b bs IH]; intros v Hinv Hf;
    (destruct (down_cases v Hinv) as [(k & Hat & Hlt)|Ed]; cbn [arrow_down]).
  - destruct (arrow_down_spec v k [] Hinv Hat Hlt) as (v' & E & H' & _). by exists v'.
  - rewrite Ed. exists v. by destruct (end_of_list_callback v).
  - destruct (arrow_down_spec v k (b :: bs) Hinv Hat Hlt) as (v' & E & H' & _). by exists v'.
  - rewrite Ed. destruct (end_of_list_callback v); [|by exists v].
    change (mjoin (b :: bs)) with (b ++ mjoin bs) in Hf.
    destruct (add_all_inv v b Hinv (fresh_app _ _ _ Hf)) as [H1 (l & _ & Hrest)].
    apply IH; [done|]. by apply (Hrest _ (mjoin bs) Hf).
Qed.

Lemma listview_step_inv v v' : inv v -> step v v' -> inv v'.
Proof.
  intros Hinv Hst. destruct Hst as [v nm d a r v' Ha E|v d t mem r v' E|v v' E|v bs v' Hf E|v r v' E|v Ho].
  - by destruct (additem_inv v nm d a r v' Hinv Ha E).
  - unfold avbox_listview_setitemtext in E. destruct (settext_loop d t mem (items v)) as [[r1 its]|] eqn:Es; [|done].
    destruct (settext_same _ _ _ _ _ _ Es) as [Ha Hw]. cbn in E. simplify_eq. by apply inv_items.
  - destruct (selected v) as [a|] eqn:Es.
    + destruct (selected_at v a Hinv Es) as (k & Hat & _).
      destruct (arrow_up_spec v k Hinv Hat) as (v1 & E1 & H1 & _). by simplify_eq.
    + destruct Hinv as (?&?&?&?&?&?& Hsel). rewrite Es in Hsel. unfold arrow_up in E. rewrite Hsel in E. cbn in E.
      simplify_eq. unfold inv. rewrite Es, Hsel in *. by split_and!.
  - destruct (arrow_down_inv v bs Hinv Hf) as (v1 & E1 & H1). by simplify_eq.
  - unfold avbox_listview_seteolcallback in E. destruct (end_of_list_callback v); by simplify_eq.
  - destruct Hinv as (Hv & _). unfold inv. cbn. split_and!; try done; [lia|by left|constructor].
Qed.

Lemma listview_new_inv height itemheight :
  0 < itemheight <= height -> inv (avbox_listview_new height itemheight).
Proof.
  intros H. unfold inv. cbn. split_and!; try done; [|by left|constructor].
  apply Z.quot_str_pos. lia.
Qed.

(** ** Properties *)

(** C25. What the list shows is exact: whenever items are added, renamed
    and browsed with the arrow keys, and an end-of-list callback adds more,
    item [i] is shown in row [i - offset] if that row exists and hidden
    otherwise, the count is the number of items, and the selection is one of
    the items, in a visible row (there is no selection only when the list is
    empty); no operation follows a dangling selection. *)
Theorem listview_exact height itemheight v :
  0 < itemheight <= height -> rtc step (avbox_listview_new height itemheight) v ->
  count v = len (items v) /\
  (forall i it, items v !! i = Some it ->
     window it = place (visible_window_offset v) (visible_items v) (Z.of_nat i)) /\
  (selected v = None <-> items v = []) /\
  (forall a, selected v = Some a -> exists it w, find_item a (items v) = Some it /\ window it = Some w /\
     0 <= w < visible_items v /\ avbox_listview_getselected v = Some (Some (data it))) /\
  is_Some (arrow_up v) /\ is_Some (arrow_down v []).
Proof.
  intros Hh Hr. assert (inv v) as Hinv.
  { eapply (rtc_invariant step inv); [|exact Hr|by apply listview_new_inv]. eauto using listview_step_inv. }
  pose proof Hinv as (Hv & Ho & _ & Hc & Hnd & Hw & Hsel). split_and!; [done| | | | |].
  - intros i it Hi. apply (f_equal (lookup i)) in Hw. rewrite !list_lookup_fmap, Hi in Hw. cbn in Hw.
    apply lookup_lt_Some in Hi. rewrite lookup_seqZ_lt in Hw by (unfold len; lia). cbn in Hw. by injection Hw.
  - destruct (selected v) as [a|]; [|done]. destruct Hsel as (l1 & it & l2 & Hi & _). rewrite Hi.
    split; [done|]. intros Hn. by destruct l1.
  - intros a Hs. rewrite Hs in Hsel. destruct Hsel as (l1 & it & l2 & Hi & Ha & Hr1).
    pose proof (inv_window v l1 it l2 Hinv Hi) as Hwi. unfold place in Hwi.
    assert ((visible_window_offset v <=? len l1) && (len l1 <? visible_window_offset v + visible_items v) = true) as E by lia.
    rewrite E in Hwi. assert (find_item a (items v) = Some it) as Hfind.
    { rewrite Hi in Hnd |- *. by apply find_item_mid. }
    exists it. eexists. split_and!; [done|done|lia|lia|]. unfold avbox_listview_getselected. rewrite Hs, Hfind. done.
  - destruct (selected v) as [a|] eqn:Es.
    + destruct (selected_at v a Hinv Es) as (k & Hat & _).
      destruct (arrow_up_spec v k Hinv Hat) as (v1 & -> & _). eauto.
    + unfold arrow_up. rewrite Hsel. eauto.
  - destruct (arrow_down_inv v [] Hinv) as (v1 & -> & _); [done|]. eauto.
Qed.

(** The arrow keys move the selection by one item and keep it in view:
    down goes to the next item and up to the previous one, stopping at the
    ends, whether or not the list has to scroll; the items keep their order. *)
Lemma arrows_move_selection height itemheight v k :
  0 < itemheight <= height -> rtc step (avbox_listview_new height itemheight) v -> at_index v k ->
  (exists v', arrow_up v = Some v' /\ at_index v' (Nat.pred k) /\ addr <$> items v' = addr <$> items v) /\
  ((S k < length (items v))%nat ->
   exists v', arrow_down v [] = Some v' /\ at_index v' (S k) /\ addr <$> items v' = addr <$> items v).
Proof.
  intros Hh Hr Hat. assert (inv v) as Hinv.
  { eapply (rtc_invariant step inv); [|exact Hr|by apply listview_new_inv]. eauto using listview_step_inv. }
  split.
  - destruct (arrow_up_spec v k Hinv Hat) as (v' & E & _ & ? & ?). eauto.
  - intros Hlt. destruct (arrow_down_spec v k [] Hinv Hat Hlt) as (v' & E & _ & ? & ?). eauto.
Qed.

Lemma remove_loop_other d its prev sel n :
  sel <> Some d ->
  remove_loop d its prev false sel n =
    (filter (fun it => data it <> d) its, sel, n - len (filter (fun it => data it = d) its)).
Proof.
  intros Hs. revert prev n. induction its as [|it its IH]; intros prev n; [cbn; f_equal; unfold len; cbn; lia|].
  cbn [remove_loop]. rewrite bool_decide_false by done. destruct (data it =? d) eqn:E; zify_bool.
  - rewrite IH, filter_cons_False, filter_cons_True by tauto. rewrite len_cons. f_equal. lia.
  - rewrite IH, filter_cons_True, filter_cons_False by tauto. done.
Qed.

(** Removing the selected item leaves the selection dangling: the code
    compares the selected item with the removed item's data instead of the
    item, so [selected] keeps pointing to the freed item and the next use of
    the selection reads freed memory. *)
Lemma remove_selected_dangles v a it :
  NoDup (addr <$> items v) -> selected v = Some a -> find_item a (items v) = Some it -> a <> data it ->
  let v' := avbox_listview_removeitem v (data it) in
  selected v' = Some a /\ find_item a (items v') = None /\ avbox_listview_getselected v' = None.
Proof.
  intros Hnd Hs Hf Hne v'. subst v'. unfold avbox_listview_removeitem. rewrite Hs, remove_loop_other by congruence.
  cbn. assert (find_item a (filter (fun x => data x <> data it) (items v)) = None) as Hn.
  { clear -Hnd Hf. induction (items v) as [|x l IH]; [done|]. cbn in Hf. cbn in Hnd. apply NoDup_cons in Hnd as [Hx Hnd].
    destruct (addr x =? a) eqn:E; zify_bool.
    - simplify_eq. rewrite filter_cons_False by tauto.
      assert (forall k, addr it ∉ addr <$> k -> find_item (addr it) (filter (fun x => data x <> data it) k) = None) as Hk.
      { clear. induction k as [|y k IH]; intros Hn; [done|]. cbn in Hn. apply not_elem_of_cons in Hn as [? ?].
        rewrite filter_cons. case_decide; [|auto]. cbn. destruct (addr y =? addr it) eqn:?; [zify_bool; congruence|auto]. }
      auto.
    - rewrite filter_cons. case_decide; [|auto]. cbn. destruct (addr x =? a) eqn:?; [zify_bool; congruence|auto]. }
  split_and!; [done|done|]. unfold avbox_listview_getselected. cbn. by rewrite Hn.
Qed.

(** Adding [n] items with addresses from [a] on, and pressing ARROW_DOWN
    [n] times. *)
Fixpoint add_n (n : nat) (a : Z) (v : avbox_listview) : avbox_listview :=
  match n with
  | O => v
  | S n => add_n n (a + 1) (avbox_listview_additem v EmptyString (a + 1000) (Some a) true).2
  end.

Fixpoint down_n (n : nat) (v : avbox_listview) : option avbox_listview :=
  match n with O => Some v | S n => v ← arrow_down v []; down_n n v end.

(** [avbox_listview_clearitems] keeps the scroll offset: after a list
    of two rows was scrolled, cleared and filled again, moving the selection
    down puts it on an item that has no row, so nothing is shown as
    selected. *)
Lemma clear_hides_selection :
  exists v a it,
    (v ← down_n 7 (add_n 8 1 (avbox_listview_new 20 10));
     down_n 2 (add_n 3 1 (avbox_listview_clearitems v))) = Some v /\
    selected v = Some a /\ find_item a (items v) = Some it /\ window it = None.
Proof. do 3 eexists. split; [vm_compute; reflexivity|]. vm_compute. repeat split. Qed.

(** *** Witnesses *)

Definition demo : avbox_listview := add_n 2 1 (avbox_listview_new 20 10).

Lemma listview_demo_run : rtc step (avbox_listview_new 20 10) demo.
Proof.
  eapply rtc_l; [eapply (StepAdd _ EmptyString 1001 1); [|reflexivity]; apply not_elem_of_nil|].
  eapply rtc_l; [eapply (StepAdd _ EmptyString 1002 2); [|reflexivity]|apply rtc_refl].
  apply not_elem_of_cons. split; [done|apply not_elem_of_nil].
Qed.

Lemma listview_exact_witness : count demo = 2 /\ is_Some (arrow_up demo).
Proof.
  destruct (listview_exact 20 10 demo ltac:(lia) listview_demo_run) as (Hc & _ & _ & _ & Hu & _).
  split; [reflexivity|exact Hu].
Defined.

Lemma arrows_move_selection_witness : exists v', arrow_down demo [] = Some v' /\ at_index v' 1.
Proof.
  destruct (arrows_move_selection 20 10 demo 0 ltac:(lia) listview_demo_run) as [_ H].
  - split; [discriminate|reflexivity].
  - destruct H as (v' & E & Hat & _); [vm_compute; lia|]. exists v'. split; [exact E|exact Hat].
Defined.

Lemma remove_selected_dangles_witness :
  avbox_listview_getselected (avbox_listview_removeitem demo 1001) = None.
Proof.
  apply (remove_selected_dangles demo 1 (Item 1 (Some 0) (Some EmptyString) true 1001)); try reflexivity.
  - by_eval.
  - discriminate.
Defined.
