(* ===== verification/Input.v ===== *)
(** * User input (src/lib/ui/input.c, src/lib/ui/input-socket.c)

    [Endpoints]: the stack of objects that grabbed the input, a list of the
    macros of [LinkedList] on a heap of nodes, and the delivery of an event
    to it through [Dispatch].  [Socket]: the remote-control connection, that
    reads text lines one byte at a time and turns each into an event. *)

From S2P Require Import Prelude LinkedList Dispatch Strings.

Definition AVBOX_MESSAGETYPE_INPUT : Z := 1.

(** [enum avbox_input_event], the letter keys with their letter. *)
Inductive avbox_input_event :=
  | MBI_EVENT_NONE | MBI_EVENT_PLAY | MBI_EVENT_PAUSE | MBI_EVENT_STOP | MBI_EVENT_MENU
  | MBI_EVENT_BACK | MBI_EVENT_ENTER | MBI_EVENT_NEXT | MBI_EVENT_PREV
  | MBI_EVENT_ARROW_UP | MBI_EVENT_ARROW_DOWN | MBI_EVENT_ARROW_LEFT | MBI_EVENT_ARROW_RIGHT
  | MBI_EVENT_CLEAR | MBI_EVENT_INFO | MBI_EVENT_VOLUME_UP | MBI_EVENT_VOLUME_DOWN
  | MBI_EVENT_KBD (letter : Ascii.ascii) | MBI_EVENT_KBD_SPACE
  | MBI_EVENT_TIMER | MBI_EVENT_VOLUME_CHANGED | MBI_EVENT_PLAYER_NOTIFICATION
  | MBI_EVENT_URL | MBI_EVENT_DOWNLOAD | MBI_EVENT_CONTEXT
  | MBI_EVENT_TRACK | MBI_EVENT_TRACK_LONG | MBI_EVENT_EXIT | MBI_EVENT_QUIT.

(** [struct avbox_input_message]; the payload is NULL or a string. *)
Record avbox_input_message := InputMsg {
  msg : avbox_input_event;
  msg_payload : option (list byte);
}.

Module Endpoints.

(** The address of the static list head. *)
Definition endpoints : loc := 1%positive.

(** The list links of the nodes, and their [object] fields. *)
Record input := Input { nodes : heap; object : gmap loc Z }.

(** The static head after [LIST_INIT] in [avbox_input_init]. *)
Definition avbox_input_init : input :=
  Input {[ endpoints := Listhead endpoints endpoints ]} ∅.

(** An element of the array that [getendpoints] allocates. *)
Inductive slot := Uninit | Null | Ptr (o : Z).

Definition array_store (a : list slot) (i : Z) (v : slot) : option (list slot) :=
  if (0 <=? i) && (i <? len a) then Some (<[Z.to_nat i := v]> a) else None.

(** Answers [*cnt] and the array, [None] for NULL. *)
Definition avbox_input_getendpoints (malloc_ok : bool) (s : input) : option (Z * option (list slot)) :=
  n ← LIST_SIZE (S (size (nodes s))) (nodes s) endpoints;
  let cnt := wraps 32 n in
  if malloc_ok then
    let objlist := replicate (Z.to_nat (cnt + 1)) Uninit in
    '(_, (objlist, i)) ← LIST_FOREACH (S (size (nodes s))) (fun ep h '(a, i) =>
        o ← object s !! ep;
        a ← array_store a i (Ptr o);
        i ← chk_int (i + 1);
        Some (false, h, (a, i))) endpoints (nodes s) (objlist, 0);
    objlist ← array_store objlist i Null;
    Some (cnt, Some objlist)
  else Some (cnt, None).

Definition avbox_input_getendpoint (obj : Z) (s : input) : option (option loc) :=
  snd <$> LIST_FOREACH (S (size (nodes s))) (fun ep h out =>
    o ← object s !! ep;
    if o =? obj then Some (true, h, Some ep) else Some (false, h, out))
    endpoints (nodes s) None.

(** The critical section in which [grab] unlinks the node it found. *)
Definition grab_unlink (ep : loc) (s : input) : option input :=
  h ← LIST_REMOVE (nodes s) ep; Some (Input h (object s)).

(** The one in which it pushes the node. *)
Definition grab_push (ep : loc) (obj : Z) (s : input) : option input :=
  h ← LIST_ADD (nodes s) endpoints ep; Some (Input h (<[ep := obj]> (object s))).

Definition node_alloc (p : loc) (s : input) : input :=
  Input (<[p := Listhead p p]> (nodes s)) (object s).

(** [mem] is the answer of [malloc].  The call takes the lock three times;
    the sections run one after the other here. *)
Definition avbox_input_grab (mem : option loc) (obj : Z) (s : input) : option (Z * input) :=
  found ← avbox_input_getendpoint obj s;
  match found with
  | None =>
      match mem with
      | None => Some (-1, s)
      | Some p => s ← grab_push p obj (node_alloc p s); Some (0, s)
      end
  | Some ep => s ← grab_unlink ep s; s ← grab_push ep obj s; Some (0, s)
  end.

(** The node is unlinked and freed. *)
Definition avbox_input_release (obj : Z) (s : input) : option input :=
  '(h, objs) ← LIST_FOREACH_SAFE (S (size (nodes s))) (fun ep h objs =>
      o ← objs !! ep;
      if o =? obj then h ← LIST_REMOVE h ep; Some (true, delete ep h, delete ep objs)
      else Some (false, h, objs)) endpoints (nodes s) (object s);
  Some (Input h objs).

(** The destinations [avbox_object_sendmsg] reads: up to NULL. *)
Fixpoint until_null (a : list slot) : option (list Z) :=
  match a with
  | [] | Uninit :: _ => None
  | Null :: _ => Some []
  | Ptr o :: a => os ← until_null a; Some (o :: os)
  end.

(** [Aborted]: the process calls [abort].  [Dropped]: no endpoint, the
    event and the array are leaked. *)
Inductive sendevent_result := Aborted | Dropped | Sent (ev : avbox_input_message).

(** [evp] is the address of the event ([None] when [malloc] fails) and
    [dest_ok] the answer of [malloc] for the array. *)
Definition avbox_input_sendevent (evp : option Z) (dest_ok : bool) (a : mem) (s : input) (w : world)
    (e : avbox_input_event) (pl : option (list byte)) : option (sendevent_result * world) :=
  match evp with
  | None => Some (Aborted, w)
  | Some evp =>
      '(cnt, d) ← avbox_input_getendpoints dest_ok s;
      match d with
      | None => Some (Aborted, w)
      | Some d =>
          if cnt =? 0 then Some (Dropped, w) else
          os ← until_null d;
          '(ok, w) ← avbox_object_sendmsg w (Many os) AVBOX_MESSAGETYPE_INPUT
                       AVBOX_DISPATCH_ANYCAST evp a;
          Some (if (ok : bool) then Sent (InputMsg e pl) else Aborted, w)
      end
  end.

(** *** Specification: a stack of distinct objects *)

Definition without (obj : Z) (st : list Z) : list Z := filter (fun o => o <> obj) st.

Inductive op := Grab (obj : Z) (malloc_ok : bool) | Release (obj : Z).

(** The last object to grab comes first; without memory an object that is
    not yet on the stack is not added. *)
Definition stack_op (st : list Z) (o : op) : list Z :=
  match o with
  | Grab obj ok => if ok || bool_decide (obj ∈ st) then obj :: without obj st else st
  | Release obj => without obj st
  end.

(** A run of calls; [malloc] picks an address for the nodes in use. *)
Fixpoint run_ops (malloc : gset loc -> loc) (ops : list op) (s : input) : option input :=
  match ops with
  | [] => Some s
  | Grab obj ok :: ops =>
      let mem := if ok then Some (malloc (dom (nodes s))) else None in
      '(_, s) ← avbox_input_grab mem obj s; run_ops malloc ops s
  | Release obj :: ops => s ← avbox_input_release obj s; run_ops malloc ops s
  end.

(** The heap holds the head and one node for each object of the stack. *)
Definition stack_rep (s : input) (st : list Z) : Prop :=
  NoDup st /\ exists ns, is_list (nodes s) endpoints ns /\
    Forall2 (fun n o => object s !! n = Some o) ns st /\
    dom (nodes s) = {[ endpoints ]} ∪ list_to_set ns /\ dom (object s) = list_to_set ns.

(** *** Lemmas *)

Lemma without_notin obj st : obj ∉ st -> without obj st = st.
Proof. intros. apply filter_all. set_solver. Qed.

Lemma without_mid obj a b : NoDup (a ++ obj :: b) -> without obj (a ++ obj :: b) = a ++ b.
Proof.
  intros Hnd. apply NoDup_remove_mid in Hnd as [_ Hn]. unfold without.
  rewrite filter_app, filter_cons_False by (intros H; by apply H).
  rewrite !filter_all; [done|set_solver..].
Qed.

(** Where an object of the stack is on the list. *)
Lemma stack_split s ns st obj :
  Forall2 (fun n o => object s !! n = Some o) ns st -> obj ∈ st ->
  exists l n k a b, ns = l ++ n :: k /\ st = a ++ obj :: b /\ object s !! n = Some obj /\
    Forall2 (fun n o => object s !! n = Some o) l a /\
    Forall2 (fun n o => object s !! n = Some o) k b /\
    (forall q, q ∈ l -> exists o, object s !! q = Some o /\ o <> obj).
Proof.
  intros HF (a & b & -> & Ha)%list_elem_of_split_l.
  apply Forall2_app_inv_r in HF as (l & k' & Hl & Hk & ->).
  apply Forall2_cons_inv_r in Hk as (n & k & Hn & Hk & ->).
  exists l, n, k, a, b. split_and!; try done. intros q Hq.
  apply list_elem_of_lookup_1 in Hq as [i Hi].
  destruct (Forall2_lookup_l _ _ _ _ _ Hl Hi) as (o & Ho & E). exists o. split; [done|].
  intros ->. by apply Ha, list_elem_of_lookup_2 with i.
Qed.

(** What is not on the stack has no node. *)
Lemma stack_absent s ns st obj q :
  Forall2 (fun n o => object s !! n = Some o) ns st -> obj ∉ st -> q ∈ ns ->
  exists o, object s !! q = Some o /\ o <> obj.
Proof.
  intros HF Ho [i Hi]%list_elem_of_lookup_1.
  destruct (Forall2_lookup_l _ _ _ _ _ HF Hi) as (o & Hs & E). exists o. split; [done|].
  intros ->. by apply Ho, list_elem_of_lookup_2 with i.
Qed.

Lemma getendpoint_found s l n k obj :
  is_list (nodes s) endpoints (l ++ n :: k) -> object s !! n = Some obj ->
  (forall q, q ∈ l -> exists o, object s !! q = Some o /\ o <> obj) ->
  avbox_input_getendpoint obj s = Some (Some n).
Proof.
  intros Hl Hn Hq. unfold avbox_input_getendpoint.
  set (body := fun (ep : loc) (h : heap) (out : option loc) => _).
  destruct (FOREACH_break body (nodes s) endpoints l n k None (nodes s, Some n)) as [-> _]; [done| | |done].
  - intros p Hp. destruct (Hq p Hp) as (o & Ho & Hne). unfold body. rewrite Ho. simpl.
    by rewrite (proj2 (Z.eqb_neq o obj)).
  - unfold body. rewrite Hn. simpl. by rewrite Z.eqb_refl.
Qed.

Lemma getendpoint_absent s ns obj :
  is_list (nodes s) endpoints ns ->
  (forall q, q ∈ ns -> exists o, object s !! q = Some o /\ o <> obj) ->
  avbox_input_getendpoint obj s = Some None.
Proof.
  intros Hl Hq. unfold avbox_input_getendpoint.
  set (body := fun (ep : loc) (h : heap) (out : option loc) => _).
  destruct (LIST_FOREACH_inv (fun _ out => out = None) body (nodes s) endpoints ns None)
    as (s' & -> & ->); [done..| |done].
  intros l q k s' -> ->. destruct (Hq q) as (o & Ho & Hne); [set_solver|].
  exists None. split; [|done]. unfold body. rewrite Ho. simpl. by rewrite (proj2 (Z.eqb_neq o obj)).
Qed.

(** Pushing an allocated node that is not linked. *)
Lemma grab_push_rep s ns obj p :
  is_list (nodes s) endpoints ns -> p ∈ dom (nodes s) -> p ∉ endpoints :: ns ->
  exists s', grab_push p obj s = Some s' /\ is_list (nodes s') endpoints (p :: ns) /\
    dom (nodes s') = dom (nodes s) /\ object s' = <[p := obj]> (object s).
Proof.
  intros Hl Hp Hf. unfold grab_push.
  destruct (@list_add_rep heap heap_list_store (nodes s) endpoints ns p Hl Hp Hf)
    as (h' & E & Hr & Hd & _). simpl in E, Hr, Hd. rewrite E. simpl.
  eexists. split_and!; [done|done|apply set_eq; apply Hd|done].
Qed.

(** The objects of the nodes [ns] depend on their own fields only. *)
Lemma objects_agree (objs objs' : gmap loc Z) ns st :
  (forall q, q ∈ ns -> objs' !! q = objs !! q) ->
  Forall2 (fun n o => objs !! n = Some o) ns st -> Forall2 (fun n o => objs' !! n = Some o) ns st.
Proof.
  intros Hq HF. revert Hq. induction HF; intros Hq; constructor.
  - rewrite Hq; [done|set_solver].
  - apply IHHF. set_solver.
Qed.

Lemma push_objects (objs : gmap loc Z) p obj ns st :
  p ∉ ns -> Forall2 (fun n o => objs !! n = Some o) ns st ->
  Forall2 (fun n o => <[p := obj]> objs !! n = Some o) (p :: ns) (obj :: st).
Proof.
  intros Hp HF. constructor; [apply lookup_insert_eq|].
  apply (objects_agree objs); [|done]. intros q Hq. rewrite lookup_insert_ne; [done|set_solver].
Qed.

(** [grab] of an object that is not on the stack. *)
Lemma grab_new s st obj p :
  stack_rep s st -> obj ∉ st -> p ∉ dom (nodes s) ->
  exists s', avbox_input_grab (Some p) obj s = Some (0, s') /\ stack_rep s' (obj :: st).
Proof.
  intros (Hnd & ns & Hl & HF & Hdn & Hdo) Ho Hp. unfold avbox_input_grab.
  rewrite (getendpoint_absent s ns obj Hl) by (intros; by eapply stack_absent). cbn [mbind option_bind].
  destruct (@list_alloc_rep heap heap_list_store (nodes s) p Hp) as [Ha Hd]. simpl in Ha, Hd.
  destruct (grab_push_rep (node_alloc p s) ns obj p) as (s' & -> & Hl' & Hd' & Ho');
    [by apply Ha|apply Hd; by left|set_solver|].
  cbn [mbind option_bind]. exists s'. split; [done|]. split; [by apply NoDup_cons|].
  exists (p :: ns). rewrite Hd', Ho'. unfold node_alloc; simpl. split_and!; [done| | |].
  - apply push_objects; [set_solver|done].
  - rewrite dom_insert_L. set_solver.
  - rewrite dom_insert_L. set_solver.
Qed.

(** [grab] of an object that is on the stack moves it to the top. *)
Lemma grab_again s st obj mem :
  stack_rep s st -> obj ∈ st ->
  exists s', avbox_input_grab mem obj s = Some (0, s') /\ stack_rep s' (obj :: without obj st).
Proof.
  intros (Hnd & ns & Hl & HF & Hdn & Hdo) Ho. unfold avbox_input_grab.
  destruct (stack_split s ns st obj HF Ho) as (l & n & k & a & b & -> & -> & Hn & Hla & Hkb & Hq).
  rewrite (getendpoint_found s l n k obj Hl Hn Hq). cbn [mbind option_bind]. unfold grab_unlink.
  destruct (@list_remove_rep heap heap_list_store _ _ _ _ _ Hl) as (h1 & E & Hr & Hd & _).
  simpl in E, Hr, Hd. rewrite E. cbn [mbind option_bind].
  assert (NoDup (endpoints :: l ++ n :: k)) as Hndn by apply Hl.
  change (NoDup ((endpoints :: l) ++ n :: k)) in Hndn. apply NoDup_remove_mid in Hndn as [_ Hnl].
  assert (dom h1 = dom (nodes s)) as Hd1 by (apply set_eq; apply Hd).
  destruct (grab_push_rep (Input h1 (object s)) (l ++ k) obj n) as (s' & -> & Hl' & Hd' & Ho');
    [done|simpl; rewrite Hd1, Hdn; set_solver|set_solver|].
  cbn [mbind option_bind]. simpl in Hd', Ho'. exists s'. split; [done|].
  rewrite without_mid by done. apply NoDup_remove_mid in Hnd as [Hnd Hob].
  split; [by apply NoDup_cons|]. exists (n :: l ++ k). rewrite Hd', Hd1, Ho', Hdn. split_and!; [done| |set_solver|].
  - apply push_objects; [set_solver|]. by apply Forall2_app.
  - rewrite dom_insert_L. set_solver.
Qed.

(** [grab] without memory. *)
Lemma grab_enomem s st obj :
  stack_rep s st -> obj ∉ st -> avbox_input_grab None obj s = Some (-1, s).
Proof.
  intros (Hnd & ns & Hl & HF & _) Ho. unfold avbox_input_grab.
  by rewrite (getendpoint_absent s ns obj Hl) by (intros; by eapply stack_absent).
Qed.

Lemma release_rep s st obj :
  stack_rep s st -> exists s', avbox_input_release obj s = Some s' /\ stack_rep s' (without obj st).
Proof.
  intros (Hnd & ns & Hl & HF & Hdn & Hdo). unfold avbox_input_release.
  set (body := fun (ep : loc) (h : heap) (objs : gmap loc Z) => _).
  assert (forall q, (exists o, object s !! q = Some o /\ o <> obj) ->
    body q (nodes s) (object s) = Some (false, nodes s, object s)) as Hskip.
  { intros q (o & Ho & Hne). unfold body. rewrite Ho. simpl. by rewrite (proj2 (Z.eqb_neq o obj)). }
  destruct (decide (obj ∈ st)) as [Ho|Ho].
  2:{ rewrite (LIST_FOREACH_SAFE_skip body (nodes s) endpoints ns) by
        (done || (intros; apply Hskip; by eapply stack_absent)).
      simpl. exists s. destruct s. rewrite without_notin by done. split; [done|]. split; [done|]. by exists ns. }
  destruct (stack_split s ns st obj HF Ho) as (l & n & k & a & b & -> & -> & Hn & Hla & Hkb & Hq).
  destruct (@list_remove_rep heap heap_list_store _ _ _ _ _ Hl) as (h1 & E & Hr & Hd & _).
  simpl in E, Hr, Hd. assert (dom h1 = dom (nodes s)) as Hd1 by (apply set_eq; apply Hd).
  destruct (FOREACH_break body (nodes s) endpoints l n k (object s) (delete n h1, delete n (object s)))
    as [_ ->]; [done|auto| |].
  { unfold body. rewrite Hn. simpl. by rewrite Z.eqb_refl, E. }
  cbn [mbind option_bind]. eexists. split; [done|].
  assert (NoDup (endpoints :: l ++ n :: k)) as Hndn by apply Hl.
  change (NoDup ((endpoints :: l) ++ n :: k)) in Hndn. apply NoDup_remove_mid in Hndn as [_ Hnl].
  rewrite without_mid by done. apply NoDup_remove_mid in Hnd as [Hnd Hob].
  split; [done|]. exists (l ++ k). simpl. rewrite !dom_delete_L, Hd1, Hdn, Hdo. split_and!.
  - apply (is_list_agree h1); [|done]. intros q Hq'. unfold get_next, get_prev.
    rewrite lookup_delete_ne; [done|set_solver].
  - apply (objects_agree (object s)); [|by apply Forall2_app].
    intros q Hq'. rewrite lookup_delete_ne; [done|set_solver].
  - set_solver.
  - set_solver.
Qed.

Lemma LIST_SIZE_list h hd xs :
  is_list h hd xs -> len xs <= SIZE_MAX -> LIST_SIZE (S (size h)) h hd = Some (len xs).
Proof.
  intros Hl Hsz. unfold LIST_SIZE, LIST_COUNT.
  destruct (LIST_FOREACH_inv (fun l sz => sz = wrapu 64 (len l))
    (fun _ h sz => Some (false, h, wrapu 64 (sz + 1))) h hd xs 0) as (sz & -> & ->); [done|done| |].
  - intros l q k sz _ ->. eexists. split; [done|]. rewrite len_app, wrapu_add_l. done.
  - simpl. rewrite wrapu_small; [done|]. pose proof (len_nonneg xs). unfold SIZE_MAX in Hsz. lia.
Qed.

(** The array that [getendpoints] has filled after [i] elements. *)
Definition filled (st : list Z) (i : nat) : list slot :=
  (Ptr <$> take i st) ++ replicate (length st + 1 - i) Uninit.

Lemma filled_store st i o v :
  (i < length st)%nat -> st !! i = Some o ->
  v = Ptr o -> array_store (filled st i) (Z.of_nat i) v = Some (filled st (S i)).
Proof.
  intros Hi Ho ->. unfold array_store, len, filled.
  rewrite !length_app, length_fmap, length_take, length_replicate, Nat.min_l by lia.
  rewrite (proj2 (Z.leb_le 0 _)), (proj2 (Z.ltb_lt _ _)) by lia. cbn [andb]. f_equal.
  rewrite Nat2Z.id, insert_app_r_alt by (rewrite length_fmap, length_take; lia).
  rewrite length_fmap, length_take, Nat.min_l, Nat.sub_diag by lia.
  rewrite (take_S_r _ _ _ Ho), fmap_app, <- app_assoc. f_equal.
  by replace (length st + 1 - i)%nat with (S (length st + 1 - S i)) by lia.
Qed.

Lemma getendpoints_stack s st :
  stack_rep s st -> len st < INT_MAX ->
  avbox_input_getendpoints true s = Some (len st, Some ((Ptr <$> st) ++ [Null])).
Proof.
  intros (_ & ns & Hl & HF & _) Hn. unfold avbox_input_getendpoints.
  assert (length ns = length st) as Hlen by (by eapply Forall2_length).
  assert (len ns = len st) as Hlz by (unfold len; by rewrite Hlen).
  unfold INT_MAX in Hn. pose proof (len_nonneg st).
  rewrite (LIST_SIZE_list _ _ ns) by (done || (unfold SIZE_MAX; lia)). cbn [mbind option_bind].
  rewrite Hlz, wraps_small by lia.
  set (body := fun (ep : loc) (h : heap) '(a, i) => _).
  destruct (LIST_FOREACH_inv (fun l r => r = (filled st (length l), len l)) body (nodes s) endpoints ns
    (replicate (Z.to_nat (len st + 1)) Uninit, 0)) as (r & -> & ->); [done| | |].
  - unfold filled. simpl. rewrite Nat.sub_0_r. do 2 f_equal. unfold len. lia.
  - intros l q k r E ->. unfold body.
    assert (ns !! length l = Some q) as Hq by (subst ns; by apply list_lookup_middle).
    destruct (Forall2_lookup_l _ _ _ _ _ HF Hq) as (o & Ho & Eo). rewrite Eo. cbn [mbind option_bind].
    pose proof (lookup_lt_Some _ _ _ Ho). unfold len in *.
    rewrite (filled_store st (length l) o (Ptr o)) by done. cbn [mbind option_bind].
    rewrite chk_int_Some by lia. cbn [mbind option_bind]. eexists. split; [done|].
    rewrite length_app. simpl. f_equal; [f_equal|]; lia.
  - cbn [mbind option_bind]. rewrite Hlen, Hlz. unfold array_store, filled.
    rewrite take_ge by lia. replace (length st + 1 - length st)%nat with 1%nat by lia. simpl.
    unfold len. rewrite length_app, length_fmap. simpl.
    rewrite (proj2 (Z.leb_le 0 _)), (proj2 (Z.ltb_lt _ _)) by lia. cbn [andb mbind option_bind].
    rewrite Nat2Z.id, insert_app_r_alt by (rewrite length_fmap; lia).
    by rewrite length_fmap, Nat.sub_diag.
Qed.

Lemma until_null_stack st : until_null ((Ptr <$> st) ++ [Null]) = Some st.
Proof. induction st as [|o st IH]; [done|]. rewrite fmap_cons. cbn [app until_null]. by rewrite IH. Qed.

(** References are taken on live objects; queues are left alone. *)
Lemma ref_all_alive os w :
  (forall o, o ∈ os -> is_Some (objects w !! o)) ->
  exists w', ref_all w os = Some w' /\ queued w' = queued w /\ tids w' = tids w /\
    forall o ob, objects w !! o = Some ob -> exists ob', objects w' !! o = Some ob' /\ oq ob' = oq ob.
Proof.
  revert w. induction os as [|o os IH]; intros w Ho; simpl.
  { exists w. split_and!; [done..|]. by eauto. }
  unfold avbox_object_ref. destruct (Ho o) as [ob Eo]; [set_solver|]. rewrite Eo. cbn [mbind option_bind].
  destruct (IH (set_objects w (<[o := with_refs ob (refs ob + 1)]> (objects w)))) as (w' & -> & Hq & Ht & Hk).
  { intros o' Ho'. simpl. destruct (decide (o' = o)) as [->|]; simplify_map_eq; [done|]. apply Ho. set_solver. }
  exists w'. split_and!; [done..|]. intros o' ob' Eo'. simpl in Hk.
  destruct (decide (o' = o)) as [->|]; simplify_map_eq.
  - destruct (Hk o (with_refs ob (refs ob + 1))) as (ob'' & ? & ?); [by simplify_map_eq|]. by exists ob''.
  - apply Hk. by simplify_map_eq.
Qed.

(** What [sendevent] does for a given stack when no call fails. *)
Definition event_delivered (s : input) (st : list Z) (w : world) : Prop :=
  forall evp e pl,
    match st with
    | [] => avbox_input_sendevent (Some evp) true (Mem true true true) s w e pl = Some (Dropped, w)
    | top :: _ =>
        forall ob, objects w !! top = Some ob -> oq ob ∈ tids w ->
        exists w', avbox_input_sendevent (Some evp) true (Mem true true true) s w e pl
                     = Some (Sent (InputMsg e pl), w') /\
          queued w' = queued w ++
            [(oq ob, Msg AVBOX_MESSAGETYPE_INPUT AVBOX_DISPATCH_ANYCAST (Many st) evp)]
    end.

Lemma sendevent_stack s st w :
  stack_rep s st -> len st < INT_MAX -> (forall o, o ∈ st -> is_Some (objects w !! o)) ->
  event_delivered s st w.
Proof.
  intros Hs Hn Ho evp e pl. unfold avbox_input_sendevent. rewrite (getendpoints_stack s st) by done.
  destruct st as [|top st]; [done|]. intros ob Et Hq. cbn [mbind option_bind].
  rewrite (proj2 (Z.eqb_neq (len (top :: st)) 0)) by (rewrite len_cons; pose proof (len_nonneg st); lia).
  rewrite until_null_stack. cbn [mbind option_bind]. unfold avbox_object_sendmsg.
  cbn [msg_mem dup_mem put_ok].
  assert (exists w1, acquire_message true w = Some w1 /\ objects w1 = objects w /\
    queued w1 = queued w /\ tids w1 = tids w) as (w1 & -> & Eo & Eq & Etd).
  { unfold acquire_message. destruct (message_pool w); by eexists. }
  unfold avbox_dispatch_destdup.
  destruct (ref_all_alive (top :: st) w1) as (w2 & -> & Q2 & T2 & K2); [by rewrite Eo|].
  rewrite Eo in K2. destruct (K2 top ob Et) as (ob2 & Hob2 & Hoq).
  cbn [mbind option_bind head]. rewrite Hob2. cbn [mbind option_bind]. unfold put.
  rewrite Hoq, T2, Etd, bool_decide_true by done. simpl.
  eexists. split; [done|]. simpl. by rewrite Q2, Eq.
Qed.

Lemma init_rep : stack_rep avbox_input_init [].
Proof.
  split; [constructor|]. exists []. split_and!; [|constructor| |done].
  - split; [apply NoDup_singleton|]. by repeat split.
  - simpl. by rewrite dom_singleton_L, union_empty_r_L.
Qed.

(** *** Properties *)

(** C14. The input endpoints are a stack of distinct objects: after any
    sequence of grabs and releases (also when [malloc] fails) the list holds
    exactly the objects that grabbed and did not release, the most recent
    grab first, one node each and no other node allocated; no step touches
    freed memory.  An event is then put, for all of them in that order, in
    the queue of the thread of the most recent grabber, and nothing is
    queued when nobody grabbed the input. *)
Theorem input_refines_stack (malloc : gset loc -> loc) (ops : list op) :
  (forall X, malloc X ∉ X) ->
  exists s, run_ops malloc ops avbox_input_init = Some s /\
    stack_rep s (foldl stack_op [] ops) /\
    forall w, len (foldl stack_op [] ops) < INT_MAX ->
      (forall o, o ∈ foldl stack_op [] ops -> is_Some (objects w !! o)) ->
      event_delivered s (foldl stack_op [] ops) w.
Proof.
  intros Hm. cut (forall s st, stack_rep s st -> exists s', run_ops malloc ops s = Some s' /\
    stack_rep s' (foldl stack_op st ops)).
  { intros Hr. destruct (Hr avbox_input_init [] init_rep) as (s & Es & Hs).
    exists s. split_and!; [done..|]. intros. by apply sendevent_stack. }
  induction ops as [|[obj ok|obj] ops IH]; intros s st Hs; simpl; [by eauto| |].
  - destruct (decide (obj ∈ st)) as [Ho|Ho].
    + destruct (grab_again s st obj (if ok then Some (malloc (dom (nodes s))) else None) Hs Ho)
        as (s' & -> & Hs'). rewrite (bool_decide_true (obj ∈ st)), orb_true_r by done. by apply IH.
    + rewrite (bool_decide_false (obj ∈ st)), orb_false_r by done. destruct ok.
      * destruct (grab_new s st obj (malloc (dom (nodes s))) Hs Ho) as (s' & -> & Hs'); [apply Hm|].
        rewrite without_notin by done. by apply IH.
      * rewrite (grab_enomem s st obj Hs Ho). by apply IH.
  - destruct (release_rep s st obj Hs) as (s' & -> & Hs'). by apply IH.
Qed.

(** Three windows grab, the first grabs again, the second leaves. *)
Definition demo_ops : list op := [Grab 10 true; Grab 20 true; Grab 30 true; Grab 10 false; Release 20; Grab 40 false].

Lemma input_refines_stack_witness :
  exists s, run_ops (fun X => fresh X) demo_ops avbox_input_init = Some s /\ stack_rep s [10; 30].
Proof.
  destruct (input_refines_stack (fun X => fresh X) demo_ops) as (s & Es & Hs & _).
  - intros X. apply is_fresh.
  - exists s. split; [exact Es|]. assert (foldl stack_op [] demo_ops = [10; 30]) as <- by (vm_compute; reflexivity).
    exact Hs.
Defined.

(** [grab] drops the lock between finding the node and unlinking it: when
    another thread releases the same object in between, [LIST_REMOVE] runs
    on the freed node. *)
Lemma grab_release_race :
  exists s ep s', avbox_input_grab (Some 2%positive) 10 avbox_input_init = Some (0, s) /\
    avbox_input_getendpoint 10 s = Some (Some ep) /\
    avbox_input_release 10 s = Some s' /\ grab_unlink ep s' = None.
Proof.
  do 3 eexists. split; [vm_compute; reflexivity|]. split; [vm_compute; reflexivity|].
  split; [vm_compute; reflexivity|]. vm_compute. reflexivity.
Qed.

End Endpoints.

Module Socket.

(** ** The connection *)

Definition BUFSIZE : Z := 4096.

(** What one pass of the reading loop sees: [ctx->quit] set, or the result
    of [read(fd, pbuf, 1)] ([RRetry]: EAGAIN or EINTR). *)
Inductive rd := RByte (c : byte) | RRetry | RFail | REof | RQuit.

(** [Closed]: control goes to [end].  [Waiting]: the read has not returned
    yet. *)
Inductive line_result := Line (buffer : list byte) (rest : list rd) | Closed | Waiting.

(** The line is read into [buffer], [n] bytes of it so far. *)
Fixpoint read_line (rds : list rd) (buffer : list byte) (n : Z) : line_result :=
  if n <? BUFSIZE - 1 then
    match rds with
    | [] => Waiting
    | RQuit :: _ | RFail :: _ | REof :: _ => Closed
    | RRetry :: rds => read_line rds buffer n
    | RByte c :: rds =>
        if c =? 10 then Line (<[Z.to_nat n := 0]> buffer) rds
        else read_line rds (<[Z.to_nat n := c]> buffer) (n + 1)
    end
  else Line buffer rds.

(** *** The command *)

Definition lit (s : string) : list byte :=
  (fun a => Z.of_N (Ascii.N_of_ascii a)) <$> String.list_ascii_of_string s.

(** [None] is a read past the end of an argument. *)
Fixpoint strncmp (n : nat) (a b : list byte) : option Z :=
  match n with
  | O => Some 0
  | S n =>
      match a, b with
      | x :: a, y :: b =>
          if x =? y then if x =? 0 then Some 0 else strncmp n a b else Some (x - y)
      | _, _ => None
      end
  end.

(** [if (!strncmp(kw, buffer, n)) t else e] *)
Definition ifcmp {A} (kw : string) (buffer : list byte) (n : nat) (t e : option A) : option A :=
  r ← strncmp n (lit kw ++ [0]) buffer; if r =? 0 then t else e.

Abbreviation answered := (option (option avbox_input_message)).

Definition sendevent (e : avbox_input_event) : answered := Some (Some (InputMsg e None)).

(** [strdup] of the rest of the buffer as the payload. *)
Definition send_string (dup_ok : bool) (e : avbox_input_event) (s : list byte) : answered :=
  if dup_ok then Some (Some (InputMsg e (Some (cstring s)))) else Some None.

(** The chain of [ELIF_KEY]s. *)
Fixpoint elif_keys (keys : list Ascii.ascii) (buffer : list byte) : answered :=
  match keys with
  | [] => Some None
  | x :: keys =>
      r ← strncmp 1 buffer (lit (String.String x "") ++ [0]);
      if r =? 0 then sendevent (MBI_EVENT_KBD x) else elif_keys keys buffer
  end.

Definition letters : list Ascii.ascii := String.list_ascii_of_string "ABCDEFGHIJKLMNOPQRSTUVWXYZ".

Definition key_command (buffer : list byte) : answered :=
  r ← strncmp 1 buffer (lit " " ++ [0]);
  if r =? 0 then sendevent MBI_EVENT_KBD_SPACE else elif_keys letters buffer.

(** The event a line sends, if any. *)
Definition process_command (dup_ok : bool) (buffer : list byte) : answered :=
  ifcmp "DOWNLOAD:" buffer 9 (send_string dup_ok MBI_EVENT_DOWNLOAD (drop 9 buffer)) (
  ifcmp "MENU_LONG" buffer 9 (sendevent MBI_EVENT_CONTEXT) (
  ifcmp "MENU" buffer 4 (sendevent MBI_EVENT_MENU) (
  ifcmp "LEFT" buffer 4 (sendevent MBI_EVENT_ARROW_LEFT) (
  ifcmp "RIGHT" buffer 5 (sendevent MBI_EVENT_ARROW_RIGHT) (
  ifcmp "UP" buffer 2 (sendevent MBI_EVENT_ARROW_UP) (
  ifcmp "DOWN" buffer 4 (sendevent MBI_EVENT_ARROW_DOWN) (
  ifcmp "ENTER" buffer 5 (sendevent MBI_EVENT_ENTER) (
  ifcmp "BACK" buffer 4 (sendevent MBI_EVENT_BACK) (
  ifcmp "PLAY" buffer 4 (sendevent MBI_EVENT_PLAY) (
  ifcmp "STOP" buffer 4 (sendevent MBI_EVENT_STOP) (
  ifcmp "CLEAR" buffer 5 (sendevent MBI_EVENT_CLEAR) (
  ifcmp "PREV" buffer 4 (sendevent MBI_EVENT_PREV) (
  ifcmp "NEXT" buffer 4 (sendevent MBI_EVENT_NEXT) (
  ifcmp "INFO" buffer 4 (sendevent MBI_EVENT_INFO) (
  ifcmp "VOLUP" buffer 5 (sendevent MBI_EVENT_VOLUME_UP) (
  ifcmp "VOLDOWN" buffer 7 (sendevent MBI_EVENT_VOLUME_DOWN) (
  ifcmp "KEY:" buffer 4 (key_command (drop 4 buffer)) (
  ifcmp "URL:" buffer 4 (send_string dup_ok MBI_EVENT_URL (drop 4 buffer)) (
  ifcmp "TRACK" buffer 5 (sendevent MBI_EVENT_TRACK) (
  ifcmp "TRACK_LONG" buffer 10 (sendevent MBI_EVENT_TRACK_LONG)
  (Some None))))))))))))))))))))).

(** One pass of the outer loop: [quit] set, [fcntl] or [select] failing,
    nothing to read ([PIdle]: time-out, EINTR or the descriptor not set), or
    data ready; [dup_ok] is the answer of [strdup] in that pass. *)
Inductive poll := PQuit | PBroken | PFail | PIdle | PReady (dup_ok : bool).

(** The events sent, and whether the connection was closed. *)
Fixpoint socket_loop (polls : list poll) (rds : list rd) (buffer : list byte) :
    option (list avbox_input_message * bool) :=
  match polls with
  | [] => Some ([], false)
  | PQuit :: _ | PBroken :: _ | PFail :: _ => Some ([], true)
  | PIdle :: polls => socket_loop polls rds buffer
  | PReady dup_ok :: polls =>
      match read_line rds buffer 0 with
      | Closed => Some ([], true)
      | Waiting => Some ([], false)
      | Line buffer rds =>
          ev ← process_command dup_ok buffer;
          '(evs, c) ← socket_loop polls rds buffer;
          Some (option_list ev ++ evs, c)
      end
  end.

Definition avbox_input_socket_connect (polls : list poll) (rds : list rd) :
    option (list avbox_input_message * bool) :=
  socket_loop polls rds (replicate (Z.to_nat BUFSIZE) 0).

(** ** Specification: the longest keyword a line starts with *)

Inductive action := Plain (e : avbox_input_event) | WithString (e : avbox_input_event) | Key.

Definition keywords : list (string * action) :=
  [("DOWNLOAD:", WithString MBI_EVENT_DOWNLOAD); ("MENU_LONG", Plain MBI_EVENT_CONTEXT);
   ("MENU", Plain MBI_EVENT_MENU); ("LEFT", Plain MBI_EVENT_ARROW_LEFT);
   ("RIGHT", Plain MBI_EVENT_ARROW_RIGHT); ("UP", Plain MBI_EVENT_ARROW_UP);
   ("DOWN", Plain MBI_EVENT_ARROW_DOWN); ("ENTER", Plain MBI_EVENT_ENTER);
   ("BACK", Plain MBI_EVENT_BACK); ("PLAY", Plain MBI_EVENT_PLAY); ("STOP", Plain MBI_EVENT_STOP);
   ("CLEAR", Plain MBI_EVENT_CLEAR); ("PREV", Plain MBI_EVENT_PREV); ("NEXT", Plain MBI_EVENT_NEXT);
   ("INFO", Plain MBI_EVENT_INFO); ("VOLUP", Plain MBI_EVENT_VOLUME_UP);
   ("VOLDOWN", Plain MBI_EVENT_VOLUME_DOWN); ("KEY:", Key); ("URL:", WithString MBI_EVENT_URL);
   ("TRACK", Plain MBI_EVENT_TRACK); ("TRACK_LONG", Plain MBI_EVENT_TRACK_LONG)]%string.

(** The key a letter or a space names. *)
Definition key_event (rest : list byte) : option avbox_input_event :=
  c ← head rest;
  if c =? 32 then Some MBI_EVENT_KBD_SPACE
  else if (65 <=? c) && (c <=? 90) then Some (MBI_EVENT_KBD (Ascii.ascii_of_N (Z.to_N c)))
  else None.

Definition perform (dup_ok : bool) (a : action) (rest : list byte) : option avbox_input_message :=
  match a with
  | Plain e => Some (InputMsg e None)
  | WithString e => if dup_ok then Some (InputMsg e (Some rest)) else None
  | Key => (fun e => InputMsg e None) <$> key_event rest
  end.

(** [means dup_ok line ev]: the longest keyword [line] starts with sends
    [ev] (a line with no keyword sends nothing). *)
Definition means (dup_ok : bool) (line : list byte) (ev : option avbox_input_message) : Prop :=
  (exists kw a, (kw, a) ∈ keywords /\ lit kw `prefix_of` line /\
     (forall kw' a', (kw', a') ∈ keywords -> lit kw' `prefix_of` line ->
        (length (lit kw') <= length (lit kw))%nat) /\
     ev = perform dup_ok a (drop (length (lit kw)) line)) \/
  ((forall kw a, (kw, a) ∈ keywords -> ~ lit kw `prefix_of` line) /\ ev = None).

(** *** Lemmas *)

Lemma strncmp_keyword kw line rest :
  Forall (fun c => c <> 0) kw ->
  exists r, strncmp (length kw) (kw ++ [0]) (line ++ 0 :: rest) = Some r /\
    (r = 0 <-> kw `prefix_of` line).
Proof.
  intros Hk. revert line. induction Hk as [|x kw Hx Hk IH]; intros line; simpl.
  { exists 0. split; [done|]. split; [intros _; apply prefix_nil|done]. }
  destruct line as [|y line]; simpl.
  - rewrite (proj2 (Z.eqb_neq x 0)) by done. eexists. split; [done|].
    split; [lia|]. by intros ?%prefix_nil_inv.
  - destruct (x =? y) eqn:E; zify_bool.
    + subst y. rewrite (proj2 (Z.eqb_neq x 0)) by done. destruct (IH line) as (r & -> & Hr).
      exists r. split; [done|]. rewrite Hr. split; [apply prefix_cons|apply prefix_cons_inv_2].
    + eexists. split; [done|]. split; [lia|]. by intros ->%prefix_cons_inv_1.
Qed.

(** A test of the chain looks only at the line, never at what earlier and
    longer lines left behind the terminator. *)
Lemma ifcmp_prefix {A} kw line rest n (t e : option A) :
  forallb (fun c => negb (c =? 0)) (lit kw) = true -> n = length (lit kw) ->
  ifcmp kw (line ++ 0 :: rest) n t e = if decide (lit kw `prefix_of` line) then t else e.
Proof.
  intros Hk ->. unfold ifcmp. destruct (strncmp_keyword (lit kw) line rest) as (r & -> & Hr).
  { apply Forall_forall. intros c Hc. apply list_elem_of_In in Hc.
    pose proof (proj1 (forallb_forall _ _) Hk c Hc) as Hn. simpl in Hn. blia. }
  cbn [mbind option_bind]. case_decide as Hd.
  - apply Hr in Hd as ->. done.
  - rewrite (proj2 (Z.eqb_neq r 0)); [done|]. intros ->. by apply Hd, Hr.
Qed.

Definition code (x : Ascii.ascii) : Z := Z.of_N (Ascii.N_of_ascii x).

Lemma elif_keys_find keys c b :
  elif_keys keys (c :: b) =
    Some ((fun x => InputMsg (MBI_EVENT_KBD x) None) <$> List.find (fun x => code x =? c) keys).
Proof.
  induction keys as [|x keys IH]; [done|]. cbn [elif_keys List.find].
  change (lit (String.String x "") ++ [0]) with [code x; 0]. cbn [strncmp].
  rewrite (Z.eqb_sym c). destruct (code x =? c) eqn:E; cbn [mbind option_bind].
  - by destruct (c =? 0).
  - rewrite (proj2 (Z.eqb_neq (c - code x) 0)) by blia. apply IH.
Qed.

Lemma letters_code : Forall (fun x => 65 <= code x <= 90) letters.
Proof. repeat constructor; by vm_compute. Qed.

Lemma find_letter c :
  List.find (fun x => code x =? c) letters =
    if (65 <=? c) && (c <=? 90) then Some (Ascii.ascii_of_N (Z.to_N c)) else None.
Proof.
  destruct ((65 <=? c) && (c <=? 90)) eqn:E.
  - assert (Forall (fun c => List.find (fun x => code x =? c) letters
      = Some (Ascii.ascii_of_N (Z.to_N c))) (seqZ 65 26)) as HF by repeat constructor.
    rewrite Forall_forall in HF. apply HF, elem_of_seqZ. blia.
  - destruct (List.find _ letters) as [x|] eqn:F; [|done]. apply List.find_some in F as [Hx Hc].
    apply list_elem_of_In in Hx. pose proof (proj1 (Forall_forall _ _) letters_code x Hx). simpl in *.
    apply andb_false_iff in E as [E|E]; blia.
Qed.

Lemma key_command_event s rest :
  key_command (s ++ 0 :: rest) = Some ((fun e => InputMsg e None) <$> key_event s).
Proof.
  destruct s as [|c s]; [vm_compute; reflexivity|]. unfold key_command, key_event.
  change (lit " " ++ [0]) with [32; 0]. cbn [app strncmp head mbind option_bind].
  destruct (c =? 32) eqn:E; cbn [mbind option_bind].
  - by destruct (c =? 0).
  - rewrite (proj2 (Z.eqb_neq (c - 32) 0)), elif_keys_find, find_letter by blia.
    by destruct ((65 <=? c) && (c <=? 90)).
Qed.

(** The chain picks the first keyword of the table. *)
Fixpoint first_match (dup_ok : bool) (line : list byte) (kws : list (string * action)) :
    option avbox_input_message :=
  match kws with
  | [] => None
  | (kw, a) :: kws =>
      if decide (lit kw `prefix_of` line) then perform dup_ok a (drop (length (lit kw)) line)
      else first_match dup_ok line kws
  end.

Lemma drop_keyword kw line rest :
  lit kw `prefix_of` line ->
  drop (length (lit kw)) (line ++ 0 :: rest) = drop (length (lit kw)) line ++ 0 :: rest.
Proof. intros Hp. apply drop_app_le. by apply prefix_length. Qed.

Lemma send_string_rest kw ok e line rest :
  Forall (fun c => c <> 0) line -> lit kw `prefix_of` line ->
  send_string ok e (drop (length (lit kw)) (line ++ 0 :: rest)) =
    Some (perform ok (WithString e) (drop (length (lit kw)) line)).
Proof.
  intros Hz Hp. unfold send_string. rewrite drop_keyword, Builder.cstring_zero by (done || by apply Forall_drop).
  by destruct ok.
Qed.

Lemma process_first ok line rest :
  Forall (fun c => c <> 0) line ->
  process_command ok (line ++ 0 :: rest) = Some (first_match ok line keywords).
Proof.
  intros Hz. unfold process_command. rewrite !ifcmp_prefix by reflexivity.
  unfold keywords. cbn [first_match].
  repeat (case_decide; [first
    [ reflexivity
    | by apply (send_string_rest "DOWNLOAD:")
    | by apply (send_string_rest "URL:")
    | change 4%nat with (length (lit "KEY:")); by rewrite drop_keyword, key_command_event ]|]).
  reflexivity.
Qed.

Lemma first_match_spec ok line kws :
  (exists pre kw a post, kws = pre ++ (kw, a) :: post /\ lit kw `prefix_of` line /\
     first_match ok line kws = perform ok a (drop (length (lit kw)) line) /\
     forall kw' a', (kw', a') ∈ pre -> ~ lit kw' `prefix_of` line) \/
  ((forall kw a, (kw, a) ∈ kws -> ~ lit kw `prefix_of` line) /\ first_match ok line kws = None).
Proof.
  induction kws as [|[kw a] kws IH]; cbn [first_match].
  { right. split; [set_solver|done]. }
  case_decide as Hd.
  - left. exists [], kw, a, kws. split_and!; [done..|set_solver].
  - destruct IH as [(pre & kw' & a' & post & -> & Hp & Hf & Hn)|[Hn Hf]].
    + left. exists ((kw, a) :: pre), kw', a', post. split_and!; [done..|]. intros k b Hk.
      apply elem_of_cons in Hk as [[= -> ->]|Hk]; [done|by eapply Hn].
    + right. split; [|done]. intros k b Hk. apply elem_of_cons in Hk as [[= -> ->]|Hk]; [done|by eapply Hn].
Qed.

(** No keyword hides a longer one behind it, TRACK_LONG excepted. *)
Fixpoint table_ordered (kws : list (string * action)) : bool :=
  match kws with
  | [] => true
  | (kw, _) :: post =>
      forallb (fun e => negb (bool_decide (lit kw `prefix_of` lit e.1)) || String.eqb e.1 "TRACK_LONG") post
      && table_ordered post
  end.

Lemma table_ordered_app pre kws : table_ordered (pre ++ kws) = true -> table_ordered kws = true.
Proof. induction pre as [|[kw a] pre IH]; [done|]. cbn. intros [_ ?]%andb_true_iff. by apply IH. Qed.

Lemma keywords_ordered : table_ordered keywords = true.
Proof. vm_compute. reflexivity. Qed.

Lemma first_match_means ok line :
  ~ lit "TRACK_LONG" `prefix_of` line -> means ok line (first_match ok line keywords).
Proof.
  intros Ht. destruct (first_match_spec ok line keywords) as [(pre & kw & a & post & E & Hp & Hf & Hn)|[Hn Hf]].
  2:{ by right. }
  left. exists kw, a. split_and!; [rewrite E; set_solver|done| |done].
  intros kw' a' Hin Hp'. rewrite E in Hin. apply elem_of_app in Hin as [Hin|Hin].
  { by destruct (Hn kw' a' Hin). }
  apply elem_of_cons in Hin as [[= -> ->]|Hin]; [done|].
  destruct (prefix_weak_total _ _ _ Hp Hp') as [Hle|Hle]; [|by apply prefix_length].
  pose proof keywords_ordered as Hto. rewrite E in Hto. apply table_ordered_app in Hto. cbn in Hto.
  apply andb_true_iff in Hto as [Hto _].
  apply list_elem_of_In in Hin. apply (proj1 (forallb_forall _ _) Hto) in Hin. cbn in Hin.
  rewrite bool_decide_true in Hin by done. cbn in Hin. apply String.eqb_eq in Hin as ->. done.
Qed.

(** The bytes a sequence of reads delivers; a clean sequence has only
    bytes and retries. *)
Definition bytes_of (rds : list rd) : list byte :=
  omap (fun r => match r with RByte c => Some c | _ => None end) rds.

Definition clean (rds : list rd) : Prop :=
  Forall (fun r => match r with RByte _ | RRetry => True | _ => False end) rds.

Lemma insert_at {A} (pre tl : list A) x y : <[length pre := y]> (pre ++ x :: tl) = pre ++ y :: tl.
Proof. by rewrite insert_app_r_alt, Nat.sub_diag by done. Qed.

(** The reading loop reads exactly one line. *)
Lemma read_line_line rds pre tl line more :
  clean rds -> bytes_of rds = line ++ 10 :: more -> 10 ∉ line ->
  (length line < length tl)%nat -> len pre + len tl = BUFSIZE -> len pre + len line < BUFSIZE - 1 ->
  exists tl' rds', read_line rds (pre ++ tl) (len pre) = Line (pre ++ line ++ 0 :: tl') rds' /\
    length (line ++ 0 :: tl') = length tl /\ clean rds' /\ bytes_of rds' = more.
Proof.
  intros Hc. revert pre tl line. induction Hc as [|r rds Hr Hc IH]; intros pre tl line Hb Hn Hl Hs Hm.
  { by destruct line. }
  pose proof (len_nonneg line). cbn [read_line]. rewrite (proj2 (Z.ltb_lt _ _)) by lia.
  destruct r as [c| | | |]; [|by apply IH|done..].
  destruct tl as [|x tl]; [simpl in Hl; lia|].
  assert (Z.to_nat (len pre) = length pre) as Hpre by (unfold len; lia). rewrite Hpre, !insert_at.
  cbn in Hb. destruct line as [|c' line]; injection Hb as -> Hb.
  - rewrite Z.eqb_refl. exists tl, rds. simpl. by split_and!.
  - rewrite (proj2 (Z.eqb_neq c' 10)) by set_solver. simpl in Hl. rewrite len_cons in *.
    assert (len (pre ++ [c']) = len pre + 1) as Hp1 by by rewrite len_app.
    destruct (IH (pre ++ [c']) tl line) as (tl' & rds' & E & Hlen & ? & ?); [done|set_solver|lia..|].
    exists tl', rds'. rewrite Hp1, <- !app_assoc in E. cbn [app] in E. rewrite E.
    cbn [length app]. auto with lia.
Qed.

(** The answers of [strdup] in the passes that read a line. *)
Definition dups (polls : list poll) : list bool :=
  omap (fun p => match p with PReady ok => Some ok | _ => None end) polls.

Definition quiet (polls : list poll) : Prop :=
  Forall (fun p => match p with PIdle | PReady _ => True | _ => False end) polls.

(** A line the protocol allows: text that fits the buffer. *)
Definition text_line (line : list byte) : Prop :=
  Forall (fun c => c <> 0 /\ c <> 10) line /\ len line < BUFSIZE - 1 /\
  ~ lit "TRACK_LONG" `prefix_of` line.

Lemma socket_loop_lines polls rds buffer lines :
  quiet polls -> clean rds -> length buffer = Z.to_nat BUFSIZE ->
  Forall text_line lines -> length (dups polls) = length lines ->
  bytes_of rds = mjoin ((fun l => l ++ [10]) <$> lines) ->
  exists evs, socket_loop polls rds buffer = Some (mjoin (option_list <$> evs), false) /\
    Forall2 (fun dl ev => means dl.1 dl.2 ev) (zip (dups polls) lines) evs.
Proof.
  intros Hp. revert rds buffer lines. induction Hp as [|p polls Hp Hq IH]; intros rds buffer lines Hc Hb Ht Hl Hr.
  { exists []. by split; [|constructor]. }
  destruct p as [| | | |ok]; try done; [by apply IH|].
  destruct lines as [|line lines]; [done|]. apply Forall_cons in Ht as [(Hz & Hlen & Htl) Ht].
  rewrite fmap_cons in Hr. cbn in Hr. rewrite <- app_assoc in Hr. cbn [app] in Hr.
  destruct (read_line_line rds [] buffer line _ Hc Hr) as (tl & rds' & E & Hlen' & Hc' & Hr').
  { intros Hin. by apply (proj1 (Forall_forall _ _) Hz) in Hin as []. }
  { unfold len, BUFSIZE in *. lia. }
  { unfold len. rewrite Hb. reflexivity. }
  { done. }
  cbn [socket_loop]. change 0 with (len (@nil byte)). cbn [app] in E. rewrite E.
  rewrite process_first by (eapply Forall_impl; [exact Hz|naive_solver]). cbn [mbind option_bind].
  destruct (IH rds' (line ++ 0 :: tl) lines) as (evs & -> & HF); [done|by rewrite Hlen'|done|by injection Hl|done|].
  cbn [mbind option_bind]. exists (first_match ok line keywords :: evs). split; [done|].
  change (dups (PReady ok :: polls)) with (ok :: dups polls). cbn [zip zip_with]. constructor; [|done].
  by apply first_match_means.
Qed.

(** *** Properties *)

(** The remote-control connection turns the lines it receives into
    events, one by one and in order: whatever the pauses and interrupted
    reads in between, each line of text that fits the buffer sends the event
    of the longest keyword it starts with (with the rest of the line as its
    string, if it has one), a line that starts with no keyword sends nothing,
    and what a longer earlier line left in the buffer is never read. *)
Lemma socket_commands (polls : list poll) (rds : list rd) (lines : list (list byte)) :
  quiet polls -> clean rds -> Forall text_line lines -> length (dups polls) = length lines ->
  bytes_of rds = mjoin ((fun l => l ++ [10]) <$> lines) ->
  exists evs, avbox_input_socket_connect polls rds = Some (mjoin (option_list <$> evs), false) /\
    Forall2 (fun dl ev => means dl.1 dl.2 ev) (zip (dups polls) lines) evs.
Proof. intros. apply socket_loop_lines; done. Qed.

Definition demo_reads : list rd :=
  RRetry :: (RByte <$> lit "MENU_LONG" ++ [10]) ++ RRetry :: (RByte <$> lit "KEY:" ++ [10]).

Lemma socket_commands_witness :
  exists evs, avbox_input_socket_connect [PIdle; PReady true; PReady true] demo_reads
      = Some (mjoin (option_list <$> evs), false) /\
    Forall2 (fun dl ev => means dl.1 dl.2 ev) [(true, lit "MENU_LONG"); (true, lit "KEY:")] evs.
Proof.
  apply (socket_commands [PIdle; PReady true; PReady true] demo_reads [lit "MENU_LONG"; lit "KEY:"]).
  - repeat constructor.
  - repeat constructor.
  - repeat constructor; try done; apply (bool_decide_unpack _); vm_compute; done.
  - reflexivity.
  - reflexivity.
Defined.

(** TRACK is tested before TRACK_LONG: the long command sends the event of
    the short one. *)
Lemma track_long_sends_track :
  avbox_input_socket_connect [PReady true] (RByte <$> lit "TRACK_LONG" ++ [10])
    = Some ([InputMsg MBI_EVENT_TRACK None], false).
Proof. vm_compute. reflexivity. Qed.

(** A line that does not fit is cut, and its tail is taken for a command of
    its own. *)
Lemma long_line_tail_is_command :
  avbox_input_socket_connect [PReady true; PReady true]
    (RByte <$> lit "URL:" ++ replicate 4091 120 ++ lit "STOP" ++ [10])
    = Some ([InputMsg MBI_EVENT_URL (Some (replicate 4091 120)); InputMsg MBI_EVENT_STOP None], false).
Proof. vm_compute. reflexivity. Qed.

End Socket.
