(* ===== verification/Process.v ===== *)
(** * Child processes (src/lib/process.c)

    The process manager: [start] forks a child and keeps a record of it on
    [process_list]; the monitor thread reaps children and runs the exit
    callback, restarts the process, wakes the waiting thread or frees the
    record; [stop] signals a child and arms a timer that kills it.  The
    records live in a heap ([procs]), an access to a freed record and a
    [close] of a descriptor that is not open are errors ([None]).  What the
    kernel and [malloc] answer is an argument.  The sections under
    [process_list_lock] are the atomic steps; a call that uses a record
    after the lock was released is followed as a lookup under way
    ([tstep], [overlap]). *)

From S2P Require Import Prelude LinkedList.

(** ** Flags *)

Definition AVBOX_PROCESS_AUTORESTART : Z := 0x1.
Definition AVBOX_PROCESS_SIGKILL : Z := 0x2.
Definition AVBOX_PROCESS_IONICE : Z := Z.lor 0x10 (Z.lor 0x20 0x40).
Definition AVBOX_PROCESS_STDOUT : Z := Z.lor 0x80 0x100.
Definition AVBOX_PROCESS_STDERR : Z := Z.lor 0x200 0x400.
Definition AVBOX_PROCESS_WAIT : Z := 0x800.
Definition AVBOX_PROCESS_AUTORESTART_ALWAYS : Z := 0x1000.

Definition has (flags f : Z) : bool := negb (Z.land flags f =? 0).

(** The loop over the 32 bits of the masked flags. *)
Fixpoint checkflags_loop (n : nat) (proc_flags : Z) : result unit :=
  match n with
  | O => inr tt
  | S n =>
      if negb (Z.land proc_flags 1 =? 0) && negb (proc_flags =? 1) then inl EINVAL
      else checkflags_loop n (Z.shiftr proc_flags 1)
  end.

Definition avbox_process_checkflagsoneof (proc_flags flags : Z) : result unit :=
  if has proc_flags flags then checkflags_loop 32 (Z.land proc_flags flags) else inr tt.

(** ** Data *)

(** What is set when the process is started and never changed. *)
Record config := Config {
  id : Z;
  flags : Z;
  name : string;
  binary : string;
  args : list string;
  exit_callback : bool;        (* a callback is set *)
  autorestart_delay : Z;
}.

Record avbox_process := Proc {
  cfg : config;
  pid : Z;
  stdin : Z; stdout : Z; stderr : Z;
  exit_status : Z;
  exitted : bool;
  stopping : bool;
  force_kill_timer : Z;
  force_kill_delay : Z;
  cbstate : option Z;          (* the worker that runs the callback *)
}.

Definition set_child (pr : avbox_process) (c i o e : Z) : avbox_process :=
  Proc (cfg pr) c i o e (exit_status pr) (exitted pr) (stopping pr) (force_kill_timer pr)
    (force_kill_delay pr) (cbstate pr).
Definition set_pid (pr : avbox_process) (c : Z) : avbox_process :=
  set_child pr c (stdin pr) (stdout pr) (stderr pr).
Definition set_exit_status (pr : avbox_process) (s : Z) : avbox_process :=
  Proc (cfg pr) (pid pr) (stdin pr) (stdout pr) (stderr pr) s (exitted pr) (stopping pr)
    (force_kill_timer pr) (force_kill_delay pr) (cbstate pr).
Definition set_exitted (pr : avbox_process) : avbox_process :=
  Proc (cfg pr) (pid pr) (stdin pr) (stdout pr) (stderr pr) (exit_status pr) true (stopping pr)
    (force_kill_timer pr) (force_kill_delay pr) (cbstate pr).
Definition set_stopping (pr : avbox_process) : avbox_process :=
  Proc (cfg pr) (pid pr) (stdin pr) (stdout pr) (stderr pr) (exit_status pr) (exitted pr) true
    (force_kill_timer pr) (force_kill_delay pr) (cbstate pr).
Definition set_kill_timer (pr : avbox_process) (t : Z) : avbox_process :=
  Proc (cfg pr) (pid pr) (stdin pr) (stdout pr) (stderr pr) (exit_status pr) (exitted pr) (stopping pr)
    t (force_kill_delay pr) (cbstate pr).
Definition set_kill_delay (pr : avbox_process) (d : Z) : avbox_process :=
  Proc (cfg pr) (pid pr) (stdin pr) (stdout pr) (stderr pr) (exit_status pr) (exitted pr) (stopping pr)
    (force_kill_timer pr) d (cbstate pr).
Definition set_cbstate (pr : avbox_process) (c : option Z) : avbox_process :=
  Proc (cfg pr) (pid pr) (stdin pr) (stdout pr) (stderr pr) (exit_status pr) (exitted pr) (stopping pr)
    (force_kill_timer pr) (force_kill_delay pr) c.

(** A timer with its data: [Kill] points to the [id] field of a process,
    [Restart] to the process. *)
Inductive timer := Kill (p : loc) | Restart (p : loc).

Inductive signal := SIGTERM | SIGKILL.

(** [children]: the children that were not waited for, [None] while they
    run and [Some status] as zombies.  [open_fds]: the descriptors the
    manager opened and still owns.  [workers]: the delegates that run a
    callback, with its result when it has returned.  [signals] is a log. *)
Record manager := Mgr {
  procs : gmap loc avbox_process;
  process_list : list loc;
  nextid : Z;
  children : gmap Z (option Z);
  open_fds : gset Z;
  timers : list (Z * timer);
  nexttimer : Z;
  workers : gmap Z (loc * option Z);
  signals : list (Z * signal);
}.

Definition with_procs (w : manager) (ps : gmap loc avbox_process) : manager :=
  Mgr ps (process_list w) (nextid w) (children w) (open_fds w) (timers w) (nexttimer w) (workers w) (signals w).
Definition with_list (w : manager) (l : list loc) : manager :=
  Mgr (procs w) l (nextid w) (children w) (open_fds w) (timers w) (nexttimer w) (workers w) (signals w).
Definition with_nextid (w : manager) (n : Z) : manager :=
  Mgr (procs w) (process_list w) n (children w) (open_fds w) (timers w) (nexttimer w) (workers w) (signals w).
Definition with_children (w : manager) (c : gmap Z (option Z)) : manager :=
  Mgr (procs w) (process_list w) (nextid w) c (open_fds w) (timers w) (nexttimer w) (workers w) (signals w).
Definition with_fds (w : manager) (f : gset Z) : manager :=
  Mgr (procs w) (process_list w) (nextid w) (children w) f (timers w) (nexttimer w) (workers w) (signals w).
Definition with_timers (w : manager) (t : list (Z * timer)) : manager :=
  Mgr (procs w) (process_list w) (nextid w) (children w) (open_fds w) t (nexttimer w) (workers w) (signals w).
Definition with_workers (w : manager) (k : gmap Z (loc * option Z)) : manager :=
  Mgr (procs w) (process_list w) (nextid w) (children w) (open_fds w) (timers w) (nexttimer w) k (signals w).
Definition log_signal (w : manager) (c : Z) (s : signal) : manager :=
  Mgr (procs w) (process_list w) (nextid w) (children w) (open_fds w) (timers w) (nexttimer w) (workers w)
    (signals w ++ [(c, s)]).

Definition update (w : manager) (p : loc) (pr : avbox_process) : manager :=
  with_procs w (<[p := pr]> (procs w)).

(** [avbox_timer_register] and [avbox_timer_cancel] (see [Timers]). *)
Definition register_timer (w : manager) (t : timer) : manager :=
  Mgr (procs w) (process_list w) (nextid w) (children w) (open_fds w) (timers w ++ [(nexttimer w, t)])
    (nexttimer w + 1) (workers w) (signals w).
Definition cancel_timer (w : manager) (t : Z) : manager :=
  with_timers w (filter (fun e => e.1 <> t) (timers w)).

(** ** Descriptors *)

Definition open_fd (w : manager) (f : Z) : manager := with_fds w ({[f]} ∪ open_fds w).

Definition close_fd (w : manager) (f : Z) : option manager :=
  if bool_decide (f ∈ open_fds w) then Some (with_fds w (open_fds w ∖ {[f]})) else None.

(** [if (fd != -1) close(fd)] *)
Definition close_if (w : manager) (f : Z) : option manager :=
  if f =? -1 then Some w else close_fd w f.

Fixpoint close_all (w : manager) (fs : list Z) : option manager :=
  match fs with
  | [] => Some w
  | f :: fs => w ← close_if w f; close_all w fs
  end.

(** ** Fork *)

(** The answers of [pipe] or of [open] of /dev/null (which only gives the
    second descriptor) for each stream, and of [fork]. *)
Record fork_answer := ForkAns {
  ans_out : option (Z * Z);
  ans_err : option (Z * Z);
  ans_in : option (Z * Z);
  ans_pid : Z;
}.

(** Both ends of a pipe, or /dev/null as the second. *)
Definition open_stream (w : manager) (piped : bool) (a : option (Z * Z)) : option (Z * Z) * manager :=
  match a with
  | None => (None, w)
  | Some (r, v) => if piped then (Some (r, v), open_fd (open_fd w r) v) else (Some (-1, v), open_fd w v)
  end.

(** The label [end]: the child was not created. *)
Definition fork_failed (w : manager) (i o e : Z * Z) : option (Z * manager) :=
  w ← close_all w [i.1; i.2; o.1; o.2; e.1; e.2]; Some (-1, w).

(** The parent's side of [avbox_process_fork]. *)
Definition avbox_process_fork (w : manager) (p : loc) (a : fork_answer) : option (Z * manager) :=
  pr ← procs w !! p;
  let none := (-1, -1) in
  match open_stream w (has (flags (cfg pr)) AVBOX_PROCESS_STDOUT) (ans_out a) with
  | (None, w) => fork_failed w none none none
  | (Some out, w) =>
  match open_stream w (has (flags (cfg pr)) AVBOX_PROCESS_STDERR) (ans_err a) with
  | (None, w) => fork_failed w none out none
  | (Some err, w) =>
  match open_stream w true (ans_in a) with
  | (None, w) => fork_failed w none out err
  | (Some in_, w) =>
      let w := update w p (set_pid pr (ans_pid a)) in
      if ans_pid a =? -1 then fork_failed w in_ out err
      else
        let w := with_children w (<[ans_pid a := None]> (children w)) in
        w ← close_fd w in_.1;
        w ← close_if w out.2;
        w ← close_if w err.2;
        Some (ans_pid a, update w p (set_child pr (ans_pid a) in_.2 out.1 err.1))
  end end end.

(** [proc->pid = avbox_process_fork(proc)] *)
Definition fork_into (w : manager) (p : loc) (a : fork_answer) : option (Z * manager) :=
  '(c, w) ← avbox_process_fork w p a;
  pr ← procs w !! p;
  Some (c, update w p (set_pid pr c)).

(** ** Arguments *)

(** [blocks] counts the live allocations: the array and the copies made so
    far.  When a copy fails the [i] copies and the array are freed. *)
Fixpoint clone_loop (argv : list string) (dup_ok : list bool) (copies : list string) (blocks : Z) :
    option (list string) * Z :=
  match argv, dup_ok with
  | [], _ => (Some copies, blocks)
  | a :: argv, true :: dup_ok => clone_loop argv dup_ok (copies ++ [a]) (blocks + 1)
  | _ :: _, _ => (None, blocks - len copies - 1)
  end.

Definition avbox_process_clone_args (argv : list string) (arr_ok : bool) (dup_ok : list bool) :
    option (list string) * Z :=
  if arr_ok then clone_loop argv dup_ok [] 1 else (None, 0).

(** Frees the copies up to NULL and the array. *)
Definition avbox_process_free_args (argv : list string) (blocks : Z) : Z := blocks - len argv - 1.

(** ** Records *)

Definition avbox_process_free (w : manager) (p : loc) : option manager :=
  pr ← procs w !! p;
  let w := if force_kill_timer pr =? -1 then w else cancel_timer w (force_kill_timer pr) in
  Some (with_procs w (delete p (procs w))).

Definition avbox_process_get_next_id (w : manager) : option (Z * manager) :=
  n ← chk_int (nextid w + 1); Some (nextid w, with_nextid w n).

(** The first record of the list with a given id. *)
Fixpoint find_id (ps : gmap loc avbox_process) (l : list loc) (i : Z) : option (option loc) :=
  match l with
  | [] => Some None
  | p :: l => pr ← ps !! p; if id (cfg pr) =? i then Some (Some p) else find_id ps l i
  end.

Definition avbox_process_getbyid (w : manager) (i : Z) : option (option loc) :=
  find_id (procs w) (process_list w) i.

Definition unlist (w : manager) (p : loc) : manager :=
  with_list w (filter (fun q => q <> p) (process_list w)).

(** ** Timer callbacks *)

(** [kill_ok]: [kill] does not fail. *)
Definition send_signal (w : manager) (c : Z) (s : signal) (kill_ok : bool) : manager :=
  if kill_ok then log_signal w c s else w.

(** The callback reads the id through its data pointer into the record; the
    timer goes on while the process is on the list. *)
Definition avbox_process_force_kill (w : manager) (t : Z) (p : loc) (kill_ok : bool) : option manager :=
  pr ← procs w !! p;
  found ← avbox_process_getbyid w (id (cfg pr));
  match found with
  | None => Some (cancel_timer w t)
  | Some q =>
      qr ← procs w !! q;
      Some (if pid qr =? -1 then w else send_signal w (pid qr) SIGKILL kill_ok)
  end.

Definition avbox_process_autorestart (w : manager) (p : loc) (a : fork_answer) : option manager :=
  '(_, w) ← fork_into w p a; Some w.

(** The timer that runs it is not repeated. *)
Definition restart_fires (w : manager) (t : Z) (p : loc) (a : fork_answer) : option manager :=
  w ← avbox_process_autorestart w p a; Some (cancel_timer w t).

(** ** The monitor thread *)

(** [waitpid(-1, &status, WNOHANG)]: nothing to report (also EINTR and
    ECHILD), a child and its raw status, or another error, which ends the
    thread. *)
Inductive wait_answer := WNothing | WChild (c status : Z) | WFail.

Definition WEXITSTATUS (status : Z) : Z := Z.land (Z.shiftr status 8) 255.

(** Answers for one record: [malloc] of the callback state, the worker of
    [avbox_workqueue_delegate] ([None] when it fails), the fork of an
    immediate restart and [avbox_timer_register]. *)
Record visit_answer := VisitAns {
  va_mem : bool;
  va_worker : option Z;
  va_fork : fork_answer;
  va_timer : bool;
}.

(** The restart condition. *)
Definition wants_restart (pr : avbox_process) (cbresult : Z) : bool :=
  (cbresult =? 0) &&
  (has (flags (cfg pr)) AVBOX_PROCESS_AUTORESTART_ALWAYS ||
   (negb (exit_status pr =? 0) && has (flags (cfg pr)) AVBOX_PROCESS_AUTORESTART)).

(** The end of the loop's body, with the callback's result. *)
Definition conclude (w : manager) (p : loc) (cbresult : Z) (a : visit_answer) : option manager :=
  pr ← procs w !! p;
  if wants_restart pr cbresult && negb (stopping pr) then
    if autorestart_delay (cfg pr) =? 0 then avbox_process_autorestart w p (va_fork a)
    else Some (if va_timer a then register_timer w (Restart p) else w)
  else if has (flags (cfg pr)) AVBOX_PROCESS_WAIT then Some (update w p (set_exitted pr))
  else avbox_process_free (unlist w p) p.

(** The child of [p] exited with a raw status. *)
Definition child_exited (w : manager) (p : loc) (pr : avbox_process) (status : Z) (a : visit_answer) :
    option manager :=
  w ← close_all w [stdin pr; stdout pr; stderr pr];
  let pr := set_exit_status (set_child pr (-1) (-1) (-1) (-1)) (WEXITSTATUS status) in
  let w := update w p pr in
  if exit_callback (cfg pr) then
    if va_mem a then
      match va_worker a with
      | Some k => Some (with_workers (update w p (set_cbstate pr (Some k))) (<[k := (p, None)]> (workers w)))
      | None => conclude w p 0 a
      end
    else None (* abort() *)
  else conclude w p 0 a.

(** The callback of [p] runs or ran on worker [k]. *)
Definition callback_pending (w : manager) (p : loc) (pr : avbox_process) (k : Z) (a : visit_answer) :
    option manager :=
  '(_, r) ← workers w !! k;
  match r with
  | None => Some w
  | Some cbresult =>
      let w := with_workers (update w p (set_cbstate pr None)) (delete k (workers w)) in
      conclude w p cbresult a
  end.

(** The loop's body for one record; [c] is the reaped pid or -2. *)
Definition monitor_visit (c status : Z) (a : visit_answer) (w : manager) (p : loc) : option manager :=
  pr ← procs w !! p;
  if pid pr =? c then child_exited w p pr status a
  else match cbstate pr with
       | Some k => callback_pending w p pr k a
       | None => Some w
       end.

(** [LIST_FOREACH_SAFE]: a body only ever unlinks its own record. *)
Fixpoint monitor_loop (c status : Z) (env : loc -> visit_answer) (w : manager) (l : list loc) : option manager :=
  match l with
  | [] => Some w
  | p :: l => w ← monitor_visit c status (env p) w p; monitor_loop c status env w l
  end.

(** One pass of [avbox_process_monitor_thread]. *)
Definition monitor_pass (w : manager) (a : wait_answer) (env : loc -> visit_answer) : option manager :=
  match a with
  | WNothing => monitor_loop (-2) 0 env w (process_list w)
  | WChild c status => monitor_loop c status env (with_children w (delete c (children w))) (process_list w)
  | WFail => Some w
  end.

(** [avbox_process_callback_helper] on worker [k]: the callback returned
    [r]. *)
Definition avbox_process_callback_helper (w : manager) (k r : Z) : option manager :=
  '(p, _) ← workers w !! k;
  _ ← procs w !! p;
  Some (with_workers w (<[k := (p, Some r)]> (workers w))).

(** ** Calls *)

Definition avbox_process_getpid (w : manager) (i : Z) : option Z :=
  found ← avbox_process_getbyid w i;
  match found with
  | Some p => pid <$> procs w !! p
  | None => Some (-1)
  end.

Inductive std_fileno := STDIN_FILENO | STDOUT_FILENO | STDERR_FILENO.

(** The descriptor becomes the caller's. *)
Definition avbox_process_openfd (w : manager) (i : Z) (n : std_fileno) : option (result Z * manager) :=
  found ← avbox_process_getbyid w i;
  match found with
  | None => Some (inl ENOENT, w)
  | Some p =>
      pr ← procs w !! p;
      let '(f, pr) := match n with
        | STDIN_FILENO => (stdin pr, set_child pr (pid pr) (-1) (stdout pr) (stderr pr))
        | STDOUT_FILENO => (stdout pr, set_child pr (pid pr) (stdin pr) (-1) (stderr pr))
        | STDERR_FILENO => (stderr pr, set_child pr (pid pr) (stdin pr) (stdout pr) (-1))
        end in
      let w := update w p pr in
      Some (inr f, with_fds w (open_fds w ∖ {[f]}))
  end.

Definition avbox_process_setsigkilldelay (w : manager) (i d : Z) : option (result unit * manager) :=
  found ← avbox_process_getbyid w i;
  match found with
  | None => Some (inl ENOENT, w)
  | Some p => pr ← procs w !! p; Some (inr tt, update w p (set_kill_delay pr d))
  end.

(** Answers for [start]: the address of the record, the three copies,
    [pthread_cond_init] and the fork. *)
Record start_answer := StartAns {
  sa_mem : option loc;
  sa_args : bool * list bool;
  sa_name : bool;
  sa_binary : bool;
  sa_cond : bool;
  sa_fork : fork_answer;
}.

Record start_request := StartReq {
  rq_binary : string;
  rq_argv : list string;
  rq_flags : Z;
  rq_name : string;
  rq_callback : bool;
}.

Definition flags_ok (fl : Z) : bool :=
  match avbox_process_checkflagsoneof fl AVBOX_PROCESS_IONICE,
        avbox_process_checkflagsoneof fl AVBOX_PROCESS_STDOUT,
        avbox_process_checkflagsoneof fl AVBOX_PROCESS_STDERR with
  | inr _, inr _, inr _ => true
  | _, _, _ => false
  end.

(** [proc->pid] is not initialised before the fork; -1 stands for it. *)
Definition new_process (i : Z) (rq : start_request) (argv : list string) : avbox_process :=
  Proc (Config i (rq_flags rq) (rq_name rq) (rq_binary rq) argv (rq_callback rq) 5)
    (-1) (-1) (-1) (-1) (-1) false false (-1) 30 None.

Definition avbox_process_start (w : manager) (rq : start_request) (a : start_answer) : option (Z * manager) :=
  if flags_ok (rq_flags rq) then
    match sa_mem a with
    | None => Some (-1, w)
    | Some p =>
        '(i, w) ← avbox_process_get_next_id w;
        let argv := (avbox_process_clone_args (rq_argv rq) (sa_args a).1 (sa_args a).2).1 in
        let w := update w p (new_process i rq (default [] argv)) in
        w ← (if sa_cond a then Some w else avbox_process_free w p);
        _ ← procs w !! p;
        if sa_binary a && bool_decide (argv <> None) && sa_name a then
          let w := with_list w (p :: process_list w) in
          '(c, w) ← fork_into w p (sa_fork a);
          let w := if c =? -1 then unlist w p else w in
          pr ← procs w !! p;
          Some (id (cfg pr), w)
        else
          w ← avbox_process_free w p; Some (-1, w)
    end
  else Some (-1, w).

(** [avbox_process_wait] up to [pthread_cond_wait]: an error, or the record
    whose exit it waits for. *)
Definition wait_enter (w : manager) (i : Z) : option (result loc) :=
  found ← avbox_process_getbyid w i;
  match found with
  | None => Some (inl ENOENT)
  | Some p =>
      pr ← procs w !! p;
      Some (if has (flags (cfg pr)) AVBOX_PROCESS_WAIT then inr p else inl EINVAL)
  end.

(** And after it: the exit status. *)
Definition wait_leave (w : manager) (p : loc) : option (Z * manager) :=
  pr ← procs w !! p;
  if pid pr =? -1 then
    w ← avbox_process_free (unlist w p) p;
    Some (exit_status pr, w)
  else None (* assert *).

Definition avbox_process_stop (w : manager) (i : Z) (kill_ok timer_ok : bool) : option (Z * manager) :=
  found ← avbox_process_getbyid w i;
  match found with
  | None => Some (-1, w)
  | Some p =>
      pr ← procs w !! p;
      if pid pr =? -1 then Some (0, w)
      else
        let pr := set_stopping pr in
        let w := update w p pr in
        if has (flags (cfg pr)) AVBOX_PROCESS_SIGKILL then
          if kill_ok then Some (0, log_signal w (pid pr) SIGKILL) else Some (-1, w)
        else if kill_ok then
          let w := log_signal w (pid pr) SIGTERM in
          if timer_ok then
            Some (0, register_timer (update w p (set_kill_timer pr (nexttimer w))) (Kill p))
          else Some (-1, update w p (set_kill_timer pr (-1)))
        else Some (-1, w)
  end.

(** The loop of [avbox_process_shutdown]. *)
Fixpoint stop_all (w : manager) (l : list loc) (kill_ok timer_ok : loc -> bool) : option manager :=
  match l with
  | [] => Some w
  | p :: l =>
      pr ← procs w !! p;
      w ← (if negb (stopping pr) || negb (has (flags (cfg pr)) AVBOX_PROCESS_WAIT)
           then snd <$> avbox_process_stop w (id (cfg pr)) (kill_ok p) (timer_ok p)
           else Some w);
      stop_all w l kill_ok timer_ok
  end.

Definition avbox_process_shutdown (w : manager) (kill_ok timer_ok : loc -> bool) : option manager :=
  stop_all w (process_list w) kill_ok timer_ok.

Definition avbox_process_init : manager := Mgr ∅ [] 1 ∅ ∅ [] 1 ∅ [].

(** ** Runs of the manager *)

(** The events of a run.  [CExit]: the kernel ends a child.  [CWait]: a
    thread that waits for a process leaves [avbox_process_wait]. *)
Inductive call :=
  | CStart (rq : start_request) (a : start_answer)
  | CMonitor (a : wait_answer) (env : loc -> visit_answer)
  | CCallback (k r : Z)
  | CStop (i : Z) (kill_ok timer_ok : bool)
  | CWait (i : Z)
  | COpenfd (i : Z) (n : std_fileno)
  | CDelay (i d : Z)
  | CKillTimer (t : Z) (p : loc) (kill_ok : bool)
  | CRestartTimer (t : Z) (p : loc) (a : fork_answer)
  | CExit (c status : Z).

Definition exec (w : manager) (c : call) : option manager :=
  match c with
  | CStart rq a => snd <$> avbox_process_start w rq a
  | CMonitor a env => monitor_pass w a env
  | CCallback k r => avbox_process_callback_helper w k r
  | CStop i kill_ok timer_ok => snd <$> avbox_process_stop w i kill_ok timer_ok
  | CWait i =>
      r ← wait_enter w i;
      match r with inr p => snd <$> wait_leave w p | inl _ => Some w end
  | COpenfd i n => snd <$> avbox_process_openfd w i n
  | CDelay i d => snd <$> avbox_process_setsigkilldelay w i d
  | CKillTimer t p kill_ok => avbox_process_force_kill w t p kill_ok
  | CRestartTimer t p a => restart_fires w t p a
  | CExit c status => Some (with_children w (<[c := Some status]> (children w)))
  end.

Definition answer_fds (a : fork_answer) : list Z :=
  [ans_out a; ans_err a; ans_in a] ≫= fun o => match o with Some (r, v) => [r; v] | None => [] end.

(** The kernel gives descriptors that are not in use and a fresh pid. *)
Definition fork_ok (w : manager) (a : fork_answer) : Prop :=
  NoDup (answer_fds a) /\ (forall f, f ∈ answer_fds a -> f <> -1 /\ f ∉ open_fds w) /\
  (ans_pid a = -1 \/ (0 < ans_pid a /\ ans_pid a ∉ dom (children w))).

(** Workers of one pass are new and distinct. *)
Definition new_workers (w : manager) (env : loc -> visit_answer) : Prop :=
  (forall p k, va_worker (env p) = Some k -> k ∉ dom (workers w)) /\
  (forall p q k, va_worker (env p) = Some k -> va_worker (env q) = Some k -> p = q).

(** When an event can happen: what the kernel and the allocator promise; a
    waiting thread leaves when the process has exited. *)
Definition enabled (w : manager) (c : call) : Prop :=
  match c with
  | CStart _ a => (forall p, sa_mem a = Some p -> p ∉ dom (procs w)) /\ fork_ok w (sa_fork a)
  | CMonitor WNothing env => new_workers w env
  | CMonitor WFail _ => True
  | CMonitor (WChild c status) env => children w !! c = Some (Some status) /\ new_workers w env
  | CCallback k _ => exists p, workers w !! k = Some (p, None)
  | CWait i => forall p pr, wait_enter w i = Some (inr p) -> procs w !! p = Some pr -> exitted pr = true
  | CStop _ _ _ | COpenfd _ _ | CDelay _ _ => True
  | CKillTimer t p _ => (t, Kill p) ∈ timers w
  | CRestartTimer t p a => (t, Restart p) ∈ timers w /\ fork_ok w a
  | CExit c _ => children w !! c = Some None
  end.

(** What the manager is not prepared for: the ids run out, a condition
    variable cannot be created, there is no memory for the state of a
    callback, and a process is stopped again while its kill timer is armed,
    which loses the first timer. *)
Inductive fault (w : manager) : call -> Prop :=
  | IdsExhausted rq a : INT_MAX <= nextid w -> fault w (CStart rq a)
  | NoCondition rq a : sa_cond a = false -> fault w (CStart rq a)
  | NoCallbackMemory a env p : va_mem (env p) = false -> fault w (CMonitor a env)
  | StopTwice i kill_ok timer_ok p pr :
      p ∈ process_list w -> procs w !! p = Some pr -> id (cfg pr) = i -> force_kill_timer pr <> -1 ->
      fault w (CStop i kill_ok timer_ok).

Definition legal (w : manager) (c : call) : Prop := enabled w c /\ ~ fault w c.

Inductive step : manager -> manager -> Prop :=
  | step_call w c w' : legal w c -> exec w c = Some w' -> step w w'.

(** ** Invariant *)

(** A field of the listed processes, in the order of the list. *)
Definition flat {A} (f : avbox_process -> list A) (ps : gmap loc avbox_process) (l : list loc) : list A :=
  l ≫= fun p => match ps !! p with Some pr => f pr | None => [] end.

#[global] Arguments flat {A} f ps l : simpl never.

Definition pids (pr : avbox_process) : list Z := if pid pr =? -1 then [] else [pid pr].
Definition fds (pr : avbox_process) : list Z := filter (fun f => f <> -1) [stdin pr; stdout pr; stderr pr].

Record local (w : manager) (p : loc) (pr : avbox_process) : Prop := {
  l_pid : pid pr = -1 \/ 0 < pid pr;
  l_fds : pid pr = -1 -> stdin pr = -1 /\ stdout pr = -1 /\ stderr pr = -1;
  l_exitted : exitted pr = true -> pid pr = -1 /\ cbstate pr = None;
  l_cbstate : forall k, cbstate pr = Some k ->
    pid pr = -1 /\ exists r, workers w !! k = Some (p, r);
  l_delay : autorestart_delay (cfg pr) = 5;
}.

Definition timer_proc (e : timer) : loc := match e with Kill p | Restart p => p end.

Definition timer_fits (t : Z) (e : timer) (pr : avbox_process) : Prop :=
  match e with
  | Kill _ => force_kill_timer pr = t
  | Restart _ => pid pr = -1 /\ cbstate pr = None /\ exitted pr = false
  end.

(** [x] are the children that were reaped and whose record was not yet
    visited. *)
Record inv (w : manager) (x : list Z) : Prop := {
  i_list : NoDup (process_list w);
  i_local : forall p, p ∈ process_list w -> exists pr, procs w !! p = Some pr /\ local w p pr;
  i_ids : NoDup (flat (fun pr => [id (cfg pr)]) (procs w) (process_list w));
  i_nextid : forall i, i ∈ flat (fun pr => [id (cfg pr)]) (procs w) (process_list w) -> 1 <= i < nextid w;
  i_nextid_pos : 1 <= nextid w;
  i_pids : NoDup (flat pids (procs w) (process_list w));
  i_children : forall c, c ∈ flat pids (procs w) (process_list w) <-> c ∈ dom (children w) \/ c ∈ x;
  i_fds : NoDup (flat fds (procs w) (process_list w));
  i_open : forall f, f ∈ flat fds (procs w) (process_list w) <-> f ∈ open_fds w;
  i_timers : NoDup ((timers w).*1);
  i_timer : forall t e, (t, e) ∈ timers w -> 1 <= t < nexttimer w /\ timer_proc e ∈ process_list w /\
    exists pr, procs w !! timer_proc e = Some pr /\ timer_fits t e pr;
  i_nexttimer : 1 <= nexttimer w;
  i_restart : forall t t' p, (t, Restart p) ∈ timers w -> (t', Restart p) ∈ timers w -> t = t';
  i_workers : forall k p r, workers w !! k = Some (p, r) ->
    p ∈ process_list w /\ exists pr, procs w !! p = Some pr /\ cbstate pr = Some k;
}.

(** ** Lemmas on fields *)

Section flat.
  Context {A : Type} (f : avbox_process -> list A).

Lemma flat_app ps l k : flat f ps (l ++ k) = flat f ps l ++ flat f ps k.
Proof. apply bind_app. Qed.

Lemma flat_cons ps p pr l : ps !! p = Some pr -> flat f ps (p :: l) = f pr ++ flat f ps l.
Proof. intros E. unfold flat. simpl. by rewrite E. Qed.

Lemma flat_same ps ps' l : (forall p, p ∈ l -> ps' !! p = ps !! p) -> flat f ps' l = flat f ps l.
Proof.
  induction l as [|p l IH]; intros Hs; [done|]. unfold flat in *. simpl.
  rewrite Hs by set_solver. f_equal. apply IH. set_solver.
Qed.

Lemma flat_insert ps p pr l : p ∉ l -> flat f (<[p := pr]> ps) l = flat f ps l.
Proof. intros Hp. apply flat_same. intros q Hq. apply lookup_insert_ne. set_solver. Qed.

Lemma flat_mid ps l p k pr :
  NoDup (l ++ p :: k) -> ps !! p = Some pr ->
  flat f ps (l ++ p :: k) = flat f ps l ++ f pr ++ flat f ps k.
Proof. intros _ E. rewrite flat_app. by rewrite (flat_cons ps p pr k E). Qed.

Lemma flat_mid_insert ps l p k pr :
  NoDup (l ++ p :: k) ->
  flat f (<[p := pr]> ps) (l ++ p :: k) = flat f ps l ++ f pr ++ flat f ps k.
Proof.
  intros Hnd. apply NoDup_app in Hnd as (Hl & Hd & [Hk _]%NoDup_cons).
  rewrite flat_app, (flat_cons _ p pr) by apply lookup_insert_eq.
  rewrite !flat_insert; [done|done|]. intros Hp. apply (Hd p Hp). set_solver.
Qed.

Lemma elem_of_flat ps l x : x ∈ flat f ps l <-> exists p pr, p ∈ l /\ ps !! p = Some pr /\ x ∈ f pr.
Proof.
  unfold flat. rewrite list_elem_of_bind. split.
  - intros (p & Hx & Hp). destruct (ps !! p) as [pr|] eqn:E; [|set_solver]. by exists p, pr.
  - intros (p & pr & Hp & E & Hx). exists p. by rewrite E.
Qed.

End flat.

(** Replacing the middle of a list without repetitions. *)
Lemma NoDup_replace {A} (a b c b' : list A) :
  NoDup (a ++ b ++ c) -> NoDup b' -> (forall y, y ∈ b' -> y ∈ b \/ y ∉ a ++ b ++ c) -> NoDup (a ++ b' ++ c).
Proof.
  rewrite !NoDup_app. intros (Ha & Hab & Hb & Hbc & Hc) Hb' Hy. split_and!; try done.
  - intros y Hy' [Hin|Hin]%elem_of_app; [destruct (Hy y Hin)|]; set_solver.
  - intros y Hy'. destruct (Hy y Hy'); set_solver.
Qed.

(** ** Changes of one record *)

(** The record of [p] changes, with its child, its descriptors, its timers
    and its worker; everything that belongs to other records stays. *)
Record changed (w w' : manager) (x x' : list Z) (p : loc) (pr pr' : avbox_process) : Prop := {
  c_list : process_list w' = process_list w;
  c_procs : procs w' = <[p := pr']> (procs w);
  c_nextid : nextid w' = nextid w;
  c_cfg : cfg pr' = cfg pr;
  c_local : local w' p pr';
  c_pids : forall c, c ∈ pids pr' -> c ∈ pids pr \/ (c ∉ dom (children w) /\ c ∉ x);
  c_children : forall c, c ∈ dom (children w') \/ c ∈ x' <->
    c ∈ pids pr' \/ (c ∉ pids pr /\ (c ∈ dom (children w) \/ c ∈ x));
  c_fds : forall f, f ∈ fds pr' -> f ∈ fds pr \/ f ∉ open_fds w;
  c_nodup : NoDup (fds pr');
  c_open : forall f, f ∈ open_fds w' <-> f ∈ fds pr' \/ (f ∉ fds pr /\ f ∈ open_fds w);
  c_timers : NoDup ((timers w').*1);
  c_timer : forall t e, (t, e) ∈ timers w' ->
    ((t, e) ∈ timers w /\ timer_proc e <> p) \/
    (1 <= t < nexttimer w' /\ timer_proc e = p /\ timer_fits t e pr');
  c_nexttimer : nexttimer w <= nexttimer w';
  c_restart : forall t t', (t, Restart p) ∈ timers w' -> (t', Restart p) ∈ timers w' -> t = t';
  c_workers : forall k q r, workers w' !! k = Some (q, r) ->
    (q = p /\ cbstate pr' = Some k) \/ (q <> p /\ workers w !! k = Some (q, r));
  c_keep : forall k q r, q <> p -> workers w !! k = Some (q, r) -> workers w' !! k = Some (q, r);
}.

Lemma local_workers w w' p pr :
  (forall k r, workers w !! k = Some (p, r) -> exists r', workers w' !! k = Some (p, r')) ->
  local w p pr -> local w' p pr.
Proof.
  intros Hk [H1 H2 H3 H4 H5]. split; try done. intros k Hc. destruct (H4 k Hc) as (? & r & Hr).
  split; [done|]. by apply Hk in Hr.
Qed.

Lemma pids_nodup pr : NoDup (pids pr).
Proof. unfold pids. case_match; [constructor|apply NoDup_singleton]. Qed.

Lemma inv_changed w w' x x' p pr pr' :
  inv w x -> p ∈ process_list w -> procs w !! p = Some pr ->
  changed w w' x x' p pr pr' -> inv w' x'.
Proof.
  intros [] Hp Epr [].
  pose proof i_list0 as Hnd. apply list_elem_of_split in Hp as (l & k & El).
  rewrite El in Hnd, i_ids0, i_nextid0, i_pids0, i_children0, i_fds0, i_open0.
  rewrite (flat_mid (fun pr => [id (cfg pr)]) _ _ _ _ _ Hnd Epr) in i_ids0, i_nextid0.
  rewrite (flat_mid pids _ _ _ _ _ Hnd Epr) in i_pids0, i_children0.
  rewrite (flat_mid fds _ _ _ _ _ Hnd Epr) in i_fds0, i_open0.
  split; rewrite ?c_list0, ?c_procs0, ?c_nextid0, ?El, ?(flat_mid_insert _ _ _ _ _ pr' Hnd), ?c_cfg0; try done.
  - intros q Hq. destruct (decide (q = p)) as [->|Hne].
    + exists pr'. by rewrite lookup_insert_eq.
    + rewrite lookup_insert_ne by done. destruct (i_local0 q) as (qr & Eq & Hl); [by rewrite El|].
      exists qr. split; [done|]. apply (local_workers w); [|done]. eauto.
  - apply (NoDup_replace _ (pids pr)); [done|apply pids_nodup|]. intros c Hc.
    destruct (c_pids0 c Hc) as [|[]]; [by left|]. right. rewrite i_children0. naive_solver.
  - intros c. rewrite c_children0. rewrite <- i_children0. rewrite !elem_of_app. split; [|naive_solver].
    intros [Hc|[Hc|Hc]]; [|by left|]; right; (split; [|naive_solver]).
    + apply NoDup_app in i_pids0 as (_ & Hd & _). specialize (Hd c Hc). set_solver.
    + apply NoDup_app in i_pids0 as (_ & _ & (_ & Hd & _)%NoDup_app). intros Hc'. by apply (Hd c Hc').
  - apply (NoDup_replace _ (fds pr)); [done|done|]. intros f Hf.
    destruct (c_fds0 f Hf); [by left|]. right. by rewrite i_open0.
  - intros f. rewrite c_open0. rewrite <- i_open0. rewrite !elem_of_app. split; [|naive_solver].
    intros [Hc|[Hc|Hc]]; [|by left|]; right; (split; [|naive_solver]).
    + apply NoDup_app in i_fds0 as (_ & Hd & _). specialize (Hd f Hc). set_solver.
    + apply NoDup_app in i_fds0 as (_ & _ & (_ & Hd & _)%NoDup_app). intros Hc'. by apply (Hd f Hc').
  - intros t e Ht. destruct (c_timer0 t e Ht) as [[Ht' Hne]|(Hb & -> & Hf)].
    + destruct (i_timer0 t e Ht') as (? & Hin & qr & Eq & Hf). rewrite El in Hin.
      split; [lia|]. split; [done|]. exists qr. by rewrite lookup_insert_ne.
    + split; [done|]. split; [set_solver|]. exists pr'. by rewrite lookup_insert_eq.
  - lia.
  - intros t t' q Ht Ht'. destruct (decide (q = p)) as [->|Hne]; [by eapply c_restart0|].
    destruct (c_timer0 _ _ Ht) as [[? _]|(_ & ? & _)]; [|done].
    destruct (c_timer0 _ _ Ht') as [[? _]|(_ & ? & _)]; [|done]. by eapply i_restart0.
  - intros k' q r Hk. destruct (c_workers0 k' q r Hk) as [[-> Hc]|[Hne Hk']].
    + split; [set_solver|]. exists pr'. by rewrite lookup_insert_eq.
    + destruct (i_workers0 k' q r Hk') as (Hin & qr & Eq & Hc). rewrite El in Hin. split; [done|].
      exists qr. by rewrite lookup_insert_ne.
Qed.

Lemma local_procs w w' (l : list loc) :
  workers w' = workers w ->
  (forall p, p ∈ l -> exists pr, procs w !! p = Some pr /\ local w p pr) ->
  forall p, p ∈ l -> exists pr, procs w !! p = Some pr /\ local w' p pr.
Proof.
  intros Ew Hl p Hp. destruct (Hl p Hp) as (pr & E & H). exists pr. split; [done|].
  apply (local_workers w); [|done]. rewrite Ew. eauto.
Qed.

(** A timer is dropped. *)
Lemma inv_cancel w x t : inv w x -> inv (cancel_timer w t) x.
Proof.
  intros []. split; try done; simpl.
  - by apply (local_procs w).
  - eapply sublist_NoDup; [exact i_timers0|]. apply fmap_sublist, sublist_filter.
  - intros t' e [_ He]%list_elem_of_filter. by apply i_timer0.
  - intros t1 t2 p [_ H1]%list_elem_of_filter [_ H2]%list_elem_of_filter. by eapply i_restart0.
Qed.

(** A record that owns nothing leaves the list. *)
Lemma inv_unlist w x p pr :
  inv w x -> p ∈ process_list w -> procs w !! p = Some pr -> pid pr = -1 -> cbstate pr = None ->
  (forall t e, (t, e) ∈ timers w -> timer_proc e <> p) -> inv (unlist w p) x.
Proof.
  intros [] Hp Epr Hpid Hcb Ht.
  destruct (i_local0 p Hp) as (? & E & [_ Hfds _ _ _]). simplify_eq. destruct (Hfds Hpid) as (F1 & F2 & F3).
  pose proof i_list0 as Hnd. apply list_elem_of_split in Hp as (l & k & El). rewrite El in Hnd.
  assert (filter (fun q => q <> p) (process_list w) = l ++ k) as Ef.
  { rewrite El. apply NoDup_remove_mid in Hnd as [_ Hn].
    rewrite filter_app, filter_cons_False by (intros H; by apply H). rewrite !filter_all; [done|set_solver..]. }
  assert (pids pr = []) as Ep by (unfold pids; by rewrite Hpid).
  assert (fds pr = []) as Ed by (unfold fds; by rewrite F1, F2, F3).
  assert (forall q, q ∈ process_list w -> q <> p -> q ∈ l ++ k) as Hin by (rewrite El; set_solver).
  rewrite El in i_ids0, i_nextid0, i_pids0, i_children0, i_fds0, i_open0.
  rewrite (flat_mid (fun pr => [id (cfg pr)]) _ _ _ _ _ Hnd Epr) in i_ids0, i_nextid0.
  rewrite (flat_mid pids _ _ _ _ _ Hnd Epr), Ep in i_pids0, i_children0.
  rewrite (flat_mid fds _ _ _ _ _ Hnd Epr), Ed in i_fds0, i_open0.
  split; simpl; rewrite ?Ef, ?flat_app; try done.
  - by apply NoDup_remove_mid in Hnd as [? _].
  - intros q Hq. apply (local_procs w _ (process_list w)); [done..|]. rewrite El. set_solver.
  - apply (NoDup_replace _ _ _ [] i_ids0); [constructor|set_solver].
  - intros i Hi. apply i_nextid0. set_solver.
  - intros t e He. destruct (i_timer0 t e He) as (? & ? & ?). split; [done|]. split; [|done].
    apply Hin; [done|]. by eapply Ht.
  - intros k' q r Hk. destruct (i_workers0 k' q r Hk) as (? & qr & Eq & Hc). split; [|by exists qr].
    apply Hin; [done|]. intros ->. simplify_eq.
Qed.

(** A record that is not on the list is freed. *)
Lemma inv_delete w x p : p ∉ process_list w -> inv w x -> inv (with_procs w (delete p (procs w))) x.
Proof.
  intros Hp []. assert (forall q, q ∈ process_list w -> delete p (procs w) !! q = procs w !! q) as Hs.
  { intros q Hq. apply lookup_delete_ne. set_solver. }
  split; simpl; rewrite ?(flat_same _ (procs w) _ _ Hs); try done.
  - intros q Hq. rewrite Hs by done. by apply (local_procs w _ (process_list w)).
  - intros t e He. destruct (i_timer0 t e He) as (? & Hq & ?). by rewrite Hs.
  - intros k q r Hk. destruct (i_workers0 k q r Hk) as (Hq & ?). by rewrite Hs.
Qed.

(** A new record, without a child, is put on the list. *)
Lemma inv_add w x p i rq argv :
  inv w x -> p ∉ dom (procs w) -> i = nextid w ->
  inv (with_list (update (with_nextid w (nextid w + 1)) p (new_process i rq argv)) (p :: process_list w)) x.
Proof.
  intros [] Hp ->.
  assert (p ∉ process_list w) as Hn.
  { intros Hin. destruct (i_local0 p Hin) as (pr & E & _). apply elem_of_dom_2 in E. done. }
  assert (forall q, q ∈ process_list w -> q <> p) as Hne by set_solver.
  split; simpl; rewrite ?(flat_cons _ _ p _ _ (lookup_insert_eq _ _ _)), ?flat_insert by done; try done.
  - by apply NoDup_cons.
  - intros q [->|Hq]%elem_of_cons.
    + eexists. rewrite lookup_insert_eq. split; [done|]. by split; simpl; auto.
    + rewrite lookup_insert_ne by (apply not_eq_sym, Hne, Hq).
      destruct (i_local0 q Hq) as (qr & E & Hl). exists qr. split; [done|]. by apply (local_workers w); eauto.
  - simpl. apply NoDup_cons. split; [|done]. intros Hi%i_nextid0. lia.
  - intros j Hj. simpl in Hj. apply elem_of_cons in Hj as [->|Hj]; [lia|]. apply i_nextid0 in Hj. lia.
  - lia.
  - intros t e He. destruct (i_timer0 t e He) as (? & Hq & ?). split; [done|]. split; [set_solver|].
    rewrite lookup_insert_ne; [done|]. by apply not_eq_sym, Hne.
  - intros k q r Hk. destruct (i_workers0 k q r Hk) as (Hq & ?). split; [set_solver|].
    rewrite lookup_insert_ne; [done|]. by apply not_eq_sym, Hne.
Qed.

(** ** Descriptors and fork *)

Definition real (fs : list Z) : list Z := filter (fun f => f <> -1) fs.

Lemma close_all_spec w fs :
  NoDup (real fs) -> (forall f, f ∈ real fs -> f ∈ open_fds w) ->
  close_all w fs = Some (with_fds w (open_fds w ∖ list_to_set (real fs))).
Proof.
  revert w. induction fs as [|f fs IH]; intros w Hnd Ho; cbn [close_all].
  { f_equal. destruct w; unfold with_fds; simpl. f_equal. set_solver. }
  unfold close_if, real in *. rewrite filter_cons in *. destruct (f =? -1) eqn:E; zify_bool.
  - subst f. rewrite decide_False in * by (intros H; by apply H). apply IH; done.
  - rewrite decide_True in * by done. apply NoDup_cons in Hnd as [Hf Hnd].
    unfold close_fd. rewrite bool_decide_true by set_solver. cbn [mbind option_bind].
    rewrite IH; [|done|set_solver]. destruct w; unfold with_fds; simpl. do 2 f_equal. set_solver.
Qed.

(** Everything but the records, the children and the descriptors stays. *)
Definition same_rest (w w' : manager) : Prop :=
  process_list w' = process_list w /\ nextid w' = nextid w /\ timers w' = timers w /\
  nexttimer w' = nexttimer w /\ workers w' = workers w.

(** A failed fork changes nothing; otherwise the record gets the new child
    and exactly the descriptors that stay open. *)
Definition forked (w w' : manager) (p : loc) (pr : avbox_process) (c : Z) : Prop :=
  same_rest w w' /\
  ((c = -1 /\ procs w' = <[p := pr]> (procs w) /\ children w' = children w /\ open_fds w' = open_fds w) \/
   (exists i o e, 0 < c /\ c ∉ dom (children w) /\ children w' = <[c := None]> (children w) /\
      procs w' = <[p := set_child pr c i o e]> (procs w) /\
      NoDup (real [i; o; e]) /\ (forall f, f ∈ real [i; o; e] -> f ∉ open_fds w) /\
      open_fds w' = list_to_set (real [i; o; e]) ∪ open_fds w)).

Definition ends (piped : bool) (a : Z * Z) : Z * Z := (if piped then a.1 else -1, a.2).

Lemma open_stream_Some w piped a :
  a.1 <> -1 -> a.2 <> -1 ->
  open_stream w piped (Some a) =
    (Some (ends piped a), with_fds w (list_to_set (real [(ends piped a).1; (ends piped a).2]) ∪ open_fds w)).
Proof.
  destruct a as [r v]. simpl. intros Hr Hv. unfold open_stream, open_fd, ends, real. simpl. destruct piped.
  - rewrite !filter_cons_True by done. destruct w; unfold with_fds; simpl. do 2 f_equal. set_solver.
  - rewrite filter_cons_False, filter_cons_True by (done || (intros H; by apply H)).
    destruct w; unfold with_fds; simpl. do 2 f_equal. set_solver.
Qed.

Lemma fork_failed_spec w i o e F :
  NoDup (real [i.1; i.2; o.1; o.2; e.1; e.2]) ->
  (forall f, f ∈ real [i.1; i.2; o.1; o.2; e.1; e.2] -> f ∉ F) ->
  open_fds w = list_to_set (real [i.1; i.2; o.1; o.2; e.1; e.2]) ∪ F ->
  fork_failed w i o e = Some (-1, with_fds w F).
Proof.
  intros Hnd Hf Ho. unfold fork_failed. rewrite close_all_spec; [|done|set_solver].
  cbn [mbind option_bind]. do 2 f_equal. destruct w; unfold with_fds; simpl in *. f_equal. set_solver.
Qed.

(** The descriptors of a stream are among those the kernel gave. *)
Lemma ends_sublist piped a : real [(ends piped a).1; (ends piped a).2] `sublist_of` [a.1; a.2].
Proof.
  destruct piped; simpl; [apply sublist_filter|]. unfold real.
  rewrite filter_cons_False by (intros H; by apply H). apply sublist_cons, sublist_filter.
Qed.

Lemma real_app l k : real (l ++ k) = real l ++ real k.
Proof. apply filter_app. Qed.

Lemma real_not f : f <> -1 -> real [f] = [f].
Proof. intros. unfold real. by rewrite filter_cons_True. Qed.

(** Descriptors opened for three streams: [ro], [re] and [ri] are those of
    the streams, closed again when a later call fails. *)
Lemma fork_failed_forked w p pr w1 i o e :
  procs w !! p = Some pr -> pid pr = -1 ->
  same_rest w w1 -> (exists pr1, procs w1 = <[p := pr1]> (procs w) /\ set_pid pr1 (-1) = pr) ->
  children w1 = children w ->
  NoDup (real [o.1; o.2] ++ real [e.1; e.2] ++ real [i.1; i.2]) ->
  (forall f, f ∈ real [o.1; o.2] ++ real [e.1; e.2] ++ real [i.1; i.2] -> f ∉ open_fds w) ->
  open_fds w1 = list_to_set (real [i.1; i.2]) ∪ (list_to_set (real [e.1; e.2]) ∪
    (list_to_set (real [o.1; o.2]) ∪ open_fds w)) ->
  exists c w', ('(c, w2) ← fork_failed w1 i o e; pr2 ← procs w2 !! p; Some (c, update w2 p (set_pid pr2 c)))
    = Some (c, w') /\ forked w w' p pr c.
Proof.
  intros Epr Hpid Hs (pr1 & Ep1 & Es) Hc Hnd Hf Ho.
  assert (real [i.1; i.2; o.1; o.2; e.1; e.2] = real [i.1; i.2] ++ real [o.1; o.2] ++ real [e.1; e.2]) as Er
    by (by rewrite <- !real_app).
  rewrite (fork_failed_spec w1 i o e (open_fds w)); rewrite ?Er.
  - cbn [mbind option_bind]. simpl. rewrite Ep1, lookup_insert_eq. cbn [mbind option_bind].
    do 2 eexists. split; [done|]. split; [done|]. left. simpl. by rewrite Ep1, insert_insert_eq, Es.
  - revert Hnd. by rewrite (assoc_L (++)), (comm (++) _ (real [i.1; i.2])).
  - intros f Hin. apply Hf. set_solver.
  - rewrite Ho, !list_to_set_app_L. set_solver.
Qed.

Lemma set_pid_id pr : pid pr = -1 -> set_pid pr (-1) = pr.
Proof. destruct pr; simpl. by intros ->. Qed.

(** The parent after a successful fork: its ends of the pipes are open. *)
Lemma fork_close w i1 i2 o1 o2 e1 e2 F :
  NoDup (real [o1; o2] ++ real [e1; e2] ++ [i1; i2]) -> i1 <> -1 -> i2 <> -1 -> o2 <> -1 -> e2 <> -1 ->
  (forall f, f ∈ real [o1; o2] ++ real [e1; e2] ++ [i1; i2] -> f ∉ F) ->
  open_fds w = list_to_set [i1; i2] ∪ (list_to_set (real [e1; e2]) ∪ (list_to_set (real [o1; o2]) ∪ F)) ->
  (w ← close_fd w i1; w ← close_if w o2; close_if w e2) =
    Some (with_fds w (list_to_set (real [i2; o1; e1]) ∪ F)) /\
  NoDup (real [i2; o1; e1]) /\ (forall f, f ∈ real [i2; o1; e1] -> f ∉ F).
Proof.
  intros Hnd Hi1 Hi2 Ho2 He2 Hf Ho.
  change [o1; o2] with ([o1] ++ [o2]) in *. change [e1; e2] with ([e1] ++ [e2]) in *.
  change [i2; o1; e1] with ([i2] ++ [o1] ++ [e1]).
  rewrite !real_app, (real_not o2), (real_not e2), (real_not i2) in * by done.
  assert (forall f, f ∈ [o2; e2; i1; i2] -> f ∉ F) as HF by (intros f Hin; apply Hf; set_solver).
  assert (forall f, f ∈ real [o1] ++ real [e1] -> f ∉ F) as HF' by (intros f Hin; apply Hf; set_solver).
  revert Hnd Ho HF'. generalize (real [o1]) (real [e1]). intros X Y Hnd Ho HF'. clear Hf.
  rewrite <- !app_assoc in Hnd. cbn [app] in Hnd.
  apply NoDup_app in Hnd as (NX & DX & (Do & (NY & DY & (De & (Di & _)%NoDup_cons)%NoDup_cons)%NoDup_app)%NoDup_cons).
  assert (o2 <> i1 /\ e2 <> i1 /\ e2 <> o2 /\ i2 <> i1 /\ i2 <> o2 /\ i2 <> e2) as Hne by (clear - Do De Di; set_solver).
  assert (forall f, f ∈ X -> f <> i1 /\ f <> i2 /\ f <> o2 /\ f <> e2 /\ f ∉ Y) as HX.
  { intros f Hin. specialize (DX f Hin). clear - DX. set_solver. }
  assert (forall f, f ∈ Y -> f <> i1 /\ f <> i2 /\ f <> o2 /\ f <> e2) as HY.
  { intros f Hin. specialize (DY f Hin). assert (f <> o2) by (clear - Do Hin; set_solver). clear - DY H. set_solver. }
  clear DX DY Do De Di.
  destruct Hne as (N1 & N2 & N3 & N4 & N5 & N6). split_and!.
  - unfold close_if. rewrite (proj2 (Z.eqb_neq o2 (-1))), (proj2 (Z.eqb_neq e2 (-1))) by done.
    unfold close_fd. simpl. rewrite Ho.
    rewrite bool_decide_true by (clear; set_solver). cbn [mbind option_bind]. simpl.
    rewrite bool_decide_true by (clear - N1; set_solver). cbn [mbind option_bind]. simpl.
    rewrite bool_decide_true by (clear - N2 N3; set_solver). apply (f_equal Some).
    unfold with_fds; simpl. apply (f_equal (with_fds w)). clear Ho. apply set_eq. intros f.
    pose proof (HX f) as HXf. pose proof (HY f) as HYf.
    assert (f ∈ F -> f <> i1 /\ f <> o2 /\ f <> e2) as HFf by (clear - HF; set_solver).
    clear - N4 N5 N6 HXf HYf HFf. set_unfold. 
    destruct (decide (f = i2)); naive_solver.
  - rewrite !NoDup_app. split_and!; try done; [apply NoDup_singleton| |].
    + clear - HX HY. set_solver.
    + clear - HX. set_solver.
  - clear - HF HF'. set_solver.
Qed.

Lemma NoDup_sublists (a b c a' b' c' : list Z) :
  a' `sublist_of` a -> b' `sublist_of` b -> c' `sublist_of` c ->
  NoDup (a ++ b ++ c) -> NoDup (a' ++ b' ++ c').
Proof. intros Ha Hb Hc Hnd. eapply sublist_NoDup; [exact Hnd|]. by repeat apply sublist_app. Qed.

Lemma sublists_fresh (a b c a' b' c' : list Z) (F : gset Z) :
  a' `sublist_of` a -> b' `sublist_of` b -> c' `sublist_of` c ->
  (forall f, f ∈ a ++ b ++ c -> f <> -1 /\ f ∉ F) -> forall f, f ∈ a' ++ b' ++ c' -> f ∉ F.
Proof.
  intros Ha Hb Hc Hf f Hin. apply Hf.
  assert (a' ++ b' ++ c' `sublist_of` a ++ b ++ c) as Hs by (by repeat apply sublist_app).
  by eapply elem_of_submseteq, sublist_submseteq.
Qed.

Definition opt_fds (o : option (Z * Z)) : list Z := match o with Some a => [a.1; a.2] | None => [] end.

Lemma answer_fds_app a : answer_fds a = opt_fds (ans_out a) ++ opt_fds (ans_err a) ++ opt_fds (ans_in a).
Proof. destruct a as [[[]|] [[]|] [[]|] ?]; reflexivity. Qed.

(** A stream that was opened, or was not. *)
Lemma stream_sublist (s : option (bool * (Z * Z))) (o : option (Z * Z)) :
  match s with Some (b, a) => o = Some a | None => True end ->
  let e := match s with Some (b, a) => ends b a | None => (-1, -1) end in
  real [e.1; e.2] `sublist_of` opt_fds o.
Proof.
  destruct s as [[b a]|]; intros Ho; simpl in *.
  - subst o. apply ends_sublist.
  - apply sublist_nil_l.
Qed.

Lemma fork_into_spec w p pr a :
  procs w !! p = Some pr -> pid pr = -1 -> fork_ok w a ->
  exists c w', fork_into w p a = Some (c, w') /\ forked w w' p pr c.
Proof.
  intros Epr Hpid (Hnd & Hf & Hc). rewrite answer_fds_app in Hnd, Hf. pose proof (set_pid_id pr Hpid) as Es.
  assert (exists pr1, procs w = <[p := pr1]> (procs w) /\ set_pid pr1 (-1) = pr) as Hid.
  { exists pr. by rewrite insert_id. }
  unfold fork_into, avbox_process_fork. rewrite Epr. cbn [mbind option_bind].
  generalize (has (flags (cfg pr)) AVBOX_PROCESS_STDOUT) (has (flags (cfg pr)) AVBOX_PROCESS_STDERR).
  intros po pe. pose proof (stream_sublist None) as Sn. cbn zeta in Sn.
  destruct a as [out er inn c]; cbn [ans_out ans_err ans_in ans_pid] in *.
  pose proof (NoDup_sublists (opt_fds out) (opt_fds er) (opt_fds inn)) as ND.
  pose proof (sublists_fresh (opt_fds out) (opt_fds er) (opt_fds inn)) as NF.
  destruct out as [o|].
  2:{ cbn [open_stream]. apply fork_failed_forked; try done.
      - eapply ND; [by apply Sn..|done].
      - eapply NF; [by apply Sn..|done].
      - clear; set_solver. }
  destruct (Hf o.1) as [Ho1 _]; [set_solver|]. destruct (Hf o.2) as [Ho2 _]; [set_solver|].
  rewrite open_stream_Some by done. pose proof (stream_sublist (Some (po, o)) (Some o) eq_refl) as So.
  destruct er as [e|].
  2:{ cbn [open_stream]. apply fork_failed_forked; try done.
      - eapply ND; [apply So|by apply Sn..|done].
      - eapply NF; [apply So|by apply Sn..|done].
      - clear; set_solver. }
  destruct (Hf e.1) as [He1 _]; [set_solver|]. destruct (Hf e.2) as [He2 _]; [set_solver|].
  rewrite open_stream_Some by done. pose proof (stream_sublist (Some (pe, e)) (Some e) eq_refl) as Se.
  destruct inn as [i|].
  2:{ cbn [open_stream]. apply fork_failed_forked; try done.
      - eapply ND; [apply So|apply Se|by apply Sn|done].
      - eapply NF; [apply So|apply Se|by apply Sn|done].
      - clear; set_solver. }
  destruct (Hf i.1) as [Hi1 _]; [set_solver|]. destruct (Hf i.2) as [Hi2 _]; [set_solver|].
  rewrite open_stream_Some by done. pose proof (stream_sublist (Some (true, i)) (Some i) eq_refl) as Si.
  specialize (ND _ _ _ So Se Si Hnd). specialize (NF _ _ _ _ So Se Si Hf).
  destruct Hc as [->|[Hc Hcn]].
  { apply fork_failed_forked; try done. by exists (set_pid pr (-1)); rewrite !Es. }
  rewrite (proj2 (Z.eqb_neq c (-1))) by lia.
  assert (real [(ends true i).1; (ends true i).2] = [i.1; i.2]) as Ei.
  { change [(ends true i).1; (ends true i).2] with ([i.1] ++ [i.2]). by rewrite real_app, !real_not by done. }
  cbn [fst snd] in ND, NF. rewrite Ei in *.
  set (w2 := with_children _ _).
  destruct (fork_close w2 i.1 i.2 (ends po o).1 o.2 (ends pe e).1 e.2 (open_fds w)) as (Ec & Nd & Fr); [done..|].
  change (ends true i).1 with i.1. change (ends po o).2 with o.2. change (ends pe e).2 with e.2.
  destruct (close_fd w2 i.1) as [w3|]; [|done]. cbn [mbind option_bind] in Ec |- *.
  destruct (close_if w3 o.2) as [w4|]; [|done]. cbn [mbind option_bind] in Ec |- *. rewrite Ec.
  cbn [mbind option_bind]. simpl. rewrite !lookup_insert_eq. cbn [mbind option_bind].
  do 2 eexists. split; [done|]. split; [done|]. right. exists i.2, (ends po o).1, (ends pe e).1.
  split_and!; try done. simpl. by rewrite !insert_insert_eq.
Qed.

(** ** Operations keep the invariant *)

Lemma timer_of w x p pr t e :
  inv w x -> procs w !! p = Some pr -> (t, e) ∈ timers w -> timer_proc e = p ->
  1 <= t < nexttimer w /\ timer_fits t e pr.
Proof.
  intros [] Epr Ht <-. destruct (i_timer0 t e Ht) as (? & _ & qr & E & ?). simplify_eq. done.
Qed.

Lemma worker_of w x p pr k r :
  inv w x -> procs w !! p = Some pr -> workers w !! k = Some (p, r) -> cbstate pr = Some k.
Proof. intros [] Epr Hk. destruct (i_workers0 k p r Hk) as (_ & qr & E & ?). by simplify_eq. Qed.

Lemma local_of w x p pr : inv w x -> p ∈ process_list w -> procs w !! p = Some pr -> local w p pr.
Proof. intros [] Hp E. destruct (i_local0 p Hp) as (? & ? & ?). by simplify_eq. Qed.

(** The record, its child and its descriptors change. *)
Lemma inv_record w w' x x' p pr pr' :
  inv w x -> p ∈ process_list w -> procs w !! p = Some pr -> same_rest w w' ->
  procs w' = <[p := pr']> (procs w) -> cfg pr' = cfg pr -> cbstate pr' = cbstate pr ->
  local w' p pr' ->
  (forall t e, (t, e) ∈ timers w -> timer_proc e = p -> timer_fits t e pr -> timer_fits t e pr') ->
  (forall c, c ∈ pids pr' -> c ∈ pids pr \/ (c ∉ dom (children w) /\ c ∉ x)) ->
  (forall c, c ∈ dom (children w') \/ c ∈ x' <-> c ∈ pids pr' \/ (c ∉ pids pr /\ (c ∈ dom (children w) \/ c ∈ x))) ->
  (forall f, f ∈ fds pr' -> f ∈ fds pr \/ f ∉ open_fds w) -> NoDup (fds pr') ->
  (forall f, f ∈ open_fds w' <-> f ∈ fds pr' \/ (f ∉ fds pr /\ f ∈ open_fds w)) ->
  inv w' x'.
Proof.
  intros Hi Hp Epr (El & En & Et & Ent & Ew) Eps Ecf Ecb Hl Hfit Hpid Hch Hfd Hnd Hop.
  apply (inv_changed w w' x x' p pr pr'); [done..|]. split; try done; rewrite ?Et, ?Ent, ?Ew; try done.
  - by apply Hi.
  - intros t e He. destruct (decide (timer_proc e = p)) as [Ee|]; [|by left]. right.
    destruct (timer_of w x p pr t e Hi Epr He Ee) as [Hb Hf]. split; [done|]. split; [done|]. by apply Hfit.
  - intros t t'. by apply Hi.
  - intros k q r Hk. destruct (decide (q = p)) as [->|]; [|by right]. left.
    rewrite Ecb. by rewrite (worker_of w x p pr k r).
Qed.

(** The child and the descriptors of a listed record belong to it. *)
Lemma pid_of w x p pr c : inv w x -> p ∈ process_list w -> procs w !! p = Some pr -> c ∈ pids pr ->
  c ∈ dom (children w) \/ c ∈ x.
Proof. intros Hi Hp E Hc. apply (i_children _ _ Hi). apply elem_of_flat. by exists p, pr. Qed.

Lemma fd_of w x p pr f : inv w x -> p ∈ process_list w -> procs w !! p = Some pr -> f ∈ fds pr ->
  f ∈ open_fds w.
Proof. intros Hi Hp E Hc. apply (i_open _ _ Hi). apply elem_of_flat. by exists p, pr. Qed.

Lemma fds_nodup w x p pr : inv w x -> p ∈ process_list w -> procs w !! p = Some pr -> NoDup (fds pr).
Proof.
  intros Hi Hp E. pose proof (i_fds _ _ Hi) as Hnd. pose proof (i_list _ _ Hi) as Hl.
  apply list_elem_of_split in Hp as (l & k & El). rewrite El in Hnd, Hl.
  rewrite (flat_mid fds _ _ _ _ _ Hl E) in Hnd. by apply NoDup_app in Hnd as (_ & _ & (? & _)%NoDup_app).
Qed.

(** Only the record changes; child and descriptors stay. *)
Lemma inv_field w w' x p pr pr' :
  inv w x -> p ∈ process_list w -> procs w !! p = Some pr -> same_rest w w' ->
  procs w' = <[p := pr']> (procs w) -> children w' = children w -> open_fds w' = open_fds w ->
  cfg pr' = cfg pr -> cbstate pr' = cbstate pr -> pid pr' = pid pr -> fds pr' = fds pr ->
  local w' p pr' ->
  (forall t e, (t, e) ∈ timers w -> timer_proc e = p -> timer_fits t e pr -> timer_fits t e pr') ->
  inv w' x.
Proof.
  intros Hi Hp Epr Hq Eps Ec Eo Ecf Ecb Epid Efd Hl Hfit.
  assert (pids pr' = pids pr) as Epd by (unfold pids; by rewrite Epid).
  apply (inv_record w w' x x p pr pr'); try done; rewrite ?Epd, ?Efd, ?Ec, ?Eo; try (by left).
  - intros c. pose proof (pid_of w x p pr c Hi Hp Epr). destruct (decide (c ∈ pids pr)); naive_solver.
  - by apply (fds_nodup w x p).
  - intros f. pose proof (fd_of w x p pr f Hi Hp Epr). destruct (decide (f ∈ fds pr)); naive_solver.
Qed.

(** The record of a process that has no child. *)
Record idle (w : manager) (p : loc) (pr : avbox_process) : Prop := {
  d_listed : p ∈ process_list w;
  d_proc : procs w !! p = Some pr;
  d_pid : pid pr = -1;
  d_cb : cbstate pr = None;
  d_run : exitted pr = false;
  d_restart : forall t, (t, Restart p) ∉ timers w;
}.

Lemma fds_none w x p pr : inv w x -> p ∈ process_list w -> procs w !! p = Some pr -> pid pr = -1 -> fds pr = [].
Proof.
  intros Hi Hp E Hpid. destruct (local_of w x p pr Hi Hp E) as [_ Hf _ _ _].
  destruct (Hf Hpid) as (F1 & F2 & F3). unfold fds. by rewrite F1, F2, F3.
Qed.

(** A process without a child is forked. *)
Lemma forked_inv w w' x p pr c :
  inv w x -> idle w p pr -> x = [] -> forked w w' p pr c -> inv w' x.
Proof.
  intros Hi [Hp Epr Hpid Hcb Hex Hre] -> [Hs Hc].
  pose proof (local_of w [] p pr Hi Hp Epr) as [L1 L2 L3 L4 L5].
  destruct Hc as [(-> & Eps & Ec & Eo)|(i & o & e & Hc & Hcn & Ec & Eps & Hnd & Hfr & Eo)].
  - apply (inv_field w w' [] p pr pr); try done. apply (local_workers w); [|by apply (local_of w [])].
    destruct Hs as (_ & _ & _ & _ & ->). eauto.
  - assert (pids pr = []) as Ep by (unfold pids; by rewrite Hpid).
    assert (pids (set_child pr c i o e) = [c]) as Ep' by (unfold pids; simpl; by rewrite (proj2 (Z.eqb_neq c (-1))) by lia).
    assert (fds (set_child pr c i o e) = real [i; o; e]) as Ef' by done.
    assert (fds pr = []) as Ef by (by apply (fds_none w [] p)).
    apply (inv_record w w' [] [] p pr (set_child pr c i o e)); try done; rewrite ?Ep, ?Ep', ?Ef, ?Ef', ?Ec, ?Eo; try done.
    + split; simpl; try done; [by right|lia|by rewrite Hex|by rewrite Hcb].
    + intros t [q|q] He Hq Hfit; simpl in *; [done|]. subst q. by destruct (Hre t).
    + intros c' ->%list_elem_of_singleton. right. split; [done|set_solver].
    + intros c'. rewrite dom_insert_L. set_solver.
    + intros f Hf. right. by apply Hfr.
    + intros f. set_solver.
Qed.

(** [avbox_process_free] after the record left the list. *)
Lemma free_inv w x p pr :
  inv w x -> p ∈ process_list w -> procs w !! p = Some pr -> pid pr = -1 -> cbstate pr = None ->
  (forall t, (t, Restart p) ∉ timers w) ->
  exists w', avbox_process_free (unlist w p) p = Some w' /\ inv w' x /\
    process_list w' = filter (fun q => q <> p) (process_list w) /\ procs w' = delete p (procs w) /\
    children w' = children w /\ workers w' = workers w.
Proof.
  intros Hi Hp Epr Hpid Hcb Hre. unfold avbox_process_free. simpl. rewrite Epr. cbn [mbind option_bind].
  eexists. split; [done|]. destruct (force_kill_timer pr =? -1) eqn:Et; zify_bool.
  - split; [|done]. apply (inv_delete (unlist w p)); [simpl; rewrite list_elem_of_filter; naive_solver|].
    apply (inv_unlist w x p pr); try done. intros t e He Ee.
    destruct (timer_of w x p pr t e Hi Epr He Ee) as [Hb Hf]. destruct e as [q|q]; simpl in *; [lia|].
    subst q. by apply (Hre t).
  - split; [|done]. set (w1 := cancel_timer w (force_kill_timer pr)).
    apply (inv_delete (unlist w1 p)); [simpl; rewrite list_elem_of_filter; naive_solver|].
    apply (inv_unlist w1 x p pr); try done; [by apply inv_cancel|]. intros t e [Hne He]%list_elem_of_filter Ee.
    destruct (timer_of w x p pr t e Hi Epr He Ee) as [Hb Hf]. destruct e as [q|q]; simpl in *; [congruence|].
    subst q. by apply (Hre t).
Qed.

(** What a visit of [p] leaves of the other records. *)
Definition frame (w w' : manager) (p : loc) (a : visit_answer) : Prop :=
  (forall q, q <> p -> q ∈ process_list w -> q ∈ process_list w' /\ procs w' !! q = procs w !! q) /\
  children w' = children w /\
  (forall k, k ∈ dom (workers w') -> k ∈ dom (workers w) \/ va_worker a = Some k).

Lemma restart_timer_inv w x p pr :
  inv w x -> idle w p pr -> inv (register_timer w (Restart p)) x.
Proof.
  intros Hi [Hp Epr Hpid Hcb Hex Hre]. pose proof Hi as [].
  assert (nexttimer w ∉ (timers w).*1) as Hfr.
  { intros ([t e] & E & He)%list_elem_of_fmap. simpl in E. apply i_timer0 in He. lia. }
  split; simpl; try done.
  - by apply (local_procs w).
  - rewrite fmap_app. by apply NoDup_snoc.
  - intros t e [He|He]%elem_of_app.
    + destruct (i_timer0 t e He) as (? & ? & ?). split; [lia|done].
    + apply list_elem_of_singleton in He. simplify_eq/=. split; [lia|]. split; [done|]. by exists pr.
  - lia.
  - intros t t' q [H1|H1]%elem_of_app [H2|H2]%elem_of_app; rewrite ?list_elem_of_singleton in *; simplify_eq/=; try done.
    + by eapply i_restart0.
    + by destruct (Hre t).
    + by destruct (Hre t').
Qed.

Lemma conclude_inv w x p pr r a :
  inv w x -> idle w p pr ->
  exists w', conclude w p r a = Some w' /\ inv w' x /\ frame w w' p a.
Proof.
  intros Hi Hid. pose proof Hid as [Hp Epr Hpid Hcb Hex Hre].
  pose proof (local_of w x p pr Hi Hp Epr) as Hl.
  unfold conclude. rewrite Epr. cbn [mbind option_bind].
  destruct (wants_restart pr r && negb (stopping pr)).
  - rewrite (l_delay _ _ _ Hl). cbn. eexists. split; [done|]. destruct (va_timer a).
    + split; [by apply (restart_timer_inv w x p pr)|]. by repeat split; auto.
    + split; [done|]. by repeat split; auto.
  - destruct (has (flags (cfg pr)) AVBOX_PROCESS_WAIT).
    + eexists. split; [done|]. split.
      * apply (inv_field w _ x p pr (set_exitted pr)); try done.
        { destruct Hl. by split. }
        intros t [q|q] He Hq Hf; simpl in *; [done|]. subst q. by destruct (Hre t).
      * split_and!; [|done|auto]. intros q Hq Hin. simpl. by rewrite lookup_insert_ne.
    + destruct (free_inv w x p pr) as (w' & E & Hi' & El & Ep & Ec & Ew); try done.
      exists w'. split; [done|]. split; [done|]. split_and!; [|done|rewrite Ew; auto].
      intros q Hq Hin. rewrite El, Ep, lookup_delete_ne by done. split; [|done]. by apply list_elem_of_filter.
Qed.

Lemma frame_trans w1 w2 w3 p a : frame w1 w2 p a -> frame w2 w3 p a -> frame w1 w3 p a.
Proof.
  intros (F1 & C1 & K1) (F2 & C2 & K2). split_and!; [|congruence|].
  - intros q Hq Hin. destruct (F1 q Hq Hin) as [Hin2 E2]. destruct (F2 q Hq Hin2). split; congruence.
  - intros k Hk. destruct (K2 k Hk) as [Hk2|]; [|by right]. by apply K1.
Qed.

(** The record after its child was reaped. *)
Definition reaped (pr : avbox_process) (status : Z) : avbox_process :=
  set_exit_status (set_child pr (-1) (-1) (-1) (-1)) (WEXITSTATUS status).

Lemma reaped_inv w p pr status :
  inv w [pid pr] -> p ∈ process_list w -> procs w !! p = Some pr -> 0 < pid pr -> pid pr ∉ dom (children w) ->
  exists w1, close_all w [stdin pr; stdout pr; stderr pr] = Some w1 /\
    inv (update w1 p (reaped pr status)) [] /\ idle (update w1 p (reaped pr status)) p (reaped pr status) /\
    w1 = with_fds w (open_fds w ∖ list_to_set (fds pr)).
Proof.
  intros Hi Hp Epr Hpid Hch. pose proof (local_of w _ p pr Hi Hp Epr) as [L1 L2 L3 L4 L5].
  assert (cbstate pr = None) as Hcb.
  { destruct (cbstate pr) as [k|]; [|done]. destruct (L4 k eq_refl). lia. }
  assert (exitted pr = false) as Hex.
  { destruct (exitted pr); [|done]. destruct (L3 eq_refl). lia. }
  assert (pids pr = [pid pr]) as Ep by (unfold pids; by rewrite (proj2 (Z.eqb_neq (pid pr) (-1))) by lia).
  rewrite close_all_spec; [|by apply (fds_nodup w [pid pr] p)|intros f; by apply (fd_of w [pid pr] p pr)].
  eexists. split; [done|]. split_and!; [| |done].
  - apply (inv_record w _ [pid pr] [] p pr (reaped pr status)); try done; simpl.
    + split; simpl; naive_solver congruence.
    + intros t [q|q] He Hq Hf; simpl in *; [done|lia].
    + set_solver.
    + rewrite Ep. intros c. set_solver.
    + set_solver.
    + constructor.
    + change (real [stdin pr; stdout pr; stderr pr]) with (fds pr). set_solver.
  - split; simpl; try done; [by rewrite lookup_insert_eq|]. intros t Ht.
    destruct (timer_of w _ p pr t _ Hi Epr Ht eq_refl) as [_ []]. lia.
Qed.

Lemma update_frame w p pr fs a : frame w (update (with_fds w fs) p pr) p a.
Proof. split_and!; [|done|auto]. intros q Hq Hin. simpl. by rewrite lookup_insert_ne. Qed.

(** The callback is delegated to a new worker. *)
Lemma delegate_inv w p pr k :
  inv w [] -> idle w p pr -> k ∉ dom (workers w) ->
  inv (with_workers (update w p (set_cbstate pr (Some k))) (<[k := (p, None)]> (workers w))) [].
Proof.
  intros Hi [Hp Epr Hpid Hcb Hex Hre] Hk. pose proof (local_of w _ p pr Hi Hp Epr) as [L1 L2 L3 L4 L5].
  assert (workers w !! k = None) as Ek by (by apply not_elem_of_dom).
  apply (inv_changed w _ [] [] p pr (set_cbstate pr (Some k))); [done..|]. split; simpl; try done.
  - split; simpl; try done; [by rewrite Hex|]. intros k' [= <-]. split; [done|]. exists None. by rewrite lookup_insert_eq.
  - intros c. unfold pids; simpl. rewrite Hpid. simpl. set_solver.
  - intros c. unfold pids; simpl. rewrite Hpid. clear. set_solver.
  - change (fds (set_cbstate pr (Some k))) with (fds pr). auto.
  - exact (fds_nodup w [] p pr Hi Hp Epr).
  - change (fds (set_cbstate pr (Some k))) with (fds pr). rewrite (fds_none w [] p pr) by done. set_solver.
  - by apply Hi.
  - intros t e He. destruct (decide (timer_proc e = p)) as [Ee|]; [|by left]. right.
    destruct (timer_of w [] p pr t e Hi Epr He Ee) as [Hb Hf]. split; [done|]. split; [done|].
    destruct e as [q|q]; simpl in *; [done|]. subst q. by destruct (Hre t).
  - intros t t'. by apply Hi.
  - intros k' q r Hk'. destruct (decide (k' = k)) as [->|Hne]; simplify_map_eq; [by left|].
    right. split; [|done]. intros ->. rewrite (worker_of w [] p pr k' r) in Hcb; done.
  - intros k' q r Hq Hk'. by rewrite lookup_insert_ne by congruence.
Qed.

Lemma child_exited_inv w p pr status a :
  inv w [pid pr] -> p ∈ process_list w -> procs w !! p = Some pr -> 0 < pid pr -> pid pr ∉ dom (children w) ->
  va_mem a = true -> (forall k, va_worker a = Some k -> k ∉ dom (workers w)) ->
  exists w', child_exited w p pr status a = Some w' /\ inv w' [] /\ frame w w' p a.
Proof.
  intros Hi Hp Epr Hpid Hch Hm Hk. unfold child_exited.
  destruct (reaped_inv w p pr status Hi Hp Epr Hpid Hch) as (w1 & -> & Hi1 & Hd1 & ->).
  cbn [mbind option_bind]. fold (reaped pr status).
  pose proof (update_frame w p (reaped pr status) (open_fds w ∖ list_to_set (fds pr)) a) as Hf1.
  assert (forall r, exists w', conclude (update (with_fds w (open_fds w ∖ list_to_set (fds pr))) p (reaped pr status)) p r a
    = Some w' /\ inv w' [] /\ frame w w' p a) as Hc.
  { intros r. destruct (conclude_inv _ [] p _ r a Hi1 Hd1) as (w' & E & Hi' & Hf'). exists w'.
    split_and!; [done..|]. by eapply frame_trans. }
  destruct (exit_callback (cfg (reaped pr status))); [|apply Hc]. rewrite Hm.
  destruct (va_worker a) as [k|] eqn:Ea; [|apply Hc]. eexists. split; [done|]. split.
  - apply delegate_inv; [done..|]. by apply Hk.
  - split_and!; [|done|].
    + intros q Hq Hin. simpl. by rewrite !lookup_insert_ne.
    + intros k' Hk'. simpl in Hk'. rewrite dom_insert_L in Hk'. set_solver.
Qed.

(** The callback returned: its worker is gone. *)
Lemma undelegate_inv w x p pr k r :
  inv w x -> p ∈ process_list w -> procs w !! p = Some pr -> cbstate pr = Some k ->
  workers w !! k = Some (p, r) ->
  let w1 := with_workers (update w p (set_cbstate pr None)) (delete k (workers w)) in
  inv w1 x /\ idle w1 p (set_cbstate pr None).
Proof.
  intros Hi Hp Epr Hcb Hk w1. pose proof (local_of w _ p pr Hi Hp Epr) as [L1 L2 L3 L4 L5].
  destruct (L4 k Hcb) as [Hpid _].
  assert (exitted pr = false) as Hex by (destruct (exitted pr); [destruct (L3 eq_refl); congruence|done]).
  assert (forall t, (t, Restart p) ∉ timers w) as Hre.
  { intros t Ht. destruct (timer_of w x p pr t _ Hi Epr Ht eq_refl) as [_ (_ & Hn & _)]. congruence. }
  split; [|split; simpl; try done; by rewrite lookup_insert_eq].
  apply (inv_changed w _ x x p pr (set_cbstate pr None)); [done..|]. split; simpl; try done.
  - intros c. unfold pids; simpl. rewrite Hpid. clear. set_solver.
  - intros c. unfold pids; simpl. rewrite Hpid. clear. set_solver.
  - change (fds (set_cbstate pr None)) with (fds pr). auto.
  - exact (fds_nodup w x p pr Hi Hp Epr).
  - change (fds (set_cbstate pr None)) with (fds pr). rewrite (fds_none w x p pr) by done. set_solver.
  - by apply Hi.
  - intros t e He. destruct (decide (timer_proc e = p)) as [Ee|]; [|by left]. right.
    destruct (timer_of w x p pr t e Hi Epr He Ee) as [Hb Hf]. split; [done|]. split; [done|].
    destruct e as [q|q]; simpl in *; [done|]. subst q. by destruct (Hre t).
  - intros t t'. by apply Hi.
  - intros k' q r' Hk'. apply lookup_delete_Some in Hk' as [Hne Hk']. right. split; [|done]. intros ->.
    pose proof (worker_of w x p pr k' r' Hi Epr Hk'). congruence.
  - intros k' q r' Hq Hk'. rewrite lookup_delete_ne; [done|]. intros ->. congruence.
Qed.

Lemma callback_pending_inv w x p pr k a :
  inv w x -> p ∈ process_list w -> procs w !! p = Some pr -> cbstate pr = Some k ->
  exists w', callback_pending w p pr k a = Some w' /\ inv w' x /\ frame w w' p a.
Proof.
  intros Hi Hp Epr Hcb. destruct (l_cbstate _ _ _ (local_of w _ p pr Hi Hp Epr) k Hcb) as [Hpid [r Hk]].
  unfold callback_pending. rewrite Hk. cbn [mbind option_bind]. destruct r as [r|].
  - destruct (undelegate_inv w x p pr k _ Hi Hp Epr Hcb Hk) as [Hi1 Hd1].
    destruct (conclude_inv _ x p _ r a Hi1 Hd1) as (w' & E & Hi' & Hf'). exists w'. split_and!; [done..|].
    eapply frame_trans; [|done]. split_and!; [|done|].
    + intros q Hq Hin. simpl. by rewrite lookup_insert_ne.
    + intros k' Hk'. left. simpl in Hk'. rewrite dom_delete_L in Hk'. set_solver.
  - exists w. split_and!; [done..|]. by repeat split; auto.
Qed.

(** One visit; [x] is empty when the reaped child was already handled. *)
Lemma monitor_visit_inv w x c status a p pr :
  inv w x -> p ∈ process_list w -> procs w !! p = Some pr -> c = -2 \/ 0 < c -> c ∉ dom (children w) ->
  x = [] \/ x = [c] -> va_mem a = true -> (forall k, va_worker a = Some k -> k ∉ dom (workers w)) ->
  exists w' x', monitor_visit c status a w p = Some w' /\ inv w' x' /\ frame w w' p a /\
    (x' = [] \/ (x' = x /\ pid pr <> c)).
Proof.
  intros Hi Hp Epr Hc Hch Hx Hm Hk. unfold monitor_visit. rewrite Epr. cbn [mbind option_bind].
  pose proof (l_pid _ _ _ (local_of w x p pr Hi Hp Epr)) as Hpid.
  destruct (pid pr =? c) eqn:E; zify_bool.
  - assert (c ∈ pids pr) as Hin by (unfold pids; rewrite (proj2 (Z.eqb_neq (pid pr) (-1))) by lia; set_solver).
    destruct (pid_of w x p pr c Hi Hp Epr Hin) as [|Hin']; [done|].
    assert (x = [c]) as -> by (destruct Hx as [->|]; [set_solver|done]). subst c.
    destruct (child_exited_inv w p pr status a Hi Hp Epr) as (w' & -> & Hi' & Hf'); [lia|done..|].
    exists w', []. split_and!; [done..|]. by left.
  - destruct (cbstate pr) as [k|] eqn:Ecb.
    + destruct (callback_pending_inv w x p pr k a Hi Hp Epr Ecb) as (w' & -> & Hi' & Hf').
      exists w', x. split_and!; [done..|]. by right.
    + exists w, x. split_and!; [done..| |by right]. by repeat split; auto.
Qed.

Lemma monitor_loop_inv c status env l w x :
  inv w x -> NoDup l -> (forall q, q ∈ l -> q ∈ process_list w) -> c = -2 \/ 0 < c -> c ∉ dom (children w) ->
  (forall p, va_mem (env p) = true) ->
  (forall p k, p ∈ l -> va_worker (env p) = Some k -> k ∉ dom (workers w)) ->
  (forall p q k, va_worker (env p) = Some k -> va_worker (env q) = Some k -> p = q) ->
  x = [] \/ (x = [c] /\ exists p pr, p ∈ l /\ procs w !! p = Some pr /\ pid pr = c) ->
  exists w', monitor_loop c status env w l = Some w' /\ inv w' [].
Proof.
  revert w x. induction l as [|p l IH]; intros w x Hi Hnd Hl Hc Hch Hm Hk Hd Hx.
  { exists w. split; [done|]. destruct Hx as [->|(_ & p & _ & Hp & _)]; [done|set_solver]. }
  apply NoDup_cons in Hnd as [Hp Hnd]. assert (p ∈ process_list w) as Hpl by (apply Hl; set_solver).
  destruct (i_local _ _ Hi p Hpl) as (pr & Epr & _).
  destruct (monitor_visit_inv w x c status (env p) p pr) as (w' & x' & E & Hi' & (F1 & F2 & F3) & Hx');
    [done..|destruct Hx as [|[]]; auto|done|intros k; apply Hk; left|].
  cbn [monitor_loop]. rewrite E. cbn [mbind option_bind].
  assert (forall q, q ∈ l -> q <> p /\ q ∈ process_list w) as Hq.
  { intros q Hql. split; [by intros ->|]. apply Hl. by right. }
  apply (IH w' x'); try done.
  - intros q Hql. destruct (Hq q Hql). by apply F1.
  - by rewrite F2.
  - intros q k Hql Hqk Hin. destruct (Hq q Hql). destruct (F3 k Hin) as [Hin'|Hin'].
    + by apply (Hk q k); [right|..].
    + by pose proof (Hd _ _ _ Hqk Hin').
  - destruct Hx' as [->|[-> Hne]]; [by left|]. destruct Hx as [->|(-> & q & qr & Hq' & Eq & Eqc)]; [by left|].
    right. split; [done|]. apply elem_of_cons in Hq' as [->|Hq']; [by simplify_eq|].
    exists q, qr. destruct (Hq q Hq') as [Hne' Hin]. destruct (F1 q Hne' Hin) as [_ ->]. done.
Qed.

Lemma inv_reap w c : inv w [] -> c ∈ dom (children w) -> inv (with_children w (delete c (children w))) [c].
Proof.
  intros [] Hc. split; simpl; try done.
  - by apply (local_procs w).
  - intros c'. rewrite i_children0, dom_delete_L. clear - Hc. destruct (decide (c' = c)); set_solver.
Qed.

Lemma monitor_inv w a env :
  inv w [] -> legal w (CMonitor a env) -> exists w', monitor_pass w a env = Some w' /\ inv w' [].
Proof.
  intros Hi [He Hnf].
  assert (forall p, va_mem (env p) = true) as Hm.
  { intros p. destruct (va_mem (env p)) eqn:Em; [done|]. destruct Hnf. by eapply NoCallbackMemory. }
  unfold monitor_pass. destruct a as [|c status|]; simpl in He; [| |by exists w].
  - destruct He as (Hk & Hd). apply (monitor_loop_inv (-2) 0 env (process_list w) w []); eauto.
    + by apply Hi.
    + intros Hin. assert ((-2) ∈ flat pids (procs w) (process_list w)) as Hf by (apply (i_children _ _ Hi); by left).
      apply elem_of_flat in Hf as (p & pr & Hp & E & Hin').
      pose proof (l_pid _ _ _ (local_of w _ p pr Hi Hp E)) as Hpid. unfold pids in Hin'.
      case_match; [by apply elem_of_nil in Hin'|]. apply list_elem_of_singleton in Hin'. lia.
  - destruct He as (Hch & Hk & Hd). assert (c ∈ dom (children w)) as Hc by (by apply elem_of_dom_2 in Hch).
    assert (c ∈ flat pids (procs w) (process_list w)) as Hf by (apply (i_children _ _ Hi); by left).
    apply elem_of_flat in Hf as (p & pr & Hp & E & Hin).
    pose proof (l_pid _ _ _ (local_of w _ p pr Hi Hp E)) as Hpid. unfold pids in Hin.
    destruct (pid pr =? -1) eqn:Ep; zify_bool; [set_solver|]. apply list_elem_of_singleton in Hin as ->.
    apply (monitor_loop_inv (pid pr) status env _ _ [pid pr]); eauto; simpl.
    + by apply inv_reap.
    + by apply Hi.
    + right. lia.
    + rewrite dom_delete_L. set_solver.
    + right. split; [done|]. by exists p, pr.
Qed.

(** ** The calls keep the invariant *)

Lemma find_id_spec ps l i :
  (forall p, p ∈ l -> is_Some (ps !! p)) ->
  (exists p pr, find_id ps l i = Some (Some p) /\ p ∈ l /\ ps !! p = Some pr /\ id (cfg pr) = i) \/
  (find_id ps l i = Some None /\ forall p pr, p ∈ l -> ps !! p = Some pr -> id (cfg pr) <> i).
Proof.
  induction l as [|p l IH]; intros Hl; cbn [find_id].
  { right. split; [done|]. intros p pr Hp. by apply elem_of_nil in Hp. }
  destruct (Hl p) as [pr E]; [left|]. rewrite E. cbn [mbind option_bind].
  destruct (id (cfg pr) =? i) eqn:Ei; zify_bool.
  - left. exists p, pr. by split_and!; [done|left|..].
  - destruct IH as [(q & qr & -> & ? & ? & ?)|[-> Hn]]; [intros; apply Hl; by right| |].
    + left. exists q, qr. split_and!; try done. by right.
    + right. split; [done|]. intros q qr [->|Hq]%elem_of_cons Eq; [by simplify_eq|by eapply Hn].
Qed.

Lemma getbyid_spec w x i :
  inv w x ->
  (exists p pr, avbox_process_getbyid w i = Some (Some p) /\ p ∈ process_list w /\
     procs w !! p = Some pr /\ id (cfg pr) = i) \/
  (avbox_process_getbyid w i = Some None /\
     forall p pr, p ∈ process_list w -> procs w !! p = Some pr -> id (cfg pr) <> i).
Proof. intros Hi. apply find_id_spec. intros p Hp. destruct (i_local _ _ Hi p Hp) as (? & ? & _). eauto. Qed.

(** A change of a record that touches only its bookkeeping. *)
Lemma inv_book w p pr pr' sg :
  inv w [] -> p ∈ process_list w -> procs w !! p = Some pr ->
  set_kill_timer (set_kill_delay (set_stopping pr') (force_kill_delay pr)) (force_kill_timer pr) =
    set_stopping pr ->
  (forall t, (t, Kill p) ∈ timers w -> force_kill_timer pr' = force_kill_timer pr) ->
  inv (Mgr (<[p := pr']> (procs w)) (process_list w) (nextid w) (children w) (open_fds w) (timers w)
         (nexttimer w) (workers w) sg) [].
Proof.
  intros Hi Hp Epr Hs Ht. destruct pr, pr'. simpl in *. injection Hs as -> -> -> -> -> -> -> ->.
  pose proof (local_of w [] p _ Hi Hp Epr) as Hl.
  eapply (inv_field w); [done|done|exact Epr|done..| |].
  - destruct Hl. split; auto.
  - intros t [q|q] He Hq Hf; simpl in *; [|done]. subst q. rewrite (Ht t He). done.
Qed.

Lemma kill_timer_absent w p pr t :
  inv w [] -> procs w !! p = Some pr -> force_kill_timer pr = -1 -> (t, Kill p) ∉ timers w.
Proof.
  intros Hi Epr Hf Ht. destruct (timer_of w [] p pr t _ Hi Epr Ht eq_refl) as [? Hfit]. simpl in Hfit. lia.
Qed.

(** A kill timer is armed for a process that has none. *)
Lemma arm_kill_inv w p pr sg :
  inv w [] -> p ∈ process_list w -> procs w !! p = Some pr -> force_kill_timer pr = -1 ->
  inv (Mgr (<[p := set_kill_timer (set_stopping pr) (nexttimer w)]> (procs w)) (process_list w) (nextid w)
         (children w) (open_fds w) (timers w ++ [(nexttimer w, Kill p)]) (nexttimer w + 1) (workers w) sg) [].
Proof.
  intros Hi Hp Epr Hkt. pose proof (local_of w [] p _ Hi Hp Epr) as Hl. pose proof Hi as [].
  assert (nexttimer w ∉ (timers w).*1) as Hfr.
  { intros ([t e] & E & He)%list_elem_of_fmap. simpl in E. apply i_timer0 in He. lia. }
  apply (inv_changed w _ [] [] p pr (set_kill_timer (set_stopping pr) (nexttimer w))); [done..|].
  split; simpl; try done.
  - destruct Hl. by split.
  - by left.
  - intros c. change (pids (set_kill_timer (set_stopping pr) (nexttimer w))) with (pids pr).
    pose proof (pid_of w [] p pr c Hi Hp Epr). destruct (decide (c ∈ pids pr)); naive_solver.
  - by left.
  - exact (fds_nodup w [] p pr Hi Hp Epr).
  - intros f. change (fds (set_kill_timer (set_stopping pr) (nexttimer w))) with (fds pr).
    pose proof (fd_of w [] p pr f Hi Hp Epr). destruct (decide (f ∈ fds pr)); naive_solver.
  - rewrite fmap_app. by apply NoDup_snoc.
  - intros t e [He|He]%elem_of_app.
    + destruct (decide (timer_proc e = p)) as [Ee|]; [|by left]. right.
      destruct (timer_of w [] p pr t e Hi Epr He Ee) as [Hb Hf]. split; [lia|]. split; [done|].
      destruct e as [q|q]; simpl in *; [lia|done].
    + apply list_elem_of_singleton in He. simplify_eq. right. simpl. split; [lia|done].
  - lia.
  - intros t t' [H1|H1]%elem_of_app [H2|H2]%elem_of_app; rewrite ?list_elem_of_singleton in *; simplify_eq/=.
    by eapply i_restart0.
  - intros k q r Hk. destruct (decide (q = p)) as [->|]; [left|by right]. split; [done|].
    by apply (worker_of w [] p pr k r).
Qed.

Lemma stop_inv w i ko to :
  inv w [] -> legal w (CStop i ko to) -> exists w', exec w (CStop i ko to) = Some w' /\ inv w' [].
Proof.
  intros Hi [_ Hnf]. simpl. unfold avbox_process_stop.
  destruct (getbyid_spec w [] i Hi) as [(p & pr & -> & Hp & Epr & Hid)|[-> _]]; [|by exists w].
  cbn [mbind option_bind]. rewrite Epr. cbn [mbind option_bind].
  assert (force_kill_timer pr = -1) as Hkt.
  { apply dec_stable. intros Hk. apply Hnf. by eapply StopTwice. }
  pose proof (kill_timer_absent w p pr) as Hab.
  destruct (pid pr =? -1); [by exists w|]. simpl.
  assert (forall sg, inv (Mgr (<[p := set_stopping pr]> (procs w)) (process_list w) (nextid w) (children w)
    (open_fds w) (timers w) (nexttimer w) (workers w) sg) []) as Hstop.
  { intros sg. by apply (inv_book w p pr). }
  destruct (has (flags (cfg pr)) AVBOX_PROCESS_SIGKILL); [destruct ko; eexists; (split; [done|apply Hstop])|].
  destruct ko; [|eexists; (split; [done|apply Hstop])].
  destruct to; eexists; (split; [done|]); unfold register_timer, update, with_procs, log_signal; simpl;
    rewrite insert_insert_eq.
  - by apply arm_kill_inv.
  - apply (inv_book w p pr); try done.
Qed.

Lemma wait_inv w i : inv w [] -> legal w (CWait i) -> exists w', exec w (CWait i) = Some w' /\ inv w' [].
Proof.
  intros Hi [He _]. simpl in He |- *. unfold wait_enter in *.
  destruct (getbyid_spec w [] i Hi) as [(p & pr & Eg & Hp & Epr & Hid)|[Eg _]]; rewrite Eg in *;
    cbn [mbind option_bind] in *; [|by exists w].
  rewrite Epr in *. cbn [mbind option_bind] in *.
  destruct (has (flags (cfg pr)) AVBOX_PROCESS_WAIT); [|by exists w].
  pose proof (He p pr eq_refl Epr) as Hex.
  destruct (l_exitted _ _ _ (local_of w [] p pr Hi Hp Epr) Hex) as [Hpid Hcb].
  destruct (free_inv w [] p pr) as (w' & E & Hi' & _); [done..| |].
  { intros t Ht. destruct (timer_of w [] p pr t _ Hi Epr Ht eq_refl) as [_ (_ & _ & Hn)]. congruence. }
  unfold wait_leave. rewrite Epr. cbn [mbind option_bind]. rewrite Hpid, E. simpl. by exists w'.
Qed.

Lemma no_minus_one w x : inv w x -> -1 ∉ open_fds w.
Proof.
  intros Hi Hin. apply (i_open _ _ Hi), elem_of_flat in Hin as (p & pr & _ & _ & Hf).
  unfold fds in Hf. apply list_elem_of_filter in Hf as [Hf _]. done.
Qed.

(** A descriptor is handed to the caller. *)
Lemma handover_inv w p pr pr' f :
  inv w [] -> p ∈ process_list w -> procs w !! p = Some pr ->
  pr' = set_child pr (pid pr) (stdin pr') (stdout pr') (stderr pr') ->
  (f <> -1 -> exists a b, fds pr = a ++ f :: b /\ fds pr' = a ++ b) -> (f = -1 -> fds pr' = fds pr) ->
  (pid pr = -1 -> stdin pr' = -1 /\ stdout pr' = -1 /\ stderr pr' = -1) ->
  inv (with_fds (update w p pr') (open_fds w ∖ {[f]})) [].
Proof.
  intros Hi Hp Epr Epr' Hf1 Hf2 Hfd. pose proof (local_of w [] p pr Hi Hp Epr) as Hl.
  pose proof (fds_nodup w [] p pr Hi Hp Epr) as Hnd.
  assert (-1 ∉ fds pr) as Hm by (unfold fds; rewrite list_elem_of_filter; naive_solver).
  assert (pids pr' = pids pr) as Ep by (by rewrite Epr').
  assert (cbstate pr' = cbstate pr /\ exitted pr' = exitted pr /\ cfg pr' = cfg pr /\ pid pr' = pid pr /\
    force_kill_timer pr' = force_kill_timer pr) as (Ec & Ex & Ecf & Epid & Ek) by (by rewrite Epr').
  assert (NoDup (fds pr') /\ forall g, g ∈ fds pr' <-> g ∈ fds pr /\ g <> f) as [Hnd' Hin].
  { destruct (decide (f = -1)) as [->|Hne].
    - rewrite (Hf2 eq_refl). split; [done|]. intros g. split; [|naive_solver]. intros Hg. split; [done|].
      by intros ->.
    - destruct (Hf1 Hne) as (a & b & Ea & ->). rewrite Ea in *. apply NoDup_remove_mid in Hnd as [? Hn].
      split; [done|]. intros g. clear - Hn. destruct (decide (g = f)); set_solver. }
  apply (inv_record w _ [] [] p pr pr'); try done; rewrite ?Ep; simpl.
  - destruct Hl. split; rewrite ?Epid, ?Ex, ?Ec, ?Ecf; auto.
  - intros t [q|q] _ _ Hf; simpl in *; rewrite ?Ek, ?Epid, ?Ec, ?Ex; done.
  - by left.
  - intros c. pose proof (pid_of w [] p pr c Hi Hp Epr). destruct (decide (c ∈ pids pr)); naive_solver.
  - intros g Hg. left. by apply Hin.
  - intros g. rewrite Hin. pose proof (fd_of w [] p pr g Hi Hp Epr).
    rewrite elem_of_difference, elem_of_singleton. destruct (decide (g ∈ fds pr)); [naive_solver|].
    split; [naive_solver|]. intros [|[_ Hg]]; [naive_solver|]. split; [done|]. intros ->.
    destruct (decide (f = -1)) as [->|Hne]; [by apply (no_minus_one w [])|].
    destruct (Hf1 Hne) as (a & b & Ea & _). rewrite Ea in *. set_solver.
Qed.

Lemma real_mid u f v : f <> -1 -> real (u ++ f :: v) = real u ++ f :: real v.
Proof. intros Hf. unfold real. by rewrite filter_app, (filter_cons_True _ f). Qed.

Lemma real_drop u v : real (u ++ -1 :: v) = real u ++ real v.
Proof. unfold real. rewrite filter_app, (filter_cons_False _ (-1)); [done|]. intros H. by apply H. Qed.

Lemma openfd_inv w i n : inv w [] -> exists w', exec w (COpenfd i n) = Some w' /\ inv w' [].
Proof.
  intros Hi. simpl. unfold avbox_process_openfd.
  destruct (getbyid_spec w [] i Hi) as [(p & pr & -> & Hp & Epr & Hid)|[-> _]]; [|by exists w].
  cbn [mbind option_bind]. rewrite Epr. cbn [mbind option_bind].
  pose proof (l_fds _ _ _ (local_of w [] p pr Hi Hp Epr)) as Hfd.
  assert (forall f u v, f <> -1 -> exists a b, real (u ++ f :: v) = a ++ f :: b /\ real (u ++ -1 :: v) = a ++ b) as Hmid.
  { intros f u v Hf. exists (real u), (real v). by rewrite real_mid, real_drop. }
  destruct n; simpl; (eexists; split; [done|]); apply (handover_inv w p pr); try done; unfold fds; simpl;
    try (intros Hpid; by destruct (Hfd Hpid) as (? & ? & ?)); try (by intros ->); intros Hf.
  - by apply (Hmid (stdin pr) [] [stdout pr; stderr pr]).
  - by apply (Hmid (stdout pr) [stdin pr] [stderr pr]).
  - by apply (Hmid (stderr pr) [stdin pr; stdout pr] []).
Qed.

Lemma delay_inv w i d : inv w [] -> exists w', exec w (CDelay i d) = Some w' /\ inv w' [].
Proof.
  intros Hi. simpl. unfold avbox_process_setsigkilldelay.
  destruct (getbyid_spec w [] i Hi) as [(p & pr & -> & Hp & Epr & Hid)|[-> _]]; [|by exists w].
  cbn [mbind option_bind]. rewrite Epr. cbn [mbind option_bind]. simpl. eexists. split; [done|].
  by apply (inv_book w p pr).
Qed.

Lemma inv_signal w c sg : inv w [] -> inv (log_signal w c sg) [].
Proof. intros []. split; try done. by apply (local_procs w). Qed.

Lemma kill_timer_inv w t p ko :
  inv w [] -> (t, Kill p) ∈ timers w -> exists w', avbox_process_force_kill w t p ko = Some w' /\ inv w' [].
Proof.
  intros Hi Ht. destruct (i_timer _ _ Hi t _ Ht) as (_ & Hp & pr & Epr & _). simpl in Hp, Epr.
  unfold avbox_process_force_kill. rewrite Epr. cbn [mbind option_bind].
  destruct (getbyid_spec w [] (id (cfg pr)) Hi) as [(q & qr & -> & Hq & Eq & _)|[-> _]]; cbn [mbind option_bind].
  - rewrite Eq. cbn [mbind option_bind]. eexists. split; [done|]. destruct (pid qr =? -1); [done|].
    unfold send_signal. destruct ko; [by apply inv_signal|done].
  - eexists. split; [done|]. by apply inv_cancel.
Qed.

(** [forked] is not affected by a timer that is cancelled. *)
Lemma forked_cancel w w' p pr c t :
  forked w w' p pr c -> forked (cancel_timer w t) (cancel_timer w' t) p pr c.
Proof.
  intros [(E1 & E2 & E3 & E4 & E5) Hc]. split; [|done]. unfold same_rest. simpl. by rewrite E1, E2, E3, E4, E5.
Qed.

Lemma restart_inv w t p a :
  inv w [] -> legal w (CRestartTimer t p a) -> exists w', restart_fires w t p a = Some w' /\ inv w' [].
Proof.
  intros Hi [[Ht Hok] _]. destruct (i_timer _ _ Hi t _ Ht) as (_ & Hp & pr & Epr & Hpid & Hcb & Hex). simpl in Hp, Epr.
  destruct (fork_into_spec w p pr a Epr Hpid Hok) as (c & w' & E & Hfk).
  unfold restart_fires, avbox_process_autorestart. rewrite E. cbn [mbind option_bind]. eexists. split; [done|].
  apply (forked_inv (cancel_timer w t) _ [] p pr c); [by apply inv_cancel| |done|by apply forked_cancel].
  split; try done. intros t' [Hne Ht']%list_elem_of_filter. simpl in Hne. by apply Hne, (i_restart _ _ Hi t' t p).
Qed.

Lemma callback_inv w k r p :
  inv w [] -> workers w !! k = Some (p, None) ->
  exists w', avbox_process_callback_helper w k r = Some w' /\ inv w' [].
Proof.
  intros Hi Hk. destruct (i_workers _ _ Hi k p None Hk) as (Hp & pr & Epr & Hcb).
  unfold avbox_process_callback_helper. rewrite Hk. cbn [mbind option_bind]. rewrite Epr. cbn [mbind option_bind].
  eexists. split; [done|]. destruct Hi. split; simpl; try done.
  - intros q Hq. destruct (i_local0 q Hq) as (qr & Eq & Hl). exists qr. split; [done|].
    apply (local_workers w); [|done]. intros k' r' Hk'. destruct (decide (k' = k)) as [->|Hne].
    + simplify_eq. exists (Some r). simpl. by rewrite lookup_insert_eq.
    + exists r'. simpl. by rewrite lookup_insert_ne.
  - intros k' q r' Hk'. destruct (decide (k' = k)) as [->|Hne]; simplify_map_eq; [by eauto|by eapply i_workers0].
Qed.

Lemma exit_inv w c s : inv w [] -> children w !! c = Some None ->
  inv (with_children w (<[c := Some s]> (children w))) [].
Proof.
  intros [] Hc. apply elem_of_dom_2 in Hc. split; simpl; try done.
  - by apply (local_procs w).
  - intros c'. rewrite i_children0, dom_insert_L. clear - Hc. set_solver.
Qed.

Lemma inv_nextid w : inv w [] -> inv (with_nextid w (nextid w + 1)) [].
Proof.
  intros []. split; simpl; try done.
  - by apply (local_procs w).
  - intros i Hi%i_nextid0. lia.
  - lia.
Qed.

Lemma process_start_inv w rq a :
  inv w [] -> legal w (CStart rq a) -> exists w', exec w (CStart rq a) = Some w' /\ inv w' [].
Proof.
  intros Hi [[Hmem Hok] Hnf].
  assert (nextid w < INT_MAX) as Hn by (apply Z.nle_gt; intros H; by apply Hnf, IdsExhausted).
  assert (sa_cond a = true) as Hcond.
  { destruct (sa_cond a) eqn:E; [done|]. destruct Hnf. by apply NoCondition. }
  simpl. unfold avbox_process_start.
  destruct (flags_ok (rq_flags rq)); [|by exists w].
  destruct (sa_mem a) as [p|]; [|by exists w]. specialize (Hmem p eq_refl).
  pose proof (i_nextid_pos _ _ Hi) as Hpos. unfold INT_MAX in Hn.
  unfold avbox_process_get_next_id. rewrite chk_int_Some by lia. cbn [mbind option_bind]. rewrite Hcond.
  set (argv := (avbox_process_clone_args _ _ _).1). cbn [mbind option_bind]. simpl.
  rewrite lookup_insert_eq. cbn [mbind option_bind].
  destruct (sa_binary a && bool_decide (argv <> None) && sa_name a).
  2:{ unfold avbox_process_free. simpl. rewrite lookup_insert_eq. cbn [mbind option_bind]. simpl.
      eexists. split; [done|]. rewrite delete_insert_id by (by apply not_elem_of_dom).
      exact (inv_nextid w Hi). }
  set (pr := new_process (nextid w) rq (default [] argv)).
  set (w1 := with_list _ _).
  assert (inv w1 []) as Hi1 by (by apply inv_add).
  assert (forall t e, (t, e) ∈ timers w -> timer_proc e <> p) as Htm.
  { intros t e He <-. destruct (i_timer _ _ Hi t e He) as (_ & _ & qr & E & _).
    by apply elem_of_dom_2 in E. }
  assert (idle w1 p pr) as Hid1.
  { split; simpl; try done; [left|apply lookup_insert_eq|]. intros t Ht. by apply (Htm t _ Ht). }
  destruct (fork_into_spec w1 p pr (sa_fork a)) as (c & w' & E & Hfk); [apply Hid1|done|done|].
  rewrite E. cbn [mbind option_bind]. pose proof (forked_inv w1 w' [] p pr c Hi1 Hid1 eq_refl Hfk) as Hi'.
  destruct Hfk as [(El & _ & Et & _ & _) Hc]. destruct (c =? -1) eqn:Ec; zify_bool.
  - destruct Hc as [(_ & Ep & _)|(? & ? & ? & ? & _)]; [|lia]. simpl. rewrite Ep, lookup_insert_eq. simpl.
    eexists. split; [done|]. apply (inv_unlist w' [] p pr); try done.
    + rewrite El. left.
    + by rewrite Ep, lookup_insert_eq.
    + rewrite Et. apply Htm.
  - assert (p ∈ process_list w') as Hp by (rewrite El; left).
    destruct (i_local _ _ Hi' p Hp) as (pr' & -> & _). simpl. by exists w'.
Qed.

Lemma exec_inv w c : inv w [] -> legal w c -> exists w', exec w c = Some w' /\ inv w' [].
Proof.
  intros Hi He. destruct c as [rq a|a env|k r|i ko to|i|i n|i d|t p ko|t p a|c s].
  - by apply process_start_inv.
  - by apply monitor_inv.
  - destruct He as [[p Hk] _]. by apply (callback_inv w k r p).
  - by apply stop_inv.
  - by apply wait_inv.
  - by apply openfd_inv.
  - by apply delay_inv.
  - destruct He. by apply kill_timer_inv.
  - by apply restart_inv.
  - destruct He. eexists. split; [done|]. by apply exit_inv.
Qed.

Lemma process_init_inv : inv avbox_process_init [].
Proof.
  split; simpl; try done; try constructor; try (intros; set_solver); try set_solver.
Qed.

Lemma process_reachable_inv w : rtc step avbox_process_init w -> inv w [].
Proof.
  intros Hr. apply (rtc_invariant step (fun w => inv w []) ) with avbox_process_init; [|done|apply process_init_inv].
  intros w1 w2 Hi Hs. inversion Hs as [? c ? He E]; subst.
  destruct (exec_inv _ c Hi He) as (w' & E' & Hi'). by simplify_eq.
Qed.

(** What belongs to two listed records belongs to one. *)
Lemma flat_inj {A} (f : avbox_process -> list A) ps l p q pr qr y :
  NoDup (flat f ps l) -> p ∈ l -> q ∈ l -> ps !! p = Some pr -> ps !! q = Some qr ->
  y ∈ f pr -> y ∈ f qr -> p = q.
Proof.
  induction l as [|z l IH]; intros Hnd Hp Hq Ep Eq Hy Hy'; [by apply elem_of_nil in Hp|].
  assert (forall z' zr, z' ∈ l -> ps !! z' = Some zr -> y ∈ f zr -> y ∈ flat f ps l) as Hin.
  { intros z' zr ? ? ?. apply elem_of_flat. by exists z', zr. }
  change (z :: l) with ([z] ++ l) in Hnd. rewrite flat_app in Hnd. apply NoDup_app in Hnd as (_ & Hd & Hnd).
  apply elem_of_cons in Hp as [->|Hp], Hq as [->|Hq]; [done| | |by apply IH].
  - destruct (Hd y); [|by eapply Hin]. rewrite (flat_cons f ps z pr []) by done. set_solver.
  - destruct (Hd y); [|by eapply Hin]. rewrite (flat_cons f ps z qr []) by done. set_solver.
Qed.

(** ** Properties *)

(** [manages w p c]: the listed record [p] is that of child [c]. *)
Definition manages (w : manager) (p : loc) (c : Z) : Prop :=
  p ∈ process_list w /\ exists pr, procs w !! p = Some pr /\ c ∈ pids pr.

(** [holds w p f]: the listed record [p] holds the descriptor [f]. *)
Definition holds (w : manager) (p : loc) (f : Z) : Prop :=
  p ∈ process_list w /\ exists pr, procs w !! p = Some pr /\ f ∈ fds pr.

(** *** Lookups

    [avbox_process_stop], [avbox_process_openfd], [avbox_process_getpid] and
    [avbox_process_setsigkilldelay] look a record up, release the lock and
    then use it: [us] are the records of such calls under way.  A run goes on
    as long as no step takes a record from the list that one of them is
    about to use. *)
Inductive tstep : manager * list loc -> manager * list loc -> Prop :=
  | TLookup w us i p : avbox_process_getbyid w i = Some (Some p) -> tstep (w, us) (w, us ++ [p])
  | TCall w w' us : step w w' -> (forall p, p ∈ us -> p ∈ process_list w') -> tstep (w, us) (w', us)
  | TReturn w us1 p us2 : tstep (w, us1 ++ p :: us2) (w, us1 ++ us2).

(** The fault that ends such a run. *)
Definition overlap (w w' : manager) (us : list loc) : Prop := step w w' /\ exists p, p ∈ us /\ p ∉ process_list w'.

Lemma tstep_listed x y :
  tstep x y -> inv x.1 [] /\ (forall p, p ∈ x.2 -> p ∈ process_list x.1) ->
  inv y.1 [] /\ (forall p, p ∈ y.2 -> p ∈ process_list y.1).
Proof.
  intros Ht [Hi Hl]. destruct Ht as [w us i p E|w w' us Hs Hk|w us1 p us2]; cbn in *.
  - split; [done|]. intros q [Hq|Hq]%elem_of_app; [by apply Hl|]. apply list_elem_of_singleton in Hq as ->.
    destruct (getbyid_spec w [] i Hi) as [(r & pr & Er & Hr & _)|[Er _]]; congruence.
  - split; [|done]. inversion Hs as [? c ? He E]; subst. destruct (exec_inv _ c Hi He) as (w2 & E' & Hi'). by simplify_eq.
  - split; [done|]. intros q Hq. apply Hl. set_solver.
Qed.

Lemma looked_up_inv w us :
  rtc tstep (avbox_process_init, []) (w, us) -> inv w [] /\ forall p, p ∈ us -> p ∈ process_list w.
Proof.
  intros Hr. apply (rtc_invariant tstep (fun x => inv x.1 [] /\ forall p, p ∈ x.2 -> p ∈ process_list x.1))
    with (x := (avbox_process_init, [])) (y := (w, us)); [|done|].
  - intros x y Hx Hxy. by eapply tstep_listed.
  - split; [apply process_init_inv|]. cbn. intros p Hp. by apply elem_of_nil in Hp.
Qed.

Lemma steps_unlooked w w' : rtc step w w' -> rtc tstep (w, []) (w', []).
Proof.
  induction 1 as [w|w w' w'' Hs _ IH]; [done|]. eapply rtc_l; [|exact IH].
  apply TCall; [done|]. intros p Hp. by apply elem_of_nil in Hp.
Qed.

(** A record in use is the one a lookup would find now. *)
Lemma found_again w p :
  inv w [] -> p ∈ process_list w ->
  exists pr, procs w !! p = Some pr /\ avbox_process_getbyid w (id (cfg pr)) = Some (Some p).
Proof.
  intros Hi Hp. destruct (i_local _ _ Hi p Hp) as (pr & E & _). exists pr. split; [done|].
  destruct (getbyid_spec w [] (id (cfg pr)) Hi) as [(q & qr & Eq & Hq & Eqr & Hid)|[_ Hn]]; [|by destruct (Hn p pr)].
  rewrite Eq. do 2 f_equal.
  apply (flat_inj (fun pr => [id (cfg pr)]) (procs w) (process_list w) q p qr pr (id (cfg pr)));
    try done; [apply Hi|rewrite Hid; left|left].
Qed.


(** What becomes of a process that exited, without a callback: it is kept
    for a restart (5 seconds later), kept for [avbox_process_wait] with its
    status, or forgotten together with its kill timer. *)
Definition settled (w w' : manager) (p : loc) (pr : avbox_process) (status : Z) (a : visit_answer) : Prop :=
  let fl := flags (cfg pr) in
  if (has fl AVBOX_PROCESS_AUTORESTART_ALWAYS ||
      (negb (WEXITSTATUS status =? 0) && has fl AVBOX_PROCESS_AUTORESTART)) && negb (stopping pr)
  then p ∈ process_list w' /\ procs w' !! p = Some (reaped pr status) /\
       (va_timer a = true -> (nexttimer w, Restart p) ∈ timers w')
  else if has fl AVBOX_PROCESS_WAIT
  then p ∈ process_list w' /\ procs w' !! p = Some (set_exitted (reaped pr status))
  else p ∉ process_list w' /\ procs w' !! p = None /\ forall t, (t, Kill p) ∉ timers w'.

(** With a callback, the callback runs first. *)
Definition handled (w w' : manager) (p : loc) (pr : avbox_process) (status : Z) (a : visit_answer) : Prop :=
  match exit_callback (cfg pr), va_worker a with
  | true, Some k =>
      p ∈ process_list w' /\ procs w' !! p = Some (set_cbstate (reaped pr status) (Some k)) /\
      workers w' !! k = Some (p, None)
  | _, _ => settled w w' p pr status a
  end.

Lemma conclude_settled w0 w p pr status a :
  inv w [] -> idle w p (reaped pr status) -> nexttimer w = nexttimer w0 ->
  exists w', conclude w p 0 a = Some w' /\ settled w0 w' p pr status a /\
    children w' = children w /\ open_fds w' = open_fds w.
Proof.
  intros Hi Hid Hnt. pose proof Hid as [Hp Epr Hpid Hcb _ Hre]. unfold conclude, settled.
  pose proof (l_delay _ _ _ (local_of w [] p _ Hi Hp Epr)) as Hd.
  rewrite Epr. cbn [mbind option_bind]. unfold wants_restart. rewrite Hd.
  change (cfg (reaped pr status)) with (cfg pr). change (stopping (reaped pr status)) with (stopping pr).
  change (exit_status (reaped pr status)) with (WEXITSTATUS status). cbn [Z.eqb Pos.eqb andb].
  destruct ((_ || _) && negb (stopping pr)).
  - destruct (va_timer a); (eexists; split; [done|]); [|done]. split_and!; try done.
    intros _. simpl. rewrite Hnt. apply elem_of_app. right. left.
  - destruct (has (flags (cfg pr)) AVBOX_PROCESS_WAIT).
    + eexists. split; [done|]. simpl. by rewrite lookup_insert_eq.
    + destruct (free_inv w [] p (reaped pr status)) as (w' & E & Hi' & El & Ep & Ec & _); try done.
      exists w'. split; [done|]. rewrite El, Ep, lookup_delete_eq. split_and!; try done.
      * rewrite list_elem_of_filter. naive_solver.
      * intros t Ht. destruct (i_timer _ _ Hi' t _ Ht) as (_ & Hin & _). simpl in Hin.
        rewrite El, list_elem_of_filter in Hin. naive_solver.
      * revert E. unfold avbox_process_free. simpl. rewrite Epr. cbn [mbind option_bind]. intros [= <-]. simpl.
        by case_match.
Qed.

(** When the monitor finds that a child exited, its descriptors are
    closed, and the record is handed to the exit callback, or kept for a
    restart after the delay when the flags ask for one and the process is
    not being stopped, or kept with the exit status for the waiting thread,
    or freed with no kill timer left that points to it. *)
Lemma child_exit_handled (w : manager) (p : loc) (pr : avbox_process) (status : Z) (a : visit_answer) :
  rtc step avbox_process_init w -> p ∈ process_list w -> procs w !! p = Some pr ->
  children w !! pid pr = Some (Some status) ->
  va_mem a = true -> (forall k, va_worker a = Some k -> k ∉ dom (workers w)) ->
  exists w', monitor_visit (pid pr) status a (with_children w (delete (pid pr) (children w))) p = Some w' /\
    handled w w' p pr status a /\
    pid pr ∉ dom (children w') /\ (forall f, f ∈ fds pr -> f ∉ open_fds w').
Proof.
  intros Hi%process_reachable_inv Hp Epr Hch Hm Hk. apply elem_of_dom_2 in Hch.
  set (w1 := with_children w (delete (pid pr) (children w))).
  assert (inv w1 [pid pr]) as Hi1 by (by apply inv_reap).
  assert (pid pr ∉ dom (children w1)) as Hn by (simpl; rewrite dom_delete_L; set_solver).
  assert (0 < pid pr) as Hpid.
  { apply (or_introl (B := pid pr ∈ @nil Z)), (i_children _ _ Hi), elem_of_flat in Hch as (q & qr & Hq & Eq & Hin).
    pose proof (l_pid _ _ _ (local_of w _ q qr Hi Hq Eq)). unfold pids in Hin.
    destruct (pid qr =? -1) eqn:E; zify_bool; [by apply elem_of_nil in Hin|].
    apply list_elem_of_singleton in Hin. lia. }
  unfold monitor_visit. change (procs w1) with (procs w). rewrite Epr. cbn [mbind option_bind]. rewrite Z.eqb_refl.
  unfold child_exited. destruct (reaped_inv w1 p pr status Hi1 Hp Epr Hpid Hn) as (w2 & -> & Hi2 & Hd2 & ->).
  cbn [mbind option_bind]. fold (reaped pr status). change (cfg (reaped pr status)) with (cfg pr).
  destruct (conclude_settled w _ p pr status a Hi2 Hd2 eq_refl) as (w' & E & Hs & Ec & Eo).
  assert (forall X, X -> X /\ pid pr ∉ dom (children w') /\ (forall f, f ∈ fds pr -> f ∉ open_fds w')) as Hrest.
  { intros X HX. rewrite Ec, Eo. split_and!; [done|done|simpl; set_solver]. }
  rewrite Hm. unfold handled. destruct (exit_callback (cfg pr)), (va_worker a) as [k|];
    try (exists w'; split; [done|by apply Hrest]).
  eexists. split; [done|]. split; [simpl; by rewrite !lookup_insert_eq|]. split; [done|simpl; set_solver].
Qed.

(** A sequence of calls. *)
Fixpoint run (w : manager) (cs : list call) : option manager :=
  match cs with
  | [] => Some w
  | c :: cs => w ← exec w c; run w cs
  end.

Definition demo_fork : fork_answer := ForkAns (Some (10, 11)) (Some (12, 13)) (Some (14, 15)) 100.
Definition demo_start (fl : Z) : call :=
  CStart (StartReq "/bin/x" ["x"] fl "x" false)
    (StartAns (Some 2%positive) (true, [true]) true true true demo_fork).
Definition demo_visit : visit_answer := VisitAns true None (ForkAns None None None (-1)) true.

(** Stopping a process twice (as [avbox_process_shutdown] does with a
    process that is already being stopped) arms a second kill timer and
    forgets the first: when the process has exited and its record is freed,
    the first timer is still armed, and its callback reads the id of the
    process from the freed record. *)
Lemma stop_twice_dangles :
  exists w, run avbox_process_init
      [demo_start 0; CStop 1 true true; CStop 1 true true; CExit 100 0;
       CMonitor (WChild 100 0) (fun _ => demo_visit)] = Some w /\
    procs w !! 2%positive = None /\ (1, Kill 2%positive) ∈ timers w /\
    exec w (CKillTimer 1 2%positive true) = None.
Proof.
  eexists. split; [vm_compute; reflexivity|]. split; [reflexivity|]. split; [left|reflexivity].
Qed.

(** *** Witnesses *)

Definition demo_started : manager := default avbox_process_init (exec avbox_process_init (demo_start 0)).
Definition demo_exited : manager := default avbox_process_init (exec demo_started (CExit 100 0)).

Lemma demo_started_run : rtc step avbox_process_init demo_started.
Proof.
  apply rtc_once, (step_call _ (demo_start 0)); [|vm_compute; reflexivity].
  split; [split; [intros p _; by apply not_elem_of_dom|split_and!]|].
  - by_eval.
  - intros f Hf. split; [|apply not_elem_of_empty]. intros ->. revert Hf. by_eval.
  - right. split; [done|]. by apply not_elem_of_dom.
  - intros Hf. inversion Hf as [? ? Hn|? ? Hc| |]; subst; done.
Qed.

Lemma demo_exited_run : rtc step avbox_process_init demo_exited.
Proof.
  eapply rtc_r; [apply demo_started_run|]. apply (step_call _ (CExit 100 0)); [split|]; [vm_compute; reflexivity| |by vm_compute].
  intros Hf. inversion Hf.
Qed.


Lemma child_exit_handled_witness :
  exists pr w', procs demo_exited !! 2%positive = Some pr /\
    monitor_visit 100 0 demo_visit (with_children demo_exited (delete 100 (children demo_exited))) 2%positive
      = Some w' /\ handled demo_exited w' 2%positive pr 0 demo_visit.
Proof.
  eexists.
  destruct (child_exit_handled demo_exited 2%positive
    (default (new_process 0 (StartReq "" [] 0 "" false) []) (procs demo_exited !! 2%positive)) 0 demo_visit
    demo_exited_run) as (w' & E & Hh & _ & _).
  - vm_compute. left.
  - vm_compute. reflexivity.
  - vm_compute. reflexivity.
  - reflexivity.
  - intros k Hk. discriminate Hk.
  - exists w'. split; [vm_compute; reflexivity|]. split; [exact E|exact Hh].
Defined.

(** ** Further behaviour *)

(** The status of a process killed by a signal is its low byte: the manager
    takes it for a normal exit and AUTORESTART does not restart it. *)
Lemma signal_death_not_restarted pr sig r :
  0 <= sig < 256 -> has (flags (cfg pr)) AVBOX_PROCESS_AUTORESTART_ALWAYS = false ->
  wants_restart (reaped pr sig) r = false.
Proof.
  intros Hs Hf. unfold wants_restart. change (cfg (reaped pr sig)) with (cfg pr). rewrite Hf.
  change (exit_status (reaped pr sig)) with (WEXITSTATUS sig).
  assert (WEXITSTATUS sig = 0) as ->; [|by rewrite andb_false_r].
  unfold WEXITSTATUS. rewrite Z.shiftr_div_pow2, Z.div_small by lia. done.
Qed.

(** [start] reports an id although the fork failed and the process is not
    on the list. *)
Lemma start_reports_failed_fork :
  exists w, avbox_process_start avbox_process_init (StartReq "/bin/x" ["x"] 0 "x" false)
      (StartAns (Some 2%positive) (true, [true]) true true true
         (ForkAns (Some (10, 11)) (Some (12, 13)) (Some (14, 15)) (-1))) = Some (1, w) /\
    process_list w = [].
Proof. eexists. split; [vm_compute; reflexivity|reflexivity]. Qed.

(** [stop] during the restart delay answers 0 and does nothing: the process
    is restarted. *)
Lemma stop_during_delay_ignored :
  exists w w', run avbox_process_init
      [demo_start AVBOX_PROCESS_AUTORESTART_ALWAYS; CExit 100 0;
       CMonitor (WChild 100 0) (fun _ => demo_visit)] = Some w /\
    avbox_process_stop w 1 true true = Some (0, w) /\
    exec w (CRestartTimer 1 2%positive (ForkAns (Some (10, 11)) (Some (12, 13)) (Some (14, 15)) 101)) = Some w' /\
    avbox_process_getpid w' 1 = Some 101.
Proof.
  do 2 eexists. split; [vm_compute; reflexivity|]. split; [vm_compute; reflexivity|].
  split; [vm_compute; reflexivity|]. vm_compute. reflexivity.
Qed.

(** The copy of the arguments is exact, and a failure leaves nothing
    allocated. *)
Lemma clone_args_exact argv arr_ok dup_ok :
  match avbox_process_clone_args argv arr_ok dup_ok with
  | (Some copies, blocks) => copies = argv /\ avbox_process_free_args copies blocks = 0
  | (None, blocks) => blocks = 0
  end.
Proof.
  unfold avbox_process_clone_args. destruct arr_ok; [|done].
  cut (forall argv dup_ok copies blocks, blocks = len copies + 1 ->
    match clone_loop argv dup_ok copies blocks with
    | (Some cs, b) => cs = copies ++ argv /\ b = len cs + 1
    | (None, b) => b = 0
    end).
  { intros H. specialize (H argv dup_ok [] 1 eq_refl). destruct (clone_loop _ _ _ _) as [[cs|] b]; [|done].
    destruct H as [-> ->]. split; [done|]. unfold avbox_process_free_args. lia. }
  clear. intros argv. induction argv as [|x argv IH]; intros dup_ok copies blocks ->; simpl.
  { by rewrite app_nil_r. }
  destruct dup_ok as [|[] dup_ok]; [lia| |lia].
  specialize (IH dup_ok (copies ++ [x]) (len copies + 1 + 1)). rewrite len_app in IH.
  destruct (clone_loop _ _ _ _) as [[cs|] b]; [|by apply IH].
  destruct IH as [-> ->]; [done|]. by rewrite <- app_assoc.
Qed.

Definition single_bit (f : Z) : Prop := forall i j, Z.testbit f i = true -> Z.testbit f j = true -> i = j.

Lemma testbit_shift f i : 0 <= i -> Z.testbit (Z.shiftr f 1) i = Z.testbit f (i + 1).
Proof. intros. by rewrite Z.shiftr_spec. Qed.

Lemma single_bit_even f : Z.testbit f 0 = false -> single_bit (Z.shiftr f 1) <-> single_bit f.
Proof.
  intros H0. split; intros Hs i j Hi Hj.
  - assert (forall k, Z.testbit f k = true -> 0 < k /\ Z.testbit (Z.shiftr f 1) (k - 1) = true) as Hk.
    { intros k Hk. destruct (Z.lt_total k 0) as [Hn|[->|Hp]]; [by rewrite Z.testbit_neg_r in Hk|congruence|].
      split; [done|]. rewrite testbit_shift by lia. by replace (k - 1 + 1) with k by lia. }
    destruct (Hk i Hi), (Hk j Hj). specialize (Hs (i - 1) (j - 1)). lia || (assert (i - 1 = j - 1) by auto; lia).
  - destruct (Z.ltb_spec i 0) as [|?]; [by rewrite Z.testbit_neg_r in Hi|].
    destruct (Z.ltb_spec j 0) as [|?]; [by rewrite Z.testbit_neg_r in Hj|].
    rewrite testbit_shift in Hi, Hj by lia. specialize (Hs _ _ Hi Hj). lia.
Qed.

Lemma checkflags_zero n : checkflags_loop n 0 = inr tt.
Proof. induction n; simpl; auto. Qed.

Lemma checkflags_loop_spec n f :
  0 <= f < 2 ^ Z.of_nat n -> checkflags_loop n f = inr tt <-> single_bit f.
Proof.
  revert f. induction n as [|n IH]; intros f Hf.
  { assert (f = 0) as -> by (simpl in Hf; lia). split; [|done]. intros _ i j Hi. by rewrite Z.bits_0 in Hi. }
  rewrite Nat2Z.inj_succ, Z.pow_succ_r in Hf by lia. cbn [checkflags_loop].
  assert (Z.land f 1 = if Z.testbit f 0 then 1 else 0) as El.
  { change 1 with (Z.ones 1) at 1. rewrite Z.land_ones, Z.bit0_odd, Zmod_odd by lia. done. }
  rewrite El. destruct (Z.testbit f 0) eqn:H0; cbn -[Z.shiftr].
  - destruct (f =? 1) eqn:E1; zify_bool; cbn -[Z.shiftr].
    + subst f. rewrite checkflags_zero. split; [|done]. intros _ i j Hi Hj.
      assert (forall k, Z.testbit 1 k = true -> k = 0) as Hk.
      { intros k Hk. destruct (Z.ltb_spec k 0); [by rewrite Z.testbit_neg_r in Hk|].
        destruct (decide (k = 0)); [done|]. by rewrite (Z.bits_above_log2 1 k) in Hk by (simpl; lia). }
      by rewrite (Hk i Hi), (Hk j Hj).
    + split; [done|]. intros Hs. assert (f <> 0) by (intros ->; done).
      specialize (Hs 0 (Z.log2 f) H0 (Z.bit_log2 f ltac:(lia))).
      assert (1 <= Z.log2 f) by (apply Z.log2_le_pow2; lia). lia.
  - rewrite <- (single_bit_even f H0). apply IH. rewrite Z.shiftr_div_pow2 by lia. change (2 ^ 1) with 2.
    split; [apply Z.div_pos; lia|]. apply Z.div_lt_upper_bound; lia.
Qed.

(** [checkflagsoneof] accepts exactly the flags with at most one bit of the
    group. *)
Lemma checkflagsoneof_spec proc_flags group :
  0 <= Z.land proc_flags group < 2 ^ 32 ->
  avbox_process_checkflagsoneof proc_flags group = inr tt <-> single_bit (Z.land proc_flags group).
Proof.
  intros Hf. unfold avbox_process_checkflagsoneof, has.
  destruct (Z.land proc_flags group =? 0) eqn:E; zify_bool; cbn [negb].
  - rewrite E. split; [|done]. intros _ i j Hi. by rewrite Z.bits_0 in Hi.
  - by apply checkflags_loop_spec.
Qed.
