(* ===== verification/Audio.v ===== *)
(** * The audio stream (src/lib/audio.c)

    A decoder thread writes packets of samples into a queue, an output
    thread feeds them to the sound device and releases them to their
    owner, and the player's control thread pauses, resumes, flushes and
    reads the clock.  Packets live in [heap] and are recycled through
    [packet_pool]; [packets] is the FIFO that [Queue] shows
    [avbox_queue] to implement.  The answers of ALSA and of the allocator
    are arguments; [io] is what the device and the owner's callback have
    been given, in order.

    Each definition is the code between taking and releasing a lock (or
    between two calls that can block); [exec] interleaves them.  [Crash]
    is abort(), an invalid pointer or a NULL handle given to ALSA.  A run
    keeps to the rules of its callers ([contract]) and is followed until
    the first of the listed faults ([fault]). *)

From Stdlib Require Import Floats.SpecFloat.
From S2P Require Import Prelude TimeUtil.

Open Scope avbox_scope.

(** ** Data *)

(** [type] and the union of [struct avbox_audio_packet]. *)
Inductive payload :=
  | DataPkt (n_frames data callback_handle : Z)
  | ClockPkt (value : Z).

(** Given to the device ([Frame], by the address the sample is read from),
    applied to the clock, or handed back to the owner. *)
Inductive event := Frame (addr : Z) | ClockSet (value : Z) | Released (handle : Z).

(** The other calls of the callback. *)
Inductive notice := Underrun | CriticalError.

Inductive snd_pcm_state :=
  | OPEN | SETUP | PREPARED | RUNNING | XRUN | DRAINING | PAUSED | SUSPENDED | DISCONNECTED
  | OTHER_STATE.

Record audiostream := AudioStream {
  pcm_handle : bool;              (* not NULL *)
  quit : bool; paused : bool; running : bool; started : bool;
  max_frames : Z; queued_frames : Z; blocking : bool;
  frames : Z; clock_start : Z; clock_offset : Z; last_audio_time : Z;
  buffer_size : Z; framerate : Z;
  packets : list Z; closed : bool;
  callback : bool;                (* not NULL *)
  packet_pool : list Z;           (* oldest first *)
  heap : gmap Z payload;
  io : list event; notices : list notice
}.

#[export] Instance payload_eq_dec : EqDecision payload.
Proof. solve_decision. Defined.
#[export] Instance event_eq_dec : EqDecision event.
Proof. solve_decision. Defined.

Section updates.
Variable s : audiostream.
Definition set_packets (l : list Z) : audiostream :=
  AudioStream (pcm_handle s) (quit s) (paused s) (running s) (started s) (max_frames s) (queued_frames s)
    (blocking s) (frames s) (clock_start s) (clock_offset s) (last_audio_time s) (buffer_size s)
    (framerate s) l (closed s) (callback s) (packet_pool s) (heap s) (io s) (notices s).
Definition set_pool (l : list Z) : audiostream :=
  AudioStream (pcm_handle s) (quit s) (paused s) (running s) (started s) (max_frames s) (queued_frames s)
    (blocking s) (frames s) (clock_start s) (clock_offset s) (last_audio_time s) (buffer_size s)
    (framerate s) (packets s) (closed s) (callback s) l (heap s) (io s) (notices s).
Definition set_heap (h : gmap Z payload) : audiostream :=
  AudioStream (pcm_handle s) (quit s) (paused s) (running s) (started s) (max_frames s) (queued_frames s)
    (blocking s) (frames s) (clock_start s) (clock_offset s) (last_audio_time s) (buffer_size s)
    (framerate s) (packets s) (closed s) (callback s) (packet_pool s) h (io s) (notices s).
Definition emit (es : list event) : audiostream :=
  AudioStream (pcm_handle s) (quit s) (paused s) (running s) (started s) (max_frames s) (queued_frames s)
    (blocking s) (frames s) (clock_start s) (clock_offset s) (last_audio_time s) (buffer_size s)
    (framerate s) (packets s) (closed s) (callback s) (packet_pool s) (heap s) (io s ++ es) (notices s).
Definition notify (n : notice) : audiostream :=
  AudioStream (pcm_handle s) (quit s) (paused s) (running s) (started s) (max_frames s) (queued_frames s)
    (blocking s) (frames s) (clock_start s) (clock_offset s) (last_audio_time s) (buffer_size s)
    (framerate s) (packets s) (closed s) (callback s) (packet_pool s) (heap s) (io s)
    (if callback s then notices s ++ [n] else notices s).
Definition set_queued (n : Z) : audiostream :=
  AudioStream (pcm_handle s) (quit s) (paused s) (running s) (started s) (max_frames s) n
    (blocking s) (frames s) (clock_start s) (clock_offset s) (last_audio_time s) (buffer_size s)
    (framerate s) (packets s) (closed s) (callback s) (packet_pool s) (heap s) (io s) (notices s).
Definition set_blocking (b : bool) : audiostream :=
  AudioStream (pcm_handle s) (quit s) (paused s) (running s) (started s) (max_frames s) (queued_frames s)
    b (frames s) (clock_start s) (clock_offset s) (last_audio_time s) (buffer_size s)
    (framerate s) (packets s) (closed s) (callback s) (packet_pool s) (heap s) (io s) (notices s).
Definition set_clock (fr start off last : Z) : audiostream :=
  AudioStream (pcm_handle s) (quit s) (paused s) (running s) (started s) (max_frames s) (queued_frames s)
    (blocking s) fr start off last (buffer_size s)
    (framerate s) (packets s) (closed s) (callback s) (packet_pool s) (heap s) (io s) (notices s).
Definition set_paused (b : bool) : audiostream :=
  AudioStream (pcm_handle s) (quit s) b (running s) (started s) (max_frames s) (queued_frames s)
    (blocking s) (frames s) (clock_start s) (clock_offset s) (last_audio_time s) (buffer_size s)
    (framerate s) (packets s) (closed s) (callback s) (packet_pool s) (heap s) (io s) (notices s).
Definition set_thread (handle q run st : bool) : audiostream :=
  AudioStream handle q (paused s) run st (max_frames s) (queued_frames s)
    (blocking s) (frames s) (clock_start s) (clock_offset s) (last_audio_time s) (buffer_size s)
    (framerate s) (packets s) (closed s) (callback s) (packet_pool s) (heap s) (io s) (notices s).
Definition set_device (rate bufsz : Z) : audiostream :=
  AudioStream (pcm_handle s) (quit s) (paused s) (running s) (started s) (max_frames s) (queued_frames s)
    (blocking s) (frames s) (clock_start s) (clock_offset s) (last_audio_time s) bufsz
    rate (packets s) (closed s) (callback s) (packet_pool s) (heap s) (io s) (notices s).
Definition close_queue : audiostream :=
  AudioStream (pcm_handle s) (quit s) (paused s) (running s) (started s) (max_frames s) (queued_frames s)
    (blocking s) (frames s) (clock_start s) (clock_offset s) (last_audio_time s) (buffer_size s)
    (framerate s) (packets s) true (callback s) (packet_pool s) (heap s) (io s) (notices s).
End updates.

(** A step that is done, cannot run yet, or brings the process down. *)
Inductive res (A : Type) := Ok (a : A) | Blocked | Crash.
Arguments Ok {A} a.
Arguments Blocked {A}.
Arguments Crash {A}.

Definition of_option {A} (o : option A) : res A :=
  match o with Some a => Ok a | None => Crash end.

(** ** Packets *)

Definition alloc_packet (inst : audiostream) (mem : option Z) : option (Z * audiostream) :=
  match packet_pool inst with
  | p :: pool => Some (p, set_pool inst pool)
  | [] => match mem with Some p => Some (p, inst) | None => None end
  end.

Definition release_packet (inst : audiostream) (p : Z) : option audiostream :=
  b ← heap inst !! p;
  let inst :=
    match b with
    | DataPkt n d h =>
        if negb (h =? 0) && callback inst
        then set_heap (emit inst [Released h]) (<[p := DataPkt n d 0]> (heap inst))
        else inst
    | ClockPkt _ => inst
    end in
  Some (set_pool inst (packet_pool inst ++ [p])).

(** 16-bit stereo: four bytes per frame, as a [size_t]. *)
Definition avbox_audiostream_frames2size (n : Z) : Z := u64 (u64 n * 4).

(** ** Clock *)

Definition FRAMES2TIME (inst : audiostream) (n : Z) : spec_float :=
  ddiv (dmul (dmul (dbl_of_Z n) (dbl_of_Z 1000)) (dbl_of_Z 1000)) (dbl_of_Z (framerate inst)).

Definition avbox_audiostream_recover (inst : audiostream) (recovered : bool) : bool * audiostream :=
  let inst := set_clock inst (frames inst) (clock_start inst)
                (Z_of_dbl (FRAMES2TIME inst (frames inst))) (-1) in
  if recovered then (true, inst) else (false, notify inst CriticalError).

(** The loop that waits for the device to run dry: it ends at the first
    answer of [snd_pcm_avail] that is an error, zero, or the whole buffer. *)
Fixpoint drain_wait (inst : audiostream) (avails : list Z) : bool :=
  match avails with
  | [] => false
  | a :: avails => if (0 <? a) && (a <? buffer_size inst) then drain_wait inst avails else true
  end.

Record drain_answers := Drain { d_avails : list Z; d_reset : Z; d_prepare : Z }.

Definition avbox_audiostream_pcm_drain (inst : audiostream) (a : drain_answers) : res Z :=
  if negb (pcm_handle inst) then Crash
  else if negb (drain_wait inst (d_avails a)) then Blocked
  else if d_reset a <? 0 then Ok (-1)
  else if d_prepare a <? 0 then Ok (-1)
  else Ok 0.

(** The part of the clock that does not need the device. *)
Definition idle_time (inst : audiostream) : Z :=
  Z_of_dbl (dadd (dbl_of_Z (clock_start inst))
                 (if framerate inst =? 0 then dbl_of_Z 0 else FRAMES2TIME inst (frames inst))).

Definition SEC2USEC (s : Z) : Z := s64 (s64 (s * 1000) * 1000).

(** Answers of [snd_pcm_avail], of [snd_pcm_recover] and of
    [snd_pcm_status] with the two time stamps. *)
Record status_answers := Status {
  st_avail : Z; st_recovered : bool; st_status : option snd_pcm_state;
  st_tstamp : timeval; st_trigger : timeval }.

Definition avbox_audiostream_gettime (inst : audiostream) (a : status_answers) :
    res (Z * audiostream) :=
  if negb (pcm_handle inst) then Ok (idle_time inst, inst)
  else if paused inst || (frames inst =? 0) then Ok (idle_time inst, inst)
  else if st_avail a <? 0 then
    let '(ok, inst) := avbox_audiostream_recover inst (st_recovered a) in
    if ok then Ok (idle_time inst, inst) else Crash
  else match st_status a with
  | None => Ok (idle_time inst, inst)
  | Some RUNNING | Some DRAINING =>
      let time := s64 (clock_start inst + clock_offset inst) in
      let time := s64 (time + s64 (SEC2USEC (tval_sec (st_tstamp a)) + tval_usec (st_tstamp a))) in
      let time := s64 (time - s64 (SEC2USEC (tval_sec (st_trigger a)) + tval_usec (st_trigger a))) in
      Ok (time, inst)
  | Some OTHER_STATE => Crash
  | Some _ => Ok (idle_time inst, inst)
  end.

(** ** Control *)

Definition forget_time (inst : audiostream) : audiostream :=
  set_clock inst (frames inst) (clock_start inst) (clock_offset inst) (-1).

Definition avbox_audiostream_pause (inst : audiostream) (a : status_answers) (d : drain_answers) :
    res (Z * audiostream) :=
  if negb (pcm_handle inst) then Ok (0, set_paused inst true)
  else if st_avail a <? 0 then
    let '(ok, inst) := avbox_audiostream_recover inst (st_recovered a) in
    if ok then Ok (-1, forget_time (set_paused inst true)) else Crash
  else match st_status a with
  | None => Ok (-1, forget_time inst)
  | Some OPEN | Some SETUP | Some PREPARED | Some XRUN =>
      Ok (0, forget_time (set_paused inst true))
  | Some RUNNING =>
      match avbox_audiostream_pcm_drain (set_paused inst true) d with
      | Ok _ =>
          let inst := set_paused inst true in
          Ok (0, forget_time (set_clock inst (frames inst) (clock_start inst)
                   (Z_of_dbl (FRAMES2TIME inst (frames inst))) (last_audio_time inst)))
      | Blocked => Blocked
      | Crash => Crash
      end
  | Some SUSPENDED | Some PAUSED | Some DISCONNECTED | Some DRAINING => Crash
  | Some OTHER_STATE => Ok (-1, forget_time inst)
  end.

Definition avbox_audiostream_resume (inst : audiostream) : Z * audiostream :=
  if negb (paused inst) then (-1, inst)
  else (0, forget_time (set_paused inst false)).

(** The loop of [__avbox_audiostream_drop], on the packets queued when the
    flush holds the queue. *)
Fixpoint drop_loop (inst : audiostream) (l : list Z) : option audiostream :=
  match l with
  | [] => Some inst
  | p :: l =>
      let inst := set_packets inst l in
      b ← heap inst !! p;
      let inst := match b with
                  | DataPkt n _ _ => set_queued inst (s32 (u64 (queued_frames inst - n)))
                  | ClockPkt _ => inst
                  end in
      inst ← release_packet inst p;
      drop_loop inst l
  end.

Definition __avbox_audiostream_drop (inst : audiostream) : option audiostream :=
  drop_loop inst (packets inst).

Definition avbox_audiostream_drop (inst : audiostream) (d : drain_answers) : res audiostream :=
  match avbox_audiostream_pcm_drain inst d with
  | Ok _ => of_option (__avbox_audiostream_drop inst)
  | Blocked => Blocked
  | Crash => Crash
  end.

Definition avbox_audiostream_blocking (inst : audiostream) : bool := blocking inst.
Definition avbox_audiostream_count (inst : audiostream) : Z := u32 (len (packets inst)).
Definition avbox_audiostream_size (inst : audiostream) : Z := u32 (queued_frames inst).
Definition avbox_audiostream_ispaused (inst : audiostream) : bool := paused inst.

(** [avbox_audiostream_drain] polls until the queue is empty, then pauses. *)
Definition avbox_audiostream_drain (inst : audiostream) (a : status_answers) (d : drain_answers) :
    res (Z * audiostream) :=
  if negb (len (packets inst) =? 0) then Blocked
  else avbox_audiostream_pause inst a d.

Definition avbox_audiostream_new (max : Z) (cb : bool) (mem queue_mem prims : bool) :
    option audiostream :=
  if negb mem then None
  else if negb queue_mem then None
  else if negb prims then None
  else Some (AudioStream false false false false false max 0 false 0 0 0 (-1) 0 0 [] false cb [] ∅ [] []).

(** ** The writer *)

Inductive wphase :=
  | WIdle
  | WBlocked (data n handle : Z) (signalled : bool)  (* in pthread_cond_wait *)
  | WPut (p : Z).                                    (* about to queue [p] *)

(** What a call of the writer returned, when it did. *)
Inductive wret := WPending | WRet (r : result unit).

(** Allocate the packet and count its frames (still under queue_lock),
    then fill it in. *)
Definition write_commit (inst : audiostream) (data n handle : Z) (mem : option Z) :
    wret * wphase * audiostream :=
  match alloc_packet inst mem with
  | None => (WRet (inl ENOMEM), WIdle, inst)
  | Some (p, inst) =>
      let inst := set_queued inst (s32 (u64 (queued_frames inst + n))) in
      (WPending, WPut p, set_heap inst (<[p := DataPkt n data handle]> (heap inst)))
  end.

Definition avbox_audiostream_write (inst : audiostream) (data n handle : Z) (mem : option Z) :
    wret * wphase * audiostream :=
  if n =? 0 then (WRet (inr ()), WIdle, inst)
  else if max_frames inst <? queued_frames inst
  then (WPending, WBlocked data n handle false, set_blocking inst true)
  else write_commit inst data n handle mem.

(** After the wait: full is EAGAIN, otherwise go on. *)
Definition write_wake (inst : audiostream) (data n handle : Z) (mem : option Z) :
    wret * wphase * audiostream :=
  let inst := set_blocking inst false in
  if max_frames inst <? queued_frames inst
  then (WRet (inl EAGAIN), WIdle, inst)
  else write_commit inst data n handle mem.

(** [avbox_queue_put] on the unbounded queue only fails for want of a node. *)
Definition write_put (inst : audiostream) (p : Z) (node : bool) : option (wret * audiostream) :=
  if node then Some (WRet (inr ()), set_packets inst (packets inst ++ [p]))
  else inst ← release_packet inst p; Some (WRet (inl ENOMEM), inst).

Definition avbox_audiostream_setclock (inst : audiostream) (time : Z) (mem : option Z) :
    wret * wphase * audiostream :=
  match alloc_packet inst mem with
  | None => (WRet (inl ENOMEM), WIdle, inst)
  | Some (p, inst) => (WPending, WPut p, set_heap inst (<[p := ClockPkt time]> (heap inst)))
  end.

(** ** The output thread *)

Inductive ophase :=
  | ONone                       (* not created *)
  | OInit
  | OTop (underrun : bool)      (* head of the loop *)
  | OTimed (timeout : Z)        (* in avbox_queue_timedpeek *)
  | OIdle                       (* timedpeek gave EAGAIN *)
  | OHave (p : Z)               (* peeked [p] *)
  | OClock (p : Z)              (* clock of [p] applied, about to get it *)
  | OReady (p n_frames : Z)     (* about to take io_lock and write *)
  | OPaused                     (* waits for io_wake *)
  | OWrote (p written : Z)      (* released io_lock after the write *)
  | OCheck (p : Z)              (* queued_frames updated *)
  | OEnd | OExited
  | OStuck.                     (* blocked on io_lock, which it holds *)

(** The device calls of the start-up whose failure ends the thread. *)
Inductive setup_call :=
  | hw_params_any | hw_params_set_access | hw_params_set_format | hw_params_set_channels
  | hw_params_set_rate_near | hw_params_set_period_size_near | hw_params
  | sw_params_current | sw_params_set_tstamp_type | sw_params_set_avail_min
  | sw_params_set_start_threshold | sw_params.

Definition setup_calls : list setup_call :=
  [hw_params_any; hw_params_set_access; hw_params_set_format; hw_params_set_channels;
   hw_params_set_rate_near; hw_params_set_period_size_near; hw_params;
   sw_params_current; sw_params_set_tstamp_type; sw_params_set_avail_min;
   sw_params_set_start_threshold; sw_params].

(** [rate] and [bufsz] are what the device reports. *)
Definition output_init (inst : audiostream) (open : Z) (ans : setup_call -> Z) (rate bufsz : Z) :
    ophase * audiostream :=
  let inst := set_device inst 48000 (buffer_size inst) in
  if open <? 0 then (OEnd, inst)
  else
    let inst := set_thread inst true (quit inst) (running inst) (started inst) in
    if forallb (fun c => negb (ans c <? 0)) setup_calls then
      let inst := set_device inst rate bufsz in
      (OTop true, set_thread inst true (quit inst) true (started inst))
    else (OEnd, inst).

(** The head of the loop while the device is playing: how long until it
    runs dry. *)
Definition output_avail (inst : audiostream) (avail : Z) (recovered : bool) : ophase * audiostream :=
  if avail <? 0 then
    let '(ok, inst) := avbox_audiostream_recover inst recovered in
    ((if ok then OTop false else OEnd), inst)
  else (OTimed (Z_of_dbl (FRAMES2TIME inst (u64 (buffer_size inst - avail)))), inst).

(** A blocking peek: the oldest packet; on an empty queue ESHUTDOWN when it
    is closed, EAGAIN when the thread is woken ([woken]: by the deadline, by
    [avbox_queue_close], or for no reason). *)
Definition queue_peek_block (inst : audiostream) (woken : bool) : option (result Z) :=
  match packets inst with
  | p :: _ => Some (inr p)
  | [] => if woken then Some (inl EAGAIN) else if closed inst then Some (inl ESHUTDOWN) else None
  end.

Definition output_timedpeek (inst : audiostream) (woken : bool) : option ophase :=
  match queue_peek_block inst woken with
  | None => None
  | Some (inr p) => Some (OHave p)
  | Some (inl EAGAIN) => Some OIdle
  | Some (inl _) => Some OEnd
  end.

Definition output_peek (inst : audiostream) (woken : bool) : option ophase :=
  match queue_peek_block inst woken with
  | None => None
  | Some (inr p) => Some (OHave p)
  | Some (inl EAGAIN) => Some (OTop true)
  | Some (inl _) => Some OEnd
  end.

(** The queue stayed empty: has the device run dry? *)
Definition output_idle (inst : audiostream) (avail : Z) (recovered : bool) (state : snd_pcm_state) :
    ophase * audiostream :=
  let '(ok, inst) := if avail <? 0 then avbox_audiostream_recover inst recovered else (true, inst) in
  if negb ok then (OStuck, inst)
  else if (frames inst =? 0) ||
          match state with RUNNING | PAUSED | SUSPENDED => true | _ => false end
  then (OTop false, inst)
  else (OTop true, notify inst Underrun).

(** Answers used between the peek and the write. *)
Record wait_answers := Wait {
  w_avail_min : Z; w_avail : Z; w_wait : Z; w_recovered : bool; w_drain : drain_answers }.

(** A control packet is applied; of a data packet at most a period is
    written, once the device has room for it. *)
Definition output_packet (inst : audiostream) (period : Z) (p : Z) (a : wait_answers) :
    res (ophase * audiostream) :=
  match heap inst !! p with
  | None => Crash
  | Some (ClockPkt v) =>
      match avbox_audiostream_pcm_drain inst (w_drain a) with
      | Ok _ => Ok (OClock p, emit (set_clock inst 0 v 0 (last_audio_time inst)) [ClockSet v])
      | Blocked => Blocked
      | Crash => Crash
      end
  | Some (DataPkt n _ _) =>
      let n_frames := Z.min period n in
      if w_avail_min a <? 0 then Ok (OEnd, inst)
      else if SFeqb (dbl_of_Z (clock_offset inst)) (FRAMES2TIME inst (frames inst))
      then Ok (OReady p n_frames, inst)
      else if (0 <? w_avail a) && (w_avail a <? n_frames) then
        Ok ((if w_wait a =? 0 then OTop false else OReady p n_frames), inst)
      else if w_avail a <? 0 then
        let '(ok, inst) := avbox_audiostream_recover inst (w_recovered a) in
        Ok ((if ok then OTop false else OEnd), inst)
      else Ok (OReady p n_frames, inst)
  end.

(** [avbox_queue_get] must return the packet that was peeked; an empty
    queue blocks unless it is closed. *)
Definition get_and_release (inst : audiostream) (p : Z) : res audiostream :=
  match packets inst with
  | q :: l => if q =? p then of_option (release_packet (set_packets inst l) p) else Crash
  | [] => if closed inst then Crash else Blocked
  end.

(** The addresses of [n] frames from [data]. *)
Fixpoint frames_at (data : Z) (n : nat) : list event :=
  match n with
  | O => []
  | S n => Frame data :: frames_at (data + 4) n
  end.

(** The section under io_lock: [r] is the answer of [snd_pcm_writei]. *)
Definition output_write (inst : audiostream) (p n_frames r : Z) (recovered : bool) :
    res (ophase * audiostream) :=
  if quit inst then Ok (OEnd, inst)
  else if paused inst then Ok (OPaused, inst)
  else if negb (bool_decide (head (packets inst) = Some p)) then Ok (OTop false, inst)
  else match heap inst !! p with
  | Some (DataPkt n data h) =>
      let '(ok, inst) := if r <? 0 then avbox_audiostream_recover inst recovered
                         else (true, emit inst (frames_at data (Z.to_nat r))) in
      if negb ok then Ok (OEnd, inst)
      else
        let inst := set_clock inst (s64 (frames inst + r)) (clock_start inst) (clock_offset inst)
                      (last_audio_time inst) in
        let b := DataPkt (u64 (n - r)) (u64 (data + avbox_audiostream_frames2size r)) h in
        Ok (OWrote p r, set_heap inst (<[p := b]> (heap inst)))
  | _ => Crash
  end.

(** The queue statistics, under queue_lock. *)
Definition output_count (inst : audiostream) (r : Z) : audiostream :=
  set_queued inst (s32 (queued_frames inst - r)).

(** A packet that is played out leaves the queue. *)
Definition output_finish (inst : audiostream) (p : Z) : res audiostream :=
  match heap inst !! p with
  | Some (DataPkt n _ _) => if n =? 0 then get_and_release inst p else Ok inst
  | _ => Crash
  end.

Definition output_end (inst : audiostream) : audiostream :=
  set_thread inst false (quit inst) false (started inst).

(** ** Start and destruction *)

(** Up to the wait for the thread ([true]: created it). *)
Definition avbox_audiostream_start (inst : audiostream) : result bool :=
  if started inst then inl EEXIST else inr true.

(** After the wait: [started] is set whatever happened. *)
Definition start_finish (inst : audiostream) : Z * audiostream :=
  ((if running inst then 0 else -1),
   set_thread inst (pcm_handle inst) (quit inst) (running inst) true).

Definition destroy_begin (inst : audiostream) (d : drain_answers) : res audiostream :=
  match avbox_audiostream_drop inst d with
  | Ok inst =>
      if running inst
      then Ok (close_queue (set_thread inst (pcm_handle inst) true (running inst) (started inst)))
      else Ok inst
  | Blocked => Blocked
  | Crash => Crash
  end.

(** After the join: the pool is freed; what is left in [heap] is leaked. *)
Definition avbox_audiostream_destroy (inst : audiostream) : gmap Z payload :=
  foldr (fun p h => delete p h) (heap inst) (packet_pool inst).

(** ** Interleavings *)

(** [lost] is not in the code: the frames counted for packets that could
    not be queued. *)
Record system := System {
  inst : audiostream; out : ophase; wr : wphase; period : Z; lost : Z }.

Inductive action :=
  (* the decoder thread *)
  | AWrite (data n handle : Z) (mem : option Z)
  | ASetClock (time : Z) (mem : option Z)
  | AWake (spurious : bool) (mem : option Z)
  | APut (node : bool)
  (* the control thread *)
  | AStart | AStarted
  | APause (a : status_answers) (d : drain_answers)
  | AResume
  | ADrop (d : drain_answers)
  | AGetTime (a : status_answers)
  | ADestroy (d : drain_answers)
  (* the output thread *)
  | AInit (open : Z) (ans : setup_call -> Z) (rate bufsz : Z)
  | AAvail (avail : Z) (recovered : bool)
  | APeek (woken : bool)
  | AIdle (avail : Z) (recovered : bool) (state : snd_pcm_state)
  | APacket (a : wait_answers)
  | AClockGet
  | AOutput (r : Z) (recovered : bool)
  | AUnpause
  | ACount
  | AFinish
  | AEnd.

(** pthread_cond_signal(&queue_wake) *)
Definition signal (w : wphase) : wphase :=
  match w with WBlocked d n h _ => WBlocked d n h true | _ => w end.

Definition with_inst (s : system) (i : audiostream) : system :=
  System i (out s) (wr s) (period s) (lost s).

Definition with_writer (s : system) (r : wret * wphase * audiostream) : system :=
  System (snd r) (out s) (snd (fst r)) (period s) (lost s).

Definition with_output (s : system) (r : ophase * audiostream) : system :=
  System (snd r) (fst r) (wr s) (period s) (lost s).

Definition res_map {A B} (f : A -> B) (r : res A) : res B :=
  match r with Ok a => Ok (f a) | Blocked => Blocked | Crash => Crash end.

Definition res_of_block {A} (o : option A) : res A :=
  match o with Some a => Ok a | None => Blocked end.

Definition put_packet (s : system) (p : Z) (node : bool) : option system :=
  r ← write_put (inst s) p node;
  let n := match heap (inst s) !! p with Some (DataPkt n _ _) => n | _ => 0 end in
  Some (System (snd r) (out s) WIdle (period s) (if node then lost s else lost s + n)).

Definition exec (a : action) (s : system) : res system :=
  let i := inst s in
  match a with
  | AWrite d n h mem =>
      match wr s with
      | WIdle => Ok (with_writer s (avbox_audiostream_write i d n h mem)) | _ => Blocked end
  | ASetClock t mem =>
      match wr s with WIdle => Ok (with_writer s (avbox_audiostream_setclock i t mem)) | _ => Blocked end
  | AWake spurious mem =>
      match wr s with
      | WBlocked d n h sg =>
          if spurious || sg then Ok (with_writer s (write_wake i d n h mem)) else Blocked
      | _ => Blocked
      end
  | APut node => match wr s with WPut p => of_option (put_packet s p node) | _ => Blocked end
  | AStart =>
      match avbox_audiostream_start i, out s with
      | inr _, ONone => Ok (with_output s (OInit, i))
      | inl _, _ => Ok s
      | _, _ => Blocked
      end
  | AStarted =>
      match out s with ONone | OInit => Blocked | _ => Ok (with_inst s (snd (start_finish i))) end
  | APause a d => res_map (fun r => with_inst s (snd r)) (avbox_audiostream_pause i a d)
  | AResume => Ok (with_inst s (snd (avbox_audiostream_resume i)))
  | ADrop d => res_map (with_inst s) (avbox_audiostream_drop i d)
  | AGetTime a => res_map (fun r => with_inst s (snd r)) (avbox_audiostream_gettime i a)
  | ADestroy d => res_map (with_inst s) (destroy_begin i d)
  | AInit o ans rate bufsz =>
      match out s with OInit => Ok (with_output s (output_init i o ans rate bufsz)) | _ => Blocked end
  | AAvail avail rec =>
      match out s with OTop false => Ok (with_output s (output_avail i avail rec)) | _ => Blocked end
  | APeek woken =>
      match out s with
      | OTop true => res_map (fun o => with_output s (o, i)) (res_of_block (output_peek i woken))
      | OTimed _ => res_map (fun o => with_output s (o, i)) (res_of_block (output_timedpeek i woken))
      | _ => Blocked
      end
  | AIdle avail rec st =>
      match out s with OIdle => Ok (with_output s (output_idle i avail rec st)) | _ => Blocked end
  | APacket a =>
      match out s with
      | OHave p => res_map (with_output s) (output_packet i (period s) p a) | _ => Blocked end
  | AClockGet =>
      match out s with
      | OClock p => res_map (fun i => with_output s (OTop false, i)) (get_and_release i p)
      | _ => Blocked
      end
  | AOutput r rec =>
      match out s with
      | OReady p n => res_map (with_output s) (output_write i p n r rec) | _ => Blocked end
  | AUnpause => match out s with OPaused => Ok (with_output s (OTop false, i)) | _ => Blocked end
  | ACount =>
      match out s with
      | OWrote p r => Ok (System (output_count i r) (OCheck p) (signal (wr s)) (period s) (lost s))
      | _ => Blocked
      end
  | AFinish =>
      match out s with
      | OCheck p => res_map (fun i => with_output s (OTop false, i)) (output_finish i p)
      | _ => Blocked
      end
  | AEnd =>
      match out s with
      | OEnd => Ok (System (output_end i) OExited (signal (wr s)) (period s) (lost s)) | _ => Blocked end
  end.

(** A run of the three threads. *)
Inductive step : system -> system -> Prop :=
  | step_exec a s s' : exec a s = Ok s' -> step s s'.

Definition initial (max per : Z) (cb : bool) : system :=
  System (AudioStream false false false false false max 0 false 0 0 0 (-1) 0 0 [] false cb [] ∅ [] [])
    ONone WIdle per 0.

Lemma initial_new max per cb :
  avbox_audiostream_new max cb true true true = Some (inst (initial max per cb)).
Proof. reflexivity. Qed.

(** ** Specification: a tape

    [todo] is what has been accepted and not yet played, [call] the packet
    of the call in progress.  Playing moves events from [todo] to [done]
    in order; a flush discards the samples and clock changes of [todo] and
    hands its packets back. *)

Definition contents (cb : bool) (b : option payload) : list event :=
  match b with
  | Some (DataPkt n d h) =>
      frames_at d (Z.to_nat n) ++ (if negb (h =? 0) && cb then [Released h] else [])
  | Some (ClockPkt v) => [ClockSet v]
  | None => []
  end.

Definition is_release (e : event) : bool :=
  match e with Released _ => true | _ => false end.

Record tape := Tape { done : list event; todo : list event; call : option payload }.

Section tape.
Variable cb : bool.

(** The tape's answer to each action of the program. *)
Inductive tape_step : action -> tape -> tape -> Prop :=
  | tape_write d n h mem ds ts :
      tape_step (AWrite d n h mem) (Tape ds ts None) (Tape ds ts (Some (DataPkt n d h)))
  | tape_setclock v mem ds ts :
      tape_step (ASetClock v mem) (Tape ds ts None) (Tape ds ts (Some (ClockPkt v)))
  | tape_refuse a ds ts c :
      match a with AWrite _ _ _ _ | ASetClock _ _ | AWake _ _ => True | _ => False end ->
      tape_step a (Tape ds ts c) (Tape ds ts None)
  | tape_wake sp mem t : tape_step (AWake sp mem) t t
  | tape_accept ds ts b :
      tape_step (APut true) (Tape ds ts (Some b)) (Tape ds (ts ++ contents cb (Some b)) None)
  | tape_reject ds ts b :
      tape_step (APut false) (Tape ds ts (Some b))
        (Tape (ds ++ List.filter is_release (contents cb (Some b))) ts None)
  | tape_flush a ds ts c :
      match a with ADrop _ | ADestroy _ => True | _ => False end ->
      tape_step a (Tape ds ts c) (Tape (ds ++ List.filter is_release ts) [] c)
  | tape_play a ds es ts c :
      match a with APacket _ | AClockGet | AOutput _ _ | AFinish => True | _ => False end ->
      tape_step a (Tape ds (es ++ ts) c) (Tape (ds ++ es) ts c)
  | tape_silent a t :
      match a with
      | AStart | AStarted | APause _ _ | AResume | AGetTime _ | AInit _ _ _ _ | AAvail _ _
      | APeek _ | AIdle _ _ _ | AUnpause | ACount | AEnd => True
      | _ => False
      end -> tape_step a t t.

Inductive tape_run : list action -> tape -> tape -> Prop :=
  | tape_nil t : tape_run [] t t
  | tape_snoc acts a t u v : tape_run acts t u -> tape_step a u v -> tape_run (acts ++ [a]) t v.
End tape.

(** What is queued, as events; a clock packet that has been applied and
    not yet removed no longer counts. *)
Definition evs (cb : bool) (h : gmap Z payload) (l : list Z) : list event :=
  concat (map (fun p => contents cb (h !! p)) l).

Definition remaining (s : system) : list event :=
  let es := evs (callback (inst s)) (heap (inst s)) (packets (inst s)) in
  match out s with OClock _ => tail es | _ => es end.

(** The packet of the call in progress. *)
Definition call_of (s : system) : option payload :=
  match wr s with
  | WIdle => None
  | WBlocked d n h _ => Some (DataPkt n d h)
  | WPut p => heap (inst s) !! p
  end.

(** The events a state stands for. *)
Definition abs (s : system) : tape := Tape (io (inst s)) (remaining s) (call_of s).

(** ** Runs

    What the callers and the system promise ([contract]): buffers lie in the
    address space and are no longer than [maxn] frames, malloc gives fresh
    memory, and a write of the device takes no more than it was given.  What
    the code is not prepared for is listed by [fault]. *)

Section runs.
Variable maxn : Z.

Definition fresh (s : system) (mem : option Z) : Prop :=
  match mem with Some p => heap (inst s) !! p = None | None => True end.

Definition healthy (a : status_answers) : Prop :=
  (st_avail a < 0 -> st_recovered a = true) /\
  match st_status a with
  | Some SUSPENDED | Some PAUSED | Some DISCONNECTED | Some DRAINING | Some OTHER_STATE => False
  | _ => True
  end.

Definition holds_none (o : ophase) : bool :=
  match o with OTop _ | OTimed _ | OIdle | OPaused => true | _ => false end.

Definition data_at (h : gmap Z payload) (p m : Z) : Prop :=
  exists n d c, h !! p = Some (DataPkt n d c) /\ m <= n.

Definition clock_at (h : gmap Z payload) (p : Z) : Prop := exists v, h !! p = Some (ClockPkt v).

Definition contract (s : system) (a : action) : Prop :=
  match a with
  | AWrite d n h mem => 0 <= d /\ 0 <= n <= maxn /\ d + 4 * n < 2 ^ 64 /\ fresh s mem
  | ASetClock _ mem | AWake _ mem => fresh s mem
  | AOutput r _ => match out s with OReady p n => r <= n | _ => True end
  | _ => True
  end.

Definition flushes (a : action) : bool := match a with ADrop _ | ADestroy _ => true | _ => false end.

(** The output thread has played something of a packet that is still in the
    queue, or sits on the lock. *)
Definition past_write (o : ophase) : bool :=
  match o with OClock _ | OWrote _ _ | OCheck _ | OStuck => true | _ => false end.

(** A flush while the device is closed; a flush between the moment a packet
    is played and the moment it is taken from the queue; a pause or a clock
    reading in a state of the device that cannot be recovered or is not
    expected; a failing write the device recovers from; and two ways of
    mistaking a packet that was flushed and used again for the one that was
    peeked at: as a chunk that is too long for it, or as a clock packet that
    is not the next one. *)
Inductive fault (s : system) : action -> Prop :=
  | FlushClosed a : flushes a = true -> pcm_handle (inst s) = false -> fault s a
  | FlushPlayed a : flushes a = true -> past_write (out s) = true -> fault s a
  | PauseState st d : ~ healthy st -> fault s (APause st d)
  | TimeState st : ~ healthy st -> fault s (AGetTime st)
  | WriteRecovered p n r : out s = OReady p n -> r < 0 -> fault s (AOutput r true)
  | ChunkReused p n r rec :
      out s = OReady p n -> head (packets (inst s)) = Some p -> ~ data_at (heap (inst s)) p n ->
      fault s (AOutput r rec)
  | ClockReused p st :
      out s = OHave p -> clock_at (heap (inst s)) p -> head (packets (inst s)) <> Some p -> fault s (APacket st).

Definition legal (s : system) (a : action) : Prop := contract s a /\ ~ fault s a.

Inductive legal_run : list action -> system -> system -> Prop :=
  | legal_nil s : legal_run [] s s
  | legal_snoc acts a s u v :
      legal_run acts s u -> legal u a -> exec a u = Ok v -> legal_run (acts ++ [a]) s v.

(** ** Invariant *)

Definition body_ok (b : payload) : Prop :=
  match b with
  | DataPkt n d _ => 0 <= n <= maxn /\ 0 <= d /\ d + 4 * n < 2 ^ 64
  | ClockPkt _ => True
  end.

Definition ok_at (h : gmap Z payload) (p : Z) : Prop := exists b, h !! p = Some b /\ body_ok b.

Definition pkt_frames (b : option payload) : Z :=
  match b with Some (DataPkt n _ _) => n | _ => 0 end.

Fixpoint total (h : gmap Z payload) (l : list Z) : Z :=
  match l with [] => 0 | p :: l => pkt_frames (h !! p) + total h l end.

Definition held (w : wphase) : list Z := match w with WPut p => [p] | _ => [] end.

(** Frames written to the device and not yet subtracted. *)
Definition owed (o : ophase) : Z := match o with OWrote _ r => r | _ => 0 end.

Definition wf (pk pool hd : list Z) (h : gmap Z payload) : Prop :=
  NoDup (pk ++ pool ++ hd) /\ (forall p, is_Some (h !! p) <-> p ∈ pk ++ pool ++ hd) /\
  (forall p, p ∈ pk ++ hd -> ok_at h p).

Definition writer_ok (w : wphase) : Prop :=
  match w with WBlocked d n h _ => body_ok (DataPkt n d h) | _ => True end.

Definition output_ok (o : ophase) (i : audiostream) : Prop :=
  let hd p := head (packets i) = Some p in
  match o with
  | OTop _ | OTimed _ | OIdle | OPaused => pcm_handle i = true
  | OHave p => pcm_handle i = true /\ is_Some (heap i !! p)
  | OReady _ _ => pcm_handle i = true
  | OClock p => pcm_handle i = true /\ hd p /\ clock_at (heap i) p
  | OWrote p r => pcm_handle i = true /\ hd p /\ 0 <= r /\ data_at (heap i) p 0
  | OCheck p => pcm_handle i = true /\ hd p /\ data_at (heap i) p 0
  | _ => True
  end.

Definition counts (s : system) : Prop :=
  queued_frames (inst s) =
    total (heap (inst s)) (packets (inst s)) + total (heap (inst s)) (held (wr s)) +
    owed (out s) + lost s /\
  0 <= lost s /\ 0 <= max_frames (inst s) /\ max_frames (inst s) + maxn < 2 ^ 31 /\
  queued_frames (inst s) <= max_frames (inst s) + maxn.

Definition inv (s : system) : Prop :=
  wf (packets (inst s)) (packet_pool (inst s)) (held (wr s)) (heap (inst s)) /\
  writer_ok (wr s) /\ output_ok (out s) (inst s) /\ counts s.

(** ** Faults are decidable *)

#[local] Instance healthy_dec st : Decision (healthy st).
Proof.
  unfold healthy. destruct (st_status st) as [[]|]; first [apply _ | right; by intros [_ []] | idtac].
Defined.

#[local] Instance data_at_dec h p m : Decision (data_at h p m).
Proof.
  destruct (h !! p) as [[n d c|v]|] eqn:E.
  - destruct (decide (m <= n)); [left; by exists n, d, c|right; intros (? & ? & ? & ? & ?); by simplify_eq].
  - right. intros (? & ? & ? & ? & ?). by simplify_eq.
  - right. intros (? & ? & ? & ? & ?). by simplify_eq.
Defined.

#[local] Instance clock_at_dec h p : Decision (clock_at h p).
Proof.
  destruct (h !! p) as [[n d c|v]|] eqn:E; [right| |right]; [|left; by exists v|]; intros (? & ?); by simplify_eq.
Defined.

Definition faulty_b (s : system) (a : action) : bool :=
  let hd p := bool_decide (head (packets (inst s)) = Some p) in
  match a with
  | ADrop _ | ADestroy _ => negb (pcm_handle (inst s)) || past_write (out s)
  | APause st _ | AGetTime st => negb (bool_decide (healthy st))
  | AOutput r rec =>
      match out s with
      | OReady p n => ((r <? 0) && rec) || (hd p && negb (bool_decide (data_at (heap (inst s)) p n)))
      | _ => false
      end
  | APacket _ =>
      match out s with OHave p => bool_decide (clock_at (heap (inst s)) p) && negb (hd p) | _ => false end
  | _ => false
  end.

Lemma audio_fault_spec s a : faulty_b s a = true <-> fault s a.
Proof.
  unfold faulty_b. split.
  - destruct a; try done.
    + intros H%negb_true_iff%bool_decide_eq_false. by apply PauseState.
    + intros [H%negb_true_iff|H]%orb_true_iff; [by apply FlushClosed|by apply FlushPlayed].
    + intros H%negb_true_iff%bool_decide_eq_false. by apply TimeState.
    + intros [H%negb_true_iff|H]%orb_true_iff; [by apply FlushClosed|by apply FlushPlayed].
    + destruct (out s) as [| | | | |p| | | | | | | |] eqn:Eo; try done.
      intros [Hc%bool_decide_eq_true Hh%negb_true_iff%bool_decide_eq_false]%andb_true_iff. by apply (ClockReused _ p).
    + destruct (out s) as [| | | | | | |p n| | | | | |] eqn:Eo; try done.
      intros [[Hr%Z.ltb_lt ->]%andb_true_iff|[Hh%bool_decide_eq_true Hd%negb_true_iff%bool_decide_eq_false]%andb_true_iff]%orb_true_iff;
        [by eapply WriteRecovered|by eapply ChunkReused].
  - intros [a' Hf Hp|a' Hf Hp|st d Hh|st Hh|p n r Eo Hr|p n r rec Eo Hh Hd|p st Eo Hc Hh].
    + destruct a'; try done; by rewrite Hp.
    + destruct a'; try done; by rewrite Hp, orb_true_r.
    + by rewrite bool_decide_false.
    + by rewrite bool_decide_false.
    + rewrite Eo. by apply Z.ltb_lt in Hr as ->.
    + rewrite Eo, bool_decide_true, bool_decide_false by done. by rewrite orb_true_r.
    + rewrite Eo, bool_decide_true, bool_decide_false by done. done.
Qed.

Lemma audio_fault_or_not s a : fault s a \/ ~ fault s a.
Proof. rewrite <- audio_fault_spec. destruct (faulty_b s a); [by left|by right]. Qed.

(** ** Lemmas on packets *)

Lemma evs_app cb h l k : evs cb h (l ++ k) = evs cb h l ++ evs cb h k.
Proof. unfold evs. by rewrite map_app, concat_app. Qed.

Lemma evs_one cb h p : evs cb h [p] = contents cb (h !! p).
Proof. apply app_nil_r. Qed.

Lemma evs_cons cb h p l : evs cb h (p :: l) = contents cb (h !! p) ++ evs cb h l.
Proof. done. Qed.

Lemma total_app h l k : total h (l ++ k) = total h l + total h k.
Proof. induction l as [|p l IH]; simpl; lia. Qed.

Lemma evs_insert cb h l p b : p ∉ l -> evs cb (<[p := b]> h) l = evs cb h l.
Proof.
  intros Hp. unfold evs. f_equal. apply map_ext_in. intros q Hq.
  rewrite lookup_insert_ne; [done|]. intros <-. apply Hp. by apply list_elem_of_In.
Qed.

Lemma total_insert h l p b : p ∉ l -> total (<[p := b]> h) l = total h l.
Proof.
  induction l as [|q l IH]; intros Hp; [done|]. cbn [total].
  rewrite lookup_insert_ne by set_solver. rewrite IH by set_solver. done.
Qed.

Lemma total_nonneg h l : (forall p, p ∈ l -> ok_at h p) -> 0 <= total h l.
Proof.
  induction l as [|p l IH]; intros Hl; cbn [total]; [lia|].
  destruct (Hl p) as (b & -> & Hb); [set_solver|].
  specialize (IH ltac:(set_solver)). destruct b; simpl in *; lia.
Qed.

Lemma frames_at_app d m n : frames_at d (m + n) = frames_at d m ++ frames_at (d + 4 * Z.of_nat m) n.
Proof.
  revert d. induction m as [|m IH]; intros d; simpl; [f_equal; lia|].
  f_equal. rewrite IH. do 2 f_equal. lia.
Qed.

Lemma filter_frames_at d n : List.filter is_release (frames_at d n) = [].
Proof. revert d. induction n as [|n IH]; intros d; [done|]. apply IH. Qed.

Lemma wf_perm pk pool hd pk' pool' hd' h :
  wf pk pool hd h -> pk ++ pool ++ hd ≡ₚ pk' ++ pool' ++ hd' ->
  (forall p, p ∈ pk' ++ hd' -> p ∈ pk ++ hd \/ ok_at h p) -> wf pk' pool' hd' h.
Proof.
  intros (Hn & Hd & Ho) Hp Hs. split_and!.
  - by eapply NoDup_perm.
  - intros p. rewrite Hd. by rewrite Hp.
  - intros p Hin. destruct (Hs p Hin); eauto.
Qed.

Lemma wf_update pk pool hd h p b :
  wf pk pool hd h -> p ∈ pk ++ pool ++ hd -> (p ∈ pk ++ hd -> body_ok b) ->
  wf pk pool hd (<[p := b]> h).
Proof.
  intros (Hn & Hd & Ho) Hp Hb. split_and!; [done| |].
  - intros q. destruct (decide (p = q)) as [<-|].
    + rewrite lookup_insert_eq. split; [done|]. intros _. eauto.
    + by rewrite lookup_insert_ne.
  - intros q Hq. unfold ok_at. destruct (decide (p = q)) as [<-|].
    + rewrite lookup_insert_eq. eauto.
    + rewrite lookup_insert_ne by done. by apply Ho.
Qed.

Lemma wf_new pk h p b :
  wf pk [] [] h -> h !! p = None -> body_ok b -> wf pk [] [p] (<[p := b]> h).
Proof.
  intros (Hn & Hd & Ho) Hp Hb. rewrite !app_nil_r in *.
  assert (p ∉ pk) by (rewrite <- Hd, Hp; by intros [? ?]).
  split_and!.
  - simpl. apply NoDup_snoc. done.
  - intros q. simpl. destruct (decide (p = q)) as [<-|].
    + rewrite lookup_insert_eq. split; [set_solver|done].
    + rewrite lookup_insert_ne, Hd by done. set_solver.
  - intros q Hq. unfold ok_at. destruct (decide (p = q)) as [<-|].
    + rewrite lookup_insert_eq. eauto.
    + rewrite lookup_insert_ne by done. apply Ho. set_solver.
Qed.

Lemma wf_queued_notin p pk pool hd h : wf (p :: pk) pool hd h -> p ∉ pk ++ pool ++ hd.
Proof. intros (Hn & _). simpl in Hn. by apply NoDup_cons in Hn as [? _]. Qed.

(** The fields a release leaves alone. *)
Definition rest (i : audiostream) :=
  (queued_frames i, max_frames i, callback i, pcm_handle i, packets i, (paused i, quit i)).

Lemma release_packet_spec i p b :
  heap i !! p = Some b ->
  exists i' b', release_packet i p = Some i' /\ rest i' = rest i /\
    packet_pool i' = packet_pool i ++ [p] /\ heap i' = <[p := b']> (heap i) /\
    io i' = io i ++ List.filter is_release (contents (callback i) (Some b)).
Proof.
  intros E. unfold release_packet. rewrite E. cbn [mbind option_bind].
  destruct b as [n d h|v].
  - cbn [contents]. rewrite List.filter_app, filter_frames_at. simpl.
    destruct (negb (h =? 0) && callback i); simpl.
    + eexists _, _. split_and!; reflexivity.
    + exists (set_pool i (packet_pool i ++ [p])), (DataPkt n d h). cbn.
      by rewrite insert_id, app_nil_r.
  - exists (set_pool i (packet_pool i ++ [p])), (ClockPkt v). cbn.
    by rewrite insert_id, app_nil_r.
Qed.

Lemma alloc_packet_spec pk w s mem p i :
  wf pk (packet_pool (inst s)) [] (heap (inst s)) -> fresh s mem -> held w = [p] ->
  alloc_packet (inst s) mem = Some (p, i) ->
  rest i = rest (inst s) /\ io i = io (inst s) /\ heap i = heap (inst s) /\ p ∉ pk /\
  forall b, body_ok b -> wf pk (packet_pool i) (held w) (<[p := b]> (heap i)).
Proof.
  intros Hw Hf -> E. unfold alloc_packet in E.
  destruct (packet_pool (inst s)) as [|q pool] eqn:Ep.
  - destruct mem as [q|]; simplify_eq. simpl in Hf.
    split_and!; [done..| |].
    + intros Hin. destruct Hw as (_ & Hd & _).
      assert (is_Some (heap (inst s) !! p)) as [? ?] by (apply Hd; set_solver). congruence.
    + intros b Hb. rewrite Ep. by apply wf_new.
  - simplify_eq. cbn. split_and!; [done..| |].
    + destruct Hw as (Hn & _). apply NoDup_app in Hn as (_ & Hn & _).
      intros Hin. apply (Hn p Hin). set_solver.
    + intros b Hb. apply (wf_perm pk (p :: pool) []).
      * by apply wf_update; [|set_solver|].
      * rewrite app_nil_r. by rewrite (Permutation_app_comm pool).
      * intros q Hq. destruct (decide (q = p)) as [->|]; [right|left; set_solver].
        exists b. by rewrite lookup_insert_eq.
Qed.

(** ** Steps that do not touch the packets *)

(** Everything the invariant and the tape depend on. *)
Definition core (i : audiostream) :=
  (packets i, packet_pool i, heap i, queued_frames i, max_frames i, pcm_handle i, callback i, io i).

Definition is_clock (o : ophase) : bool := match o with OClock _ => true | _ => false end.

Lemma inv_silent s i o w :
  inv s -> core i = core (inst s) -> output_ok o i -> owed o = owed (out s) ->
  is_clock o = is_clock (out s) -> writer_ok w -> held w = held (wr s) ->
  let s' := System i o w (period s) (lost s) in
  inv s' /\ abs s' = Tape (io (inst s)) (remaining s) (call_of s').
Proof.
  intros (Hw & Hwr & Ho & Hc) E Ho' Hd Hk Hw' Hh s'. injection E as E1 E2 E3 E4 E5 E6 E7 E8.
  split.
  - unfold inv, counts in *. subst s'. cbn. by rewrite Hh, Hd, E1, E2, E3, E4, E5.
  - unfold abs. f_equal; [done|]. subst s'. unfold remaining. cbn. rewrite E1, E3, E7.
    destruct o, (out s); simpl in *; congruence.
Qed.

Lemma output_ok_core o i j : core i = core j -> output_ok o j -> output_ok o i.
Proof. unfold core. intros [= E1 _ E3 _ _ E6 _ _]. unfold output_ok. by rewrite E1, E3, E6. Qed.

Lemma call_of_silent s i o : heap i = heap (inst s) ->
  call_of (System i o (wr s) (period s) (lost s)) = call_of s.
Proof. unfold call_of. cbn. by intros ->. Qed.

Lemma core_heap i j : core i = core j -> heap i = heap j.
Proof. by intros [= _ _ ? _ _ _ _ _]. Qed.

Lemma inv_inst s i :
  inv s -> core i = core (inst s) -> inv (with_inst s i) /\ abs (with_inst s i) = abs s.
Proof.
  intros Hi E. pose proof Hi as (_ & ? & ? & _).
  destruct (inv_silent s i (out s) (wr s)) as [H1 H2]; try done; [by eapply output_ok_core|].
  split; [exact H1|]. unfold with_inst. rewrite H2. unfold abs. f_equal.
  apply call_of_silent. by apply core_heap.
Qed.

Lemma inv_output s i o :
  inv s -> core i = core (inst s) -> output_ok o (inst s) -> owed o = owed (out s) ->
  is_clock o = is_clock (out s) ->
  inv (with_output s (o, i)) /\ abs (with_output s (o, i)) = abs s.
Proof.
  intros Hi E ???. pose proof Hi as (_ & ? & ? & _).
  destruct (inv_silent s i o (wr s)) as [H1' H2']; try done; [by eapply output_ok_core|].
  split; [exact H1'|]. unfold with_output. cbn [fst snd]. rewrite H2'. unfold abs. f_equal.
  apply call_of_silent. by apply core_heap.
Qed.

Lemma recover_core i b : core (snd (avbox_audiostream_recover i b)) = core i.
Proof. by destruct b. Qed.

Lemma recover_fst i b : fst (avbox_audiostream_recover i b) = b.
Proof. by destruct b. Qed.

Lemma pause_core i a d r : avbox_audiostream_pause i a d = Ok r -> core (snd r) = core i.
Proof.
  unfold avbox_audiostream_pause. intros H.
  destruct (negb (pcm_handle i)); [by simplify_eq|].
  destruct (st_avail a <? 0); [destruct (st_recovered a); simpl in H; by simplify_eq|].
  repeat case_match; by simplify_eq.
Qed.

Lemma pause_healthy i a d : healthy a -> avbox_audiostream_pause i a d <> Crash.
Proof.
  intros [Hr Hs] H. unfold avbox_audiostream_pause, avbox_audiostream_pcm_drain in H.
  cbn [pcm_handle set_paused] in H.
  destruct (pcm_handle i); [|done]. cbn [negb] in H.
  destruct (Z.ltb_spec (st_avail a) 0); [rewrite Hr in H by done; done|].
  repeat case_match; done.
Qed.

Lemma gettime_core i a r : avbox_audiostream_gettime i a = Ok r -> core (snd r) = core i.
Proof.
  unfold avbox_audiostream_gettime. intros H.
  destruct (negb (pcm_handle i)); [by simplify_eq|].
  destruct (paused i || (frames i =? 0)); [by simplify_eq|].
  destruct (st_avail a <? 0); [destruct (st_recovered a); simpl in H; by simplify_eq|].
  repeat case_match; by simplify_eq.
Qed.

Lemma gettime_healthy i a : healthy a -> avbox_audiostream_gettime i a <> Crash.
Proof.
  intros [Hr Hs] H. unfold avbox_audiostream_gettime in H.
  destruct (negb (pcm_handle i)); [done|].
  destruct (paused i || (frames i =? 0)); [done|].
  destruct (Z.ltb_spec (st_avail a) 0); [rewrite Hr in H by done; done|].
  repeat case_match; done.
Qed.

Lemma resume_core i : core (snd (avbox_audiostream_resume i)) = core i.
Proof. unfold avbox_audiostream_resume. by destruct (negb (paused i)). Qed.

(** ** Steps of the writer *)

Lemma s32_u64 z : s32 (u64 z) = s32 z.
Proof.
  unfold wrapu. rewrite Z.mod_eq by lia.
  rewrite <- (wraps_shift 32 z (- (z / 2 ^ 64) * 2 ^ 32)). f_equal. lia.
Qed.

Lemma s32_small z : - 2 ^ 31 <= z < 2 ^ 31 -> s32 z = z.
Proof. intros. apply wraps_small; lia. Qed.

Lemma output_ok_frame o i i' :
  output_ok o i -> pcm_handle i' = pcm_handle i ->
  (forall p, is_Some (heap i !! p) -> is_Some (heap i' !! p)) ->
  (forall p, head (packets i) = Some p ->
     head (packets i') = Some p /\ heap i' !! p = heap i !! p) ->
  output_ok o i'.
Proof.
  intros Ho Hp Hs Hh. destruct o; simpl in *; rewrite ?Hp; try done; destruct_and?; [by auto|..];
    destruct (Hh p) as [? E]; try done; split_and!; try done;
    unfold data_at, clock_at in *; by rewrite E.
Qed.

(** No packet disappears. *)
Lemma kept_insert (h : gmap Z payload) p b q : is_Some (h !! q) -> is_Some (<[p := b]> h !! q).
Proof. rewrite lookup_insert_is_Some'. auto. Qed.

Lemma owed_nonneg o i : output_ok o i -> 0 <= owed o.
Proof. destruct o; simpl; try lia; naive_solver. Qed.

Lemma inv_nonneg s : inv s ->
  0 <= total (heap (inst s)) (packets (inst s)) /\ 0 <= total (heap (inst s)) (held (wr s)) /\
  0 <= owed (out s) /\ 0 <= queued_frames (inst s).
Proof.
  intros ((_ & _ & Hok) & _ & Ho & Hc).
  assert (0 <= total (heap (inst s)) (packets (inst s))) by (apply total_nonneg; set_solver).
  assert (0 <= total (heap (inst s)) (held (wr s))) by (apply total_nonneg; set_solver).
  pose proof (owed_nonneg _ _ Ho). unfold counts in Hc. lia.
Qed.

Lemma head_elem (l : list Z) p : head l = Some p -> p ∈ l.
Proof. destruct l; simpl; intros; simplify_eq. set_solver. Qed.

(** Taking a packet for [b]: the writer holds it, the queue is as before. *)
Lemma inv_alloc s i mem b p i' w q :
  inv s -> core i = core (inst s) -> held (wr s) = [] -> fresh s mem -> body_ok b ->
  alloc_packet i mem = Some (p, i') -> w = WPut p ->
  q = queued_frames i + pkt_frames (Some b) ->
  q <= max_frames i + maxn ->
  let s' := System (set_heap (set_queued i' q) (<[p := b]> (heap i'))) (out s) w (period s) (lost s) in
  inv s' /\ abs s' = Tape (io (inst s)) (remaining s) (Some b).
Proof.
  intros Hi E Hh Hf Hb Ha -> Hq Hqm s'.
  destruct (inv_inst s i Hi E) as [(Hw & Hwr & Ho & Hc) Habs].
  cbn [with_inst inst wr out lost period] in *. rewrite Hh in Hw.
  destruct (alloc_packet_spec (packets i) (WPut p) (with_inst s i) mem p i')
    as (Er & Eio & Eh & Hp & Hwf); try done.
  { unfold fresh in *. destruct mem; [|done]. cbn. by rewrite (core_heap _ _ E). }
  cbn [with_inst inst] in *. injection Er as R1 R2 R3 R4 R5 R6 R7.
  unfold counts in Hc. cbn [with_inst inst wr out lost] in Hc. rewrite Hh in Hc. cbn [total] in Hc.
  split.
  - unfold inv. subst s'. cbn. rewrite R5. split_and!; [by apply Hwf|done| |].
    + eapply output_ok_frame; [exact Ho|done| |]; cbn; [intros q' Hq'; rewrite Eh; by apply kept_insert|].
      intros q' Hq'. rewrite R5. split; [done|].
      rewrite Eh. apply lookup_insert_ne. intros ->. apply Hp. by apply head_elem.
    + unfold counts. cbn. rewrite R2, R5, Eh, total_insert, lookup_insert_eq by done. cbn in *. lia.
  - injection Habs as Hio Hr _. unfold abs, remaining in *.
    subst s'. cbn -[evs] in *. rewrite R3, R5, Eh, evs_insert, lookup_insert_eq, Eio by done.
    f_equal; done.
Qed.

Lemma write_commit_ok s i d n h mem :
  inv s -> core i = core (inst s) -> held (wr s) = [] -> fresh s mem -> body_ok (DataPkt n d h) ->
  queued_frames i <= max_frames i ->
  let s' := with_writer s (write_commit i d n h mem) in
  inv s' /\ (abs s' = Tape (io (inst s)) (remaining s) (Some (DataPkt n d h)) \/
             abs s' = Tape (io (inst s)) (remaining s) None).
Proof.
  intros Hi E Hh Hf Hb Hq s'. subst s'. unfold write_commit.
  destruct (inv_inst s i Hi E) as [Hi' Habs].
  pose proof (inv_nonneg _ Hi') as (_ & _ & _ & Hn0). cbn [with_inst inst] in Hn0.
  destruct (alloc_packet i mem) as [[p i']|] eqn:Ea.
  - assert (queued_frames i' = queued_frames i) as Eq.
    { unfold alloc_packet in Ea. repeat case_match; by simplify_eq. }
    pose proof Hi' as (_ & _ & _ & Hc). unfold counts in Hc. cbn [with_inst inst] in Hc.
    simpl in Hb. rewrite Eq, s32_u64, s32_small by lia.
    edestruct (inv_alloc s i mem (DataPkt n d h) p i' (WPut p)) as [H1 H2]; try done; [simpl; lia|].
    split; [exact H1|]. left. exact H2.
  - unfold with_writer. cbn [fst snd].
    destruct (inv_silent s i (out s) WIdle) as [H1 H2]; try done.
    { eapply output_ok_core; [exact E|]. apply Hi. }
    split; [exact H1|]. right. exact H2.
Qed.

Lemma step_write s d n h mem s' :
  inv s -> legal s (AWrite d n h mem) -> exec (AWrite d n h mem) s = Ok s' ->
  inv s' /\ tape_step (callback (inst s)) (AWrite d n h mem) (abs s) (abs s').
Proof.
  intros Hi [(Hd & Hn & Ha & Hf) _] H. cbn [exec] in H.
  destruct (wr s) eqn:Ew; try discriminate. injection H as <-.
  assert (held (wr s) = []) as Hh by (by rewrite Ew).
  assert (abs s = Tape (io (inst s)) (remaining s) None) as -> by (unfold abs, call_of; by rewrite Ew).
  unfold avbox_audiostream_write.
  destruct (n =? 0); [|destruct (Z.ltb_spec (max_frames (inst s)) (queued_frames (inst s)))].
  - destruct (inv_silent s (inst s) (out s) WIdle) as [H1 H2]; try done; [apply Hi|].
    split; [exact H1|]. unfold with_writer. cbn [fst snd]. rewrite H2. by apply tape_refuse.
  - destruct (inv_silent s (set_blocking (inst s) true) (out s) (WBlocked d n h false)) as [H1 H2];
      try done; [apply Hi|].
    split; [exact H1|]. unfold with_writer. cbn [fst snd]. rewrite H2. apply tape_write.
  - destruct (write_commit_ok s (inst s) d n h mem) as [H1 H2]; try done.
    split; [exact H1|]. destruct H2 as [->| ->]; [apply tape_write|by apply tape_refuse].
Qed.

Lemma step_wake s sp mem s' :
  inv s -> legal s (AWake sp mem) -> exec (AWake sp mem) s = Ok s' ->
  inv s' /\ tape_step (callback (inst s)) (AWake sp mem) (abs s) (abs s').
Proof.
  intros Hi [Hf _] H. cbn [exec] in H. destruct (wr s) as [|d n h sg|] eqn:Ew; try discriminate.
  destruct (sp || sg); [|done]. injection H as <-.
  assert (held (wr s) = []) as Hh by (by rewrite Ew).
  assert (abs s = Tape (io (inst s)) (remaining s) (Some (DataPkt n d h))) as ->
    by (unfold abs, call_of; by rewrite Ew).
  pose proof Hi as (_ & Hb & Ho & _). rewrite Ew in Hb. unfold write_wake.
  destruct (Z.ltb_spec (max_frames (set_blocking (inst s) false))
                       (queued_frames (set_blocking (inst s) false))).
  - destruct (inv_silent s (set_blocking (inst s) false) (out s) WIdle) as [H1 H2]; try done.
    split; [exact H1|]. unfold with_writer. cbn [fst snd]. rewrite H2. by apply tape_refuse.
  - destruct (write_commit_ok s (set_blocking (inst s) false) d n h mem) as [H1 H2]; try done.
    split; [exact H1|]. destruct H2 as [->| ->]; [apply tape_wake|by apply tape_refuse].
Qed.

Lemma step_setclock s v mem s' :
  inv s -> legal s (ASetClock v mem) -> exec (ASetClock v mem) s = Ok s' ->
  inv s' /\ tape_step (callback (inst s)) (ASetClock v mem) (abs s) (abs s').
Proof.
  intros Hi [Hf _] H. cbn [exec] in H. destruct (wr s) eqn:Ew; try discriminate. injection H as <-.
  assert (held (wr s) = []) as Hh by (by rewrite Ew).
  assert (abs s = Tape (io (inst s)) (remaining s) None) as -> by (unfold abs, call_of; by rewrite Ew).
  pose proof Hi as (_ & _ & _ & _ & _ & _ & _ & Hq). unfold avbox_audiostream_setclock.
  destruct (alloc_packet (inst s) mem) as [[p i']|] eqn:Ea.
  - edestruct (inv_alloc s (inst s) mem (ClockPkt v) p i' (WPut p)) as [H1 H2]; try done;
      [simpl; lia|].
    assert (set_queued i' (queued_frames (inst s) + pkt_frames (Some (ClockPkt v))) = i') as E.
    { unfold alloc_packet in Ea. cbn [pkt_frames]. rewrite Z.add_0_r.
      repeat case_match; simplify_eq; by destruct (inst s). }
    rewrite E in H1, H2. split; [exact H1|]. unfold with_writer. cbn [fst snd]. rewrite H2.
    apply tape_setclock.
  - destruct (inv_silent s (inst s) (out s) WIdle) as [H1 H2]; try done; [apply Hi|].
    split; [exact H1|]. unfold with_writer. cbn [fst snd]. rewrite H2. by apply tape_refuse.
Qed.

Lemma remaining_app cb o i es :
  output_ok o i ->
  match o with OClock _ => tail (evs cb (heap i) (packets i) ++ es)
             | _ => evs cb (heap i) (packets i) ++ es end =
  match o with OClock _ => tail (evs cb (heap i) (packets i)) | _ => evs cb (heap i) (packets i) end ++ es.
Proof.
  destruct o; try done. intros (_ & Hp & v & Hv).
  destruct (packets i) as [|q pk]; simplify_eq/=. unfold evs. simpl. rewrite Hv. done.
Qed.

Lemma wf_held pk pool h p : wf pk pool [p] h ->
  exists b, h !! p = Some b /\ body_ok b /\ p ∉ pk /\ p ∉ pool.
Proof.
  intros (Hn & _ & Ho). destruct (Ho p) as (b & ? & ?); [set_solver|].
  exists b. rewrite app_assoc in Hn. apply NoDup_snoc in Hn as [_ Hn]. set_solver.
Qed.

Lemma step_put s node :
  inv s -> exec (APut node) s <> Crash /\
  forall s', exec (APut node) s = Ok s' ->
    inv s' /\ tape_step (callback (inst s)) (APut node) (abs s) (abs s') /\
    callback (inst s') = callback (inst s).
Proof.
  intros Hi. pose proof Hi as (Hw & _ & Ho & Hc). cbn [exec].
  destruct (wr s) as [|? ? ? ?|p] eqn:Ew; try done. cbn [held] in Hw.
  destruct (wf_held _ _ _ _ Hw) as (b & Hb & Hok & Hpk & Hpool).
  assert (abs s = Tape (io (inst s)) (remaining s) (Some b)) as ->
    by (unfold abs, call_of; by rewrite Ew, Hb).
  unfold counts in Hc. rewrite Ew in Hc. cbn [held total] in Hc. rewrite Hb in Hc.
  unfold put_packet, write_put. destruct node.
  - cbn [mbind option_bind of_option]. split; [done|]. intros s' [= <-]. split_and!; [| |done].
    + split_and!; cbn.
      * eapply wf_perm; [exact Hw| |set_solver]. by rewrite (Permutation_app_comm _ [p]), app_assoc, app_nil_r.
      * done.
      * eapply output_ok_frame; [exact Ho|done|done|]. cbn. intros q. by destruct (packets (inst s)).
      * unfold counts. cbn. rewrite total_app. cbn [total]. rewrite Hb. lia.
    + unfold abs, remaining. cbn -[evs contents]. rewrite evs_app.
      rewrite (remaining_app _ (out s) (inst s)) by done.
      rewrite evs_one, Hb. apply tape_accept.
  - destruct (release_packet_spec (inst s) p b Hb) as (i' & b' & -> & Er & Epool & Eh & Eio).
    cbn [mbind option_bind of_option]. split; [done|]. intros s' [= <-].
    injection Er as R1 R2 R3 R4 R5 R6 R7. split_and!; [| |done].
    + split_and!; cbn.
      * rewrite R5, Epool, Eh. apply wf_update; [|set_solver|set_solver].
        eapply wf_perm; [exact Hw| |set_solver]. by rewrite app_nil_r.
      * done.
      * eapply output_ok_frame; [exact Ho|done| |]; cbn; [intros q Hq; rewrite Eh; by apply kept_insert|].
        intros q Hq. rewrite R5. split; [done|].
        rewrite Eh. apply lookup_insert_ne. intros ->. apply Hpk. by apply head_elem.
      * unfold counts. cbn. rewrite R1, R2, R5, Eh, total_insert, Hb by done.
        destruct b; simpl in *; lia.
    + unfold abs, remaining. cbn -[evs contents]. rewrite R3, R5, Eh, Eio, evs_insert by done.
      apply tape_reject.
Qed.

(** ** Flush *)

Lemma drop_loop_spec hd l : forall i,
  wf l (packet_pool i) hd (heap i) -> packets i = l ->
  total (heap i) l <= queued_frames i < 2 ^ 31 ->
  exists i', drop_loop i l = Some i' /\ packets i' = [] /\
    wf [] (packet_pool i') hd (heap i') /\
    queued_frames i' = queued_frames i - total (heap i) l /\
    io i' = io i ++ List.filter is_release (evs (callback i) (heap i) l) /\
    (max_frames i', callback i', pcm_handle i') = (max_frames i, callback i, pcm_handle i) /\
    (forall p, p ∈ hd -> heap i' !! p = heap i !! p) /\
    (forall p, is_Some (heap i !! p) -> is_Some (heap i' !! p)).
Proof.
  induction l as [|p l IH]; intros i Hw Hp Hq.
  { exists i. cbn [drop_loop total]. rewrite app_nil_r. split_and!; try done. lia. }
  pose proof (wf_queued_notin _ _ _ _ _ Hw) as Hnin.
  assert (ok_at (heap i) p) as (b & Hb & Hok) by (apply Hw; set_solver).
  assert (0 <= total (heap i) l) by (apply total_nonneg; intros; apply Hw; set_solver).
  cbn [drop_loop total] in *. cbn [heap set_packets]. rewrite Hb in *. cbn [mbind option_bind].
  set (i1 := match b with DataPkt n _ _ => _ | _ => _ end).
  assert (heap i1 = heap i /\ packet_pool i1 = packet_pool i /\ callback i1 = callback i /\
          packets i1 = l /\ queued_frames i1 = queued_frames i - pkt_frames (Some b) /\
          io i1 = io i /\ max_frames i1 = max_frames i /\ pcm_handle i1 = pcm_handle i)
    as (E1 & E2 & E3 & E4 & E5 & E6 & E7 & E8).
  { subst i1. destruct b; cbn [pkt_frames] in *; simpl; split_and!; try done; [|lia].
    rewrite s32_u64, s32_small; [done|]. simpl in Hok. lia. }
  destruct (release_packet_spec i1 p b) as (i2 & b' & -> & Er & Epool & Eh & Eio); [by rewrite E1|].
  cbn [mbind option_bind]. injection Er as R1 R2 R3 R4 R5 R6 R7.
  assert (total (heap i2) l = total (heap i) l) as Et.
  { rewrite Eh, E1, total_insert; [done|set_solver]. }
  destruct (IH i2) as (i' & -> & H1 & H2 & H3 & H4 & H5 & H6 & H7).
  - rewrite Epool, Eh, E1, E2. apply wf_update; [|set_solver|set_solver].
    eapply wf_perm; [exact Hw| |set_solver].
    cbn [app]. rewrite <- app_assoc. cbn [app]. by rewrite Permutation_middle, Permutation_middle.
  - by rewrite R5.
  - rewrite Et, R1, E5. destruct b; cbn [pkt_frames] in *; simpl in Hok; lia.
  - exists i'. split_and!; try done.
    + rewrite H3, Et, R1, E5. lia.
    + rewrite H4, Eio, E6, R3, E3, Eh, E1, evs_insert by set_solver.
      by rewrite evs_cons, Hb, List.filter_app, app_assoc.
    + rewrite H5. congruence.
    + intros q Hq'. rewrite H6 by done. rewrite Eh, E1. apply lookup_insert_ne. set_solver.
    + intros q Hq'. apply H7. rewrite Eh, E1. by apply kept_insert.
Qed.

Lemma total_heap_eq h h' l : (forall p, p ∈ l -> h' !! p = h !! p) -> total h' l = total h l.
Proof.
  induction l as [|p l IH]; intros E; [done|]. cbn [total]. rewrite E, IH by set_solver. done.
Qed.

Lemma drop_ok s d a :
  inv s -> pcm_handle (inst s) = true -> past_write (out s) = false -> flushes a = true ->
  avbox_audiostream_drop (inst s) d <> Crash /\
  forall i, avbox_audiostream_drop (inst s) d = Ok i ->
    inv (with_inst s i) /\ tape_step (callback (inst s)) a (abs s) (abs (with_inst s i)) /\
    callback i = callback (inst s) /\ packets i = [] /\ pcm_handle i = true.
Proof.
  intros Hi Hpcm Hn Ha. pose proof Hi as (Hw & Hwr & Ho & Hc).
  pose proof (inv_nonneg s Hi) as (Ht0 & Hh0 & _ & _).
  destruct (drop_loop_spec (held (wr s)) (packets (inst s)) (inst s)) as
    (i' & E & H1 & H2 & H3 & H4 & H5 & H6 & H7); [done..| |].
  { assert (0 <= owed (out s)) by (by eapply owed_nonneg). unfold counts in Hc. lia. }
  unfold avbox_audiostream_drop, avbox_audiostream_pcm_drain, __avbox_audiostream_drop.
  rewrite Hpcm, E. cbn [negb of_option].
  destruct (negb (drain_wait _ _)); [done|].
  assert (inv (with_inst s i') /\ tape_step (callback (inst s)) a (abs s) (abs (with_inst s i'))) as Hgoal.
  { injection H5 as M1 M2 M3. split.
    - unfold inv. cbn. rewrite H1. split_and!; [done|done| |].
      + destruct (out s); try done; simpl; try congruence. split; [congruence|]. by apply H7, Ho.
      + unfold counts in *. cbn. rewrite H1, H3, (total_heap_eq _ _ _ H6), M1. cbn [total]. lia.
    - assert (remaining (with_inst s i') = []) as Hr'.
      { unfold remaining. cbn. rewrite H1. by destruct (out s). }
      assert (remaining s = evs (callback (inst s)) (heap (inst s)) (packets (inst s))) as Hr.
      { unfold remaining. by destruct (out s). }
      assert (call_of (with_inst s i') = call_of s) as Hcall.
      { unfold call_of. cbn. destruct (wr s); try done. apply H6. set_solver. }
      unfold abs. rewrite Hr', Hcall. cbn. rewrite H4, <- Hr. apply tape_flush. by destruct a. }
  destruct Hgoal. injection H5 as M1 M2 M3.
  destruct (d_reset d <? 0), (d_prepare d <? 0);
    (split; [done|]; intros i [= <-]; split_and!; congruence || done).
Qed.

Lemma inv_destroy_flags s i :
  inv (with_inst s i) -> pcm_handle i = true ->
  inv (with_inst s (close_queue (set_thread i (pcm_handle i) true (running i) (started i)))) /\
  abs (with_inst s (close_queue (set_thread i (pcm_handle i) true (running i) (started i)))) =
  abs (with_inst s i).
Proof. intros Hi Hp. by apply (inv_inst (with_inst s i)). Qed.

Lemma legal_flush s a : legal s a -> flushes a = true -> pcm_handle (inst s) = true /\ past_write (out s) = false.
Proof.
  intros [_ Hn] Ha. split; [destruct (pcm_handle (inst s)) eqn:E|destruct (past_write (out s)) eqn:E]; try done;
    destruct Hn; [by apply FlushClosed|by apply FlushPlayed].
Qed.

Lemma step_destroy s d :
  inv s -> legal s (ADestroy d) -> exec (ADestroy d) s <> Crash /\
  forall s', exec (ADestroy d) s = Ok s' ->
    inv s' /\ tape_step (callback (inst s)) (ADestroy d) (abs s) (abs s') /\
    callback (inst s') = callback (inst s).
Proof.
  intros Hi Hl. destruct (legal_flush _ _ Hl) as [Hpcm Hpw]; [done|].
  destruct (drop_ok s d (ADestroy d)) as [Hc Hok]; [done..|].
  cbn [exec]. unfold destroy_begin.
  destruct (avbox_audiostream_drop (inst s) d) as [i| |]; [|done|done].
  destruct (Hok i eq_refl) as (H1 & H2 & H3 & H4 & H5).
  destruct (inv_destroy_flags s i H1 H5) as [H6 H7].
  destruct (running i); (split; [done|]; intros s' [= <-]; split_and!; done).
Qed.

(** ** Steps of the output thread *)

Definition plays (a : action) : Prop :=
  match a with APacket _ | AClockGet | AOutput _ _ | AFinish => True | _ => False end.

Lemma tape_stay cb a t : plays a -> tape_step cb a t t.
Proof.
  intros Ha. destruct t as [ds ts c].
  pose proof (tape_play cb a ds [] ts c Ha) as H. by rewrite app_nil_r in H.
Qed.

Lemma tape_silent_eq cb a t t' :
  match a with ACount | AInit _ _ _ _ | AEnd => True | _ => False end -> t = t' -> tape_step cb a t t'.
Proof. intros Ha <-. apply tape_silent. by destruct a. Qed.

(** What is shown of each action. *)
Definition sound (a : action) (s : system) : Prop :=
  exec a s <> Crash /\
  forall s', exec a s = Ok s' ->
    inv s' /\ tape_step (callback (inst s)) a (abs s) (abs s') /\
    callback (inst s') = callback (inst s).

(** An output step that leaves the packets alone. *)
Lemma sound_output a s i o :
  inv s -> core i = core (inst s) -> output_ok o (inst s) -> owed o = owed (out s) ->
  is_clock o = is_clock (out s) -> (forall t, tape_step (callback (inst s)) a t t) ->
  exec a s = Ok (with_output s (o, i)) -> sound a s.
Proof.
  intros Hi E Ho Hd Hk Ht Hx. destruct (inv_output s i o) as [H1 H2]; try done.
  unfold sound. rewrite Hx. split; [done|]. intros s' [= <-]. rewrite H2.
  split_and!; [done|apply Ht|]. by injection E.
Qed.

Lemma sound_inst a s i :
  inv s -> core i = core (inst s) -> (forall t, tape_step (callback (inst s)) a t t) ->
  exec a s = Ok (with_inst s i) -> sound a s.
Proof.
  intros Hi E Ht Hx. destruct (inv_inst s i) as [H1 H2]; try done.
  unfold sound. rewrite Hx. split; [done|]. intros s' [= <-]. rewrite H2.
  split_and!; [done|apply Ht|]. by injection E.
Qed.

Lemma sound_blocked a s : exec a s = Blocked -> sound a s.
Proof. intros E. unfold sound. by rewrite E. Qed.

Lemma packets_head (i : audiostream) p : head (packets i) = Some p -> packets i = p :: tail (packets i).
Proof. by destruct (packets i); intros; simplify_eq/=. Qed.

(** [Ex] computes the step, [Eo] is the phase it starts in. *)
Ltac silent_output Ex Eo :=
  eapply sound_output; [eassumption| | | | | |exact Ex]; rewrite ?Eo; try done;
  intros; by apply tape_stay.

Lemma step_packet s a : inv s -> legal s (APacket a) -> sound (APacket a) s.
Proof.
  intros Hi [_ Hnf]. pose proof Hi as (Hw & Hwr & Ho & Hc).
  destruct (out s) as [| | | | |p| | | | | | | |] eqn:Eo; try (apply sound_blocked; cbn; by rewrite Eo).
  destruct Ho as [Hpcm [b Hb]].
  assert (forall t, tape_step (callback (inst s)) (APacket a) t t) as Hstay by (intros; by apply tape_stay).
  destruct b as [n d h|v].
  - assert (exec (APacket a) s = res_map (with_output s) (output_packet (inst s) (period s) p a))
      as Ex by (cbn; by rewrite Eo).
    unfold output_packet in Ex. rewrite Hb in Ex.
    assert (output_ok (OReady p (Z.min (period s) n)) (inst s)) as Hready by done.
    assert (output_ok (OTop false) (inst s)) as Htop by done.
    destruct (w_avail_min a <? 0); [silent_output Ex Eo|].
    destruct (SFeqb _ _); [silent_output Ex Eo|].
    destruct ((0 <? w_avail a) && (w_avail a <? Z.min (period s) n)).
    { destruct (w_wait a =? 0); silent_output Ex Eo. }
    destruct (w_avail a <? 0); [|silent_output Ex Eo].
    destruct (w_recovered a); silent_output Ex Eo.
  - assert (head (packets (inst s)) = Some p) as Hhd.
    { apply dec_stable. intros E. apply Hnf. eapply ClockReused; [done|by exists v|done]. }
    pose proof (packets_head _ _ Hhd) as Epk.
    unfold sound. cbn [exec]. rewrite Eo. unfold output_packet, avbox_audiostream_pcm_drain.
    rewrite Hb, Hpcm. cbn [negb]. destruct (negb (drain_wait _ _)); [done|].
    assert (forall s', s' = with_output s (OClock p,
              emit (set_clock (inst s) 0 v 0 (last_audio_time (inst s))) [ClockSet v]) ->
            inv s' /\ tape_step (callback (inst s)) (APacket a) (abs s) (abs s') /\
            callback (inst s') = callback (inst s)) as Hok'.
    { intros s' ->. split_and!; [| |done].
      - split_and!; [done|done| |].
        + split_and!; [done..|]. exists v. done.
        + unfold counts in *. rewrite Eo in Hc. exact Hc.
      - unfold abs, remaining. cbn -[evs]. rewrite Eo, Epk, evs_cons, Hb.
        by apply (tape_play _ (APacket a) _ [ClockSet v]). }
    destruct (d_reset (w_drain a) <? 0), (d_prepare (w_drain a) <? 0);
      (split; [done|]; intros s' [= <-]; by apply Hok').
Qed.

(** Taking the played packet out of the queue. *)
Lemma get_release_ok s p o :
  inv s -> head (packets (inst s)) = Some p -> holds_none o = true -> pcm_handle (inst s) = true ->
  owed (out s) = 0 -> pkt_frames (heap (inst s) !! p) = 0 ->
  exists i, get_and_release (inst s) p = Ok i /\ inv (with_output s (o, i)) /\
    callback i = callback (inst s) /\
    io i = io (inst s) ++ List.filter is_release (contents (callback (inst s)) (heap (inst s) !! p)) /\
    remaining (with_output s (o, i)) =
      evs (callback (inst s)) (heap (inst s)) (tail (packets (inst s))) /\
    call_of (with_output s (o, i)) = call_of s /\
    (packets i, paused i, quit i) = (tail (packets (inst s)), paused (inst s), quit (inst s)) /\
    total (heap i) (packets i) = total (heap (inst s)) (tail (packets (inst s))).
Proof.
  intros Hi Hhd Hn Hpcm Howed Hfr. pose proof Hi as (Hw & Hwr & Ho & Hc).
  pose proof (packets_head _ _ Hhd) as Epk. set (l := tail (packets (inst s))) in *.
  rewrite Epk in Hw. pose proof (wf_queued_notin _ _ _ _ _ Hw) as Hnin.
  assert (ok_at (heap (inst s)) p) as (b & Hb & Hok) by (apply Hw; set_solver).
  unfold get_and_release. rewrite Epk, Z.eqb_refl.
  destruct (release_packet_spec (set_packets (inst s) l) p b) as (i & b' & E & Er & Ep & Eh & Eio); [done|].
  rewrite E. exists i. injection Er as R1 R2 R3 R4 R5 R6 R7. cbn [heap packet_pool callback io
    set_packets queued_frames max_frames pcm_handle packets paused quit] in *.
  split; [done|]. rewrite Hb in *. split_and!; [|done|done| | |by rewrite R5, R6, R7|];
    [| | |by rewrite R5, Eh, total_insert by set_solver].
  - unfold inv. cbn. rewrite R5, Ep, Eh. split_and!.
    + apply wf_update; [|set_solver|set_solver]. eapply wf_perm; [exact Hw| |set_solver].
      cbn [app]. rewrite <- app_assoc. cbn [app]. by rewrite Permutation_middle, Permutation_middle.
    + done.
    + destruct o; try done; simpl; congruence.
    + unfold counts in *. cbn. rewrite Epk in Hc. cbn [total] in Hc.
      rewrite R1, R2, R5, Eh, !total_insert by set_solver.
      assert (owed o = 0) as -> by (by destruct o). rewrite Hb in Hc. lia.
  - unfold remaining. cbn -[evs]. rewrite R3, R5, Eh, evs_insert by set_solver. by destruct o.
  - unfold call_of. cbn. rewrite Eh. destruct (wr s); try done. apply lookup_insert_ne. set_solver.
Qed.

Lemma step_clockget s : inv s -> sound AClockGet s.
Proof.
  intros Hi. pose proof Hi as (Hw & Hwr & Ho & Hc).
  destruct (out s) as [| | | | | |p| | | | | | |] eqn:Eo; try (apply sound_blocked; cbn; by rewrite Eo).
  destruct Ho as (Hpcm & Hhd & v & Hv).
  destruct (get_release_ok s p (OTop false)) as (i & E & H1 & H2 & H3 & H4 & H5 & _ & _); try done;
    [by rewrite Eo|by rewrite Hv|].
  unfold sound. cbn [exec]. rewrite Eo, E. split; [done|]. intros s' [= <-].
  split_and!; [done| |done]. unfold abs. rewrite H4, H5. cbn [inst with_output snd].
  rewrite H3, Hv, app_nil_r. unfold remaining. rewrite Eo, (packets_head _ _ Hhd), evs_cons, Hv.
  by apply tape_stay.
Qed.

Lemma step_finish s : inv s -> sound AFinish s.
Proof.
  intros Hi. pose proof Hi as (Hw & Hwr & Ho & Hc).
  destruct (out s) as [| | | | | | | | | |p| | |] eqn:Eo; try (apply sound_blocked; cbn; by rewrite Eo).
  destruct Ho as (Hpcm & Hhd & n & d & h & Hv & Hn).
  assert (exec AFinish s = res_map (fun i => with_output s (OTop false, i)) (output_finish (inst s) p))
    as Ex by (cbn; by rewrite Eo).
  unfold output_finish in Ex. rewrite Hv in Ex. destruct (Z.eqb_spec n 0) as [->|].
  - destruct (get_release_ok s p (OTop false)) as (i & E & H1 & H2 & H3 & H4 & H5 & _ & _); try done;
      [by rewrite Eo|by rewrite Hv|].
    unfold sound. rewrite Ex, E. split; [done|]. intros s' [= <-].
    split_and!; [done| |done]. unfold abs. rewrite H4, H5. cbn [inst with_output snd].
    unfold remaining. rewrite Eo, (packets_head _ _ Hhd), evs_cons, H3, Hv.
    assert (List.filter is_release (contents (callback (inst s)) (Some (DataPkt 0 d h))) =
            contents (callback (inst s)) (Some (DataPkt 0 d h))) as ->.
    { cbn. by destruct (negb (h =? 0) && callback (inst s)). }
    by apply tape_play.
  - silent_output Ex Eo.
Qed.

Lemma frames_split d n r h cb :
  0 <= r <= n ->
  contents cb (Some (DataPkt n d h)) =
  frames_at d (Z.to_nat r) ++ contents cb (Some (DataPkt (n - r) (d + 4 * r) h)).
Proof.
  intros Hr. cbn [contents]. rewrite app_assoc. f_equal.
  replace (Z.to_nat n) with (Z.to_nat r + Z.to_nat (n - r))%nat by lia.
  rewrite frames_at_app. do 2 f_equal. lia.
Qed.

(** The device takes [r] frames of the packet at the head of the queue. *)
Lemma written_ok s p n d h r i :
  inv s -> owed (out s) = 0 -> is_clock (out s) = false -> pcm_handle (inst s) = true ->
  head (packets (inst s)) = Some p -> heap (inst s) !! p = Some (DataPkt n d h) -> 0 <= r <= n ->
  rest i = rest (inst s) -> packet_pool i = packet_pool (inst s) ->
  io i = io (inst s) ++ frames_at d (Z.to_nat r) ->
  heap i = <[p := DataPkt (n - r) (d + 4 * r) h]> (heap (inst s)) ->
  let s' := with_output s (OWrote p r, i) in
  inv s' /\ remaining s = frames_at d (Z.to_nat r) ++ remaining s' /\ call_of s' = call_of s.
Proof.
  intros Hi Ho0 Hk Hpcm Hhd Hp Hr Er Epool Eio Eh s'. pose proof Hi as (Hw & Hwr & Ho & Hc).
  pose proof (packets_head _ _ Hhd) as Epk. set (l := tail (packets (inst s))) in *.
  rewrite Epk in Hw. pose proof (wf_queued_notin _ _ _ _ _ Hw) as Hnin.
  assert (body_ok (DataPkt n d h)) as Hb.
  { destruct Hw as (_ & _ & Hok). destruct (Hok p) as (b & ? & ?); [set_solver|]. by simplify_eq. }
  injection Er as R1 R2 R3 R4 R5 R6 R7. simpl in Hb. split_and!.
  - unfold inv. subst s'. cbn. rewrite R5, Epool, Eh, Epk. split_and!.
    + apply wf_update; [done|set_solver|]. intros _. simpl. lia.
    + done.
    + congruence.
    + done.
    + lia.
    + exists (n - r), (d + 4 * r), h. rewrite lookup_insert_eq. split; [done|lia].
    + unfold counts in *. cbn. rewrite Epk in Hc. cbn [total] in Hc. rewrite Hp, Ho0 in Hc.
      rewrite R1, R2, R5, Eh, Epk. cbn [total pkt_frames] in *.
      rewrite lookup_insert_eq, !total_insert by set_solver. cbn [pkt_frames]. lia.
  - unfold remaining. subst s'. cbn -[evs]. rewrite R3, R5, Eh, Epk, !evs_cons, lookup_insert_eq, Hp.
    rewrite evs_insert, (frames_split d n r) by (done || set_solver). rewrite <- app_assoc.
    by destruct (out s).
  - unfold call_of. cbn. rewrite Eh. destruct (wr s); try done. apply lookup_insert_ne. set_solver.
Qed.

Lemma step_output s r rec : inv s -> legal s (AOutput r rec) -> sound (AOutput r rec) s.
Proof.
  intros Hi Hl. pose proof Hi as (Hw & Hwr & Ho & Hc).
  destruct (out s) as [| | | | | | |p m| | | | | |] eqn:Eo; try (apply sound_blocked; cbn; by rewrite Eo).
  destruct Hl as [Hrm Hnf]. cbn [contract] in Hrm. rewrite Eo in Hrm. rename Ho into Hpcm.
  assert (exec (AOutput r rec) s = res_map (with_output s) (output_write (inst s) p m r rec))
    as Ex by (cbn; by rewrite Eo).
  unfold output_write in Ex.
  destruct (quit (inst s)); [silent_output Ex Eo|]. destruct (paused (inst s)); [silent_output Ex Eo|].
  case_bool_decide as Hhd; [|cbn [negb] in Ex; silent_output Ex Eo].
  assert (data_at (heap (inst s)) p m) as (n & d & h & Hp & Hm).
  { apply dec_stable. intros E. apply Hnf. by eapply ChunkReused. }
  rewrite Hp in Ex. cbn [negb] in Ex.
  destruct (Z.ltb_spec r 0).
  { destruct rec; [by destruct Hnf; eapply WriteRecovered|]. silent_output Ex Eo. }
  cbn [negb] in Ex. unfold sound. rewrite Ex. split; [done|]. intros s' [= <-].
  assert (body_ok (DataPkt n d h)) as Hb.
  { destruct Hw as (_ & _ & Hok). destruct (Hok p) as (b & ? & ?); [|by simplify_eq].
    rewrite (packets_head _ _ Hhd). set_solver. }
  simpl in Hb. pose proof Hc as (_ & _ & Hmax & Hwid & _).
  assert (u64 (d + avbox_audiostream_frames2size r) = d + 4 * r) as Ed.
  { unfold avbox_audiostream_frames2size. rewrite (wrapu_small 64 r), (wrapu_small 64 (r * 4)) by lia.
    rewrite wrapu_small; lia. }
  rewrite Ed, (wrapu_small 64 (n - r)) by lia.
  destruct (written_ok s p n d h r (set_heap (set_clock (emit (inst s) (frames_at d (Z.to_nat r)))
    (s64 (frames (inst s) + r)) (clock_start (inst s)) (clock_offset (inst s)) (last_audio_time (inst s)))
    (<[p := DataPkt (n - r) (d + 4 * r) h]> (heap (inst s))))) as (H1 & H2 & H3);
    try done; try (by rewrite Eo); [lia|].
  split_and!; [exact H1| |done]. unfold abs at 1. rewrite H2, <- H3. by apply tape_play.
Qed.

Lemma step_count s : inv s -> sound ACount s.
Proof.
  intros Hi. pose proof (inv_nonneg s Hi) as (? & ? & ? & ?). pose proof Hi as (Hw & Hwr & Ho & Hc).
  destruct (out s) as [| | | | | | | | |p r| | | |] eqn:Eo; try (apply sound_blocked; cbn; by rewrite Eo).
  destruct Ho as (Hpcm & Hhd & Hr & Hd). unfold counts in Hc. rewrite Eo in Hc. cbn [owed] in Hc.
  unfold sound. cbn [exec]. rewrite Eo. split; [done|]. intros s' [= <-]. unfold output_count.
  rewrite s32_small by lia.
  assert (held (signal (wr s)) = held (wr s)) as Eh by (by destruct (wr s)).
  split_and!; [|cbn|done].
  - unfold inv, counts. cbn. rewrite Eh. split_and!; try done; try lia. by destruct (wr s).
  - apply tape_silent_eq; [done|].
    unfold abs, remaining, call_of. cbn. rewrite Eo. f_equal. by destruct (wr s).
Qed.

Lemma peek_block_cases i woken r :
  queue_peek_block i woken = Some r ->
  (exists p, r = inr p /\ head (packets i) = Some p) \/ r = inl EAGAIN \/ r = inl ESHUTDOWN.
Proof.
  unfold queue_peek_block. destruct (packets i) as [|p l]; [|intros [= <-]; eauto].
  destruct woken, (closed i); intros; simplify_eq; auto.
Qed.

Lemma step_silent s a :
  inv s -> legal s a ->
  match a with
  | AStart | AStarted | APause _ _ | AResume | AGetTime _ | AAvail _ _
  | APeek _ | AIdle _ _ _ | AUnpause => True
  | _ => False
  end -> sound a s.
Proof.
  intros Hi Hl Ha. pose proof Hi as (_ & _ & Ho & _).
  assert (forall t, tape_step (callback (inst s)) a t t) as Ht.
  { intros. apply tape_silent. by destruct a. }
  assert (forall p, head (packets (inst s)) = Some p -> is_Some (heap (inst s) !! p)) as Hsome.
  { intros p Hp%head_elem. apply Hi. set_solver. }
  destruct a; try done.
  - destruct (started (inst s)) eqn:Es.
    + apply (sound_inst _ s (inst s)); try done. cbn. unfold avbox_audiostream_start. rewrite Es.
      by destruct s.
    + destruct (out s) eqn:Eo;
        [|by apply sound_blocked; cbn; unfold avbox_audiostream_start; rewrite Es, Eo..].
      apply (sound_output _ s (inst s) OInit); rewrite ?Eo; try done.
      cbn. unfold avbox_audiostream_start. by rewrite Es, Eo.
  - destruct (out s) eqn:Eo; try (by apply sound_blocked; cbn; rewrite Eo);
      (eapply sound_inst; [done| |done|cbn; by rewrite Eo]; done).
  - destruct (avbox_audiostream_pause (inst s) a d) as [x| |] eqn:E.
    + apply (sound_inst _ s (snd x)); try done; [by eapply pause_core|cbn; by rewrite E].
    + apply sound_blocked. cbn. by rewrite E.
    + apply pause_healthy in E; [done|]. apply dec_stable. intros Hh. destruct Hl as [_ []]. by apply PauseState.
  - apply (sound_inst _ s (snd (avbox_audiostream_resume (inst s)))); try done. apply resume_core.
  - destruct (avbox_audiostream_gettime (inst s) a) as [x| |] eqn:E.
    + apply (sound_inst _ s (snd x)); try done; [by eapply gettime_core|cbn; by rewrite E].
    + apply sound_blocked. cbn. by rewrite E.
    + apply gettime_healthy in E; [done|]. apply dec_stable. intros Hh. destruct Hl as [_ []]. by apply TimeState.
  - destruct (out s) as [| |[]| | | | | | | | | | |] eqn:Eo; try (by apply sound_blocked; cbn; rewrite Eo).
    assert (exec (AAvail avail recovered) s =
            Ok (with_output s (output_avail (inst s) avail recovered))) as Ex by (cbn; by rewrite Eo).
    unfold output_avail in Ex. destruct (avail <? 0); [|silent_output Ex Eo].
    destruct recovered; silent_output Ex Eo.
  - destruct (out s) as [| |[]|t| | | | | | | | | |] eqn:Eo;
      try (by apply sound_blocked; cbn; rewrite Eo);
      (destruct (queue_peek_block (inst s) woken) as [x|] eqn:Ep;
       [|by apply sound_blocked; cbn; unfold output_peek, output_timedpeek; rewrite Eo, Ep];
       destruct (peek_block_cases _ _ _ Ep) as [(p & -> & Hp)|[->| ->]];
       (eapply sound_output; [eassumption| | | | |done|
          cbn [exec]; unfold output_peek, output_timedpeek; rewrite Eo, Ep; reflexivity];
        rewrite ?Eo; first [done | by split; auto])).
  - destruct (out s) eqn:Eo; try (by apply sound_blocked; cbn; rewrite Eo).
    assert (exec (AIdle avail recovered state) s =
            Ok (with_output s (output_idle (inst s) avail recovered state))) as Ex by (cbn; by rewrite Eo).
    unfold output_idle in Ex. destruct (avail <? 0); [destruct recovered|];
      cbn [avbox_audiostream_recover negb] in Ex; try destruct (_ || _) in Ex; silent_output Ex Eo.
  - destruct (out s) eqn:Eo; try (by apply sound_blocked; cbn; rewrite Eo).
    eapply (sound_output _ s (inst s) (OTop false)); rewrite ?Eo; try done. cbn. by rewrite Eo.
Qed.

Lemma step_init_end s a :
  inv s -> match a with AInit _ _ _ _ | AEnd => True | _ => False end -> sound a s.
Proof.
  intros Hi Ha. pose proof Hi as (Hw & Hwr & Ho & Hc). destruct a; try done.
  - destruct (out s) eqn:Eo; try (by apply sound_blocked; cbn; rewrite Eo).
    unfold sound. cbn [exec]. rewrite Eo. split; [done|]. intros s' [= <-]. unfold output_init.
    unfold counts in Hc. rewrite Eo in Hc.
    destruct (open <? 0); [|destruct (forallb _ _)];
      (split_and!; [done| |done]; apply tape_silent_eq; [done|]; unfold abs, remaining; by rewrite Eo).
  - destruct (out s) eqn:Eo; try (by apply sound_blocked; cbn; rewrite Eo).
    unfold sound. cbn [exec]. rewrite Eo. split; [done|]. intros s' [= <-].
    assert (held (signal (wr s)) = held (wr s)) as Eh by (by destruct (wr s)).
    unfold counts in Hc. rewrite Eo in Hc.
    split_and!; [|apply tape_silent_eq; [done|]; unfold abs, remaining, call_of; cbn; rewrite Eo;
      f_equal; by destruct (wr s)|done].
    unfold inv, counts. cbn. rewrite Eh. split_and!; try apply Hc; try done. by destruct (wr s).
Qed.

Lemma alloc_callback i mem p i' : alloc_packet i mem = Some (p, i') -> callback i' = callback i.
Proof. unfold alloc_packet. intros. repeat case_match; by simplify_eq. Qed.

Lemma commit_callback i d n h mem : callback (snd (write_commit i d n h mem)) = callback i.
Proof.
  unfold write_commit. destruct (alloc_packet i mem) as [[p i']|] eqn:E; [|done].
  exact (alloc_callback _ _ _ _ E).
Qed.

Lemma step_sound s a : inv s -> legal s a -> sound a s.
Proof.
  intros Hi Hl. destruct a; try (by apply step_silent); try (by apply step_init_end).
  - split; [cbn; by destruct (wr s)|]. intros s' E.
    pose proof (step_write _ _ _ _ _ _ Hi Hl E) as [H1 H2]. split_and!; try done.
    cbn in E. destruct (wr s); try done. injection E as <-. cbn. unfold avbox_audiostream_write.
    destruct (n =? 0); [done|]. destruct (_ <? _); [done|]. apply commit_callback.
  - split; [cbn; by destruct (wr s)|]. intros s' E.
    pose proof (step_setclock _ _ _ _ Hi Hl E) as [H1 H2]. split_and!; try done.
    cbn in E. destruct (wr s); try done. injection E as <-. cbn. unfold avbox_audiostream_setclock.
    destruct (alloc_packet (inst s) mem) as [[p i']|] eqn:Ea; [|done]. exact (alloc_callback _ _ _ _ Ea).
  - split; [cbn; destruct (wr s) as [|? ? ? b|]; try done; by destruct (spurious || b)|]. intros s' E.
    pose proof (step_wake _ _ _ _ Hi Hl E) as [H1 H2]. split_and!; try done.
    cbn in E. destruct (wr s) as [|? ? ? b|]; try done. destruct (spurious || b); [|done].
    injection E as <-. cbn. unfold write_wake. destruct (_ <? _); [done|]. by rewrite commit_callback.
  - by apply step_put.
  - destruct (legal_flush _ _ Hl) as [Hpcm Hpw]; [done|].
    destruct (drop_ok s d (ADrop d)) as [H1 H2]; [done..|]. unfold sound. cbn [exec].
    destruct (avbox_audiostream_drop (inst s) d) as [i| |]; try done. split; [done|].
    intros s' [= <-]. destruct (H2 i eq_refl) as (? & ? & ? & _). done.
  - by apply step_destroy.
  - by apply step_packet.
  - by apply step_clockget.
  - by apply step_output.
  - by apply step_count.
  - by apply step_finish.
Qed.

(** No step changes the limit. *)
Lemma release_max i p i' : release_packet i p = Some i' -> max_frames i' = max_frames i.
Proof.
  unfold release_packet. destruct (heap i !! p) as [b|]; [|done]. intros [= <-].
  destruct b; simpl; [|done]. by destruct (negb (callback_handle =? 0) && callback i).
Qed.

Lemma drop_loop_max l : forall i i', drop_loop i l = Some i' -> max_frames i' = max_frames i.
Proof.
  induction l as [|p l IH]; intros i i' H; [by simplify_eq/=|]. cbn [drop_loop] in H.
  cbn [heap set_packets] in H. destruct (heap i !! p) as [b|]; [|done]. cbn [mbind option_bind] in H.
  destruct (release_packet _ p) as [i2|] eqn:E; [|done]. apply release_max in E.
  rewrite (IH _ _ H), E. by destruct b.
Qed.

Lemma drop_max i d i' : avbox_audiostream_drop i d = Ok i' -> max_frames i' = max_frames i.
Proof.
  unfold avbox_audiostream_drop, __avbox_audiostream_drop. intros H.
  destruct (avbox_audiostream_pcm_drain i d); try done.
  destruct (drop_loop i (packets i)) eqn:E; [|done]. injection H as <-. by eapply drop_loop_max.
Qed.

Lemma get_max i p i' : get_and_release i p = Ok i' -> max_frames i' = max_frames i.
Proof.
  unfold get_and_release. intros H. destruct (packets i) as [|q l]; [by case_match|].
  destruct (q =? p); [|done]. destruct (release_packet _ p) eqn:E; [|done]. injection H as <-.
  by apply release_max in E.
Qed.

Lemma commit_max i d n h mem : max_frames (snd (write_commit i d n h mem)) = max_frames i.
Proof. unfold write_commit, alloc_packet. by repeat case_match; simplify_eq. Qed.

Lemma exec_max a s s' : exec a s = Ok s' -> max_frames (inst s') = max_frames (inst s).
Proof.
  destruct a; cbn [exec]; intros H.
  - destruct (wr s); try done. injection H as <-. cbn. unfold avbox_audiostream_write.
    destruct (n =? 0); [done|]. destruct (_ <? _); [done|]. apply commit_max.
  - destruct (wr s); try done. injection H as <-. cbn. unfold avbox_audiostream_setclock, alloc_packet.
    by repeat case_match; simplify_eq.
  - destruct (wr s) as [| |]; try done. destruct (_ || _); [|done]. injection H as <-. cbn.
    unfold write_wake. destruct (_ <? _); [done|]. by rewrite commit_max.
  - destruct (wr s); try done. unfold put_packet, write_put in H. destruct node; [by simplify_eq/=|].
    destruct (release_packet _ _) eqn:E; [|done]. injection H as <-. by apply release_max in E.
  - destruct (avbox_audiostream_start _), (out s); by simplify_eq/=.
  - destruct (out s); by simplify_eq/=.
  - destruct (avbox_audiostream_pause (inst s) a d) eqn:E; try done. injection H as <-.
    apply pause_core in E. by injection E.
  - injection H as <-. cbn. unfold avbox_audiostream_resume. by destruct (negb _).
  - destruct (avbox_audiostream_drop (inst s) d) eqn:E; try done. injection H as <-.
    by apply drop_max in E.
  - destruct (avbox_audiostream_gettime (inst s) a) eqn:E; try done. injection H as <-.
    apply gettime_core in E. by injection E.
  - unfold destroy_begin in H. destruct (avbox_audiostream_drop (inst s) d) eqn:E; try done.
    apply drop_max in E. destruct (running a); injection H as <-; exact E.
  - destruct (out s); try done. injection H as <-. unfold output_init. by repeat case_match.
  - destruct (out s) as [| |[]| | | | | | | | | | |]; try done. injection H as <-. unfold output_avail.
    destruct (_ <? _); [by destruct recovered|done].
  - destruct (out s) as [| |[]| | | | | | | | | | |]; try done;
      [destruct (output_peek _ _)|destruct (output_timedpeek _ _)]; by simplify_eq/=.
  - destruct (out s); try done. injection H as <-. unfold output_idle.
    destruct (_ <? _); [destruct recovered|]; cbn; by repeat case_match.
  - destruct (out s); try done. destruct (output_packet _ _ _ _) as [x| |] eqn:E; try done.
    injection H as <-. unfold output_packet in E.
    by repeat case_match; simplify_eq; try done; destruct (w_recovered a); simplify_eq/=.
  - destruct (out s); try done. destruct (get_and_release _ _) eqn:E; try done. injection H as <-.
    by apply get_max in E.
  - destruct (out s); try done. destruct (output_write _ _ _ _ _) as [x| |] eqn:E; try done.
    injection H as <-. unfold output_write in E. destruct recovered; cbn in E;
    by repeat case_match; simplify_eq/=.
  - destruct (out s); by simplify_eq/=.
  - destruct (out s); by simplify_eq/=.
  - destruct (out s); try done. destruct (output_finish _ _) as [x| |] eqn:E; try done.
    injection H as <-. unfold output_finish in E. repeat case_match; simplify_eq; [|done].
    by apply get_max in E.
  - destruct (out s); by simplify_eq/=.
Qed.

Lemma run_max acts s0 s : legal_run acts s0 s -> max_frames (inst s) = max_frames (inst s0).
Proof. induction 1 as [|acts a s u v Hr IH Hl Hx]; [done|]. by rewrite (exec_max _ _ _ Hx). Qed.

Lemma inv_initial max per cb : 0 <= max -> 0 <= maxn -> max + maxn < 2 ^ 31 -> inv (initial max per cb).
Proof.
  intros. unfold inv, counts, wf. cbn. split_and!; try done; try lia.
  - apply NoDup_nil_2.
  - intros p. rewrite lookup_empty. split; [by intros [? ?]|set_solver].
  - set_solver.
Qed.

Lemma run_sound acts s0 s :
  legal_run acts s0 s -> inv s0 ->
  inv s /\ callback (inst s) = callback (inst s0) /\
  tape_run (callback (inst s0)) acts (abs s0) (abs s).
Proof.
  induction 1 as [s|acts a s u v Hr IH Hl Hx]; intros Hi.
  - split_and!; [done..|apply tape_nil].
  - destruct (IH Hi) as (Hu & Hcb & Ht). destruct (step_sound u a Hu Hl) as [_ Hs].
    destruct (Hs v Hx) as (Hv & Hstep & Hcb'). rewrite Hcb in *.
    split_and!; [done..|]. by eapply tape_snoc.
Qed.
End runs.

(** ** Properties *)

(** C5. The audio stream is a tape: in every run of the decoder, control and
    output threads, until the first fault ([fault]: a flush while the device
    is closed or between the playing of a packet and its removal, a device
    in an unexpected state, a failing write that is recovered from, a packet
    flushed and used again behind the output thread's back), what the device
    and the owner have been given ([io]: each frame by its address, each
    clock change, each buffer handed back) is the tape's [done], the queue
    the tape's [todo]; so frames are played in the order they were accepted,
    each once and from the accepted buffer, clock changes take effect
    between the right frames, and a buffer goes back to its owner exactly
    once, after its last frame or when it is flushed or refused, also when
    the flush comes while the output thread has a packet in hand.  A step
    crashes only by one of these faults. *)
Theorem audio_refines_tape (maxn max per : Z) (cb : bool) (acts : list action) (s : system) :
  0 <= max -> 0 <= maxn -> max + maxn < 2 ^ 31 ->
  legal_run maxn acts (initial max per cb) s ->
  tape_run cb acts (Tape [] [] None) (Tape (io (inst s)) (remaining s) (call_of s)) /\
  forall a, contract maxn s a -> exec a s = Crash -> fault s a.
Proof.
  intros Hm Hn Hw Hr.
  destruct (run_sound maxn _ _ _ Hr) as (Hi & _ & Ht); [by apply inv_initial|].
  split; [exact Ht|]. intros a Hc Hx. destruct (audio_fault_or_not s a) as [|Hf]; [done|].
  by destruct (step_sound maxn s a Hi (conj Hc Hf)).
Qed.

(** The writer's bound: the frames counted as queued never exceed
    [max_frames] by more than the largest write, are never negative and
    never overflow the [int]; as long as no packet is lost for want of a
    queue node they are exactly the frames in the queue, in the writer's
    hands and written but not yet subtracted. *)
Lemma queued_frames_bounded (maxn max per : Z) (cb : bool) (acts : list action) (s : system) :
  0 <= max -> 0 <= maxn -> max + maxn < 2 ^ 31 ->
  legal_run maxn acts (initial max per cb) s ->
  0 <= queued_frames (inst s) <= max + maxn /\
  queued_frames (inst s) = total (heap (inst s)) (packets (inst s)) +
    total (heap (inst s)) (held (wr s)) + owed (out s) + lost s.
Proof.
  intros Hm Hn Hw Hr.
  destruct (run_sound maxn _ _ _ Hr) as (Hi & _ & _); [by apply inv_initial|].
  pose proof (inv_nonneg maxn s Hi). pose proof Hi as (_ & _ & _ & Hc).
  pose proof (run_max maxn _ _ _ Hr) as Hmax. unfold counts in Hc. simpl in Hmax. lia.
Qed.

(** ** Liveness of the output thread

    The thread alone, with a device that has room, plays [take m] of the
    [m] frames it is given and never fails. *)

Section liveness.
Variable maxn : Z.
Variable take : Z -> Z.

Definition dry : drain_answers := Drain [0] 0 0.
Definition room (s : system) : wait_answers := Wait 0 (period s) 1 true dry.

(** The next action of the output thread. *)
Definition next (s : system) : action :=
  match out s with
  | OTop false => AAvail 1 true
  | OTop true | OTimed _ => APeek false
  | OIdle => AIdle 1 true RUNNING
  | OHave _ => APacket (room s)
  | OClock _ => AClockGet
  | OReady _ m => AOutput (take m) true
  | OPaused => AUnpause
  | OWrote _ _ => ACount
  | OCheck _ => AFinish
  | _ => AEnd
  end.

(** Runs the thread until the queue is empty, for at most [k] steps. *)
Fixpoint drive (k : nat) (s : system) : res system :=
  match k with
  | O => Ok s
  | S k =>
      match packets (inst s) with
      | [] => Ok s
      | _ => match exec (next s) s with Ok s' => drive k s' | r => r end
      end
  end.

Definition in_loop (o : ophase) : bool :=
  match o with ONone | OInit | OEnd | OExited | OStuck => false | _ => true end.

Definition rank (o : ophase) : Z :=
  match o with
  | OTop false => 5 | OTop true | OTimed _ => 4 | OIdle | OPaused | OCheck _ => 6
  | OHave _ => 3 | OClock _ | OReady _ _ => 2 | OWrote _ _ => 7
  | _ => 0
  end.

(** An exhausted packet that is still to be looked at once more. *)
Definition stale (s : system) : Z :=
  match out s, packets (inst s) with
  | (OWrote _ _ | OCheck _), _ | _, [] => 0
  | _, p :: _ => match heap (inst s) !! p with
                 | Some (DataPkt n _ _) => if n =? 0 then 6 else 0
                 | _ => 0
                 end
  end.

Definition potential (s : system) : Z :=
  6 * total (heap (inst s)) (packets (inst s)) + 12 * len (packets (inst s)) + rank (out s) + stale s.

(** The packet in hand is the one at the head, and the chunk was chosen for
    it. *)
Definition chunk_ok (s : system) : Prop :=
  match out s with
  | OHave p => head (packets (inst s)) = Some p
  | OReady p m => head (packets (inst s)) = Some p /\
      exists n d h, heap (inst s) !! p = Some (DataPkt n d h) /\ m = Z.min (period s) n
  | _ => True
  end.

Definition playing (s : system) : Prop :=
  inv maxn s /\ in_loop (out s) = true /\ paused (inst s) = false /\ quit (inst s) = false /\
  1 <= period s /\ chunk_ok s.

Hypothesis take_some : forall m, 1 <= m -> 1 <= take m <= m.
Hypothesis take_none : take 0 = 0.

Lemma stale_bounds s : 0 <= stale s <= 6.
Proof. unfold stale. repeat case_match; lia. Qed.

Lemma take_chunk m : 0 <= m -> 0 <= take m <= m /\ (1 <= m -> 1 <= take m) /\ (m = 0 -> take m = 0).
Proof.
  intros Hm. destruct (Z.eq_dec m 0) as [->|]; [rewrite take_none; lia|].
  specialize (take_some m ltac:(lia)). lia.
Qed.

(** The chunk about to be written is not empty unless the packet is. *)
Lemma chunk_bounds s p m :
  playing s -> out s = OReady p m ->
  exists n d h, head (packets (inst s)) = Some p /\ heap (inst s) !! p = Some (DataPkt n d h) /\
    body_ok maxn (DataPkt n d h) /\ m = Z.min (period s) n /\ 0 <= take m <= m.
Proof.
  intros (Hi & _ & _ & _ & Hper & Hm) Eo. pose proof Hi as (Hw & _ & Ho & _).
  unfold chunk_ok in Hm. rewrite Eo in Hm. destruct Hm as (Hhd & n & d & h & Hp & Hm).
  assert (body_ok maxn (DataPkt n d h)) as Hb.
  { destruct Hw as (_ & _ & Hok). destruct (Hok p) as (b & ? & ?); [|by simplify_eq].
    rewrite (packets_head _ _ Hhd). set_solver. }
  exists n, d, h. simpl in Hb. split_and!; try done; try apply take_chunk; lia.
Qed.

Lemma legal_next s : playing s -> legal maxn s (next s).
Proof.
  intros Hp. pose proof Hp as (_ & Hlo & _ & _ & _ & Hck). unfold chunk_ok in Hck.
  destruct (out s) as [| |[]| | |p| |p m| | | | | |] eqn:E; try done; unfold next; rewrite E;
    try (split; [done|]; intros H; inversion H; subst; try discriminate; congruence).
  destruct (chunk_bounds s p m Hp E) as (n & d & h & _ & Hd & _ & Hm & Ht).
  split; [cbn; rewrite E; lia|]. intros H. inversion H as [| | | |? ? ? Eo Hneg|? ? ? ? Eo Hhd Hno|]; subst; try done.
  - rewrite E in Eo. simplify_eq. lia.
  - rewrite E in Eo. simplify_eq. apply Hno. exists n, d, h. split; [done|lia].
Qed.

(** Steps that only move the thread. *)
Lemma move_progress s i o :
  playing s -> exec (next s) s = Ok (with_output s (o, i)) ->
  in_loop o = true -> chunk_ok (with_output s (o, i)) ->
  (packets i, heap i, paused i, quit i) =
    (packets (inst s), heap (inst s), paused (inst s), quit (inst s)) ->
  rank o + stale (with_output s (o, i)) < rank (out s) + stale s ->
  exists s', exec (next s) s = Ok s' /\ playing s' /\ potential s' < potential s.
Proof.
  intros Hpl Hx Ho Hck E Hr. pose proof (legal_next s Hpl) as Hl. destruct Hpl as (Hi & Hlo & Hpa & Hq & Hper & _).
  injection E as E1 E2 E3 E4.
  exists (with_output s (o, i)). split; [done|]. split.
  - split_and!; [|done|simpl; congruence..|done|done]. by apply (step_sound maxn s (next s)).
  - unfold potential. set (t := stale (with_output _ _)) in *. cbn [with_output inst out fst snd].
    rewrite E1, E2. lia.
Qed.

Lemma stale_move s i o :
  (packets i, heap i) = (packets (inst s), heap (inst s)) ->
  match out s with OWrote _ _ | OCheck _ => False | _ => True end ->
  match o with OWrote _ _ | OCheck _ => False | _ => True end ->
  stale (with_output s (o, i)) = stale s.
Proof.
  intros [= E1 E2] Ho Ho'. unfold stale. cbn. rewrite E1, E2. by destruct o, (out s).
Qed.

Lemma pop_progress s p i :
  playing s -> head (packets (inst s)) = Some p -> get_and_release (inst s) p = Ok i ->
  exec (next s) s = Ok (with_output s (OTop false, i)) ->
  pcm_handle (inst s) = true -> owed (out s) = 0 -> pkt_frames (heap (inst s) !! p) = 0 ->
  0 <= rank (out s) ->
  exists s', exec (next s) s = Ok s' /\ playing s' /\ potential s' < potential s.
Proof.
  intros (Hi & Hlo & Hpa & Hq & Hper & _) Hhd Hg Hx Hpcm Hob Hfr Hrk.
  destruct (get_release_ok maxn s p (OTop false)) as (i' & E & H1 & _ & _ & _ & _ & H6 & H7); try done.
  rewrite Hg in E. injection E as <-. injection H6 as P1 P2 P3.
  exists (with_output s (OTop false, i)). split; [done|]. split.
  - split_and!; try done; simpl; congruence.
  - pose proof (stale_bounds (with_output s (OTop false, i))). pose proof (stale_bounds s).
    unfold potential. set (t := stale (with_output _ _)) in *. cbn [with_output inst out fst snd rank].
    rewrite H7, P1, (packets_head _ _ Hhd). cbn [tail total]. rewrite len_cons, Hfr. lia.
Qed.

Lemma write_progress s p m :
  playing s -> out s = OReady p m ->
  exists s', exec (next s) s = Ok s' /\ playing s' /\ potential s' < potential s.
Proof.
  intros Hpl Eo. destruct (chunk_bounds s p m Hpl Eo) as (n & d & h & Hhd & Hp & Hb & Hm & Ht).
  pose proof (legal_next s Hpl) as Hl. destruct Hpl as (Hi & Hlo & Hpa & Hq & Hper & _).
  pose proof Hi as (Hw & _ & _ & Hc). simpl in Hb.
  destruct (take_chunk m) as (_ & Ht1 & Ht0); [lia|].
  destruct (step_sound maxn s (next s) Hi Hl) as [_ Hs].
  assert (exec (next s) s = Ok (with_output s (OWrote p (take m),
     set_heap (set_clock (emit (inst s) (frames_at d (Z.to_nat (take m))))
       (s64 (frames (inst s) + take m)) (clock_start (inst s)) (clock_offset (inst s))
       (last_audio_time (inst s)))
     (<[p := DataPkt (u64 (n - take m)) (u64 (d + avbox_audiostream_frames2size (take m))) h]>
        (heap (inst s)))))) as Hx.
  { unfold next. rewrite Eo. cbn [exec]. rewrite Eo. unfold output_write.
    rewrite Hq, Hpa, bool_decide_true, Hp by done. cbn [negb].
    destruct (Z.ltb_spec (take m) 0); [lia|]. done. }
  eexists. split; [exact Hx|]. specialize (Hs _ Hx) as (H1 & _). split; [by split_and!|].
  assert (stale s = if n =? 0 then 6 else 0) as Est.
  { unfold stale. rewrite Eo, (packets_head _ _ Hhd), Hp. done. }
  unfold potential. rewrite Est. cbn [with_output inst out fst snd set_heap set_clock emit packets heap].
  rewrite Eo. cbn [rank stale out]. rewrite (packets_head _ _ Hhd). cbn [total].
  pose proof Hw as Hw'. rewrite (packets_head _ _ Hhd) in Hw'.
  pose proof (wf_queued_notin _ _ _ _ _ _ Hw') as Hnin.
  rewrite lookup_insert_eq, total_insert, Hp by set_solver. cbn [pkt_frames].
  rewrite (wrapu_small 64 (n - take m)) by (unfold counts in Hc; lia).
  assert (forall i, stale (with_output s (OWrote p (take m), i)) = 0) as -> by done.
  destruct (Z.eqb_spec n 0); lia.
Qed.

(** One step of the thread, while the queue is not empty. *)
Lemma progress s :
  playing s -> packets (inst s) <> [] ->
  exists s', exec (next s) s = Ok s' /\ playing s' /\ potential s' < potential s.
Proof.
  intros Hp Hne. pose proof Hp as (Hi & Hlo & Hpa & Hq & Hper & Hck).
  pose proof Hi as (Hw & _ & Ho & Hc). destruct (packets (inst s)) as [|p l] eqn:Epk; [done|].
  assert (ok_at maxn (heap (inst s)) p) as (b & Hb & Hok) by (apply Hw; set_solver).
  destruct (out s) as [| |[]|t| |q|q|q m| |q r|q| | |] eqn:Eo; try done.
  - eapply (move_progress s (inst s) (OHave p)); try done; unfold next; rewrite ?Eo; try done.
    + cbn [exec]. rewrite Eo. unfold output_peek, queue_peek_block. by rewrite Epk.
    + unfold chunk_ok. cbn. by rewrite Epk.
    + rewrite stale_move by (by rewrite ?Eo). simpl. lia.
  - eapply (move_progress s (inst s) (OTimed _)); try done; unfold next; rewrite ?Eo; try done.
    + cbn [exec]. rewrite Eo. reflexivity.
    + rewrite stale_move by (by rewrite ?Eo). simpl. lia.
  - eapply (move_progress s (inst s) (OHave p)); try done; unfold next; rewrite ?Eo; try done.
    + cbn [exec]. rewrite Eo. unfold output_timedpeek, queue_peek_block. by rewrite Epk.
    + unfold chunk_ok. cbn. by rewrite Epk.
    + rewrite stale_move by (by rewrite ?Eo). simpl. lia.
  - eapply (move_progress s (inst s) (OTop false)); try done; unfold next; rewrite ?Eo; try done.
    + cbn [exec]. rewrite Eo. unfold output_idle. simpl. by rewrite orb_true_r.
    + rewrite stale_move by (by rewrite ?Eo). simpl. lia.
  - destruct Ho as [Hpcm _]. unfold chunk_ok in Hck. rewrite Eo, Epk in Hck. injection Hck as <-. destruct b as [n d h|v].
    + assert (exec (next s) s = Ok (with_output s (OReady p (Z.min (period s) n), inst s))) as Hx.
      { unfold next. rewrite Eo. cbn [exec]. rewrite Eo. unfold output_packet. rewrite Hb. cbn.
        destruct (SFeqb _ _); [done|]. destruct (Z.ltb_spec (period s) (Z.min (period s) n)); [lia|].
        rewrite andb_false_r. destruct (Z.ltb_spec (period s) 0); [lia|]. done. }
      eapply (move_progress s (inst s) (OReady p _)); [done|exact Hx|done| |done|].
      * unfold chunk_ok. cbn. rewrite Epk. split; [done|]. by exists n, d, h.
      * rewrite stale_move by (by rewrite ?Eo). rewrite Eo. simpl. lia.
    + eapply (move_progress s (emit (set_clock (inst s) 0 v 0 (last_audio_time (inst s))) [ClockSet v])
                (OClock p)); try done; unfold next; rewrite ?Eo; try done.
      * cbn [exec]. rewrite Eo. unfold output_packet. rewrite Hb. unfold avbox_audiostream_pcm_drain.
        by rewrite Hpcm.
      * rewrite stale_move by (by rewrite ?Eo). simpl. lia.
  - destruct Ho as (Hpcm & Hhd & v & Hv).
    destruct (get_release_ok maxn s q (OTop false)) as (i & E & _); try done;
      [by rewrite Eo|by rewrite Hv|].
    eapply (pop_progress s q i); try done; rewrite ?Eo, ?Epk, ?Hv; try done; unfold next; rewrite ?Eo; try done.
    cbn [exec]. by rewrite Eo, E.
  - by eapply write_progress.
  - eapply (move_progress s (inst s) (OTop false)); try done; unfold next; rewrite ?Eo; try done.
    + cbn [exec]. by rewrite Eo.
    + rewrite stale_move by (by rewrite ?Eo). simpl. lia.
  - assert (exec (next s) s = Ok (System (output_count (inst s) r) (OCheck q) (signal (wr s))
              (period s) (lost s))) as Hx by (unfold next; rewrite Eo; cbn; by rewrite Eo).
    eexists. split; [exact Hx|]. split.
    + split_and!; try done. apply (step_sound maxn s (next s)); [done|by apply legal_next|done].
    + unfold potential, stale. cbn -[total]. rewrite Eo. cbn. lia.
  - destruct Ho as (Hpcm & Hhd & n & d & h & Hv & Hn).
    assert (exec (next s) s = res_map (fun i => with_output s (OTop false, i)) (output_finish (inst s) q))
      as Hx by (unfold next; rewrite Eo; cbn; by rewrite Eo).
    unfold output_finish in Hx. rewrite Hv in Hx. destruct (Z.eqb_spec n 0) as [->|].
    + destruct (get_release_ok maxn s q (OTop false)) as (i & E & _); try done;
        [by rewrite Eo|by rewrite Hv|].
      rewrite E in Hx. eapply (pop_progress s q i); try done; rewrite ?Eo, ?Epk, ?Hv; try done.
    + eapply (move_progress s (inst s) (OTop false)); try done.
      rewrite Epk in Hhd. injection Hhd as <-.
      unfold stale. cbn. rewrite Epk, Eo, Hv. destruct (Z.eqb_spec n 0); [done|]. simpl. lia.
Qed.

(** Playing keeps what is played and what is queued together. *)
Lemma tape_conserves cb a t t' :
  plays a \/ (forall t u, tape_step cb a t u -> t = u) -> tape_step cb a t t' ->
  done t ++ todo t = done t' ++ todo t'.
Proof.
  intros [Ha|Ha] H; [|by apply Ha in H as ->].
  destruct H; try done; try (by destruct a). cbn. by rewrite <- app_assoc.
Qed.

Lemma next_conserves cb s t t' :
  in_loop (out s) = true -> tape_step cb (next s) t t' -> done t ++ todo t = done t' ++ todo t'.
Proof.
  intros Hl. apply tape_conserves. unfold next.
  destruct (out s) as [| |[]|t0| |q|q|q m| |q r|q| | |]; try done; try (by left); right;
    intros u v H; by inversion H.
Qed.

Lemma drive_drains k : forall s, playing s -> potential s <= Z.of_nat k ->
  exists s', drive k s = Ok s' /\ packets (inst s') = [] /\ playing s' /\
    io (inst s') ++ remaining s' = io (inst s) ++ remaining s.
Proof.
  induction k as [|k IH]; intros s Hp Hk.
  - exists s. split; [done|]. split_and!; try done.
    destruct (packets (inst s)) eqn:E; [done|]. destruct (progress s Hp) as (s' & _ & Hp' & Hlt).
    { by rewrite E. }
    exfalso. assert (0 <= potential s'); [|lia].
    unfold potential. pose proof (stale_bounds s'). destruct Hp' as (Hi & _).
    pose proof (inv_nonneg maxn s' Hi). pose proof (len_nonneg (packets (inst s'))).
    assert (0 <= rank (out s')) by (by destruct (out s') as [| |[]| | | | | | | | | | |]). lia.
  - cbn [drive]. destruct (packets (inst s)) eqn:E; [by exists s|].
    destruct (progress s Hp) as (s' & Hx & Hp' & Hlt); [by rewrite E|]. rewrite Hx.
    destruct (IH s' Hp') as (s'' & H1 & H2 & H3 & H4); [lia|].
    exists s''. split_and!; try done. rewrite H4. symmetry.
    pose proof (legal_next s Hp) as Hl. destruct Hp as (Hi & Hlo & _).
    destruct (step_sound maxn s (next s) Hi Hl) as [_ Hs].
    destruct (Hs s' Hx) as (_ & Ht & _). by apply next_conserves in Ht.
Qed.
End liveness.

(** C27. The output thread makes progress: from the head of its loop in any
    reachable state that is not paused and not quitting, with a device that
    has room and takes at least one frame of what it is given, the thread
    empties the queue in a bounded number of its own steps (six per frame,
    twelve per packet and a few to get there), and by then the device and
    the owner have been given all that was queued. *)
Theorem output_drains (maxn max per : Z) (cb : bool) (acts : list action) (s : system)
    (take : Z -> Z) :
  0 <= max -> 0 <= maxn -> max + maxn < 2 ^ 31 ->
  legal_run maxn acts (initial max per cb) s ->
  holds_none (out s) = true -> paused (inst s) = false -> quit (inst s) = false -> 1 <= period s ->
  (forall m, 1 <= m -> 1 <= take m <= m) -> take 0 = 0 ->
  exists s',
    drive take (Z.to_nat (6 * total (heap (inst s)) (packets (inst s)) +
                          12 * len (packets (inst s)) + 12)) s = Ok s' /\
    packets (inst s') = [] /\ io (inst s') = io (inst s) ++ remaining s.
Proof.
  intros Hm Hn Hw Hr Ho Hpa Hq Hper Ht1 Ht0.
  destruct (run_sound maxn _ _ _ Hr) as (Hi & _ & _); [by apply inv_initial|].
  assert (playing maxn s) as Hp.
  { split_and!; try done; [by destruct (out s)|]. unfold chunk_ok. by destruct (out s). }
  pose proof (stale_bounds s). pose proof (inv_nonneg maxn s Hi).
  assert (rank (out s) <= 6) by (destruct (out s) as [| |[]| | | | | | | | | | |]; simpl; done || lia).
  pose proof (len_nonneg (packets (inst s))).
  destruct (drive_drains maxn take Ht1 Ht0 (Z.to_nat (6 * total (heap (inst s)) (packets (inst s)) +
    12 * len (packets (inst s)) + 12)) s Hp) as (s' & Hd & He & _ & Hio).
  { unfold potential. lia. }
  exists s'. split_and!; [done..|]. rewrite <- Hio.
  assert (remaining s' = []) as ->; [|by rewrite app_nil_r].
  unfold remaining. rewrite He. by destruct (out s').
Qed.


(** Destruction frees every packet: when the queue has been flushed and the
    writer is idle nothing is left allocated. *)
Lemma destroy_frees_packets maxn s :
  inv maxn s -> packets (inst s) = [] -> held (wr s) = [] ->
  avbox_audiostream_destroy (inst s) = ∅.
Proof.
  intros ((_ & Hd & _) & _) Hp Hh. rewrite Hp, Hh, app_nil_r in Hd. cbn [app] in Hd.
  apply map_empty. intros q. unfold avbox_audiostream_destroy.
  assert (forall l, foldr (fun p h => delete p h) (heap (inst s)) l !! q =
                    if decide (q ∈ l) then None else heap (inst s) !! q) as E.
  { induction l as [|x l IH]; [done|]. cbn [foldr]. destruct (decide (q = x)) as [->|].
    - rewrite lookup_delete_eq, decide_True by set_solver. done.
    - rewrite lookup_delete_ne, IH by done. do 2 case_decide; set_solver. }
  rewrite E. case_decide; [done|]. apply eq_None_not_Some. by rewrite Hd.
Qed.

(** ** Divergences *)

(** A recovered device error moves the packet backwards: when
    [snd_pcm_writei] fails and [snd_pcm_recover] succeeds, the code goes on
    with the (negative) error code as the number of frames written: the
    data pointer moves back by that many frames, the packet and the queue
    statistics grow by them, so frames are repeated, or memory before the
    buffer is played when the packet had just been started. *)
Lemma write_error_rewinds (i : audiostream) (p n data h m e : Z) :
  heap i !! p = Some (DataPkt n data h) -> head (packets i) = Some p ->
  quit i = false -> paused i = false ->
  1 <= e -> 4 * e <= data < 2 ^ 64 -> 0 <= n -> n + e < 2 ^ 64 ->
  exists i', output_write i p m (- e) true = Ok (OWrote p (- e), i') /\
    heap i' !! p = Some (DataPkt (n + e) (data - 4 * e) h) /\ io i' = io i /\
    queued_frames (output_count i' (- e)) = s32 (queued_frames i + e).
Proof.
  intros Hp Hhd Hq Hpa He Hd Hn Hne. unfold output_write. rewrite Hq, Hpa, bool_decide_true, Hp by done.
  cbn [negb]. destruct (Z.ltb_spec (- e) 0); [|lia]. cbn [avbox_audiostream_recover negb].
  eexists. split; [reflexivity|]. split_and!.
  - cbn [heap set_heap set_clock]. rewrite lookup_insert_eq. do 2 f_equal.
    + unfold wrapu. rewrite Z.mod_small; lia.
    + unfold avbox_audiostream_frames2size, wrapu. rewrite Z.mul_mod_idemp_l, Zplus_mod_idemp_r by lia.
      rewrite Z.mod_small; lia.
  - done.
  - cbn. f_equal. lia.
Qed.

(** Every action but destruction, start-up and a spurious wake-up. *)
Definition no_rescue (a : action) : bool :=
  match a with AWake true _ | ADestroy _ | AStart | AStarted | AInit _ _ _ _ => false | _ => true end.

Definition left_loop (o : ophase) : bool :=
  match o with OEnd | OExited | OStuck => true | _ => false end.

(** The writer sleeps with nothing left to wake it, unless the output
    thread ends. *)
Definition stranded (s : system) : Prop :=
  left_loop (out s) = true \/
  (exists d n h, wr s = WBlocked d n h false) /\ packets (inst s) = [] /\ holds_none (out s) = true.

Fixpoint run_actions (acts : list action) (s : system) : res system :=
  match acts with
  | [] => Ok s
  | a :: acts => match exec a s with Ok s' => run_actions acts s' | r => r end
  end.

Lemma left_loop_stays s a s' :
  left_loop (out s) = true -> no_rescue a = true -> exec a s = Ok s' -> left_loop (out s') = true.
Proof.
  intros Ho Ha H.
  destruct (out s) eqn:Eo; try done; destruct a; try done; cbn [exec] in H; rewrite ?Eo in H; try done;
    try (by simplify_eq/=; rewrite ?Eo);
    try (destruct (wr s); try done; try (destruct (_ || _); try done); by simplify_eq/=; rewrite ?Eo);
    try (destruct (wr s); try done; unfold of_option, put_packet in H;
         destruct (write_put _ _ _); by simplify_eq/=; rewrite ?Eo);
    try (destruct (avbox_audiostream_pause _ _ _); by simplify_eq/=; rewrite ?Eo);
    try (destruct (avbox_audiostream_drop _ _); by simplify_eq/=; rewrite ?Eo);
    try (destruct (avbox_audiostream_gettime _ _); by simplify_eq/=; rewrite ?Eo).
Qed.

Lemma drop_empty i d i' :
  packets i = [] -> avbox_audiostream_drop i d = Ok i' -> packets i' = [].
Proof.
  unfold avbox_audiostream_drop, __avbox_audiostream_drop. intros E H.
  destruct (avbox_audiostream_pcm_drain i d); try done. rewrite E in H. by simplify_eq/=.
Qed.

Lemma stranded_stays s a s' :
  stranded s -> no_rescue a = true -> exec a s = Ok s' -> stranded s'.
Proof.
  intros [Hl|((d & n & h & Ew) & Ep & Ho)] Ha H; [left; by eapply left_loop_stays|].
  assert (forall i o, packets i = [] -> holds_none o || left_loop o = true ->
    stranded (System i o (wr s) (period s) (lost s))) as Hmk.
  { intros i o Hi Hoo. apply orb_true_iff in Hoo as [|]; [right|by left]. split_and!; [|done..].
    rewrite Ew. by exists d, n, h. }
  destruct a; try done; cbn [exec] in H; rewrite ?Ew in H; try done.
  - destruct spurious; done.
  - destruct (avbox_audiostream_pause _ _ _) as [x| |] eqn:E; try done. injection H as <-.
    apply pause_core in E. injection E as E1 _ _ _ _ _ _ _. apply Hmk; [congruence|by rewrite Ho].
  - injection H as <-. pose proof (resume_core (inst s)) as E. injection E as E1 _ _ _ _ _ _ _.
    apply Hmk; [congruence|by rewrite Ho].
  - destruct (avbox_audiostream_drop _ _) as [x| |] eqn:E; try done. injection H as <-.
    apply Hmk; [by eapply drop_empty|by rewrite Ho].
  - destruct (avbox_audiostream_gettime _ _) as [x| |] eqn:E; try done. injection H as <-.
    apply gettime_core in E. injection E as E1 _ _ _ _ _ _ _. apply Hmk; [congruence|by rewrite Ho].
  - destruct (out s) as [| |[]| | | | | | | | | | |]; try done. injection H as <-. unfold output_avail.
    destruct (_ <? 0); [destruct recovered|]; by apply Hmk.
  - destruct (out s) as [| |[]| | | | | | | | | | |]; try done; unfold output_peek, output_timedpeek,
      queue_peek_block in H; rewrite Ep in H; destruct woken, (closed (inst s)); simplify_eq/=; by apply Hmk.
  - destruct (out s); try done. injection H as <-. unfold output_idle.
    destruct (_ <? 0); [destruct recovered|]; cbn [avbox_audiostream_recover negb];
      try destruct (_ || _); by apply Hmk.
  - destruct (out s); done.
  - destruct (out s); done.
  - destruct (out s); done.
  - destruct (out s); try done. injection H as <-. by apply Hmk.
  - destruct (out s); done.
  - destruct (out s); done.
  - destruct (out s); done.
Qed.

(** A flush strands a blocked writer: [avbox_audiostream_drop] empties
    the queue but signals only [io_wake].  When the decoder is waiting in
    [avbox_audiostream_write] for room, after the flush there is room (the
    count is zero) but no sequence of steps of the output thread and of
    pause, resume, further flushes and clock readings wakes it, until the
    output thread itself ends. *)
Lemma drop_strands_writer (maxn max per : Z) (cb : bool) (acts0 : list action) (s s1 : system)
    (data n h : Z) (d : drain_answers) :
  0 <= max -> 0 <= maxn -> max + maxn < 2 ^ 31 ->
  legal_run maxn acts0 (initial max per cb) s -> lost s = 0 ->
  wr s = WBlocked data n h false -> holds_none (out s) = true ->
  exec (ADrop d) s = Ok s1 ->
  queued_frames (inst s1) = 0 /\
  forall acts s2, forallb no_rescue acts = true -> run_actions acts s1 = Ok s2 ->
    left_loop (out s2) = true \/ exists data n h, wr s2 = WBlocked data n h false.
Proof.
  intros Hm Hn Hwd Hr Hlost Hw Ho Hx.
  destruct (run_sound maxn _ _ _ Hr) as (Hi & _ & _); [by apply inv_initial|].
  assert (pcm_handle (inst s) = true /\ past_write (out s) = false) as [Hpcm Hpw].
  { destruct Hi as (_ & _ & Hi & _). by destruct (out s). }
  destruct (drop_ok maxn s d (ADrop d) Hi Hpcm Hpw eq_refl) as [_ Hd]. cbn [exec] in Hx.
  destruct (avbox_audiostream_drop (inst s) d) as [i| |]; try done. injection Hx as <-.
  destruct (Hd i eq_refl) as (Hi1 & _ & _ & Hp & _). split.
  - destruct Hi1 as (_ & _ & _ & Hc & _). cbn in Hc |- *. rewrite Hp, Hw, Hlost in Hc. rewrite Hc.
    by destruct (out s).
  - intros acts s2 Hf Hrun.
    assert (stranded (with_inst s i)) as Hst by (right; split_and!; eauto).
    clear - Hst Hf Hrun. revert Hst Hf Hrun. generalize (with_inst s i) as u.
    induction acts as [|a acts IH]; intros u Hst Hf Hrun.
    + injection Hrun as ->. destruct Hst as [?|(? & _)]; auto.
    + cbn in Hf. apply andb_true_iff in Hf as [Ha Hf]. cbn in Hrun.
      destruct (exec a u) as [u'| |] eqn:E; try done. eapply IH; [|done..]. by eapply stranded_stays.
Qed.

(** A started stream, for the runs below. *)
Definition start_acts : list action := [AStart; AInit 0 (fun _ => 0) 48000 4096; AStarted].

Definition device_ready : action := APacket (Wait 0 4096 1 true dry).

(** A flush between the last write of a packet (or the application of a
    clock packet) and its removal makes the thread get a packet it has not
    peeked, and abort(). *)
Lemma flush_before_get_aborts :
  run_actions (start_acts ++
    [AWrite 1000 3 71 (Some 1); APut true; AWrite 1100 3 72 (Some 2); APut true;
     APeek false; device_ready; AOutput 3 true; AWrite 1200 3 73 (Some 3);
     ADrop dry; ACount; APut true; AFinish]) (initial 2000 1024 true) = Crash /\
  run_actions (start_acts ++
    [ASetClock 1 (Some 1); APut true; APeek false; device_ready; AWrite 1000 3 71 (Some 2);
     ADrop dry; APut true; AClockGet]) (initial 2000 1024 true) = Crash.
Proof. vm_compute. done. Qed.

(** A flush between the choice of the chunk and the write is not noticed
    when the packet is recycled in between: four frames of a two-frame
    buffer are played. *)
Lemma flush_reuse_overreads :
  match run_actions (start_acts ++
    [AWrite 1000 100 71 (Some 1); APut true; APeek false; device_ready; ADrop dry;
     AWrite 2000 2 72 None; APut true; AOutput 4 true]) (initial 2000 1024 true) with
  | Ok s => io (inst s) = [Released 71; Frame 2000; Frame 2004; Frame 2008; Frame 2012]
  | _ => False
  end.
Proof. vm_compute. done. Qed.

(** Flushing (or destroying) a stream that was never started gives ALSA a
    NULL handle. *)
Lemma drop_before_start_crashes max per cb d :
  avbox_audiostream_drop (inst (initial max per cb)) d = Crash /\
  destroy_begin (inst (initial max per cb)) d = Crash.
Proof. done. Qed.

(** An unrecoverable error found while the queue is empty leaves through
    [end] with io_lock held, and [end] takes it again. *)
Lemma idle_error_self_deadlock i avail st :
  avail < 0 -> fst (output_idle i avail false st) = OStuck.
Proof. intros H. unfold output_idle. by destruct (Z.ltb_spec avail 0); [|lia]. Qed.

(** When the device has already run dry the computed timeout is zero, which
    [avbox_queue_timedpeek] takes for "no timeout": the underrun is not
    reported. *)
Lemma dry_device_waits_forever :
  let i := set_device (inst (initial 0 0 true)) 48000 4096 in
  fst (output_avail i 4096 true) = OTimed 0 /\ output_timedpeek i false = None.
Proof. vm_compute. done. Qed.

(** [pause] reports an error although it has paused, after it recovered
    from an underrun. *)
Lemma pause_reports_failure_after_recovery i a d :
  pcm_handle i = true -> st_avail a < 0 -> st_recovered a = true ->
  exists i', avbox_audiostream_pause i a d = Ok (-1, i') /\ paused i' = true.
Proof.
  intros Hp Ha Hr. unfold avbox_audiostream_pause. rewrite Hp, Hr. cbn [negb].
  destruct (Z.ltb_spec (st_avail a) 0); [|lia]. eexists. by split.
Qed.

(** A write that fails for want of a queue node hands the buffer back
    through the callback although it reports an error to its caller, and
    leaves its frames counted. *)
Lemma failed_put_releases i p n d h :
  heap i !! p = Some (DataPkt n d h) -> h <> 0 -> callback i = true ->
  exists i', write_put i p false = Some (WRet (inl ENOMEM), i') /\
    io i' = io i ++ [Released h] /\ queued_frames i' = queued_frames i.
Proof.
  intros Hp Hh Hc. unfold write_put, release_packet. rewrite Hp. cbn.
  destruct (Z.eqb_spec h 0); [done|]. rewrite Hc. cbn. eexists. by split_and!.
Qed.

(** ** Witnesses *)

(** Two packets with a clock change between them, on a device that takes
    two frames at a time. *)
Definition sample_acts : list action :=
  start_acts ++
  [AWrite 1000 3 71 (Some 1); APut true; ASetClock 500 (Some 2); APut true;
   AWrite 2000 1 72 (Some 3); APut true;
   APeek false; device_ready; AOutput 2 true; ACount; AFinish].

Definition sample_state : system :=
  match run_actions sample_acts (initial 2000 2 true) with Ok s => s | _ => initial 2000 2 true end.

(** Admissibility of a list of actions, by evaluation. *)
Fixpoint legal_all (maxn : Z) (acts : list action) (s : system) : Prop :=
  match acts with
  | [] => True
  | a :: acts =>
      (contract maxn s a /\ faulty_b s a = false) /\ match exec a s with Ok s' => legal_all maxn acts s' | _ => False end
  end.

Lemma legal_run_cons maxn a acts s u v :
  legal maxn s a -> exec a s = Ok u -> legal_run maxn acts u v -> legal_run maxn (a :: acts) s v.
Proof.
  intros Hl Hx Hr. revert Hl Hx. induction Hr as [u|acts b u w v Hr IH Hlb Hxb]; intros Hl Hx.
  - apply (legal_snoc maxn [] a s s u); [apply legal_nil|done..].
  - apply (legal_snoc maxn (a :: acts) b s w v); eauto.
Qed.

Lemma run_actions_legal maxn acts : forall s s',
  legal_all maxn acts s -> run_actions acts s = Ok s' -> legal_run maxn acts s s'.
Proof.
  induction acts as [|a acts IH]; intros s s' Hl Hr; cbn in *.
  - injection Hr as ->. apply legal_nil.
  - destruct Hl as [[Hc Hf] Hs]. destruct (exec a s) as [u| |] eqn:E; try done.
    eapply legal_run_cons; eauto. split; [done|]. by rewrite <- audio_fault_spec, Hf.
Qed.

Lemma audio_sample_run : legal_run 100 sample_acts (initial 2000 2 true) sample_state.
Proof.
  apply run_actions_legal; [|vm_compute; reflexivity].
  vm_compute. repeat split; try reflexivity; intros; congruence.
Qed.

Lemma audio_refines_tape_witness :
  tape_run true sample_acts (Tape [] [] None)
    (Tape [Frame 1000; Frame 1004] [Frame 1008; Released 71; ClockSet 500; Frame 2000; Released 72] None).
Proof.
  refine (proj1 (audio_refines_tape 100 2000 2 true sample_acts sample_state _ _ _ audio_sample_run)); lia.
Defined.

Lemma queued_frames_bounded_witness : 0 <= queued_frames (inst sample_state) <= 2000 + 100.
Proof.
  refine (proj1 (queued_frames_bounded 100 2000 2 true sample_acts sample_state _ _ _ audio_sample_run)); lia.
Defined.

Lemma output_drains_witness :
  exists s', drive (fun m => Z.min m 1) 60 sample_state = Ok s' /\ packets (inst s') = [] /\
    io (inst s') = [Frame 1000; Frame 1004; Frame 1008; Released 71; ClockSet 500; Frame 2000; Released 72].
Proof.
  refine (output_drains 100 2000 2 true sample_acts sample_state (fun m => Z.min m 1)
            _ _ _ audio_sample_run _ _ _ _ _ _); try reflexivity; try lia.
  vm_compute. congruence.
Defined.

Lemma write_error_rewinds_witness :
  exists i', output_write (inst sample_state) 1 1 (- 32) true = Ok (OWrote 1 (- 32), i') /\
    heap i' !! 1 = Some (DataPkt 33 880 71) /\ io i' = io (inst sample_state) /\
    queued_frames (output_count i' (- 32)) = 34.
Proof. apply (write_error_rewinds (inst sample_state) 1 1 1008 71 1 32); reflexivity || lia. Defined.

(** The decoder blocks on a full stream. *)
Definition blocked_acts : list action :=
  start_acts ++ [AWrite 1000 30 71 (Some 1); APut true; AWrite 2000 5 72 (Some 2)].

Definition blocked_state : system :=
  match run_actions blocked_acts (initial 20 2 true) with Ok s => s | _ => initial 20 2 true end.

Lemma blocked_run : legal_run 100 blocked_acts (initial 20 2 true) blocked_state.
Proof.
  apply run_actions_legal; [|vm_compute; reflexivity].
  vm_compute. repeat split; try reflexivity; intros; congruence.
Qed.

Lemma drop_strands_writer_witness :
  exists s1, exec (ADrop dry) blocked_state = Ok s1 /\ queued_frames (inst s1) = 0.
Proof.
  destruct (exec (ADrop dry) blocked_state) as [s1| |] eqn:E; [|exfalso; vm_compute in E; congruence..].
  exists s1. split; [reflexivity|].
  refine (proj1 (drop_strands_writer 100 20 2 true blocked_acts blocked_state s1 2000 5 72 dry
                   _ _ _ blocked_run _ _ _ E)); reflexivity || lia.
Defined.
