(* ===== verification/PlayerState.v ===== *)
(** * The player object (include/libavbox/ui/player_p.h, player.h)

    The state the control thread of the player keeps ([player]), the part
    of it that belongs to the stream being played ([pipeline]), the control
    messages and the calls the control thread makes into other components
    ([effect], recorded in [log] in the order they are made).  Pointers to
    objects of other components are booleans (not NULL). *)

From S2P Require Import Prelude.

(** ** Data *)

Inductive player_status := READY | BUFFERING | PLAYING | PAUSED.

#[export] Instance player_status_eq_dec : EqDecision player_status.
Proof. solve_decision. Defined.

(** Playback start-up stages. *)
Definition PLAYSTATE_READY : Z := 0.
Definition PLAYSTATE_STREAM : Z := 1.
Definition PLAYSTATE_AUDIODEC : Z := 2.
Definition PLAYSTATE_VIDEODEC : Z := 3.
Definition PLAYSTATE_AUDIOOUT : Z := 4.
Definition PLAYSTATE_VIDEOOUT : Z := 5.
Definition PLAYSTATE_PLAYING : Z := 6.

Definition FLUSH_AUDIO : Z := 1.
Definition FLUSH_SUBPX : Z := 2.
Definition FLUSH_VIDEO : Z := 4.
Definition FLUSH_ALL : Z := Z.lor FLUSH_VIDEO (Z.lor FLUSH_AUDIO FLUSH_SUBPX).

Definition SEEK_ABSOLUTE : Z := 1.
Definition SEEK_CHAPTER : Z := 2.
Definition SEEK_RELATIVE : Z := 4.

(** The messages the control thread sends to itself (the others come from
    the public functions and from the worker threads). *)
Inductive ctl :=
  | CTL_PLAY (path : option string) | CTL_THREADEXIT
  | CTL_STREAM_READY | CTL_AUDIODEC_READY | CTL_VIDEODEC_READY | CTL_AUDIOOUT_READY
  | CTL_VIDEOOUT_READY | CTL_STREAM_EXIT | CTL_BUFFER_UNDERRUN.

Inductive checkpoint := StreamParser | VideoDecoder | VideoOutput | AudioDecoder.
Inductive worker := WStreamInput | WAudioDecoder | WVideoDecoder | WVideoOutput.
Inductive queue_name := VideoFrames | VideoPackets | AudioPackets.

Inductive effect :=
  | Notify (status last_status : player_status)
  | SendCtl (c : ctl)
  | Throw
  | Halt (c : checkpoint) | Continue (c : checkpoint)
  | AudioPause | AudioResume | AudioStart | AudioDestroy
  | WatchStop | WatchStart
  | TimerRegister (id : Z) | TimerCancel (id : Z)
  | Start (w : worker) | Join (w : worker)
  | NewQueue (q : queue_name) | CloseQueue (q : queue_name) | DestroyQueue (q : queue_name)
  | SetSize (q : queue_name) (n : Z)
  | CloseInput
  | StreamPlay | StreamSeek (flags incr : Z) | StreamClose | StreamDestroy
  | FormatFlush
  | SeekFrame (seek_to : Z) (backward : bool)
  | DropQueue (q : queue_name) | AudioDrop
  | PresentFrames
  | SyncReturn (arg : Z)
  | DoUpdate.

#[export] Instance ctl_eq_dec : EqDecision ctl.
Proof. solve_decision. Defined.
#[export] Instance checkpoint_eq_dec : EqDecision checkpoint.
Proof. solve_decision. Defined.
#[export] Instance worker_eq_dec : EqDecision worker.
Proof. solve_decision. Defined.
#[export] Instance queue_name_eq_dec : EqDecision queue_name.
Proof. solve_decision. Defined.
#[export] Instance effect_eq_dec : EqDecision effect.
Proof. solve_decision. Defined.

(** [playlist_item]: NULL, the list head, or an item. *)
Inductive itemptr := INull | IHead | IItem (a : Z).

Record pipeline := Pipeline {
  video_stream_index : Z; audio_stream_index : Z; audio_stream_id : Z;
  video_packets_q : bool; video_frames_q : bool; audio_packets_q : bool;
  audio_stream : bool; fmt_ctx : bool; stream_self : bool;
  video_output_worker : bool; video_decoder_worker : bool;
  audio_decoder_worker : bool; stream_input_worker : bool }.

Record player := Player {
  status : player_status; play_state : Z; paused : Z;
  stopping : bool; stream_quit : bool; stream_exiting : bool; underrun : bool;
  underrun_timer_id : Z; stream_exit_timer_id : Z;
  still_frame : bool; still_frame_timer_id : Z; still_frame_waiter : Z;
  flushing : Z;
  audio_clock : bool;             (* getmastertime is the audio clock *)
  stream_percent : Z; pos : Z; duration : Z; title : string;
  media_file : option string; next_file : option string;
  pipe : pipeline;
  playlist : list (Z * string);   (* address and path, in list order *)
  playlist_item : itemptr;
  log : list effect }.

(** ** Setters *)

Definition with_video_stream_index (v : Z) (p : pipeline) : pipeline :=
  Pipeline v (audio_stream_index p) (audio_stream_id p) (video_packets_q p) (video_frames_q p) (audio_packets_q
    p) (audio_stream p) (fmt_ctx p) (stream_self p) (video_output_worker p) (video_decoder_worker p)
    (audio_decoder_worker p) (stream_input_worker p).
Definition with_audio_stream_index (v : Z) (p : pipeline) : pipeline :=
  Pipeline (video_stream_index p) v (audio_stream_id p) (video_packets_q p) (video_frames_q p) (audio_packets_q
    p) (audio_stream p) (fmt_ctx p) (stream_self p) (video_output_worker p) (video_decoder_worker p)
    (audio_decoder_worker p) (stream_input_worker p).
Definition with_audio_stream_id (v : Z) (p : pipeline) : pipeline :=
  Pipeline (video_stream_index p) (audio_stream_index p) v (video_packets_q p) (video_frames_q p)
    (audio_packets_q p) (audio_stream p) (fmt_ctx p) (stream_self p) (video_output_worker p)
    (video_decoder_worker p) (audio_decoder_worker p) (stream_input_worker p).
Definition with_video_packets_q (v : bool) (p : pipeline) : pipeline :=
  Pipeline (video_stream_index p) (audio_stream_index p) (audio_stream_id p) v (video_frames_q p)
    (audio_packets_q p) (audio_stream p) (fmt_ctx p) (stream_self p) (video_output_worker p)
    (video_decoder_worker p) (audio_decoder_worker p) (stream_input_worker p).
Definition with_video_frames_q (v : bool) (p : pipeline) : pipeline :=
  Pipeline (video_stream_index p) (audio_stream_index p) (audio_stream_id p) (video_packets_q p) v
    (audio_packets_q p) (audio_stream p) (fmt_ctx p) (stream_self p) (video_output_worker p)
    (video_decoder_worker p) (audio_decoder_worker p) (stream_input_worker p).
Definition with_audio_packets_q (v : bool) (p : pipeline) : pipeline :=
  Pipeline (video_stream_index p) (audio_stream_index p) (audio_stream_id p) (video_packets_q p)
    (video_frames_q p) v (audio_stream p) (fmt_ctx p) (stream_self p) (video_output_worker p)
    (video_decoder_worker p) (audio_decoder_worker p) (stream_input_worker p).
Definition with_audio_stream (v : bool) (p : pipeline) : pipeline :=
  Pipeline (video_stream_index p) (audio_stream_index p) (audio_stream_id p) (video_packets_q p)
    (video_frames_q p) (audio_packets_q p) v (fmt_ctx p) (stream_self p) (video_output_worker p)
    (video_decoder_worker p) (audio_decoder_worker p) (stream_input_worker p).
Definition with_fmt_ctx (v : bool) (p : pipeline) : pipeline :=
  Pipeline (video_stream_index p) (audio_stream_index p) (audio_stream_id p) (video_packets_q p)
    (video_frames_q p) (audio_packets_q p) (audio_stream p) v (stream_self p) (video_output_worker p)
    (video_decoder_worker p) (audio_decoder_worker p) (stream_input_worker p).
Definition with_stream_self (v : bool) (p : pipeline) : pipeline :=
  Pipeline (video_stream_index p) (audio_stream_index p) (audio_stream_id p) (video_packets_q p)
    (video_frames_q p) (audio_packets_q p) (audio_stream p) (fmt_ctx p) v (video_output_worker p)
    (video_decoder_worker p) (audio_decoder_worker p) (stream_input_worker p).
Definition with_video_output_worker (v : bool) (p : pipeline) : pipeline :=
  Pipeline (video_stream_index p) (audio_stream_index p) (audio_stream_id p) (video_packets_q p)
    (video_frames_q p) (audio_packets_q p) (audio_stream p) (fmt_ctx p) (stream_self p) v
    (video_decoder_worker p) (audio_decoder_worker p) (stream_input_worker p).
Definition with_video_decoder_worker (v : bool) (p : pipeline) : pipeline :=
  Pipeline (video_stream_index p) (audio_stream_index p) (audio_stream_id p) (video_packets_q p)
    (video_frames_q p) (audio_packets_q p) (audio_stream p) (fmt_ctx p) (stream_self p)
    (video_output_worker p) v (audio_decoder_worker p) (stream_input_worker p).
Definition with_audio_decoder_worker (v : bool) (p : pipeline) : pipeline :=
  Pipeline (video_stream_index p) (audio_stream_index p) (audio_stream_id p) (video_packets_q p)
    (video_frames_q p) (audio_packets_q p) (audio_stream p) (fmt_ctx p) (stream_self p)
    (video_output_worker p) (video_decoder_worker p) v (stream_input_worker p).
Definition with_stream_input_worker (v : bool) (p : pipeline) : pipeline :=
  Pipeline (video_stream_index p) (audio_stream_index p) (audio_stream_id p) (video_packets_q p)
    (video_frames_q p) (audio_packets_q p) (audio_stream p) (fmt_ctx p) (stream_self p)
    (video_output_worker p) (video_decoder_worker p) (audio_decoder_worker p) v.
Definition set_status (v : player_status) (s : player) : player :=
  Player v (play_state s) (paused s) (stopping s) (stream_quit s) (stream_exiting s) (underrun s)
    (underrun_timer_id s) (stream_exit_timer_id s) (still_frame s) (still_frame_timer_id s)
    (still_frame_waiter s) (flushing s) (audio_clock s) (stream_percent s) (pos s) (duration s) (title
    s) (media_file s) (next_file s) (pipe s) (playlist s) (playlist_item s) (log s).
Definition set_play_state (v : Z) (s : player) : player :=
  Player (status s) v (paused s) (stopping s) (stream_quit s) (stream_exiting s) (underrun s)
    (underrun_timer_id s) (stream_exit_timer_id s) (still_frame s) (still_frame_timer_id s)
    (still_frame_waiter s) (flushing s) (audio_clock s) (stream_percent s) (pos s) (duration s) (title
    s) (media_file s) (next_file s) (pipe s) (playlist s) (playlist_item s) (log s).
Definition set_paused (v : Z) (s : player) : player :=
  Player (status s) (play_state s) v (stopping s) (stream_quit s) (stream_exiting s) (underrun s)
    (underrun_timer_id s) (stream_exit_timer_id s) (still_frame s) (still_frame_timer_id s)
    (still_frame_waiter s) (flushing s) (audio_clock s) (stream_percent s) (pos s) (duration s) (title
    s) (media_file s) (next_file s) (pipe s) (playlist s) (playlist_item s) (log s).
Definition set_stopping (v : bool) (s : player) : player :=
  Player (status s) (play_state s) (paused s) v (stream_quit s) (stream_exiting s) (underrun s)
    (underrun_timer_id s) (stream_exit_timer_id s) (still_frame s) (still_frame_timer_id s)
    (still_frame_waiter s) (flushing s) (audio_clock s) (stream_percent s) (pos s) (duration s) (title
    s) (media_file s) (next_file s) (pipe s) (playlist s) (playlist_item s) (log s).
Definition set_stream_quit (v : bool) (s : player) : player :=
  Player (status s) (play_state s) (paused s) (stopping s) v (stream_exiting s) (underrun s)
    (underrun_timer_id s) (stream_exit_timer_id s) (still_frame s) (still_frame_timer_id s)
    (still_frame_waiter s) (flushing s) (audio_clock s) (stream_percent s) (pos s) (duration s) (title
    s) (media_file s) (next_file s) (pipe s) (playlist s) (playlist_item s) (log s).
Definition set_stream_exiting (v : bool) (s : player) : player :=
  Player (status s) (play_state s) (paused s) (stopping s) (stream_quit s) v (underrun s) (underrun_timer_id
    s) (stream_exit_timer_id s) (still_frame s) (still_frame_timer_id s) (still_frame_waiter s)
    (flushing s) (audio_clock s) (stream_percent s) (pos s) (duration s) (title s) (media_file s)
    (next_file s) (pipe s) (playlist s) (playlist_item s) (log s).
Definition set_underrun (v : bool) (s : player) : player :=
  Player (status s) (play_state s) (paused s) (stopping s) (stream_quit s) (stream_exiting s) v
    (underrun_timer_id s) (stream_exit_timer_id s) (still_frame s) (still_frame_timer_id s)
    (still_frame_waiter s) (flushing s) (audio_clock s) (stream_percent s) (pos s) (duration s) (title
    s) (media_file s) (next_file s) (pipe s) (playlist s) (playlist_item s) (log s).
Definition set_underrun_timer_id (v : Z) (s : player) : player :=
  Player (status s) (play_state s) (paused s) (stopping s) (stream_quit s) (stream_exiting s) (underrun s) v
    (stream_exit_timer_id s) (still_frame s) (still_frame_timer_id s) (still_frame_waiter s) (flushing
    s) (audio_clock s) (stream_percent s) (pos s) (duration s) (title s) (media_file s) (next_file s)
    (pipe s) (playlist s) (playlist_item s) (log s).
Definition set_stream_exit_timer_id (v : Z) (s : player) : player :=
  Player (status s) (play_state s) (paused s) (stopping s) (stream_quit s) (stream_exiting s) (underrun s)
    (underrun_timer_id s) v (still_frame s) (still_frame_timer_id s) (still_frame_waiter s) (flushing s)
    (audio_clock s) (stream_percent s) (pos s) (duration s) (title s) (media_file s) (next_file s) (pipe
    s) (playlist s) (playlist_item s) (log s).
Definition set_still_frame (v : bool) (s : player) : player :=
  Player (status s) (play_state s) (paused s) (stopping s) (stream_quit s) (stream_exiting s) (underrun s)
    (underrun_timer_id s) (stream_exit_timer_id s) v (still_frame_timer_id s) (still_frame_waiter s)
    (flushing s) (audio_clock s) (stream_percent s) (pos s) (duration s) (title s) (media_file s)
    (next_file s) (pipe s) (playlist s) (playlist_item s) (log s).
Definition set_still_frame_timer_id (v : Z) (s : player) : player :=
  Player (status s) (play_state s) (paused s) (stopping s) (stream_quit s) (stream_exiting s) (underrun s)
    (underrun_timer_id s) (stream_exit_timer_id s) (still_frame s) v (still_frame_waiter s) (flushing s)
    (audio_clock s) (stream_percent s) (pos s) (duration s) (title s) (media_file s) (next_file s) (pipe
    s) (playlist s) (playlist_item s) (log s).
Definition set_still_frame_waiter (v : Z) (s : player) : player :=
  Player (status s) (play_state s) (paused s) (stopping s) (stream_quit s) (stream_exiting s) (underrun s)
    (underrun_timer_id s) (stream_exit_timer_id s) (still_frame s) (still_frame_timer_id s) v (flushing
    s) (audio_clock s) (stream_percent s) (pos s) (duration s) (title s) (media_file s) (next_file s)
    (pipe s) (playlist s) (playlist_item s) (log s).
Definition set_flushing (v : Z) (s : player) : player :=
  Player (status s) (play_state s) (paused s) (stopping s) (stream_quit s) (stream_exiting s) (underrun s)
    (underrun_timer_id s) (stream_exit_timer_id s) (still_frame s) (still_frame_timer_id s)
    (still_frame_waiter s) v (audio_clock s) (stream_percent s) (pos s) (duration s) (title s)
    (media_file s) (next_file s) (pipe s) (playlist s) (playlist_item s) (log s).
Definition set_audio_clock (v : bool) (s : player) : player :=
  Player (status s) (play_state s) (paused s) (stopping s) (stream_quit s) (stream_exiting s) (underrun s)
    (underrun_timer_id s) (stream_exit_timer_id s) (still_frame s) (still_frame_timer_id s)
    (still_frame_waiter s) (flushing s) v (stream_percent s) (pos s) (duration s) (title s) (media_file
    s) (next_file s) (pipe s) (playlist s) (playlist_item s) (log s).
Definition set_stream_percent (v : Z) (s : player) : player :=
  Player (status s) (play_state s) (paused s) (stopping s) (stream_quit s) (stream_exiting s) (underrun s)
    (underrun_timer_id s) (stream_exit_timer_id s) (still_frame s) (still_frame_timer_id s)
    (still_frame_waiter s) (flushing s) (audio_clock s) v (pos s) (duration s) (title s) (media_file s)
    (next_file s) (pipe s) (playlist s) (playlist_item s) (log s).
Definition set_pos (v : Z) (s : player) : player :=
  Player (status s) (play_state s) (paused s) (stopping s) (stream_quit s) (stream_exiting s) (underrun s)
    (underrun_timer_id s) (stream_exit_timer_id s) (still_frame s) (still_frame_timer_id s)
    (still_frame_waiter s) (flushing s) (audio_clock s) (stream_percent s) v (duration s) (title s)
    (media_file s) (next_file s) (pipe s) (playlist s) (playlist_item s) (log s).
Definition set_duration (v : Z) (s : player) : player :=
  Player (status s) (play_state s) (paused s) (stopping s) (stream_quit s) (stream_exiting s) (underrun s)
    (underrun_timer_id s) (stream_exit_timer_id s) (still_frame s) (still_frame_timer_id s)
    (still_frame_waiter s) (flushing s) (audio_clock s) (stream_percent s) (pos s) v (title s)
    (media_file s) (next_file s) (pipe s) (playlist s) (playlist_item s) (log s).
Definition set_title (v : string) (s : player) : player :=
  Player (status s) (play_state s) (paused s) (stopping s) (stream_quit s) (stream_exiting s) (underrun s)
    (underrun_timer_id s) (stream_exit_timer_id s) (still_frame s) (still_frame_timer_id s)
    (still_frame_waiter s) (flushing s) (audio_clock s) (stream_percent s) (pos s) (duration s) v
    (media_file s) (next_file s) (pipe s) (playlist s) (playlist_item s) (log s).
Definition set_media_file (v : option string) (s : player) : player :=
  Player (status s) (play_state s) (paused s) (stopping s) (stream_quit s) (stream_exiting s) (underrun s)
    (underrun_timer_id s) (stream_exit_timer_id s) (still_frame s) (still_frame_timer_id s)
    (still_frame_waiter s) (flushing s) (audio_clock s) (stream_percent s) (pos s) (duration s) (title
    s) v (next_file s) (pipe s) (playlist s) (playlist_item s) (log s).
Definition set_next_file (v : option string) (s : player) : player :=
  Player (status s) (play_state s) (paused s) (stopping s) (stream_quit s) (stream_exiting s) (underrun s)
    (underrun_timer_id s) (stream_exit_timer_id s) (still_frame s) (still_frame_timer_id s)
    (still_frame_waiter s) (flushing s) (audio_clock s) (stream_percent s) (pos s) (duration s) (title
    s) (media_file s) v (pipe s) (playlist s) (playlist_item s) (log s).
Definition set_pipe (v : pipeline) (s : player) : player :=
  Player (status s) (play_state s) (paused s) (stopping s) (stream_quit s) (stream_exiting s) (underrun s)
    (underrun_timer_id s) (stream_exit_timer_id s) (still_frame s) (still_frame_timer_id s)
    (still_frame_waiter s) (flushing s) (audio_clock s) (stream_percent s) (pos s) (duration s) (title
    s) (media_file s) (next_file s) v (playlist s) (playlist_item s) (log s).
Definition set_playlist (v : list (Z * string)) (s : player) : player :=
  Player (status s) (play_state s) (paused s) (stopping s) (stream_quit s) (stream_exiting s) (underrun s)
    (underrun_timer_id s) (stream_exit_timer_id s) (still_frame s) (still_frame_timer_id s)
    (still_frame_waiter s) (flushing s) (audio_clock s) (stream_percent s) (pos s) (duration s) (title
    s) (media_file s) (next_file s) (pipe s) v (playlist_item s) (log s).
Definition set_playlist_item (v : itemptr) (s : player) : player :=
  Player (status s) (play_state s) (paused s) (stopping s) (stream_quit s) (stream_exiting s) (underrun s)
    (underrun_timer_id s) (stream_exit_timer_id s) (still_frame s) (still_frame_timer_id s)
    (still_frame_waiter s) (flushing s) (audio_clock s) (stream_percent s) (pos s) (duration s) (title
    s) (media_file s) (next_file s) (pipe s) (playlist s) v (log s).
Definition set_log (v : list effect) (s : player) : player :=
  Player (status s) (play_state s) (paused s) (stopping s) (stream_quit s) (stream_exiting s) (underrun s)
    (underrun_timer_id s) (stream_exit_timer_id s) (still_frame s) (still_frame_timer_id s)
    (still_frame_waiter s) (flushing s) (audio_clock s) (stream_percent s) (pos s) (duration s) (title
    s) (media_file s) (next_file s) (pipe s) (playlist s) (playlist_item s) v.

(** Make a call. *)
Definition emit (e : effect) (s : player) : player := set_log (log s ++ [e]) s.

Definition upd_pipe (f : pipeline -> pipeline) (s : player) : player := set_pipe (f (pipe s)) s.
