(* ===== verification/Player.v ===== *)
(** * The player's control thread (src/lib/ui/player.c)

    [avbox_player_control] handles one message at a time; every case of it
    is a definition here, with the functions it calls.  The answers of the
    other threads and of FFmpeg, of the allocator and of the timers are the
    fields of [answers]; [None] is abort(), a NULL pointer given to another
    component, a division by zero or a read outside an array.  The start
    and the end of the stream parser thread are actions of their own.  The
    code is that of a release build, which drops its ASSERTs. *)

From S2P Require Import Prelude PlayerState.

(** What is left in the pipeline, and whether the decoders have seen the
    flush. *)
Record lanes := Lanes {
  l_audio_packets : Z; l_audio_frames : Z; l_video_packets : Z; l_video_frames : Z;
  l_audio_flushed : bool; l_video_flushed : bool }.

Definition drained : lanes := Lanes 0 0 0 0 true true.

(** What a handler is told by the rest of the program while it runs. *)
Record answers := Answers {
  a_mem : bool;             (* strdup and malloc succeed *)
  a_sent : bool;            (* a control message can be sent *)
  a_delegate : bool;        (* avbox_application_delegate succeeds *)
  a_worker : bool;          (* avbox_thread_delegate succeeds *)
  a_media : bool;           (* the copy of the media file name *)
  a_opened : bool;          (* the stream provider opens the path *)
  a_timer : Z;              (* avbox_timer_register: an id or -1 *)
  a_audio_paused : bool;    (* avbox_audiostream_ispaused *)
  a_lanes : lanes;          (* when it is flushed *)
  a_expected : bool;        (* stream.underrun_expected *)
  a_has_buffer : bool;      (* stream.buffer_state is not NULL *)
  a_count : Z; a_capacity : Z;
  a_audio_size : Z; a_audio_count : Z; a_video_frames : Z;
  a_can_pause : bool;
  a_must_flush : bool;
  a_has_seek : bool;
  a_time : Z; a_seek_from : Z;  (* getmastertime *)
  a_seek_ok : bool;         (* av_seek_frame *)
  a_streams : list (bool * Z)  (* is audio, id *)
}.

Section player.
(** [decode_cache_size] and the compile-time switch. *)
Variable cache : Z.
Variable ENABLE_DVD : bool.

Definition per_buffer : option Z :=
  if cache =? 0 then None
  else let d := Z.quot 1000 cache in if d =? 0 then None else Some d.

Definition AVBOX_BUFFER_VIDEO : option Z := d ← per_buffer; Some (Z.quot 30 d).
Definition AVBOX_BUFFER_AUDIO : option Z := d ← per_buffer; Some (Z.quot 48000 d).

Definition has_video (s : player) : bool := negb (video_stream_index (pipe s) =? -1).
Definition has_audio (s : player) : bool := negb (audio_stream_index (pipe s) =? -1).

(** A call that must not be given a NULL pointer. *)
Definition need (b : bool) (s : player) : option player := if b then Some s else None.

(** ** Messages and status *)

Definition avbox_player_sendctl (a : answers) (c : ctl) (s : player) : player :=
  if a_sent a then emit (SendCtl c) s else s.

Definition avbox_player_updatestatus (st : player_status) (s : player) : player :=
  emit (Notify st (status s)) (set_status st s).

Definition avbox_player_settitle (a : answers) (t : string) (s : player) : player :=
  if a_mem a then set_title t s else s.

(** ** Pause and resume: [paused] counts the pauses in force.  Before the
    sound goes on, [doresume] waits for a video frame. *)

Definition avbox_player_dopause (s : player) : option player :=
  let n := paused s in
  let s := set_paused (n + 1) s in
  if negb (n =? 0) then Some s
  else
    s ← (if has_video s && negb (has_audio s)
         then need (video_frames_q (pipe s)) (emit (Halt VideoOutput) s) else Some s);
    let s := emit WatchStop s in
    need (audio_stream (pipe s)) (emit AudioPause s).

Definition avbox_player_doresume (a : answers) (s : player) : option player :=
  if paused s =? 0 then Some s
  else
    let s := set_paused (paused s - 1) s in
    if negb (paused s =? 0) then Some s
    else
      let s := avbox_player_updatestatus PLAYING s in
      let s := if has_video s && negb (has_audio s) then emit (Continue VideoOutput) s else s in
      let s := emit WatchStart s in
      s ← need (audio_stream (pipe s)) s;
      if a_audio_paused a then
        s ← (if has_audio s && has_video s then need (video_frames_q (pipe s)) s else Some s);
        Some (emit AudioResume s)
      else Some s.

(** ** Stop and play *)

Definition avbox_player_dostop (a : answers) (s : player) : option player :=
  if stream_self (pipe s) then Some (emit StreamClose s)
  else
    let s := set_stream_quit true s in
    if decide (status s = PAUSED) then avbox_player_doresume a s else Some s.

(** Paths that need a stream provider. *)
Definition needs_provider (path : string) : bool :=
  (ENABLE_DVD && String.prefix "dvd:" path) ||
  (String.prefix "magnet:" path || String.prefix "http" path).

(** [false] is the result -1. *)
Definition avbox_player_openstream (a : answers) (path : string) (s : player) : bool * player :=
  if needs_provider path
  then if a_opened a then (true, upd_pipe (with_stream_self true) s) else (false, s)
  else (true, s).

Definition avbox_player_doplay (a : answers) (path : option string) (s : player) : option player :=
  if negb (play_state s =? PLAYSTATE_READY) && negb (play_state s =? PLAYSTATE_PLAYING)
  then Some (emit Throw s)
  else match path with
  | None =>
      if decide (status s = PAUSED) then avbox_player_doresume a s else Some (emit Throw s)
  | Some path =>
      if negb (bool_decide (status s = READY)) then
        avbox_player_dostop a (set_next_file (if a_mem a then Some path else None) s)
      else
        let s := set_duration 0 (set_pos 0 (set_stream_percent 0 s)) in
        let s := set_play_state PLAYSTATE_STREAM s in
        let s := avbox_player_settitle a path s in
        let s := avbox_player_updatestatus BUFFERING s in
        if negb (a_delegate a) then Some (emit Throw s)
        else
          let '(ok, s) := avbox_player_openstream a path s in
          if negb ok then
            Some (set_play_state PLAYSTATE_READY (avbox_player_updatestatus READY s))
          else
            let s := set_media_file (if a_media a then Some path else None) s in
            let s := set_stream_quit false s in
            if a_worker a
            then Some (emit (Start WStreamInput) (upd_pipe (with_stream_input_worker true) s))
            else Some (avbox_player_updatestatus READY (set_play_state PLAYSTATE_READY s))
  end.

(** ** Playlist *)

Definition avbox_player_freeplaylist (s : player) : player :=
  set_playlist [] (set_playlist_item INull s).

(** The public function that plays one path. *)
Definition avbox_player_play (a : answers) (path : option string) (s : player) : player :=
  if negb (a_mem a) && bool_decide (is_Some path) then s
  else
    let s := match playlist s with [] => s | _ => avbox_player_freeplaylist s end in
    avbox_player_sendctl a (CTL_PLAY path) s.

(** LIST_NEXT and LIST_PREV on the playlist. *)
Fixpoint next_after (l : list (Z * string)) (x : Z) : option itemptr :=
  match l with
  | [] => None
  | (y, _) :: l =>
      if y =? x then Some (match l with [] => IHead | (z, _) :: _ => IItem z end)
      else next_after l x
  end.

Definition first_item (l : list (Z * string)) : itemptr :=
  match l with [] => IHead | (z, _) :: _ => IItem z end.

Definition list_next (l : list (Z * string)) (p : itemptr) : option itemptr :=
  match p with
  | INull => None
  | IHead => Some (first_item l)
  | IItem x => next_after l x
  end.

Definition list_prev (l : list (Z * string)) (p : itemptr) : option itemptr :=
  match p with
  | INull => None
  | IHead => Some (first_item (rev l))
  | IItem x => next_after (rev l) x
  end.

Definition filepath (l : list (Z * string)) (x : Z) : option string :=
  y ← list_find (fun y => y.1 = x) l; Some (y.2.2).

(** [avbox_player_playlist] copies the caller's list; [mem] are the
    addresses malloc gives ([None]: it or strdup fails). *)
Fixpoint copy_items (mem : list (option Z)) (items : list (Z * string)) (selected : Z)
    (s : player) {struct items} : bool * player :=
  match items, mem with
  | [], _ => (true, s)
  | (x, path) :: items, Some new :: mem =>
      let s := set_playlist ((new, path) :: playlist s) s in
      let s := if x =? selected then set_playlist_item (IItem new) s else s in
      copy_items mem items selected s
  | _, _ => (false, avbox_player_freeplaylist s)
  end.

Definition avbox_player_playlist (a : answers) (mem : list (option Z)) (items : list (Z * string))
    (selected : Z) (s : player) : option (Z * player) :=
  let s := match playlist s with [] => s | _ => avbox_player_freeplaylist s end in
  let '(ok, s) := copy_items mem items selected s in
  if negb ok then Some (-1, s)
  else match playlist_item s with
  | IItem x =>
      path ← filepath (playlist s) x;
      if a_mem a then Some (0, avbox_player_sendctl a (CTL_PLAY (Some path)) s) else Some (0, s)
  | _ => None
  end.

(** ** Underrun *)

Definition avbox_player_isunderrun (a : answers) (s : player) : option (bool * player) :=
  if negb (play_state s =? PLAYSTATE_PLAYING) then Some (true, set_underrun true s)
  else if stream_quit s || stream_exiting s then Some (false, s)
  else
    let low :=
      stream_self (pipe s) && negb (a_expected a) && a_has_buffer a &&
      (if underrun s then a_count a <? a_capacity a else a_count a =? 0) in
    if low then Some (true, s)
    else if underrun s then
      if has_audio s then
        s ← need (audio_stream (pipe s)) s;
        size ← AVBOX_BUFFER_AUDIO;
        let low := a_audio_size a <? size in
        if has_video s then
          s ← need (video_frames_q (pipe s)) s;
          n ← AVBOX_BUFFER_VIDEO;
          Some (low || (a_video_frames a <? Z.quot n 2), s)
        else Some (low, s)
      else
        s ← need (video_frames_q (pipe s)) s;
        n ← AVBOX_BUFFER_VIDEO; Some (a_video_frames a <? n, s)
    else if has_video s then
      if negb (has_audio s)
      then s ← need (video_frames_q (pipe s)) s; Some (a_video_frames a <? 1, s)
      else s ← need (audio_stream (pipe s)) s; Some (a_audio_count a <? 1, s)
    else Some (false, s).

Definition avbox_player_handle_underrun (a : answers) (s : player) : option player :=
  s ← (if has_video s then
         wanted ← AVBOX_BUFFER_VIDEO;
         if wanted =? 0 then None
         else s ← need (video_frames_q (pipe s)) s;
              Some (set_stream_percent (Z.quot (Z.quot (a_video_frames a * 100) wanted * 100) 100) s)
       else Some s);
  let s := avbox_player_updatestatus BUFFERING s in
  let s := set_underrun_timer_id (a_timer a) s in
  if a_timer a =? -1 then
    s ← avbox_player_doresume a (emit Throw s);
    Some (avbox_player_updatestatus PLAYING s)
  else Some (emit (TimerRegister (a_timer a)) s).

(** ** Flush and drop *)

Definition avbox_player_clear_still_frame (s : player) : player :=
  if still_frame s then
    let s := if negb (still_frame_timer_id s =? -1)
             then set_still_frame_timer_id (-1)
                    (emit (SyncReturn (still_frame_waiter s)) (emit (TimerCancel (still_frame_timer_id s)) s))
             else s in
    set_still_frame false s
  else s.

(** The checkpoints are halted upstream first; each wait ends when the
    thread is at its checkpoint. *)
Definition avbox_player_halt (s : player) : option player :=
  let s := emit (Halt StreamParser) s in
  s ← (if (PLAYSTATE_VIDEODEC <=? play_state s) && has_video s then
         need (video_packets_q (pipe s) && video_frames_q (pipe s))
           (emit (Halt VideoOutput) (emit (Halt VideoDecoder) s))
       else Some s);
  if PLAYSTATE_AUDIODEC <=? play_state s
  then need (audio_stream (pipe s)) (emit AudioPause (emit (Halt AudioDecoder) s))
  else Some s.

Definition avbox_player_continue (s : player) : option player :=
  let s := emit (Continue StreamParser) s in
  s ← (if PLAYSTATE_AUDIODEC <=? play_state s
       then need (audio_stream (pipe s)) (emit AudioResume (emit (Continue AudioDecoder) s))
       else Some s);
  if (PLAYSTATE_VIDEODEC <=? play_state s) && has_video s
  then Some (emit (Continue VideoDecoder) (emit (Continue VideoOutput) s))
  else Some s.

(** The loops behind [DropQueue]: while the decoder has not seen the flush
    or packets are left, the head is released; an empty queue lets the
    decoder run, which adds what it had in hand and tells whether it has
    flushed.  [None]: still waiting. *)
Fixpoint drop_queue (fuel : nat) (runs : list (list Z * bool)) (q : list Z) (flushed : bool)
    (released : list Z) : option (list Z) :=
  match fuel with
  | O => None
  | S fuel =>
      if flushed && bool_decide (q = []) then Some released
      else match q with
      | x :: q => drop_queue fuel runs q flushed (released ++ [x])
      | [] =>
          match runs with
          | [] => None
          | (new, flushed) :: runs => drop_queue fuel runs new flushed released
          end
      end
  end.

Definition drop_video (s : player) : option player :=
  if has_video s
  then need (video_packets_q (pipe s) && video_frames_q (pipe s))
         (emit (DropQueue VideoFrames) (emit (DropQueue VideoPackets) s))
  else Some s.

Definition drop_audio (s : player) : player :=
  let s := if audio_packets_q (pipe s) then emit (DropQueue AudioPackets) s else s in
  if audio_stream (pipe s) then emit AudioDrop s else s.

Definition avbox_player_drop (s : player) : option player :=
  let s := set_flushing FLUSH_ALL s in
  s ← avbox_player_halt s;
  s ← drop_video s;
  let s := drop_audio s in
  let s := if fmt_ctx (pipe s) then emit FormatFlush s else s in
  let s := avbox_player_clear_still_frame s in
  avbox_player_continue (set_flushing 0 s).

(** Nothing is left on the audio side. *)
Definition flush_audio (l : lanes) (flags : Z) (s : player) : bool :=
  if negb (Z.land flags FLUSH_AUDIO =? 0) && (PLAYSTATE_AUDIODEC <=? play_state s) && audio_packets_q (pipe s)
  then l_audio_flushed l &&
       negb ((audio_stream (pipe s) && negb (l_audio_frames l =? 0)) || (0 <? l_audio_packets l))
  else true.

(** On the video clock frames run out by themselves; on the audio clock
    those left are presented at once ([PresentFrames], a loop of its own). *)
Definition flush_video (l : lanes) (flags : Z) (s : player) : option (bool * player) :=
  if negb (Z.land flags FLUSH_VIDEO =? 0) && (PLAYSTATE_VIDEODEC <=? play_state s) && has_video s then
    s ← need (video_packets_q (pipe s) && video_frames_q (pipe s)) s;
    if negb (audio_clock s) then
      if negb (l_video_packets l =? 0) || negb (l_video_frames l =? 0) || negb (l_video_flushed l)
      then Some (false, s)
      else s ← need (audio_stream (pipe s)) (emit AudioResume (emit AudioPause s)); Some (true, s)
    else if (0 <? l_video_packets l) || (0 <? l_video_frames l) || negb (l_video_flushed l)
    then s ← need (audio_stream (pipe s)) (emit AudioResume (emit AudioPause s));
         Some (true, emit PresentFrames s)
    else Some (true, s)
  else Some (true, s).

(** One poll of the flush; [true] when it is done. *)
Definition avbox_player_flush (l : lanes) (flags : Z) (s : player) : option (bool * player) :=
  if PLAYSTATE_PLAYING <=? play_state s then
    let s := if flushing s =? 0 then set_flushing flags (emit (Halt StreamParser) s) else s in
    if negb (flush_audio l flags s) then Some (false, s)
    else
      '(ok, s) ← flush_video l flags s;
      if negb ok then Some (false, s)
      else
        s ← (if negb (Z.land flags FLUSH_ALL =? 0) then need (fmt_ctx (pipe s)) (emit FormatFlush s) else Some s);
        Some (true, emit (Continue StreamParser) (set_flushing 0 s))
  else if play_state s =? PLAYSTATE_STREAM then Some (true, s)
  else None.

Definition avbox_player_delay_stream_exit (a : answers) (s : player) : player :=
  let s := set_stream_exit_timer_id (a_timer a) s in
  if a_timer a =? -1 then avbox_player_sendctl a CTL_STREAM_EXIT s
  else emit (TimerRegister (a_timer a)) s.

(** ** Seek

    [chapters] are those of the file; comparing a time with the start of a
    chapter and converting that start to microseconds are FFmpeg's
    ([av_compare_ts], [av_rescale_q]). *)

Section seek.
Variable chapter_t : Type.
Variable av_compare_ts : Z -> chapter_t -> Z.
Variable av_rescale_q : chapter_t -> Z.

Definition chapter_duration : Z := 60 * 5 * 1000 * 1000.

(** A file without chapters is cut in pieces of five minutes: the number
    of pieces, the current one and where it starts (an [int]). *)
Fixpoint synth_chapters (fuel : nat) (dur now p : Z) (nb chapter chapter_pos : Z) : Z * Z * Z :=
  match fuel with
  | O => (nb, chapter, chapter_pos)
  | S fuel =>
      if p <? dur then
        let '(chapter, chapter_pos) := if p <=? now then (nb, wraps 32 p) else (chapter, chapter_pos) in
        synth_chapters fuel dur now (p + chapter_duration) (nb + 1) chapter chapter_pos
      else (nb, chapter, chapter_pos)
  end.

Definition synth_fuel (dur : Z) : nat := Z.to_nat (dur / chapter_duration + 1).

(** The loop over the file's chapters: stops before the first one that
    starts after [now]. *)
Fixpoint find_chapter (now : Z) (all l : list chapter_t) (chapter : Z) : option (Z * Z) :=
  match l with
  | [] => Some (chapter, 0)
  | c :: l =>
      if av_compare_ts now c <? 0 then
        if chapter - 1 <? 0 then None
        else c ← all !! Z.to_nat (chapter - 1); Some (chapter - 1, wraps 32 (av_rescale_q c))
      else find_chapter now all l (chapter + 1)
  end.

(** Where a seek leads: to a position, or to another item of the
    playlist, or nowhere. *)
Inductive seek_target := SeekTo (t : Z) | SeekItem (x : Z) | SeekNone.

Definition playlist_target (r : option itemptr) : option seek_target :=
  p ← r; Some (match p with IItem x => SeekItem x | _ => SeekNone end).

Definition chapter_target (a : answers) (chapters : list chapter_t) (dur incr : Z) (s : player) :
    option seek_target :=
  let now := a_time a in
  r ← (match chapters with
       | [] => Some (synth_chapters (synth_fuel dur) dur now 0 0 0 0)
       | _ => '(c, cp) ← find_chapter now chapters chapters 0; Some (len chapters, c, cp)
       end);
  let '(nb, chapter, chapter_pos) := r in
  let chapter :=
    if (incr =? -1) && (5 * 1000 * 1000 <? now - chapter_pos) then chapter + 1 else chapter in
  let onlist := match playlist_item s with INull => false | _ => true end in
  if onlist && (0 <? incr) && ((nb =? 0) || (chapter =? nb - 1)) then
    playlist_target (list_next (playlist s) (playlist_item s))
  else if onlist && (incr <? 0) && (chapter =? 0) then
    playlist_target (list_prev (playlist s) (playlist_item s))
  else
    let chapter := wraps 32 (chapter + incr) in
    if (chapter <? 0) || (nb <? chapter) then Some SeekNone
    else if nb =? len chapters then c ← chapters !! Z.to_nat chapter; Some (SeekTo (av_rescale_q c))
    else Some (SeekTo (chapter * chapter_duration)).

Definition seek_where (a : answers) (chapters : list chapter_t) (dur flags incr : Z) (s : player) :
    option seek_target :=
  if negb (Z.land flags SEEK_CHAPTER =? 0)
  then s ← need (fmt_ctx (pipe s)) s; chapter_target a chapters dur incr s
  else if negb (Z.land flags SEEK_ABSOLUTE =? 0) then Some (SeekTo incr)
  else if negb (Z.land flags SEEK_RELATIVE =? 0) then Some (SeekTo (wraps 64 (a_time a + incr)))
  else Some SeekNone.

(** The seek itself, on a file. *)
Definition seek_stream (a : answers) (seek_to : Z) (s : player) : option player :=
  if underrun s then Some s
  else
    s ← (if decide (status s = PAUSED) then avbox_player_doresume a s else Some s);
    if seek_to =? -1 then Some s
    else
      let s := emit (Halt StreamParser) s in
      let s := emit (SeekFrame seek_to (seek_to <? a_seek_from a)) s in
      s ← (if a_seek_ok a then avbox_player_drop s else Some (emit Throw s));
      s ← avbox_player_dopause (set_underrun true s);
      s ← avbox_player_handle_underrun a s;
      Some (emit (Continue StreamParser) s).

Definition avbox_player_doseek (a : answers) (chapters : list chapter_t) (dur flags incr : Z)
    (s : player) : option player :=
  if negb (bool_decide (status s = PLAYING)) && negb (bool_decide (status s = PAUSED))
  then Some (emit Throw s)
  else if stream_self (pipe s) && a_has_seek a then Some (emit (StreamSeek flags incr) s)
  else
    t ← seek_where a chapters dur flags incr s;
    match t with
    | SeekNone => Some (emit Throw s)
    | SeekItem x =>
        path ← filepath (playlist s) x;
        Some (avbox_player_play a (Some path) (set_playlist_item (IItem x) s))
    | SeekTo t => seek_stream a t s
    end.

(** ** Start-up *)

Definition stream_ready (a : answers) (s : player) : option player :=
  let s := set_play_state PLAYSTATE_AUDIODEC s in
  if negb (has_audio s) then Some (avbox_player_sendctl a CTL_AUDIODEC_READY s)
  else if a_worker a
  then Some (emit (Start WAudioDecoder) (upd_pipe (with_audio_decoder_worker true) s))
  else None.

Definition audiodec_ready (a : answers) (s : player) : option player :=
  let s := set_play_state PLAYSTATE_VIDEODEC s in
  if negb (has_video s) then Some (avbox_player_sendctl a CTL_VIDEODEC_READY s)
  else if a_worker a
  then Some (emit (Start WVideoDecoder) (upd_pipe (with_video_decoder_worker true) s))
  else Some (avbox_player_sendctl a CTL_THREADEXIT s).

Definition videodec_ready (a : answers) (s : player) : option player :=
  let s := set_play_state PLAYSTATE_AUDIOOUT s in
  s ← need (audio_stream (pipe s)) (emit AudioStart s);
  Some (avbox_player_sendctl a CTL_AUDIOOUT_READY s).

Definition audioout_ready (a : answers) (s : player) : option player :=
  let s := set_play_state PLAYSTATE_VIDEOOUT s in
  if negb (has_video s) then Some (avbox_player_sendctl a CTL_VIDEOOUT_READY s)
  else if a_worker a
  then Some (emit (Start WVideoOutput) (upd_pipe (with_video_output_worker true) s))
  else Some (avbox_player_sendctl a CTL_THREADEXIT s).

Definition videoout_ready (a : answers) (s : player) : option player :=
  let s := set_play_state PLAYSTATE_PLAYING s in
  let s := if stream_self (pipe s)
           then emit StreamPlay (if a_must_flush a then emit FormatFlush s else s) else s in
  s ← avbox_player_dopause (set_underrun true s);
  s ← avbox_player_handle_underrun a s;
  let s := emit (Continue StreamParser) s in
  Some (avbox_player_updatestatus PLAYING s).

(** ** End of the stream *)

(** Wait for a worker; the delegate must exist. *)
Definition join (w : worker) (running : bool) (s : player) : option player := need running (emit (Join w) s).

Definition exit_video (s : player) : option player :=
  if has_video s then
    s ← (if PLAYSTATE_VIDEOOUT <=? play_state s
         then s ← join WVideoOutput (video_output_worker (pipe s)) s;
              Some (upd_pipe (with_video_output_worker false) s)
         else Some s);
    s ← (if PLAYSTATE_VIDEODEC <=? play_state s
         then s ← join WVideoDecoder (video_decoder_worker (pipe s)) s;
              Some (upd_pipe (with_video_decoder_worker false) s)
         else Some s);
    s ← need (video_frames_q (pipe s)) (emit (DestroyQueue VideoFrames) s);
    s ← need (video_packets_q (pipe s)) (emit (DestroyQueue VideoPackets) s);
    Some (upd_pipe (fun p => with_video_stream_index (-1)
            (with_video_packets_q false (with_video_frames_q false p))) s)
  else Some s.

Definition exit_audio_decoder (s : player) : option player :=
  if (PLAYSTATE_AUDIODEC <=? play_state s) && audio_decoder_worker (pipe s)
  then Some (upd_pipe (with_audio_decoder_worker false) (emit (Join WAudioDecoder) s))
  else Some s.

Definition exit_cleanup (s : player) : player :=
  let s := if audio_stream (pipe s)
           then upd_pipe (with_audio_stream false) (emit AudioDestroy s) else s in
  let s := if audio_packets_q (pipe s)
           then upd_pipe (with_audio_packets_q false) (emit (DestroyQueue AudioPackets) s) else s in
  let s := upd_pipe (with_audio_stream_index (-1)) s in
  let s := if fmt_ctx (pipe s) then upd_pipe (with_fmt_ctx false) (emit CloseInput s) else s in
  if stream_self (pipe s) then upd_pipe (with_stream_self false) (emit StreamDestroy s) else s.

(** The next file, or the next item of the playlist. *)
Definition exit_next (a : answers) (s : player) : option player :=
  if stopping s then Some s
  else match next_file s with
  | Some path => Some (set_next_file None (avbox_player_play a (Some path) s))
  | None =>
      match playlist_item s with
      | INull => Some s
      | item =>
          next ← list_next (playlist s) item;
          let s := set_playlist_item next s in
          match next with
          | IItem x =>
              path ← filepath (playlist s) x;
              Some (avbox_player_play a (Some path) s)
          | _ => Some s
          end
      end
  end.

(** Join the workers, release the stream, go on. *)
Definition exit_finish (a : answers) (s : player) : option player :=
  s ← exit_video s;
  s ← exit_audio_decoder s;
  s ← join WStreamInput (stream_input_worker (pipe s)) s;
  let s := exit_cleanup (upd_pipe (with_stream_input_worker false) s) in
  s ← exit_next a (avbox_player_updatestatus READY s);
  Some (set_play_state PLAYSTATE_READY s).

Definition stream_exit (a : answers) (s : player) : option player :=
  s ← (if negb (underrun_timer_id s =? -1)
       then avbox_player_doresume a
              (set_underrun_timer_id (-1) (emit (TimerCancel (underrun_timer_id s)) s))
       else Some s);
  r ← (if stopping s then s ← avbox_player_drop s; Some (true, s)
       else avbox_player_flush (a_lanes a) FLUSH_ALL s);
  let '(ok, s) := r in
  if negb ok then Some (avbox_player_delay_stream_exit a s) else exit_finish a s.

(** ** The other messages *)

(** The audio stream after the current one, else the first. *)
Fixpoint next_track (l : list (bool * Z)) (i cur first : Z) (found : bool) : Z :=
  match l with
  | [] => first
  | (audio, _) :: l =>
      if negb audio then next_track l (i + 1) cur first found
      else
        let first := if first =? -1 then i else first in
        if i =? cur then next_track l (i + 1) cur first true
        else if found then i
        else next_track l (i + 1) cur first found
  end.

(** [arg] is the caller's argument and the id it asks for. *)
Definition change_audio_track (a : answers) (arg : option (Z * Z)) (s : player) : option player :=
  match arg with
  | None =>
      s ← need (fmt_ctx (pipe s)) s;
      let next := next_track (a_streams a) 0 (audio_stream_index (pipe s)) (-1) false in
      if negb (next =? -1) && negb (next =? audio_stream_index (pipe s))
      then Some (upd_pipe (with_audio_stream_index next) s) else Some s
  | Some (arg, id) =>
      if negb (id =? -1) then
        s ← need (fmt_ctx (pipe s)) s;
        let s := upd_pipe (fun p => with_audio_stream_index (-2) (with_audio_stream_id id p)) s in
        s ← (if has_video s
             then n ← AVBOX_BUFFER_VIDEO;
                  need (video_frames_q (pipe s)) (emit (SetSize VideoFrames (n * 2)) s)
             else Some s);
        Some (emit (SyncReturn arg) s)
      else
        let s := upd_pipe (with_audio_stream_index (-1)) (set_audio_clock false s) in
        s ← (if has_video s
             then n ← AVBOX_BUFFER_VIDEO;
                  need (video_frames_q (pipe s)) (emit (SetSize VideoFrames n) s)
             else Some s);
        Some (emit (SyncReturn arg) s)
  end.

Definition buffer_underrun (a : answers) (s : player) : option player :=
  if underrun s then Some s
  else if negb (flushing s =? 0) || still_frame s || stopping s ||
          (stream_self (pipe s) && a_expected a) then Some s
  else
    '(b, s) ← avbox_player_isunderrun a s;
    if (b : bool) then
      let s := set_underrun true s in
      s ← (if PLAYSTATE_PLAYING <=? play_state s then avbox_player_dopause s else Some s);
      avbox_player_handle_underrun a s
    else Some s.

(** Polling until the flush is done: a poll that is not the first and finds
    something left changes nothing. *)
Definition flush_wait (l : lanes) (flags : Z) (s : player) : option player :=
  '(ok, s) ← avbox_player_flush l flags s;
  if (ok : bool) then Some s else '(_, s) ← avbox_player_flush drained flags s; Some s.

Definition still_frame_msg (a : answers) (arg length : Z) (s : player) : option player :=
  let length := Z.land length 255 in
  if negb (length =? 255) then
    s ← flush_wait (a_lanes a) FLUSH_VIDEO s;
    let s := set_still_frame_timer_id (a_timer a) (set_still_frame_waiter arg (set_still_frame true s)) in
    if a_timer a =? -1 then Some (emit (SyncReturn arg) (emit Throw s))
    else Some (emit (TimerRegister (a_timer a)) s)
  else if negb (still_frame s) then
    s ← flush_wait (a_lanes a) FLUSH_VIDEO s;
    Some (set_still_frame_waiter arg (set_still_frame true s))
  else Some s.

Definition timer_msg (a : answers) (id : Z) (s : player) : option player :=
  if id =? underrun_timer_id s then
    '(b, s) ← avbox_player_isunderrun a s;
    if (b : bool) then avbox_player_handle_underrun a s
    else
      s ← avbox_player_doresume a (set_underrun_timer_id (-1) (set_underrun false s));
      Some (avbox_player_updatestatus PLAYING s)
  else if id =? stream_exit_timer_id s then
    Some (set_stream_exit_timer_id (-1) (avbox_player_sendctl a CTL_STREAM_EXIT s))
  else if id =? still_frame_timer_id s then
    Some (emit (SyncReturn (still_frame_waiter s))
            (set_still_frame_timer_id (-1) (set_still_frame false s)))
  else Some s.

Definition pause_msg (a : answers) (s : player) : option player :=
  if negb (bool_decide (status s = PLAYING)) then Some (emit Throw s)
  else if stream_self (pipe s) && negb (a_can_pause a) then Some s
  else s ← avbox_player_dopause s; Some (avbox_player_updatestatus PAUSED s).

Definition stop_msg (a : answers) (s : player) : option player :=
  if play_state s =? PLAYSTATE_READY then Some (emit Throw s)
  else avbox_player_dostop a (set_stopping true s).

Definition threadexit_msg (a : answers) (s : player) : option player :=
  if negb (play_state s =? PLAYSTATE_READY) && negb (stopping s)
  then avbox_player_dostop a (set_stopping true s) else Some s.

Inductive message :=
  | M_PLAY (path : option string) | M_PAUSE | M_STOP | M_SEEK (flags pos : Z) | M_THREADEXIT
  | M_STREAM_READY | M_AUDIODEC_READY | M_VIDEODEC_READY | M_AUDIOOUT_READY | M_VIDEOOUT_READY
  | M_STREAM_EXIT | M_BUFFER_UNDERRUN | M_AUDIO_STREAM_UNDERRUN
  | M_CHANGE_AUDIO_TRACK (arg : option (Z * Z)) | M_FLUSH (arg : Z)
  | M_STILL_FRAME (arg length : Z) | M_SET_TITLE (arg : Z) (t : string)
  | M_SET_DURATION (arg d : Z) | M_SET_POSITION (arg p : Z) | M_UPDATE | M_BUFFER_UPDATE
  | M_TIMER (id : Z).

(** The handler, for a file with the given chapters and duration. *)
Definition avbox_player_control (a : answers) (chapters : list chapter_t) (dur : Z) (m : message)
    (s : player) : option player :=
  match m with
  | M_PLAY path => avbox_player_doplay a path s
  | M_STREAM_READY => stream_ready a s
  | M_AUDIODEC_READY => audiodec_ready a s
  | M_VIDEODEC_READY => videodec_ready a s
  | M_AUDIOOUT_READY => audioout_ready a s
  | M_VIDEOOUT_READY => videoout_ready a s
  | M_STREAM_EXIT => stream_exit a s
  | M_PAUSE => pause_msg a s
  | M_STOP => stop_msg a s
  | M_SEEK flags p => avbox_player_doseek a chapters dur flags p s
  | M_CHANGE_AUDIO_TRACK arg => change_audio_track a arg s
  | M_BUFFER_UNDERRUN => buffer_underrun a s
  | M_AUDIO_STREAM_UNDERRUN => Some s
  | M_THREADEXIT => threadexit_msg a s
  | M_FLUSH arg =>
      s ← flush_wait (a_lanes a) FLUSH_ALL s;
      Some (emit (SyncReturn arg) (avbox_player_clear_still_frame s))
  | M_STILL_FRAME arg length => still_frame_msg a arg length s
  | M_SET_TITLE arg t =>
      let s := avbox_player_settitle a t s in
      Some (emit (SyncReturn arg) (avbox_player_updatestatus (status s) s))
  | M_SET_DURATION arg d => Some (emit (SyncReturn arg) (set_duration d s))
  | M_SET_POSITION arg p => Some (emit (SyncReturn arg) (set_pos p s))
  | M_BUFFER_UPDATE =>
      if decide (status s = BUFFERING) then Some (avbox_player_updatestatus BUFFERING s) else Some s
  | M_UPDATE => if a_delegate a then Some (emit DoUpdate s) else Some s
  | M_TIMER id => timer_msg a id s
  end.

(** ** The stream parser thread: its start and its end *)

Record parse_answers := Parse {
  p_context : bool; p_input : bool; p_info : bool; p_title : option string; p_duration : Z;
  p_manages : bool; p_stream : bool; p_audio_queue : bool; p_video_queue : bool; p_frames_queue : bool;
  p_audio : Z; p_video : Z  (* av_find_best_stream *) }.

(** Creates the queues for the streams found; [false]: leave through
    decoder_exit. *)
Definition parse_streams (p : parse_answers) (s : player) : option (bool * player) :=
  let s := if 0 <=? p_audio p
           then set_audio_clock true (upd_pipe (with_audio_stream_index (p_audio p)) s)
           else upd_pipe (with_audio_stream_index (-1)) s in
  let s := upd_pipe (with_video_stream_index (p_video p)) s in
  if 0 <=? p_video p then
    let s := if negb (has_audio s) then set_audio_clock false s else s in
    if negb (p_video_queue p) then Some (false, s)
    else
      let s := emit (NewQueue VideoPackets) (upd_pipe (with_video_packets_q true) s) in
      if negb (p_frames_queue p) then Some (false, s)
      else
        let s := emit (NewQueue VideoFrames) (upd_pipe (with_video_frames_q true) s) in
        n ← AVBOX_BUFFER_VIDEO;
        Some (true, if has_audio s then emit (SetSize VideoFrames n) s else s)
  else Some (negb (negb (has_audio s) && negb (has_video s)), s).

Definition parse_open (a : answers) (p : parse_answers) (s : player) : option (bool * player) :=
  let s := set_paused 0 (set_audio_clock false (set_underrun false s)) in
  t ← media_file s;
  let s := avbox_player_settitle a t s in
  if negb (p_context p) then Some (false, s)
  else
    let s := upd_pipe (with_fmt_ctx true) s in
    let s := avbox_player_sendctl a CTL_BUFFER_UNDERRUN s in
    if negb (p_input p) then Some (false, upd_pipe (with_fmt_ctx false) s)
    else if negb (p_info p) then Some (false, s)
    else
      let s := if stream_self (pipe s) then s
               else match p_title p with Some t => avbox_player_settitle a t s | None => s end in
      let s := if negb (stream_self (pipe s)) || negb (p_manages p)
               then set_duration (p_duration p) s else s in
      if negb (p_stream p) then Some (false, s)
      else
        let s := upd_pipe (with_audio_stream true) s in
        if negb (p_audio_queue p) then Some (false, s)
        else
          let s := emit (NewQueue AudioPackets) (upd_pipe (with_audio_packets_q true) s) in
          parse_streams p s.

(** decoder_exit: the queues are closed, then the control thread is told. *)
Definition parse_exit_begin (a : answers) (s : player) : option player :=
  let s := set_stream_exiting true s in
  s ← (if has_video s then need (video_packets_q (pipe s)) (emit (CloseQueue VideoPackets) s) else Some s);
  let s := if audio_packets_q (pipe s) then emit (CloseQueue AudioPackets) s else s in
  let s := set_stream_quit true s in
  Some (set_duration 0 (avbox_player_settitle a "-" s)).

Definition parse_exit_end (a : answers) (s : player) : player :=
  avbox_player_sendctl a CTL_STREAM_EXIT (set_stream_exiting false s).

(** Up to the decoding loop. *)
Definition avbox_player_stream_parse (a : answers) (p : parse_answers) (s : player) : option player :=
  '(ok, s) ← parse_open a p s;
  if (ok : bool) then Some (avbox_player_sendctl a CTL_STREAM_READY (emit (Halt StreamParser) s))
  else s ← parse_exit_begin a s; Some (parse_exit_end a s).

(** ** The player as a system of actions *)

Definition avbox_player_new : player :=
  Player READY PLAYSTATE_READY 0 false false false false (-1) (-1) false (-1) 0 0 false 0 0 0 "NONE"
    None None
    (Pipeline (-1) (-1) 0 false false false false false false false false false false) [] INull [].

Inductive action :=
  | Control (chapters : list chapter_t) (dur : Z) (m : message)
  | Parser (p : parse_answers) | ParserExit
  | Play (path : option string)                                       (* avbox_player_play *)
  | Playlist (mem : list (option Z)) (items : list (Z * string)) (selected : Z).

Definition exec (a : answers) (act : action) (s : player) : option player :=
  match act with
  | Control chapters dur m => avbox_player_control a chapters dur m s
  | Parser p => avbox_player_stream_parse a p s
  | ParserExit => s ← parse_exit_begin a s; Some (parse_exit_end a s)
  | Play path => Some (avbox_player_play a path s)
  | Playlist mem items selected => r ← avbox_player_playlist a mem items selected s; Some (snd r)
  end.

(** One step of the option monad, as a rewrite rule. *)
Lemma obind_some {A B} (x : A) (f : A -> option B) : (Some x ≫= f) = f x.
Proof. done. Qed.

(** ** What the helpers change

    [core] is the part of the state the invariant speaks of besides
    [status], [paused] and [underrun_timer_id]. *)

Definition core (s : player) := (play_state s, pipe s, (playlist s, playlist_item s)).

(** The fields a helper leaves alone. *)
Definition same (s s' : player) : Prop :=
  core s' = core s /\ status s' = status s /\ paused s' = paused s /\
  underrun_timer_id s' = underrun_timer_id s.

Lemma same_refl s : same s s.
Proof. done. Qed.

Lemma same_trans s1 s2 s3 : same s1 s2 -> same s2 s3 -> same s1 s3.
Proof. unfold same. intros (?&?&?&?) (?&?&?&?). split_and!; congruence. Qed.

Definition buffers_ok : Prop := 33 <= cache <= 1000.

Lemma per_buffer_ok : buffers_ok -> exists d, per_buffer = Some d /\ 1 <= d <= 30.
Proof.
  intros [H1 H2]. unfold per_buffer. destruct (Z.eqb_spec cache 0); [lia|].
  rewrite Z.quot_div_nonneg by lia.
  assert (1 <= 1000 / cache <= 30).
  { split; [apply Z.div_le_lower_bound; lia|].
    assert (1000 / cache < 31); [apply Z.div_lt_upper_bound; lia|lia]. }
  destruct (Z.eqb_spec (1000 / cache) 0); [lia|]. eauto.
Qed.

Lemma buffer_video_ok : buffers_ok -> exists n, AVBOX_BUFFER_VIDEO = Some n /\ 1 <= n.
Proof.
  intros H. destruct (per_buffer_ok H) as (d & E & Hd). unfold AVBOX_BUFFER_VIDEO. rewrite E.
  exists (Z.quot 30 d). split; [done|]. rewrite Z.quot_div_nonneg by lia. apply Z.div_le_lower_bound; lia.
Qed.

Lemma buffer_audio_ok : buffers_ok -> exists n, AVBOX_BUFFER_AUDIO = Some n.
Proof.
  intros H. destruct (per_buffer_ok H) as (d & E & Hd). unfold AVBOX_BUFFER_AUDIO. rewrite E. eauto.
Qed.

(** The queues of the video stream and the audio stream exist. *)
Definition queues_ok (s : player) : Prop :=
  has_video s = true -> video_packets_q (pipe s) = true /\ video_frames_q (pipe s) = true.

Lemma dopause_spec s :
  queues_ok s -> audio_stream (pipe s) = true ->
  exists s', avbox_player_dopause s = Some s' /\ core s' = core s /\ status s' = status s /\
    paused s' = paused s + 1 /\ underrun_timer_id s' = underrun_timer_id s.
Proof.
  intros Hq Ha. unfold avbox_player_dopause.
  destruct (negb (paused s =? 0)); [by eexists|].
  change (has_video (set_paused (paused s + 1) s)) with (has_video s).
  change (has_audio (set_paused (paused s + 1) s)) with (has_audio s).
  destruct (has_video s) eqn:Ev; [destruct (Hq Ev) as [_ Hf]|];
    destruct (has_audio s); cbn; rewrite ?Hf; cbn; rewrite ?Ha; by eexists.
Qed.

Lemma doresume_spec a s :
  queues_ok s -> (paused s <> 0 -> audio_stream (pipe s) = true) ->
  exists s', avbox_player_doresume a s = Some s' /\ core s' = core s /\
    underrun_timer_id s' = underrun_timer_id s /\
    paused s' = (if paused s =? 0 then 0 else paused s - 1) /\
    status s' = if paused s =? 1 then PLAYING else status s.
Proof.
  intros Hq Ha. unfold avbox_player_doresume. destruct (Z.eqb_spec (paused s) 0) as [E|E].
  { exists s. rewrite E. done. }
  specialize (Ha E). cbn [paused set_paused].
  destruct (Z.eqb_spec (paused s - 1) 0) as [E1|E1], (Z.eqb_spec (paused s) 1); try lia; cbn [negb].
  - set (s1 := if has_video _ && negb _ then _ else _).
    assert (core s1 = core s /\ underrun_timer_id s1 = underrun_timer_id s /\ paused s1 = paused s - 1 /\
      status s1 = PLAYING) as (C & T & P & S) by (subst s1; by destruct (_ && _)).
    clearbody s1. pose proof C as [= _ C2 _ _].
    change (audio_stream (pipe (emit WatchStart s1))) with (audio_stream (pipe s1)). rewrite C2, Ha.
    change (need true (emit WatchStart s1)) with (Some (emit WatchStart s1)). rewrite obind_some.
    assert (forall u, core u = core s1 -> status u = status s1 -> paused u = paused s1 ->
      underrun_timer_id u = underrun_timer_id s1 -> exists s', Some u = Some s' /\ core s' = core s /\
        underrun_timer_id s' = underrun_timer_id s /\ paused s' = paused s - 1 /\ status s' = PLAYING) as Hfin.
    { intros u U1 U2 U3 U4. exists u. rewrite U1, U2, U3, U4. by split_and!. }
    destruct (a_audio_paused a); [|by apply Hfin].
    change (has_video (emit WatchStart s1)) with (has_video s1).
    assert (has_video s1 = has_video s) as -> by (unfold has_video; by rewrite C2).
    destruct (has_audio _); [|by apply Hfin]. destruct (has_video s) eqn:Ev; [|by apply Hfin].
    destruct (Hq Ev) as [_ Hf]. cbn [andb pipe emit set_log]. rewrite C2, Hf. by apply Hfin.
  - eexists. split_and!; reflexivity.
Qed.

Lemma settitle_same a t s : same s (avbox_player_settitle a t s).
Proof. unfold avbox_player_settitle. by destruct (a_mem a). Qed.

Lemma sendctl_same a c s : same s (avbox_player_sendctl a c s).
Proof. unfold avbox_player_sendctl. by destruct (a_sent a). Qed.

Lemma isunderrun_spec a s :
  buffers_ok -> queues_ok s -> (has_video s || has_audio s = true) -> audio_stream (pipe s) = true ->
  exists b s', avbox_player_isunderrun a s = Some (b, s') /\ same s s' /\
    (b = false -> play_state s = PLAYSTATE_PLAYING).
Proof.
  intros Hb Hq Hva Ha. unfold avbox_player_isunderrun.
  destruct (Z.eqb_spec (play_state s) PLAYSTATE_PLAYING) as [Ep|]; cbn [negb]; [|by eexists _, _].
  destruct (stream_quit s || stream_exiting s); [by eexists _, _|].
  destruct (stream_self (pipe s) && _ && _ && _); [by eexists _, _|].
  destruct (buffer_video_ok Hb) as (n & -> & _), (buffer_audio_ok Hb) as (m & ->).
  rewrite Ha. cbn [need mbind option_bind].
  destruct (has_video s) eqn:Ev; [destruct (Hq Ev) as [_ ->]|];
    destruct (has_audio s) eqn:Ea; try done; destruct (underrun s);
    cbn [need mbind option_bind negb]; by eexists _, _.
Qed.

Lemma isunderrun_early a s :
  play_state s <> PLAYSTATE_PLAYING -> avbox_player_isunderrun a s = Some (true, set_underrun true s).
Proof. intros H. unfold avbox_player_isunderrun. by destruct (Z.eqb_spec (play_state s) PLAYSTATE_PLAYING). Qed.

Lemma handle_underrun_spec a s :
  buffers_ok -> queues_ok s -> a_timer a <> -1 ->
  exists s', avbox_player_handle_underrun a s = Some s' /\ core s' = core s /\ status s' = BUFFERING /\
    paused s' = paused s /\ underrun_timer_id s' = a_timer a.
Proof.
  intros Hb Hq Ht. unfold avbox_player_handle_underrun.
  destruct (buffer_video_ok Hb) as (n & -> & Hn). cbn [mbind option_bind].
  destruct (Z.eqb_spec n 0), (Z.eqb_spec (a_timer a) (-1)); try lia.
  destruct (has_video s) eqn:Ev; [destruct (Hq Ev) as [_ ->]|]; cbn; by eexists.
Qed.

Lemma clear_still_same s : same s (avbox_player_clear_still_frame s).
Proof.
  unfold avbox_player_clear_still_frame. destruct (still_frame s); [|done].
  by destruct (negb (still_frame_timer_id s =? -1)).
Qed.

Lemma halt_spec s :
  queues_ok s -> (PLAYSTATE_AUDIODEC <= play_state s -> audio_stream (pipe s) = true) ->
  exists s', avbox_player_halt s = Some s' /\ same s s'.
Proof.
  intros Hq Ha. unfold avbox_player_halt. cbn.
  change (has_video (emit (Halt StreamParser) s)) with (has_video s).
  destruct (Z.leb_spec PLAYSTATE_AUDIODEC (play_state s)) as [H|H].
  - destruct (PLAYSTATE_VIDEODEC <=? play_state s); cbn [andb];
      destruct (has_video s) eqn:Ev; try (destruct (Hq Ev) as [-> ->]); cbn;
      destruct (Z.leb_spec PLAYSTATE_AUDIODEC (play_state s)); try lia; rewrite Ha by done; by eexists.
  - destruct (Z.leb_spec PLAYSTATE_VIDEODEC (play_state s)).
    { unfold PLAYSTATE_VIDEODEC, PLAYSTATE_AUDIODEC in *. lia. }
    cbn. destruct (Z.leb_spec PLAYSTATE_AUDIODEC (play_state s)); try lia. by eexists.
Qed.

Lemma continue_spec s :
  (PLAYSTATE_AUDIODEC <= play_state s -> audio_stream (pipe s) = true) ->
  exists s', avbox_player_continue s = Some s' /\ same s s'.
Proof.
  intros Ha. unfold avbox_player_continue. cbn.
  destruct (Z.leb_spec PLAYSTATE_AUDIODEC (play_state s)) as [H|H]; [rewrite Ha by done|]; cbn;
    destruct (_ && _); by eexists.
Qed.

Lemma drop_audio_same s : same s (drop_audio s).
Proof. unfold drop_audio. by destruct (audio_packets_q (pipe s)); cbn; destruct (audio_stream (pipe s)). Qed.

Lemma drop_spec s :
  queues_ok s -> (PLAYSTATE_AUDIODEC <= play_state s -> audio_stream (pipe s) = true) ->
  exists s', avbox_player_drop s = Some s' /\ same s s'.
Proof.
  intros Hq Ha. unfold avbox_player_drop.
  destruct (halt_spec (set_flushing FLUSH_ALL s)) as (s1 & -> & H1); [done|done|].
  pose proof H1 as (C1 & _). injection C1 as E1 E2 E3 E4.
  cbn [mbind option_bind].
  assert (has_video s1 = has_video s) as Ev by (unfold has_video; by rewrite E2).
  assert (exists s2, drop_video s1 = Some s2 /\ same s1 s2) as (s2' & -> & H12).
  { unfold drop_video. rewrite Ev, E2. destruct (has_video s) eqn:Ev1; [|by exists s1].
    destruct (Hq Ev1) as [-> ->]. by eexists. }
  cbn [mbind option_bind].
  set (s2 := if fmt_ctx (pipe (drop_audio s2')) then _ else _).
  assert (same s s2) as H2.
  { eapply (same_trans _ s1); [exact H1|]. eapply same_trans; [exact H12|].
    eapply same_trans; [apply drop_audio_same|]. subst s2. by destruct (fmt_ctx _). }
  assert (exists s', avbox_player_continue (set_flushing 0 (avbox_player_clear_still_frame s2)) = Some s' /\
            same s s') as (s' & E & Hs).
  { destruct (continue_spec (set_flushing 0 (avbox_player_clear_still_frame s2))) as (s' & E & Hs).
    - pose proof (same_trans _ _ _ H2 (clear_still_same s2)) as (C & _). cbn. injection C as -> -> _ _. done.
    - exists s'. split; [done|]. eapply same_trans; [exact H2|]. eapply same_trans; [|exact Hs].
      exact (clear_still_same s2). }
  by exists s'.
Qed.

(** The poll of the flush that is the last one. *)
Definition flush_done (l : lanes) (flags : Z) (s : player) : bool :=
  flush_audio l flags s &&
  (audio_clock s || negb (has_video s) || (Z.land flags FLUSH_VIDEO =? 0) ||
   negb (negb (l_video_packets l =? 0) || negb (l_video_frames l =? 0) || negb (l_video_flushed l))).

Lemma flush_video_spec l flags s :
  queues_ok s -> audio_stream (pipe s) = true ->
  exists b s', flush_video l flags s = Some (b, s') /\ same s s' /\ flushing s' = flushing s /\
    (audio_clock s || negb (has_video s) || (Z.land flags FLUSH_VIDEO =? 0) ||
     negb (negb (l_video_packets l =? 0) || negb (l_video_frames l =? 0) || negb (l_video_flushed l)) = true ->
     b = true).
Proof.
  intros Hq Ha. unfold flush_video. destruct (Z.land flags FLUSH_VIDEO =? 0); [by eexists _, _|]. cbn [negb andb].
  destruct (PLAYSTATE_VIDEODEC <=? play_state s); [|by eexists _, _].
  destruct (has_video s) eqn:Ev; [|by eexists _, _]. destruct (Hq Ev) as [-> ->]. cbn [andb].
  change (need true s) with (Some s). rewrite obind_some. unfold need. cbn. rewrite Ha.
  destruct (audio_clock s); cbn [negb orb].
  - destruct (_ || _ || _); by eexists _, _.
  - destruct (_ || _ || _); by eexists _, _.
Qed.

Lemma flush_spec l flags s :
  queues_ok s ->
  PLAYSTATE_PLAYING <= play_state s /\ audio_stream (pipe s) = true /\ fmt_ctx (pipe s) = true \/
  play_state s = PLAYSTATE_STREAM ->
  exists b s', avbox_player_flush l flags s = Some (b, s') /\ same s s' /\
    (flush_done l flags s = true -> b = true).
Proof.
  intros Hq Hp. unfold avbox_player_flush, flush_done.
  destruct (Z.leb_spec PLAYSTATE_PLAYING (play_state s)) as [Hps|].
  - destruct Hp as [(_ & Ha & Hf)|Hp]; [|unfold PLAYSTATE_PLAYING, PLAYSTATE_STREAM in *; lia].
    set (s1 := if flushing s =? 0 then _ else s).
    assert (same s s1 /\ has_video s1 = has_video s /\ audio_clock s1 = audio_clock s /\
      flush_audio l flags s1 = flush_audio l flags s /\ pipe s1 = pipe s) as (H1 & E1 & E2 & E3 & E4).
    { subst s1. by destruct (flushing s =? 0). }
    clearbody s1. rewrite E3. destruct (flush_audio l flags s); [|by eexists _, _]. cbn [negb andb].
    destruct (flush_video_spec l flags s1) as (b & s2 & -> & H2 & _ & Hb);
      [unfold queues_ok; by rewrite E1, E4|by rewrite E4|].
    rewrite obind_some. rewrite E1, E2 in Hb. pose proof (same_trans _ _ _ H1 H2) as H12.
    pose proof H12 as (C & _). injection C as _ Ep _ _. rewrite Ep, Hf.
    destruct b; cbn [negb]; [|by eexists _, _].
    destruct (negb (Z.land flags FLUSH_ALL =? 0)); by eexists _, _.
  - destruct Hp as [[Hp _]|Hp]; [lia|]. rewrite Hp. by eexists _, _.
Qed.

(** ** Invariant *)

Definition hasv (p : pipeline) : bool := negb (video_stream_index p =? -1).
Definition hasa (p : pipeline) : bool := negb (audio_stream_index p =? -1).

(** Which parts of the pipeline exist at which stage. *)
Record pipe_ok (ps : Z) (p : pipeline) : Prop := PipeOk {
  ok_queues : video_packets_q p = hasv p /\ video_frames_q p = hasv p;
  ok_stream : PLAYSTATE_AUDIODEC <= ps ->
    audio_stream p = true /\ fmt_ctx p = true /\ stream_input_worker p = true /\ hasv p || hasa p = true;
  ok_input : stream_input_worker p = true -> PLAYSTATE_STREAM <= ps;
  ok_adec : audio_decoder_worker p = true -> PLAYSTATE_AUDIODEC <= ps;
  ok_vdec : video_decoder_worker p = true <-> PLAYSTATE_VIDEODEC <= ps /\ hasv p = true;
  ok_vout : video_output_worker p = true <-> PLAYSTATE_VIDEOOUT <= ps /\ hasv p = true;
  ok_ready : ps = PLAYSTATE_READY ->
    hasv p = false /\ hasa p = false /\
    (video_packets_q p, video_frames_q p, audio_packets_q p, audio_stream p, fmt_ctx p, stream_self p) =
    (false, false, false, false, false, false) }.

Definition dyn_ok (st : player_status) (ps pd timer : Z) : Prop :=
  PLAYSTATE_READY <= ps <= PLAYSTATE_PLAYING /\
  (st = READY <-> ps = PLAYSTATE_READY) /\
  (st = PLAYING \/ st = PAUSED -> ps = PLAYSTATE_PLAYING) /\
  0 <= pd /\
  (PLAYSTATE_STREAM <= ps < PLAYSTATE_PLAYING -> PLAYSTATE_AUDIODEC <= ps \/ timer <> -1 -> pd = 0) /\
  (ps = PLAYSTATE_READY -> timer = -1).

Definition item_ok (l : list (Z * string)) (p : itemptr) : Prop :=
  match p with IItem x => exists path, (x, path) ∈ l | _ => True end.

Definition inv (s : player) : Prop :=
  pipe_ok (play_state s) (pipe s) /\ item_ok (playlist s) (playlist_item s) /\
  dyn_ok (status s) (play_state s) (paused s) (underrun_timer_id s).

(** ** Actions and faults

    An action is enabled when the threads of the player can bring it about:
    the workers report ready in the order they are started, the parser,
    which is halted while the others start, exits before the control thread
    hears of it, and a DVD sends its messages from within a read. *)

Definition answers_ok (a : answers) : Prop :=
  a_timer a <> -1 /\ a_worker a = true /\ a_delegate a = true.

Definition parsed (p : pipeline) : Prop :=
  audio_stream p = true /\ fmt_ctx p = true /\ hasv p || hasa p = true.

Definition exit_ready (s : player) : Prop :=
  stream_input_worker (pipe s) = true /\
  (stopping s = true \/ play_state s = PLAYSTATE_STREAM \/ play_state s = PLAYSTATE_PLAYING).

Definition enabled (act : action) (s : player) : Prop :=
  let ps := play_state s in
  match act with
  | Control _ _ M_STREAM_READY =>
      ps = PLAYSTATE_STREAM /\ stream_input_worker (pipe s) = true /\ parsed (pipe s) /\ paused s = 0
  | Control _ _ M_AUDIODEC_READY => ps = PLAYSTATE_AUDIODEC
  | Control _ _ M_VIDEODEC_READY => ps = PLAYSTATE_VIDEODEC
  | Control _ _ M_AUDIOOUT_READY => ps = PLAYSTATE_AUDIOOUT
  | Control _ _ M_VIDEOOUT_READY => ps = PLAYSTATE_VIDEOOUT
  | Control _ _ M_STREAM_EXIT => exit_ready s
  | Control _ _ (M_CHANGE_AUDIO_TRACK (Some _)) =>
      ps = PLAYSTATE_PLAYING \/ ps = PLAYSTATE_STREAM /\ fmt_ctx (pipe s) = true
  | Control _ _ (M_FLUSH _ | M_STILL_FRAME _ _) => ps = PLAYSTATE_PLAYING \/ ps = PLAYSTATE_STREAM
  | Control _ _ (M_TIMER id) => id <> -1
  | Parser _ => ps = PLAYSTATE_STREAM /\ is_Some (media_file s) /\ hasv (pipe s) = false
  | Playlist _ items selected => exists path, (selected, path) ∈ items
  | _ => True
  end.

(** The messages after the stream is parsed that come from a thread of it. *)
Definition on_time (s : player) : bool :=
  (PLAYSTATE_AUDIODEC <=? play_state s) || (play_state s =? PLAYSTATE_STREAM) && (paused s =? 0).

(** What the player is not prepared for.  A timer, a thread or a delegate
    cannot be created; a file has no video stream, of which FFmpeg tells by
    an answer other than the -1 the player expects; there is no memory for
    the queues of the video; a seek by chapters looks outside of the table;
    the audio track is changed when no file plays, or switched off in a file
    without video; a report of an underrun comes after its stream ended. *)
Inductive fault (a : answers) (act : action) (s : player) : Prop :=
  | NotCreated : a_timer a = -1 \/ a_worker a = false \/ a_delegate a = false -> fault a act s
  | NoVideoStream q : act = Parser q -> p_video q < 0 -> fault a act s
  | NoVideoQueue q : act = Parser q -> p_video_queue q = false \/ p_frames_queue q = false -> fault a act s
  | OutsideChapters chapters dur flags p :
      act = Control chapters dur (M_SEEK flags p) -> seek_where a chapters dur flags p s = None -> fault a act s
  | NothingPlays chapters dur :
      act = Control chapters dur (M_CHANGE_AUDIO_TRACK None) -> play_state s <> PLAYSTATE_PLAYING -> fault a act s
  | NothingLeft chapters dur arg :
      act = Control chapters dur (M_CHANGE_AUDIO_TRACK (Some (arg, -1))) ->
      play_state s = PLAYSTATE_PLAYING -> hasv (pipe s) = false -> fault a act s
  | LateUnderrun chapters dur :
      act = Control chapters dur M_BUFFER_UNDERRUN -> on_time s = false -> fault a act s.

Definition answers_ok_b (a : answers) : bool := negb (a_timer a =? -1) && a_worker a && a_delegate a.

(** [fault], decided. *)
Definition faulty_b (a : answers) (act : action) (s : player) : bool :=
  negb (answers_ok_b a) ||
  match act with
  | Parser q => (p_video q <? 0) || negb (p_video_queue q && p_frames_queue q)
  | Control chapters dur (M_SEEK flags p) =>
      match seek_where a chapters dur flags p s with Some _ => false | None => true end
  | Control _ _ (M_CHANGE_AUDIO_TRACK None) => negb (play_state s =? PLAYSTATE_PLAYING)
  | Control _ _ (M_CHANGE_AUDIO_TRACK (Some (_, id))) =>
      (id =? -1) && ((play_state s =? PLAYSTATE_PLAYING) && negb (hasv (pipe s)))
  | Control _ _ M_BUFFER_UNDERRUN => negb (on_time s)
  | _ => false
  end.

Lemma answers_ok_spec a : answers_ok_b a = true <-> answers_ok a.
Proof. unfold answers_ok_b, answers_ok. rewrite !andb_true_iff, negb_true_iff, Z.eqb_neq. tauto. Qed.

Lemma player_fault_spec a act s : faulty_b a act s = true <-> fault a act s.
Proof.
  unfold faulty_b. rewrite orb_true_iff, negb_true_iff. split.
  - intros [H|H].
    + apply NotCreated. unfold answers_ok_b in H.
      destruct (Z.eqb_spec (a_timer a) (-1)); [by left|right]. destruct (a_worker a); [right|by left].
      by destruct (a_delegate a).
    + destruct act as [ch dur m|q| | |]; try done; [|].
      * destruct m as [| | |flags p| | | | | | | | | |[[arg id]|]| | | | | | | |]; try done.
        -- destruct (seek_where a ch dur flags p s) eqn:E; [done|]. by eapply OutsideChapters.
        -- apply negb_true_iff in H. by eapply LateUnderrun.
        -- apply andb_true_iff in H as [->%Z.eqb_eq [Hp%Z.eqb_eq H%negb_true_iff]%andb_true_iff]. by eapply NothingLeft.
        -- apply negb_true_iff, Z.eqb_neq in H. by eapply NothingPlays.
      * apply orb_true_iff in H as [H%Z.ltb_lt|H%negb_true_iff]; [by eapply NoVideoStream|].
        eapply NoVideoQueue; [done|]. by destruct (p_video_queue q); [right|left].
  - intros [H|q -> H|q -> H|? ? ? ? -> H|? ? -> H|? ? ? -> Hp H|? ? -> H].
    + left. unfold answers_ok_b. destruct H as [->|[->| ->]]; [done| |]; by rewrite ?andb_false_r.
    + right. apply orb_true_iff. left. by apply Z.ltb_lt.
    + right. apply orb_true_iff. right. destruct H as [->| ->]; [done|]. by rewrite andb_false_r.
    + right. by rewrite H.
    + right. by apply negb_true_iff, Z.eqb_neq.
    + right. by rewrite H, Hp.
    + right. by rewrite H.
Qed.

Lemma player_fault_or_not a act s : fault a act s \/ ~ fault a act s.
Proof. rewrite <- player_fault_spec. destruct (faulty_b a act s); [by left|by right]. Qed.

(** An enabled action without a fault. *)
Definition legal (a : answers) (act : action) (s : player) : Prop := enabled act s /\ ~ fault a act s.

Lemma legal_iff a act s : legal a act s <-> enabled act s /\ faulty_b a act s = false.
Proof. unfold legal. by rewrite <- player_fault_spec, not_true_iff_false. Qed.

Lemma legal_answers a act s : legal a act s -> answers_ok a.
Proof.
  intros [_ Hn]%legal_iff. unfold faulty_b in Hn.
  apply orb_false_iff in Hn as [Hn _]. apply answers_ok_spec. by apply negb_false_iff in Hn.
Qed.

Lemma on_time_spec s :
  on_time s = true <-> PLAYSTATE_AUDIODEC <= play_state s \/ play_state s = PLAYSTATE_STREAM /\ paused s = 0.
Proof. unfold on_time. rewrite orb_true_iff, andb_true_iff, Z.leb_le, !Z.eqb_eq. done. Qed.

Lemma same_inv s s' : same s s' -> inv s -> inv s'.
Proof. intros (C & E1 & E2 & E3). unfold inv. injection C as -> -> -> ->. by rewrite E1, E2, E3. Qed.

Lemma inv_queues s : inv s -> queues_ok s.
Proof. intros ([[Q1 Q2]] & _). unfold queues_ok. by rewrite Q1, Q2. Qed.

Lemma inv_paused s : inv s -> status s <> READY -> PLAYSTATE_AUDIODEC <= play_state s \/ underrun_timer_id s <> -1 ->
  paused s <> 0 -> audio_stream (pipe s) = true.
Proof.
  intros (Hp & _ & Hd) Hr Ht Hn. destruct Hp. destruct Hd as (Hps & Hrd & _ & _ & Hz & Ht0).
  unfold PLAYSTATE_READY, PLAYSTATE_STREAM, PLAYSTATE_AUDIODEC, PLAYSTATE_PLAYING in *.
  assert (play_state s <> 0) by (intros E; by apply Hr, Hrd).
  apply ok_stream0. destruct (Z_lt_dec (play_state s) 6); [|lia]. exfalso. apply Hn, Hz; lia.
Qed.

(** Unfolds the names of the stages. *)
Ltac stages :=
  unfold PLAYSTATE_READY, PLAYSTATE_STREAM, PLAYSTATE_AUDIODEC, PLAYSTATE_VIDEODEC, PLAYSTATE_AUDIOOUT,
    PLAYSTATE_VIDEOOUT, PLAYSTATE_PLAYING in *.

(** Solves [dyn_ok] from the one in the context. *)
Ltac dyn :=
  unfold dyn_ok in *; stages; destruct_and?; split_and!; intros; try (split; intros);
  try lia; try congruence; try (intuition (try lia; congruence)).

(** A step that changes only the status, the pause count and the timer. *)
Lemma inv_dyn s s' :
  inv s -> core s' = core s ->
  dyn_ok (status s') (play_state s) (paused s') (underrun_timer_id s') -> inv s'.
Proof. intros (Hp & Hl & _) C Hd. unfold inv. by injection C as -> -> -> ->. Qed.

Lemma next_after_ok l x r : (exists path, (x, path) ∈ l) -> next_after l x = r ->
  exists p, r = Some p /\ item_ok l p.
Proof.
  intros [path Hx] <-. induction l as [|[y q] l IH]; [set_solver|]. cbn [next_after].
  destruct (Z.eqb_spec y x) as [->|Hn].
  - destruct l as [|[z w] l]; eexists; split; try done. exists w. set_solver.
  - apply elem_of_cons in Hx as [Hx|Hx]; [by simplify_eq|].
    destruct (IH Hx) as (p & -> & Hp). exists p. split; [done|].
    destruct p; try done. destruct Hp as [w Hw]. exists w. set_solver.
Qed.

Lemma list_next_ok l p : p <> INull -> item_ok l p -> exists q, list_next l p = Some q /\ item_ok l q.
Proof.
  destruct p as [| |x]; [done| |]; intros _ Hp; cbn.
  - eexists. split; [done|]. destruct l as [|[z w] l]; [done|]. exists w. set_solver.
  - by destruct (next_after_ok l x _ Hp eq_refl) as (q & -> & ?); eauto.
Qed.

Lemma filepath_ok l x : (exists path, (x, path) ∈ l) -> exists path, filepath l x = Some path.
Proof.
  intros [path Hx]. unfold filepath.
  destruct (list_find (fun y => y.1 = x) l) as [[k y]|] eqn:E; [by eexists|].
  exfalso. apply list_find_None in E. rewrite Forall_forall in E. by apply (E _ Hx).
Qed.

Lemma play_inv a path s : inv s -> inv (avbox_player_play a path s).
Proof.
  intros Hi. unfold avbox_player_play. destruct (_ && _); [done|].
  eapply same_inv; [apply sendctl_same|]. destruct (playlist s) eqn:E; [done|].
  destruct Hi as (Hp & _ & Hd). done.
Qed.

Lemma dostop_spec a s :
  inv s -> exists s', avbox_player_dostop a s = Some s' /\ inv s'.
Proof.
  intros Hi. unfold avbox_player_dostop. destruct (stream_self (pipe s)); [by eexists|].
  cbn [status set_stream_quit]. destruct (decide (status s = PAUSED)) as [E|]; [|by eexists].
  assert (play_state s = PLAYSTATE_PLAYING) as Eps by (apply Hi; auto).
  destruct (doresume_spec a (set_stream_quit true s)) as (s' & Hs & C & T & P & S); [exact (inv_queues _ Hi)| |].
  { intros Hn. apply (inv_paused s); try done; [congruence|]. left. stages. lia. }
  exists s'. split; [done|]. eapply (inv_dyn (set_stream_quit true s)); [done|done|]. cbn in *.
  rewrite S, T, P, E, Eps. destruct Hi as (_ & _ & Hd). rewrite E, Eps in Hd.
  destruct (Z.eqb_spec (paused s) 0), (Z.eqb_spec (paused s) 1); dyn.
Qed.

(** What is shown of each action. *)
Definition safe (o : option player) : Prop := exists s', o = Some s' /\ inv s'.

Lemma safe_some s : inv s -> safe (Some s).
Proof. by exists s. Qed.

Lemma dostop_safe a s : inv s -> safe (avbox_player_dostop a s).
Proof. apply dostop_spec. Qed.

Lemma doplay_safe a path s : inv s -> a_delegate a = true -> a_worker a = true ->
  safe (avbox_player_doplay a path s).
Proof.
  intros Hi Hdel Hwk. unfold avbox_player_doplay. destruct (_ && _); [by apply safe_some|].
  destruct path as [path|].
  - destruct (bool_decide (status s = READY)) eqn:Er; cbn [negb];
      [apply bool_decide_eq_true in Er|by apply dostop_safe].
    rewrite Hdel, Hwk. cbn [negb].
    assert (play_state s = PLAYSTATE_READY) as Eps by (by apply Hi).
    pose proof Hi as (Hp & Hl & Hd). rewrite Er, Eps in Hd. rewrite Eps in Hp.
    set (s0 := avbox_player_updatestatus BUFFERING _).
    assert (pipe s0 = pipe s /\ playlist s0 = playlist s /\ playlist_item s0 = playlist_item s /\
            paused s0 = paused s /\ underrun_timer_id s0 = underrun_timer_id s /\
            status s0 = BUFFERING /\ play_state s0 = PLAYSTATE_STREAM) as (P1 & P2 & P3 & P4 & P5 & P6 & P7).
    { subst s0. unfold avbox_player_settitle. by destruct (a_mem a). }
    clearbody s0. destruct Hp as [Q1 Q2 Q3 Q4 Q5 Q6 Q7]. destruct (Q7 eq_refl) as (V & A & E).
    injection E as E1 E2 E3 E4 E5 E6.
    assert (forall p', hasv p' = false -> hasa p' = false ->
       (audio_decoder_worker p', video_decoder_worker p', video_output_worker p',
        video_packets_q p', video_frames_q p') =
       (audio_decoder_worker (pipe s), video_decoder_worker (pipe s), video_output_worker (pipe s), false, false) ->
       pipe_ok PLAYSTATE_STREAM p') as Hok.
    { intros p' V' A' [= W1 W2 W3 W4 W5]. rewrite V in Q5, Q6. stages.
      split; rewrite ?V', ?W1, ?W2, ?W3; intros; try done; try lia; try (intuition lia). }
    unfold avbox_player_openstream.
    destruct (needs_provider path); [destruct (a_opened a)|]; cbn [negb].
    + eexists. split; [reflexivity|]. split_and!; cbn; rewrite ?P1, ?P2, ?P3; [|done|].
      * rewrite P7. apply Hok; cbn; try done. by rewrite E1, E2.
      * rewrite P4, P5, P6, P7. dyn.
    + eexists. split; [reflexivity|]. split_and!; cbn; rewrite ?P1, ?P2, ?P3; [done|done|].
      rewrite P4, P5. dyn.
    + eexists. split; [reflexivity|]. split_and!; cbn; rewrite ?P1, ?P2, ?P3; [|done|].
      * rewrite P7. apply Hok; cbn; try done. by rewrite E1, E2.
      * rewrite P4, P5, P6, P7. dyn.
  - destruct (decide (status s = PAUSED)) as [E|]; [|by apply safe_some].
    assert (play_state s = PLAYSTATE_PLAYING) as Eps by (apply Hi; auto).
    destruct (doresume_spec a s) as (s' & Hs & C & T & P & S); [exact (inv_queues _ Hi)| |].
    { intros Hn. apply (inv_paused s); try done; [congruence|]. left. stages. lia. }
    exists s'. split; [done|]. eapply inv_dyn; [done|done|]. destruct Hi as (_ & _ & Hd).
    rewrite S, T, P, E, Eps. rewrite E, Eps in Hd.
    destruct (Z.eqb_spec (paused s) 0), (Z.eqb_spec (paused s) 1); dyn.
Qed.

Lemma pause_safe a s : inv s -> safe (pause_msg a s).
Proof.
  intros Hi. unfold pause_msg. destruct (bool_decide_reflect (status s = PLAYING)) as [E|]; [|by apply safe_some].
  cbn [negb]. destruct (_ && _); [by apply safe_some|].
  assert (play_state s = PLAYSTATE_PLAYING) as Eps by (apply Hi; auto).
  pose proof Hi as (Hp & _ & Hd). destruct (ok_stream _ _ Hp) as (Ha & _); [stages; lia|].
  destruct (dopause_spec s) as (s' & -> & C & S & P & T); [by apply inv_queues|done|].
  eexists. split; [reflexivity|]. eapply inv_dyn; [done|exact C|]. cbn. rewrite P, T, Eps.
  rewrite E, Eps in Hd. dyn.
Qed.

Lemma underrun_safe a s :
  buffers_ok -> a_timer a <> -1 -> inv s ->
  (PLAYSTATE_AUDIODEC <= play_state s \/ play_state s = PLAYSTATE_STREAM /\ paused s = 0) ->
  safe (avbox_player_handle_underrun a s).
Proof.
  intros Hb Ht Hi Hl. destruct (handle_underrun_spec a s) as (s' & -> & C & S & P & T);
    [done|by apply inv_queues|done|].
  exists s'. split; [done|]. eapply inv_dyn; [done|done|]. destruct Hi as (_ & _ & Hd).
  rewrite S, P, T. dyn.
Qed.

Lemma stream_parts s : inv s -> PLAYSTATE_AUDIODEC <= play_state s ->
  audio_stream (pipe s) = true /\ has_video s || has_audio s = true.
Proof. intros (Hp & _) H. by destruct (ok_stream _ _ Hp H) as (? & _ & _ & ?). Qed.

(** [isunderrun] at any stage after the parser started. *)
Lemma isunderrun_safe a s :
  buffers_ok -> inv s -> exists b s', avbox_player_isunderrun a s = Some (b, s') /\ same s s' /\
    (b = false -> play_state s = PLAYSTATE_PLAYING).
Proof.
  intros Hb Hi. destruct (Z.eq_dec (play_state s) PLAYSTATE_PLAYING) as [E|].
  - destruct (stream_parts s Hi) as [Ha Hva]; [stages; lia|].
    apply isunderrun_spec; try done. by apply inv_queues.
  - rewrite isunderrun_early by done. by eexists _, _.
Qed.

Lemma buffer_underrun_safe a s :
  buffers_ok -> a_timer a <> -1 -> inv s ->
  (PLAYSTATE_AUDIODEC <= play_state s \/ play_state s = PLAYSTATE_STREAM /\ paused s = 0) ->
  safe (buffer_underrun a s).
Proof.
  intros Hb Ht Hi Hl. unfold buffer_underrun. destruct (underrun s); [by apply safe_some|].
  destruct (_ || _ || _ || _); [by apply safe_some|].
  destruct (isunderrun_safe a s Hb Hi) as (b & s1 & -> & Hs & _). cbn [mbind option_bind].
  pose proof (same_inv _ _ Hs Hi) as Hi1. pose proof Hs as (C & S1 & P1 & T1). injection C as E1 E2 _ _.
  destruct b; [|by apply safe_some].
  change (play_state (set_underrun true s1)) with (play_state s1). rewrite E1.
  destruct (Z.leb_spec PLAYSTATE_PLAYING (play_state s)).
  - destruct (stream_parts s Hi) as [Ha _]; [stages; lia|].
    destruct (dopause_spec (set_underrun true s1)) as (s2 & -> & C2 & S2 & P2 & T2);
      [by apply inv_queues in Hi1|by cbn; rewrite E2|].
    cbn [mbind option_bind]. cbn in *. assert (play_state s2 = play_state s1) as E3 by (by injection C2).
    apply underrun_safe; try done.
    + eapply (inv_dyn s1); [done|done|]. destruct Hi1 as (_ & _ & Hd).
      rewrite S2, P2, T2. assert (play_state s1 = PLAYSTATE_PLAYING) as Eps by (destruct Hd; stages; lia).
      rewrite Eps in *. dyn.
    + left. rewrite E3, E1. stages. lia.
  - cbn [mbind option_bind]. apply underrun_safe; try done. cbn. by rewrite E1, P1.
Qed.

Lemma timer_safe a id s : buffers_ok -> a_timer a <> -1 -> inv s -> id <> -1 -> safe (timer_msg a id s).
Proof.
  intros Hb Ht Hi Hid. unfold timer_msg. destruct (Z.eqb_spec id (underrun_timer_id s)) as [Eid|].
  - destruct (isunderrun_safe a s Hb Hi) as (b & s1 & -> & Hs & Hps). cbn [mbind option_bind].
    pose proof (same_inv _ _ Hs Hi) as Hi1. pose proof Hs as (C & S1 & P1 & T1). injection C as E1 E2 E3 E4.
    pose proof Hi as (_ & _ & Hd).
    destruct b.
    + apply underrun_safe; try done. rewrite E1, P1.
      destruct (Z.eq_dec (play_state s) PLAYSTATE_STREAM) as [E|]; [right|left].
      * split; [done|]. unfold dyn_ok in Hd. destruct_and?. stages. lia.
      * unfold dyn_ok in Hd. destruct_and?. stages. lia.
    + specialize (Hps eq_refl). destruct (stream_parts s Hi) as [Ha _]; [stages; lia|].
      destruct (doresume_spec a (set_underrun_timer_id (-1) (set_underrun false s1)))
        as (s2 & -> & C2 & T2 & P2 & S2); [exact (inv_queues _ Hi1)|cbn; by rewrite E2|].
      eexists. split; [reflexivity|]. eapply (inv_dyn s1); [done|exact C2|]. cbn in *.
      rewrite P2, T2, E1, Hps. destruct Hi1 as (_ & _ & Hd1). rewrite E1, Hps in Hd1.
      destruct (Z.eqb_spec (paused s1) 0); dyn.
  - destruct (id =? stream_exit_timer_id s).
    { eexists. split; [reflexivity|]. eapply same_inv; [|exact Hi]. by apply (sendctl_same a CTL_STREAM_EXIT s). }
    destruct (id =? still_frame_timer_id s); by eexists.
Qed.

(** *** Start-up *)

(** Solves [pipe_ok] for an updated pipeline from the old one. *)
Ltac pipe_solve :=
  repeat match goal with H : pipe_ok _ _ |- _ => destruct H end;
  split; unfold hasv, hasa, parsed, upd_pipe, has_video, has_audio in *; cbn in *; stages; intros;
  try lia; try congruence;
  repeat match goal with
  | H : _ <-> _ |- _ => destruct H
  | H : ?a <= ?b -> _ |- _ => let h := fresh in assert (h : a <= b) by lia; specialize (H h); clear h
  | H : ?a <= ?b /\ ?c -> ?d |- _ =>
      let h := fresh in assert (h : c -> d) by (intro; apply H; split; [lia|assumption]); clear H
  end; try (intuition (try lia; try congruence)).

Lemma stream_ready_safe a s :
  inv s -> a_worker a = true -> play_state s = PLAYSTATE_STREAM -> stream_input_worker (pipe s) = true ->
  parsed (pipe s) -> paused s = 0 -> safe (stream_ready a s).
Proof.
  intros (Hp & Hl & Hd) Hw Eps Hin Hpa Hz. rewrite Eps in Hp, Hd. unfold stream_ready.
  assert (dyn_ok (status s) PLAYSTATE_AUDIODEC (paused s) (underrun_timer_id s)) as Hd'.
  { destruct (status s); dyn. }
  destruct (has_audio _); cbn [negb]; [rewrite Hw|]; (eexists; split; [reflexivity|]).
  - split_and!; [pipe_solve|done|done].
  - eapply same_inv; [apply sendctl_same|]. split_and!; [pipe_solve|done|done].
Qed.

Lemma audiodec_ready_safe a s :
  inv s -> a_worker a = true -> play_state s = PLAYSTATE_AUDIODEC -> safe (audiodec_ready a s).
Proof.
  intros (Hp & Hl & Hd) Hw Eps. rewrite Eps in Hp, Hd. unfold audiodec_ready.
  assert (dyn_ok (status s) PLAYSTATE_VIDEODEC (paused s) (underrun_timer_id s)) as Hd'.
  { destruct (status s); dyn. }
  destruct (has_video _) eqn:Ev; cbn [negb]; [rewrite Hw|]; (eexists; split; [reflexivity|]).
  - split_and!; [pipe_solve|done|done].
  - eapply same_inv; [apply sendctl_same|]. split_and!; [pipe_solve|done|done].
Qed.

Lemma videodec_ready_safe a s :
  inv s -> play_state s = PLAYSTATE_VIDEODEC -> safe (videodec_ready a s).
Proof.
  intros (Hp & Hl & Hd) Eps. rewrite Eps in Hp, Hd. unfold videodec_ready.
  assert (dyn_ok (status s) PLAYSTATE_AUDIOOUT (paused s) (underrun_timer_id s)) as Hd'.
  { destruct (status s); dyn. }
  destruct (ok_stream _ _ Hp) as (Ha & _); [stages; lia|]. cbn. rewrite Ha. cbn.
  eexists. split; [reflexivity|]. eapply same_inv; [apply sendctl_same|].
  split_and!; [pipe_solve|done|done].
Qed.

Lemma audioout_ready_safe a s :
  inv s -> a_worker a = true -> play_state s = PLAYSTATE_AUDIOOUT -> safe (audioout_ready a s).
Proof.
  intros (Hp & Hl & Hd) Hw Eps. rewrite Eps in Hp, Hd. unfold audioout_ready.
  assert (dyn_ok (status s) PLAYSTATE_VIDEOOUT (paused s) (underrun_timer_id s)) as Hd'.
  { destruct (status s); dyn. }
  destruct (has_video _) eqn:Ev; cbn [negb]; [rewrite Hw|]; (eexists; split; [reflexivity|]).
  - split_and!; [pipe_solve|done|done].
  - eapply same_inv; [apply sendctl_same|]. split_and!; [pipe_solve|done|done].
Qed.

Lemma videoout_ready_safe a s :
  buffers_ok -> a_timer a <> -1 -> inv s -> play_state s = PLAYSTATE_VIDEOOUT -> safe (videoout_ready a s).
Proof.
  intros Hb Ht (Hp & Hl & Hd) Eps. rewrite Eps in Hp, Hd. unfold videoout_ready.
  set (s1 := if stream_self _ then _ else _).
  assert (play_state s1 = PLAYSTATE_PLAYING /\ pipe s1 = pipe s /\ playlist s1 = playlist s /\
    playlist_item s1 = playlist_item s /\ status s1 = status s /\ paused s1 = paused s /\
    underrun_timer_id s1 = underrun_timer_id s) as (E1 & E2 & E3 & E4 & E5 & E6 & E7).
  { subst s1. destruct (stream_self _), (a_must_flush a); done. }
  clearbody s1. destruct (ok_stream _ _ Hp) as (Ha & _); [stages; lia|].
  assert (queues_ok (set_underrun true s1)) as Hq.
  { unfold queues_ok, has_video. cbn. rewrite E2. destruct (ok_queues _ _ Hp) as [-> ->]. done. }
  destruct (dopause_spec (set_underrun true s1)) as (s2 & -> & C2 & S2 & P2 & T2); [done|by cbn; rewrite E2|].
  cbn [mbind option_bind]. injection C2 as F1 F2 F3 F4. cbn in *.
  destruct (handle_underrun_spec a s2) as (s3 & -> & C3 & S3 & P3 & T3); [done| |done|].
  { unfold queues_ok, has_video. rewrite F2. exact Hq. }
  injection C3 as G1 G2 G3 G4. eexists. split; [reflexivity|].
  split_and!; cbn; rewrite ?G1, ?G2, ?G3, ?G4, ?F1, ?F2, ?F3, ?F4, ?E1, ?E2, ?E3, ?E4; [|done|].
  - pipe_solve.
  - rewrite P3, P2, T3, E6. dyn.
Qed.

(** *** End of the stream *)

Lemma set_same s : set_log (log s) (set_pipe (pipe s) s) = s.
Proof. by destruct s. Qed.

Lemma join_video_output s :
  (PLAYSTATE_VIDEOOUT <= play_state s <-> video_output_worker (pipe s) = true) ->
  exists l, (if PLAYSTATE_VIDEOOUT <=? play_state s
             then s ← join WVideoOutput (video_output_worker (pipe s)) s;
                  Some (upd_pipe (with_video_output_worker false) s)
             else Some s) =
            Some (set_log l (upd_pipe (with_video_output_worker false) s)).
Proof.
  intros H. destruct (Z.leb_spec PLAYSTATE_VIDEOOUT (play_state s)) as [L|L].
  - apply H in L. rewrite L. by eexists.
  - exists (log s). rewrite <- (set_same s) at 1. do 2 f_equal. unfold upd_pipe. f_equal.
    destruct (video_output_worker (pipe s)) eqn:E; [assert (true = true) as E' by done; apply H in E'; lia|].
    destruct (pipe s). cbn in *. by subst.
Qed.

Lemma join_video_decoder s :
  (PLAYSTATE_VIDEODEC <= play_state s <-> video_decoder_worker (pipe s) = true) ->
  exists l, (if PLAYSTATE_VIDEODEC <=? play_state s
             then s ← join WVideoDecoder (video_decoder_worker (pipe s)) s;
                  Some (upd_pipe (with_video_decoder_worker false) s)
             else Some s) =
            Some (set_log l (upd_pipe (with_video_decoder_worker false) s)).
Proof.
  intros H. destruct (Z.leb_spec PLAYSTATE_VIDEODEC (play_state s)) as [L|L].
  - apply H in L. rewrite L. by eexists.
  - exists (log s). rewrite <- (set_same s) at 1. do 2 f_equal. unfold upd_pipe. f_equal.
    destruct (video_decoder_worker (pipe s)) eqn:E; [assert (true = true) as E' by done; apply H in E'; lia|].
    destruct (pipe s). cbn in *. by subst.
Qed.

(** The video part of the pipeline after the end of a stream. *)
Definition no_video (p : pipeline) : pipeline :=
  Pipeline (-1) (audio_stream_index p) (audio_stream_id p) false false (audio_packets_q p)
    (audio_stream p) (fmt_ctx p) (stream_self p) false false (audio_decoder_worker p)
    (stream_input_worker p).

(** Everything but the pipeline and the log. *)
Definition frame (s : player) :=
  (status s, play_state s, paused s, stopping s, underrun_timer_id s, next_file s,
   (playlist s, playlist_item s)).

Lemma exit_video_spec s :
  inv s ->
  exists s', exit_video s = Some s' /\ frame s' = frame s /\
    (if hasv (pipe s) then pipe s' = no_video (pipe s) else pipe s' = pipe s).
Proof.
  intros (Hp & _ & _). destruct Hp. unfold exit_video. change (has_video s) with (hasv (pipe s)).
  destruct (hasv (pipe s)) eqn:Ev; [|by exists s].
  destruct ok_queues0 as [Q1 Q2].
  destruct (join_video_output s) as (l1 & ->); [naive_solver|]. cbn [mbind option_bind].
  set (s1 := set_log l1 _).
  assert (frame s1 = frame s /\ pipe s1 = with_video_output_worker false (pipe s)) as (F1 & P1) by done.
  clearbody s1. assert (play_state s1 = play_state s) as Eps by (by injection F1).
  destruct (join_video_decoder s1) as (l2 & ->); [rewrite P1, Eps; cbn; naive_solver|].
  cbn [mbind option_bind]. set (s2 := set_log l2 _).
  assert (frame s2 = frame s1 /\ pipe s2 = with_video_decoder_worker false (pipe s1)) as (F2 & P2) by done.
  clearbody s2. rewrite P2, P1. cbn. rewrite Q2. cbn. rewrite P2, P1. cbn. rewrite Q1. cbn.
  eexists. split; [reflexivity|]. split; [by rewrite <- F1, <- F2|]. cbn. by rewrite P2, P1.
Qed.

Lemma exit_audio_decoder_spec s :
  inv s \/ (audio_decoder_worker (pipe s) = true -> PLAYSTATE_AUDIODEC <= play_state s) ->
  exists s', exit_audio_decoder s = Some s' /\ frame s' = frame s /\
    pipe s' = with_audio_decoder_worker false (pipe s).
Proof.
  intros H. assert (audio_decoder_worker (pipe s) = true -> PLAYSTATE_AUDIODEC <= play_state s) as Ha.
  { destruct H as [(Hp & _)|H]; [|done]. by destruct Hp. }
  unfold exit_audio_decoder. destruct (audio_decoder_worker (pipe s)) eqn:E.
  - specialize (Ha eq_refl). destruct (Z.leb_spec PLAYSTATE_AUDIODEC (play_state s)); [|lia].
    by eexists.
  - rewrite andb_false_r. exists s. split_and!; [done..|]. destruct (pipe s); cbn in *. by subst.
Qed.

Lemma exit_cleanup_spec s :
  frame (exit_cleanup s) = frame s /\
  pipe (exit_cleanup s) =
    Pipeline (video_stream_index (pipe s)) (-1) (audio_stream_id (pipe s)) (video_packets_q (pipe s))
      (video_frames_q (pipe s)) false false false false (video_output_worker (pipe s))
      (video_decoder_worker (pipe s)) (audio_decoder_worker (pipe s)) (stream_input_worker (pipe s)).
Proof.
  destruct s as [? ? ? ? ? ? ? ? ? ? ? ? ? ? ? ? ? ? ? ? [? ? ? ? ? qa sa fa st ? ? ? ?] ? ? ?].
  unfold exit_cleanup. cbn. destruct sa, qa, fa, st; done.
Qed.

Lemma exit_next_spec a s :
  item_ok (playlist s) (playlist_item s) ->
  exists s', exit_next a s = Some s' /\ item_ok (playlist s') (playlist_item s') /\
    (status s', play_state s', paused s', underrun_timer_id s', pipe s') =
    (status s, play_state s, paused s, underrun_timer_id s, pipe s).
Proof.
  intros Hl. unfold exit_next. destruct (stopping s); [by exists s|].
  assert (forall path s0, (status s0, play_state s0, paused s0, underrun_timer_id s0, pipe s0) =
      (status s, play_state s, paused s, underrun_timer_id s, pipe s) -> item_ok (playlist s0) (playlist_item s0) ->
    item_ok (playlist (avbox_player_play a path s0)) (playlist_item (avbox_player_play a path s0)) /\
    (status (avbox_player_play a path s0), play_state (avbox_player_play a path s0),
     paused (avbox_player_play a path s0), underrun_timer_id (avbox_player_play a path s0),
     pipe (avbox_player_play a path s0)) =
    (status s, play_state s, paused s, underrun_timer_id s, pipe s)) as Hplay.
  { intros path s0 E H0. unfold avbox_player_play. destruct (_ && _); [done|].
    unfold avbox_player_sendctl. destruct (playlist s0) eqn:Ep, (a_sent a); cbn; rewrite ?Ep; try done; by rewrite ?Ep in *. }
  destruct (next_file s) as [path|].
  { eexists. split; [reflexivity|]. cbn. by apply Hplay. }
  destruct (playlist_item s) as [| |x] eqn:Ei; [by exists s; rewrite Ei| |].
  - destruct (list_next_ok (playlist s) IHead) as (q & E & Hq); [done..|]. rewrite E. cbn [mbind option_bind].
    destruct q as [| |y]; [by eexists..|]. destruct (filepath_ok _ _ Hq) as (path & Ef).
    cbn [playlist set_playlist_item]. rewrite Ef. cbn [mbind option_bind].
    eexists. split; [reflexivity|]. by apply Hplay.
  - destruct (list_next_ok (playlist s) (IItem x)) as (q & E & Hq); [done..|]. rewrite E. cbn [mbind option_bind].
    destruct q as [| |y]; [by eexists..|]. destruct (filepath_ok _ _ Hq) as (path & Ef).
    cbn [playlist set_playlist_item]. rewrite Ef. cbn [mbind option_bind].
    eexists. split; [reflexivity|]. by apply Hplay.
Qed.

(** What the cleanup leaves, for the state after the join. *)
Lemma exit_cleanup_joined s :
  exists s', exit_cleanup (upd_pipe (with_stream_input_worker false) (emit (Join WStreamInput) s)) = s' /\
    frame s' = frame s /\
    pipe s' = Pipeline (video_stream_index (pipe s)) (-1) (audio_stream_id (pipe s))
      (video_packets_q (pipe s)) (video_frames_q (pipe s)) false false false false
      (video_output_worker (pipe s)) (video_decoder_worker (pipe s)) (audio_decoder_worker (pipe s)) false.
Proof.
  eexists. split; [reflexivity|].
  apply (exit_cleanup_spec (upd_pipe (with_stream_input_worker false) (emit (Join WStreamInput) s))).
Qed.

(** The pipeline of a stopped player. *)
Definition stopped (p : pipeline) : pipeline :=
  Pipeline (-1) (-1) (audio_stream_id p) false false false false false false false false false false.

Lemma exit_video_none s :
  inv s -> exists s', exit_video s = Some s' /\ frame s' = frame s /\
    exists qa sa fa st, pipe s' = Pipeline (-1) (audio_stream_index (pipe s)) (audio_stream_id (pipe s))
      false false qa sa fa st false false (audio_decoder_worker (pipe s)) (stream_input_worker (pipe s)).
Proof.
  intros Hi. destruct (exit_video_spec s Hi) as (s1 & E & F & P). exists s1. split_and!; [done..|].
  destruct Hi as (Hp & _). destruct Hp. destruct ok_queues0 as [Q1 Q2].
  destruct (hasv (pipe s)) eqn:Ev; rewrite P; [by unfold no_video; eauto|].
  assert (video_decoder_worker (pipe s) = false) as W1.
  { destruct (video_decoder_worker (pipe s)); [by destruct ok_vdec0 as [[] _]|done]. }
  assert (video_output_worker (pipe s) = false) as W2.
  { destruct (video_output_worker (pipe s)); [by destruct ok_vout0 as [[] _]|done]. }
  unfold hasv in Ev. destruct (Z.eqb_spec (video_stream_index (pipe s)) (-1)) as [Ex|]; [|done].
  destruct (pipe s). cbn in *. subst. by repeat eexists.
Qed.

(** The steps of [exit_finish] up to the choice of the next file. *)
Lemma exit_finish_joined a s :
  inv s -> stream_input_worker (pipe s) = true ->
  exists s3, exit_finish a s =
      (s ← exit_next a (avbox_player_updatestatus READY s3); Some (set_play_state PLAYSTATE_READY s)) /\
    frame s3 = frame s /\ pipe s3 = stopped (pipe s).
Proof.
  intros Hi Hin. unfold exit_finish.
  destruct (exit_video_none s Hi) as (s1 & -> & F1 & qa & sa & fa & st & P1). rewrite obind_some.
  destruct (exit_audio_decoder_spec s1) as (s2 & -> & F2 & P2).
  { right. rewrite P1. cbn. intros E. injection F1 as _ -> _ _ _ _ _ _. destruct Hi as (Hp & _).
    exact (ok_adec _ _ Hp E). }
  rewrite obind_some.
  assert (join WStreamInput (stream_input_worker (pipe s2)) s2 = Some (emit (Join WStreamInput) s2)) as ->.
  { rewrite P2, P1. cbn [stream_input_worker with_audio_decoder_worker]. by rewrite Hin. }
  rewrite obind_some. cbv zeta. destruct (exit_cleanup_joined s2) as (s3 & E3 & F3 & P3). rewrite E3. clear E3.
  exists s3. split_and!; [done|by rewrite F3, F2, F1|]. rewrite P3, P2, P1. done.
Qed.

Lemma exit_finish_spec a s :
  inv s -> stream_input_worker (pipe s) = true -> underrun_timer_id s = -1 ->
  exists s', exit_finish a s = Some s' /\ inv s' /\
    status s' = READY /\ play_state s' = PLAYSTATE_READY /\ pipe s' = stopped (pipe s).
Proof.
  intros Hi Hin Ht. destruct (exit_finish_joined a s Hi Hin) as (s3 & -> & F3 & P3).
  injection F3 as F31 F32 F33 F34 F35 F36 F37 F38.
  destruct (exit_next_spec a (avbox_player_updatestatus READY s3)) as (s4 & -> & Hl4 & E4).
  { cbn. rewrite F37, F38. apply Hi. }
  rewrite obind_some. injection E4 as E41 E42 E43 E44 E45.
  change (pipe (avbox_player_updatestatus READY s3)) with (pipe s3) in E45. rewrite P3 in E45.
  exists (set_play_state PLAYSTATE_READY s4). split; [done|].
  assert (pipe (set_play_state PLAYSTATE_READY s4) = stopped (pipe s)) as Ep by exact E45.
  split_and!; [|exact E41|done|done]. destruct Hi as (_ & _ & Hd).
  unfold inv. rewrite Ep. split_and!; [|exact Hl4|].
  - split; cbn; stages; intros; try done; try lia; intuition (try lia; try congruence).
  - cbn [status play_state paused underrun_timer_id set_play_state]. rewrite E41, E43, E44. cbn.
    rewrite F33, F35, Ht. unfold dyn_ok in *. destruct_and?. stages.
    split_and!; intros; try done; try lia. intuition congruence.
Qed.

(** A buffering stream is resumed first. *)
Lemma exit_resume_spec a s :
  inv s -> PLAYSTATE_STREAM <= play_state s ->
  exists s', (if negb (underrun_timer_id s =? -1)
       then avbox_player_doresume a
              (set_underrun_timer_id (-1) (emit (TimerCancel (underrun_timer_id s)) s))
       else Some s) = Some s' /\ inv s' /\ core s' = core s /\ underrun_timer_id s' = -1.
Proof.
  intros Hi Hps. destruct (Z.eqb_spec (underrun_timer_id s) (-1)) as [E|E]; cbn [negb]; [by exists s|].
  pose proof Hi as (_ & _ & Hd).
  assert (status s <> READY) as Hr by (intros Hr; apply Hd in Hr; stages; lia).
  destruct (doresume_spec a (set_underrun_timer_id (-1) (emit (TimerCancel (underrun_timer_id s)) s)))
    as (s1 & -> & C & T & P & S); [exact (inv_queues _ Hi)| |].
  { intros Hn. apply (inv_paused s); auto. }
  exists s1. split_and!; [done| |done|done]. eapply (inv_dyn s); [done|done|]. cbn in *. rewrite T, S, P.
  destruct (Z.eqb_spec (paused s) 0), (Z.eqb_spec (paused s) 1); dyn.
Qed.

Lemma inv_playing s : inv s -> play_state s = PLAYSTATE_PLAYING ->
  PLAYSTATE_PLAYING <= play_state s /\ audio_stream (pipe s) = true /\ fmt_ctx (pipe s) = true.
Proof.
  intros (Hp & _) E. split; [lia|]. destruct (ok_stream _ _ Hp) as (? & ? & _); [stages; lia|]. done.
Qed.

Lemma delay_exit_same a s : same s (avbox_player_delay_stream_exit a s).
Proof.
  unfold avbox_player_delay_stream_exit. destruct (a_timer a =? -1); [|by split_and!].
  eapply same_trans; [|apply sendctl_same]. by split_and!.
Qed.

Lemma doresume_flags a s s' :
  avbox_player_doresume a s = Some s' ->
  stopping s' = stopping s /\ audio_clock s' = audio_clock s /\ underrun s' = underrun s.
Proof.
  unfold avbox_player_doresume, need. intros H.
  destruct (paused s =? 0); [by simplify_eq|]. destruct (negb _) in H; [by simplify_eq|].
  set (s1 := if has_video _ && negb _ then _ else _) in H.
  assert (stopping s1 = stopping s /\ audio_clock s1 = audio_clock s /\ underrun s1 = underrun s) as E
    by (subst s1; by destruct (_ && _)).
  clearbody s1. destruct (audio_stream _) in H; [|done]. rewrite obind_some in H.
  destruct (a_audio_paused a); [|by simplify_eq/=].
  destruct (_ && _) in H; [destruct (video_frames_q _) in H; [|done]|]; rewrite obind_some in H; by simplify_eq/=.
Qed.

Lemma stream_exit_spec a s :
  inv s -> exit_ready s ->
  exists s', stream_exit a s = Some s' /\ inv s' /\
    (stopping s = true \/ flush_done (a_lanes a) FLUSH_ALL s = true ->
     status s' = READY /\ play_state s' = PLAYSTATE_READY /\ pipe s' = stopped (pipe s)).
Proof.
  intros Hi [Hin Hst]. unfold stream_exit.
  assert (PLAYSTATE_STREAM <= play_state s) as Hps by (destruct Hi as (Hp & _); by apply (ok_input _ _ Hp)).
  destruct (exit_resume_spec a s Hi Hps) as (s1 & E1 & Hi1 & C1 & T1).
  assert (stopping s1 = stopping s /\ audio_clock s1 = audio_clock s) as [St1 Ac1].
  { destruct (negb (underrun_timer_id s =? -1)); [|by simplify_eq]. by apply doresume_flags in E1 as (? & ? & _). }
  rewrite E1, obind_some. injection C1 as Eps Ep El Ei.
  assert (flush_done (a_lanes a) FLUSH_ALL s1 = flush_done (a_lanes a) FLUSH_ALL s) as Hdone.
  { unfold flush_done, flush_audio, has_video. by rewrite Ac1, Ep, Eps. }
  rewrite <- St1, <- Eps in Hst. rewrite <- Ep in Hin. rewrite <- St1.
  assert (forall s2, same s1 s2 -> exists s', exit_finish a s2 = Some s' /\ inv s' /\
      status s' = READY /\ play_state s' = PLAYSTATE_READY /\ pipe s' = stopped (pipe s)) as Hfin.
  { intros s2 Hs. pose proof (same_inv _ _ Hs Hi1) as Hi2. pose proof Hs as (C2 & _ & _ & T2).
    injection C2 as _ Ep2 _ _. rewrite <- Ep, <- Ep2. apply exit_finish_spec; congruence. }
  destruct (stopping s1).
  - destruct (drop_spec s1) as (s2 & -> & Hs); [by apply inv_queues|intros; by apply stream_parts|].
    rewrite !obind_some. cbn [negb]. destruct (Hfin s2 Hs) as (s' & -> & ? & ?).
    exists s'. by split; [|split; [|intros _]].
  - destruct (flush_spec (a_lanes a) FLUSH_ALL s1) as (b & s2 & -> & Hs & Hb); [by apply inv_queues| |].
    { destruct Hst as [?|[?|Hst]]; [done|by right|left]. by apply inv_playing. }
    rewrite obind_some. destruct b; cbn [negb].
    + destruct (Hfin s2 Hs) as (s' & -> & ? & ?).
    exists s'. by split; [|split; [|intros _]].
    + exists (avbox_player_delay_stream_exit a s2). split_and!; [done| |].
      * eapply same_inv; [|exact Hi1]. eapply same_trans; [exact Hs|]. apply delay_exit_same.
      * intros [?|Hf]; [done|]. specialize (Hb ltac:(by rewrite Hdone)). done.
Qed.

(** *** The other messages *)

Lemma seek_stream_safe a t s :
  buffers_ok -> a_timer a <> -1 -> inv s -> play_state s = PLAYSTATE_PLAYING ->
  status s = PLAYING \/ status s = PAUSED -> safe (seek_stream a t s).
Proof.
  intros Hb Ht Hi Eps Hst. unfold seek_stream. destruct (underrun s); [by apply safe_some|].
  destruct (stream_parts s Hi) as [Ha _]; [stages; lia|].
  assert (exists s1, (if decide (status s = PAUSED) then avbox_player_doresume a s else Some s) = Some s1 /\
            inv s1 /\ core s1 = core s) as (s1 & -> & Hi1 & C1).
  { destruct (decide (status s = PAUSED)) as [E|]; [|by exists s].
    destruct (doresume_spec a s) as (s' & -> & C & T & P & S); [by apply inv_queues|done|].
    exists s'. split_and!; [done| |done]. eapply inv_dyn; [done|done|]. destruct Hi as (_ & _ & Hd).
    rewrite S, T, P, E, Eps. rewrite E, Eps in Hd.
    destruct (Z.eqb_spec (paused s) 0), (Z.eqb_spec (paused s) 1); dyn. }
  rewrite obind_some. destruct (t =? -1); [by apply safe_some|]. cbv zeta.
  set (s2 := emit (SeekFrame _ _) _). assert (same s1 s2) as H12 by (by split_and!). clearbody s2.
  pose proof (same_inv _ _ H12 Hi1) as Hi2. pose proof H12 as (C2 & _ & _ & _). rewrite C1 in C2.
  assert (exists s3, (if a_seek_ok a then avbox_player_drop s2 else Some (emit Throw s2)) = Some s3 /\
            same s2 s3) as (s3 & -> & H23).
  { destruct (a_seek_ok a); [|by eexists; split; [|split_and!]].
    apply drop_spec; [by apply inv_queues|intros; by apply stream_parts]. }
  rewrite obind_some. pose proof (same_inv _ _ H23 Hi2) as Hi3. pose proof H23 as (C3 & _).
  rewrite C2 in C3. injection C3 as E31 E32 _ _.
  destruct (dopause_spec (set_underrun true s3)) as (s4 & -> & C4 & S4 & P4 & T4);
    [by apply inv_queues in Hi3|by cbn; rewrite E32|].
  rewrite obind_some. assert (inv s4) as Hi4.
  { eapply (inv_dyn s3); [done|exact C4|]. destruct Hi3 as (_ & _ & Hd). cbn in *.
    rewrite S4, P4, T4, E31, Eps. rewrite E31, Eps in Hd. dyn. }
  assert (play_state s4 = PLAYSTATE_PLAYING) as E4 by (injection C4 as -> _ _ _; by rewrite E31).
  destruct (underrun_safe a s4 Hb Ht Hi4) as (s5 & -> & Hi5); [left; rewrite E4; stages; lia|].
  rewrite obind_some. by eexists.
Qed.

Lemma playlist_target_ok l r x :
  playlist_target r = Some (SeekItem x) -> (forall p, r = Some p -> item_ok l p) -> item_ok l (IItem x).
Proof.
  unfold playlist_target. intros E H. destruct r as [p|]; [|done]. rewrite obind_some in E.
  specialize (H p eq_refl). destruct p; simplify_eq. done.
Qed.

Lemma item_ok_rev l p : item_ok (rev l) p -> item_ok l p.
Proof.
  destruct p; try done. intros [path H]. exists path. apply list_elem_of_In, in_rev. by apply list_elem_of_In.
Qed.

Lemma list_next_item l p q : item_ok l p -> list_next l p = Some q -> item_ok l q.
Proof.
  intros Hp E. destruct p as [| |x]; [done| |].
  - injection E as <-. destruct l as [|[z w] l]; [done|]. exists w. set_solver.
  - destruct (next_after_ok l x _ Hp eq_refl) as (q' & E' & ?). cbn in E. congruence.
Qed.

Lemma list_prev_item l p q : item_ok l p -> list_prev l p = Some q -> item_ok l q.
Proof.
  intros Hp E. apply item_ok_rev. eapply (list_next_item (rev l) p); [|done].
  apply item_ok_rev. by rewrite rev_involutive.
Qed.

Lemma seek_where_item a chapters dur flags incr s x :
  item_ok (playlist s) (playlist_item s) ->
  seek_where a chapters dur flags incr s = Some (SeekItem x) -> item_ok (playlist s) (IItem x).
Proof.
  intros Hl. unfold seek_where. destruct (negb _).
  - destruct (fmt_ctx (pipe s)); [|done]. unfold need. rewrite obind_some. unfold chapter_target. cbv zeta.
    destruct (match chapters with [] => _ | _ => _ end) as [[[nb c] cp]|]; [|done]. rewrite obind_some.
    destruct (_ && _ && (_ || _)); [|destruct (_ && _ && (_ =? 0))].
    + intros E. eapply playlist_target_ok; [exact E|]. intros p. by apply list_next_item.
    + intros E. eapply playlist_target_ok; [exact E|]. intros p. by apply list_prev_item.
    + destruct (_ || _); [done|]. destruct (_ =? len chapters); [|done].
      by destruct (chapters !! _).
  - destruct (negb _); [done|]. by destruct (negb _).
Qed.

Lemma seek_safe a chapters dur flags incr s :
  buffers_ok -> a_timer a <> -1 -> inv s -> seek_where a chapters dur flags incr s <> None ->
  safe (avbox_player_doseek a chapters dur flags incr s).
Proof.
  intros Hb Ht Hi Hw. unfold avbox_player_doseek.
  assert (negb (bool_decide (status s = PLAYING)) && negb (bool_decide (status s = PAUSED)) = false ->
          status s = PLAYING \/ status s = PAUSED) as Hst.
  { destruct (status s); auto; done. }
  destruct (negb _ && negb _); [by apply safe_some|]. specialize (Hst eq_refl).
  destruct (_ && _); [by apply safe_some|].
  destruct (seek_where a chapters dur flags incr s) as [t|] eqn:Es; [|done]. rewrite obind_some.
  destruct t as [t|x|].
  - apply seek_stream_safe; try done. by apply Hi.
  - pose proof Hi as (Hp & Hl & Hd). pose proof (seek_where_item _ _ _ _ _ _ _ Hl Es) as Hx.
    destruct (filepath_ok _ _ Hx) as (path & ->). rewrite obind_some. eexists. split; [reflexivity|].
    apply play_inv. by split_and!.
  - by apply safe_some.
Qed.

Lemma next_track_bounds l : forall i cur first found,
  0 <= i -> first = -1 \/ 0 <= first ->
  next_track l i cur first found = -1 \/ 0 <= next_track l i cur first found.
Proof.
  induction l as [|[au id] l IH]; intros i cur first found Hi Hf; [done|]. cbn [next_track].
  destruct (negb au); [apply IH; [lia|done]|].
  assert ((if first =? -1 then i else first) = -1 \/ 0 <= (if first =? -1 then i else first)) as Hf'.
  { destruct (Z.eqb_spec first (-1)); lia. }
  destruct (i =? cur); [apply IH; [lia|done]|]. destruct found; [lia|]. apply IH; [lia|done].
Qed.

Lemma track_safe a arg s :
  buffers_ok -> inv s -> play_state s = PLAYSTATE_PLAYING \/ play_state s = PLAYSTATE_STREAM /\ fmt_ctx (pipe s) = true ->
  match arg with
  | Some (_, id) => id = -1 -> play_state s = PLAYSTATE_PLAYING -> hasv (pipe s) = true
  | None => play_state s = PLAYSTATE_PLAYING
  end ->
  safe (change_audio_track a arg s).
Proof.
  intros Hb Hi Hps Harg. pose proof Hi as (Hp & Hl & Hd). destruct (buffer_video_ok Hb) as (n & En & _).
  assert (fmt_ctx (pipe s) = true) as Hf.
  { destruct Hps as [Hps|[_ Hf]]; [|done]. destruct (ok_stream _ _ Hp) as (_ & Hf & _); [stages; lia|done]. }
  assert (forall i id, (play_state s = PLAYSTATE_PLAYING -> hasv (pipe s) = true) \/ i <> -1 ->
    pipe_ok (play_state s) (with_audio_stream_index i (with_audio_stream_id id (pipe s)))) as Hok.
  { intros i id H. destruct Hp as [Q1 Q2 Q3 Q4 Q5 Q6 Q7]. split; try done; [|intros; exfalso; stages; lia]. intros Hge.
    destruct (Q2 Hge) as (R1 & R2 & R3 & R4). split_and!; [done..|].
    change (hasv (with_audio_stream_index i (with_audio_stream_id id (pipe s)))) with (hasv (pipe s)).
    destruct H as [->|H]; [done|stages; lia|]. unfold hasa. cbn. destruct (Z.eqb_spec i (-1)); [done|]. by rewrite orb_true_r. }
  assert (forall s', pipe_ok (play_state s) (pipe s') ->
     (playlist s', playlist_item s', status s', play_state s', paused s', underrun_timer_id s') =
     (playlist s, playlist_item s, status s, play_state s, paused s, underrun_timer_id s) -> inv s') as Hmk.
  { intros s' H [= W1 W2 W3 W4 W5 W6]. unfold inv. rewrite W1, W2, W3, W4, W5, W6. by split_and!. }
  destruct (ok_queues _ _ Hp) as [_ Q2]. unfold change_audio_track. destruct arg as [[arg id]|].
  - rewrite Hf. destruct (Z.eqb_spec id (-1)) as [->|Hid]; cbn [negb].
    + specialize (Harg eq_refl). change (has_video _) with (hasv (pipe s)).
      assert (pipe_ok (play_state s) (with_audio_stream_index (-1) (pipe s))) as Hpk.
      { specialize (Hok (-1) (audio_stream_id (pipe s))). destruct (pipe s). cbn in *. apply Hok. by left. }
      destruct (hasv (pipe s)) eqn:Ev; [rewrite En, obind_some; cbn; rewrite Q2; cbn|];
        (eexists; split; [reflexivity|]; by apply Hmk).
    + change (need true s) with (Some s). rewrite obind_some. cbv zeta. change (has_video (upd_pipe _ s)) with (hasv (pipe s)).
      destruct (hasv (pipe s)) eqn:Ev.
      * rewrite En, obind_some. cbn. rewrite Q2. cbn. eexists. split; [reflexivity|].
        apply Hmk; [|done]. cbn. apply Hok. by left.
      * eexists. split; [reflexivity|]. apply Hmk; [|done]. cbn. apply Hok. by right.
  - rewrite Hf. change (need true s) with (Some s). rewrite obind_some. cbv zeta.
    set (i := next_track _ _ _ _ _).
    destruct (next_track_bounds (a_streams a) 0 (audio_stream_index (pipe s)) (-1) false) as [E|E];
      [lia|by left| |]; fold i in E.
    + rewrite E. by apply safe_some.
    + destruct (_ && _); [|by apply safe_some]. eexists. split; [reflexivity|]. apply Hmk; [|done].
      specialize (Hok i (audio_stream_id (pipe s))). cbn in *. destruct (pipe s). cbn in *. apply Hok. right. lia.
Qed.

(** A field outside the invariant changes nothing it speaks of. *)
Lemma safe_same s s' : same s s' -> inv s -> safe (Some s').
Proof. intros Hs Hi. exists s'. split; [done|]. by eapply same_inv. Qed.

Lemma flush_wait_same l flags s :
  inv s -> play_state s = PLAYSTATE_PLAYING \/ play_state s = PLAYSTATE_STREAM ->
  exists s', flush_wait l flags s = Some s' /\ same s s'.
Proof.
  intros Hi Hp. unfold flush_wait.
  assert (forall l u, same s u -> exists b u', avbox_player_flush l flags u = Some (b, u') /\ same s u') as Hf.
  { intros l' u Hu. pose proof (same_inv _ _ Hu Hi) as Hiu. pose proof Hu as (C & _). injection C as C _ _ _.
    destruct (flush_spec l' flags u) as (b & u' & -> & Hs & _); [by apply inv_queues| |].
    - rewrite <- C in Hp. destruct Hp; [left; by apply inv_playing|by right].
    - exists b, u'. split; [done|]. by eapply same_trans. }
  destruct (Hf l s (same_refl s)) as (b & s1 & -> & H1). rewrite obind_some. destruct b; [by exists s1|].
  destruct (Hf drained s1 H1) as (b & s2 & -> & H2). rewrite obind_some. by exists s2.
Qed.

Lemma still_frame_safe a arg n s :
  inv s -> play_state s = PLAYSTATE_PLAYING \/ play_state s = PLAYSTATE_STREAM ->
  safe (still_frame_msg a arg n s).
Proof.
  intros Hi Hp. destruct (flush_wait_same (a_lanes a) FLUSH_VIDEO s Hi Hp) as (s1 & E & Hs). unfold still_frame_msg.
  rewrite E. pose proof (same_inv _ _ Hs Hi) as Hi1. clear E Hs.
  destruct (negb (Z.land n 255 =? 255)); [|destruct (negb (still_frame s))];
    [rewrite obind_some; destruct (a_timer a =? -1)|rewrite obind_some|];
    first [by eapply (safe_same s1); [split_and!|]|by apply safe_some].
Qed.

(** *** The parser thread *)

(** While the stream is being opened. *)
Lemma pipe_ok_stream p :
  pipe_ok PLAYSTATE_STREAM p <->
  video_packets_q p = hasv p /\ video_frames_q p = hasv p /\
  (audio_decoder_worker p, video_decoder_worker p, video_output_worker p) = (false, false, false).
Proof.
  split.
  - intros [[Q1 Q2] _ _ Q4 Q5 Q6 _]. split_and!; [done..|]. stages.
    destruct (audio_decoder_worker p); [specialize (Q4 eq_refl); lia|].
    destruct (video_decoder_worker p); [destruct Q5 as [[Q5 _] _]; [done|lia]|].
    destruct (video_output_worker p); [destruct Q6 as [[Q6 _] _]; [done|lia]|]. done.
  - intros (Q1 & Q2 & [= Q3 Q4 Q5]). split; rewrite ?Q3, ?Q4, ?Q5; stages; intros; try done; try lia;
      intuition (try done; lia).
Qed.

(** A state of the parser thread. *)
Definition parsing (s s' : player) : Prop :=
  (status s', play_state s', underrun_timer_id s', playlist s', playlist_item s') =
  (status s, play_state s, underrun_timer_id s, playlist s, playlist_item s) /\
  paused s' = 0 /\ pipe_ok PLAYSTATE_STREAM (pipe s').

Lemma parsing_title a t s s' : parsing s s' -> parsing s (avbox_player_settitle a t s').
Proof. unfold avbox_player_settitle. by destruct (a_mem a). Qed.

Lemma parsing_send a c s s' : parsing s s' -> parsing s (avbox_player_sendctl a c s').
Proof. unfold avbox_player_sendctl. by destruct (a_sent a). Qed.

Lemma parsing_inv s s' : inv s -> play_state s = PLAYSTATE_STREAM -> parsing s s' -> inv s'.
Proof.
  intros (_ & Hl & Hd) Eps ([= E1 E2 E3 E4 E5] & E6 & Hp). unfold inv.
  rewrite E1, E2, E3, E4, E5, E6, Eps. rewrite Eps in Hd. split_and!; [done..|]. dyn.
Qed.

Lemma parse_streams_ok q s s' :
  buffers_ok -> parsing s s' -> hasv (pipe s') = false ->
  (p_video q = -1 \/ 0 <= p_video q) -> p_video_queue q = true -> p_frames_queue q = true ->
  exists b s'', parse_streams q s' = Some (b, s'') /\ parsing s s''.
Proof.
  intros Hb (F & Z0 & Hp) Hv Hpv Q1 Q2. unfold parse_streams. rewrite Q1, Q2. cbn [negb].
  apply pipe_ok_stream in Hp as (R1 & R2 & R3). rewrite Hv in R1, R2.
  set (s1 := upd_pipe (with_video_stream_index _) _).
  assert ((status s1, play_state s1, underrun_timer_id s1, playlist s1, playlist_item s1) =
    (status s, play_state s, underrun_timer_id s, playlist s, playlist_item s) /\ paused s1 = 0 /\
    video_stream_index (pipe s1) = p_video q /\ video_packets_q (pipe s1) = false /\
    video_frames_q (pipe s1) = false /\
    (audio_decoder_worker (pipe s1), video_decoder_worker (pipe s1), video_output_worker (pipe s1)) =
    (false, false, false)) as (F1 & Z1 & V1 & R4 & R5 & R6).
  { subst s1. by destruct (0 <=? p_audio q). }
  clearbody s1. destruct (Z.leb_spec 0 (p_video q)).
  - destruct (buffer_video_ok Hb) as (n & -> & _). rewrite obind_some.
    assert (forall p', (video_packets_q p', video_frames_q p', video_stream_index p') = (true, true, p_video q) ->
      hasv p' = true) as Hh.
    { intros p' [= _ _ E]. unfold hasv. rewrite E. destruct (Z.eqb_spec (p_video q) (-1)); [lia|done]. }
    destruct (has_audio s1), (has_audio _); eexists _, _; (split; [reflexivity|]); split_and!; try done;
      apply pipe_ok_stream; (rewrite Hh; [by split_and!|]); cbn; by rewrite V1.
  - eexists _, _. split; [reflexivity|]. split_and!; [done..|]. apply pipe_ok_stream.
    assert (hasv (pipe s1) = false) as ->; [|by split_and!].
    unfold hasv. rewrite V1. destruct Hpv as [->|]; [done|lia].
Qed.

Lemma parse_open_ok a q s :
  buffers_ok -> inv s -> play_state s = PLAYSTATE_STREAM -> is_Some (media_file s) ->
  hasv (pipe s) = false -> (p_video q = -1 \/ 0 <= p_video q) ->
  p_video_queue q = true -> p_frames_queue q = true ->
  exists b s', parse_open a q s = Some (b, s') /\ parsing s s'.
Proof.
  intros Hb Hi Eps [t Hm] Hv Hpv Q1 Q2. unfold parse_open.
  change (media_file (set_paused 0 _)) with (media_file s). rewrite Hm, obind_some. cbv zeta.
  set (P := fun s' => parsing s s' /\ hasv (pipe s') = false).
  assert (forall u, P u -> exists b s', Some (false, u) = Some (b, s') /\ parsing s s') as Hstop.
  { intros u [Hu _]. by exists false, u. }
  set (s1 := avbox_player_settitle a t _). assert (P s1) as H1.
  { pose proof Hi as (Hp & _). rewrite Eps in Hp. split; [by apply parsing_title; split_and!|].
    subst s1. unfold avbox_player_settitle. by destruct (a_mem a). }
  clearbody s1. destruct (negb (p_context q)); [by apply Hstop|].
  set (s2 := avbox_player_sendctl a _ _). assert (P s2) as H2.
  { destruct H1 as [(F & Z0 & Hp) ?]. split.
    - apply parsing_send. split_and!; [done..|]. by apply pipe_ok_stream in Hp; apply pipe_ok_stream.
    - subst s2. unfold avbox_player_sendctl. by destruct (a_sent a). }
  clearbody s2. destruct (negb (p_input q)).
  { apply Hstop. destruct H2 as [(F & Z0 & Hp) ?]. split; [|done]. split_and!; [done..|].
    by apply pipe_ok_stream in Hp; apply pipe_ok_stream. }
  destruct (negb (p_info q)); [by apply Hstop|].
  set (s3 := if stream_self (pipe s2) then s2 else _). assert (P s3) as H3.
  { subst s3. destruct (stream_self _), (p_title q); try done. destruct H2 as [? ?].
    split; [by apply parsing_title|]. unfold avbox_player_settitle. by destruct (a_mem a). }
  clearbody s3. set (s4 := if _ || _ then set_duration _ s3 else s3).
  assert (P s4) as H4 by (subst s4; by destruct (_ || _)).
  clearbody s4. destruct (negb (p_stream q)); [by apply Hstop|]. cbv zeta.
  set (s5 := upd_pipe (with_audio_stream true) s4). assert (P s5) as H5.
  { destruct H4 as [(F & Z0 & Hp) ?]. split; [|done]. split_and!; [done..|].
    by apply pipe_ok_stream in Hp; apply pipe_ok_stream. }
  clearbody s5. destruct (negb (p_audio_queue q)); [by apply Hstop|].
  destruct H5 as [(F & Z0 & Hp) Hv5]. apply parse_streams_ok; try done. split_and!; [done..|].
  by apply pipe_ok_stream in Hp; apply pipe_ok_stream.
Qed.

Lemma parse_exit_safe a s : inv s -> safe (s ← parse_exit_begin a s; Some (parse_exit_end a s)).
Proof.
  intros Hi. unfold parse_exit_begin. cbv zeta.
  assert (exists s1, (if has_video (set_stream_exiting true s)
    then need (video_packets_q (pipe (set_stream_exiting true s)))
           (emit (CloseQueue VideoPackets) (set_stream_exiting true s))
    else Some (set_stream_exiting true s)) = Some s1 /\ same s s1) as (s1 & -> & H1).
  { change (has_video _) with (hasv (pipe s)). destruct Hi as (Hp & _). destruct (ok_queues _ _ Hp) as [Q _].
    destruct (hasv (pipe s)); [|by eexists; split; [|split_and!]]. cbn [pipe set_stream_exiting]. rewrite Q.
    by eexists; split; [|split_and!]. }
  rewrite !obind_some. apply (safe_same s); [|done]. eapply same_trans; [exact H1|]. clear H1.
  set (s2 := if audio_packets_q _ then _ else _).
  assert (same s1 s2) as H2 by (subst s2; by destruct (audio_packets_q _); split_and!).
  eapply same_trans; [exact H2|]. clearbody s2.
  unfold parse_exit_end. eapply same_trans; [|apply sendctl_same].
  eapply same_trans; [|]. 2: by split_and!.
  eapply (same_trans _ (set_stream_quit true s2)); [by split_and!|].
  eapply same_trans; [apply (settitle_same a "-")|]. by split_and!.
Qed.

Lemma parse_safe a q s :
  buffers_ok -> inv s -> play_state s = PLAYSTATE_STREAM -> is_Some (media_file s) ->
  hasv (pipe s) = false -> (p_video q = -1 \/ 0 <= p_video q) ->
  p_video_queue q = true -> p_frames_queue q = true ->
  safe (avbox_player_stream_parse a q s).
Proof.
  intros Hb Hi Eps Hm Hv Hpv Q1 Q2. unfold avbox_player_stream_parse.
  destruct (parse_open_ok a q s) as (b & s1 & -> & H1); try done. rewrite obind_some.
  pose proof (parsing_inv _ _ Hi Eps H1) as Hi1. destruct b; [|by apply parse_exit_safe].
  apply (safe_same s1); [|done]. eapply same_trans; [|apply sendctl_same]. by split_and!.
Qed.

(** *** The playlist *)

Lemma copy_items_ok mem items sel : forall s b s',
  copy_items mem items sel s = (b, s') -> item_ok (playlist s) (playlist_item s) ->
  item_ok (playlist s') (playlist_item s') /\
  (status s', play_state s', paused s', underrun_timer_id s', pipe s') =
  (status s, play_state s, paused s, underrun_timer_id s, pipe s) /\
  (b = true -> (exists path, (sel, path) ∈ items) \/ (exists x, playlist_item s = IItem x) ->
   exists x, playlist_item s' = IItem x).
Proof.
  revert mem. induction items as [|[x path] items IH]; intros mem s b s' E Hl; cbn [copy_items] in E.
  { simplify_eq. split_and!; [done..|]. intros _ [[? H]|H]; [set_solver|done]. }
  destruct mem as [|[new|] mem]; try (simplify_eq; by split_and!).
  apply IH in E as (L & F & I).
  - split_and!; [done|rewrite F; by destruct (x =? sel)|]. intros Hb H. apply I; [done|].
    destruct (Z.eqb_spec x sel) as [->|Hn]; [right; by exists new|].
    destruct H as [[q H]|[y H]]; [|right; by exists y].
    left. apply elem_of_cons in H as [H|H]; [by simplify_eq|by exists q].
  - destruct (x =? sel); cbn; [exists path; set_solver|]. destruct (playlist_item s); try done.
    destruct Hl as [q Hq]. exists q. set_solver.
Qed.

Lemma playlist_safe a mem items sel s :
  inv s -> (exists path, (sel, path) ∈ items) ->
  safe (r ← avbox_player_playlist a mem items sel s; Some (snd r)).
Proof.
  intros (Hp & Hl & Hd) Hsel. unfold avbox_player_playlist.
  set (s0 := match playlist s with [] => s | _ => _ end).
  assert (item_ok (playlist s0) (playlist_item s0) /\
    (status s0, play_state s0, paused s0, underrun_timer_id s0, pipe s0) =
    (status s, play_state s, paused s, underrun_timer_id s, pipe s)) as (Hl0 & F0).
  { subst s0. by destruct (playlist s) eqn:E; rewrite ?E. }
  clearbody s0. destruct (copy_items mem items sel s0) as [b s1] eqn:E.
  apply copy_items_ok in E as (L & F & I); [|done]. rewrite F0 in F. injection F as F1 F2 F3 F4 F5.
  assert (inv s1) as Hi1 by (unfold inv; by rewrite F1, F2, F3, F4, F5).
  destruct b; cbn [negb]; [|rewrite obind_some; by apply safe_some].
  destruct (I eq_refl (or_introl Hsel)) as (x & Ex). rewrite Ex. rewrite Ex in L.
  destruct (filepath_ok _ _ L) as (path & ->). rewrite obind_some.
  destruct (a_mem a); rewrite obind_some; [|by apply safe_some].
  eapply safe_same; [apply sendctl_same|done].
Qed.

Lemma control_safe a chapters dur m s :
  buffers_ok -> inv s -> legal a (Control chapters dur m) s ->
  safe (avbox_player_control a chapters dur m s).
Proof.
  intros Hb Hi Hl. pose proof (legal_answers _ _ _ Hl) as (Ht & Hw & Hdel). destruct Hl as [Hm Hn].
  destruct m; cbn [enabled avbox_player_control] in *.
  - by apply doplay_safe.
  - by apply pause_safe.
  - unfold stop_msg. destruct (play_state s =? PLAYSTATE_READY); [by apply safe_some|]. by apply dostop_safe.
  - apply seek_safe; try done. intros E. apply Hn. by eapply OutsideChapters.
  - unfold threadexit_msg. destruct (_ && _); [by apply dostop_safe|by apply safe_some].
  - destruct Hm as (? & ? & ? & ?). by apply stream_ready_safe.
  - by apply audiodec_ready_safe.
  - by apply videodec_ready_safe.
  - by apply audioout_ready_safe.
  - by apply videoout_ready_safe.
  - destruct (stream_exit_spec a s) as (s' & -> & ? & _); try done. by exists s'.
  - apply buffer_underrun_safe; try done. apply on_time_spec. destruct (on_time s) eqn:E; [done|].
    destruct Hn. by eapply LateUnderrun.
  - by apply safe_some.
  - destruct arg as [[arg id]|]; apply track_safe; try done.
    + intros -> Hps. destruct (hasv (pipe s)) eqn:E; [done|]. destruct Hn. by eapply NothingLeft.
    + left. apply dec_stable. intros E. apply Hn. by eapply NothingPlays.
    + apply dec_stable. intros E. apply Hn. by eapply NothingPlays.
  - destruct (flush_wait_same (a_lanes a) FLUSH_ALL s) as (s1 & -> & Hs); [done|done|]. rewrite obind_some.
    apply (safe_same s); [|done]. eapply same_trans; [exact Hs|].
    eapply same_trans; [apply clear_still_same|]. by split_and!.
  - by apply still_frame_safe.
  - apply (safe_same s); [|done]. eapply same_trans; [apply (settitle_same a t)|]. by split_and!.
  - by apply (safe_same s).
  - by apply (safe_same s).
  - destruct (a_delegate a); [by apply (safe_same s)|by apply safe_some].
  - destruct (decide (status s = BUFFERING)) as [E|]; [|by apply safe_some].
    apply (safe_same s); [|done]. by split_and!.
  - by apply timer_safe.
Qed.

Lemma exec_safe a act s : buffers_ok -> inv s -> legal a act s -> safe (exec a act s).
Proof.
  intros Hb Hi Hl. destruct act as [ch dur m|q| | |]; cbn [exec].
  - by apply control_safe.
  - destruct Hl as [(? & ? & ?) Hn]. apply parse_safe; try done.
    + right. apply Z.nlt_ge. intros Hv. apply Hn. by eapply NoVideoStream.
    + destruct (p_video_queue q) eqn:E; [done|]. destruct Hn. eapply NoVideoQueue; [done|by left].
    + destruct (p_frames_queue q) eqn:E; [done|]. destruct Hn. eapply NoVideoQueue; [done|by right].
  - by apply parse_exit_safe.
  - apply safe_some. by apply play_inv.
  - destruct Hl. by apply playlist_safe.
Qed.

(** *** Dropping a queue

    Once the decoder has seen the flush the loop ends, and everything that
    was queued or came out of the decoder has been released, in order. *)
Lemma drop_queue_flushed runs q : forall fuel released,
  (length q < fuel)%nat -> drop_queue fuel runs q true released = Some (released ++ q).
Proof.
  induction q as [|x q IH]; intros [|fuel] released Hf; cbn in Hf; try lia; cbn [drop_queue andb].
  - rewrite bool_decide_true by done. by rewrite app_nil_r.
  - rewrite bool_decide_false by done. rewrite IH by lia. by rewrite <- app_assoc.
Qed.

Lemma drop_queue_releases pre new post : forall q released,
  Forall (fun r => snd r = false) pre ->
  exists n, forall fuel, (n <= fuel)%nat ->
    drop_queue fuel (pre ++ (new, true) :: post) q false released =
    Some (released ++ q ++ concat (map fst pre) ++ new).
Proof.
  assert (forall runs q fuel released, (length q <= fuel)%nat ->
    drop_queue fuel runs q false released = drop_queue (fuel - length q) runs [] false (released ++ q)) as Hq.
  { intros runs q. induction q as [|x q IH]; intros fuel released Hf; cbn [length] in *.
    - rewrite Nat.sub_0_r, app_nil_r. done.
    - destruct fuel as [|fuel]; [lia|]. cbn [drop_queue andb]. rewrite IH by lia.
      rewrite <- app_assoc. by replace (S fuel - S (length q))%nat with (fuel - length q)%nat by lia. }
  induction pre as [|[r b] pre IH]; intros q released Hp.
  - exists (length q + S (S (length new)))%nat. intros fuel Hf. rewrite Hq by lia.
    destruct (fuel - length q)%nat as [|k] eqn:E; [lia|]. cbn [drop_queue andb app].
    rewrite drop_queue_flushed by lia. by rewrite <- app_assoc.
  - inversion Hp as [|? ? Hb Hpre]; subst. cbn in Hb. subst b.
    destruct (IH r (released ++ q) Hpre) as (n & Hn). exists (length q + S n)%nat. intros fuel Hf.
    rewrite Hq by lia. destruct (fuel - length q)%nat as [|k] eqn:E; [lia|]. cbn [drop_queue andb app map concat fst].
    rewrite Hn by lia. by rewrite <- !app_assoc.
Qed.

(** ** Runs *)

Inductive reachable : player -> Prop :=
  | reachable_new : reachable avbox_player_new
  | reachable_step a act s s' :
      reachable s -> legal a act s -> exec a act s = Some s' -> reachable s'.

Lemma inv_new : inv avbox_player_new.
Proof.
  split_and!; [|done|].
  - split; cbn; stages; intros; try done; try lia; intuition (try lia; try done).
  - unfold dyn_ok. stages. cbn. split_and!; intros; try done; try lia. intuition (try congruence; lia).
Qed.

Lemma reachable_inv s : buffers_ok -> reachable s -> inv s.
Proof.
  intros Hb. induction 1 as [|a act s s' _ IH Hl E]; [exact inv_new|].
  destruct (exec_safe a act s Hb IH Hl) as (s2 & E2 & H2). congruence.
Qed.

(** A whole run; [None] when an action fails. *)
Fixpoint run (l : list (answers * action)) (s : player) : option player :=
  match l with
  | [] => Some s
  | (a, act) :: l => s ← exec a act s; run l s
  end.

Lemma run_app l1 l2 s : run (l1 ++ l2) s = (s ← run l1 s; run l2 s).
Proof.
  revert s. induction l1 as [|[a act] l1 IH]; intros s; cbn [run app]; [done|].
  destruct (exec a act s) as [s'|]; [|done]. by rewrite !obind_some.
Qed.

(** A run of enabled actions without faults. *)
Fixpoint legal_run (l : list (answers * action)) (s : player) : Prop :=
  match l with
  | [] => True
  | (a, act) :: l =>
      (enabled act s /\ faulty_b a act s = false) /\ match exec a act s with Some s => legal_run l s | None => False end
  end.

Lemma run_reachable l : forall s s', reachable s -> legal_run l s -> run l s = Some s' -> reachable s'.
Proof.
  induction l as [|[a act] l IH]; intros s s' Hr Hl E; cbn [run legal_run] in *; [by simplify_eq|].
  destruct Hl as [Hl H]. destruct (exec a act s) as [s1|] eqn:E1; [|done]. rewrite obind_some in E.
  apply legal_iff in Hl. eapply IH; [|done..]. by eapply reachable_step.
Qed.

(** *** Start-up *)

(** FFmpeg opens the file and finds a video stream in it. *)
Definition parse_ok (q : parse_answers) : Prop :=
  p_context q = true /\ p_input q = true /\ p_info q = true /\ p_stream q = true /\
  p_audio_queue q = true /\ p_video_queue q = true /\ p_frames_queue q = true /\
  0 <= p_video q.

Lemma doplay_starts a path s :
  inv s -> status s = READY -> a_delegate a = true -> a_worker a = true -> a_media a = true ->
  (needs_provider path = true -> a_opened a = true) ->
  exists s', avbox_player_doplay a (Some path) s = Some s' /\ inv s' /\
    play_state s' = PLAYSTATE_STREAM /\ media_file s' = Some path /\
    stream_input_worker (pipe s') = true /\ hasv (pipe s') = false /\
    stream_self (pipe s') = needs_provider path.
Proof.
  intros Hi Er Hdel Hw Hm Ho. pose proof (doplay_safe a (Some path) s Hi Hdel Hw) as (s' & E & Hi').
  exists s'. split_and!; [done|done|..];
  assert (play_state s = PLAYSTATE_READY) as Eps by (by apply Hi);
  destruct Hi as (Hp & _); destruct (ok_ready _ _ Hp Eps) as (V & _ & Q); injection Q as _ _ _ _ _ Q;
  unfold avbox_player_doplay, avbox_player_openstream in E; rewrite Eps, Er, Hdel, Hw, Hm in E;
  unfold avbox_player_settitle in E;
  destruct (needs_provider path); [rewrite Ho in E by done| |rewrite Ho in E by done| |
    rewrite Ho in E by done| |rewrite Ho in E by done| |rewrite Ho in E by done|];
  cbn in E; destruct (a_mem a); simplify_eq/=; done.
Qed.

Lemma parse_streams_found q s :
  buffers_ok -> p_video_queue q = true -> p_frames_queue q = true ->
  (p_video q = -1 \/ 0 <= p_video q) -> (0 <= p_audio q \/ 0 <= p_video q) ->
  exists s', parse_streams q s = Some (true, s') /\
    (play_state s', paused s', fmt_ctx (pipe s'), audio_stream (pipe s'), stream_self (pipe s'),
     stream_input_worker (pipe s')) =
    (play_state s, paused s, fmt_ctx (pipe s), audio_stream (pipe s), stream_self (pipe s),
     stream_input_worker (pipe s)) /\
    video_stream_index (pipe s') = p_video q /\
    audio_stream_index (pipe s') = (if 0 <=? p_audio q then p_audio q else -1).
Proof.
  intros Hb Q1 Q2 Hv Hf. unfold parse_streams. rewrite Q1, Q2. cbn [negb]. cbv zeta.
  destruct (buffer_video_ok Hb) as (n & -> & _). rewrite obind_some.
  destruct (Z.leb_spec 0 (p_audio q)), (Z.leb_spec 0 (p_video q)); try lia.
  - eexists. split; [reflexivity|]. by destruct (has_audio _), (has_audio _).
  - assert (p_video q = -1) as -> by lia. set (u := upd_pipe (with_video_stream_index (-1)) _).
    assert (has_audio u = true) as ->; [|exists u; by split_and!].
    unfold has_audio. cbn. destruct (Z.eqb_spec (p_audio q) (-1)); [lia|done].
  - eexists. split; [reflexivity|]. by split_and!.
Qed.

Lemma parse_starts a q s :
  parse_ok q -> buffers_ok -> inv s -> play_state s = PLAYSTATE_STREAM -> is_Some (media_file s) ->
  hasv (pipe s) = false -> stream_input_worker (pipe s) = true ->
  exists s', avbox_player_stream_parse a q s = Some s' /\ inv s' /\ play_state s' = PLAYSTATE_STREAM /\
    paused s' = 0 /\ stream_input_worker (pipe s') = true /\
    audio_stream (pipe s') = true /\ fmt_ctx (pipe s') = true /\
    stream_self (pipe s') = stream_self (pipe s) /\
    video_stream_index (pipe s') = p_video q /\
    audio_stream_index (pipe s') = (if 0 <=? p_audio q then p_audio q else -1).
Proof.
  intros (K1 & K2 & K3 & K4 & K5 & K6 & K7 & K0) Hb Hi Eps Hm Hv Hin.
  assert (p_video q = -1 \/ 0 <= p_video q) as K8 by (by right). assert (0 <= p_audio q \/ 0 <= p_video q) as K9 by (by right).
  destruct (parse_safe a q s) as (s' & E & Hi'); try done. exists s'. split; [done|]. split; [done|].
  clear Hi'. unfold avbox_player_stream_parse, parse_open in E. destruct Hm as [t Hm].
  change (media_file (set_paused 0 _)) with (media_file s) in E. rewrite Hm, obind_some in E. cbv zeta in E.
  rewrite K1, K2, K3, K4, K5 in E. cbn [negb] in E.
  set (s1 := avbox_player_settitle a t _) in E.
  assert ((play_state s1, paused s1, pipe s1) = (play_state s, 0, pipe s)) as H1.
  { subst s1. unfold avbox_player_settitle. by destruct (a_mem a). }
  clearbody s1. set (s2 := avbox_player_sendctl a _ _) in E.
  assert ((play_state s2, paused s2, pipe s2) = (play_state s, 0, with_fmt_ctx true (pipe s))) as H2.
  { injection H1 as H11 H12 H13. subst s2. unfold avbox_player_sendctl.
    destruct (a_sent a); cbn; by rewrite H11, H12, H13. }
  clearbody s2. clear H1 s1. set (s3 := if stream_self (pipe s2) then s2 else _) in E.
  assert ((play_state s3, paused s3, pipe s3) = (play_state s, 0, with_fmt_ctx true (pipe s))) as H3.
  { subst s3. unfold avbox_player_settitle. destruct (stream_self (pipe s2)), (p_title q), (a_mem a); exact H2. }
  clearbody s3. clear H2 s2. set (s4 := if _ || _ then set_duration _ s3 else s3) in E.
  assert ((play_state s4, paused s4, pipe s4) = (play_state s, 0, with_fmt_ctx true (pipe s))) as H4.
  { subst s4. by destruct (_ || _). }
  clearbody s4. clear H3 s3. injection H4 as P1 P2 P3. set (s5 := emit (NewQueue AudioPackets) _) in E.
  assert (fmt_ctx (pipe s5) = true /\ audio_stream (pipe s5) = true /\
    stream_self (pipe s5) = stream_self (pipe s) /\ stream_input_worker (pipe s5) = stream_input_worker (pipe s))
    as (G1 & G2 & G3 & G4) by (cbn; by rewrite P3).
  assert (play_state s5 = PLAYSTATE_STREAM /\ paused s5 = 0) as [G5 G6] by (cbn; by rewrite P1).
  clearbody s5.
  destruct (parse_streams_found q s5) as (s6 & E6 & F & V & A); try done.
  rewrite E6, obind_some in E. injection F as F1 F2 F3 F4 F5 F6.
  injection E as <-. unfold avbox_player_sendctl. rewrite <- V, <- A.
  rewrite G1 in F3. rewrite G2 in F4. rewrite G3 in F5. rewrite G4, Hin in F6. rewrite G5 in F1.
  rewrite G6 in F2. destruct (a_sent a); cbn; by split_and!.
Qed.

(** The streams the parser found. *)
Definition found (s : player) :=
  (video_stream_index (pipe s), audio_stream_index (pipe s), stream_self (pipe s)).

Lemma sendctl_found a c s : found (avbox_player_sendctl a c s) = found s.
Proof. unfold avbox_player_sendctl. by destruct (a_sent a). Qed.

Lemma sendctl_stage a c s : play_state (avbox_player_sendctl a c s) = play_state s.
Proof. unfold avbox_player_sendctl. by destruct (a_sent a). Qed.

(** One message of the start-up. *)
Lemma ready_step a m s s' :
  m ∈ [M_STREAM_READY; M_AUDIODEC_READY; M_VIDEODEC_READY; M_AUDIOOUT_READY] ->
  avbox_player_control a [] 0 m s = Some s' ->
  found s' = found s /\
  play_state s' = match m with
    | M_STREAM_READY => PLAYSTATE_AUDIODEC | M_AUDIODEC_READY => PLAYSTATE_VIDEODEC
    | M_VIDEODEC_READY => PLAYSTATE_AUDIOOUT | _ => PLAYSTATE_VIDEOOUT end.
Proof.
  intros Hm E. unfold avbox_player_control in E.
  rewrite !elem_of_cons in Hm. destruct Hm as [->|[->|[->|[->|Hm]]]]; [..|by apply elem_of_nil in Hm].
  - unfold stream_ready in E. destruct (negb _); [|destruct (a_worker a); [|done]]; injection E as <-;
      by rewrite ?sendctl_found, ?sendctl_stage.
  - unfold audiodec_ready in E. destruct (negb _); [|destruct (a_worker a)]; injection E as <-;
      by rewrite ?sendctl_found, ?sendctl_stage.
  - unfold videodec_ready, need in E. destruct (audio_stream _) in E; [|done]. rewrite obind_some in E.
    injection E as <-. by rewrite ?sendctl_found, ?sendctl_stage.
  - unfold audioout_ready in E. destruct (negb _); [|destruct (a_worker a)]; injection E as <-;
      by rewrite ?sendctl_found, ?sendctl_stage.
Qed.

Lemma dopause_underrun s s' : avbox_player_dopause s = Some s' -> underrun s' = underrun s.
Proof.
  unfold avbox_player_dopause, need. intros H. destruct (negb _) in H; [by simplify_eq|].
  destruct (_ && _) in H; [destruct (video_frames_q _) in H; [|done]|]; rewrite obind_some in H;
    (destruct (audio_stream _) in H; [|done]); by simplify_eq.
Qed.

Lemma handle_underrun_underrun a s s' :
  a_timer a <> -1 -> avbox_player_handle_underrun a s = Some s' -> underrun s' = underrun s.
Proof.
  unfold avbox_player_handle_underrun, need. intros Ht H. destruct (Z.eqb_spec (a_timer a) (-1)); [done|].
  destruct (has_video s); [|rewrite obind_some in H; by simplify_eq].
  destruct AVBOX_BUFFER_VIDEO; [|done]. rewrite obind_some in H. destruct (_ =? 0) in H; [done|].
  destruct (video_frames_q _) in H; [|done]. rewrite !obind_some in H. by simplify_eq.
Qed.

(** The last message: the player waits for its buffers. *)
Lemma videoout_ready_spec a s :
  buffers_ok -> a_timer a <> -1 -> inv s -> play_state s = PLAYSTATE_VIDEOOUT ->
  exists s', videoout_ready a s = Some s' /\ inv s' /\ found s' = found s /\
    play_state s' = PLAYSTATE_PLAYING /\ paused s' = 1 /\ underrun s' = true /\
    underrun_timer_id s' = a_timer a.
Proof.
  intros Hb Ht Hi Eps. destruct (videoout_ready_safe a s Hb Ht Hi Eps) as (s' & E & Hi'). exists s'.
  split; [done|]. split; [done|]. clear Hi'.
  assert (paused s = 0) as Ep by (destruct Hi as (_ & _ & Hd); unfold dyn_ok in Hd; destruct_and?; stages; lia).
  assert (audio_stream (pipe s) = true) as Ha by (apply stream_parts; [done|stages; lia]).
  pose proof (inv_queues s Hi) as Hq. unfold videoout_ready in E. cbv zeta in E.
  set (s1 := if stream_self _ then _ else _) in E.
  assert (play_state s1 = PLAYSTATE_PLAYING /\ pipe s1 = pipe s /\ paused s1 = paused s) as (E1 & E2 & E3).
  { subst s1. by destruct (stream_self _), (a_must_flush a). }
  clearbody s1.
  assert (queues_ok (set_underrun true s1)) as Hq1 by (unfold queues_ok, has_video; cbn; by rewrite E2).
  destruct (dopause_spec (set_underrun true s1)) as (s2 & D2 & C2 & S2 & P2 & T2); [done|by cbn; rewrite E2|].
  rewrite D2, obind_some in E. apply dopause_underrun in D2. injection C2 as F1 F2 F3 F4.
  destruct (handle_underrun_spec a s2) as (s3 & D3 & C3 & S3 & P3 & T3); [done| |done|].
  { unfold queues_ok, has_video. rewrite F2. exact Hq1. }
  rewrite D3, obind_some in E. apply handle_underrun_underrun in D3; [|done]. injection C3 as G1 G2 _ _.
  injection E as <-. cbn in *. unfold found. cbn. rewrite G2, F2, E2, G1, F1, P3, P2, E3, Ep, D3, D2.
  by split_and!.
Qed.

(** The buffers hold what the player waits for. *)
Definition filled (a : answers) (s : player) : Prop :=
  (stream_self (pipe s) = true -> a_expected a = false -> a_has_buffer a = true -> a_capacity a <= a_count a) /\
  (forall n, AVBOX_BUFFER_AUDIO = Some n -> has_audio s = true -> n <= a_audio_size a) /\
  (forall n, AVBOX_BUFFER_VIDEO = Some n -> has_video s = true -> n <= a_video_frames a).

Lemma filled_no_underrun a s :
  buffers_ok -> inv s -> play_state s = PLAYSTATE_PLAYING -> underrun s = true -> filled a s ->
  avbox_player_isunderrun a s = Some (false, s).
Proof.
  intros Hb Hi Eps Hu (L1 & L2 & L3). destruct (stream_parts s Hi) as [Ha Hva]; [stages; lia|].
  pose proof (inv_queues s Hi) as Hq. unfold avbox_player_isunderrun. rewrite Eps, Hu.
  rewrite Z.eqb_refl. cbn [negb]. cbv zeta. destruct (stream_quit s || stream_exiting s); [done|].
  destruct (stream_self (pipe s) && negb (a_expected a) && a_has_buffer a && (a_count a <? a_capacity a)) eqn:El.
  { rewrite !andb_true_iff, negb_true_iff in El. destruct El as [[[? ?] ?] El].
    apply Z.ltb_lt in El. specialize (L1 ltac:(done) ltac:(done) ltac:(done)). lia. }
  destruct (buffer_video_ok Hb) as (n & En & Hn), (buffer_audio_ok Hb) as (m & Em).
  specialize (L2 m Em). specialize (L3 n En). rewrite En, Em, Ha.
  destruct (has_audio s) eqn:Ea.
  - change (need true s) with (Some s). rewrite !obind_some.
    assert ((a_audio_size a <? m) = false) as -> by lia.
    destruct (has_video s) eqn:Ev; [|done]. destruct (Hq Ev) as [_ Hf]. rewrite Hf.
    change (need true s) with (Some s). rewrite !obind_some. specialize (L3 ltac:(done)).
    assert ((a_video_frames a <? Z.quot n 2) = false) as ->; [|done].
    pose proof (Z.quot_le_upper_bound n 2 n). lia.
  - destruct (has_video s) eqn:Ev; [|done]. destruct (Hq Ev) as [_ Hf]. rewrite Hf.
    change (need true s) with (Some s). rewrite !obind_some. specialize (L3 ltac:(done)).
    by assert ((a_video_frames a <? n) = false) as -> by lia.
Qed.

(** The poll that finds the buffers full ends the pause. *)
Lemma underrun_resumes a s :
  buffers_ok -> inv s -> play_state s = PLAYSTATE_PLAYING -> underrun s = true -> filled a s ->
  exists s', timer_msg a (underrun_timer_id s) s = Some s' /\ core s' = core s /\
    status s' = PLAYING /\ underrun s' = false /\ underrun_timer_id s' = -1 /\
    paused s' = (if paused s =? 0 then 0 else paused s - 1).
Proof.
  intros Hb Hi Eps Hu Hf. unfold timer_msg. rewrite Z.eqb_refl, filled_no_underrun, obind_some by done.
  destruct (doresume_spec a (set_underrun_timer_id (-1) (set_underrun false s)))
    as (s1 & E & C & T & P & S); [exact (inv_queues _ Hi)| |].
  { intros _. cbn. apply (stream_parts s Hi). stages. lia. }
  rewrite E, obind_some. apply doresume_flags in E as (_ & _ & E). eexists. by split_and!.
Qed.

(** *** [stopping] is never cleared *)

Definition keeps (o : option player) : Prop := forall s', o = Some s' -> stopping s' = true.
Definition keeps2 (o : option (bool * player)) : Prop := forall b s', o = Some (b, s') -> stopping s' = true.

Lemma keeps_some s : stopping s = true -> keeps (Some s).
Proof. by intros H s' [= <-]. Qed.

Lemma keeps2_some b s : stopping s = true -> keeps2 (Some (b, s)).
Proof. by intros H b' s' [= _ <-]. Qed.

Lemma keeps_none : keeps None.
Proof. by intros s'. Qed.

Lemma keeps2_none : keeps2 None.
Proof. by intros b s'. Qed.

Lemma keeps_bind o f : keeps o -> (forall s, stopping s = true -> keeps (f s)) -> keeps (o ≫= f).
Proof. intros Ho Hf. destruct o as [s|]; [|apply keeps_none]. apply Hf. by apply Ho. Qed.

Lemma keeps_bind2 o f : keeps2 o -> (forall b s, stopping s = true -> keeps (f (b, s))) -> keeps (o ≫= f).
Proof. intros Ho Hf. destruct o as [[b s]|]; [|apply keeps_none]. apply Hf. by eapply Ho. Qed.

Lemma keeps2_bind o f : keeps o -> (forall s, stopping s = true -> keeps2 (f s)) -> keeps2 (o ≫= f).
Proof. intros Ho Hf. destruct o as [s|]; [|apply keeps2_none]. apply Hf. by apply Ho. Qed.

Lemma keeps2_bind2 o f : keeps2 o -> (forall b s, stopping s = true -> keeps2 (f (b, s))) -> keeps2 (o ≫= f).
Proof. intros Ho Hf. destruct o as [[b s]|]; [|apply keeps2_none]. apply Hf. by eapply Ho. Qed.

Lemma keeps_bind_any {A} (o : option A) f : (forall x, keeps (f x)) -> keeps (o ≫= f).
Proof. intros Hf. destruct o; [apply Hf|apply keeps_none]. Qed.

Lemma keeps2_bind_any {A} (o : option A) f : (forall x, keeps2 (f x)) -> keeps2 (o ≫= f).
Proof. intros Hf. destruct o; [apply Hf|apply keeps2_none]. Qed.

Lemma keeps_need b s : stopping s = true -> keeps (need b s).
Proof. unfold need. destruct b; [apply keeps_some|intros; apply keeps_none]. Qed.

Lemma keeps_let (v : player) (f : player -> option player) :
  stopping v = true -> (forall s, stopping s = true -> keeps (f s)) -> keeps (let s := v in f s).
Proof. intros Hv Hf. exact (Hf v Hv). Qed.

Lemma keeps2_let (v : player) (f : player -> option (bool * player)) :
  stopping v = true -> (forall s, stopping s = true -> keeps2 (f s)) -> keeps2 (let s := v in f s).
Proof. intros Hv Hf. exact (Hf v Hv). Qed.

Lemma cleanup_stopping s : stopping (exit_cleanup s) = stopping s.
Proof. destruct (exit_cleanup_spec s) as [F _]. by injection F. Qed.

Lemma play_stopping a path s : stopping (avbox_player_play a path s) = stopping s.
Proof. unfold avbox_player_play, avbox_player_sendctl. by destruct (_ && _), (playlist s), (a_sent a). Qed.

(** Follows a handler step by step. *)
Create HintDb keeps.
Ltac keeps_pure :=
  unfold avbox_player_sendctl, avbox_player_settitle, avbox_player_clear_still_frame;
  rewrite ?cleanup_stopping, ?play_stopping; repeat case_match;
  rewrite ?cleanup_stopping, ?play_stopping; solve [assumption|reflexivity].
Ltac keeps :=
  repeat first
    [ progress (intros; simpl in * |-) 
    | lazymatch goal with
      | |- keeps (Some _) => apply keeps_some; keeps_pure
      | |- keeps2 (Some (_, _)) => apply keeps2_some; keeps_pure
      | |- keeps None => apply keeps_none
      | |- keeps2 None => apply keeps2_none
      | |- keeps (need _ _) => apply keeps_need; keeps_pure
      | |- keeps (let s := ?v in @?f s) =>
          first [apply (keeps_let v f); [keeps_pure|intros; cbv beta]|cbv zeta]
      | |- keeps2 (let s := ?v in @?f s) =>
          first [apply (keeps2_let v f); [keeps_pure|intros; cbv beta]|cbv zeta]
      end
    | solve [eauto with keeps]
    | apply keeps_bind | apply keeps_bind2; [|intros ? ? ?; cbv beta iota] | apply keeps2_bind | apply keeps_bind_any | apply keeps2_bind_any
    | match goal with
      | |- keeps (match ?x with _ => _ end) => destruct x
      | |- keeps2 (match ?x with _ => _ end) => destruct x
      end ].

Lemma dopause_keeps s : stopping s = true -> keeps (avbox_player_dopause s).
Proof. intros H. unfold avbox_player_dopause. keeps. Qed.

Lemma doresume_keeps a s : stopping s = true -> keeps (avbox_player_doresume a s).
Proof. intros H s' E. apply doresume_flags in E as [-> _]. done. Qed.
#[local] Hint Resolve dopause_keeps doresume_keeps : keeps.

Lemma dostop_keeps a s : stopping s = true -> keeps (avbox_player_dostop a s).
Proof. intros H. unfold avbox_player_dostop. keeps. Qed.
#[local] Hint Resolve dostop_keeps : keeps.

Lemma openstream_stopping a path s : stopping (snd (avbox_player_openstream a path s)) = stopping s.
Proof. unfold avbox_player_openstream. by destruct (needs_provider path), (a_opened a). Qed.

Lemma doplay_keeps a path s : stopping s = true -> keeps (avbox_player_doplay a path s).
Proof.
  intros H. unfold avbox_player_doplay. destruct (_ && _); [keeps|]. destruct path as [path|]; [|keeps].
  destruct (negb _); [keeps|]. cbv zeta.
  match goal with |- context [avbox_player_openstream a path ?u] => set (s1 := u) end.
  assert (stopping s1 = true) as H1.
  { subst s1. unfold avbox_player_settitle. by destruct (a_mem a). }
  clearbody s1. pose proof (openstream_stopping a path s1) as H2.
  destruct (avbox_player_openstream a path s1) as [ok s2]. cbn in H2. rewrite H1 in H2.
  destruct (a_delegate a), (a_worker a), (a_media a), ok; keeps.
Qed.

Lemma isunderrun_keeps a s : stopping s = true -> keeps2 (avbox_player_isunderrun a s).
Proof. intros H. unfold avbox_player_isunderrun. cbv zeta. keeps. Qed.

Lemma handle_underrun_keeps a s : stopping s = true -> keeps (avbox_player_handle_underrun a s).
Proof. intros H. unfold avbox_player_handle_underrun. keeps. Qed.

Lemma halt_keeps s : stopping s = true -> keeps (avbox_player_halt s).
Proof. intros H. unfold avbox_player_halt. keeps. Qed.

Lemma continue_keeps s : stopping s = true -> keeps (avbox_player_continue s).
Proof. intros H. unfold avbox_player_continue. keeps. Qed.

Lemma flush_video_keeps l flags s : stopping s = true -> keeps2 (flush_video l flags s).
Proof. intros H. unfold flush_video. keeps. Qed.

Lemma flush_keeps l flags s : stopping s = true -> keeps2 (avbox_player_flush l flags s).
Proof.
  intros H. unfold avbox_player_flush. destruct (_ <=? _); [|keeps]. cbv zeta.
  set (s1 := if flushing s =? 0 then _ else s).
  assert (stopping s1 = true) as H1 by (subst s1; by destruct (flushing s =? 0)). clearbody s1.
  destruct (negb _); [keeps|]. apply keeps2_bind2; [by apply flush_video_keeps|]. intros b s2 H2. cbv iota. keeps.
Qed.
#[local] Hint Resolve isunderrun_keeps handle_underrun_keeps halt_keeps continue_keeps flush_keeps
  doplay_keeps : keeps.

Lemma drop_keeps s : stopping s = true -> keeps (avbox_player_drop s).
Proof.
  intros H. unfold avbox_player_drop. cbv zeta. apply keeps_bind; [by apply halt_keeps|]. intros s1 H1.
  apply keeps_bind; [unfold drop_video; keeps|]. intros s2 H2. apply continue_keeps.
  cbn [stopping set_flushing]. unfold avbox_player_clear_still_frame.
  set (s3 := if fmt_ctx _ then _ else _).
  assert (stopping s3 = true) as H3.
  { subst s3. unfold drop_audio. cbv zeta.
    destruct (audio_packets_q (pipe s2)); cbn; destruct (audio_stream (pipe s2)); cbn; by destruct (fmt_ctx (pipe s2)). }
  clearbody s3. repeat case_match; done.
Qed.
#[local] Hint Resolve drop_keeps : keeps.

Lemma exit_video_keeps s : stopping s = true -> keeps (exit_video s).
Proof. intros H. unfold exit_video, join. keeps. Qed.

Lemma exit_audio_keeps s : stopping s = true -> keeps (exit_audio_decoder s).
Proof. intros H. unfold exit_audio_decoder. keeps. Qed.

Lemma exit_next_stopping a s : stopping s = true -> exit_next a s = Some s.
Proof. intros H. unfold exit_next. by rewrite H. Qed.

Lemma exit_next_keeps a s : stopping s = true -> keeps (exit_next a s).
Proof. intros H. rewrite exit_next_stopping by done. by apply keeps_some. Qed.
#[local] Hint Resolve exit_video_keeps exit_audio_keeps exit_next_keeps : keeps.

Lemma exit_finish_keeps a s : stopping s = true -> keeps (exit_finish a s).
Proof.
  intros H. unfold exit_finish, join.
  do 3 (apply keeps_bind; [keeps|intros ? ?]). cbv zeta.
  apply keeps_bind; [|intros ? ?; keeps]. apply exit_next_keeps. cbn. by rewrite cleanup_stopping.
Qed.
#[local] Hint Resolve exit_finish_keeps : keeps.

Lemma stream_exit_keeps a s : stopping s = true -> keeps (stream_exit a s).
Proof.
  intros H. unfold stream_exit. apply keeps_bind; [keeps|]. intros s1 H1. rewrite H1.
  apply keeps_bind2; [keeps|]. intros b s2 H2. cbv iota. unfold avbox_player_delay_stream_exit. destruct (negb b); keeps.
Qed.
#[local] Hint Resolve stream_exit_keeps : keeps.

Lemma seek_stream_keeps a t s : stopping s = true -> keeps (seek_stream a t s).
Proof. intros H. unfold seek_stream. keeps. Qed.
#[local] Hint Resolve seek_stream_keeps : keeps.

Lemma doseek_keeps a chapters dur flags incr s :
  stopping s = true -> keeps (avbox_player_doseek a chapters dur flags incr s).
Proof. intros H. unfold avbox_player_doseek. keeps. Qed.

Lemma track_keeps a arg s : stopping s = true -> keeps (change_audio_track a arg s).
Proof. intros H. unfold change_audio_track. keeps. Qed.

Lemma videoout_ready_keeps a s : stopping s = true -> keeps (videoout_ready a s).
Proof.
  intros H. unfold videoout_ready. cbv zeta. set (s1 := if stream_self _ then _ else _).
  assert (stopping s1 = true) as H1 by (subst s1; by destruct (stream_self _), (a_must_flush a)).
  clearbody s1. keeps.
Qed.

Lemma flush_wait_keeps l flags s : stopping s = true -> keeps (flush_wait l flags s).
Proof. intros H. unfold flush_wait. keeps. Qed.
#[local] Hint Resolve doseek_keeps track_keeps videoout_ready_keeps flush_wait_keeps : keeps.

Lemma still_frame_keeps a arg n s : stopping s = true -> keeps (still_frame_msg a arg n s).
Proof. intros H. unfold still_frame_msg. keeps. Qed.

Lemma timer_keeps a id s : stopping s = true -> keeps (timer_msg a id s).
Proof. intros H. unfold timer_msg. keeps. Qed.

Lemma buffer_underrun_keeps a s : stopping s = true -> keeps (buffer_underrun a s).
Proof. intros H. unfold buffer_underrun. keeps. Qed.
#[local] Hint Resolve still_frame_keeps timer_keeps buffer_underrun_keeps : keeps.

Lemma control_keeps a chapters dur m s :
  stopping s = true -> keeps (avbox_player_control a chapters dur m s).
Proof.
  intros H. unfold avbox_player_control, stream_ready, audiodec_ready, videodec_ready, audioout_ready,
    pause_msg, stop_msg, threadexit_msg.
  destruct m; keeps.
Qed.

Lemma parse_streams_keeps q s : stopping s = true -> keeps2 (parse_streams q s).
Proof.
  intros H. unfold parse_streams. cbv zeta. set (s1 := upd_pipe (with_video_stream_index _) _).
  assert (stopping s1 = true) as H1 by (subst s1; by destruct (0 <=? p_audio q)). clearbody s1.
  destruct (0 <=? p_video q); [|keeps]. destruct (has_audio s1); cbn [negb]; keeps.
Qed.

Lemma parse_open_keeps a q s : stopping s = true -> keeps2 (parse_open a q s).
Proof.
  intros H. unfold parse_open. destruct (media_file _) as [t|]; [|exact keeps2_none]. rewrite obind_some.
  set (s1 := avbox_player_settitle a t _).
  assert (stopping s1 = true) as H1 by (subst s1; keeps_pure). clearbody s1. cbv zeta.
  destruct (negb (p_context q)); [keeps|].
  set (s2 := avbox_player_sendctl a _ _).
  assert (stopping s2 = true) as H2 by (subst s2; keeps_pure). clearbody s2.
  destruct (negb (p_input q)); [keeps|]. destruct (negb (p_info q)); [keeps|].
  set (s3 := if stream_self (pipe s2) then s2 else _).
  assert (stopping s3 = true) as H3 by (subst s3; destruct (stream_self _), (p_title q); keeps_pure).
  clearbody s3. set (s4 := if _ || _ then set_duration _ s3 else s3).
  assert (stopping s4 = true) as H4 by (subst s4; by destruct (_ || _)). clearbody s4.
  destruct (negb (p_stream q)); [keeps|]. destruct (negb (p_audio_queue q)); [keeps|].
  by apply parse_streams_keeps.
Qed.

Lemma parse_exit_keeps a s : stopping s = true -> keeps (s ← parse_exit_begin a s; Some (parse_exit_end a s)).
Proof.
  intros H. apply keeps_bind.
  - unfold parse_exit_begin. cbv zeta.
    apply keeps_bind; [destruct (has_video _); [by apply keeps_need|by apply keeps_some]|]. intros s2 H2. cbv zeta. apply keeps_some.
    destruct (audio_packets_q (pipe s2)); keeps_pure.
  - intros s1 H1. apply keeps_some. unfold parse_exit_end. keeps_pure.
Qed.
#[local] Hint Resolve parse_open_keeps parse_exit_keeps control_keeps : keeps.

Lemma copy_items_stopping mem items sel : forall s, stopping (snd (copy_items mem items sel s)) = stopping s.
Proof.
  revert mem. induction items as [|[x path] items IH]; intros mem s; [done|].
  destruct mem as [|[new|] mem]; try done. cbn [copy_items]. rewrite IH. by destruct (x =? sel).
Qed.

Lemma playlist_keeps a mem items sel s :
  stopping s = true -> keeps (r ← avbox_player_playlist a mem items sel s; Some (snd r)).
Proof.
  intros H. unfold avbox_player_playlist. set (s0 := match playlist s with [] => s | _ => _ end).
  assert (stopping s0 = true) as H0 by (subst s0; by destruct (playlist s)). clearbody s0.
  pose proof (copy_items_stopping mem items sel s0) as H1. destruct (copy_items mem items sel s0) as [b s1].
  cbn in H1. rewrite H0 in H1. destruct b; cbn [negb]; [|rewrite obind_some; by apply keeps_some].
  destruct (playlist_item s1) as [| |x]; [exact keeps_none..|].
  destruct (filepath (playlist s1) x); [|exact keeps_none].
  rewrite obind_some. destruct (a_mem a); rewrite obind_some; apply keeps_some; keeps_pure.
Qed.

Lemma exec_keeps a act s : stopping s = true -> keeps (exec a act s).
Proof.
  intros H. destruct act; cbn [exec].
  - by apply control_keeps.
  - unfold avbox_player_stream_parse. apply keeps_bind2; [by apply parse_open_keeps|].
    intros b s1 H1. cbv iota. destruct b; [keeps|by apply parse_exit_keeps].
  - by apply parse_exit_keeps.
  - apply keeps_some. by rewrite play_stopping.
  - by apply playlist_keeps.
Qed.

Lemma run_keeps l : forall s, stopping s = true -> keeps (run l s).
Proof.
  induction l as [|[a act] l IH]; intros s H; cbn [run]; [by apply keeps_some|].
  apply keeps_bind; [by apply exec_keeps|done].
Qed.

(** *** Chapters *)

(** The number of five-minute pieces, and the one a position is in. *)
Definition pieces (dur : Z) : Z := (dur + chapter_duration - 1) / chapter_duration.
Definition piece_at (dur now : Z) : Z := Z.min (now / chapter_duration) (pieces dur - 1).

Lemma pieces_lt dur k : k < pieces dur <-> k * chapter_duration < dur.
Proof.
  unfold pieces, chapter_duration.
  pose proof (Z.div_mod (dur + 300000000 - 1) 300000000 ltac:(lia)).
  pose proof (Z.mod_pos_bound (dur + 300000000 - 1) 300000000 ltac:(lia)).
  change (60 * 5 * 1000 * 1000) with 300000000. lia.
Qed.

Lemma piece_reached now k : k <= now / chapter_duration <-> k * chapter_duration <= now.
Proof.
  unfold chapter_duration. change (60 * 5 * 1000 * 1000) with 300000000.
  pose proof (Z.div_mod now 300000000 ltac:(lia)). pose proof (Z.mod_pos_bound now 300000000 ltac:(lia)). lia.
Qed.

Lemma synth_chapters_from dur now : forall fuel k c cp,
  k <= pieces dur -> pieces dur - k <= Z.of_nat fuel ->
  synth_chapters fuel dur now (k * chapter_duration) k c cp =
  (pieces dur,
   if (k <? pieces dur) && (k * chapter_duration <=? now) then piece_at dur now else c,
   if (k <? pieces dur) && (k * chapter_duration <=? now)
   then wraps 32 (piece_at dur now * chapter_duration) else cp).
Proof.
  induction fuel as [|fuel IH]; intros k c cp Hk Hf; cbn [synth_chapters].
  { assert (k = pieces dur) as -> by lia. by rewrite Z.ltb_irrefl. }
  pose proof (pieces_lt dur k) as Hlt. pose proof (piece_reached now k) as Hr.
  pose proof (piece_reached now (k + 1)) as Hr1.
  destruct (Z.ltb_spec (k * chapter_duration) dur), (Z.ltb_spec k (pieces dur)); try lia.
  - replace (k * chapter_duration + chapter_duration) with ((k + 1) * chapter_duration) by lia.
    assert (piece_at dur now = k \/ k + 1 < pieces dur /\ (k + 1) * chapter_duration <= now \/
            now < k * chapter_duration) as Hp by (unfold piece_at; lia).
    destruct (Z.leb_spec (k * chapter_duration) now); cbn [andb]; rewrite IH by lia;
      destruct (Z.ltb_spec (k + 1) (pieces dur)), (Z.leb_spec ((k + 1) * chapter_duration) now); cbn [andb];
      try done; try (assert (piece_at dur now = k) as -> by (unfold piece_at in *; lia); done);
      unfold chapter_duration in *; lia.
  - by assert (k = pieces dur) as -> by lia.
Qed.

Lemma pieces_nonneg dur : 0 < dur -> 0 < pieces dur.
Proof. intros H. apply pieces_lt. lia. Qed.

Lemma synth_fuel_enough dur : 0 <= dur -> pieces dur <= Z.of_nat (synth_fuel dur).
Proof.
  intros H. unfold synth_fuel, pieces, chapter_duration. change (60 * 5 * 1000 * 1000) with 300000000.
  pose proof (Z.div_mod dur 300000000 ltac:(lia)). pose proof (Z.mod_pos_bound dur 300000000 ltac:(lia)).
  pose proof (Z.div_mod (dur + 300000000 - 1) 300000000 ltac:(lia)).
  pose proof (Z.mod_pos_bound (dur + 300000000 - 1) 300000000 ltac:(lia)). lia.
Qed.

Lemma find_chapter_last now all : forall l k,
  Forall (fun c => 0 <= av_compare_ts now c) l -> find_chapter now all l k = Some (k + len l, 0).
Proof.
  induction l as [|c l IH]; intros k Hl; cbn [find_chapter]; [unfold len; cbn; do 2 f_equal; lia|].
  inversion Hl; subst. destruct (Z.ltb_spec (av_compare_ts now c) 0); [lia|].
  rewrite IH by done. unfold len. cbn [length]. do 2 f_equal. lia.
Qed.

(** ** The player's properties *)

(** C17. Playing files with a video stream, whatever messages arrive, in
    whatever order the threads of the player allow, until the first fault
    (one of [fault]: a timer, thread, delegate or video queue that cannot be
    created, a file without video, a seek outside of the chapter table, a
    change of tracks when nothing plays, an underrun reported too late), the
    state stays typed by its stage: the status agrees with the stage, every
    queue, worker and stream a stage uses exists there and nothing of them
    is left when the player is ready, the pause count is not negative and is
    zero while starting up, and the current item is on the playlist. *)
Theorem player_state_typed s :
  buffers_ok -> reachable s ->
  pipe_ok (play_state s) (pipe s) /\ item_ok (playlist s) (playlist_item s) /\
  PLAYSTATE_READY <= play_state s <= PLAYSTATE_PLAYING /\
  (status s = READY <-> play_state s = PLAYSTATE_READY) /\
  (status s = PLAYING \/ status s = PAUSED -> play_state s = PLAYSTATE_PLAYING) /\
  0 <= paused s /\
  (PLAYSTATE_AUDIODEC <= play_state s < PLAYSTATE_PLAYING -> paused s = 0).
Proof.
  intros Hb Hr. destruct (reachable_inv s Hb Hr) as (Hp & Hl & Hd).
  destruct Hd as (H1 & H2 & H3 & H4 & H5 & _).
  do 6 (split; [done|]). intros [G1 G2]. apply H5; [stages; lia|by left].
Qed.



(** The messages of a start-up, and the poll that ends the buffering. *)
Definition start_up (a : nat -> answers) (q : parse_answers) (path : string) : list (answers * action) :=
  [(a 0%nat, Control [] 0 (M_PLAY (Some path))); (a 1%nat, Parser q);
   (a 2%nat, Control [] 0 M_BUFFER_UNDERRUN);
   (a 3%nat, Control [] 0 M_STREAM_READY); (a 4%nat, Control [] 0 M_AUDIODEC_READY);
   (a 5%nat, Control [] 0 M_VIDEODEC_READY); (a 6%nat, Control [] 0 M_AUDIOOUT_READY);
   (a 7%nat, Control [] 0 M_VIDEOOUT_READY);
   (a 8%nat, Control [] 0 (M_TIMER (a_timer (a 7%nat))))].

Lemma buffer_underrun_starting a s :
  buffers_ok -> a_timer a <> -1 -> inv s -> play_state s = PLAYSTATE_STREAM ->
  exists s', buffer_underrun a s = Some s' /\ core s' = core s /\ paused s' = paused s.
Proof.
  intros Hb Ht Hi Eps. unfold buffer_underrun. destruct (underrun s); [by exists s|].
  destruct (_ || _ || _ || _); [by exists s|].
  rewrite isunderrun_early, obind_some by (rewrite Eps; by stages).
  cbn [play_state set_underrun]. rewrite Eps. 
  destruct (Z.leb_spec PLAYSTATE_PLAYING PLAYSTATE_STREAM); [stages; lia|].
  rewrite obind_some.
  destruct (handle_underrun_spec a (set_underrun true (set_underrun true s))) as (s' & E & C & _ & P & _);
    [done|by apply inv_queues in Hi|done|].
  by exists s'.
Qed.

Lemma ready_chain a m s k :
  buffers_ok -> answers_ok a -> inv s ->
  (m, play_state s, k) ∈ [(M_AUDIODEC_READY, PLAYSTATE_AUDIODEC, PLAYSTATE_VIDEODEC);
                          (M_VIDEODEC_READY, PLAYSTATE_VIDEODEC, PLAYSTATE_AUDIOOUT);
                          (M_AUDIOOUT_READY, PLAYSTATE_AUDIOOUT, PLAYSTATE_VIDEOOUT)] ->
  exists s', exec a (Control [] 0 m) s = Some s' /\ inv s' /\ play_state s' = k /\ found s' = found s.
Proof.
  intros Hb Ha Hi Hm. cbn [exec].
  assert (exists s', avbox_player_control a [] 0 m s = Some s' /\ inv s') as (s' & E & Hi').
  { apply answers_ok_spec in Ha. apply control_safe; try done. apply legal_iff. unfold faulty_b. rewrite Ha, !elem_of_cons in *.
    destruct Hm as [E|[E|[E|Hm]]]; [by simplify_eq..|by apply elem_of_nil in Hm]. }
  exists s'. split; [done|]. split; [done|]. pose proof (ready_step a m s s') as R.
  rewrite !elem_of_cons in Hm.
  destruct Hm as [F|[F|[F|Hm]]]; [..|by apply elem_of_nil in Hm]; injection F as -> _ ->;
    (destruct (R ltac:(set_solver) E) as [? ?]; done).
Qed.

(** C26. Starting to play: for every file with a video stream that FFmpeg
    can open, when the timers, threads and queues can be created, after the
    messages of the start-up the player is in its last stage, with the
    streams that were found and the video workers, waiting for its buffers;
    the poll that finds them full sets it going: nothing holds it paused and
    it no longer counts as underrun. *)
Theorem start_up_plays (a : nat -> answers) q path s :
  buffers_ok -> reachable s -> status s = READY -> (forall i, answers_ok (a i)) ->
  a_media (a 0%nat) = true -> (needs_provider path = true -> a_opened (a 0%nat) = true) ->
  parse_ok q ->
  a_capacity (a 8%nat) <= a_count (a 8%nat) ->
  (forall n, AVBOX_BUFFER_AUDIO = Some n -> n <= a_audio_size (a 8%nat)) ->
  (forall n, AVBOX_BUFFER_VIDEO = Some n -> n <= a_video_frames (a 8%nat)) ->
  exists s', run (start_up a q path) s = Some s' /\
    play_state s' = PLAYSTATE_PLAYING /\ status s' = PLAYING /\ paused s' = 0 /\
    underrun s' = false /\ underrun_timer_id s' = -1 /\
    video_stream_index (pipe s') = p_video q /\
    audio_stream_index (pipe s') = (if 0 <=? p_audio q then p_audio q else -1) /\
    video_decoder_worker (pipe s') = true /\ video_output_worker (pipe s') = true.
Proof.
  intros Hb Hr Es Ha Hm Ho Hq L1 L2 L3. pose proof (reachable_inv s Hb Hr) as Hi. unfold start_up.
  destruct (doplay_starts (a 0%nat) path s) as (s1 & E1 & I1 & P1 & M1 & W1 & V1 & _); try done; [apply Ha..|].
  destruct (parse_starts (a 1%nat) q s1) as (s2 & E2 & I2 & P2 & Z2 & W2 & A2 & F2 & S2 & Vi & Ai); try done.
  assert (parsed (pipe s2)) as Hpar.
  { split_and!; [done..|]. unfold hasv, hasa. rewrite Vi, Ai. destruct Hq as (_ & _ & _ & _ & _ & _ & _ & Hq).
    destruct (Z.eqb_spec (p_video q) (-1)), (Z.leb_spec 0 (p_audio q)); try done; lia. }
  destruct (buffer_underrun_starting (a 2%nat) s2) as (s3 & E3 & C3 & Z3); try done; [apply Ha|].
  destruct (buffer_underrun_safe (a 2%nat) s2) as (s3' & E3' & I3); try done; [apply Ha|by right|].
  assert (s3' = s3) as -> by congruence. injection C3 as P3 Ep3 _ _.
  destruct (stream_ready_safe (a 3%nat) s3) as (s4 & E4 & I4); try done; try congruence; [apply Ha|].
  destruct (ready_step (a 3%nat) M_STREAM_READY s3 s4 ltac:(set_solver) E4) as [F4 P4].
  destruct (ready_chain (a 4%nat) M_AUDIODEC_READY s4 PLAYSTATE_VIDEODEC) as (s5 & E5 & I5 & P5 & F5);
    try done; [rewrite P4; set_solver|].
  destruct (ready_chain (a 5%nat) M_VIDEODEC_READY s5 PLAYSTATE_AUDIOOUT) as (s6 & E6 & I6 & P6 & F6);
    try done; [rewrite P5; set_solver|].
  destruct (ready_chain (a 6%nat) M_AUDIOOUT_READY s6 PLAYSTATE_VIDEOOUT) as (s7 & E7 & I7 & P7 & F7);
    try done; [rewrite P6; set_solver|].
  destruct (videoout_ready_spec (a 7%nat) s7) as (s8a & E8 & I8 & F8 & P8 & Z8 & U8 & T8); try done; [apply Ha|].
  destruct (underrun_resumes (a 8%nat) s8a) as (s9 & E9 & C9 & S9 & U9 & T9 & Z9); try done.
  { split_and!; auto. }
  rewrite T8 in E9. rewrite Z8 in Z9. injection C9 as P9 Ep9 _ _.
  assert (found s8a = (p_video q, if 0 <=? p_audio q then p_audio q else -1, stream_self (pipe s2))) as F.
  { rewrite F8, F7, F6, F5, F4. unfold found. by rewrite Ep3, Vi, Ai. }
  injection F as G1 G2 _. exists s9. split.
  { cbn [run exec avbox_player_control] in *. rewrite E1, obind_some, E2, obind_some, E3, obind_some, E4, obind_some.
    by rewrite E5, obind_some, E6, obind_some, E7, obind_some, E8, obind_some, E9, obind_some. }
  rewrite P9, Ep9, G1, G2, P8. destruct I8 as (Hp8 & _). rewrite P8 in Hp8.
  assert (hasv (pipe s8a) = true) as Hv8.
  { unfold hasv. rewrite G1. destruct Hq as (_ & _ & _ & _ & _ & _ & _ & Hq).
    destruct (Z.eqb_spec (p_video q) (-1)); [lia|done]. }
  stages. split_and!; try done; [apply (ok_vdec _ _ Hp8)|apply (ok_vout _ _ Hp8)]; by split.
Qed.

(** A STOP is for ever: once the player was stopped, no run clears
    [stopping], so from then on no stream that ends is followed by the next
    item of the playlist or by the file waiting to be played, and a worker
    that dies stops nothing. *)
Lemma stop_is_permanent a s s1 l s2 :
  play_state s <> PLAYSTATE_READY -> stop_msg a s = Some s1 -> run l s1 = Some s2 ->
  (forall a', exit_next a' s2 = Some s2) /\ (forall a', threadexit_msg a' s2 = Some s2).
Proof.
  intros Hp E1 E2. assert (stopping s1 = true) as H1.
  { unfold stop_msg in E1. destruct (Z.eqb_spec (play_state s) PLAYSTATE_READY); [done|].
    by apply (dostop_keeps a (set_stopping true s)) in E1. }
  pose proof (run_keeps l s1 H1 s2 E2) as H2. split; intros a'.
  - by apply exit_next_stopping.
  - unfold threadexit_msg. by rewrite H2, andb_false_r.
Qed.

(** A playlist plays at most two items by itself: going on to the next
    item empties the playlist, so that when that item ends nothing
    follows. *)
Lemma playlist_forgotten a s x y path :
  a_mem a = true -> stopping s = false -> next_file s = None -> playlist_item s = IItem x ->
  list_next (playlist s) (IItem x) = Some (IItem y) -> filepath (playlist s) y = Some path ->
  exists s', exit_next a s = Some s' /\ playlist s' = [] /\ playlist_item s' = INull /\
    (a_sent a = true -> log s' = log s ++ [SendCtl (CTL_PLAY (Some path))]) /\
    (forall a', exit_next a' s' = Some s').
Proof.
  intros Hm Hst Hn Hi Hx Hp. unfold exit_next at 1. rewrite Hst, Hn, Hi, Hx, obind_some.
  change (playlist (set_playlist_item (IItem y) s)) with (playlist s). rewrite Hp, obind_some.
  eexists. split; [reflexivity|]. unfold avbox_player_play. rewrite Hm.
  change (playlist (set_playlist_item (IItem y) s)) with (playlist s).
  destruct (playlist s) as [|it l] eqn:El; [by cbn in Hx|]. cbn [negb andb].
  unfold avbox_player_sendctl, exit_next. destruct (a_sent a); cbn; by rewrite Hst, Hn.
Qed.

(** The loop that cuts a file without chapters in pieces of five
    minutes computes the rounded-up quotient of the duration, the piece the
    position is in (the last one past the end) and where that piece starts;
    that start is kept in an [int] and wraps from the eighth piece on. *)
Lemma chapter_loop_closed_form dur now :
  0 < dur -> 0 <= now ->
  synth_chapters (synth_fuel dur) dur now 0 0 0 0 =
  (pieces dur, piece_at dur now, wraps 32 (piece_at dur now * chapter_duration)).
Proof.
  intros Hd Hn. pose proof (synth_chapters_from dur now (synth_fuel dur) 0 0 0) as E.
  pose proof (pieces_nonneg dur Hd). pose proof (synth_fuel_enough dur ltac:(lia)).
  rewrite Z.mul_0_l in E. rewrite E by lia.
  destruct (Z.ltb_spec 0 (pieces dur)), (Z.leb_spec 0 now); try lia. done.
Qed.

(** Going to the start of the current chapter, in the last chapter of
    a file and more than five seconds into it, reads the chapter table
    outside its bounds. *)
Lemma last_chapter_overread a chapters dur s :
  chapters <> [] -> len chapters < 2 ^ 31 - 1 ->
  Forall (fun c => 0 <= av_compare_ts (a_time a) c) chapters -> 5000000 < a_time a ->
  chapter_target a chapters dur (-1) s = None.
Proof.
  intros Hne Hlen Hlast Ht. unfold chapter_target. destruct chapters as [|c l] eqn:E; [done|]. rewrite <- E in *.
  rewrite (find_chapter_last _ _ _ _ Hlast), !obind_some. cbv zeta.
  change (-1 =? -1) with true. change (0 <? -1) with false. change (-1 <? 0) with true.
  assert (0 <= len chapters) by (unfold len; lia).
  destruct (Z.ltb_spec (5 * 1000 * 1000) (a_time a - 0)); [|lia]. cbn [andb].
  rewrite andb_false_r. cbn [andb]. destruct (Z.eqb_spec (0 + len chapters + 1) 0); [lia|]. rewrite andb_false_r.
  replace (0 + len chapters + 1 + -1) with (len chapters) by lia.
  rewrite wraps_small by (change (2 ^ (32 - 1)) with (2 ^ 31); lia).
  destruct (Z.ltb_spec (len chapters) 0); [lia|]. rewrite Z.ltb_irrefl, Z.eqb_refl. cbn [orb].
  assert (chapters !! Z.to_nat (len chapters) = None) as ->; [|done].
  apply lookup_ge_None. unfold len. lia.
Qed.

(** An audio-only file: FFmpeg's answer for the missing video stream is
    kept as the index of the video stream, so the player takes the file to
    have video, starts a video decoder that has no packet queue, and at the
    end of the stream closes a queue that does not exist. *)
Lemma audio_only_starts_video a q s :
  p_video q < -1 -> 0 <= p_audio q ->
  exists s', parse_streams q s = Some (true, s') /\ has_video s' = true /\
    video_packets_q (pipe s') = video_packets_q (pipe s) /\
    (a_worker a = true -> exists s'', audiodec_ready a s' = Some s'' /\ video_decoder_worker (pipe s'') = true) /\
    (video_packets_q (pipe s) = false -> parse_exit_begin a s' = None).
Proof.
  intros Hv Hau. unfold parse_streams. cbv zeta.
  destruct (Z.leb_spec 0 (p_video q)), (Z.leb_spec 0 (p_audio q)); try lia.
  set (s1 := upd_pipe (with_video_stream_index (p_video q)) _).
  assert (has_video s1 = true) as V1.
  { unfold has_video. cbn. destruct (Z.eqb_spec (p_video q) (-1)); [lia|done]. }
  assert (video_packets_q (pipe s1) = video_packets_q (pipe s)) as Q1 by done.
  assert (has_audio s1 = true) as A1.
  { unfold has_audio. cbn. destruct (Z.eqb_spec (p_audio q) (-1)); [lia|done]. }
  clearbody s1. rewrite A1. exists s1. split_and!; [done..| |].
  - intros Hw. unfold audiodec_ready. change (has_video (set_play_state _ s1)) with (has_video s1).
    rewrite V1, Hw. by eexists.
  - intros Hq. unfold parse_exit_begin. change (has_video (set_stream_exiting true s1)) with (has_video s1).
    rewrite V1. change (pipe (set_stream_exiting true s1)) with (pipe s1). by rewrite Q1, Hq.
Qed.

(** An underrun message that arrives after the stream ended: the player
    reports that it buffers while nothing plays. *)
Lemma late_underrun_buffers a s :
  buffers_ok -> a_timer a <> -1 -> inv s -> play_state s = PLAYSTATE_READY ->
  underrun s = false -> flushing s = 0 -> still_frame s = false -> stopping s = false ->
  exists s', buffer_underrun a s = Some s' /\ status s' = BUFFERING /\ play_state s' = PLAYSTATE_READY.
Proof.
  intros Hb Ht Hi Eps Hu Hf Hs Hst. pose proof Hi as (Hp & _). destruct (ok_ready _ _ Hp Eps) as (_ & _ & Q).
  injection Q as _ _ _ _ _ Q. unfold buffer_underrun. rewrite Hu, Hf, Hs, Hst, Q. cbn [negb orb andb Z.eqb].
  rewrite isunderrun_early, obind_some by (rewrite Eps; by stages). cbn [play_state set_underrun]. rewrite Eps.
  destruct (Z.leb_spec PLAYSTATE_PLAYING PLAYSTATE_READY); [stages; lia|]. rewrite obind_some.
  destruct (handle_underrun_spec a (set_underrun true (set_underrun true s))) as (s' & E & C & S & _ & _);
    [done|by apply inv_queues in Hi|done|].
  exists s'. injection C as C1 _ _ _. split_and!; [done|done|]. rewrite C1. exact Eps.
Qed.

(** From there every file asked for is only remembered. *)
Lemma buffering_ready_wedged a path s :
  status s = BUFFERING -> play_state s = PLAYSTATE_READY -> stream_self (pipe s) = false ->
  exists s', avbox_player_doplay a (Some path) s = Some s' /\ status s' = BUFFERING /\
    play_state s' = PLAYSTATE_READY /\ log s' = log s /\ pipe s' = pipe s.
Proof.
  intros Es Eps Hs. unfold avbox_player_doplay. rewrite Eps, Es. cbn [negb andb Z.eqb bool_decide].
  unfold avbox_player_dostop. cbn. rewrite Hs, Es. by eexists.
Qed.

End seek.

End player.

(** ** Concrete runs *)

(** Everything succeeds, the buffers are full. *)
Definition demo_answers : answers :=
  Answers true true true true true true 7 true drained false false 0 0 48000 1 30 true false false
    400000000 400000000 true [].

Definition demo_file : parse_answers :=
  Parse true true true (Some "A film") 3600000000 false true true true true 1 0.

(** A file of two streams is played; then the player is stopped. *)
Definition demo_start : list (answers * action Z) :=
  start_up Z (fun _ => demo_answers) demo_file "film.mkv".

Definition demo_exec := run 500 false Z Z.sub id.

Definition demo_playing : player := default avbox_player_new (demo_exec demo_start avbox_player_new).

Definition demo_stopping : player :=
  default avbox_player_new
    (demo_exec [(demo_answers, Control Z [] 0 M_STOP); (demo_answers, ParserExit Z)] demo_playing).

Lemma demo_buffers : buffers_ok 500.
Proof. unfold buffers_ok. lia. Qed.

(** Closes the conditions of a computed run. *)
Ltac concrete :=
  match goal with
  | |- _ /\ _ => split; concrete
  | |- _ \/ _ => first [left; concrete|right; concrete]
  | |- ex _ => eexists; concrete
  | |- _ -> _ => intros; concrete
  | _ => solve [done|congruence]
  end.

Lemma demo_playing_reachable : reachable 500 false Z Z.sub id demo_playing.
Proof.
  eapply (run_reachable 500 false Z Z.sub id demo_start); [apply reachable_new| |vm_compute; reflexivity].
  vm_compute. concrete.
Qed.

Lemma demo_stopping_reachable : reachable 500 false Z Z.sub id demo_stopping.
Proof.
  eapply (run_reachable 500 false Z Z.sub id
    [(demo_answers, Control Z [] 0 M_STOP); (demo_answers, ParserExit Z)] demo_playing);
    [apply demo_playing_reachable| |vm_compute; reflexivity].
  vm_compute. concrete.
Qed.

Lemma player_state_typed_witness :
  play_state demo_playing = PLAYSTATE_PLAYING /\ pipe_ok PLAYSTATE_PLAYING (pipe demo_playing).
Proof.
  split; [vm_compute; reflexivity|].
  exact (proj1 (player_state_typed 500 false Z Z.sub id demo_playing demo_buffers demo_playing_reachable)).
Defined.



Lemma start_up_plays_witness :
  exists s', run 500 false Z Z.sub id demo_start avbox_player_new = Some s' /\
    play_state s' = PLAYSTATE_PLAYING /\ paused s' = 0.
Proof.
  destruct (start_up_plays 500 false Z Z.sub id (fun _ => demo_answers) demo_file "film.mkv" avbox_player_new)
    as (s' & E & H1 & _ & H2 & _).
  - exact demo_buffers.
  - apply reachable_new.
  - reflexivity.
  - intros _. vm_compute. concrete.
  - reflexivity.
  - intros H. vm_compute in H. congruence.
  - vm_compute. concrete.
  - vm_compute. congruence.
  - intros n H. vm_compute in H. injection H as <-. vm_compute. congruence.
  - intros n H. vm_compute in H. injection H as <-. vm_compute. congruence.
  - exists s'. split; [exact E|]. split; [exact H1|exact H2].
Defined.

Lemma stop_is_permanent_witness :
  exists s1, stop_msg demo_answers demo_playing = Some s1 /\
    exit_next demo_answers s1 = Some s1.
Proof.
  destruct (stop_msg demo_answers demo_playing) as [s1|] eqn:E; [|vm_compute in E; congruence].
  exists s1. split; [reflexivity|].
  refine (proj1 (stop_is_permanent 500 false Z Z.sub id demo_answers demo_playing s1 [] s1 _ E eq_refl) demo_answers).
  vm_compute. congruence.
Defined.

(** Three items; the first is playing. *)
Definition demo_list : player :=
  set_playlist_item (IItem 10) (set_playlist [(10, "a.mkv"); (20, "b.mkv"); (30, "c.mkv")] avbox_player_new).

Lemma playlist_forgotten_witness :
  exists s', exit_next demo_answers demo_list = Some s' /\ playlist s' = [] /\
    log s' = [SendCtl (CTL_PLAY (Some "b.mkv"))].
Proof.
  destruct (playlist_forgotten demo_answers demo_list 10 20 "b.mkv") as (s' & E & H1 & _ & H2 & _);
    [reflexivity..|].
  exists s'. split; [exact E|]. split; [exact H1|]. exact (H2 eq_refl).
Defined.

Lemma chapter_loop_closed_form_witness :
  synth_chapters (synth_fuel 3600000000) 3600000000 2500000000 0 0 0 0 = (12, 8, 2400000000 - 2 ^ 32).
Proof. rewrite (chapter_loop_closed_form 3600000000 2500000000); [reflexivity|lia|lia]. Defined.

Lemma last_chapter_overread_witness :
  chapter_target Z Z.sub id demo_answers [0; 100000000; 200000000] 600000000 (-1) demo_playing = None.
Proof.
  apply (last_chapter_overread Z Z.sub id); [congruence|vm_compute; reflexivity| |vm_compute; reflexivity].
  repeat constructor; vm_compute; congruence.
Defined.

(** AVERROR_STREAM_NOT_FOUND. *)
Definition demo_song : parse_answers :=
  Parse true true true None 180000000 false true true true true 0 (-1381258232).

Lemma audio_only_starts_video_witness :
  exists s', parse_streams 500 demo_song avbox_player_new = Some (true, s') /\ has_video s' = true /\
    parse_exit_begin demo_answers s' = None.
Proof.
  destruct (audio_only_starts_video 500 demo_answers demo_song avbox_player_new) as (s' & E & H1 & _ & _ & H2);
    [vm_compute; reflexivity|vm_compute; congruence|].
  exists s'. split; [exact E|]. split; [exact H1|]. exact (H2 eq_refl).
Defined.
