(* ===== verification/Geometry.v ===== *)
(** * Arithmetic helpers and the size of the picture
    (include/libavbox/math_util.h, src/lib/ui/player.c)

    [isprime] and [avbox_rational_reduce] of the math header, and
    [avbox_player_scale2display], which computes the size a picture is
    scaled to.  Every operation on [int] wraps at 32 bits; a division by
    zero is [None]. *)

From S2P Require Import Prelude.
From Stdlib Require Import Znumtheory.

(** ** math_util.h *)

(** [sqrt] is exact on the values of an [int]. *)
Fixpoint isprime_loop (fuel : nat) (number i max : Z) : bool :=
  match fuel with
  | O => true
  | S fuel =>
      if i <=? max then
        if Z.rem number i =? 0 then false else isprime_loop fuel number (i + 1) max
      else true
  end.

Definition isprime (number : Z) : bool :=
  let max := Z.sqrt number in isprime_loop (Z.to_nat max) number 2 max.

Record avbox_rational := Rational { num : Z; den : Z }.

(** The loop over the divisors, from [div] down to above [min]. *)
Fixpoint reduce_loop (fuel : nat) (n d div min : Z) : Z * Z :=
  match fuel with
  | O => (n, d)
  | S fuel =>
      if min <? div then
        if (Z.rem n div =? 0) && (Z.rem d div =? 0) then (Z.quot n div, Z.quot d div)
        else reduce_loop fuel n d (div - 1) min
      else (n, d)
  end.

Definition avbox_rational_reduce (r : avbox_rational) : avbox_rational :=
  let min := if den r <? num r then den r else num r in
  let '(n, d) := reduce_loop (Z.to_nat (den r - min)) (num r) (den r) (den r) min in Rational n d.

(** *** Primes *)

Lemma isprime_loop_spec number max : forall fuel i,
  2 <= i -> max - i < Z.of_nat fuel ->
  isprime_loop fuel number i max = true <-> (forall k, i <= k <= max -> ~ (k | number)).
Proof.
  induction fuel as [|fuel IH]; intros i Hi Hf; cbn [isprime_loop].
  { split; [|done]. intros _ k Hk. lia. }
  destruct (Z.leb_spec i max); [|split; [intros _ k Hk; lia|done]].
  destruct (Z.eqb_spec (Z.rem number i) 0) as [E|E].
  - split; [done|]. intros H'. exfalso. apply (H' i); [lia|].
    apply Z.rem_divide; [lia|done].
  - rewrite IH by lia. split; intros H' k Hk.
    + destruct (Z.eq_dec k i) as [->|]; [|apply H'; lia]. intros Hd. apply E. apply Z.rem_divide; [lia|done].
    + apply H'. lia.
Qed.

(** For every integer from 2 on, [isprime] decides primality. *)
Lemma isprime_spec n : 2 <= n -> isprime n = true <-> prime n.
Proof.
  intros Hn. unfold isprime.
  pose proof (Z.sqrt_spec n ltac:(lia)) as [S1 S2]. pose proof (Z.sqrt_nonneg n).
  rewrite isprime_loop_spec by lia. split.
  - intros H'. apply prime_alt. split; [lia|]. intros k Hk [m Hm].
    assert (k <= Z.sqrt n \/ m <= Z.sqrt n) as [Hle|Hle] by nia.
    + apply (H' k); [lia|]. by exists m.
    + apply (H' m); [nia|]. exists k. lia.
  - intros Hp k Hk Hd. apply prime_alt in Hp as [_ Hp]. apply (Hp k); [|done].
    split; [lia|]. nia.
Qed.

(** *** Rationals *)

Lemma reduce_loop_id n d min : forall fuel div,
  0 < n -> n <= min \/ div <= min -> 0 < min -> reduce_loop fuel n d div min = (n, d).
Proof.
  induction fuel as [|fuel IH]; intros div Hn Hm H0; cbn [reduce_loop]; [done|].
  destruct (Z.ltb_spec min div); [|done].
  assert (Z.rem n div <> 0) as E by (rewrite Z.rem_small; lia).
  apply Z.eqb_neq in E. rewrite E. cbn [andb]. apply IH; lia.
Qed.

(** ** avbox_player_scale2display *)

Definition SCALE : Z := 10000.

Definition divi (a b : Z) : option Z := if b =? 0 then None else chk_int (Z.quot a b).
Definition muli (a b : Z) : option Z := chk_int (a * b).

Section scale.
(** The screen, the picture and the aspect ratio. *)
Variables sw sh iw ih : Z.
Variable ratio : avbox_rational.

(** Label [bw]: the width of the screen, and the height that goes with
    it. *)
Definition fit_width : option (Z * Z) :=
  ow ← muli sw SCALE;
  inh ← muli ih SCALE; inw ← muli iw SCALE;
  o100 ← muli ow 100; q ← divi o100 inw; p ← muli inh q; oh ← divi p 100;
  shs ← muli sh SCALE; sws ← muli sw SCALE;
  e ← muli sws (den ratio); e ← divi e (num ratio);
  d ← chk_int (shs - e); d ← muli d 100; d ← divi d shs;
  x ← muli oh d; x ← divi x 100; oh ← chk_int (oh + x);
  Some (ow, oh).

(** Label [bh]: the height of the screen. *)
Definition fit_height : option (Z * Z) :=
  oh ← muli sh SCALE;
  inw ← muli iw SCALE; o100 ← muli oh 100; inh ← muli ih SCALE;
  q ← divi o100 inh; p ← muli inw q; ow ← divi p 100;
  sws ← muli sw SCALE; shs ← muli sh SCALE;
  e ← muli shs (num ratio); e ← divi e (den ratio);
  d ← chk_int (sws - e); d ← muli d 100; tmp ← divi d sws;
  x ← muli ow tmp; x ← divi x 100; ow ← chk_int (ow + x);
  Some (if ow <? sws then sws else ow, oh).

(** The two labels jump to each other while the other side is too long. *)
Fixpoint scale_loop (fuel : nat) (bw : bool) : option (Z * Z) :=
  match fuel with
  | O => None
  | S fuel =>
      if bw then
        '(ow, oh) ← fit_width;
        if sh <? Z.quot oh SCALE then scale_loop fuel false else Some (Z.quot ow SCALE, Z.quot oh SCALE)
      else
        '(ow, oh) ← fit_height;
        if sw <? Z.quot ow SCALE then scale_loop fuel true else Some (Z.quot ow SCALE, Z.quot oh SCALE)
  end.

Definition avbox_player_scale2display (fuel : nat) : option (Z * Z) := scale_loop fuel (ih <? iw).

End scale.

(** *** Bounds *)

Lemma chk_ok z : - 2147483648 <= z <= 2147483647 -> chk_int z = Some z.
Proof. intros. apply chk_int_Some. lia. Qed.

Lemma muli_ok a b : - 2147483648 <= a * b <= 2147483647 -> muli a b = Some (a * b).
Proof. apply chk_ok. Qed.

Lemma divi_ok a b : 0 <= a <= 2147483647 -> 0 < b -> divi a b = Some (a / b).
Proof.
  intros Ha Hb. unfold divi. destruct (Z.eqb_spec b 0); [lia|]. rewrite Z.quot_div_nonneg by lia.
  apply chk_ok. pose proof (Z.div_pos a b). pose proof (Z.div_le_upper_bound a b a). nia.
Qed.

Definition ratio_16_9 : avbox_rational := Rational 16 9.

(** A step whose result fits an [int]. *)
Ltac istep H := rewrite H by lia; cbn [mbind option_bind].

(** The side that follows, on a screen of the wanted ratio. *)
Lemma no_adjustment {A} (f : Z -> option A) a o :
  0 < a -> - 2147483648 <= o <= 2147483647 ->
  (d ← chk_int (a - a); d ← muli d 100; d ← divi d a; x ← muli o d; x ← divi x 100; o ← chk_int (o + x); f o)
  = f o.
Proof.
  intros Ha Ho. rewrite Z.sub_diag. istep (chk_ok 0). istep (muli_ok 0 100). istep (divi_ok (0 * 100) a).
  rewrite Z.div_0_l by lia. istep (muli_ok o 0). istep (divi_ok (o * 0) 100).
  rewrite Z.mul_0_r, Z.div_0_l, Z.add_0_r by lia. by istep (chk_ok o).
Qed.

(** The height for a screen of ratio 16:9, which needs no adjustment. *)
Lemma fit_width_169 k iw ih :
  0 < k <= 134 -> 0 < ih < iw -> iw <= 214748 ->
  fit_width (16 * k) (9 * k) iw ih ratio_16_9 =
  Some (16 * k * SCALE, ih * SCALE * (1600 * k / iw) / 100).
Proof.
  intros Hk Hi Hw. unfold fit_width, SCALE. cbn [num den ratio_16_9].
  pose proof (Z.mul_div_le (1600 * k) iw ltac:(lia)) as Hq. pose proof (Z.div_pos (1600 * k) iw) as Hq0.
  assert (16 * k * 10000 * 100 / (iw * 10000) = 1600 * k / iw) as Eq.
  { replace (16 * k * 10000 * 100) with (1600 * k * 10000) by lia. apply Z.div_mul_cancel_r; lia. }
  set (q := 1600 * k / iw) in *.
  assert (ih * q <= 1600 * k) as Hp by nia.
  assert (0 <= ih * q) as Hp0 by nia.
  istep (muli_ok (16 * k) 10000). istep (muli_ok ih 10000). istep (muli_ok iw 10000).
  istep (muli_ok (16 * k * 10000) 100). istep (divi_ok (16 * k * 10000 * 100) (iw * 10000)). rewrite Eq.
  istep (muli_ok (ih * 10000) q). istep (divi_ok (ih * 10000 * q) 100). istep (muli_ok (9 * k) 10000).
  istep (muli_ok (16 * k * 10000) 9). istep (divi_ok (16 * k * 10000 * 9) 16).
  assert (16 * k * 10000 * 9 / 16 = 9 * k * 10000) as ->.
  { replace (16 * k * 10000 * 9) with (9 * k * 10000 * 16) by lia. apply Z.div_mul. lia. }
  apply (no_adjustment (fun oh => Some (16 * k * 10000, oh))); [lia|].
  pose proof (Z.div_pos (ih * 10000 * q) 100).
  pose proof (Z.div_le_upper_bound (ih * 10000 * q) 100 (ih * 10000 * q)). lia.
Qed.

Lemma fit_height_169 k iw ih :
  0 < k <= 134 -> 0 < iw <= 214748 -> 0 < ih <= 214748 -> iw * (900 * k / ih) <= 1600 * 134 ->
  fit_height (16 * k) (9 * k) iw ih ratio_16_9 =
  Some (let ow := iw * SCALE * (900 * k / ih) / 100 in
        if ow <? 16 * k * SCALE then 16 * k * SCALE else ow, 9 * k * SCALE).
Proof.
  intros Hk Hiw Hih Hp. unfold fit_height, SCALE. cbn [num den ratio_16_9].
  pose proof (Z.div_pos (900 * k) ih) as Hq0.
  assert (9 * k * 10000 * 100 / (ih * 10000) = 900 * k / ih) as Eq.
  { replace (9 * k * 10000 * 100) with (900 * k * 10000) by lia. apply Z.div_mul_cancel_r; lia. }
  set (q := 900 * k / ih) in *.
  assert (0 <= iw * q) as Hp0 by nia.
  istep (muli_ok (9 * k) 10000). istep (muli_ok iw 10000). istep (muli_ok (9 * k * 10000) 100).
  istep (muli_ok ih 10000). istep (divi_ok (9 * k * 10000 * 100) (ih * 10000)). rewrite Eq.
  istep (muli_ok (iw * 10000) q). istep (divi_ok (iw * 10000 * q) 100). istep (muli_ok (16 * k) 10000).
  istep (muli_ok (9 * k * 10000) 16). istep (divi_ok (9 * k * 10000 * 16) 9).
  assert (9 * k * 10000 * 16 / 9 = 16 * k * 10000) as ->.
  { replace (9 * k * 10000 * 16) with (16 * k * 10000 * 9) by lia. apply Z.div_mul. lia. }
  apply (no_adjustment (fun ow => Some (if ow <? 16 * k * 10000 then 16 * k * 10000 else ow, 9 * k * 10000)));
    [lia|].
  pose proof (Z.div_pos (iw * 10000 * q) 100).
  pose proof (Z.div_le_upper_bound (iw * 10000 * q) 100 (iw * 10000 * q)). lia.
Qed.

(** Both jumps are never taken: the picture cannot be too long both ways. *)
Lemma one_side_fits iw ih k :
  0 < k -> 0 < iw -> 0 < ih ->
  9 * k < ih * SCALE * (1600 * k / iw) / 100 / SCALE ->
  iw * (900 * k / ih) <= 1600 * k.
Proof.
  intros Hk Hiw Hih Hb. unfold SCALE in Hb.
  rewrite Z.div_div in Hb by lia. change (100 * 10000) with 1000000 in Hb.
  pose proof (Z.mul_div_le (ih * 10000 * (1600 * k / iw)) 1000000 ltac:(lia)) as H1.
  pose proof (Z.mul_div_le (1600 * k) iw ltac:(lia)) as H2. pose proof (Z.mul_div_le (900 * k) ih ltac:(lia)) as H3.
  set (q := 1600 * k / iw) in *. set (r := 900 * k / ih) in *.
  assert (900 * k < ih * q) as H4 by lia.
  assert (iw * q <= 1600 * k) by lia. assert (ih * r <= 900 * k) by lia.
  assert (r < q) by nia. nia.
Qed.

(** ** Properties *)

(** It takes 0 and 1 for primes. *)
Lemma isprime_zero_one : isprime 0 = true /\ isprime 1 = true.
Proof. done. Qed.

(** Reducing a positive rational number never reduces it: the loop
    only tries divisors larger than the smaller of the two numbers. *)
Lemma rational_reduce_identity r : 0 < num r -> 0 < den r -> avbox_rational_reduce r = r.
Proof.
  intros Hn Hd. unfold avbox_rational_reduce. destruct r as [n d]. cbn [num den] in *.
  rewrite reduce_loop_id; [done|lia|..]; destruct (Z.ltb_spec d n); lia.
Qed.

Lemma height_cancel ih q : ih * SCALE * q / 100 / SCALE = ih * q / 100.
Proof.
  unfold SCALE. rewrite Z.div_div by lia. replace (ih * 10000 * q) with (ih * q * 10000) by lia.
  apply Z.div_mul_cancel_r; lia.
Qed.

(** On a screen of ratio 16:9 and up to 2144 pixels wide the size of a
    picture is computed without overflow, with at most one jump between
    the two labels, and fits the screen; its width is always the whole
    screen's, so a picture narrower than the screen is stretched. *)
Lemma scale2display_fits k iw ih fuel :
  0 < k <= 134 -> 0 < iw <= 214748 -> 0 < ih <= 214748 -> (2 <= fuel)%nat ->
  avbox_player_scale2display (16 * k) (9 * k) iw ih ratio_16_9 fuel =
  Some (16 * k, if ih <? iw then Z.min (9 * k) (ih * (1600 * k / iw) / 100) else 9 * k).
Proof.
  intros Hk Hiw Hih Hf. destruct fuel as [|fuel]; [lia|]. unfold avbox_player_scale2display.
  assert (iw * (900 * k / ih) <= 1600 * k ->
    forall f, (0 < f)%nat -> scale_loop (16 * k) (9 * k) iw ih ratio_16_9 f false = Some (16 * k, 9 * k)) as Hh.
  { intros Hp [|f]; [lia|]. intros _. cbn [scale_loop]. rewrite fit_height_169 by lia. cbn [mbind option_bind]. cbv zeta.
    assert (iw * SCALE * (900 * k / ih) / 100 <= 16 * k * SCALE) as Ho.
    { unfold SCALE. apply Z.div_le_upper_bound; lia. }
    destruct (Z.ltb_spec (iw * SCALE * (900 * k / ih) / 100) (16 * k * SCALE)) as [|Hge];
      [|replace (iw * SCALE * (900 * k / ih) / 100) with (16 * k * SCALE) by lia];
      rewrite !Z.quot_mul by done; by rewrite Z.ltb_irrefl. }
  destruct (Z.ltb_spec ih iw) as [Hlt|Hge].
  - cbn [scale_loop]. rewrite fit_width_169 by lia. cbn [mbind option_bind].
    assert (0 <= 1600 * k / iw) as Hq by (apply Z.div_pos; lia).
    rewrite Z.quot_mul by done.
    rewrite (Z.quot_div_nonneg (_ / 100)) by (try done; apply Z.div_pos; unfold SCALE; nia).
    destruct (Z.ltb_spec (9 * k) (ih * SCALE * (1600 * k / iw) / 100 / SCALE)) as [Hj|Hj].
    + rewrite Hh by (first [lia|eapply one_side_fits; [lia..|exact Hj]]). rewrite height_cancel in Hj.
      by rewrite Z.min_l by lia.
    + rewrite height_cancel in *. by rewrite Z.min_r by lia.
  - apply Hh; [|lia]. pose proof (Z.mul_div_le (900 * k) ih ltac:(lia)). pose proof (Z.div_pos (900 * k) ih). nia.
Qed.

(** A screen of 3840 pixels overflows. *)
Lemma scale2display_4k_overflows fuel : avbox_player_scale2display 3840 2160 1920 1080 ratio_16_9 fuel = None.
Proof. destruct fuel; reflexivity. Qed.

Lemma rational_reduce_identity_witness : avbox_rational_reduce (Rational 6 9) = Rational 6 9.
Proof. apply (rational_reduce_identity (Rational 6 9)); cbn; lia. Defined.

Lemma scale2display_fits_witness :
  avbox_player_scale2display 1920 1080 640 480 ratio_16_9 2 = Some (1920, 1080).
Proof. apply (scale2display_fits 120 640 480 2); lia. Defined.
