(* ===== verification/Windows.v ===== *)
(** * Windows (src/lib/ui/video.c, include/libavbox/ui/video.h)

    The window system: windows live in a heap ([wins]), the visible
    top-level windows on a stack whose last element is the topmost one, and
    every window has the list of its subwindows.  The calls that leave the
    module (paint handlers, the driver's [surface_update], [surface_destroy]
    and so on) are appended to a log in the order they are made; the
    software driver that executes them is in Surfaces.v.  The build defines
    FORCE_FULL_SCREEN_REPAINTS, so [show] and [update] repaint the whole
    screen.

    [None] is a run outside C's defined behaviour or a failed assertion: an
    access to a window that was freed, [LIST_REMOVE] of a node that is not on
    a list, [LIST_APPEND] of one that is. *)

From S2P Require Import Prelude LinkedList Dispatch Input.

Open Scope Z_scope.

(** ** Colours *)

Definition AVBOX_COLOR_R (x : Z) : Z := Z.land (Z.shiftr x 24) 255.
Definition AVBOX_COLOR_G (x : Z) : Z := Z.land (Z.shiftr x 16) 255.
Definition AVBOX_COLOR_B (x : Z) : Z := Z.land (Z.shiftr x 8) 255.
Definition AVBOX_COLOR_A (x : Z) : Z := Z.land x 255.

(** RRGGBBAA to AARRGGBB. *)
Definition AVBOX_COLOR (color : Z) : Z :=
  Z.lor (Z.shiftl (AVBOX_COLOR_A color) 24)
    (Z.lor (Z.shiftl (AVBOX_COLOR_R color) 16)
       (Z.lor (Z.shiftl (AVBOX_COLOR_G color) 8) (AVBOX_COLOR_B color))).

(** One channel scaled by the alpha of an AARRGGBB colour. *)
Definition premult_channel (color shift : Z) : Z :=
  Z.shiftl (Z.shiftr (Z.shiftr color 24 * Z.land (Z.shiftr color shift) 255) 8) shift.

Definition AVBOX_COLOR_PREMULT (color : Z) : Z :=
  Z.lor (Z.land color 4278190080)
    (Z.lor (premult_channel color 16)
       (Z.lor (premult_channel color 8) (premult_channel color 0))).

Definition MBV_DEFAULT_FOREGROUND : Z := AVBOX_COLOR 4294967295.
Definition MBV_DEFAULT_BACKGROUND : Z := AVBOX_COLOR 156348351.

(** ** Data *)

(** A pointer tested against NULL. *)
Definition nonnull (o : option Z) : bool := match o with Some _ => true | None => false end.


Definition AVBOX_WNDFLAGS_NONE : Z := 0.
Definition AVBOX_WNDFLAGS_INPUT : Z := 1.
Definition AVBOX_WNDFLAGS_SUBWINDOW : Z := 2.
Definition AVBOX_WNDFLAGS_DECORATED : Z := 4.
Definition AVBOX_WNDFLAGS_ALPHABLEND : Z := 8.

Definition MBV_BLITFLAGS_NONE : Z := 0.
Definition MBV_BLITFLAGS_ALPHABLEND : Z := 2.

Definition FONT_PADDING : Z := 3.

Definition hasflag (flags f : Z) : bool := negb (Z.land flags f =? 0).

Record avbox_rect := Rect { rx : Z; ry : Z; rw : Z; rh : Z }.

#[export] Instance avbox_rect_eq : EqDecision avbox_rect.
Proof. solve_decision. Defined.

(** The values of [window->paint]: NULL is [None]. *)
Inductive draw_fn := PaintDecor | UserDraw (fn : Z).

(** [struct avbox_window].  [node_list] is the window whose [children] list
    holds the window's [node]; [stack_node] is the window's own address on
    the stack. *)
Record avbox_window := Window {
  surface : Z;
  object : option Z;
  content_window : Z;
  parent : option Z;
  node_list : option Z;
  paint : option draw_fn;
  handler : option Z;
  title : option string;
  rect : avbox_rect;
  visible : bool;
  flags : Z;
  damaged : bool;
  decor_dirty : bool;
  dirty : bool;
  foreground_color : Z;
  background_color : Z;
  user_context : Z;
  draw_context : Z;
  children : list Z;
}.

(** The calls that leave the module. *)
Inductive event :=
| EvDraw (window fn ctx : Z)
| EvDecor (window : Z)
| EvClear (window color : Z) (front : bool)
| EvUpdate (window blitflags : Z) (update : bool)
| EvHandler (ctx msg : Z)
| EvDelegate (window : Z)
| EvObjectDestroy (o : Z)
| EvSurfaceDestroy (s : Z).

Record video := Video {
  wins : gmap Z avbox_window;
  window_stack : list Z;
  default_font_height : Z;
  input : Endpoints.input;
  log : list event;
}.

(** The address of the static root window. *)
Definition root_window : Z := 1.

Definition set_wins (f : gmap Z avbox_window -> gmap Z avbox_window) (st : video) : video :=
  Video (f (wins st)) (window_stack st) (default_font_height st) (input st) (log st).
Definition set_stack (l : list Z) (st : video) : video :=
  Video (wins st) l (default_font_height st) (input st) (log st).
Definition set_input (i : Endpoints.input) (st : video) : video :=
  Video (wins st) (window_stack st) (default_font_height st) i (log st).
Definition emit (e : event) (st : video) : video :=
  Video (wins st) (window_stack st) (default_font_height st) (input st) (log st ++ [e]).

(** A store to a field of a window. *)
Definition modify (w : Z) (f : avbox_window -> avbox_window) (st : video) : option video :=
  win ← wins st !! w; Some (set_wins (fun m => <[w := f win]> m) st).

Definition with_visible (b : bool) (x : avbox_window) : avbox_window :=
  Window (surface x) (object x) (content_window x) (parent x) (node_list x) (paint x) (handler x)
    (title x) (rect x) b (flags x) (damaged x) (decor_dirty x) (dirty x) (foreground_color x)
    (background_color x) (user_context x) (draw_context x) (children x).
Definition with_damaged (b : bool) (x : avbox_window) : avbox_window :=
  Window (surface x) (object x) (content_window x) (parent x) (node_list x) (paint x) (handler x)
    (title x) (rect x) (visible x) (flags x) b (decor_dirty x) (dirty x) (foreground_color x)
    (background_color x) (user_context x) (draw_context x) (children x).
Definition with_decor_dirty (b : bool) (x : avbox_window) : avbox_window :=
  Window (surface x) (object x) (content_window x) (parent x) (node_list x) (paint x) (handler x)
    (title x) (rect x) (visible x) (flags x) (damaged x) b (dirty x) (foreground_color x)
    (background_color x) (user_context x) (draw_context x) (children x).
Definition with_dirty (b : bool) (x : avbox_window) : avbox_window :=
  Window (surface x) (object x) (content_window x) (parent x) (node_list x) (paint x) (handler x)
    (title x) (rect x) (visible x) (flags x) (damaged x) (decor_dirty x) b (foreground_color x)
    (background_color x) (user_context x) (draw_context x) (children x).
Definition with_title (t : option string) (x : avbox_window) : avbox_window :=
  Window (surface x) (object x) (content_window x) (parent x) (node_list x) (paint x) (handler x)
    t (rect x) (visible x) (flags x) (damaged x) (decor_dirty x) (dirty x) (foreground_color x)
    (background_color x) (user_context x) (draw_context x) (children x).
Definition with_content (c : Z) (x : avbox_window) : avbox_window :=
  Window (surface x) (object x) c (parent x) (node_list x) (paint x) (handler x)
    (title x) (rect x) (visible x) (flags x) (damaged x) (decor_dirty x) (dirty x) (foreground_color x)
    (background_color x) (user_context x) (draw_context x) (children x).
Definition with_paint (p : option draw_fn) (x : avbox_window) : avbox_window :=
  Window (surface x) (object x) (content_window x) (parent x) (node_list x) p (handler x)
    (title x) (rect x) (visible x) (flags x) (damaged x) (decor_dirty x) (dirty x) (foreground_color x)
    (background_color x) (user_context x) (draw_context x) (children x).
Definition with_draw_context (c : Z) (x : avbox_window) : avbox_window :=
  Window (surface x) (object x) (content_window x) (parent x) (node_list x) (paint x) (handler x)
    (title x) (rect x) (visible x) (flags x) (damaged x) (decor_dirty x) (dirty x) (foreground_color x)
    (background_color x) (user_context x) c (children x).
Definition with_colors (fg bg : Z) (x : avbox_window) : avbox_window :=
  Window (surface x) (object x) (content_window x) (parent x) (node_list x) (paint x) (handler x)
    (title x) (rect x) (visible x) (flags x) (damaged x) (decor_dirty x) (dirty x) fg
    bg (user_context x) (draw_context x) (children x).
Definition with_children (l : list Z) (x : avbox_window) : avbox_window :=
  Window (surface x) (object x) (content_window x) (parent x) (node_list x) (paint x) (handler x)
    (title x) (rect x) (visible x) (flags x) (damaged x) (decor_dirty x) (dirty x) (foreground_color x)
    (background_color x) (user_context x) (draw_context x) l.

(** ** Rectangles *)

Definition avbox_rect_overlaps (rect1 rect2 : avbox_rect) : bool := true.

(** The sums are [int] additions; the right operand of [&&] is only
    evaluated when the left one holds. *)
Definition avbox_rect_covers (rect1 rect2 : avbox_rect) : option bool :=
  if (rx rect1 <=? rx rect2) && (ry rect1 <=? ry rect2) then
    dx ← chk_int (rx rect2 - rx rect1);
    sw ← chk_int (rw rect2 + dx);
    if sw <=? rw rect1 then
      dy ← chk_int (ry rect2 - ry rect1);
      sh ← chk_int (rh rect2 + dy);
      Some (sh <=? rh rect1)
    else Some false
  else Some false.

(** ** The stack *)

(** [LIST_NEXT] of a stack node up to the head of the ring: the windows
    above [w], lowest first. *)
Fixpoint above (w : Z) (l : list Z) : option (list Z) :=
  match l with
  | [] => None
  | x :: l => if x =? w then Some l else above w l
  end.

Definition stack_remove (w : Z) (st : video) : option video :=
  if bool_decide (w ∈ window_stack st)
  then Some (set_stack (filter (fun x => x <> w) (window_stack st)) st) else None.

Definition stack_append (w : Z) (st : video) : option video :=
  if bool_decide (w ∈ window_stack st) then None
  else Some (set_stack (window_stack st ++ [w]) st).

(** ** Painting *)

Fixpoint uncovered (m : gmap Z avbox_window) (ds : list Z) (r : avbox_rect) : option bool :=
  match ds with
  | [] => Some true
  | d :: ds =>
      dw ← m !! d;
      c ← avbox_rect_covers (rect dw) r;
      if (c : bool) then Some false else uncovered m ds r
  end.

Definition avbox_window_reallyvisible (st : video) (w : Z) : option bool :=
  win ← wins st !! w;
  if bool_decide (parent win = Some root_window) then
    ds ← above w (window_stack st);
    uncovered (wins st) ds (rect win)
  else Some true.

Section Paint.

(** What the code outside the module decides while a window is painted:
    the value a paint handler leaves in the dirty bit of its window (the
    handlers draw on the window's surface and may call
    [avbox_window_setdirty]), and whether cairo and pango give the contexts
    [paintdecor] asks for. *)
Context (new_dirty : Z -> Z -> Z -> video -> bool) (cairo_ok layout_ok : video -> Z -> bool).

Definition run_handler (w fn ctx : Z) (st : video) : option video :=
  modify w (with_dirty (new_dirty fn w ctx st)) (emit (EvDraw w fn ctx) st).

(** [self] is [avbox_window_paint]. *)
Definition avbox_window_paintdecor (self : video -> Z -> bool -> option video) (st : video) (w : Z) :
    option video :=
  win ← wins st !! w;
  if content_window win =? w then None else
  st ← (if decor_dirty win then
          if cairo_ok st w then
            let st' := emit (EvDecor w) st in
            if layout_ok st w then modify w (with_decor_dirty false) st' else Some st'
          else Some st
        else Some st);
  self st (content_window win) true.

Fixpoint paint_children (self : video -> Z -> bool -> option video) (cs : list Z) (update : bool)
    (st : video) : option video :=
  match cs with
  | [] => Some st
  | c :: cs => st ← self st c update; paint_children self cs update st
  end.

(** The loop over the windows above.  It only advances when the rectangles
    overlap; otherwise it would spin. *)
Fixpoint repaint_above (self : video -> Z -> bool -> option video) (w : Z) (ds : list Z) (update : bool)
    (st : video) : option video :=
  match ds with
  | [] => Some st
  | d :: ds =>
      win ← wins st !! w;
      dw ← wins st !! d;
      if avbox_rect_overlaps (rect win) (rect dw) then
        st ← self st d update;
        c ← avbox_rect_covers (rect dw) (rect win);
        if (c : bool) then Some st else repaint_above self w ds update st
      else None
  end.

(** The paint handler, when the window is dirty, and the subwindows. *)
Definition paint_own (self : video -> Z -> bool -> option video) (win : avbox_window) (w : Z)
    (update : bool) (st : video) : option video :=
  st ← (if dirty win then
          match paint win with
          | None => Some st
          | Some PaintDecor => avbox_window_paintdecor self st w
          | Some (UserDraw fn) => run_handler w fn (draw_context win) st
          end
        else Some st);
  paint_children self (children win) update st.

Definition blitflags (win : avbox_window) : Z :=
  if hasflag (flags win) AVBOX_WNDFLAGS_ALPHABLEND then MBV_BLITFLAGS_ALPHABLEND
  else MBV_BLITFLAGS_NONE.

Fixpoint avbox_window_paint (fuel : nat) (st : video) (w : Z) (update : bool) : option video :=
  match fuel with
  | O => None
  | S fuel =>
      win ← wins st !! w;
      if negb (visible win) then Some st else
      rv ← avbox_window_reallyvisible st w;
      if negb rv then Some st else
      st ← paint_own (avbox_window_paint fuel) win w update st;
      let st := emit (EvUpdate w (blitflags win) update) st in
      if bool_decide (parent win = Some root_window) then
        ds ← above w (window_stack st);
        repaint_above (avbox_window_paint fuel) w ds update st
      else Some st
  end.

(** ** Updating, showing and hiding *)

(** Fuel that is enough for every painting of the state (see
    [paint_spec]): the depth of the subwindow trees and the height of the
    stack are both at most the number of windows. *)
Definition enough (st : video) : nat := size (wins st) + length (window_stack st) + 3.

(** FORCE_FULL_SCREEN_REPAINTS: both branches paint the root window. *)
Definition avbox_window_update (st : video) (w : Z) : option video :=
  let update := negb (w =? root_window) in
  win ← wins st !! w;
  if negb (visible win) then Some st else
  if update then avbox_window_paint (enough st) st root_window false
  else avbox_window_paint (enough st) st w false.

(** [mem] is the answer of [malloc] to [avbox_input_grab].  A window with
    the INPUT flag and no object would put NULL among the endpoints, the end
    mark of the array of destinations; the model stops there. *)
Definition avbox_window_show (mem : option loc) (st : video) (w : Z) : option video :=
  if w =? root_window then None else
  win ← wins st !! w;
  st ← stack_append w st;
  st ← modify w (with_visible true) st;
  st ← avbox_window_paint (enough st) st root_window false;
  if hasflag (flags win) AVBOX_WNDFLAGS_INPUT then
    o ← object win;
    '(_, i) ← Endpoints.avbox_input_grab mem o (input st);
    Some (set_input i st)
  else Some st.

(** The loop of [hide]. *)
Fixpoint repair (w : Z) (ds : list Z) (st : video) : option video :=
  match ds with
  | [] => Some st
  | d :: ds =>
      win ← wins st !! w;
      dw ← wins st !! d;
      if avbox_rect_overlaps (rect win) (rect dw) then
        st ← modify d (with_damaged (d =? root_window)) st;
        st ← avbox_window_update st d;
        st ← modify d (with_damaged false) st;
        c ← avbox_rect_covers (rect dw) (rect win);
        if (c : bool) then Some st else repair w ds st
      else repair w ds st
  end.

Definition avbox_window_hide (st : video) (w : Z) : option video :=
  if w =? root_window then None else
  win ← wins st !! w;
  st ← stack_remove w st;
  st ← (if hasflag (flags win) AVBOX_WNDFLAGS_INPUT then
          o ← object win;
          i ← Endpoints.avbox_input_release o (input st);
          Some (set_input i st)
        else Some st);
  st ← modify w (with_visible false) st;
  repair w (window_stack st) st.

Definition avbox_window_tofront (st : video) (w : Z) : option video :=
  st ← stack_remove w st;
  st ← stack_append w st;
  avbox_window_update st w.

(** ** Destruction *)

(** [LIST_REMOVE(window->node)]. *)
Definition remove_node (w : Z) (st : video) : option video :=
  win ← wins st !! w;
  l ← node_list win;
  lw ← wins st !! l;
  if bool_decide (w ∈ children lw)
  then modify l (with_children (filter (fun x => x <> w) (children lw))) st else None.

(** [destroy] is [avbox_window_destroy], called on the content window. *)
Definition __avbox_window_destroy (destroy : video -> Z -> option video) (st : video) (w : Z) :
    option video :=
  if w =? root_window then None else
  win ← wins st !! w;
  st ← (if visible win && bool_decide (parent win = Some root_window)
           && negb (hasflag (flags win) AVBOX_WNDFLAGS_SUBWINDOW)
        then avbox_window_hide st w else Some st);
  st ← remove_node w st;
  if content_window win =? w then Some st else destroy st (content_window win).

(** The driver frees the surface, [free] the window. *)
Definition __avbox_window_cleanup (st : video) (w : Z) : option video :=
  win ← wins st !! w;
  Some (set_wins (delete w) (emit (EvSurfaceDestroy (surface win)) st)).

(** A window with a dispatch object is destroyed by the DESTROY and CLEANUP
    messages of the object.  A content window has no content window of its
    own: a fuel of two is enough. *)
Fixpoint destroy_with (fuel : nat) (st : video) (w : Z) : option video :=
  match fuel with
  | O => None
  | S fuel =>
      win ← wins st !! w;
      match object win with
      | Some o => Some (emit (EvObjectDestroy o) st)
      | None =>
          st ← __avbox_window_destroy (destroy_with fuel) st w;
          __avbox_window_cleanup st w
      end
  end.

Definition avbox_window_destroy (st : video) (w : Z) : option video := destroy_with 2 st w.

Definition AVBOX_MESSAGETYPE_DELEGATE : Z := 6.

(** The message handler of a window's object; [ans] is what the handler of
    the window's user returns when it is called. *)
Definition avbox_window_handler (st : video) (w msg ans : Z) : option (Z * video) :=
  win ← wins st !! w;
  let call st := emit (EvHandler (user_context win) msg) st in
  if msg =? AVBOX_MESSAGETYPE_DELEGATE then
    Some (AVBOX_DISPATCH_OK, emit (EvDelegate w) st)
  else if msg =? AVBOX_MESSAGETYPE_DESTROY then
    match handler win with
    | Some _ =>
        if ans =? AVBOX_DISPATCH_OK then
          st ← __avbox_window_destroy avbox_window_destroy (call st) w;
          Some (AVBOX_DISPATCH_OK, st)
        else Some (ans, call st)
    | None =>
        st ← __avbox_window_destroy avbox_window_destroy st w;
        Some (AVBOX_DISPATCH_OK, st)
    end
  else if msg =? AVBOX_MESSAGETYPE_CLEANUP then
    let st := match handler win with Some _ => call st | None => st end in
    st ← __avbox_window_cleanup st w;
    Some (AVBOX_DISPATCH_OK, st)
  else
    match handler win with
    | Some _ => Some (ans, call st)
    | None => None
    end.

(** ** Creation *)

(** The answers of the driver while a surface is cleared: whether it could
    be locked, whether it is double buffered and, then, whether the front
    buffer could be locked. *)
Record clear_answers := ClearAnswers { cl_lock : bool; cl_double : bool; cl_front : bool }.

(** The answers of the allocator, the driver and the dispatcher while one
    window is created: NULL is [None]. *)
Record answers := Answers {
  a_window : option Z;
  a_node : bool;
  a_surface : option Z;
  a_object : option Z;
  a_clear : clear_answers;
}.

Definition avbox_window_getcanvassize (st : video) (w : Z) : option (Z * Z) :=
  win ← wins st !! w;
  cw ← wins st !! content_window win;
  Some (rw (rect cw), rh (rect cw)).

(** [LIST_ADD(&l->children, node)]. *)
Definition add_node (l w : Z) (st : video) : option video :=
  lw ← wins st !! l;
  modify l (with_children (w :: children lw)) st.

(** Every creation answers the new window, [None] for NULL. *)
Definition avbox_window_subwindow (a : answers) (st : video) (window flags x y w h : Z)
    (msghandler : option Z) (paint : option Z) (user_context : Z) :
    option (option Z * video) :=
  match a_window a with
  | None => Some (None, st)
  | Some new_window =>
  if negb (a_node a) then Some (None, st) else
  win ← wins st !! window;
  '(w, h) ← (if (w =? -1) || (h =? -1) then
               '(pw, ph) ← avbox_window_getcanvassize st window;
               Some (if w =? -1 then pw else w, if h =? -1 then ph else h)
             else Some (w, h));
  match a_surface a with
  | None => Some (None, st)
  | Some surface =>
  let new object := Window surface object new_window (Some window) (Some (content_window win))
    (UserDraw <$> paint) msghandler None (Rect x y w h) true flags false true true (foreground_color win)
    (background_color win) user_context user_context [] in
  let needs_object := nonnull msghandler || nonnull (object win) in
  if needs_object && negb (nonnull (a_object a)) then Some (None, st) else
  let st := set_wins (fun m => <[new_window := new (if needs_object then a_object a else None)]> m) st in
  st ← add_node (content_window win) new_window st;
  Some (Some new_window, st)
  end
  end.

Definition avbox_window_settitle (strdup_ok : bool) (st : video) (w : Z) (t : string) : option (Z * video) :=
  win ← wins st !! w;
  if content_window win =? w then None else
  if strdup_ok then st ← modify w (with_title (Some t)) st; Some (0, st) else Some (-1, st).

(** [__window_clear] of a window: the title is set again to the same text
    (the call fails without an effect when there is no memory), then the
    loop of Surfaces.v ([clear_rows]) runs on the locked content surface and,
    when it is double buffered, on its front buffer. *)
Definition __window_clear (c : clear_answers) (st : video) (w color : Z) : option video :=
  win ← wins st !! w;
  _ ← wins st !! content_window win;
  st ← (match title win with
        | Some t => '(_, st) ← avbox_window_settitle true st w t; Some st
        | None => Some st
        end);
  let st := if cl_lock c then emit (EvClear (content_window win) color false) st else st in
  Some (if cl_double c && cl_front c then emit (EvClear (content_window win) color true) st else st).

Definition avbox_window_clear (c : clear_answers) (st : video) (w : Z) : option video :=
  win ← wins st !! w; __window_clear c st w (AVBOX_COLOR_PREMULT (background_color win)).

(** The decoration of a new window: the content window, at the answers [c]. *)
Definition decorate (c : answers) (title_ok : bool) (st : video) (window surface flags w h : Z)
    (draw : option Z) : option (option Z * video) :=
  let font_height := default_font_height st in
  let subflags := Z.lor (Z.ldiff (Z.ldiff flags AVBOX_WNDFLAGS_DECORATED) AVBOX_WNDFLAGS_INPUT)
                    AVBOX_WNDFLAGS_SUBWINDOW in
  st ← modify window (with_paint (Some PaintDecor)) st;
  cw ← chk_int (w - 10);
  ch ← chk_int (h - (font_height + FONT_PADDING) - 5);
  '(content, st) ← avbox_window_subwindow c st window subflags 5 (font_height + FONT_PADDING) cw ch
                     None draw 0;
  match content with
  | None => Some (None, set_wins (delete window) (emit (EvSurfaceDestroy surface) st))
  | Some cwin =>
      st ← modify window (with_content cwin) st;
      '(_, st) ← avbox_window_settitle title_ok st window "NEW WINDOW";
      Some (Some window, st)
  end.

(** [identified]: the caller passed an identifier. *)
Definition avbox_window_new (a c : answers) (title_ok identified : bool) (st : video) (parent : option Z)
    (flags x y w h : Z) (msghandler : option Z) (draw : option Z) (context : Z) :
    option (option Z * video) :=
  if hasflag flags AVBOX_WNDFLAGS_SUBWINDOW then
    p ← parent; avbox_window_subwindow a st p flags x y w h msghandler draw context
  else if nonnull parent then None else
  match a_window a with
  | None => Some (None, st)
  | Some window =>
  if negb (a_node a) then Some (None, st) else
  match a_surface a with
  | None => Some (None, st)
  | Some surface =>
  let new object := Window surface object window (Some root_window) (Some root_window)
    (UserDraw <$> draw) msghandler None (Rect x y w h) false flags false true true MBV_DEFAULT_FOREGROUND
    MBV_DEFAULT_BACKGROUND context context [] in
  let needs_object := nonnull msghandler in
  if needs_object && negb (nonnull (a_object a)) then Some (None, st) else
  let st := set_wins (fun m => <[window := new (if needs_object then a_object a else None)]> m) st in
  st ← add_node root_window window st;
  '(made, st) ← (if hasflag flags AVBOX_WNDFLAGS_DECORATED then
                   if identified then decorate c title_ok st window surface flags w h draw else None
                 else Some (Some window, st));
  match made with
  | None => Some (None, st)
  | Some _ =>
      st ← (if negb (nonnull draw) then __window_clear (a_clear a) st window MBV_DEFAULT_BACKGROUND
            else Some st);
      Some (Some window, st)
  end
  end
  end.

(** ** Accessors *)

Definition avbox_window_dirty (st : video) (w : Z) : option bool := dirty <$> wins st !! w.
Definition avbox_window_setdirty (st : video) (w value : Z) : option video :=
  modify w (with_dirty (negb (value =? 0))) st.
Definition avbox_window_isvisible (st : video) (w : Z) : option bool := visible <$> wins st !! w.
Definition avbox_window_object (st : video) (w : Z) : option (option Z) := object <$> wins st !! w.
Definition avbox_window_getsize (st : video) (w : Z) : option (Z * Z) :=
  win ← wins st !! w; Some (rw (rect win), rh (rect win)).
Definition avbox_window_damaged (st : video) (w : Z) : option bool := damaged <$> wins st !! w.
Definition avbox_window_setcolor (st : video) (w color : Z) : option video :=
  modify w (fun x => with_colors color (background_color x) x) st.
Definition avbox_window_setbgcolor (st : video) (w color : Z) : option video :=
  modify w (fun x => with_colors (foreground_color x) color x) st.
Definition avbox_window_getcolor (st : video) (w : Z) : option Z := foreground_color <$> wins st !! w.
Definition avbox_window_getbackground (st : video) (w : Z) : option Z := background_color <$> wins st !! w.

(** The handler is stored in the content window, its context in the window
    itself. *)
Definition avbox_window_setdrawfunc (st : video) (w : Z) (func : option Z) (context : Z) :
    option video :=
  win ← wins st !! w;
  st ← modify (content_window win) (with_paint (UserDraw <$> func)) st;
  modify w (with_draw_context context) st.

(** ** Start and end *)

Definition font_height_for (w : Z) : Z :=
  if 1920 <=? w then 32 else if 1280 <=? w then 28 else if 1024 <=? w then 20 else 16.

(** [surf] is the surface the driver's [init] answers for a screen of
    [w] x [h] pixels. *)
Definition avbox_video_init (surf : option Z) (strdup_ok font_ok : bool) (i : Endpoints.input) (w h : Z) :
    Z * option video :=
  match surf with
  | None => (-1, None)
  | Some s =>
      let root := Window s None root_window None None None None None (Rect 0 0 w h) true
        AVBOX_WNDFLAGS_NONE false false true (AVBOX_COLOR 4294967295) (AVBOX_COLOR 255) 0 0 [] in
      if negb strdup_ok then (-1, None) else
      let st := Video {[ root_window := root ]} [root_window] (font_height_for w) i [] in
      if font_ok then (0, Some st) else (-1, None)
  end.

Definition avbox_video_shutdown (c : clear_answers) (st : video) : option video :=
  st ← avbox_window_clear c st root_window;
  st ← avbox_window_update st root_window;
  stack_remove root_window st.

End Paint.

(** ** Rectangles as sets of pixels *)

Definition in_rect (r : avbox_rect) (p : Z * Z) : bool :=
  (rx r <=? p.1) && (p.1 <? rx r + rw r) && (ry r <=? p.2) && (p.2 <? ry r + rh r).

(** Sizes for which the sums of [avbox_rect_covers] do not overflow. *)
Definition rect_ok (r : avbox_rect) : bool :=
  (- 2 ^ 29 <=? rx r) && (rx r <=? 2 ^ 29) && (- 2 ^ 29 <=? ry r) && (ry r <=? 2 ^ 29)
  && (0 <=? rw r) && (rw r <=? 2 ^ 29) && (0 <=? rh r) && (rh r <=? 2 ^ 29).

(** [avbox_rect_covers] without overflow. *)
Definition covers (r1 r2 : avbox_rect) : bool :=
  (rx r1 <=? rx r2) && (ry r1 <=? ry r2) && (rx r2 + rw r2 <=? rx r1 + rw r1)
  && (ry r2 + rh r2 <=? ry r1 + rh r1).

Lemma rect_covers_ok r1 r2 :
  rect_ok r1 -> rect_ok r2 -> avbox_rect_covers r1 r2 = Some (covers r1 r2).
Proof.
  destruct r1 as [x1 y1 w1 h1], r2 as [x2 y2 w2 h2]. unfold rect_ok, avbox_rect_covers, covers. simpl.
  intros H1 H2. rewrite !andb_True in H1, H2. rewrite !Is_true_true, !Z.leb_le in H1, H2.
  destruct (Z.leb_spec x1 x2), (Z.leb_spec y1 y2); simpl; try reflexivity.
  rewrite (chk_int_Some (x2 - x1)) by lia. cbn [mbind option_bind].
  rewrite (chk_int_Some (w2 + (x2 - x1))) by lia. cbn [mbind option_bind].
  rewrite (chk_int_Some (y2 - y1)) by lia. cbn [mbind option_bind].
  rewrite (chk_int_Some (h2 + (y2 - y1))) by lia. cbn [mbind option_bind].
  destruct (Z.leb_spec (w2 + (x2 - x1)) w1), (Z.leb_spec (x2 + w2) (x1 + w1)); simpl; try lia;
    try reflexivity.
  destruct (Z.leb_spec (h2 + (y2 - y1)) h1), (Z.leb_spec (y2 + h2) (y1 + h1)); lia || reflexivity.
Qed.

Lemma covers_pixels r1 r2 p : covers r1 r2 -> in_rect r2 p -> in_rect r1 p.
Proof.
  destruct r1 as [x1 y1 w1 h1], r2 as [x2 y2 w2 h2], p as [px py]. unfold covers, in_rect. simpl.
  rewrite !andb_True, !Is_true_true, !Z.leb_le, !Z.ltb_lt. lia.
Qed.

(** ** The order of the updates *)

(** The windows that [avbox_window_paint] updates, in order, when it is
    called in turn on every window of a part [l] of the stack (lowest
    first): a window that one above it covers is skipped, any other is
    updated and everything above it is painted again. *)
Section Order.
Context (R : Z -> avbox_rect).

Definition covered (w : Z) (ds : list Z) : bool := existsb (fun d => covers (R d) (R w)) ds.

Fixpoint all_updates (l : list Z) : list Z :=
  match l with
  | [] => []
  | w :: ds => (if covered w ds then [] else w :: all_updates ds) ++ all_updates ds
  end.

(** Painting one window, given the windows above it. *)
Definition top_updates (w : Z) (ds : list Z) : list Z :=
  if covered w ds then [] else w :: all_updates ds.

(** The last window of a list that holds the pixel: for a stack, the one
    that is seen there; for a list of updates, the one whose pixel stays. *)
Definition seen (p : Z * Z) (l : list Z) : option Z := last (filter (fun w => in_rect (R w) p) l).

Lemma seen_app p l k : seen p (l ++ k) = match seen p k with Some w => Some w | None => seen p l end.
Proof. unfold seen. rewrite filter_app, last_app. by destruct (last (filter _ k)). Qed.

Lemma seen_cons p w l :
  seen p (w :: l) = match seen p l with Some d => Some d | None => if in_rect (R w) p then Some w else None end.
Proof.
  change (w :: l) with ([w] ++ l). rewrite seen_app. destruct (seen p l); [done|].
  unfold seen. rewrite filter_cons. by destruct (in_rect (R w) p).
Qed.

Lemma seen_None p l : seen p l = None <-> (forall w, w ∈ l -> in_rect (R w) p = false).
Proof.
  unfold seen. rewrite last_None. induction l as [|w l IH]; [set_solver|].
  rewrite filter_cons. destruct (in_rect (R w) p) eqn:E; simpl.
  - split; [done|]. intros H. specialize (H w). rewrite E in H. discriminate H; set_solver.
  - rewrite IH. set_solver.
Qed.

Lemma seen_elem p l w : seen p l = Some w -> w ∈ l /\ in_rect (R w) p.
Proof.
  unfold seen. intros H. apply last_Some_elem_of in H. apply list_elem_of_filter in H. by destruct H.
Qed.

Lemma covered_seen p w ds : covered w ds -> in_rect (R w) p -> seen p ds <> None.
Proof.
  unfold covered. intros Hc Hp Hn. apply existb_True, Exists_exists in Hc as (d & Hd & Hc).
  rewrite seen_None in Hn. specialize (Hn d Hd). pose proof (covers_pixels _ _ _ Hc Hp). by rewrite Hn in H.
Qed.

Lemma seen_all_updates p l : seen p (all_updates l) = seen p l.
Proof.
  induction l as [|w ds IH]; [done|]. simpl. rewrite seen_app, seen_cons, IH.
  destruct (seen p ds) eqn:E; [done|]. destruct (covered w ds) eqn:Hc.
  - destruct (in_rect (R w) p) eqn:Hp; [|done].
    exfalso. by apply (covered_seen p w ds); [rewrite Hc|rewrite Hp|].
  - rewrite seen_cons, IH. destruct (in_rect (R w) p); congruence.
Qed.

Lemma seen_top_updates p w ds :
  seen p (top_updates w ds) = if covered w ds then None else seen p (w :: ds).
Proof.
  unfold top_updates. destruct (covered w ds); [done|]. by rewrite !seen_cons, seen_all_updates.
Qed.

(** How often the windows of a stack in which no window is covered are
    updated. *)
Lemma all_updates_length l :
  (forall k w ds, l = k ++ w :: ds -> covered w ds = false) ->
  Z.of_nat (length (all_updates l)) = 2 ^ Z.of_nat (length l) - 1.
Proof.
  induction l as [|w ds IH]; intros H; [done|]. simpl all_updates.
  rewrite (H [] w ds eq_refl), length_app. cbn [length]. rewrite (Nat2Z.inj_succ (length ds)), Z.pow_succ_r by lia.
  assert (Z.of_nat (length (all_updates ds)) = 2 ^ Z.of_nat (length ds) - 1) as E.
  { apply IH. intros k d e ->. apply (H (w :: k)). done. }
  simpl length. lia.
Qed.

Lemma all_updates_elem l w : w ∈ all_updates l -> w ∈ l.
Proof.
  induction l as [|x ds IH]; [done|]. simpl. destruct (covered x ds); set_solver.
Qed.

End Order.
