(* ===== verification/Painting.v ===== *)
(** * What the window system shows (src/lib/ui/video.c)

    The invariant of the window heap and of the stack, that every operation
    keeps it, and what a repaint does: the calls it makes are a sequence of
    blocks, one per updated window, and at every pixel the last window
    updated is the topmost visible one. *)

From S2P Require Import Prelude LinkedList Dispatch Input Windows.

Open Scope Z_scope.

(** ** States that differ only in what painting changes *)

Definition erase (x : avbox_window) : avbox_window :=
  with_dirty false (with_decor_dirty false (with_damaged false x)).

Definition same (st st' : video) : Prop :=
  erase <$> wins st = erase <$> wins st' /\ window_stack st = window_stack st' /\
  default_font_height st = default_font_height st' /\ input st = input st'.

#[export] Instance same_equivalence : Equivalence same.
Proof.
  split.
  - by intros st.
  - intros st st' (? & ? & ? & ?). by repeat split.
  - intros a b c (? & ? & ? & ?) (? & ? & ? & ?). repeat split; congruence.
Qed.

Lemma same_emit e st : same st (emit e st).
Proof. by repeat split. Qed.

Lemma window_lookup st st' w win :
  same st st' -> wins st !! w = Some win ->
  exists win', wins st' !! w = Some win' /\ erase win' = erase win.
Proof.
  intros (H & _) Hw. assert ((erase <$> wins st) !! w = Some (erase win)) as E by (by rewrite lookup_fmap, Hw).
  rewrite H, lookup_fmap in E. destruct (wins st' !! w) as [win'|] eqn:E'; [|done].
  exists win'. split; [done|]. cbn [fmap option_fmap option_map] in E. congruence.
Qed.

(** A store that painting makes. *)
Lemma same_modify st w win f :
  wins st !! w = Some win -> (forall x, erase (f x) = erase x) ->
  exists st', modify w f st = Some st' /\ same st st' /\ log st' = log st.
Proof.
  intros Hw Hf. unfold modify. rewrite Hw. eexists; split; [done|]. split; [|done]. repeat split; simpl.
  rewrite fmap_insert, Hf, <- fmap_insert. by rewrite insert_id.
Qed.

(** The fields that painting leaves alone. *)
Lemma erase_fields x y :
  erase x = erase y ->
  surface x = surface y /\ object x = object y /\ content_window x = content_window y /\
  parent x = parent y /\ node_list x = node_list y /\ paint x = paint y /\ handler x = handler y /\
  rect x = rect y /\ visible x = visible y /\ flags x = flags y /\
  draw_context x = draw_context y /\ children x = children y.
Proof. destruct x, y. unfold erase, with_dirty, with_decor_dirty, with_damaged. simpl. intros [=]; subst. by repeat split. Qed.

(** ** The invariant *)

Definition child (st : video) (w c : Z) : Prop :=
  exists win, wins st !! w = Some win /\ c ∈ children win.

(** Windows that a painting can reach; a window is detached between its
    DESTROY and its CLEANUP message. *)
Definition attached (st : video) (w : Z) : Prop := exists l, child st l w.

Record wf (st : video) : Prop := {
  wf_root : exists r, wins st !! root_window = Some r /\ visible r = true /\ parent r = None /\
    content_window r = root_window /\ node_list r = None /\ paint r <> Some PaintDecor /\ rect_ok (rect r);
  (** the stack holds the root window at the bottom and, above it, exactly
      the visible top-level windows, each once *)
  wf_stack : exists tops, window_stack st = root_window :: tops /\ NoDup (root_window :: tops);
  wf_tops : forall w, w ∈ window_stack st -> w <> root_window -> child st root_window w /\
    exists win, wins st !! w = Some win /\ visible win = true;
  wf_visible : forall w win, wins st !! w = Some win -> parent win = Some root_window ->
    visible win = true -> w ∈ window_stack st;
  wf_toplevel : forall w win, wins st !! w = Some win -> parent win = Some root_window ->
    rect_ok (rect win) /\ hasflag (flags win) AVBOX_WNDFLAGS_SUBWINDOW = false /\
    (hasflag (flags win) AVBOX_WNDFLAGS_INPUT -> object win <> None);
  (** every node is on the list it says, once; the top-level windows are
      the children of the root *)
  wf_nodup : forall w win, wins st !! w = Some win -> NoDup (children win);
  wf_children : forall w c, child st w c -> exists cw, wins st !! c = Some cw /\ node_list cw = Some w;
  wf_parents : forall w win, wins st !! w = Some win ->
    (parent win = Some root_window <-> node_list win = Some root_window);
  wf_content : forall w win, wins st !! w = Some win -> attached st w -> content_window win <> w ->
    child st w (content_window win);
  wf_leaf : forall w win cw, wins st !! w = Some win -> attached st w -> content_window win <> w ->
    wins st !! content_window win = Some cw ->
    content_window cw = content_window win /\ (object win = None <-> object cw = None);
  wf_decor : forall w win, wins st !! w = Some win -> attached st w -> paint win = Some PaintDecor ->
    content_window win <> w;
  (** the subwindows form trees *)
  wf_rank : exists rank : Z -> nat, forall w c, w <> root_window -> child st w c -> (rank c < rank w)%nat;
  wf_input : exists objs, Endpoints.stack_rep (input st) objs;
  wf_font : 16 <= default_font_height st <= 32;
}.

(** *** Changes that leave the trees alone *)

(** The fields of a window that fix the trees and the geometry. *)
Definition skeleton (x : avbox_window) :=
  (object x, content_window x, parent x, node_list x, rect x, flags x, children x).

Definition framed (st st' : video) : Prop :=
  skeleton <$> wins st = skeleton <$> wins st' /\ default_font_height st = default_font_height st' /\
  (forall w win', wins st' !! w = Some win' -> paint win' = Some PaintDecor ->
     exists win, wins st !! w = Some win /\ paint win = Some PaintDecor).

Lemma skeleton_fields x y :
  skeleton x = skeleton y ->
  object x = object y /\ content_window x = content_window y /\ parent x = parent y /\
  node_list x = node_list y /\ rect x = rect y /\ flags x = flags y /\ children x = children y.
Proof. unfold skeleton. intros [=]. by repeat split. Qed.

Lemma skeleton_lookup (m m' : gmap Z avbox_window) w win :
  skeleton <$> m = skeleton <$> m' -> m !! w = Some win ->
  exists win', m' !! w = Some win' /\ skeleton win' = skeleton win.
Proof.
  intros H Hw. assert ((skeleton <$> m) !! w = Some (skeleton win)) as E by (by rewrite lookup_fmap, Hw).
  rewrite H, lookup_fmap in E. destruct (m' !! w) as [win'|] eqn:E'; [|done].
  exists win'. split; [done|]. cbn [fmap option_fmap option_map] in E. congruence.
Qed.

Lemma framed_child st st' w c : framed st st' -> child st w c <-> child st' w c.
Proof.
  intros (Hs & _). split; intros (win & Hw & Hc).
  - destruct (skeleton_lookup _ _ _ _ Hs Hw) as (win' & ? & E). apply skeleton_fields in E.
    exists win'. split; [done|]. destruct E as (_ & _ & _ & _ & _ & _ & ->). done.
  - destruct (skeleton_lookup _ _ _ _ (symmetry Hs) Hw) as (win' & ? & E). apply skeleton_fields in E.
    exists win'. split; [done|]. destruct E as (_ & _ & _ & _ & _ & _ & ->). done.
Qed.

Lemma framed_attached st st' w : framed st st' -> attached st w <-> attached st' w.
Proof. intros Hs. unfold attached. by setoid_rewrite (framed_child st st' _ _ Hs). Qed.

(** Looks a window of the new state up in the old one. *)
Ltac frame_back Hs H :=
  let win0 := fresh "win0" in let E0 := fresh "E" in let H0 := fresh "H0" in
  destruct (skeleton_lookup _ _ _ _ (symmetry (proj1 Hs)) H) as (win0 & H0 & E0);
  let E1 := fresh "E" in let E2 := fresh "E" in let E3 := fresh "E" in let E4 := fresh "E" in
  let E5 := fresh "E" in let E6 := fresh "E" in let E7 := fresh "E" in
  apply skeleton_fields in E0 as (E1 & E2 & E3 & E4 & E5 & E6 & E7);
  rewrite <- ?E1, <- ?E2, <- ?E3, <- ?E4, <- ?E5, <- ?E6, <- ?E7.

(** What has to be shown again when only paint handlers, visibility, the
    stack and the input change. *)
Lemma wf_frame st st' :
  framed st st' -> wf st ->
  (exists r, wins st' !! root_window = Some r /\ visible r = true) ->
  (exists tops, window_stack st' = root_window :: tops /\ NoDup (root_window :: tops)) ->
  (forall w, w ∈ window_stack st' -> w <> root_window -> child st root_window w /\
     exists win, wins st' !! w = Some win /\ visible win = true) ->
  (forall w win, wins st' !! w = Some win -> parent win = Some root_window ->
     visible win = true -> w ∈ window_stack st') ->
  (exists objs, Endpoints.stack_rep (input st') objs) -> wf st'.
Proof.
  intros Hs [Hroot _ _ _ Htl Hnd Hch Hpa Hco Hle Hde Hra _ Hfo] Hroot' Hstack Htops Hvis Hin.
  pose proof (fun w c => framed_child _ _ w c Hs) as Hc. pose proof (fun w => framed_attached _ _ w Hs) as Ha.
  split; try done.
  - destruct Hroot' as (r & Hr & Hv). exists r. destruct Hroot as (r0 & Hr0 & _ & ? & ? & ? & ? & ?).
    destruct (skeleton_lookup _ _ _ _ (symmetry (proj1 Hs)) Hr) as (r1 & Hr1 & E).
    rewrite Hr0 in Hr1. apply (inj Some) in Hr1 as <-. apply skeleton_fields in E as (_ & <- & <- & <- & <- & _).
    split_and!; try done. intros Hp. destruct Hs as (_ & _ & Hd). destruct (Hd _ _ Hr Hp) as (? & ? & ?). congruence.
  - intros w Hw Hn. destruct (Htops w Hw Hn) as [? ?]. split; [|done]. by apply Hc.
  - intros w win Hw. frame_back Hs Hw. by apply (Htl w).
  - intros w win Hw. frame_back Hs Hw. eauto.
  - intros w c Hwc. apply Hc in Hwc. destruct (Hch w c Hwc) as (cw & Hcw & ?).
    destruct (skeleton_lookup _ _ _ _ (proj1 Hs) Hcw) as (win' & ? & (_ & _ & _ & E & _)%skeleton_fields).
    exists win'. by rewrite E.
  - intros w win Hw. frame_back Hs Hw. eauto.
  - intros w win Hw Hat. frame_back Hs Hw. intros. apply Hc. eapply Hco; [done|by apply Ha|done].
  - intros w win cw Hw Hat. frame_back Hs Hw. intros Hcn Hcw. frame_back Hs Hcw. eapply Hle; [done|by apply Ha|done..].
  - intros w win Hw Hat Hp. pose proof Hw as Hw'. frame_back Hs Hw.
    destruct Hs as (_ & _ & Hd). destruct (Hd _ _ Hw' Hp) as (? & ? & ?). simplify_eq. eapply Hde; [done|by apply Ha|done].
  - destruct Hra as (rank & Hr). exists rank. intros w c ? ?. apply Hr; [done|]. by apply Hc.
  - by destruct Hs as (_ & <- & _).
Qed.

Lemma same_framed st st' : same st st' -> framed st st'.
Proof.
  intros Hs. destruct (Hs) as (Hw & _ & Hf & _). split_and!; [|done|].
  - assert (forall x, skeleton (erase x) = skeleton x) as E by done.
    apply map_eq. intros w. apply (f_equal (fun m => skeleton <$> (m !! w))) in Hw.
    cbv beta in Hw. rewrite !lookup_fmap in Hw. rewrite !lookup_fmap.
    destruct (wins st !! w), (wins st' !! w); simpl in *; done.
  - intros w win' Hw' Hp. destruct (window_lookup _ _ _ _ (symmetry Hs) Hw') as (win & ? & E).
    exists win. split; [done|]. apply erase_fields in E as (_ & _ & _ & _ & _ & -> & _). done.
Qed.

Lemma same_child st st' w c : same st st' -> child st w c -> child st' w c.
Proof. intros Hs. by apply framed_child, same_framed. Qed.

(** Looks a window of [st] up in [st'] and compares its fields. *)
Ltac same_forth Hs H :=
  let win0 := fresh "win0" in let E0 := fresh "E" in let H0 := fresh "H0" in
  destruct (window_lookup _ _ _ _ Hs H) as (win0 & H0 & E0);
  apply erase_fields in E0 as (? & ? & ? & ? & ? & ? & ? & ? & ? & ? & ? & ?).

Lemma wf_same st st' : same st st' -> wf st -> wf st'.
Proof.
  intros Hs Hwf. destruct (Hs) as (_ & Est & _ & Ein). apply (wf_frame st st'); [by apply same_framed|done|..].
  - destruct (wf_root _ Hwf) as (r & Hr & ?). same_forth Hs Hr. eexists; split; [done|]. intuition congruence.
  - rewrite <- Est. apply (wf_stack _ Hwf).
  - rewrite <- Est. intros w Hw Hn. destruct (wf_tops _ Hwf w Hw Hn) as (? & win & Hwin & ?).
    split; [done|]. same_forth Hs Hwin. eexists; split; [done|]. congruence.
  - rewrite <- Est. intros w win Hw ??. same_forth (symmetry Hs) Hw. eapply (wf_visible _ Hwf); [done|congruence..].
  - rewrite <- Ein. apply (wf_input _ Hwf).
Qed.

(** ** Small facts about the stack *)

Lemma above_app w l ds : w ∉ l -> above w (l ++ w :: ds) = Some ds.
Proof.
  induction l as [|x l IH]; intros H; simpl; [by rewrite Z.eqb_refl|].
  destruct (Z.eqb_spec x w); [set_solver|]. apply IH. set_solver.
Qed.

Definition rect_of (st : video) (w : Z) : avbox_rect :=
  match wins st !! w with Some win => rect win | None => Rect 0 0 0 0 end.

Lemma same_rect_of st st' w : same st st' -> rect_of st w = rect_of st' w.
Proof.
  intros Hs. unfold rect_of. destruct (wins st !! w) as [win|] eqn:E.
  - same_forth Hs E. rewrite H0. congruence.
  - destruct (wins st' !! w) as [win|] eqn:E'; [|done]. same_forth (symmetry Hs) E'. congruence.
Qed.

(** The ranks can be taken below the number of windows. *)
Lemma rank_bounded st :
  wf st -> exists rank : Z -> nat, forall w c, w <> root_window -> child st w c -> 
    (rank c < rank w /\ rank w < size (wins st))%nat.
Proof.
  intros Hwf. destruct (wf_rank _ Hwf) as (rank & Hr).
  pose (below w := filter (fun x => (rank x < rank w)%nat) (dom (wins st))).
  exists (fun w => size (below w)). intros w c Hn Hc. specialize (Hr w c Hn Hc).
  destruct (wf_children _ Hwf w c Hc) as (cw & Hcw & _). destruct Hc as (win & Hw & Hc).
  split.
  - apply subset_size. split; [unfold below; set_solver by lia|].
    intros H. specialize (H c). unfold below in H. rewrite !elem_of_filter in H.
    apply elem_of_dom_2 in Hcw. destruct H; [done|lia].
  - rewrite <- (size_dom (wins st)). apply subset_size. split; [unfold below; set_solver|].
    intros H. specialize (H w). unfold below in H. rewrite !elem_of_filter in H.
    apply elem_of_dom_2 in Hw. destruct H; [done|lia].
Qed.

(** ** The calls of a repaint *)

(** What the painting of [w] does before [w] itself is updated: it draws
    [w] and windows inside it, and updates windows inside it. *)
Definition inside (st : video) (w : Z) (e : event) : Prop :=
  match e with
  | EvUpdate c _ _ => tc (child st) w c
  | EvDraw c _ _ | EvDecor c => rtc (child st) w c
  | _ => False
  end.

(** One block of calls per updated window. *)
Inductive blocks (st : video) : list event -> list Z -> Prop :=
| blocks_nil : blocks st [] []
| blocks_cons w win pre evs ws :
    wins st !! w = Some win -> Forall (inside st w) pre -> blocks st evs ws ->
    blocks st (pre ++ EvUpdate w (blitflags win) false :: evs) (w :: ws).

Lemma blocks_app st evs ws evs' ws' :
  blocks st evs ws -> blocks st evs' ws' -> blocks st (evs ++ evs') (ws ++ ws').
Proof.
  induction 1 as [|w win pre evs ws ? ? ? IH]; intros H'; [done|].
  rewrite <- app_assoc. simpl. econstructor; [done..|]. by apply IH.
Qed.

Lemma inside_child st w c e :
  child st w c -> inside st c e \/ (exists f u, e = EvUpdate c f u) -> inside st w e.
Proof.
  intros Hc [H|(f & u & ->)]; [|by apply tc_once].
  destruct e; simpl in *; try done; (by eapply rtc_l) || (by eapply tc_l).
Qed.

(** Painting with [self] stays inside [w] and ends well, from every state
    of the shape of [st0]. *)
Definition paints (st0 : video) (self : video -> Z -> bool -> option video) (w : Z) : Prop :=
  forall st update, same st0 st -> exists st' evs,
    self st w update = Some st' /\ same st0 st' /\ log st' = log st ++ evs /\
    Forall (fun e => inside st0 w e \/ exists f u, e = EvUpdate w f u) evs.

Lemma paint_children_spec st0 self w cs update st :
  same st0 st -> (forall c, c ∈ cs -> child st0 w c /\ paints st0 self c) ->
  exists st' evs, paint_children self cs update st = Some st' /\ same st0 st' /\
    log st' = log st ++ evs /\ Forall (inside st0 w) evs.
Proof.
  revert st. induction cs as [|c cs IH]; intros st Hs Hc.
  - exists st, []. by rewrite app_nil_r.
  - simpl. destruct (Hc c) as [Hch Hp]; [set_solver|].
    destruct (Hp st update Hs) as (st1 & e1 & -> & Hs1 & Hl1 & Hf1). cbn [mbind option_bind].
    destruct (IH st1 Hs1) as (st2 & e2 & -> & Hs2 & Hl2 & Hf2); [set_solver|].
    exists st2, (e1 ++ e2). split_and!; [done..|by rewrite Hl2, Hl1, app_assoc|].
    apply Forall_app; split; [|done]. eapply Forall_impl; [done|]. intros e. by apply inside_child.
Qed.

(** *** Subwindows *)

Lemma child_not_root st w c : wf st -> child st w c -> c <> root_window.
Proof.
  intros Hwf Hc ->. destruct (wf_children _ Hwf w _ Hc) as (cw & Hcw & E).
  destruct (wf_root _ Hwf) as (r & Hr & _ & _ & _ & E' & _). congruence.
Qed.

(** *** Top-level windows *)

Lemma top_lookup st w :
  wf st -> w ∈ window_stack st -> w <> root_window ->
  exists win, wins st !! w = Some win /\ parent win = Some root_window /\ visible win = true /\ rect_ok (rect win).
Proof.
  intros Hwf Hw Hn. destruct (wf_tops _ Hwf w Hw Hn) as (Hc & win & Hl & Hv).
  assert (parent win = Some root_window) as Hp.
  { apply (wf_parents _ Hwf w win Hl). destruct (wf_children _ Hwf _ _ Hc) as (? & ? & ?). congruence. }
  exists win. repeat split; [done..|]. by destruct (wf_toplevel _ Hwf w win Hl Hp).
Qed.

(** The windows above a window of the stack are not the root. *)
Lemma window_split st l w ds :
  wf st -> window_stack st = l ++ w :: ds ->
  w ∉ l /\ w ∉ ds /\ root_window ∉ ds /\ (forall d, d ∈ ds -> d ∈ window_stack st).
Proof.
  intros Hwf E. destruct (wf_stack _ Hwf) as (tops & E' & Hnd). rewrite <- E', E in Hnd.
  rewrite NoDup_app, NoDup_cons in Hnd. destruct Hnd as (? & Hd & ? & ?).
  split_and!; [set_solver..| |rewrite E; set_solver].
  destruct l as [|x l]; rewrite E' in E; simplify_eq/=; [done|].
  intros Hr. apply (Hd root_window); set_solver.
Qed.

Lemma uncovered_spec st0 st ds r :
  wf st0 -> same st0 st -> rect_ok r ->
  (forall d, d ∈ ds -> d ∈ window_stack st0 /\ d <> root_window) ->
  uncovered (wins st) ds r = Some (negb (existsb (fun d => covers (rect_of st0 d) r) ds)).
Proof.
  intros Hwf Hs Hr. induction ds as [|d ds IH]; intros Hd; [done|].
  destruct (top_lookup st0 d) as (dw & Hdw & _ & _ & Hok); [done|apply Hd; set_solver..|].
  same_forth Hs Hdw. simpl. rewrite H0. cbn [mbind option_bind].
  replace (rect win0) with (rect dw) by congruence. rewrite rect_covers_ok by done. cbn [mbind option_bind].
  unfold rect_of at 1. rewrite Hdw. destruct (covers (rect dw) r); simpl; [done|]. apply IH. set_solver.
Qed.

Definition paints_top (st0 : video) (self : video -> Z -> bool -> option video) (w : Z) (ds : list Z) : Prop :=
  forall st, same st0 st -> exists st' evs,
    self st w false = Some st' /\ same st0 st' /\ log st' = log st ++ evs /\
    blocks st0 evs (top_updates (rect_of st0) w ds).

(** A window that no window above covers never takes the [break]. *)
Definition repaints (st0 : video) (self : video -> Z -> bool -> option video) (ds : list Z) : Prop :=
  forall st w win, same st0 st -> wins st0 !! w = Some win -> rect_ok (rect win) ->
    covered (rect_of st0) w ds = false -> exists st' evs,
    repaint_above self w ds false st = Some st' /\ same st0 st' /\ log st' = log st ++ evs /\
    blocks st0 evs (all_updates (rect_of st0) ds).

(** *** The root window *)

(** The top-level windows updated when one child of the root is painted. *)
Definition child_updates (st : video) (c : Z) : list Z :=
  match wins st !! c with
  | Some win => if visible win then top_updates (rect_of st) c (default [] (above c (window_stack st))) else []
  | None => []
  end.

Definition root_children (st : video) : list Z :=
  match wins st !! root_window with Some r => children r | None => [] end.

Definition root_updates (st : video) : list Z := concat (map (child_updates st) (root_children st)).

(** The calls of one repaint of the screen: the root's paint handler at
    most, the blocks of the top-level windows, the update of the root. *)
Definition repainted (st st' : video) : Prop :=
  same st st' /\ exists r pre evs, wins st !! root_window = Some r /\
    log st' = log st ++ pre ++ evs ++ [EvUpdate root_window (blitflags r) false] /\
    Forall (fun e => exists fn ctx, e = EvDraw root_window fn ctx) pre /\
    blocks st evs (root_updates st).

(** ** At every pixel the topmost window is painted last *)

Lemma seen_concat_any R p (f : Z -> list Z) cs t :
  (forall c, c ∈ cs -> seen R p (f c) = None \/ seen R p (f c) = Some t) ->
  seen R p (concat (map f cs)) = None \/ seen R p (concat (map f cs)) = Some t.
Proof.
  induction cs as [|c cs IH]; intros Hall; [by left|]. simpl. rewrite seen_app.
  destruct IH as [->| ->]; [set_solver| |by right]. apply Hall. set_solver.
Qed.

Lemma seen_concat R p (f : Z -> list Z) cs t :
  (forall c, c ∈ cs -> seen R p (f c) = None \/ seen R p (f c) = Some t) ->
  (exists c, c ∈ cs /\ seen R p (f c) = Some t) -> seen R p (concat (map f cs)) = Some t.
Proof.
  intros Hall (c & (l & k & ->)%list_elem_of_split & Ec). rewrite map_app, concat_app, seen_app. simpl.
  rewrite seen_app, Ec. destruct (seen_concat_any R p f k t) as [->| ->]; [set_solver|done..].
Qed.

(** The window seen at a pixel: the topmost visible window there. *)
Definition topmost (st : video) (p : Z * Z) : option Z :=
  seen (rect_of st) p (filter (fun w => w <> root_window) (window_stack st)).

Lemma filter_suffix l w ds :
  root_window ∉ ds -> w <> root_window ->
  filter (fun x => x <> root_window) (l ++ w :: ds) = filter (fun x => x <> root_window) l ++ w :: ds.
Proof.
  intros Hr Hw. rewrite filter_app, filter_cons, decide_True by done. f_equal. f_equal.
  apply filter_all. intros x Hx ->. done.
Qed.

Lemma child_updates_seen st c p t :
  wf st -> topmost st p = Some t -> child st root_window c ->
  seen (rect_of st) p (child_updates st c) = None \/ seen (rect_of st) p (child_updates st c) = Some t.
Proof.
  intros Hwf Ht Hc. destruct (wf_children _ Hwf _ _ Hc) as (cw & Hcw & Hl). unfold child_updates. rewrite Hcw.
  destruct (visible cw) eqn:Hv; [|by left].
  assert (parent cw = Some root_window) as Hp by (by apply (wf_parents _ Hwf c)).
  pose proof (wf_visible _ Hwf c cw Hcw Hp Hv) as Hin. apply list_elem_of_split in Hin as (l & ds & Est).
  destruct (window_split _ _ _ _ Hwf Est) as (Hcl & _ & Hrd & _). pose proof (child_not_root _ _ _ Hwf Hc).
  rewrite Est, above_app by done. simpl. rewrite seen_top_updates. destruct (covered _ c ds); [by left|].
  unfold topmost in Ht. rewrite Est, filter_suffix, seen_app in Ht by done.
  destruct (seen _ p (c :: ds)); auto.
Qed.

Lemma seen_split R p l t :
  seen R p l = Some t -> exists k ds, l = k ++ t :: ds /\ seen R p ds = None /\ in_rect (R t) p.
Proof.
  induction l as [|w l IH]; [done|]. rewrite seen_cons. destruct (seen R p l) as [u|] eqn:E.
  - intros [= ->]. destruct (IH eq_refl) as (k & ds & -> & ? & ?). by exists (w :: k), ds.
  - destruct (in_rect (R w) p) eqn:Ei; [|done]. intros [= ->]. exists [], l. by rewrite Ei.
Qed.

Lemma root_updates_seen st p t :
  wf st -> topmost st p = Some t -> seen (rect_of st) p (root_updates st) = Some t.
Proof.
  intros Hwf Ht. destruct (wf_root _ Hwf) as (r & Hr & _).
  assert (root_children st = children r) as Erc by (unfold root_children; by rewrite Hr).
  unfold root_updates. apply seen_concat.
  - intros c Hc. apply child_updates_seen; [done..|]. exists r. by rewrite <- Erc.
  - destruct (seen_elem _ _ _ _ Ht) as (Hin & Hp). apply list_elem_of_filter in Hin as (Hn & Hin).
    destruct (top_lookup st t Hwf Hin Hn) as (tw & Htw & Hpar & Hv & _). exists t.
    destruct (wf_tops _ Hwf t Hin Hn) as [Hc _]. destruct Hc as (r' & ? & ?). simplify_eq. rewrite Erc. split; [done|].
    unfold child_updates. rewrite Htw, Hv. apply list_elem_of_split in Hin as (l & ds & Est).
    destruct (window_split _ _ _ _ Hwf Est) as (Hcl & Htd & Hrd & _).
    rewrite Est, above_app by done. simpl. rewrite seen_top_updates.
    assert (seen (rect_of st) p ds = None) as Ends.
    { unfold topmost in Ht. rewrite Est, filter_suffix, seen_app, seen_cons in Ht by done.
      destruct (seen _ p ds) as [d|] eqn:E; [|done]. simplify_eq.
      apply seen_elem in E as [? _]. done. }
    destruct (covered _ t ds) eqn:Ec.
    + exfalso. apply (covered_seen (rect_of st) p t ds); [by rewrite Ec|done..].
    + rewrite seen_cons, Ends. by destruct (in_rect (rect_of st t) p).
Qed.

Lemma root_updates_elem st w :
  wf st -> w ∈ root_updates st -> w ∈ window_stack st /\ w <> root_window.
Proof.
  intros Hwf Hw. unfold root_updates in Hw. apply list_elem_of_In, in_concat in Hw as (l & Hl & Hw).
  apply in_map_iff in Hl as (c & <- & Hc). apply list_elem_of_In in Hw, Hc.
  destruct (wf_root _ Hwf) as (r & Hr & _). unfold root_children in Hc. rewrite Hr in Hc.
  assert (child st root_window c) as Hch by by exists r. destruct (wf_children _ Hwf _ _ Hch) as (cw & Hcw & Hl).
  unfold child_updates in Hw. rewrite Hcw in Hw. destruct (visible cw) eqn:Hv; [|set_solver].
  assert (parent cw = Some root_window) as Hp by (by apply (wf_parents _ Hwf c)).
  pose proof (wf_visible _ Hwf c cw Hcw Hp Hv) as Hin. pose proof Hin as (k & ds & Est)%list_elem_of_split.
  destruct (window_split _ _ _ _ Hwf Est) as (Hcl & _ & Hrd & Hds).
  rewrite Est, above_app in Hw by done. simpl in Hw. unfold top_updates in Hw.
  destruct (covered _ c ds); [set_solver|]. apply elem_of_cons in Hw as [->|Hw].
  - split; [done|]. by apply (child_not_root st root_window).
  - apply all_updates_elem in Hw. split; [auto|]. intros ->. done.
Qed.

(** ** What is on the screen *)

Lemma framed_rect_of st st' w : framed st st' -> rect_of st w = rect_of st' w.
Proof.
  intros (Hs & _). unfold rect_of. destruct (wins st !! w) as [win|] eqn:E.
  - destruct (skeleton_lookup _ _ _ _ Hs E) as (win' & -> & (_ & _ & _ & _ & -> & _)%skeleton_fields). done.
  - destruct (wins st' !! w) as [win|] eqn:E'; [|done].
    destruct (skeleton_lookup _ _ _ _ (symmetry Hs) E') as (? & ? & _). congruence.
Qed.

Lemma framed_tc st st' w c : framed st st' -> tc (child st) w c -> tc (child st') w c.
Proof.
  intros Hs. induction 1 as [?? H|??? H ? IH]; [apply tc_once|eapply tc_l; [|exact IH]];
    by apply (framed_child _ _ _ _ Hs).
Qed.

Lemma framed_inside st st' w e : framed st st' -> inside st w e -> inside st' w e.
Proof.
  intros Hs. destruct e as [c ? ?|c| |c ? ?| | | |]; simpl; try done; [intros Hc..|by apply framed_tc].
  all: apply rtc_tc in Hc as [->|Hc]; [apply rtc_refl|by eapply tc_rtc, framed_tc].
Qed.

Lemma blocks_framed st st' evs ws : framed st st' -> blocks st evs ws -> blocks st' evs ws.
Proof.
  intros Hs. induction 1 as [|w win pre evs ws Hw Hp _ IH]; [constructor|].
  destruct (skeleton_lookup _ _ _ _ (proj1 Hs) Hw) as (win' & Hw' & (_ & _ & _ & _ & _ & E & _)%skeleton_fields).
  replace (blitflags win) with (blitflags win') by (unfold blitflags; by rewrite E).
  constructor; [done| |done]. eapply Forall_impl; [done|]. intros e. by apply framed_inside.
Qed.

Lemma seen_ext R R' p l : (forall w, R w = R' w) -> seen R p l = seen R' p l.
Proof.
  intros H. induction l as [|w l IH]; [done|]. by rewrite !seen_cons, IH, H.
Qed.

(** The calls of one repaint of the screen, and of several. *)
Definition repaint_log (st : video) (evs : list event) (ws : list Z) : Prop :=
  exists r pre bl, wins st !! root_window = Some r /\
    evs = pre ++ bl ++ [EvUpdate root_window (blitflags r) false] /\
    Forall (fun e => exists fn ctx, e = EvDraw root_window fn ctx) pre /\
    blocks st bl ws /\ (forall w, w ∈ ws -> w ∈ window_stack st /\ w <> root_window).

Inductive repaint_logs (st : video) : list event -> Prop :=
| repaint_logs_nil : repaint_logs st []
| repaint_logs_cons evs ws rest : repaint_log st evs ws -> repaint_logs st rest -> repaint_logs st (evs ++ rest).

Lemma repaint_logs_app st l k : repaint_logs st l -> repaint_logs st k -> repaint_logs st (l ++ k).
Proof.
  induction 1 as [|evs ws rest He _ IH]; intros Hk; [done|]. rewrite <- app_assoc. econstructor; [done|]. by apply IH.
Qed.

Lemma repaint_log_framed st st' evs ws :
  framed st st' -> window_stack st = window_stack st' -> repaint_log st evs ws -> repaint_log st' evs ws.
Proof.
  intros Hf Est (r & pre & bl & Hr & -> & Hpre & Hb & Hin).
  destruct (skeleton_lookup _ _ _ _ (proj1 Hf) Hr) as (r' & Hr' & (_ & _ & _ & _ & _ & E & _)%skeleton_fields).
  exists r', pre, bl. rewrite <- Est. split_and!; [done| |done|by eapply blocks_framed|done].
  unfold blitflags. by rewrite E.
Qed.

Lemma repaint_logs_framed st st' evs :
  framed st st' -> window_stack st = window_stack st' -> repaint_logs st evs -> repaint_logs st' evs.
Proof.
  intros Hf Est. induction 1 as [|evs ws rest He _ IH]; [constructor|]. econstructor; [|done].
  by eapply repaint_log_framed.
Qed.

(** The calls since [st0] are repaints of the windows of [st], the last of
    which leaves, at every pixel some window of the stack holds, the topmost
    one. *)
Definition shows (st0 st : video) : Prop :=
  exists mid evs ws, log st = log st0 ++ mid ++ evs /\ repaint_logs st mid /\ repaint_log st evs ws /\
    (forall p t, topmost st p = Some t -> seen (rect_of st) p ws = Some t).

Lemma framed_trans st1 st2 st3 : framed st1 st2 -> framed st2 st3 -> framed st1 st3.
Proof.
  intros (? & ? & Hd) (? & ? & Hd'). split_and!; [congruence..|].
  intros w win Hw Hp. destruct (Hd' w win Hw Hp) as (? & Hw' & Hp'). eauto.
Qed.

Lemma shows_intro st0 st1 st2 st3 :
  wf st1 -> log st1 = log st0 -> repainted st1 st2 ->
  framed st2 st3 -> window_stack st2 = window_stack st3 -> log st3 = log st2 -> shows st0 st3.
Proof.
  intros Hwf Hl1 (Hs & r & pre & evs & Hr & Hl2 & Hpre & Hb) Hf Est Hl3.
  assert (framed st1 st3) as Hf13 by (eapply framed_trans; [by apply same_framed|done]).
  destruct (Hs) as (_ & Est1 & _).
  exists [], (pre ++ evs ++ [EvUpdate root_window (blitflags r) false]), (root_updates st1).
  split_and!; [by rewrite Hl3, Hl2, Hl1|constructor| |].
  - apply (repaint_log_framed st1); [done|congruence|]. exists r, pre, evs. split_and!; try done.
    intros w Hw. by apply root_updates_elem.
  - intros p t. unfold topmost. rewrite <- Est, <- Est1.
    rewrite <- !(seen_ext (rect_of st1) (rect_of st3)) by (intros; by apply framed_rect_of).
    by apply root_updates_seen.
Qed.

Lemma framed_refl st : framed st st.
Proof. split_and!; eauto. Qed.

(** *** Changes of the stack *)

(** The visibility of a top-level window and its place on the stack. *)
Lemma wf_restack st st' w win b tops :
  wf st -> wins st !! w = Some win -> child st root_window w ->
  wins st' = <[w := with_visible b win]> (wins st) -> default_font_height st' = default_font_height st ->
  window_stack st' = root_window :: tops -> NoDup (root_window :: tops) ->
  (forall x, x <> w -> x ∈ window_stack st' <-> x ∈ window_stack st) -> (w ∈ window_stack st' <-> b = true) ->
  (exists objs, Endpoints.stack_rep (input st') objs) -> framed st st' /\ wf st'.
Proof.
  intros Hwf Hw Hc Ew Ef Es Hnd Hx Hb Hin. pose proof (child_not_root _ _ _ Hwf Hc) as Hn.
  assert (framed st st') as Hf.
  { split_and!; [|done|].
    - rewrite Ew, fmap_insert. change (skeleton (with_visible b win)) with (skeleton win).
      rewrite <- fmap_insert. by rewrite insert_id.
    - intros x xw Hxw Hp. rewrite Ew, lookup_insert_Some in Hxw. destruct Hxw as [[<- <-]|[_ ?]]; eauto. }
  split; [done|]. apply (wf_frame st st'); [done..| | | | |done].
  - destruct (wf_root _ Hwf) as (r & Hr & Hv & _). exists r. split; [|done]. by rewrite Ew, lookup_insert_ne.
  - by exists tops.
  - intros x Hxs Hxn. destruct (decide (x = w)) as [->|Hxw].
    + split; [done|]. exists (with_visible b win). rewrite Ew, lookup_insert_eq. split; [done|]. by apply Hb.
    + apply Hx in Hxs; [|done]. destruct (wf_tops _ Hwf x Hxs Hxn) as (? & xw & ? & ?). split; [done|].
      exists xw. by rewrite Ew, lookup_insert_ne.
  - intros x xw Hxw Hp Hv. rewrite Ew, lookup_insert_Some in Hxw. destruct Hxw as [[<- <-]|[? Hxw]].
    + by apply Hb.
    + apply Hx; [done|]. by eapply (wf_visible _ Hwf).
Qed.

Lemma repainted_wf st st' : wf st -> repainted st st' -> wf st'.
Proof. intros Hwf [Hs _]. by apply (wf_same st). Qed.

Lemma wf_set_input st i objs : wf st -> Endpoints.stack_rep i objs -> wf (set_input i st).
Proof. intros [] Hi. split; try done. by exists objs. Qed.

(** The answer of [malloc] is a node that is not in use. *)
Definition fresh_node (mem : option loc) (st : video) : Prop :=
  match mem with Some p => p ∉ dom (Endpoints.nodes (input st)) | None => True end.

Lemma grab_rep mem o i objs :
  Endpoints.stack_rep i objs -> match mem with Some p => p ∉ dom (Endpoints.nodes i) | None => True end ->
  exists rc i' objs', Endpoints.avbox_input_grab mem o i = Some (rc, i') /\ Endpoints.stack_rep i' objs' /\
    (mem <> None -> head objs' = Some o).
Proof.
  intros Hi Hm. destruct (decide (o ∈ objs)) as [Ho|Ho].
  - destruct (Endpoints.grab_again i objs o mem Hi Ho) as (i' & ? & ?). by eexists _, _, _.
  - destruct mem as [p|].
    + destruct (Endpoints.grab_new i objs o p Hi Ho Hm) as (i' & ? & ?). by eexists _, _, _.
    + rewrite (Endpoints.grab_enomem i objs o Hi Ho). by eexists _, _, _.
Qed.

Lemma stack_remove_elem (l : list Z) w x : x ∈ filter (fun y => y <> w) l <-> x <> w /\ x ∈ l.
Proof. by rewrite list_elem_of_filter. Qed.

(** ** Destroying *)

(** No window that is painted has [w] as its content window. *)
Definition no_content (st : video) (w : Z) : Prop :=
  forall x xw, wins st !! x = Some xw -> attached st x -> x <> w -> content_window xw <> w.

(** What stays of every window when nodes are moved. *)
Definition core (x : avbox_window) :=
  (object x, content_window x, parent x, node_list x, rect x, flags x).

Lemma core_fields x y :
  core x = core y -> object x = object y /\ content_window x = content_window y /\ parent x = parent y /\
  node_list x = node_list y /\ rect x = rect y /\ flags x = flags y.
Proof. unfold core. intros [=]. by repeat split. Qed.

Lemma core_lookup (m m' : gmap Z avbox_window) w win :
  core <$> m = core <$> m' -> m !! w = Some win -> exists win', m' !! w = Some win' /\ core win' = core win.
Proof.
  intros H Hw. assert ((core <$> m) !! w = Some (core win)) as E by (by rewrite lookup_fmap, Hw).
  rewrite H, lookup_fmap in E. destruct (m' !! w) as [win'|] eqn:E'; [|done].
  exists win'. split; [done|]. cbn [fmap option_fmap option_map] in E. congruence.
Qed.

Lemma framed_core st st' : framed st st' -> core <$> wins st = core <$> wins st'.
Proof.
  intros (Hs & _). apply map_eq. intros w. apply (f_equal (fun m => m !! w)) in Hs. cbv beta in Hs.
  rewrite !lookup_fmap in Hs. rewrite !lookup_fmap.
  destruct (wins st !! w) as [x|], (wins st' !! w) as [y|]; try done.
  cbn [fmap option_fmap option_map] in *. apply (inj Some) in Hs.
  apply skeleton_fields in Hs as (E1 & E2 & E3 & E4 & E5 & E6 & _). unfold core. congruence.
Qed.

Lemma remove_node_spec st w win :
  wf st -> wins st !! w = Some win -> attached st w -> w ∉ window_stack st -> no_content st w ->
  exists st', remove_node w st = Some st' /\ wf st' /\ log st' = log st /\ window_stack st' = window_stack st /\
    core <$> wins st' = core <$> wins st /\
    (forall a b, child st' a b <-> child st a b /\ b <> w).
Proof.
  intros Hwf Hw (l & Hc) Hs Hnc. destruct (wf_children _ Hwf l w Hc) as (win' & ? & Hl). simplify_eq.
  destruct Hc as (lw & Hlw & Hin). unfold remove_node. rewrite Hw. cbn [mbind option_bind]. rewrite Hl.
  cbn [mbind option_bind]. rewrite Hlw. cbn [mbind option_bind]. rewrite bool_decide_true by done.
  unfold modify. rewrite Hlw. cbn [mbind option_bind].
  set (lw' := with_children _ lw). set (st' := set_wins _ st).
  assert (l <> w) as Hne.
  { intros ->. assert (child st w w) as Hself by by exists lw. destruct (decide (w = root_window)) as [->|Hr].
    - by eapply child_not_root in Hself.
    - destruct (wf_rank _ Hwf) as (rank & Hrank). specialize (Hrank w w Hr Hself). lia. }
  assert (forall a b, child st' a b <-> child st a b /\ b <> w) as Hch.
  { intros a b. unfold child, st'. simpl. destruct (decide (a = l)) as [->|Ha].
    - rewrite lookup_insert_eq. split.
      + intros (? & [= <-] & Hb). simpl in Hb. apply stack_remove_elem in Hb. naive_solver.
      + intros ((? & ? & ?) & ?). simplify_eq. exists lw'. split; [done|]. simpl. by apply stack_remove_elem.
    - rewrite lookup_insert_ne by done. split; [|naive_solver]. intros (aw & Haw & Hb).
      split; [by exists aw|]. intros ->. destruct (wf_children _ Hwf a w) as (? & ? & ?); [by exists aw|].
      congruence. }
  assert (forall x xw', wins st' !! x = Some xw' -> exists xw, wins st !! x = Some xw /\
    object xw' = object xw /\ content_window xw' = content_window xw /\ parent xw' = parent xw /\
    node_list xw' = node_list xw /\ paint xw' = paint xw /\ rect xw' = rect xw /\ visible xw' = visible xw /\
    flags xw' = flags xw) as Hback.
  { intros x xw'. simpl. rewrite lookup_insert_Some. intros [[<- <-]|[? ?]]; eauto 10. }
  assert (forall x xw, wins st !! x = Some xw -> exists xw', wins st' !! x = Some xw' /\
    object xw' = object xw /\ content_window xw' = content_window xw /\ parent xw' = parent xw /\
    node_list xw' = node_list xw /\ paint xw' = paint xw /\ rect xw' = rect xw /\ visible xw' = visible xw)
    as Hforth.
  { intros x xw Hx. simpl. destruct (decide (x = l)) as [->|?].
    - rewrite lookup_insert_eq. simplify_eq. eauto 10.
    - rewrite lookup_insert_ne by done. eauto 10. }
  assert (forall x, attached st' x -> attached st x) as Hatt by (intros x (y & [? _]%Hch); by exists y).
  exists st'. split_and!; [done| |done|done| |done].
  2: { unfold st'. simpl. rewrite fmap_insert. change (core lw') with (core lw).
       rewrite <- fmap_insert. by rewrite insert_id. }
  split.
  - destruct (wf_root _ Hwf) as (r & Hr & Hv & Hp & Hcr & Hn & Hd & Hrk). destruct (Hforth _ _ Hr) as (r' & Hr' & E).
    exists r'. split; [done|]. destruct E as (_ & -> & -> & -> & -> & -> & ->). done.
  - apply (wf_stack _ Hwf).
  - intros x Hx Hxn. destruct (wf_tops _ Hwf x Hx Hxn) as (? & xw & Hxw & Hv). split.
    + apply Hch. split; [done|]. intros ->. done.
    + destruct (Hforth x xw Hxw) as (xw' & ? & _ & _ & _ & _ & _ & _ & E). exists xw'. by rewrite E.
  - intros x xw' Hx. destruct (Hback x xw' Hx) as (xw & Hxw & _ & _ & -> & _ & _ & _ & -> & _).
    by apply (wf_visible _ Hwf).
  - intros x xw' Hx. destruct (Hback x xw' Hx) as (xw & Hxw & -> & _ & -> & _ & _ & -> & _ & ->).
    by apply (wf_toplevel _ Hwf x).
  - intros x xw. unfold st'. simpl. rewrite lookup_insert_Some. intros [[<- <-]|[? ?]]; [|by eapply (wf_nodup _ Hwf)].
    simpl. by apply NoDup_filter, (wf_nodup _ Hwf l lw).
  - intros a b [Hab _]%Hch. destruct (wf_children _ Hwf a b Hab) as (bw & Hbw & ?).
    destruct (Hforth b bw Hbw) as (bw' & ? & _ & _ & _ & E & _). exists bw'. by rewrite E.
  - intros x xw' Hx. destruct (Hback x xw' Hx) as (xw & Hxw & _ & _ & -> & -> & _). by apply (wf_parents _ Hwf x).
  - intros x xw' Hx Ha. destruct (Hback x xw' Hx) as (xw & Hxw & _ & -> & _). intros Hcx.
    apply Hch. split; [by eapply (wf_content _ Hwf); auto|]. apply (Hnc x xw Hxw); [auto|].
    intros ->. destruct Ha as (y & [_ ?]%Hch). done.
  - intros x xw' cw' Hx Ha. destruct (Hback x xw' Hx) as (xw & Hxw & -> & -> & _). intros Hcx Hcw.
    destruct (Hback _ cw' Hcw) as (cw & Hcw' & -> & -> & _). apply (wf_leaf _ Hwf x xw cw); auto.
  - intros x xw' Hx Ha. destruct (Hback x xw' Hx) as (xw & Hxw & _ & -> & _ & _ & -> & _).
    apply (wf_decor _ Hwf x); auto.
  - destruct (wf_rank _ Hwf) as (rank & Hrank). exists rank. intros a b Ha [? _]%Hch. auto.
  - apply (wf_input _ Hwf).
  - apply (wf_font _ Hwf).
Qed.

(** Freeing a window that is detached and has no subwindows left. *)
Lemma cleanup_spec st w win :
  wf st -> wins st !! w = Some win -> ~ attached st w -> (forall b, ~ child st w b) -> w <> root_window ->
  exists st', __avbox_window_cleanup st w = Some st' /\ wf st' /\
    log st' = log st ++ [EvSurfaceDestroy (surface win)] /\
    wins st' = delete w (wins st) /\ window_stack st' = window_stack st.
Proof.
  intros Hwf Hw Hna Hch Hn. unfold __avbox_window_cleanup. rewrite Hw. cbn [mbind option_bind].
  set (st' := set_wins _ _). exists st'. split_and!; [done| |done..].
  assert (forall a b, child st' a b <-> child st a b) as Hc.
  { intros a b. unfold child. simpl. split.
    - intros (aw & [? ?]%lookup_delete_Some & ?). by exists aw.
    - intros (aw & Ha & Hb). exists aw. split; [|done]. apply lookup_delete_Some. split; [|done].
      intros ->. apply (Hch b). by exists aw. }
  assert (forall x, attached st' x <-> attached st x) as Hatt.
  { intros x. unfold attached. by setoid_rewrite Hc. }
  assert (forall a b, child st a b -> b <> w) as Hbw by (intros a b ? ->; apply Hna; by exists a).
  split; simpl; try (setoid_rewrite lookup_delete_Some); try (setoid_rewrite Hc); try (setoid_rewrite Hatt).
  - destruct (wf_root _ Hwf) as (r & ? & ?). exists r. split; [done|tauto].
  - apply (wf_stack _ Hwf).
  - intros x Hx Hxn. destruct (wf_tops _ Hwf x Hx Hxn) as (Hcx & xw & ? & ?). split; [done|].
    exists xw. split; [|done]. split; [|done]. intros ->. by apply (Hbw _ _ Hcx).
  - intros x xw [_ ?]. by apply (wf_visible _ Hwf).
  - intros x xw [_ ?]. by apply (wf_toplevel _ Hwf x).
  - intros x xw [_ ?]. by apply (wf_nodup _ Hwf x).
  - intros a b Hab. destruct (wf_children _ Hwf a b Hab) as (bw & ? & ?). exists bw. split; [|done].
    split; [|done]. intros ->. by apply (Hbw _ _ Hab).
  - intros x xw [_ ?]. by apply (wf_parents _ Hwf x).
  - intros x xw [_ ?]. by apply (wf_content _ Hwf x).
  - intros x xw cw [_ ?] ? ? [_ ?]. by apply (wf_leaf _ Hwf x).
  - intros x xw [_ ?]. by apply (wf_decor _ Hwf x).
  - apply (wf_rank _ Hwf).
  - apply (wf_input _ Hwf).
  - apply (wf_font _ Hwf).
Qed.

(** What the caller of [avbox_window_destroy] has to see to: the window is
    not destroyed already, it is not the content window of another one, and
    its own subwindows are gone. *)
Definition destroyable (st : video) (w : Z) (win : avbox_window) : Prop :=
  attached st w /\ w <> root_window /\ no_content st w /\
  (forall b, child st w b -> b = content_window win) /\
  (content_window win <> w -> forall b, ~ child st (content_window win) b).

(** ** Creating *)

(** A new window [w] as the first child of [l]. *)
Lemma wf_insert st w win l lw :
  wf st -> wins st !! w = None -> wins st !! l = Some lw -> w <> root_window ->
  children win = [] -> content_window win = w -> node_list win = Some l ->
  (parent win = Some root_window <-> l = root_window) -> paint win <> Some PaintDecor ->
  (l = root_window -> visible win = false /\ rect_ok (rect win) /\
     hasflag (flags win) AVBOX_WNDFLAGS_SUBWINDOW = false /\
     (hasflag (flags win) AVBOX_WNDFLAGS_INPUT -> object win <> None)) ->
  exists st', add_node l w (set_wins (fun m => <[w := win]> m) st) = Some st' /\ wf st' /\
    wins st' = <[l := with_children (w :: children lw) lw]> (<[w := win]> (wins st)) /\
    log st' = log st /\ window_stack st' = window_stack st /\ input st' = input st /\
    default_font_height st' = default_font_height st.
Proof.
  intros Hwf Hnew Hlw Hn Hch Hco Hnl Hpar Hpd Htop.
  assert (l <> w) as Hne by congruence.
  unfold add_node, modify. simpl. rewrite lookup_insert_ne, Hlw by done. cbn [mbind option_bind].
  set (st' := set_wins _ _). exists st'. split_and!; [done| |done..].
  assert (forall x xw', wins st' !! x = Some xw' -> (x = w /\ xw' = win) \/
    exists xw, wins st !! x = Some xw /\ x <> w /\ xw' = (if decide (x = l) then with_children (w :: children lw) lw else xw))
    as Hback.
  { intros x xw'. simpl. rewrite !lookup_insert_Some. intros [[<- <-]|[? [[<- <-]|[? ?]]]].
    - right. exists lw. by rewrite decide_True.
    - by left.
    - right. exists xw'. by rewrite decide_False. }
  assert (forall a b, child st' a b <-> (a = l /\ b = w) \/ child st a b) as Hc.
  { intros a b. unfold child. simpl. destruct (decide (a = l)) as [->|Ha].
    - rewrite lookup_insert_eq. split.
      + intros (? & [= <-] & Hb). simpl in Hb. apply elem_of_cons in Hb as [->|Hb]; [by left|right; by exists lw].
      + intros [[_ ->]|(? & ? & ?)]; simplify_eq; eexists; (split; [done|]); simpl; set_solver.
    - rewrite lookup_insert_ne by done. destruct (decide (a = w)) as [->|Haw].
      + rewrite lookup_insert_eq. split; [intros (? & [= <-] & Hb); rewrite Hch in Hb; set_solver|].
        intros [[? _]|(? & ? & _)]; congruence.
      + rewrite lookup_insert_ne by done. naive_solver. }
  assert (~ attached st w) as Hna.
  { intros (a & Ha). destruct (wf_children _ Hwf a w Ha) as (? & ? & _). congruence. }
  assert (w ∉ window_stack st) as Hns.
  { intros Hin. apply Hna. exists root_window. by apply (wf_tops _ Hwf w). }
  assert (forall x, x <> w -> attached st' x -> attached st x) as Hatt.
  { intros x Hx (y & [[_ ->]|?]%Hc); [done|]. by exists y. }
  assert (forall x xw, wins st !! x = Some xw -> exists xw', wins st' !! x = Some xw' /\ object xw' = object xw /\
    content_window xw' = content_window xw /\ parent xw' = parent xw /\ node_list xw' = node_list xw /\
    paint xw' = paint xw /\ rect xw' = rect xw /\ visible xw' = visible xw) as Hforth.
  { intros x xw Hx. simpl. destruct (decide (x = l)) as [->|?].
    - rewrite lookup_insert_eq. simplify_eq. eauto 10.
    - rewrite !lookup_insert_ne by congruence. eauto 10. }
  split.
  - destruct (wf_root _ Hwf) as (r & Hr & ?). destruct (Hforth _ _ Hr) as (r' & Hr' & E). exists r'.
    split; [done|]. destruct E as (_ & -> & -> & -> & -> & -> & ->). done.
  - apply (wf_stack _ Hwf).
  - intros x Hx Hxn. destruct (wf_tops _ Hwf x Hx Hxn) as (? & xw & Hxw & Hv). split; [apply Hc; by right|].
    destruct (Hforth x xw Hxw) as (xw' & ? & _ & _ & _ & _ & _ & _ & E). exists xw'. by rewrite E.
  - intros x xw' Hx Hp Hv. destruct (Hback x xw' Hx) as [[-> ->]|(xw & Hxw & Hxn & ->)].
    + destruct Htop as [? _]; [by apply Hpar|congruence].
    + apply (wf_visible _ Hwf x xw Hxw); destruct (decide (x = l)) as [->|]; simplify_eq/=; done.
  - intros x xw' Hx Hp. destruct (Hback x xw' Hx) as [[-> ->]|(xw & Hxw & Hxn & ->)].
    + destruct Htop as [_ ?]; [by apply Hpar|done].
    + destruct (decide (x = l)) as [->|]; simplify_eq/=; by eapply (wf_toplevel _ Hwf).
  - intros x xw' Hx. destruct (Hback x xw' Hx) as [[-> ->]|(xw & Hxw & Hxn & ->)].
    + rewrite Hch. constructor.
    + destruct (decide (x = l)) as [->|]; simplify_eq/=; [|by eapply (wf_nodup _ Hwf)].
      constructor; [|by eapply (wf_nodup _ Hwf)]. intros ?. apply Hna. by exists l, lw.
  - intros a b [[-> ->]|Hab]%Hc.
    + exists win. split; [|done]. simpl. by rewrite lookup_insert_ne, lookup_insert_eq.
    + destruct (wf_children _ Hwf a b Hab) as (bw & Hbw & ?).
      destruct (Hforth b bw Hbw) as (bw' & ? & _ & _ & _ & E & _). exists bw'. by rewrite E.
  - intros x xw' Hx. destruct (Hback x xw' Hx) as [[-> ->]|(xw & Hxw & Hxn & ->)].
    + rewrite Hnl. rewrite Hpar. split; congruence.
    + pose proof (wf_parents _ Hwf x xw Hxw). destruct (decide (x = l)) as [->|]; simplify_eq/=; done.
  - intros x xw' Hx Hxa Hxc. apply Hc. destruct (Hback x xw' Hx) as [[-> ->]|(xw & Hxw & Hxn & ->)]; [done|].
    right. destruct (decide (x = l)) as [->|]; simplify_eq/=; eapply (wf_content _ Hwf); auto.
  - intros x xw' cw' Hx Hxa Hxc Hcw. destruct (Hback x xw' Hx) as [[-> ->]|(xw & Hxw & Hxn & E)]; [done|].
    assert (content_window xw' = content_window xw /\ object xw' = object xw) as [E1 E2].
    { subst xw'. destruct (decide (x = l)) as [->|]; by simplify_eq/=. }
    rewrite E1 in Hxc, Hcw |- *. rewrite E2. assert (child st x (content_window xw)) as Hcc.
    { eapply (wf_content _ Hwf); auto. }
    destruct (wf_children _ Hwf _ _ Hcc) as (cw & Hcw0 & _).
    destruct (Hforth _ _ Hcw0) as (cw1 & Hcw1 & E3 & E4 & _). simplify_eq. rewrite E3, E4.
    apply (wf_leaf _ Hwf x xw cw); auto.
  - intros x xw' Hx Hxa Hxp. destruct (Hback x xw' Hx) as [[-> ->]|(xw & Hxw & Hxn & ->)]; [done|].
    destruct (decide (x = l)) as [->|]; simplify_eq/=; eapply (wf_decor _ Hwf); auto.
  - destruct (wf_rank _ Hwf) as (rank & Hr). exists (fun x => if decide (x = w) then 0%nat else S (rank x)).
    intros a b Ha [[-> ->]|Hab]%Hc.
    + rewrite decide_True, decide_False by done. lia.
    + assert (b <> w) by (intros ->; apply Hna; by exists a).
      assert (a <> w) by (intros ->; destruct Hab as (? & ? & _); congruence).
      rewrite !decide_False by done. specialize (Hr a b Ha Hab). lia.
  - apply (wf_input _ Hwf).
  - apply (wf_font _ Hwf).
Qed.

(** A window gets a content window and its decoration. *)
Lemma wf_set_content st w win win' c cw :
  wf st -> wins st !! w = Some win -> w <> root_window -> no_content st w -> child st w c -> c <> w ->
  wins st !! c = Some cw -> content_window cw = c -> (object win = None <-> object cw = None) ->
  object win' = object win -> content_window win' = c -> parent win' = parent win ->
  node_list win' = node_list win -> rect win' = rect win -> flags win' = flags win ->
  visible win' = visible win -> children win' = children win ->
  wf (set_wins (fun m => <[w := win']> m) st).
Proof.
  intros Hwf Hw Hn Hnc Hc Hcne Hcw Hcc Ho E1 E2 E3 E4 E5 E6 E7 E8. set (st' := set_wins _ st).
  assert (forall a b, child st' a b <-> child st a b) as Hch.
  { intros a b. unfold child. simpl. destruct (decide (a = w)) as [->|]; [|by rewrite lookup_insert_ne].
    rewrite lookup_insert_eq. split; intros (? & ? & ?); simplify_eq; eexists; (split; [done|]); congruence. }
  assert (forall x, attached st' x <-> attached st x) as Hatt by (intros x; unfold attached; by setoid_rewrite Hch).
  assert (forall x xw', wins st' !! x = Some xw' -> (x = w /\ xw' = win') \/ (x <> w /\ wins st !! x = Some xw')) as Hback.
  { intros x xw'. simpl. rewrite lookup_insert_Some. naive_solver. }
  split; simpl; try (setoid_rewrite Hch); try (setoid_rewrite Hatt).
  - destruct (wf_root _ Hwf) as (r & Hr & ?). exists r. by rewrite lookup_insert_ne.
  - apply (wf_stack _ Hwf).
  - intros x Hx Hxn. destruct (wf_tops _ Hwf x Hx Hxn) as (? & xw & ? & ?). split; [done|].
    destruct (decide (x = w)) as [->|]; [rewrite lookup_insert_eq|rewrite lookup_insert_ne by done]; [|by eauto].
    simplify_eq. exists win'. split; [done|congruence].
  - intros x xw [[-> ->]|[? ?]]%Hback; [|by apply (wf_visible _ Hwf)]. rewrite E3, E7. by apply (wf_visible _ Hwf).
  - intros x xw [[-> ->]|[? ?]]%Hback; [|by apply (wf_toplevel _ Hwf x)]. rewrite E1, E3, E5, E6. by apply (wf_toplevel _ Hwf w).
  - intros x xw [[-> ->]|[? ?]]%Hback; [|by apply (wf_nodup _ Hwf x)]. rewrite E8. by apply (wf_nodup _ Hwf w).
  - intros a b Hab. destruct (wf_children _ Hwf a b Hab) as (bw & ? & ?).
    destruct (decide (b = w)) as [->|]; [rewrite lookup_insert_eq|rewrite lookup_insert_ne by done]; [|by eauto].
    simplify_eq. exists win'. split; [done|congruence].
  - intros x xw [[-> ->]|[? ?]]%Hback; [|by apply (wf_parents _ Hwf x)]. rewrite E3, E4. by apply (wf_parents _ Hwf w).
  - intros x xw [[-> ->]|[? ?]]%Hback; [|by apply (wf_content _ Hwf x)]. by rewrite E2.
  - intros x xw cw' [[-> ->]|[Hxn Hx]]%Hback Ha Hxc Hcx.
    + rewrite E2 in Hcx |- *. rewrite lookup_insert_ne in Hcx by done. simplify_eq. by rewrite E1.
    + rewrite lookup_insert_ne in Hcx; [by apply (wf_leaf _ Hwf x)|]. intros Heq. by apply (Hnc x xw).
  - intros x xw [[-> ->]|[? ?]]%Hback; [|by apply (wf_decor _ Hwf x)]. by rewrite E2.
  - apply (wf_rank _ Hwf).
  - apply (wf_input _ Hwf).
  - apply (wf_font _ Hwf).
Qed.

(** The addresses that the allocator may answer for a window. *)
Definition fresh_window (st : video) (a : answers) : Prop :=
  match a_window a with Some w => wins st !! w = None /\ w <> root_window | None => True end.

(** The canvas of a window that is painted. *)
Lemma canvas_lookup st w win :
  wf st -> wins st !! w = Some win -> attached st w ->
  exists cw, wins st !! content_window win = Some cw /\ content_window win <> root_window.
Proof.
  intros Hwf Hw Ha. destruct (decide (content_window win = w)) as [->|Hc].
  - exists win. split; [done|]. destruct Ha as (l & Hl). by apply (child_not_root st l).
  - pose proof (wf_content _ Hwf w win Hw Ha Hc) as Hch.
    destruct (wf_children _ Hwf _ _ Hch) as (cw & ? & _). exists cw. split; [done|]. by apply (child_not_root st w).
Qed.

(** [avbox_window_subwindow] answers NULL without an effect, or the new
    window as the first child of the canvas. *)
Lemma subwindow_spec a st p pwin flags x y w h msghandler draw ctx :
  wf st -> wins st !! p = Some pwin -> attached st p -> fresh_window st a ->
  exists r st', avbox_window_subwindow a st p flags x y w h msghandler draw ctx = Some (r, st') /\ wf st' /\
    (r = None -> st' = st) /\
    (forall n, r = Some n -> a_window a = Some n /\ exists cw nw,
       wins st !! content_window pwin = Some cw /\
       wins st' = <[content_window pwin := with_children (n :: children cw) cw]> (<[n := nw]> (wins st)) /\
       content_window nw = n /\ object nw = (if nonnull msghandler || nonnull (object pwin) then a_object a else None) /\
       window_stack st' = window_stack st /\ log st' = log st /\ default_font_height st' = default_font_height st).
Proof.
  intros Hwf Hp Ha Hfr. unfold avbox_window_subwindow, fresh_window in *.
  destruct (canvas_lookup st p pwin Hwf Hp Ha) as (cw & Hcw & Hcr).
  destruct (a_window a) as [n|]; [|eexists _, _; by split_and!].
  destruct (a_node a); simpl; [|eexists _, _; by split_and!].
  rewrite Hp. cbn [mbind option_bind]. unfold avbox_window_getcanvassize. rewrite Hp. cbn [mbind option_bind].
  rewrite Hcw. cbn [mbind option_bind].
  assert (exists w' h', (if (w =? -1) || (h =? -1) then
             Some (if w =? -1 then rw (rect cw) else w, if h =? -1 then rh (rect cw) else h)
           else Some (w, h)) = Some (w', h')) as (w' & h' & E) by (destruct (_ || _); eauto).
  cbn [mbind option_bind] in E |- *. rewrite E. cbn [mbind option_bind].
  destruct (a_surface a) as [s|]; [|eexists _, _; by split_and!].
  destruct (nonnull msghandler || nonnull (object pwin)) eqn:En; simpl;
    [destruct (a_object a) as [o|]; simpl; [|eexists _, _; by split_and!]|].
  all: match goal with |- context [add_node ?l ?n (set_wins (fun m => <[?n := ?nw]> m) ?st)] =>
    match goal with H : wins st !! l = Some ?cw |- _ =>
    destruct (wf_insert st n nw l cw) as (st' & -> & Hwf' & Ew & El & Es & Ei & Ef); try done end end.
  all: try (by apply Hfr).
  all: try (by destruct draw).
  all: try (simpl; split; [|done]; intros [= ->]; exfalso; destruct Ha as (l & Hl); by eapply child_not_root).
  all: cbn [mbind option_bind]; eexists _, _; split_and!; [done..|].
  all: intros ? [= <-]; split; [done|]; eexists _, _; split_and!; done.
Qed.

Lemma wf_log st st' :
  wf st -> wins st' = wins st -> window_stack st' = window_stack st -> input st' = input st ->
  default_font_height st' = default_font_height st -> wf st'.
Proof. intros Hwf E1 E2 E3 E4. apply (wf_same st); [|done]. by repeat split; rewrite ?E1. Qed.

Lemma modify_eq st w win f :
  wins st !! w = Some win -> modify w f st = Some (set_wins (fun m => <[w := f win]> m) st).
Proof. intros Hw. unfold modify. by rewrite Hw. Qed.

(** Memory for the content window of a new window is new. *)
Definition content_fresh (a c : answers) (st : video) : Prop :=
  forall n, a_window c = Some n -> wins st !! n = None /\ n <> root_window /\ Some n <> a_window a.

(** The content window cannot be created. *)
Definition content_fails (c : answers) (msghandler : option Z) : Prop :=
  a_window c = None \/ a_node c = false \/ a_surface c = None \/ (msghandler <> None /\ a_object c = None).

Lemma content_made a c msghandler st :
  content_fresh a c st -> ~ content_fails c msghandler ->
  exists n s, a_window c = Some n /\ a_node c = true /\ a_surface c = Some s /\
    wins st !! n = None /\ n <> root_window /\ Some n <> a_window a /\
    (msghandler <> None -> a_object c <> None).
Proof.
  unfold content_fresh, content_fails. intros Hf Hn.
  destruct (a_window c) as [n|]; [|tauto]. destruct (a_node c); [|tauto]. destruct (a_surface c) as [s|]; [|tauto].
  destruct (Hf n eq_refl) as (? & ? & ?). exists n, s. split_and!; try done. intros ? ?. tauto.
Qed.

Lemma decorate_spec c title_ok st n nw surf flags w h draw cn s :
  wf st -> wins st !! n = Some nw -> attached st n -> n <> root_window -> no_content st n ->
  content_window nw = n -> rect_ok (Rect 0 0 w h) ->
  a_window c = Some cn -> a_node c = true -> a_surface c = Some s -> wins st !! cn = None -> cn <> root_window ->
  (object nw <> None -> a_object c <> None) ->
  exists st' win' cw, decorate c title_ok st n surf flags w h draw = Some (Some n, st') /\ wf st' /\
    wins st' !! n = Some win' /\ content_window win' = cn /\ wins st' !! cn = Some cw /\
    visible win' = visible nw /\ wins st' !! root_window = wins st !! root_window /\
    window_stack st' = window_stack st /\ log st' = log st.
Proof.
  intros Hwf Hn Ha Hnr Hnc Hcn Hok Ec1 Ec2 Ec3 Hfr Hcr Hobj.
  assert (cn <> n) as Hne by congruence.
  pose proof (wf_font _ Hwf) as Hfont. unfold rect_ok in Hok. rewrite !andb_True, !Is_true_true, !Z.leb_le in Hok.
  simpl in Hok. unfold decorate.
  rewrite (modify_eq st n nw _ Hn). cbn [mbind option_bind]. unfold FONT_PADDING. cbn [default_font_height set_wins].
  rewrite (chk_int_Some (w - 10)) by lia. cbn [mbind option_bind].
  rewrite (chk_int_Some (h - (default_font_height st + 3) - 5)) by lia. cbn [mbind option_bind].
  unfold avbox_window_subwindow. rewrite Ec1, Ec2, Ec3. cbn [negb set_wins wins].
  rewrite lookup_insert_eq. cbn [mbind option_bind content_window object with_paint foreground_color background_color].
  set (st1 := set_wins (fun m => <[n := with_paint (Some PaintDecor) nw]> m) st).
  assert (exists ww hh, (if (w - 10 =? -1) || (h - (default_font_height st + 3) - 5 =? -1) then
     '(pw, ph) ← avbox_window_getcanvassize st1 n;
     Some (if w - 10 =? -1 then pw else w - 10,
           if h - (default_font_height st + 3) - 5 =? -1 then ph else h - (default_font_height st + 3) - 5)
    else Some (w - 10, h - (default_font_height st + 3) - 5)) = Some (ww, hh)) as (ww & hh & E).
  { unfold avbox_window_getcanvassize. simpl. rewrite lookup_insert_eq. cbn [mbind option_bind content_window with_paint].
    rewrite Hcn, lookup_insert_eq. cbn [mbind option_bind]. destruct (_ || _); eauto. }
  rewrite E. cbn [mbind option_bind]. clear E.
  cbn [nonnull orb].
  set (ob := if nonnull (object nw) then a_object c else None).
  assert (nonnull (object nw) && negb (nonnull (a_object c)) = false) as Eob.
  { destruct (object nw), (a_object c); try done. all: by destruct Hobj. }
  rewrite Eob. assert (object nw = None <-> ob = None) as Hiff.
  { unfold ob. destruct (object nw), (a_object c); simpl; try done. all: by destruct Hobj. }
  rewrite Hcn. set (cnw := Window s ob _ _ _ _ _ _ _ _ _ _ _ _ _ _ _ _ _).
  destruct (wf_insert st cn cnw n nw) as (st2 & E2 & Hwf2 & Ew2 & El2 & Es2 & Ei2 & Ef2); try done.
  { simpl. split; congruence. }
  { by destruct draw. }
  unfold add_node. cbn [set_wins wins st1]. rewrite lookup_insert_ne, lookup_insert_eq by done.
  cbn [mbind option_bind].
  erewrite modify_eq by (cbn [set_wins wins st1]; by rewrite lookup_insert_ne, lookup_insert_eq by done).
  cbn [mbind option_bind].
  erewrite modify_eq by (cbn [set_wins wins st1]; by rewrite lookup_insert_eq). cbn [mbind option_bind].
  unfold avbox_window_settitle. cbn [set_wins wins st1]. rewrite lookup_insert_eq.
  cbn [mbind option_bind content_window with_content with_children with_paint].
  destruct (Z.eqb_spec cn n); [done|].
  assert (forall win', object win' = object nw -> content_window win' = cn -> parent win' = parent nw ->
    node_list win' = node_list nw -> rect win' = rect nw -> Windows.flags win' = Windows.flags nw ->
    visible win' = visible nw -> children win' = cn :: children nw ->
    wf (set_wins (fun m => <[n := win']> m) st2)) as Hset.
  { intros win' F1 F2 F3 F4 F5 F6 F7 F8.
    apply (wf_set_content st2 n (with_children (cn :: children nw) nw) win' cn cnw); try done.
    - by rewrite Ew2, lookup_insert_eq.
    - intros x xw Hx (l & Hl) Hxn. rewrite Ew2, lookup_insert_ne in Hx by done.
      destruct (decide (x = cn)) as [->|Hxc].
      + rewrite lookup_insert_eq in Hx. by simplify_eq.
      + rewrite lookup_insert_ne in Hx by done. apply (Hnc x xw Hx); [|done]. exists l.
        destruct Hl as (lw & Hlw & Hin). rewrite Ew2 in Hlw. destruct (decide (l = n)) as [->|Hln].
        * rewrite lookup_insert_eq in Hlw. simplify_eq/=. exists nw. split; [done|]. set_solver.
        * rewrite lookup_insert_ne in Hlw by done. destruct (decide (l = cn)) as [->|].
          { rewrite lookup_insert_eq in Hlw. simplify_eq/=. set_solver. }
          rewrite lookup_insert_ne in Hlw by done. by exists lw.
    - exists (with_children (cn :: children nw) nw). rewrite Ew2, lookup_insert_eq. split; [done|]. simpl. set_solver.
    - by rewrite Ew2, lookup_insert_ne, lookup_insert_eq. }
  destruct title_ok.
  all: unfold modify; cbn [set_wins wins st1]; rewrite ?lookup_insert_eq; cbn [mbind option_bind].
  all: eexists _, _, cnw; split_and!; [reflexivity| |cbn [set_wins wins]; by rewrite lookup_insert_eq|done| |done| |done|done].
  3, 6: unfold st1; cbn [set_wins wins]; by rewrite !lookup_insert_ne by done.
  2, 4: cbn [set_wins wins]; rewrite !lookup_insert_ne by done; by rewrite lookup_insert_eq.
  all: eapply wf_log; [apply Hset; shelve| | | |].
  all: cbn [set_wins wins window_stack input default_font_height]; try done.
  all: rewrite Ew2, ?insert_insert_eq; unfold st1; cbn [set_wins wins].
  all: rewrite (insert_insert_ne _ cn n), insert_insert_eq by done; reflexivity.
  Unshelve.
  all: done.
Qed.

(** What the caller of [avbox_window_new] has to see to for a top-level
    window. *)
Record creatable (st : video) (a c : answers) (identified : bool) (flags x y w h : Z)
    (msghandler : option Z) : Prop := {
  cr_fresh : fresh_window st a;
  cr_rect : rect_ok (Rect x y w h);
  cr_top : hasflag flags AVBOX_WNDFLAGS_SUBWINDOW = false;
  cr_input : hasflag flags AVBOX_WNDFLAGS_INPUT -> msghandler <> None;
  cr_decorated : hasflag flags AVBOX_WNDFLAGS_DECORATED ->
    identified = true /\ content_fresh a c st;
}.

Lemma clear_spec c st w win color cw :
  wf st -> wins st !! w = Some win -> wins st !! content_window win = Some cw ->
  (content_window win = w -> title win = None) ->
  exists st', __window_clear c st w color = Some st' /\ wf st' /\ wins st' = wins st /\
    window_stack st' = window_stack st.
Proof.
  intros Hwf Hw Hcw Ht. unfold __window_clear. rewrite Hw. cbn [mbind option_bind]. rewrite Hcw. cbn [mbind option_bind].
  assert (forall st1, wf st1 -> wins st1 = wins st -> window_stack st1 = window_stack st -> exists st',
    Some (if cl_double c && cl_front c
          then emit (EvClear (content_window win) color true)
                 (if cl_lock c then emit (EvClear (content_window win) color false) st1 else st1)
          else if cl_lock c then emit (EvClear (content_window win) color false) st1 else st1) = Some st' /\
    wf st' /\ wins st' = wins st /\ window_stack st' = window_stack st) as Hend.
  { intros st1 Hwf1 E1 E2. eexists. split; [done|].
    destruct (cl_double c && cl_front c), (cl_lock c); split_and!; try done; by apply (wf_log st1). }
  destruct (title win) as [t|] eqn:E; [|by apply Hend].
  unfold avbox_window_settitle. rewrite Hw. cbn [mbind option_bind].
  destruct (Z.eqb_spec (content_window win) w) as [Heq|]; [by specialize (Ht Heq)|].
  rewrite (modify_eq st w win _ Hw). cbn [mbind option_bind].
  assert (<[w := with_title (Some t) win]> (wins st) = wins st) as Eid.
  { apply insert_id. rewrite Hw. f_equal. destruct win; simpl in *; by subst. }
  apply Hend; [by apply (wf_log st)|done|done].
Qed.

Lemma new_spec a c title_ok identified st flags x y w h msghandler draw ctx :
  wf st -> creatable st a c identified flags x y w h msghandler ->
  ~ (hasflag flags AVBOX_WNDFLAGS_DECORATED /\ content_fails c msghandler) ->
  exists r st', avbox_window_new a c title_ok identified st None flags x y w h msghandler draw ctx = Some (r, st') /\
    wf st' /\ window_stack st' = window_stack st /\ (r = None -> st' = st) /\
    (forall n, r = Some n -> child st' root_window n /\ exists win, wins st' !! n = Some win /\ visible win = false).
Proof.
  intros Hwf [Hfr Hok Htop Hin Hde] Hcf. unfold avbox_window_new, fresh_window in *. rewrite Htop. cbn [nonnull].
  destruct (a_window a) as [n|] eqn:Ea; [|eexists _, _; by split_and!].
  destruct (a_node a); cbn [negb]; [|eexists _, _; by split_and!].
  destruct (a_surface a) as [s|]; [|eexists _, _; by split_and!].
  destruct (nonnull msghandler && negb (nonnull (a_object a))) eqn:Eo; [eexists _, _; by split_and!|].
  set (ob := if nonnull msghandler then a_object a else None).
  assert (msghandler = None <-> ob = None) as Hob.
  { unfold ob. by destruct msghandler, (a_object a). }
  destruct (wf_root _ Hwf) as (r & Hr & _ & _ & Hrc & _).
  set (nw := Window s ob _ _ _ _ _ _ _ _ _ _ _ _ _ _ _ _ _).
  destruct (wf_insert st n nw root_window r) as (st1 & -> & Hwf1 & Ew1 & El1 & Es1 & _ & Ef1); try done.
  { by apply Hfr. } { by apply Hfr. } { by destruct draw. }
  { intros _. split_and!; try done. intros Hi Hnone. apply (Hin Hi). by apply Hob. }
  cbn [mbind option_bind]. destruct Hfr as [Hfr Hnr].
  assert (wins st1 !! n = Some nw) as Hn1 by (by rewrite Ew1, lookup_insert_ne, lookup_insert_eq).
  assert (child st1 root_window n) as Hc1.
  { exists (with_children (n :: children r) r). rewrite Ew1, lookup_insert_eq. split; [done|]. simpl. set_solver. }
  assert (no_content st1 n) as Hnc1.
  { intros z zw Hz (l & Hl) Hzn Hzc. pose proof (wf_content _ Hwf1 z zw Hz (ex_intro _ l Hl)) as Hcz. rewrite Hzc in Hcz.
    destruct (wf_children _ Hwf1 z n) as (? & ? & ?); [by apply Hcz|]. simplify_eq/=.
    by destruct (child_not_root _ _ _ Hwf1 Hl). }
  destruct (hasflag flags AVBOX_WNDFLAGS_DECORATED) eqn:Ed.
  - destruct Hde as [-> Hcfr]; [done|].
    destruct (content_made a c msghandler st Hcfr) as (cn & cs & Ec1 & Ec2 & Ec3 & Hcn & Hcr & Hca & Hco); [by intros Hx; apply Hcf; split|].
    destruct (decorate_spec c title_ok st1 n nw s flags w h draw cn cs) as
      (st2 & win2 & cw2 & -> & Hwf2 & Hw2 & Hcc2 & Hcw2 & Hv2 & Hl2 & Es2 & _); try done.
    { by exists root_window. }
    { unfold rect_ok in *. simpl in *. destruct (_ && _) eqn:E in Hok; [|done]. revert Hok.
      rewrite !andb_True, !Is_true_true, !Z.leb_le. revert E. rewrite !andb_true_iff, !Z.leb_le. lia. }
    { rewrite Ew1, !lookup_insert_ne; [done|congruence|done]. }
    { intros Hobn. apply Hco. intros ->. apply Hobn. by apply Hob. }
    cbn [mbind option_bind].
    assert (child st2 root_window n) as Hc2.
    { destruct Hc1 as (r1 & ? & ?). exists r1. by rewrite Hl2. }
    destruct draw; cbn [nonnull negb].
    + eexists _, _; split_and!; [done|done|congruence|done|]. intros ? [= <-]. eauto.
    + destruct (clear_spec (a_clear a) st2 n win2 MBV_DEFAULT_BACKGROUND cw2) as (st3 & -> & Hwf3 & Ew3 & Es3); [done..|congruence| |].
      { intros ?. congruence. }
      eexists _, _; split_and!; [done|done|congruence|done|]. intros ? [= <-]. unfold child. rewrite Ew3. eauto.
  - cbn [mbind option_bind]. destruct draw; cbn [nonnull negb].
    + eexists _, _; split_and!; [done..|]. intros ? [= <-]. eauto.
    + destruct (clear_spec (a_clear a) st1 n nw MBV_DEFAULT_BACKGROUND nw) as (st3 & -> & Hwf3 & Ew3 & Es3); [done..|].
      eexists _, _; split_and!; [done|done|congruence|done|]. intros ? [= <-]. unfold child. rewrite Ew3. eauto.
Qed.

(** ** Painting, showing and hiding *)

Section Painter.
Context (new_dirty : Z -> Z -> Z -> video -> bool) (cairo_ok layout_ok : video -> Z -> bool).

Abbreviation paint_window := (avbox_window_paint new_dirty cairo_ok layout_ok).

Lemma run_handler_spec st0 w win fn ctx st :
  same st0 st -> wins st0 !! w = Some win ->
  exists st', run_handler new_dirty w fn ctx st = Some st' /\ same st0 st' /\
    log st' = log st ++ [EvDraw w fn ctx].
Proof.
  intros Hs Hw. same_forth Hs Hw. unfold run_handler.
  destruct (same_modify (emit (EvDraw w fn ctx) st) w win0 (with_dirty (new_dirty fn w ctx st)))
    as (st' & E & Hs' & Hl); [done..|].
  exists st'. split_and!; [done| |by rewrite Hl]. etrans; [exact Hs|]. etrans; [apply same_emit|done].
Qed.

Lemma paintdecor_spec st0 self w win st :
  same st0 st -> wins st0 !! w = Some win -> content_window win <> w ->
  child st0 w (content_window win) -> paints st0 self (content_window win) ->
  exists st' evs, avbox_window_paintdecor cairo_ok layout_ok self st w = Some st' /\ same st0 st' /\
    log st' = log st ++ evs /\ Forall (inside st0 w) evs.
Proof.
  intros Hs Hw Hc Hch Hp. same_forth Hs Hw. unfold avbox_window_paintdecor. rewrite H0. cbn [mbind option_bind].
  replace (content_window win0) with (content_window win) by congruence.
  destruct (Z.eqb_spec (content_window win) w); [done|].
  assert (exists st1 e1, (if decor_dirty win0 then
            if cairo_ok st w then
              if layout_ok st w then modify w (with_decor_dirty false) (emit (EvDecor w) st)
              else Some (emit (EvDecor w) st)
            else Some st
          else Some st) = Some st1 /\ same st0 st1 /\ log st1 = log st ++ e1 /\ Forall (inside st0 w) e1)
    as (st1 & e1 & -> & Hs1 & Hl1 & Hf1).
  { assert (Forall (inside st0 w) [EvDecor w]) as Hd by (constructor; [apply rtc_refl|done]).
    assert (same st0 (emit (EvDecor w) st)) as Hse by (etrans; [exact Hs|apply same_emit]).
    destruct (decor_dirty win0), (cairo_ok st w), (layout_ok st w).
    1: { destruct (same_modify (emit (EvDecor w) st) w win0 (with_decor_dirty false)) as (st' & -> & ? & Hl);
         [done..|]. eexists _, [EvDecor w]. split_and!; [done|by etrans|done..]. }
    1: by eexists _, [EvDecor w].
    all: exists st, []; by rewrite app_nil_r. }
  cbn [mbind option_bind].
  destruct (Hp st1 true Hs1) as (st2 & e2 & -> & Hs2 & Hl2 & Hf2).
  exists st2, (e1 ++ e2). split_and!; [done..|by rewrite Hl2, Hl1, app_assoc|].
  apply Forall_app; split; [done|]. eapply Forall_impl; [done|]. intros e. by apply inside_child.
Qed.

Lemma paint_own_spec st0 self w win win0 update st :
  wf st0 -> same st0 st -> wins st0 !! w = Some win0 -> wins st !! w = Some win -> attached st0 w ->
  (forall c, child st0 w c -> paints st0 self c) ->
  exists st' evs, paint_own new_dirty cairo_ok layout_ok self win w update st = Some st' /\ same st0 st' /\
    log st' = log st ++ evs /\ Forall (inside st0 w) evs.
Proof.
  intros Hwf Hs Hw0 Hw Ha Hp. same_forth Hs Hw0. simplify_eq. unfold paint_own.
  assert (exists st1 e1, (if dirty win then
          match paint win with
          | Some PaintDecor => avbox_window_paintdecor cairo_ok layout_ok self st w
          | Some (UserDraw fn) => run_handler new_dirty w fn (draw_context win) st
          | None => Some st
          end else Some st) = Some st1 /\ same st0 st1 /\ log st1 = log st ++ e1 /\ Forall (inside st0 w) e1)
    as (st1 & e1 & -> & Hs1 & Hl1 & Hf1).
  { destruct (dirty win); [|exists st, []; by rewrite app_nil_r].
    destruct (paint win) as [[|fn]|] eqn:Epaint; [| |exists st, []; by rewrite app_nil_r].
    - assert (content_window win0 <> w) as Hn by (apply (wf_decor _ Hwf w win0 Hw0 Ha); congruence).
      pose proof (wf_content _ Hwf w win0 Hw0 Ha Hn).
      destruct (paintdecor_spec st0 self w win0 st) as (st1 & e1 & ?); eauto.
    - destruct (run_handler_spec st0 w win0 fn (draw_context win) st Hs Hw0) as (st1 & ? & ? & ?).
      eexists _, _. split_and!; [done..|]. constructor; [apply rtc_refl|done]. }
  cbn [mbind option_bind].
  destruct (paint_children_spec st0 self w (children win) update st1 Hs1) as (st2 & e2 & -> & Hs2 & Hl2 & Hf2).
  { intros c Hc. assert (child st0 w c) by (exists win0; split; congruence). eauto. }
  exists st2, (e1 ++ e2). split_and!; [done..|by rewrite Hl2, Hl1, app_assoc|by apply Forall_app].
Qed.

Lemma paint_sub st0 (rank : Z -> nat) :
  wf st0 -> (forall w c, w <> root_window -> child st0 w c -> (rank c < rank w)%nat) ->
  forall fuel w c, (rank c < fuel)%nat -> w <> root_window -> child st0 w c -> paints st0 (paint_window fuel) c.
Proof.
  intros Hwf Hr. induction fuel as [|fuel IH]; intros w c Hf Hn Hc st update Hs; [lia|].
  destruct (wf_children _ Hwf w c Hc) as (cwin & Hw0 & Hl0). same_forth Hs Hw0.
  assert (parent win0 <> Some root_window) as Hpar.
  { assert (parent cwin <> Some root_window); [|congruence].
    rewrite (wf_parents _ Hwf c cwin Hw0), Hl0. congruence. }
  assert (exists st' evs, paint_own new_dirty cairo_ok layout_ok (paint_window fuel) win0 c update st = Some st' /\
    same st0 st' /\ log st' = log st ++ evs /\ Forall (inside st0 c) evs)
    as (st1 & e1 & E1 & Hs1 & Hl1 & Hf1).
  { apply (paint_own_spec st0 _ c win0 cwin); [done..|by exists w|]. intros d Hd.
    pose proof (child_not_root _ _ _ Hwf Hc) as Hcr. pose proof (Hr _ _ Hcr Hd). apply (IH c d); [lia|done..]. }
  simpl. unfold avbox_window_reallyvisible. rewrite H0. cbn [mbind option_bind].
  rewrite (bool_decide_false _ Hpar). destruct (visible win0); simpl.
  2: { exists st, []. by rewrite app_nil_r. }
  rewrite E1. simpl. eexists _, (e1 ++ [_]). split_and!; [done| | |].
  - etrans; [exact Hs1|apply same_emit].
  - simpl. by rewrite Hl1, app_assoc.
  - apply Forall_app; split; [by eapply Forall_impl; [done|]; auto|].
    constructor; [|done]. right. eauto.
Qed.

Lemma paint_top_step st0 (rank : Z -> nat) l w ds fuel :
  wf st0 -> (forall w c, w <> root_window -> child st0 w c -> (rank c < rank w)%nat) ->
  (forall w c, w <> root_window -> child st0 w c -> (rank c < fuel)%nat) ->
  window_stack st0 = l ++ w :: ds -> w <> root_window ->
  repaints st0 (paint_window fuel) ds -> paints_top st0 (paint_window (S fuel)) w ds.
Proof.
  intros Hwf Hr Hf Est Hn Hrep st Hs.
  destruct (window_split _ _ _ _ Hwf Est) as (Hwl & Hwd & Hrd & Hds).
  destruct (top_lookup st0 w) as (win & Hw & Hp & Hv & Hok); [done|rewrite Est; set_solver|done|].
  same_forth Hs Hw. destruct (Hs) as (_ & Est' & _).
  assert (avbox_window_reallyvisible st w = Some (negb (covered (rect_of st0) w ds))) as Erv.
  { unfold avbox_window_reallyvisible. rewrite H0. cbn [mbind option_bind].
    rewrite bool_decide_true by congruence. rewrite <- Est', Est, above_app by done. cbn [mbind option_bind].
    replace (rect win0) with (rect win) by congruence. rewrite (uncovered_spec st0) by (done || set_solver).
    unfold covered. by replace (rect_of st0 w) with (rect win) by (unfold rect_of; by rewrite Hw). }
  cbn [avbox_window_paint]. rewrite H0. cbn [mbind option_bind].
  replace (visible win0) with true by congruence. simpl. rewrite Erv. cbn [mbind option_bind].
  unfold top_updates. destruct (covered (rect_of st0) w ds) eqn:Ec; simpl.
  { exists st, []. rewrite app_nil_r. split_and!; [done..|]. constructor. }
  destruct (paint_own_spec st0 (paint_window fuel) w win0 win false st) as (st1 & e1 & -> & Hs1 & Hl1 & Hf1); [done..| | |].
  { exists root_window. apply (wf_tops _ Hwf); [rewrite Est; set_solver|done]. }
  { intros c Hc. by apply (paint_sub st0 rank Hwf Hr fuel w c); eauto. }
  cbn [mbind option_bind]. rewrite bool_decide_true by congruence. simpl.
  destruct (Hs1) as (_ & Est1 & _). rewrite <- Est1, Est, above_app by done. simpl.
  destruct (Hrep (emit (EvUpdate w (blitflags win0) false) st1) w win) as (st2 & e2 & -> & Hs2 & Hl2 & Hb2);
    [by etrans; [exact Hs1|apply same_emit]|done..|].
  exists st2, (e1 ++ EvUpdate w (blitflags win) false :: e2). split_and!; [done..| |by constructor].
  rewrite Hl2. simpl. rewrite Hl1, <- !app_assoc. simpl.
  replace (blitflags win0) with (blitflags win); [done|].
  unfold blitflags. by replace (flags win0) with (flags win) by congruence.
Qed.

Lemma repaints_stack st0 (rank : Z -> nat) ds l fuel :
  wf st0 -> (forall w c, w <> root_window -> child st0 w c -> (rank c < rank w)%nat) ->
  (forall w c, w <> root_window -> child st0 w c -> (rank c + length ds < fuel)%nat) ->
  (length ds < fuel)%nat ->
  window_stack st0 = l ++ ds -> root_window ∉ ds -> repaints st0 (paint_window fuel) ds.
Proof.
  intros Hwf Hr. revert l fuel. induction ds as [|d ds IH]; intros l fuel Hf Hf' Est Hrd st w win Hs Hw Hok Hc.
  { exists st, []. rewrite app_nil_r. split_and!; [done..|constructor]. }
  destruct fuel as [|fuel]; [simpl in Hf'; lia|].
  assert (paints_top st0 (paint_window (S fuel)) d ds) as Htop.
  { apply (paint_top_step st0 rank l d ds fuel); [done..| | |set_solver|].
    - intros v c ? Hv. specialize (Hf v c ltac:(done) Hv). simpl in Hf. lia.
    - done.
    - apply (IH (l ++ [d])); [|simpl in Hf'; lia|by rewrite <- app_assoc|set_solver].
      intros v c ? Hv. specialize (Hf v c ltac:(done) Hv). simpl in Hf. lia. }
  assert (repaints st0 (paint_window (S fuel)) ds) as Hrest.
  { apply (IH (l ++ [d])); [|simpl in Hf'; lia|by rewrite <- app_assoc|set_solver].
    intros v c ? Hv. specialize (Hf v c ltac:(done) Hv). simpl in Hf. lia. }
  cbn [covered existsb] in Hc. apply orb_false_iff in Hc as [Hcd Hc].
  destruct (top_lookup st0 d) as (dw & Hdw & _ & _ & Hdok); [done|rewrite Est; set_solver|set_solver|].
  destruct (window_lookup _ _ _ _ Hs Hw) as (win1 & Hw1 & (_ & _ & _ & _ & _ & _ & _ & Er & _)%erase_fields).
  destruct (window_lookup _ _ _ _ Hs Hdw) as (dw1 & Hdw1 & (_ & _ & _ & _ & _ & _ & _ & Erd & _)%erase_fields).
  cbn [repaint_above]. rewrite Hw1, Hdw1. cbn [mbind option_bind]. unfold avbox_rect_overlaps.
  destruct (Htop st Hs) as (st1 & e1 & -> & Hs1 & Hl1 & Hb1). cbn [mbind option_bind].
  rewrite Er, Erd, rect_covers_ok by done. cbn [mbind option_bind].
  unfold rect_of in Hcd. rewrite Hdw, Hw in Hcd. rewrite Hcd.
  destruct (Hrest st1 w win) as (st2 & e2 & -> & Hs2 & Hl2 & Hb2); [done..|].
  exists st2, (e1 ++ e2). split_and!; [done..|by rewrite Hl2, Hl1, app_assoc|]. by apply blocks_app.
Qed.

Lemma paint_top st0 c fuel :
  wf st0 -> child st0 root_window c -> (size (wins st0) + length (window_stack st0) + 1 < fuel)%nat ->
  forall st, same st0 st -> exists st' evs, paint_window fuel st c false = Some st' /\ same st0 st' /\
    log st' = log st ++ evs /\ blocks st0 evs (child_updates st0 c).
Proof.
  intros Hwf Hc Hf st Hs. destruct (wf_children _ Hwf _ _ Hc) as (cw & Hcw & Hl).
  unfold child_updates. rewrite Hcw. destruct (visible cw) eqn:Hv.
  - assert (parent cw = Some root_window) as Hp by (by apply (wf_parents _ Hwf c)).
    pose proof (wf_visible _ Hwf c cw Hcw Hp Hv) as Hin. apply list_elem_of_split in Hin as (l & ds & Est).
    destruct (window_split _ _ _ _ Hwf Est) as (Hcl & _ & Hrd & _).
    rewrite Est, above_app by done. simpl. destruct (rank_bounded _ Hwf) as (rank & Hr).
    rewrite Est, length_app in Hf. simpl in Hf. destruct fuel as [|fuel]; [lia|].
    apply (paint_top_step st0 rank l c ds fuel); try done.
    + intros w d Hw Hd. by apply Hr.
    + intros w d Hw Hd. destruct (Hr w d Hw Hd). lia.
    + by eapply child_not_root.
    + apply (repaints_stack st0 rank ds (l ++ [c])); [done|by intros; apply Hr| |lia|by rewrite <- app_assoc|done].
      intros w d Hw Hd. destruct (Hr w d Hw Hd). lia.
  - destruct fuel as [|fuel]; [lia|]. exists st, []. same_forth Hs Hcw. cbn [avbox_window_paint]. rewrite H0.
    cbn [mbind option_bind]. replace (visible win0) with false by congruence. rewrite app_nil_r.
    split_and!; [done..|constructor].
Qed.

Lemma paint_root_children st0 fuel cs st :
  wf st0 -> (forall c, c ∈ cs -> child st0 root_window c) ->
  (size (wins st0) + length (window_stack st0) + 1 < fuel)%nat -> same st0 st ->
  exists st' evs, paint_children (paint_window fuel) cs false st = Some st' /\ same st0 st' /\
    log st' = log st ++ evs /\ blocks st0 evs (concat (map (child_updates st0) cs)).
Proof.
  intros Hwf Hc Hf. revert st. induction cs as [|c cs IH]; intros st Hs.
  { exists st, []. rewrite app_nil_r. split_and!; [done..|constructor]. }
  destruct (paint_top st0 c fuel Hwf (Hc c ltac:(set_solver)) Hf st Hs) as (st1 & e1 & E1 & Hs1 & Hl1 & Hb1).
  destruct (IH ltac:(set_solver) st1 Hs1) as (st2 & e2 & E2 & Hs2 & Hl2 & Hb2).
  exists st2, (e1 ++ e2). simpl. rewrite E1. cbn [mbind option_bind].
  split_and!; [done..|by rewrite Hl2, Hl1, app_assoc|by apply blocks_app].
Qed.

Lemma paint_root st :
  wf st -> exists st', paint_window (enough st) st root_window false = Some st' /\ repainted st st'.
Proof.
  intros Hwf. destruct (wf_root _ Hwf) as (r & Hr & Hv & Hp & Hc & _ & Hdec & _).
  assert (exists fuel, enough st = S fuel /\ (size (wins st) + length (window_stack st) + 1 < fuel)%nat)
    as (fuel & -> & Hf) by (unfold enough; eexists; split; [apply Nat.add_succ_r|lia]).
  assert (exists st1 pre, (if dirty r then
            match paint r with
            | None => Some st
            | Some PaintDecor => avbox_window_paintdecor cairo_ok layout_ok (paint_window fuel) st root_window
            | Some (UserDraw fn) => run_handler new_dirty root_window fn (draw_context r) st
            end else Some st) = Some st1 /\ same st st1 /\ log st1 = log st ++ pre /\
          Forall (fun e => exists fn ctx, e = EvDraw root_window fn ctx) pre)
    as (st1 & pre & E1 & Hs1 & Hl1 & Hf1).
  { destruct (dirty r); [|exists st, []; by rewrite app_nil_r].
    destruct (paint r) as [[|fn]|] eqn:Ep; [| |exists st, []; by rewrite app_nil_r].
    - done.
    - destruct (run_handler_spec st root_window r fn (draw_context r) st) as (st1 & -> & ? & ?); [done..|].
      eexists _, _. split_and!; [done..|]. constructor; eauto. }
  destruct (paint_root_children st fuel (children r) st1) as (st2 & e2 & E2 & Hs2 & Hl2 & Hb2); [done| |done..|].
  { intros c Hcc. by exists r. }
  eexists. split.
  - cbn [avbox_window_paint]. rewrite Hr. cbn [mbind option_bind]. rewrite Hv. simpl.
    unfold avbox_window_reallyvisible. rewrite Hr. cbn [mbind option_bind]. rewrite Hp. simpl.
    unfold paint_own. rewrite E1. cbn [mbind option_bind]. rewrite E2. reflexivity.
  - split; [etrans; [exact Hs2|apply same_emit]|]. exists r, pre, e2. split_and!; [done| |done|].
    + simpl. by rewrite Hl2, Hl1, <- !app_assoc.
    + unfold root_updates, root_children. by rewrite Hr.
Qed.

Abbreviation update_window := (avbox_window_update new_dirty cairo_ok layout_ok).
Abbreviation show_window := (avbox_window_show new_dirty cairo_ok layout_ok).
Abbreviation hide_window := (avbox_window_hide new_dirty cairo_ok layout_ok).
Abbreviation tofront_window := (avbox_window_tofront new_dirty cairo_ok layout_ok).

Lemma update_root st w win :
  wf st -> wins st !! w = Some win -> visible win = true ->
  exists st', update_window st w = Some st' /\ repainted st st'.
Proof.
  intros Hwf Hw Hv. unfold avbox_window_update. rewrite Hw. cbn [mbind option_bind]. rewrite Hv. simpl.
  destruct (paint_root st Hwf) as (st' & E & ?). exists st'. split; [|done].
  destruct (Z.eqb_spec w root_window) as [->|]; done.
Qed.

Lemma show_spec mem st w win :
  wf st -> wins st !! w = Some win -> child st root_window w -> visible win = false -> fresh_node mem st ->
  exists st', show_window mem st w = Some st' /\ wf st' /\ shows st st' /\ framed st st' /\
    window_stack st' = window_stack st ++ [w].
Proof.
  intros Hwf Hw Hc Hv Hm. pose proof (child_not_root _ _ _ Hwf Hc) as Hn.
  destruct (wf_children _ Hwf _ _ Hc) as (win' & ? & Hl). simplify_eq.
  assert (parent win = Some root_window) as Hp by (by apply (wf_parents _ Hwf w)).
  assert (w ∉ window_stack st) as Hni.
  { intros Hin. destruct (wf_tops _ Hwf w Hin Hn) as (_ & ? & ? & ?). congruence. }
  destruct (wf_stack _ Hwf) as (tops & Est & Hnd).
  set (st1 := set_wins (fun m => <[w := with_visible true win]> m) (set_stack (window_stack st ++ [w]) st)).
  destruct (wf_restack st st1 w win true (tops ++ [w])) as [Hf1 Hwf1]; try done.
  { simpl. by rewrite Est. }
  { rewrite <- Est in Hnd. rewrite app_comm_cons, <- Est. apply NoDup_snoc. done. }
  { simpl. intros x Hx. set_solver. }
  { simpl. split; [done|set_solver]. }
  { apply (wf_input _ Hwf). }
  destruct (paint_root st1 Hwf1) as (st2 & E2 & Hr). pose proof (repainted_wf _ _ Hwf1 Hr) as Hwf2.
  assert (framed st st2) as Hf2.
  { destruct Hr as [Hs _]. destruct (same_framed _ _ Hs) as (? & ? & Hd), Hf1 as (? & ? & Hd').
    split_and!; [congruence..|]. intros x xw Hxw Hxp. destruct (Hd x xw Hxw Hxp) as (? & ? & ?). eauto. }
  unfold avbox_window_show. destruct (Z.eqb_spec w root_window); [done|]. rewrite Hw. cbn [mbind option_bind].
  unfold stack_append. rewrite bool_decide_false by done. cbn [mbind option_bind].
  unfold modify. simpl. rewrite Hw. cbn [mbind option_bind]. fold st1. rewrite E2. cbn [mbind option_bind].
  assert (window_stack st2 = window_stack st ++ [w]) as Est2 by (by destruct Hr as [(_ & <- & _) _]).
  destruct (hasflag (flags win) AVBOX_WNDFLAGS_INPUT) eqn:Ei.
  - destruct (wf_toplevel _ Hwf w win Hw Hp) as (_ & _ & Ho). rewrite Ei in Ho.
    destruct (object win) as [o|]; [|by destruct (Ho I)]. cbn [mbind option_bind].
    destruct (wf_input _ Hwf2) as (objs & Hobjs).
    destruct (grab_rep mem o (input st2) objs Hobjs) as (rc & i & objs' & -> & Hi & _).
    { assert (input st = input st2) as <- by (by destruct Hr as [(_ & _ & _ & <-) _]). done. }
    eexists. split; [done|]. split; [by eapply wf_set_input|]. split; [|by split].
    apply (shows_intro st st1 st2); [done|done|done|exact (framed_refl st2)|done..].
  - exists st2. split; [done|]. split; [done|]. split; [|by split].
    apply (shows_intro st st1 st2); [done|done|done|apply framed_refl|done..].
Qed.

(** *** Hiding *)

Lemma repair_spec w win ds st :
  wf st -> wins st !! w = Some win -> rect_ok (rect win) -> (forall d, d ∈ ds -> d ∈ window_stack st) ->
  exists st' mid, repair new_dirty cairo_ok layout_ok w ds st = Some st' /\ same st st' /\
    log st' = log st ++ mid /\ (ds <> [] -> shows st st').
Proof.
  revert st win. induction ds as [|d ds IH]; intros st win Hwf Hw Hok Hds.
  { exists st, []. by rewrite app_nil_r. }
  assert (exists dw, wins st !! d = Some dw /\ visible dw = true /\ rect_ok (rect dw)) as (dw & Hdw & Hv & Hdok).
  { destruct (decide (d = root_window)) as [->|Hn].
    - destruct (wf_root _ Hwf) as (r & ? & ? & _ & _ & _ & _ & ?). eauto.
    - destruct (top_lookup st d Hwf) as (dw & ? & _ & ? & ?); [apply Hds; set_solver|done|eauto]. }
  simpl. rewrite Hw, Hdw. cbn [mbind option_bind].
  destruct (same_modify st d dw (with_damaged (d =? root_window))) as (st1 & -> & Hs1 & Hl1); [done..|].
  cbn [mbind option_bind]. pose proof (wf_same _ _ Hs1 Hwf) as Hwf1.
  destruct (window_lookup _ _ _ _ Hs1 Hdw) as (dw1 & Hdw1 & (_&_&_&_&_&_&_&_&Ev1&_)%erase_fields).
  destruct (update_root st1 d dw1) as (st2 & -> & Hr2); [done|done|congruence|]. cbn [mbind option_bind].
  destruct (Hr2) as [Hs2 (r & pre & evs & _ & Hl2 & _)].
  destruct (window_lookup _ _ _ _ Hs2 Hdw1) as (dw2 & Hdw2 & _).
  destruct (same_modify st2 d dw2 (with_damaged false)) as (st3 & -> & Hs3 & Hl3); [done..|].
  cbn [mbind option_bind]. rewrite rect_covers_ok by done. cbn [mbind option_bind].
  assert (same st st3) as Hs by (etrans; [exact Hs1|]; etrans; [exact Hs2|exact Hs3]).
  assert (shows st st3) as Hsh.
  { apply (shows_intro st st1 st2); [done|done|done|by apply same_framed|apply Hs3|done]. }
  assert (exists mid, log st3 = log st ++ mid) as [mid Hmid].
  { exists (pre ++ evs ++ [EvUpdate root_window (blitflags r) false]). by rewrite Hl3, Hl2, Hl1. }
  destruct (covers (rect dw) (rect win)); [by exists st3, mid|].
  destruct (window_lookup _ _ _ _ Hs Hw) as (win3 & Hw3 & (_&_&_&_&_&_&_&Er&_)%erase_fields).
  destruct (IH st3 win3) as (st4 & mid4 & E4 & Hs4 & Hl4 & Hsh4);
    [by apply (wf_same st)|done|by rewrite Er| |].
  { destruct Hs as (_ & <- & _). set_solver. }
  exists st4, (mid ++ mid4). split_and!; [done|by etrans|by rewrite Hl4, Hmid, app_assoc|intros _].
  destruct ds as [|d' ds]; [simpl in E4; by simplify_eq|].
  destruct Hsh4 as (mid' & evs4 & ws4 & Hl & Hrest & Hlast); [done|].
  destruct Hsh as (mid3 & evs3 & ws3 & Hl3' & Hrest3 & Hlast3 & _).
  exists (mid3 ++ evs3 ++ mid'), evs4, ws4. split_and!; [by rewrite Hl, Hl3', <- !app_assoc| |apply Hlast..].
  assert (framed st3 st4 /\ window_stack st3 = window_stack st4) as [Hf4 Est4] by (split; [by apply same_framed|apply Hs4]).
  apply repaint_logs_app; [by eapply repaint_logs_framed|]. econstructor; [by eapply repaint_log_framed|done].
Qed.

Lemma hide_spec st w :
  wf st -> w ∈ window_stack st -> w <> root_window ->
  exists st' win, hide_window st w = Some st' /\ wf st' /\ shows st st' /\ framed st st' /\
    window_stack st' = filter (fun x => x <> w) (window_stack st) /\
    wins st' !! w = Some win /\ visible win = false.
Proof.
  intros Hwf Hin Hn. destruct (wf_tops _ Hwf w Hin Hn) as (Hc & win & Hw & Hv).
  destruct (top_lookup st w Hwf Hin Hn) as (? & ? & Hp & _ & Hok). simplify_eq.
  destruct (wf_stack _ Hwf) as (tops & Est & Hnd).
  unfold avbox_window_hide. destruct (Z.eqb_spec w root_window); [done|]. rewrite Hw. cbn [mbind option_bind].
  unfold stack_remove. rewrite bool_decide_true by done. cbn [mbind option_bind].
  assert (exists i objs, (if hasflag (flags win) AVBOX_WNDFLAGS_INPUT then
            o ← object win;
            i ← Endpoints.avbox_input_release o (input st);
            Some (set_input i (set_stack (filter (fun x => x <> w) (window_stack st)) st))
          else Some (set_stack (filter (fun x => x <> w) (window_stack st)) st)) =
       Some (set_input i (set_stack (filter (fun x => x <> w) (window_stack st)) st)) /\
       Endpoints.stack_rep i objs) as (i & objs & E1 & Hi).
  { destruct (wf_input _ Hwf) as (objs & Hobjs). destruct (hasflag (flags win) AVBOX_WNDFLAGS_INPUT) eqn:Ei.
    - destruct (wf_toplevel _ Hwf w win Hw Hp) as (_ & _ & Ho). rewrite Ei in Ho.
      destruct (object win) as [o|]; [|by destruct (Ho I)]. cbn [mbind option_bind].
      destruct (Endpoints.release_rep (input st) objs o Hobjs) as (i & -> & ?). by eexists _, _.
    - exists (input st), objs. split; [|done]. by destruct st. }
  cbn [mbind option_bind set_stack input] in E1 |- *. rewrite E1. cbn [mbind option_bind]. clear E1.
  unfold modify. simpl. rewrite Hw. cbn [mbind option_bind].
  set (st1 := set_wins _ _). assert (filter (fun x => x <> w) (window_stack st) =
    root_window :: filter (fun x => x <> w) tops) as Estack by (by rewrite Est, filter_cons_True).
  destruct (wf_restack st st1 w win false (filter (fun x => x <> w) tops)) as [Hf1 Hwf1]; try done.
  { rewrite <- Estack, Est. apply NoDup_filter. done. }
  { simpl. intros x Hx. rewrite stack_remove_elem. naive_solver. }
  { simpl. rewrite stack_remove_elem. naive_solver. }
  { by exists objs. }
  destruct (repair_spec w (with_visible false win) (window_stack st1) st1)
    as (st2 & mid & E2 & Hs2 & Hl2 & Hsh2); [done|by simpl; rewrite lookup_insert_eq|done|done|].
  assert (wins st1 !! w = Some (with_visible false win)) as Hw1 by (simpl; by rewrite lookup_insert_eq).
  destruct (window_lookup _ _ _ _ Hs2 Hw1) as (win2 & Hw2 & (_&_&_&_&_&_&_&_&Ev2&_)%erase_fields).
  exists st2, win2. split_and!; [exact E2|by apply (wf_same st1)|apply Hsh2; simpl; by rewrite Estack| |by destruct Hs2 as (_ & <- & _)|done|done].
  destruct (same_framed _ _ Hs2) as (? & ? & Hd), Hf1 as (? & ? & Hd'). split_and!; [congruence..|].
  intros x xw Hxw Hxp. destruct (Hd x xw Hxw Hxp) as (? & ? & ?). eauto.
Qed.

Lemma tofront_spec st w :
  wf st -> w ∈ window_stack st -> w <> root_window ->
  exists st', tofront_window st w = Some st' /\ wf st' /\ shows st st' /\
    window_stack st' = filter (fun x => x <> w) (window_stack st) ++ [w].
Proof.
  intros Hwf Hin Hn. destruct (wf_tops _ Hwf w Hin Hn) as (Hc & win & Hw & Hv).
  destruct (wf_stack _ Hwf) as (tops & Est & Hnd).
  unfold avbox_window_tofront, stack_remove. rewrite bool_decide_true by done. cbn [mbind option_bind].
  unfold stack_append. rewrite bool_decide_false by (simpl; rewrite stack_remove_elem; naive_solver).
  cbn [mbind option_bind]. simpl. set (st1 := set_stack _ _).
  assert (filter (fun x => x <> w) (window_stack st) =
    root_window :: filter (fun x => x <> w) tops) as Estack by (by rewrite Est, filter_cons_True).
  destruct (wf_restack st st1 w win true (filter (fun x => x <> w) tops ++ [w])) as [Hf1 Hwf1]; try done.
  { simpl. rewrite insert_id; [done|]. rewrite Hw. f_equal. destruct win; simpl in *; by subst. }
  { simpl. by rewrite Estack. }
  { rewrite app_comm_cons, <- Estack. apply NoDup_snoc. split; [rewrite Est; by apply NoDup_filter|].
    rewrite stack_remove_elem. naive_solver. }
  { simpl. intros x Hx. rewrite elem_of_app, stack_remove_elem. set_solver. }
  { simpl. rewrite elem_of_app. set_solver. }
  { apply (wf_input _ Hwf). }
  destruct (update_root st1 w win) as (st2 & E2 & Hr2); [done..|].
  exists st2. split_and!; [done|by eapply repainted_wf| |by destruct Hr2 as [(_ & <- & _) _]].
  apply (shows_intro st st1 st2); [done|done|done|apply framed_refl|done..].
Qed.

(** The first half of a destruction: the window leaves the screen and the
    list of its parent. *)
Lemma detach_spec st w win :
  wf st -> wins st !! w = Some win -> attached st w -> w <> root_window -> no_content st w ->
  exists st', (st1 ← (if visible win && bool_decide (parent win = Some root_window)
                          && negb (hasflag (flags win) AVBOX_WNDFLAGS_SUBWINDOW)
                       then hide_window st w else Some st);
    remove_node w st1) = Some st' /\ wf st' /\ core <$> wins st' = core <$> wins st /\
    (forall a b, child st' a b <-> child st a b /\ b <> w) /\
    (exists mid, log st' = log st ++ mid).
Proof.
  intros Hwf Hw Ha Hn Hnc. pose proof Ha as (l & Hc).
  destruct (wf_children _ Hwf l w Hc) as (? & ? & Hl). simplify_eq.
  assert (exists st1, (if visible win && bool_decide (parent win = Some root_window)
                          && negb (hasflag (flags win) AVBOX_WNDFLAGS_SUBWINDOW)
                       then hide_window st w else Some st) = Some st1 /\ wf st1 /\ framed st st1 /\
    w ∉ window_stack st1 /\ exists mid, log st1 = log st ++ mid) as (st1 & -> & Hwf1 & Hf1 & Hs1 & mid & Hmid).
  { destruct (bool_decide_reflect (parent win = Some root_window)) as [Hp|Hp].
    - destruct (wf_toplevel _ Hwf w win Hw Hp) as (_ & -> & _). rewrite !andb_true_r.
      destruct (visible win) eqn:Hv; simpl.
      + pose proof (wf_visible _ Hwf w win Hw Hp Hv) as Hin.
        destruct (hide_spec st w Hwf Hin Hn) as (st1 & ? & -> & ? & (? & ? & ? & El & _) & ? & Est & _).
        exists st1. split_and!; [done..|rewrite Est, stack_remove_elem; naive_solver|]. eexists. exact El.
      + exists st. split_and!; [done..|apply framed_refl| |exists []; by rewrite app_nil_r].
        intros Hin. destruct (wf_tops _ Hwf w Hin Hn) as (_ & ? & ? & ?). congruence.
    - rewrite andb_false_r. simpl. exists st. split_and!; [done..|apply framed_refl| |exists []; by rewrite app_nil_r].
      intros Hin. destruct (top_lookup st w Hwf Hin Hn) as (? & ? & ? & _). congruence. }
  cbn [mbind option_bind].
  destruct (skeleton_lookup _ _ _ _ (proj1 Hf1) Hw) as (win1 & Hw1 & Esk).
  destruct (remove_node_spec st1 w win1 Hwf1 Hw1) as (st2 & -> & Hwf2 & Hl2 & _ & Esk2 & Hch2).
  { by apply (framed_attached _ _ _ Hf1). }
  { done. }
  { intros x xw Hx Hxa Hxn. apply (framed_attached _ _ _ Hf1) in Hxa.
    destruct (skeleton_lookup _ _ _ _ (symmetry (proj1 Hf1)) Hx) as (xw0 & Hx0 & (_ & E & _)%skeleton_fields).
    rewrite <- E. by eapply Hnc. }
  exists st2. split_and!; [done..| | |exists mid; by rewrite Hl2].
  - rewrite Esk2. symmetry. by apply framed_core.
  - intros a b. rewrite Hch2. by rewrite (framed_child _ _ a b Hf1).
Qed.

Abbreviation destroy_window := (avbox_window_destroy new_dirty cairo_ok layout_ok).
Abbreviation detach_window := (__avbox_window_destroy new_dirty cairo_ok layout_ok).

(** [__avbox_window_destroy] of a window, up to its content window. *)
Lemma detach_destroy destroy st w win :
  wf st -> wins st !! w = Some win -> attached st w -> w <> root_window -> no_content st w ->
  exists st', wf st' /\ core <$> wins st' = core <$> wins st /\
    (forall a b, child st' a b <-> child st a b /\ b <> w) /\ ~ attached st' w /\
    detach_window destroy st w =
      (if content_window win =? w then Some st' else destroy st' (content_window win)).
Proof.
  intros Hwf Hw Ha Hn Hnc. destruct (detach_spec st w win) as (st' & E & Hwf' & Hco & Hch & _); [done..|].
  exists st'. split_and!; [done..|by intros (l & [_ ?]%Hch)|].
  unfold __avbox_window_destroy. destruct (Z.eqb_spec w root_window); [done|]. rewrite Hw. cbn [mbind option_bind].
  destruct (if visible win && bool_decide (parent win = Some root_window) &&
     negb (hasflag (flags win) AVBOX_WNDFLAGS_SUBWINDOW) then hide_window st w else Some st) as [st1|]; [|done].
  cbn [mbind option_bind] in E |- *. by rewrite E.
Qed.

(** Destroying a window without an object that has no content window and
    no subwindows. *)
Lemma destroy_leaf fuel st w win :
  wf st -> wins st !! w = Some win -> attached st w -> w <> root_window -> no_content st w ->
  object win = None -> content_window win = w -> (forall b, ~ child st w b) ->
  exists st', destroy_with new_dirty cairo_ok layout_ok (S fuel) st w = Some st' /\ wf st' /\
    core <$> wins st' = delete w (core <$> wins st) /\ (forall a b, child st' a b <-> child st a b /\ b <> w).
Proof.
  intros Hwf Hw Ha Hn Hnc Ho Hcw Hnb. simpl. rewrite Hw. cbn [mbind option_bind]. rewrite Ho.
  destruct (detach_destroy (destroy_with new_dirty cairo_ok layout_ok fuel) st w win)
    as (st1 & Hwf1 & Hco1 & Hch1 & Hna1 & ->); [done..|].
  rewrite Hcw, Z.eqb_refl. cbn [mbind option_bind].
  destruct (core_lookup _ _ _ _ (symmetry Hco1) Hw) as (win1 & Hw1 & _).
  destruct (cleanup_spec st1 w win1) as (st2 & -> & Hwf2 & _ & Ew & _); [done..|by intros b [? _]%Hch1; eapply Hnb|done|].
  exists st2. split_and!; [done..|by rewrite Ew, fmap_delete, Hco1|].
  intros a b. rewrite <- Hch1. unfold child. rewrite Ew. split.
  - intros (aw & [_ ?]%lookup_delete_Some & ?). by exists aw.
  - intros (aw & Haw & Hb). exists aw. split; [|done]. apply lookup_delete_Some. split; [|done].
    intros ->. apply (Hnb b). apply (Hch1 a b). by exists aw.
Qed.

Lemma destroy_spec st w win :
  wf st -> wins st !! w = Some win -> object win = None -> destroyable st w win ->
  exists st', destroy_window st w = Some st' /\ wf st' /\
    core <$> wins st' = delete w (delete (content_window win) (core <$> wins st)).
Proof.
  intros Hwf Hw Ho (Ha & Hn & Hnc & Hb & Hcb). unfold avbox_window_destroy.
  destruct (decide (content_window win = w)) as [Hcw|Hcw].
  { destruct (destroy_leaf 1 st w win) as (st' & ? & ? & E & _); try done.
    { intros b Hb'. rewrite (Hb b Hb'), Hcw in Hb'. destruct (wf_rank _ Hwf) as (rank & Hr).
      specialize (Hr w w Hn Hb'). lia. }
    exists st'. split_and!; [done..|]. by rewrite E, Hcw, delete_delete_eq. }
  set (c := content_window win) in *. pose proof (wf_content _ Hwf w win Hw Ha Hcw) as Hc. fold c in Hc.
  destruct (wf_children _ Hwf w c Hc) as (cw & Hcwin & Hcl).
  destruct (wf_leaf _ Hwf w win cw Hw Ha Hcw Hcwin) as (Hcc & Hobj). fold c in Hcc.
  change (destroy_with new_dirty cairo_ok layout_ok 2 st w) with
    (win ← wins st !! w; match object win with
     | Some o => Some (emit (EvObjectDestroy o) st)
     | None => st ← detach_window (destroy_with new_dirty cairo_ok layout_ok 1) st w; __avbox_window_cleanup st w end).
  rewrite Hw. cbn [mbind option_bind]. rewrite Ho.
  destruct (detach_destroy (destroy_with new_dirty cairo_ok layout_ok 1) st w win)
    as (st1 & Hwf1 & Hco1 & Hch1 & Hna1 & ->); [done..|]. fold c.
  destruct (Z.eqb_spec c w); [done|].
  destruct (core_lookup _ _ _ _ (symmetry Hco1) Hcwin) as (cw1 & Hcw1 & (E1 & E2 & _ & E3 & _)%core_fields).
  destruct (core_lookup _ _ _ _ (symmetry Hco1) Hw) as (win1 & Hw1 & _).
  destruct (destroy_leaf 0 st1 c cw1) as (st2 & -> & Hwf2 & Hco2 & Hch2); try done.
  { exists w. apply Hch1. done. }
  { by apply (child_not_root st w). }
  { intros x xw Hx Hxa Hxn Hxc. pose proof (wf_content _ Hwf1 x xw Hx Hxa) as Hxch. rewrite Hxc in Hxch.
    specialize (Hxch ltac:(congruence)). destruct (wf_children _ Hwf1 x c Hxch) as (? & ? & ?).
    assert (x = w) as -> by congruence. done. }
  { rewrite E1. by apply Hobj. }
  { congruence. }
  { intros b [Hb' _]%Hch1. by apply (Hcb Hcw b). }
  cbn [mbind option_bind].
  assert (exists win2, wins st2 !! w = Some win2) as (win2 & Hw2).
  { apply (f_equal (fun m => m !! w)) in Hco2. rewrite lookup_delete_ne in Hco2 by done.
    rewrite !lookup_fmap, Hw1 in Hco2. destruct (wins st2 !! w); [eauto|done]. }
  destruct (cleanup_spec st2 w win2) as (st3 & -> & Hwf3 & _ & Ew3 & _); [done..| | |done|].
  { intros (l & [Hl _]%Hch2). apply Hna1. by exists l. }
  { intros b [[Hb1 _]%Hch1 Hb2]%Hch2. apply Hb2. by apply Hb. }
  exists st3. split_and!; [done..|]. rewrite Ew3, fmap_delete, Hco2, Hco1. done.
Qed.

End Painter.
