(* ===== verification/Desktop.v ===== *)
(** * The windows of a run of the program (src/lib/ui/video.c)

    Any sequence of calls to the window system that keeps to the contract of
    its functions ([contract]), without a creation that fails half-way
    ([fault]), from [avbox_video_init] on: every call returns,
    the invariant holds, and every call that repaints leaves the topmost
    visible window at every pixel. *)

From S2P Require Import Prelude LinkedList Dispatch Input Windows Painting.

Open Scope Z_scope.

(** The calls of the interface.  [mem] and the [answers] are what the
    allocator, the driver and the dispatcher answer; [Message] is a message
    delivered to a window's object, [ans] the answer of the user's handler. *)
Inductive op :=
| New (a c : answers) (title_ok identified : bool) (flags x y w h : Z) (msghandler draw : option Z) (ctx : Z)
| Sub (a : answers) (p flags x y w h : Z) (msghandler draw : option Z) (ctx : Z)
| Show (mem : option loc) (w : Z)
| Hide (w : Z)
| ToFront (w : Z)
| Update (w : Z)
| Destroy (w : Z)
| Message (w msg ans : Z)
| SetDirty (w value : Z)
| SetColor (w color : Z)
| SetBgColor (w color : Z)
| SetDrawFunc (w : Z) (func : option Z) (ctx : Z)
| SetTitle (strdup_ok : bool) (w : Z) (t : string)
| Clear (c : clear_answers) (w : Z).

Section Desktop.
Context (new_dirty : Z -> Z -> Z -> video -> bool) (cairo_ok layout_ok : video -> Z -> bool).

Definition run (o : op) (st : video) : option video :=
  match o with
  | New a c t i flags x y w h mh d ctx => snd <$> avbox_window_new a c t i st None flags x y w h mh d ctx
  | Sub a p flags x y w h mh d ctx =>
      snd <$> avbox_window_new a a true true st (Some p) flags x y w h mh d ctx
  | Show mem w => avbox_window_show new_dirty cairo_ok layout_ok mem st w
  | Hide w => avbox_window_hide new_dirty cairo_ok layout_ok st w
  | ToFront w => avbox_window_tofront new_dirty cairo_ok layout_ok st w
  | Update w => avbox_window_update new_dirty cairo_ok layout_ok st w
  | Destroy w => avbox_window_destroy new_dirty cairo_ok layout_ok st w
  | Message w msg ans => snd <$> avbox_window_handler new_dirty cairo_ok layout_ok st w msg ans
  | SetDirty w v => avbox_window_setdirty st w v
  | SetColor w c => avbox_window_setcolor st w c
  | SetBgColor w c => avbox_window_setbgcolor st w c
  | SetDrawFunc w f ctx => avbox_window_setdrawfunc st w f ctx
  | SetTitle ok w t => snd <$> avbox_window_settitle ok st w t
  | Clear c w => avbox_window_clear c st w
  end.

Fixpoint run_all (os : list op) (st : video) : option video :=
  match os with
  | [] => Some st
  | o :: os => st ← run o st; run_all os st
  end.

(** A top-level window that was created and not destroyed. *)
Definition is_top (st : video) (w : Z) : Prop := child st root_window w.

(** What each call asks of its caller: to show what is hidden, hide and raise
    what is visible, destroy a window after its subwindows, use windows that
    exist; and of the allocator that memory is new. *)
Definition contract (st : video) (o : op) : Prop :=
  match o with
  | New a c _ i flags x y w h mh _ _ => creatable st a c i flags x y w h mh
  | Sub a p flags _ _ _ _ _ _ _ =>
      hasflag flags AVBOX_WNDFLAGS_SUBWINDOW /\ attached st p /\ fresh_window st a
  | Show mem w => is_top st w /\ avbox_window_isvisible st w = Some false /\ fresh_node mem st
  | Hide w | ToFront w => is_top st w /\ avbox_window_isvisible st w = Some true
  | Update w => w ∈ dom (wins st)
  | Destroy w => exists win, wins st !! w = Some win /\ (object win = None -> destroyable st w win)
  | Message w msg ans => exists win, wins st !! w = Some win /\ object win <> None /\
      (msg = AVBOX_MESSAGETYPE_DESTROY -> attached st w /\ w <> root_window /\ no_content st w) /\
      (msg = AVBOX_MESSAGETYPE_CLEANUP -> ~ attached st w /\ w <> root_window /\ children win = []) /\
      (msg <> AVBOX_MESSAGETYPE_DESTROY -> msg <> AVBOX_MESSAGETYPE_CLEANUP ->
       msg <> AVBOX_MESSAGETYPE_DELEGATE -> handler win <> None)
  | SetDirty w _ | SetColor w _ | SetBgColor w _ => w ∈ dom (wins st)
  | SetDrawFunc w _ _ => w = root_window \/ attached st w
  | SetTitle _ w _ => exists win, wins st !! w = Some win /\ content_window win <> w
  | Clear _ w => (w = root_window \/ attached st w) /\
      forall win, wins st !! w = Some win -> content_window win = w -> title win = None
  end.

(** The failure the code does not survive: the content window of a decorated
    window cannot be created; the window is freed while its node stays among
    the children of the root. *)
Definition fault (o : op) : Prop :=
  match o with
  | New a c _ _ flags _ _ _ _ mh _ _ => hasflag flags AVBOX_WNDFLAGS_DECORATED /\ content_fails c mh
  | _ => False
  end.

Definition legal (st : video) (o : op) : Prop := contract st o /\ ~ fault o.

Lemma window_fault_or_not o : fault o \/ ~ fault o.
Proof.
  destruct o as [a c t i flags x y w h mh d ctx| | | | | | | | | | | | |]; simpl; try tauto.
  destruct (hasflag flags AVBOX_WNDFLAGS_DECORATED); [|right; by intros [[] _]]. unfold content_fails.
  destruct (a_window c); [|by left; auto]. destruct (a_node c); [|by left; auto]. destruct (a_surface c); [|by left; auto].
  destruct mh, (a_object c); try (right; intros [_ H]; intuition congruence). left. split; [done|]. by do 3 right.
Qed.

Fixpoint legal_all (os : list op) (st : video) : Prop :=
  match os with
  | [] => True
  | o :: os => legal st o /\ forall st', run o st = Some st' -> legal_all os st'
  end.

(** The calls after which the whole screen was painted again. *)
Definition repaints_screen (st : video) (o : op) : Prop :=
  match o with
  | Show _ _ | Hide _ | ToFront _ => True
  | Update w => avbox_window_isvisible st w = Some true
  | _ => False
  end.

(** ** Every call keeps the invariant *)

(** Stores to the fields that no other part of the window system reads. *)
Lemma wf_modify st w win f :
  wf st -> wins st !! w = Some win ->
  (forall x, skeleton (f x) = skeleton x) -> (forall x, visible (f x) = visible x) ->
  (paint (f win) = Some PaintDecor -> paint win = Some PaintDecor) ->
  exists st', modify w f st = Some st' /\ wf st' /\ log st' = log st /\ wins st' = <[w := f win]> (wins st).
Proof.
  intros Hwf Hw Hf Hv Hp. rewrite (modify_eq st w win f Hw). eexists. split; [done|]. split; [|done].
  apply (wf_frame st); [|done|..]; simpl.
  - split_and!; [|done|].
    + simpl. rewrite fmap_insert, Hf, <- fmap_insert. by rewrite insert_id.
    + intros x xw. simpl. rewrite lookup_insert_Some. intros [[<- <-]|[_ ?]]; eauto.
  - destruct (wf_root _ Hwf) as (r & Hr & Hvr & _). destruct (decide (w = root_window)) as [->|].
    + exists (f win). rewrite lookup_insert_eq. split; [done|]. rewrite Hv. congruence.
    + exists r. by rewrite lookup_insert_ne.
  - apply (wf_stack _ Hwf).
  - intros x Hx Hxn. destruct (wf_tops _ Hwf x Hx Hxn) as (? & xw & ? & ?). split; [done|].
    destruct (decide (w = x)) as [->|]; [rewrite lookup_insert_eq|rewrite lookup_insert_ne by done]; [|by eauto].
    simplify_eq. exists (f win). by rewrite Hv.
  - intros x xw. rewrite lookup_insert_Some. intros [[<- <-]|[_ ?]].
    + rewrite Hv. pose proof (Hf win) as (_ & _ & -> & _)%skeleton_fields. by apply (wf_visible _ Hwf).
    + by apply (wf_visible _ Hwf).
  - apply (wf_input _ Hwf).
Qed.

Lemma top_on_stack st w :
  wf st -> is_top st w -> avbox_window_isvisible st w = Some true -> w ∈ window_stack st /\ w <> root_window.
Proof.
  intros Hwf Ht Hv. split; [|by apply (child_not_root st root_window)].
  destruct (wf_children _ Hwf _ _ Ht) as (win & Hw & Hl). unfold avbox_window_isvisible in Hv. rewrite Hw in Hv.
  simpl in Hv. apply (wf_visible _ Hwf w win Hw); [|congruence]. by apply (wf_parents _ Hwf w).
Qed.

Lemma canvas_of st w :
  wf st -> w = root_window \/ attached st w ->
  exists win cw, wins st !! w = Some win /\ wins st !! content_window win = Some cw.
Proof.
  intros Hwf [->|Ha].
  - destruct (wf_root _ Hwf) as (r & Hr & _ & _ & Hc & _). exists r, r. by rewrite Hc.
  - pose proof Ha as (l & Hc). destruct (wf_children _ Hwf _ _ Hc) as (win & Hw & _).
    destruct (canvas_lookup st w win Hwf Hw Ha) as (cw & ? & _). eauto.
Qed.

(** The call returns a state whose invariant is at hand. *)
Ltac ret := eexists; split; [simpl; reflexivity|simpl; auto].

Lemma message_spec st w msg ans :
  wf st -> contract st (Message w msg ans) ->
  exists st', run (Message w msg ans) st = Some st' /\ wf st'.
Proof.
  intros Hwf (win & Hw & Ho & Hd & Hc & Hh). simpl. unfold avbox_window_handler. rewrite Hw. cbn [mbind option_bind].
  assert (forall e, wf (emit e st)) as Hemit by (intros e; by apply (wf_log st)).
  destruct (Z.eqb_spec msg AVBOX_MESSAGETYPE_DELEGATE); [by ret|].
  destruct (Z.eqb_spec msg AVBOX_MESSAGETYPE_DESTROY) as [Hm|].
  { assert (forall st0, wf st0 -> wins st0 = wins st -> exists st',
      __avbox_window_destroy new_dirty cairo_ok layout_ok (avbox_window_destroy new_dirty cairo_ok layout_ok) st0 w
      = Some st' /\ wf st') as Hdes.
    { intros st0 Hwf0 E0. destruct (Hd Hm) as (Ha & Hn & Hnc). rewrite <- E0 in Hw.
      assert (forall a b, child st0 a b <-> child st a b) as Hch by (intros; unfold child; by rewrite E0).
      assert (attached st0 w) as Ha0 by (destruct Ha as (l & Hl); exists l; by apply Hch).
      destruct (detach_destroy new_dirty cairo_ok layout_ok (avbox_window_destroy new_dirty cairo_ok layout_ok) st0 w win)
        as (st1 & Hwf1 & Hco1 & _ & _ & ->); [done..| |].
      { intros x xw Hx (l & Hl). rewrite E0 in Hx. apply (Hnc x xw Hx). exists l. by apply Hch. }
      destruct (Z.eqb_spec (content_window win) w) as [|Hcw]; [by ret|].
      pose proof (wf_content _ Hwf0 w win Hw Ha0 Hcw) as Hcc.
      destruct (wf_children _ Hwf0 _ _ Hcc) as (cw & Hcwin & _).
      destruct (wf_leaf _ Hwf0 w win cw Hw Ha0 Hcw Hcwin) as (_ & Hobj).
      destruct (core_lookup _ _ _ _ (symmetry Hco1) Hcwin) as (cw1 & Hcw1 & (E1 & _)%core_fields).
      unfold avbox_window_destroy, destroy_with. rewrite Hcw1. cbn [mbind option_bind].
      destruct (object cw1) as [o|] eqn:Eo; [|destruct Ho; apply Hobj; congruence].
      eexists. split; [done|]. by apply (wf_log st1). }
    destruct (handler win) as [hd|].
    - destruct (Z.eqb_spec ans AVBOX_DISPATCH_OK); [|by ret].
      destruct (Hdes (emit (EvHandler (user_context win) msg) st)) as (st' & -> & ?); [done..|]. by ret.
    - destruct (Hdes st) as (st' & -> & ?); [done..|]. by ret. }
  destruct (Z.eqb_spec msg AVBOX_MESSAGETYPE_CLEANUP) as [Hm|].
  { destruct (Hc Hm) as (Hna & Hn & Hch).
    assert (forall st0, wf st0 -> wins st0 = wins st -> exists st', __avbox_window_cleanup st0 w = Some st' /\ wf st') as Hcl.
    { intros st0 Hwf0 E0. destruct (cleanup_spec st0 w win) as (st' & -> & ? & _); [done|by rewrite E0| | |done|by ret].
      - intros (l & lw & Hlw & ?). rewrite E0 in Hlw. apply Hna. by exists l, lw.
      - intros b (? & Hlw & Hb). rewrite E0 in Hlw. simplify_eq. rewrite Hch in Hb. set_solver. }
    destruct (handler win); [destruct (Hcl (emit (EvHandler (user_context win) msg) st)) as (st' & -> & ?)|
                             destruct (Hcl st) as (st' & -> & ?)]; try done; by ret. }
  destruct (handler win); [by ret|]. by destruct Hh.
Qed.

(** Every legal call returns and keeps the invariant; the repainting ones
    leave the topmost windows on the screen. *)
Lemma run_spec st o :
  wf st -> legal st o ->
  exists st', run o st = Some st' /\ wf st' /\ (repaints_screen st o -> shows st st').
Proof.
  intros Hwf [Hl Hnf]. destruct o as [a c t i fl x y w h mh d ctx|a p fl x y w h mh d ctx|mem w|w|w|w|w|w msg ans|w v|w c|w c|w f ctx|ok w t|c w];
    simpl in Hl; cbn [run repaints_screen].
  - destruct (new_spec a c t i st fl x y w h mh d ctx Hwf Hl Hnf) as (r & st' & -> & ? & _). by eexists.
  - destruct Hl as (Hf & Ha & Hfr). unfold avbox_window_new. destruct (hasflag fl AVBOX_WNDFLAGS_SUBWINDOW); [|done].
    cbn [mbind option_bind]. pose proof Ha as (l & Hc). destruct (wf_children _ Hwf _ _ Hc) as (pw & Hp & _).
    destruct (subwindow_spec a st p pw fl x y w h mh d ctx Hwf Hp Ha Hfr) as (r & st' & -> & ? & _). by eexists.
  - destruct Hl as (Ht & Hv & Hm). destruct (wf_children _ Hwf _ _ Ht) as (win & Hw & _).
    unfold avbox_window_isvisible in Hv. rewrite Hw in Hv. simpl in Hv.
    destruct (show_spec new_dirty cairo_ok layout_ok mem st w win) as (st' & -> & ? & ? & _); [done..|congruence|done|].
    by exists st'.
  - destruct Hl as (Ht & Hv). destruct (top_on_stack st w Hwf Ht Hv) as [Hin Hn].
    destruct (hide_spec new_dirty cairo_ok layout_ok st w Hwf Hin Hn) as (st' & ? & -> & ? & ? & _). by exists st'.
  - destruct Hl as (Ht & Hv). destruct (top_on_stack st w Hwf Ht Hv) as [Hin Hn].
    destruct (tofront_spec new_dirty cairo_ok layout_ok st w Hwf Hin Hn) as (st' & -> & ? & ? & _). by exists st'.
  - apply elem_of_dom in Hl as (win & Hw). destruct (visible win) eqn:Hv.
    + destruct (update_root new_dirty cairo_ok layout_ok st w win Hwf Hw Hv) as (st' & -> & Hr).
      exists st'. split_and!; [done|by apply (repainted_wf st)|intros _].
      apply (shows_intro st st st'); [done|done|done|apply framed_refl|done..].
    + unfold avbox_window_update, avbox_window_isvisible. rewrite Hw. cbn [mbind option_bind]. rewrite Hv. simpl.
      exists st. split_and!; [done..|]. simpl. congruence.
  - destruct Hl as (win & Hw & Hd). destruct (object win) as [ob|] eqn:Eo.
    + unfold avbox_window_destroy, destroy_with. rewrite Hw. cbn [mbind option_bind]. rewrite Eo.
      eexists. split_and!; [done| |done]. by apply (wf_log st).
    + destruct (destroy_spec new_dirty cairo_ok layout_ok st w win) as (st' & -> & ? & _); [done..|by apply Hd|]. by exists st'.
  - destruct (message_spec st w msg ans Hwf Hl) as (st' & ? & ?). by exists st'.
  - apply elem_of_dom in Hl as (win & Hw).
    destruct (wf_modify st w win (with_dirty (negb (v =? 0)))) as (st' & ? & ? & _); [done..|]. by exists st'.
  - apply elem_of_dom in Hl as (win & Hw).
    destruct (wf_modify st w win (fun x => with_colors c (background_color x) x)) as (st' & ? & ? & _); [done..|]. by exists st'.
  - apply elem_of_dom in Hl as (win & Hw).
    destruct (wf_modify st w win (fun x => with_colors (foreground_color x) c x)) as (st' & ? & ? & _); [done..|]. by exists st'.
  - destruct (canvas_of st w Hwf Hl) as (win & cw & Hw & Hcw).
    unfold avbox_window_setdrawfunc. rewrite Hw. cbn [mbind option_bind].
    destruct (wf_modify st (content_window win) cw (with_paint (UserDraw <$> f))) as (st1 & -> & Hwf1 & _ & Ew1);
      [done..|by destruct f|]. cbn [mbind option_bind].
    assert (exists win1, wins st1 !! w = Some win1) as (win1 & Hw1).
    { rewrite Ew1. destruct (decide (content_window win = w)) as [->|].
      - rewrite lookup_insert_eq. eauto.
      - rewrite lookup_insert_ne by done. eauto. }
    destruct (wf_modify st1 w win1 (with_draw_context ctx)) as (st2 & -> & ? & _); [done..|]. by exists st2.
  - destruct Hl as (win & Hw & Hc). unfold avbox_window_settitle. rewrite Hw. cbn [mbind option_bind].
    destruct (Z.eqb_spec (content_window win) w); [done|]. destruct ok; [|by exists st].
    destruct (wf_modify st w win (with_title (Some t))) as (st' & -> & ? & _); [done..|]. by exists st'.
  - destruct Hl as (Ha & Ht).
    destruct (canvas_of st w Hwf Ha) as (win & cw & Hw & Hcw).
    unfold avbox_window_clear. rewrite Hw. cbn [mbind option_bind].
    destruct (clear_spec c st w win (AVBOX_COLOR_PREMULT (background_color win)) cw) as (st' & -> & ? & _); [done..|by apply Ht|].
    by exists st'.
Qed.

(** ** Runs of the program *)

Lemma init_wf surf strdup_ok font_ok i objs w h st :
  avbox_video_init surf strdup_ok font_ok i w h = (0, Some st) -> rect_ok (Rect 0 0 w h) ->
  Endpoints.stack_rep i objs -> wf st.
Proof.
  unfold avbox_video_init. destruct surf as [s|]; [|done]. destruct strdup_ok; [|done]. simpl.
  destruct font_ok; [|done]. intros [= <-] Hok Hi.
  set (root := Window s _ _ _ _ _ _ _ _ _ _ _ _ _ _ _ _ _ _).
  assert (forall x xw, ({[root_window := root]} : gmap Z avbox_window) !! x = Some xw -> x = root_window /\ xw = root) as Hl.
  { intros x xw. rewrite lookup_singleton_Some. naive_solver. }
  assert (forall st0, wins st0 = {[root_window := root]} -> forall a b, ~ child st0 a b) as Hnc.
  { intros st0 E a b (aw & Ha & Hb). rewrite E in Ha. apply Hl in Ha as [_ ->]. simpl in Hb. set_solver. }
  split; simpl.
  - exists root. rewrite lookup_singleton_eq. by split_and!.
  - exists []. split; [done|]. apply NoDup_singleton.
  - intros x Hx Hn. set_solver.
  - intros x xw [-> ->]%Hl. done.
  - intros x xw [-> ->]%Hl. done.
  - intros x xw [-> ->]%Hl. constructor.
  - intros a b Hab. by apply Hnc in Hab.
  - intros x xw [-> ->]%Hl. done.
  - intros x xw [-> ->]%Hl (l & Hc). by apply Hnc in Hc.
  - intros x xw cw [-> ->]%Hl (l & Hc). by apply Hnc in Hc.
  - intros x xw [-> ->]%Hl (l & Hc). by apply Hnc in Hc.
  - exists (fun _ => 0%nat). intros a b _ Hc. by apply Hnc in Hc.
  - by exists objs.
  - unfold font_height_for. destruct (1920 <=? w), (1280 <=? w), (1024 <=? w); lia.
Qed.

(** The states of a program that starts the window system on a screen of a
    sane size and keeps to the contract of its functions. *)
Definition reachable (st : video) : Prop :=
  exists surf strdup_ok font_ok i objs w h st0 os,
    avbox_video_init surf strdup_ok font_ok i w h = (0, Some st0) /\ rect_ok (Rect 0 0 w h) /\
    Endpoints.stack_rep i objs /\ legal_all os st0 /\ run_all os st0 = Some st.

Lemma run_all_wf os st st' : wf st -> legal_all os st -> run_all os st = Some st' -> wf st'.
Proof.
  revert st. induction os as [|o os IH]; intros st Hwf Hl E; [by simplify_eq/=|].
  destruct Hl as [Ho Hl]. destruct (run_spec st o Hwf Ho) as (st1 & E1 & Hwf1 & _).
  simpl in E. rewrite E1 in E. by apply (IH st1); [|apply Hl|].
Qed.

Lemma reachable_wf st : reachable st -> wf st.
Proof.
  intros (surf & sok & fok & i & objs & w & h & st0 & os & E & Hok & Hi & Hl & Er).
  eapply run_all_wf; [|done..]. by eapply init_wf.
Qed.

Lemma legal_all_snoc os o st st1 :
  legal_all os st -> run_all os st = Some st1 -> legal st1 o -> legal_all (os ++ [o]) st.
Proof.
  revert st. induction os as [|p os IH]; intros st Hl E Ho; [simplify_eq/=; by split|].
  destruct Hl as [Hp Hl]. split; [done|]. intros st' E'. simpl in E. rewrite E' in E. by apply IH; [apply Hl|..].
Qed.

Lemma run_all_snoc os o st st1 : run_all os st = Some st1 -> run_all (os ++ [o]) st = run o st1.
Proof.
  revert st. induction os as [|p os IH]; intros st E; simplify_eq/=; [by destruct (run o st1)|].
  destruct (run p st) as [st'|]; [|done]. by apply IH.
Qed.

Lemma reachable_step st o st' : reachable st -> legal st o -> run o st = Some st' -> reachable st'.
Proof.
  intros (surf & sok & fok & i & objs & w & h & st0 & os & E & Hok & Hi & Hl & Er) Ho E'.
  exists surf, sok, fok, i, objs, w, h, st0, (os ++ [o]). split_and!; [done..| |].
  - by eapply legal_all_snoc.
  - by rewrite (run_all_snoc os o st0 st).
Qed.

(** ** The order of the calls *)

(** The top-level windows among the updates of a log. *)
Definition top_update (st : video) (e : event) : option Z :=
  match e with
  | EvUpdate w _ _ =>
      match wins st !! w with
      | Some win => if bool_decide (parent win = Some root_window) then Some w else None
      | None => None
      end
  | _ => None
  end.

Definition tops_updated (st : video) (evs : list event) : list Z := omap (top_update st) evs.

Lemma tops_updated_cons st e evs :
  tops_updated st (e :: evs) =
  match top_update st e with Some w => w :: tops_updated st evs | None => tops_updated st evs end.
Proof. done. Qed.

Lemma inside_not_top st w c :
  wf st -> w <> root_window -> tc (child st) w c ->
  exists cw, wins st !! c = Some cw /\ parent cw <> Some root_window.
Proof.
  intros Hwf Hn Hc. induction Hc as [w c Hwc|w x c Hwx _ IH]; [|by apply IH, (child_not_root st w)].
  destruct (wf_children _ Hwf w c Hwc) as (cw & Hcw & Hl). exists cw. split; [done|].
  rewrite (wf_parents _ Hwf c cw Hcw). congruence.
Qed.

Lemma tops_updated_inside st w evs :
  wf st -> w <> root_window -> Forall (inside st w) evs -> tops_updated st evs = [].
Proof.
  intros Hwf Hn. induction 1 as [|e evs He _ IH]; [done|]. rewrite tops_updated_cons, IH.
  destruct e as [| | |c f u| | | |]; try done. simpl in He |- *.
  destruct (inside_not_top st w c Hwf Hn He) as (cw & -> & ?). by rewrite bool_decide_false.
Qed.

Lemma tops_updated_app st e1 e2 : tops_updated st (e1 ++ e2) = tops_updated st e1 ++ tops_updated st e2.
Proof. apply omap_app. Qed.

Lemma tops_updated_blocks st evs ws :
  wf st -> blocks st evs ws -> (forall w, w ∈ ws -> w ∈ window_stack st /\ w <> root_window) ->
  tops_updated st evs = ws.
Proof.
  intros Hwf. induction 1 as [|w win pre evs ws Hw Hp _ IH]; intros Hin; [done|].
  destruct (Hin w) as [Hs Hn]; [set_solver|].
  rewrite tops_updated_app, (tops_updated_inside st w pre) by done. cbn [app].
  destruct (top_lookup st w Hwf Hs Hn) as (? & ? & Hpar & _). rewrite tops_updated_cons. simpl. simplify_eq.
  rewrite Hw, bool_decide_true by done. f_equal. apply IH. set_solver.
Qed.

(** ** Properties *)

(** C16. The window system is safe: in every state a program reaches from
    [avbox_video_init] by calls that keep to their contract ([contract]: it
    shows hidden windows, hides and raises visible ones, destroys a window
    after its subwindows), as long as the creation of a decorated window has
    not failed half-way ([fault]: there was no memory for its content
    window), the stack has the root window at the bottom and above it
    exactly the visible top-level windows, each once; every subwindow list
    holds live windows only; and every further call that keeps to its
    contract (creation also when another allocation fails, showing, hiding,
    raising, updating, destroying, messages) is that failure or returns
    without undefined behaviour, in a state where the same holds. *)
Theorem window_calls_safe (st : video) :
  reachable st ->
  (exists tops, window_stack st = root_window :: tops /\ NoDup (root_window :: tops)) /\
  (forall w, w <> root_window -> (w ∈ window_stack st <->
     exists win, wins st !! w = Some win /\ parent win = Some root_window /\ visible win = true)) /\
  (forall w win c, wins st !! w = Some win -> c ∈ children win -> is_Some (wins st !! c)) /\
  (forall o, contract st o -> fault o \/ exists st', run o st = Some st' /\ reachable st').
Proof.
  intros Hr. pose proof (reachable_wf st Hr) as Hwf. split_and!.
  - apply (wf_stack _ Hwf).
  - intros w Hn. split.
    + intros Hin. destruct (top_lookup st w Hwf Hin Hn) as (win & ? & ? & ? & _). eauto.
    + intros (win & ? & ? & ?). by eapply (wf_visible _ Hwf).
  - intros w win c Hw Hc. destruct (wf_children _ Hwf w c) as (? & ? & _); [by exists win|done].
  - intros o Ho. destruct (window_fault_or_not o) as [|Hf]; [by left|right].
    destruct (run_spec st o Hwf (conj Ho Hf)) as (st' & ? & _). exists st'. split; [done|].
    by eapply reachable_step.
Qed.

(** C24. Showing, hiding, raising and updating a window leave the right
    picture: the calls the operation makes end with the update of the root
    window (the page flip), and for every pixel inside some visible window
    the last of the top-level windows drawn over that pixel is the topmost
    visible one, whatever the order of creation and however often windows
    below it were painted again. *)
Theorem screen_shows_topmost (st : video) (o : op) :
  reachable st -> legal st o -> repaints_screen st o ->
  exists st' evs flags, run o st = Some st' /\
    log st' = log st ++ evs ++ [EvUpdate root_window flags false] /\
    forall p t, topmost st' p = Some t -> seen (rect_of st') p (tops_updated st' evs) = Some t.
Proof.
  intros Hr Hl Hp. pose proof (reachable_wf st Hr) as Hwf.
  destruct (run_spec st o Hwf Hl) as (st' & E & Hwf' & Hsh).
  destruct (Hsh Hp) as (mid & ? & ws & El & _ & (r & pre & evs & _ & -> & _ & Hb & Hin) & Hseen).
  exists st', (mid ++ pre ++ evs), (blitflags r). split_and!; [done|by rewrite El, <- !app_assoc|].
  intros p t Ht. rewrite !tops_updated_app, !seen_app, (tops_updated_blocks st' evs ws) by done.
  by rewrite (Hseen p t Ht).
Qed.

(** *** The cost of a repaint *)

Lemma length_concat_map (f : Z -> list Z) l : length (concat (map f l)) = sum_list_with (fun c => length (f c)) l.
Proof. induction l as [|c l IH]; [done|]. simpl. by rewrite length_app, IH. Qed.

Lemma child_updates_length st l c ds :
  wf st -> window_stack st = l ++ c :: ds -> c <> root_window ->
  (forall k w e, c :: ds = k ++ w :: e -> covered (rect_of st) w e = false) ->
  Z.of_nat (length (child_updates st c)) = 2 ^ Z.of_nat (length ds).
Proof.
  intros Hwf Est Hn Hcov. assert (c ∈ window_stack st) as Hin by (rewrite Est; set_solver).
  destruct (top_lookup st c Hwf Hin Hn) as (cw & Hcw & _ & Hv & _).
  destruct (window_split _ _ _ _ Hwf Est) as (Hcl & _). unfold child_updates.
  rewrite Hcw, Hv, Est, above_app by done. simpl. unfold top_updates. rewrite (Hcov [] c ds eq_refl).
  cbn [length]. rewrite Nat2Z.inj_succ, all_updates_length; [lia|]. intros k w e ->. by apply (Hcov (c :: k)).
Qed.

Lemma tops_updates_length st ds :
  wf st -> forall l, window_stack st = l ++ ds -> root_window ∉ ds ->
  (forall k w e, ds = k ++ w :: e -> covered (rect_of st) w e = false) ->
  Z.of_nat (sum_list_with (fun c => length (child_updates st c)) ds) = 2 ^ Z.of_nat (length ds) - 1.
Proof.
  intros Hwf. induction ds as [|c ds IH]; intros l Est Hr Hcov; [done|].
  cbn [sum_list_with length]. rewrite Nat2Z.inj_add, Nat2Z.inj_succ, Z.pow_succ_r by lia.
  rewrite (child_updates_length st l c ds) by (done || set_solver).
  rewrite (IH (l ++ [c])); [lia|by rewrite <- app_assoc|set_solver|]. intros k w e ->. by apply (Hcov (c :: k)).
Qed.

Lemma root_updates_length st tops :
  wf st -> window_stack st = root_window :: tops ->
  (forall k w ds, tops = k ++ w :: ds -> covered (rect_of st) w ds = false) ->
  Z.of_nat (length (root_updates st)) = 2 ^ Z.of_nat (length tops) - 1.
Proof.
  intros Hwf Est Hcov. destruct (wf_stack _ Hwf) as (tops' & Est' & Hnd). simplify_eq.
  rewrite Est in Est'. injection Est' as <-. apply NoDup_cons in Hnd as [Hr Hnd].
  unfold root_updates, root_children. destruct (wf_root _ Hwf) as (r & Hrw & _). rewrite Hrw, length_concat_map.
  assert (tops ⊆+ children r) as (k & Hk)%submseteq_Permutation.
  { apply NoDup_submseteq; [done|]. intros x Hx. destruct (wf_tops _ Hwf x) as ((r' & ? & ?) & _);
      [rewrite Est; set_solver|set_solver|congruence]. }
  rewrite Hk, sum_list_with_app, Nat2Z.inj_add, (tops_updates_length st tops Hwf [root_window]) by done.
  enough (sum_list_with (fun c => length (child_updates st c)) k = 0%nat) by lia.
  pose proof (wf_nodup _ Hwf _ _ Hrw) as Hndc. rewrite Hk in Hndc. apply NoDup_app in Hndc as (_ & Hdis & _).
  assert (forall x, x ∈ k -> child_updates st x = []) as H0.
  { intros x Hx. unfold child_updates. destruct (wins st !! x) as [xw|] eqn:Hxw; [|done].
    destruct (visible xw) eqn:Hv; [|done]. exfalso.
    assert (child st root_window x) as Hc by (exists r; split; [done|]; rewrite Hk; set_solver).
    destruct (wf_children _ Hwf _ _ Hc) as (? & ? & ?). simplify_eq.
    assert (x ∈ window_stack st) as Hin by (eapply (wf_visible _ Hwf); [done|by eapply (wf_parents _ Hwf x)|done]).
    rewrite Est in Hin. apply elem_of_cons in Hin as [->|Hin]; [by apply (child_not_root _ _ _ Hwf Hc)|].
    by apply (Hdis x). }
  clear -H0. induction k as [|x k IH]; [done|]. simpl. rewrite (H0 x), IH; [done|set_solver..].
Qed.

(** A repaint is exponential in the number of windows on the screen:
    when none of the [n] visible top-level windows is covered by one above
    it, one update of any visible window updates surfaces of top-level
    windows [2^n - 1] times, since each painted window paints every window
    above it again. *)
Lemma repaint_cost (st : video) (w : Z) (tops : list Z) :
  reachable st -> avbox_window_isvisible st w = Some true -> window_stack st = root_window :: tops ->
  (forall k x ds, tops = k ++ x :: ds -> covered (rect_of st) x ds = false) ->
  exists st' evs flags, run (Update w) st = Some st' /\
    log st' = log st ++ evs ++ [EvUpdate root_window flags false] /\
    Z.of_nat (length (tops_updated st' evs)) = 2 ^ Z.of_nat (length tops) - 1.
Proof.
  intros Hr Hv Est Hcov. pose proof (reachable_wf st Hr) as Hwf. unfold avbox_window_isvisible in Hv.
  destruct (wins st !! w) as [win|] eqn:Hw; [|done]. simpl in Hv.
  destruct (update_root new_dirty cairo_ok layout_ok st w win) as (st' & E & Hrep); [done|done|congruence|].
  destruct Hrep as (Hs & r & pre & evs & _ & El & Hpre & Hb).
  exists st', (pre ++ evs), (blitflags r). split_and!; [done|by rewrite El, <- !app_assoc|].
  assert (wf st') as Hwf' by by apply (wf_same st).
  rewrite tops_updated_app, (tops_updated_blocks st' evs (root_updates st)); [|done| |].
  - assert (tops_updated st' pre = []) as ->; [|by apply root_updates_length].
    clear -Hpre. induction Hpre as [|e pre (fn & ctx & ->) _ IH]; [done|]. by rewrite tops_updated_cons.
  - apply (blocks_framed st); [by apply same_framed|done].
  - intros x Hx. destruct Hs as (_ & <- & _). by apply root_updates_elem.
Qed.

End Desktop.

(** [avbox_rect_covers] decides inclusion of pixels: for rectangles of
    sane coordinates, the second not empty, it answers 1 exactly when every
    pixel of the second rectangle is a pixel of the first; the additions
    do not overflow. *)
Lemma rect_covers_pixels (r1 r2 : avbox_rect) :
  rect_ok r1 -> rect_ok r2 -> 0 < rw r2 -> 0 < rh r2 ->
  exists b, avbox_rect_covers r1 r2 = Some b /\
    (b = true <-> forall p, in_rect r2 p -> in_rect r1 p).
Proof.
  intros H1 H2 Hw Hh. exists (covers r1 r2). split; [by apply rect_covers_ok|]. split.
  - intros Hc p. apply covers_pixels. by rewrite Hc.
  - intros Hp. pose proof (Hp (rx r2, ry r2)) as Ha. pose proof (Hp (rx r2 + rw r2 - 1, ry r2 + rh r2 - 1)) as Hb.
    unfold in_rect in Ha, Hb. simpl in Ha, Hb. rewrite !andb_True, !Is_true_true, !Z.leb_le, !Z.ltb_lt in Ha, Hb.
    unfold covers. rewrite !andb_true_iff, !Z.leb_le. lia.
Qed.

(** *** Witnesses *)

(** A program with two windows: the second overlaps the first and is then
    sent below it.  Every paint handler clears the dirty bit. *)
Definition demo_dirty (fn w ctx : Z) (st : video) : bool := false.
Definition demo_ok (st : video) (w : Z) : bool := true.

Definition demo_run : op -> video -> option video := run demo_dirty demo_ok demo_ok.

Definition demo_answers (w : Z) : answers := Answers (Some w) true (Some (100 + w)) (Some (200 + w)) (ClearAnswers true false false).
Definition no_answers : answers := Answers None false None None (ClearAnswers false false false).

Definition demo_new (w x y : Z) : op :=
  New (demo_answers w) no_answers true true AVBOX_WNDFLAGS_INPUT x y 300 200 (Some 7) (Some 9) 0.

Definition demo_start : video :=
  default (Video ∅ [] 0 Endpoints.avbox_input_init [])
    (avbox_video_init (Some 100) true true Endpoints.avbox_input_init 1280 720).2.

Definition demo_ops : list op :=
  [demo_new 10 0 0; demo_new 20 100 100; Show (Some 5%positive) 20; Show (Some 6%positive) 10].

Definition demo_state : video := default demo_start (run_all demo_dirty demo_ok demo_ok demo_ops demo_start).

Lemma legal_all_cons o os st st' :
  legal st o -> demo_run o st = Some st' -> legal_all demo_dirty demo_ok demo_ok os st' ->
  legal_all demo_dirty demo_ok demo_ok (o :: os) st.
Proof. intros Ho E Hl. split; [done|]. intros st2 E2. unfold demo_run in E. congruence. Qed.

Lemma demo_creatable st w x y :
  wins st !! w = None -> w <> root_window -> rect_ok (Rect x y 300 200) -> legal st (demo_new w x y).
Proof. intros H1 H2 H3. split; [split; try done|]. by intros [? _]. Qed.

(** A lookup in a concrete heap. *)
Ltac is_child := eexists; split; [vm_compute; reflexivity|by_eval].

Lemma demo_reachable : reachable demo_dirty demo_ok demo_ok demo_state.
Proof.
  exists (Some 100), true, true, Endpoints.avbox_input_init, [], 1280, 720, demo_start, demo_ops.
  split_and!; [vm_compute; reflexivity|done|apply Endpoints.init_rep| |vm_compute; reflexivity].
  - eapply legal_all_cons; [apply demo_creatable; done|vm_compute; reflexivity|].
    eapply legal_all_cons; [apply demo_creatable; done|vm_compute; reflexivity|].
    eapply legal_all_cons; [split; [split_and!; [is_child|vm_compute; reflexivity|]|by intros []]|vm_compute; reflexivity|].
    { by_eval. }
    eapply legal_all_cons; [split; [split_and!; [is_child|vm_compute; reflexivity|]|by intros []]|vm_compute; reflexivity|done].
    { by_eval. }
Qed.

Lemma demo_hide_legal : legal demo_state (Hide 10).
Proof. split; [split; [is_child|vm_compute; reflexivity]|by intros []]. Qed.

Lemma window_calls_safe_witness :
  window_stack demo_state = [root_window; 20; 10] /\ exists st', demo_run (Hide 10) demo_state = Some st'.
Proof.
  destruct (window_calls_safe demo_dirty demo_ok demo_ok demo_state demo_reachable) as (_ & _ & _ & H).
  split; [vm_compute; reflexivity|]. destruct (H (Hide 10) (proj1 demo_hide_legal)) as [[]|(st' & E & _)]. exists st'. exact E.
Defined.

(** After window 10 is hidden, window 20 is the last one drawn at a pixel
    of both. *)
Lemma screen_shows_topmost_witness :
  topmost demo_state (150, 150) = Some 10 /\
  exists st' evs flags, demo_run (Hide 10) demo_state = Some st' /\
    log st' = log demo_state ++ evs ++ [EvUpdate root_window flags false] /\
    topmost st' (150, 150) = Some 20 /\ seen (rect_of st') (150, 150) (tops_updated st' evs) = Some 20.
Proof.
  split; [vm_compute; reflexivity|].
  destruct (screen_shows_topmost demo_dirty demo_ok demo_ok demo_state (Hide 10) demo_reachable demo_hide_legal I)
    as (st' & evs & f & E & El & H).
  assert (topmost st' (150, 150) = Some 20) as Ht.
  { assert (topmost (default demo_state (demo_run (Hide 10) demo_state)) (150, 150) = Some 20) as Hd
      by (vm_compute; reflexivity).
    unfold demo_run in Hd. by rewrite E in Hd. }
  exists st', evs, f. split_and!; [exact E|done|done|]. by apply H.
Defined.

Lemma repaint_cost_witness :
  exists st' evs flags, demo_run (Update 10) demo_state = Some st' /\
    log st' = log demo_state ++ evs ++ [EvUpdate root_window flags false] /\
    length (tops_updated st' evs) = 3%nat.
Proof.
  destruct (repaint_cost demo_dirty demo_ok demo_ok demo_state 10 [20; 10] demo_reachable)
    as (st' & evs & f & E & El & Hn); [vm_compute; reflexivity..| |].
  - intros k x ds Hk. destruct k as [|? [|? k]]; simplify_eq/=; try (vm_compute; reflexivity).
    all: by destruct k.
  - exists st', evs, f. split_and!; [exact E|done|]. simpl in Hn. lia.
Defined.

Lemma rect_covers_pixels_witness :
  avbox_rect_covers (Rect 0 0 300 200) (Rect 10 10 50 50) = Some true /\
  (forall p, in_rect (Rect 10 10 50 50) p -> in_rect (Rect 0 0 300 200) p).
Proof.
  destruct (rect_covers_pixels (Rect 0 0 300 200) (Rect 10 10 50 50)) as (b & E & Hb); [done..|].
  split; [vm_compute; reflexivity|]. apply Hb. vm_compute in E. congruence.
Defined.

(** ** Where the code departs from its intent *)

(** An alpha-blended window over two others is blended into the back buffer
    twice by one repaint of the bottom window. *)
Example blended_twice (R : Z -> avbox_rect) :
  covered R 1 [2; 3] = false -> covered R 2 [3] = false -> top_updates R 1 [2; 3] = [1; 2; 3; 3].
Proof.
  intros H1 H2. unfold top_updates. rewrite H1. simpl in *. rewrite H2. done.
Qed.

(** When the content window of a decorated window cannot be allocated, the
    window is freed but its node stays among the children of the root
    window: the next repaint reads freed memory. *)
Example content_failure_dangles :
  let o := New (demo_answers 10) no_answers true true AVBOX_WNDFLAGS_DECORATED 0 0 300 200 None None 0 in
  (fun st => (wins st !! 10, root_children st)) <$> demo_run o demo_start = Some (None, [10]) /\
  run_all demo_dirty demo_ok demo_ok [o; Update root_window] demo_start = None.
Proof. split; vm_compute; reflexivity. Qed.

(** Showing a window that is visible links its node into the stack a second
    time; hiding a hidden one unlinks a node that is on no list. *)
Example show_twice_corrupts :
  demo_run (Show None 10) demo_state = None /\
  is_Some (demo_run (Hide 10) demo_state) /\
  run_all demo_dirty demo_ok demo_ok [Hide 10; Hide 10] demo_state = None.
Proof. split_and!; [vm_compute; reflexivity| |vm_compute; reflexivity]. by_eval. Qed.

(** A subwindow whose parent is destroyed first is left on a freed list. *)
Example orphan_subwindow :
  let os := [New (demo_answers 10) no_answers true true 0 0 0 300 200 None (Some 9) 0;
             Sub (demo_answers 11) 10 AVBOX_WNDFLAGS_SUBWINDOW 0 0 50 50 None (Some 9) 0; Destroy 10] in
  is_Some (run_all demo_dirty demo_ok demo_ok os demo_start) /\
  run_all demo_dirty demo_ok demo_ok (os ++ [Destroy 11]) demo_start = None.
Proof. split; [|vm_compute; reflexivity]. by_eval. Qed.

(** The context given with a draw handler does not reach the handler of a
    decorated window: the handler is stored in the content window, the
    context in the window itself. *)
Example decorated_context_lost :
  (fun st => (fun cw => (paint cw, draw_context cw)) <$> wins st !! 11) <$>
    run_all demo_dirty demo_ok demo_ok
      [New (demo_answers 10) (demo_answers 11) true true AVBOX_WNDFLAGS_DECORATED 0 0 300 200 None (Some 9) 77;
       SetDrawFunc 10 (Some 9) 78] demo_start = Some (Some (Some (UserDraw 9), 0)).
Proof. vm_compute; reflexivity. Qed.
