(* ===== verification/Surfaces.v ===== *)
(** * The software video driver (src/lib/ui/video-software.c)

    Surfaces are rectangles of 32-bit pixels in byte buffers.  A buffer is
    an allocated block of bytes; a pointer is a block and an offset, and an
    access outside the block is an error ([None]), as is [memcpy] between
    overlapping ranges.  The file also holds the loop of [__window_clear]
    (src/lib/ui/video.c), which writes to a locked surface. *)

From S2P Require Import Prelude.

Open Scope Z_scope.
#[local] Open Scope avbox_scope.

(** ** Memory *)

Abbreviation mem := (gmap Z (list Z)).

(** A pointer into a block. *)
Definition ptr : Type := Z * Z.

Definition byte_at (m : mem) (b i : Z) : option Z :=
  l ← m !! b; if 0 <=? i then l !! Z.to_nat i else None.

Definition size_of (m : mem) (b : Z) : Z := match m !! b with Some l => len l | None => 0 end.

Definition store_bytes (m : mem) (p : ptr) (bs : list Z) : option mem :=
  l ← m !! p.1;
  if (0 <=? p.2) && (p.2 + len bs <=? len l)
  then Some (<[p.1 := take (Z.to_nat p.2) l ++ bs ++ drop (Z.to_nat (p.2 + len bs)) l]> m) else None.

Definition load_bytes (m : mem) (p : ptr) (n : Z) : option (list Z) :=
  l ← m !! p.1;
  if (0 <=? p.2) && (0 <=? n) && (p.2 + n <=? len l) then Some (ztake n (zdrop p.2 l)) else None.

(** The standard library's [memcpy]. *)
Definition memcpy (m : mem) (dst src : ptr) (n : Z) : option mem :=
  if bool_decide (dst.1 = src.1) && (src.2 <? dst.2 + n) && (dst.2 <? src.2 + n) then None else
  bs ← load_bytes m src n; store_bytes m dst bs.

Lemma byte_at_store m p bs m' b i :
  store_bytes m p bs = Some m' ->
  byte_at m' b i = if bool_decide (b = p.1) && (p.2 <=? i) && (i <? p.2 + len bs)
                   then bs !! Z.to_nat (i - p.2) else byte_at m b i.
Proof.
  destruct p as [pb po]. unfold store_bytes. simpl. destruct (m !! pb) as [l|] eqn:El; [|done]. cbn [mbind option_bind].
  destruct (Z.leb_spec 0 po); [|done]. destruct (Z.leb_spec (po + len bs) (len l)); [|done]. simpl. intros [= <-].
  unfold byte_at, len in *. destruct (bool_decide_reflect (b = pb)) as [->|Hb]; simpl.
  2: { by rewrite lookup_insert_ne. }
  rewrite lookup_insert_eq, El. cbn [mbind option_bind].
  destruct (Z.leb_spec 0 i); simpl.
  2: { by destruct (Z.leb_spec po i); [lia|]. }
  destruct (Z.leb_spec po i); simpl.
  - rewrite lookup_app_r by (rewrite length_take; lia). rewrite length_take, Nat.min_l by lia.
    destruct (Z.ltb_spec i (po + Z.of_nat (length bs))).
    + rewrite lookup_app_l by lia. f_equal. lia.
    + rewrite lookup_app_r by lia. rewrite lookup_drop. f_equal. lia.
  - rewrite lookup_app_l by (rewrite length_take; lia). rewrite lookup_take by lia.
    by rewrite decide_True by lia.
Qed.

Lemma size_of_store m p bs m' b : store_bytes m p bs = Some m' -> size_of m' b = size_of m b.
Proof.
  destruct p as [pb po]. unfold store_bytes. simpl. destruct (m !! pb) as [l|] eqn:El; [|done]. cbn [mbind option_bind].
  destruct (Z.leb_spec 0 po); [|done]. destruct (Z.leb_spec (po + len bs) (len l)); [|done]. simpl. intros [= <-].
  unfold size_of, len in *. destruct (decide (b = pb)) as [->|]; [|by rewrite lookup_insert_ne].
  rewrite lookup_insert_eq, El, !length_app, length_take, length_drop. lia.
Qed.

Lemma store_bytes_ok m p bs :
  0 <= p.2 -> p.2 + len bs <= size_of m p.1 -> is_Some (m !! p.1) -> exists m', store_bytes m p bs = Some m'.
Proof.
  destruct p as [pb po]. unfold size_of, store_bytes. simpl. intros H0 H1 (l & El). rewrite El in *.
  cbn [mbind option_bind]. destruct (Z.leb_spec 0 po); [|lia]. destruct (Z.leb_spec (po + len bs) (len l)); [|lia].
  by eexists.
Qed.

Lemma store_bytes_dom m p bs m' b : store_bytes m p bs = Some m' -> is_Some (m' !! b) <-> is_Some (m !! b).
Proof.
  destruct p as [pb po]. unfold store_bytes. simpl. destruct (m !! pb) as [l|] eqn:El; [|done]. cbn [mbind option_bind].
  destruct (_ && _); [|done]. intros [= <-]. destruct (decide (b = pb)) as [->|]; [|by rewrite lookup_insert_ne].
  rewrite lookup_insert_eq, El. split; intros _; by eexists.
Qed.

(** [memcpy] inside both blocks: the bytes of the range are those of the
    source, every other byte stays. *)
Lemma memcpy_spec m dst src n :
  is_Some (m !! dst.1) -> is_Some (m !! src.1) -> 0 <= n ->
  0 <= dst.2 -> dst.2 + n <= size_of m dst.1 -> 0 <= src.2 -> src.2 + n <= size_of m src.1 ->
  dst.1 <> src.1 ->
  exists m', memcpy m dst src n = Some m' /\
    (forall b, size_of m' b = size_of m b) /\ (forall b, is_Some (m' !! b) <-> is_Some (m !! b)) /\
    (forall b i, byte_at m' b i = if bool_decide (b = dst.1) && (dst.2 <=? i) && (i <? dst.2 + n)
                                  then byte_at m src.1 (src.2 + (i - dst.2)) else byte_at m b i).
Proof.
  destruct dst as [db do], src as [sb so]. simpl. intros Hd (l & Hl) Hn H1 H2 H3 H4 Hne. unfold memcpy. simpl.
  rewrite bool_decide_false by done. simpl. unfold load_bytes. simpl. rewrite Hl. cbn [mbind option_bind].
  unfold size_of in H4. rewrite Hl in H4.
  destruct (Z.leb_spec 0 so); [|lia]. destruct (Z.leb_spec 0 n); [|lia]. destruct (Z.leb_spec (so + n) (len l)); [|lia].
  cbn [andb mbind option_bind].
  assert (len (ztake n (zdrop so l)) = n) as Hlen by (rewrite len_ztake; [done|]; rewrite len_zdrop; lia).
  destruct (store_bytes_ok m (db, do) (ztake n (zdrop so l))) as (m' & E); simpl; [done|lia|done|].
  exists m'. split_and!; [done|intros b; by eapply size_of_store|intros b; by eapply store_bytes_dom|].
  intros b i. rewrite (byte_at_store _ _ _ _ _ _ E). simpl. rewrite Hlen.
  destruct (bool_decide (b = db)); [|done]. simpl.
  destruct (Z.leb_spec do i); [|done]. destruct (Z.ltb_spec i (do + n)); [|done]. simpl.
  unfold byte_at. rewrite Hl. cbn [mbind option_bind]. destruct (Z.leb_spec 0 (so + (i - do))); [|lia].
  unfold ztake, zdrop. rewrite lookup_take, decide_True by lia. rewrite lookup_drop. f_equal. lia.
Qed.

(** ** Surfaces *)

(** [struct mbv_surface]; [s_pixels] is [None] when the pointer was never
    set. *)
Record mbv_surface := Surface {
  s_real : Z;
  s_parent : option Z;
  s_pixels : option ptr;
  s_pitch : Z;
  s_w : Z;
  s_h : Z;
  s_x : Z;
  s_y : Z;
  s_realx : Z;
  s_realy : Z;
}.

(** The driver: its surfaces, the buffers, the two static surfaces and the
    number of page flips requested. *)
Record driver := Driver {
  surfs : gmap Z mbv_surface;
  bufs : mem;
  display_surface : Z;
  root_surface : Z;
  flips : Z;
}.

Definition set_bufs (m : mem) (d : driver) : driver :=
  Driver (surfs d) m (display_surface d) (root_surface d) (flips d).
Definition set_surfs (f : gmap Z mbv_surface -> gmap Z mbv_surface) (d : driver) : driver :=
  Driver (f (surfs d)) (bufs d) (display_surface d) (root_surface d) (flips d).
Definition with_pixels (p : option ptr) (s : mbv_surface) : mbv_surface :=
  Surface (s_real s) (s_parent s) p (s_pitch s) (s_w s) (s_h s) (s_x s) (s_y s) (s_realx s) (s_realy s).

Definition MBV_LOCKFLAGS_FRONT : Z := 1.
Definition MBV_LOCKFLAGS_READ : Z := 2.
Definition MBV_LOCKFLAGS_WRITE : Z := 4.
Definition MBV_BLITFLAGS_FRONT : Z := 1.
Definition AVBOX_PIXFMT_BGRA : Z := 1.
Definition AVBOX_PIXFMT_YUV420P : Z := 2.

Definition surface_doublebuffered (d : driver) (s : Z) : bool := s =? root_surface d.

(** [inst] is the answer of [malloc]; [block] the answer of [posix_memalign]:
    a new block with its contents, [None] when it fails.  The code compares
    its result, a positive error number, with -1: the failure goes unnoticed
    and [pixels] is never set. *)
Definition surface_new (inst : option Z) (block : option (Z * list Z)) (d : driver)
    (parent : option Z) (x y w h : Z) : option (option Z * driver) :=
  match inst with
  | None => Some (None, d)
  | Some inst =>
  match parent with
  | None =>
      pitch ← (w4 ← chk_int (w * 4); p ← chk_int (w4 + 15); Some (Z.land p (Z.lnot 15)));
      size ← chk_int (pitch * h);
      let s px := Surface inst None px pitch (u32 w) (u32 h) (u32 x) (u32 y) 0 0 in
      match block with
      | Some (b, contents) =>
          if bool_decide (len contents = u64 size) then
            Some (Some inst, Driver (<[inst := s (Some (b, 0))]> (surfs d)) (<[b := contents]> (bufs d))
                               (display_surface d) (root_surface d) (flips d))
          else None
      | None => Some (Some inst, set_surfs (fun m => <[inst := s None]> m) d)
      end
  | Some parent =>
      p ← surfs d !! parent;
      '(b, off) ← s_pixels p;
      let offset := off + u32 (u32 (s_pitch p) * u32 y) + u32 x in
      Some (Some inst, set_surfs (fun m => <[inst := Surface (s_real p) (Some parent) (Some (b, offset))
        (s_pitch p) (u32 w) (u32 h) (u32 x) (u32 y) (u32 (s_realx p + u32 x)) (u32 (s_realy p + u32 y))]> m) d)
  end
  end.

(** Answers the address and the pitch. *)
Definition surface_lock (d : driver) (inst flags : Z) : option (ptr * Z) :=
  s ← surfs d !! inst;
  r ← surfs d !! s_real s;
  if negb (Z.land flags MBV_LOCKFLAGS_FRONT =? 0) then
    if inst =? root_surface d then
      disp ← surfs d !! display_surface d; p ← s_pixels disp; Some (p, s_pitch r)
    else None
  else p ← s_pixels s; Some (p, s_pitch r).

(** The copying loop of [surface_blitbuf]: while [src < end]. *)
Fixpoint blit_rows (fuel : nat) (m : mem) (dst : ptr) (dst_pitch : Z) (src : ptr) (pitch end_ stride_sz : Z) :
    option mem :=
  match fuel with
  | O => None
  | S fuel =>
      if src.2 <? end_ then
        m ← memcpy m dst src stride_sz;
        blit_rows fuel m (dst.1, dst.2 + dst_pitch) dst_pitch (src.1, src.2 + pitch) pitch end_ stride_sz
      else Some m
  end.

(** The result code and the driver, or [None].  The conversion of YUV
    buffers is libswscale's and is left out. *)
Definition surface_blitbuf (d : driver) (surface pix_fmt : Z) (buf : ptr) (pitch flags w h x y : Z) :
    option (Z * driver) :=
  if pix_fmt =? AVBOX_PIXFMT_BGRA then
    let lockflags := if negb (Z.land flags MBV_BLITFLAGS_FRONT =? 0)
                     then Z.lor MBV_LOCKFLAGS_WRITE MBV_LOCKFLAGS_FRONT else MBV_LOCKFLAGS_WRITE in
    '(dst, dst_pitch) ← surface_lock d surface lockflags;
    dy ← chk_int (y * dst_pitch);
    span ← chk_int (pitch * h);
    stride_sz ← chk_int (w * 4);
    dx ← chk_int (x * 4);
    m ← blit_rows (S (Z.to_nat h)) (bufs d) (dst.1, dst.2 + dy + dx) dst_pitch buf pitch (buf.2 + span) stride_sz;
    Some (0, set_bufs m d)
  else None.

Definition surface_blit (d : driver) (dst src flags x y : Z) : option (Z * driver) :=
  '(buf, pitch) ← surface_lock d src MBV_LOCKFLAGS_READ;
  s ← surfs d !! src;
  surface_blitbuf d dst AVBOX_PIXFMT_BGRA buf pitch flags (s32 (s_w s)) (s32 (s_h s)) x y.

(** The buffers of the root and of the display surface are swapped and a
    page flip is requested ([ALWAYS_SWAP]). *)
Definition flip (d : driver) : option driver :=
  r ← surfs d !! root_surface d;
  disp ← surfs d !! display_surface d;
  Some (Driver (<[display_surface d := with_pixels (s_pixels r) disp]>
                  (<[root_surface d := with_pixels (s_pixels disp) r]> (surfs d)))
          (bufs d) (display_surface d) (root_surface d) (flips d + 1)).

Definition surface_update (d : driver) (surface blitflags : Z) (update : bool) : option driver :=
  s ← surfs d !! surface;
  if negb (s_real s =? surface) then Some d else
  if surface =? root_surface d then flip d
  else
    let target := if update then display_surface d else root_surface d in
    '(_, d) ← surface_blit d target surface blitflags (s32 (s_x s)) (s32 (s_y s));
    Some d.

Definition surface_destroy (d : driver) (inst : Z) : option driver :=
  s ← surfs d !! inst;
  p ← s_pixels s;
  let d := match s_parent s with
           | None => set_bufs (delete p.1 (bufs d)) d
           | Some _ => d
           end in
  Some (set_surfs (delete inst) d).

(** [disp] and [root] are the answers of [malloc]; [back] is the back buffer
    of the caller or, when there is none, the block [malloc] answers
    ([own]). *)
Definition avbox_video_softinit (disp root : option Z) (front : ptr) (back own : option ptr) (m : mem)
    (w h pitch : Z) : option (option (Z * driver)) :=
  match disp, root with
  | Some disp, Some root =>
      '(rpitch, px) ← (match back with
        | None => p ← chk_int (w * 4); Some (p, own)
        | Some b => Some (pitch, Some b)
        end);
      match px with
      | None => Some None
      | Some px =>
          let r := Surface root None (Some px) rpitch (u32 w) (u32 h) 0 0 0 0 in
          let s := Surface disp None (Some front) pitch (u32 w) (u32 h) 0 0 0 0 in
          Some (Some (root, Driver {[disp := s; root := r]} m disp root 0))
      end
  | _, _ => Some None
  end.

(** ** Blits *)

Lemma blit_rows_spec h m db do dp sb so sp n :
  is_Some (m !! db) -> is_Some (m !! sb) -> db <> sb -> 0 <= n -> 0 < sp -> n <= sp -> n <= dp ->
  0 <= do -> (h <> 0%nat -> do + Z.of_nat (h - 1) * dp + n <= size_of m db) ->
  0 <= so -> so + Z.of_nat h * sp <= size_of m sb ->
  exists m', blit_rows (S h) m (db, do) dp (sb, so) sp (so + Z.of_nat h * sp) n = Some m' /\
    (forall b, size_of m' b = size_of m b) /\ (forall b, is_Some (m' !! b) <-> is_Some (m !! b)) /\
    (forall b i, b <> db -> byte_at m' b i = byte_at m b i) /\
    (forall r j, 0 <= r < Z.of_nat h -> 0 <= j < n -> byte_at m' db (do + r * dp + j) = byte_at m sb (so + r * sp + j)) /\
    (forall i, (forall r, 0 <= r < Z.of_nat h -> ~ (do + r * dp <= i < do + r * dp + n)) ->
       byte_at m' db i = byte_at m db i).
Proof.
  revert m do so. induction h as [|h IH]; intros m do so Hd Hs Hne Hn Hsp Hnsp Hndp Hdo Hdsz Hso Hssz.
  - exists m. cbn [blit_rows fst snd]. rewrite Z.mul_0_l, Z.add_0_r, Z.ltb_irrefl. split_and!; try done. intros r j [? ?]. exfalso. simpl in *. lia.
  - cbn [blit_rows fst snd]. destruct (Z.ltb_spec so (so + Z.of_nat (S h) * sp)); [|nia].
    specialize (Hdsz ltac:(lia)). replace (S h - 1)%nat with h in Hdsz by lia.
    assert (0 <= Z.of_nat h * dp) by (apply Z.mul_nonneg_nonneg; lia).
    assert (0 <= Z.of_nat h * sp) by (apply Z.mul_nonneg_nonneg; lia).
    rewrite Nat2Z.inj_succ, Z.mul_succ_l in Hssz.
    destruct (memcpy_spec m (db, do) (sb, so) n) as (m1 & -> & Hsz1 & Hdom1 & Hb1); simpl; [done|done|lia..|done|].
    cbn [mbind option_bind].
    destruct (IH m1 (do + dp) (so + sp)) as (m2 & E2 & Hsz2 & Hdom2 & Ho2 & Hhit2 & Hmiss2);
      [by apply Hdom1|by apply Hdom1|done|lia|lia|lia|lia|lia| |lia|rewrite Hsz1; lia|].
    { rewrite Hsz1. intros Hh. replace (Z.of_nat h) with (Z.of_nat (h - 1) + 1) in Hdsz by lia. lia. }
    replace (so + Z.of_nat (S h) * sp) with (so + sp + Z.of_nat h * sp) by lia.
    exists m2. split_and!; [done|intros; by rewrite Hsz2|intros; by rewrite Hdom2|..].
    + intros b i Hb. rewrite Ho2, Hb1 by done. simpl. by rewrite bool_decide_false.
    + intros r j Hr Hj. destruct (decide (r = 0)) as [->|].
      * rewrite Hmiss2; [|intros r' Hr'; nia]. rewrite Hb1. simpl. rewrite bool_decide_true by done. simpl.
        destruct (Z.leb_spec do (do + 0 * dp + j)); [|lia]. destruct (Z.ltb_spec (do + 0 * dp + j) (do + n)); [|lia].
        f_equal. lia.
      * replace (do + r * dp + j) with (do + dp + (r - 1) * dp + j) by lia. rewrite Hhit2 by lia. rewrite Hb1. simpl.
        rewrite bool_decide_false by done. simpl. f_equal. lia.
    + intros i Hi. rewrite Hmiss2.
      * rewrite Hb1. simpl. rewrite bool_decide_true by done. simpl.
        destruct (Z.leb_spec do i), (Z.ltb_spec i (do + n)); try done. exfalso. apply (Hi 0); lia.
      * intros r Hr. replace (do + dp + r * dp) with (do + (r + 1) * dp) by lia. apply Hi. lia.
Qed.

(** ** Clearing a window (src/lib/ui/video.c, [__window_clear]) *)

(** The bytes of a little-endian word of [n] bytes. *)
Fixpoint le (n : nat) (v : Z) : list Z :=
  match n with O => [] | S n => v `mod` 256 :: le n (v / 256) end.

Definition store32 (m : mem) (p : ptr) (v : Z) : option mem := store_bytes m p (le 4 v).
Definition store64 (m : mem) (p : ptr) (v : Z) : option mem := store_bytes m p (le 8 v).

(** The blocks are aligned to 16 bytes. *)
Definition ALIGNED (p : ptr) (bytes : Z) : bool := p.2 `mod` bytes =? 0.

(** [for (pix = 0; pix < w - 1; pix += 2) *pixel64++ = color64]; answers the
    pointer and [pix] after the loop. *)
Fixpoint pairs_loop (fuel : nat) (m : mem) (pixel64 : ptr) (pix w color64 : Z) : option (mem * ptr * Z) :=
  match fuel with
  | O => None
  | S fuel =>
      if pix <? w - 1 then
        m ← store64 m pixel64 color64;
        pairs_loop fuel m (pixel64.1, pixel64.2 + 8) (pix + 2) w color64
      else Some (m, pixel64, pix)
  end.

Definition clear_row64 (m : mem) (buf : ptr) (w color : Z) : option mem :=
  let color64 := Z.lor (Z.shiftl color 32) color in
  '(m, pixel64, pix) ← pairs_loop (S (Z.to_nat w)) m buf 0 w color64;
  if pix <? w then store32 m pixel64 color else Some m.

Fixpoint pixels_loop (fuel : nat) (m : mem) (pixel : ptr) (pix w color : Z) : option mem :=
  match fuel with
  | O => None
  | S fuel =>
      if pix <? w then
        m ← store32 m pixel color;
        pixels_loop fuel m (pixel.1, pixel.2 + 4) (pix + 1) w color
      else Some m
  end.

Definition clear_row32 (m : mem) (buf : ptr) (w color : Z) : option mem :=
  if ALIGNED buf 4 then pixels_loop (S (Z.to_nat w)) m buf 0 w color else None.

(** The loop over the strides of the locked window. *)
Fixpoint clear_rows (fuel : nat) (m : mem) (buf : ptr) (pitch stride h w color : Z) : option mem :=
  match fuel with
  | O => None
  | S fuel =>
      if stride <? h then
        m ← (if ALIGNED buf 8 then clear_row64 m buf w color else clear_row32 m buf w color);
        clear_rows fuel m (buf.1, buf.2 + pitch) pitch (stride + 1) h w color
      else Some m
  end.

(** The reference: every row filled with the colour in one store. *)
Definition solid (w color : Z) : list Z := concat (replicate (Z.to_nat w) (le 4 color)).

Fixpoint fill_rows (h : nat) (m : mem) (buf : ptr) (pitch w color : Z) : option mem :=
  match h with
  | O => Some m
  | S h => m ← store_bytes m buf (solid w color); fill_rows h m (buf.1, buf.2 + pitch) pitch w color
  end.

Lemma store_bytes_app m p a b :
  store_bytes m p (a ++ b) = m1 ← store_bytes m p a; store_bytes m1 (p.1, p.2 + len a) b.
Proof.
  destruct p as [pb po]. unfold store_bytes. simpl. destruct (m !! pb) as [l|] eqn:El; [|done]. cbn [mbind option_bind].
  rewrite len_app. pose proof (len_nonneg a). pose proof (len_nonneg b).
  destruct (Z.leb_spec 0 po); [|done]. simpl.
  destruct (Z.leb_spec (po + len a) (len l)); cbn [mbind option_bind].
  2: { destruct (Z.leb_spec (po + (len a + len b)) (len l)); [lia|done]. }
  rewrite lookup_insert_eq. cbn [mbind option_bind]. unfold len in *.
  rewrite !length_app, length_take, length_drop. rewrite Nat.min_l by lia.
  destruct (Z.leb_spec 0 (po + Z.of_nat (length a))); [|lia]. simpl.
  destruct (Z.leb_spec (po + (Z.of_nat (length a) + Z.of_nat (length b))) (Z.of_nat (length l))).
  2: { destruct (Z.leb_spec (po + Z.of_nat (length a) + Z.of_nat (length b))
         (Z.of_nat (Z.to_nat po + (length a + (length l - Z.to_nat (po + Z.of_nat (length a))))))); [lia|done]. }
  destruct (Z.leb_spec (po + Z.of_nat (length a) + Z.of_nat (length b))
         (Z.of_nat (Z.to_nat po + (length a + (length l - Z.to_nat (po + Z.of_nat (length a))))))); [|lia].
  rewrite insert_insert_eq. do 2 f_equal.
  assert (length (take (Z.to_nat po) l) = Z.to_nat po) as E1 by (rewrite length_take; lia).
  rewrite (app_assoc _ a), take_app_le by (rewrite length_app; lia).
  rewrite (take_ge (_ ++ a)) by (rewrite length_app; lia).
  rewrite drop_app_ge by (rewrite length_app; lia).
  rewrite length_app, E1, drop_drop, <- !app_assoc. do 4 f_equal. lia.
Qed.

Lemma len_le n v : len (le n v) = Z.of_nat n.
Proof. unfold len. f_equal. revert v. induction n as [|n IH]; intros v; simpl; by rewrite ?IH. Qed.

Lemma len_solid w color : 0 <= w -> len (solid w color) = 4 * w.
Proof.
  intros Hw. unfold solid. rewrite <- (Z2Nat.id w) at 2 by done.
  induction (Z.to_nat w) as [|n IH]; [done|]. cbn [replicate concat]. rewrite len_app, len_le, IH. lia.
Qed.

Lemma le_app a b v u :
  0 <= v < 256 ^ Z.of_nat a -> le (a + b) (v + u * 256 ^ Z.of_nat a) = le a v ++ le b u.
Proof.
  revert v. induction a as [|a IH]; intros v Hv.
  - simpl in *. f_equal. lia.
  - cbn [le app Nat.add]. rewrite Nat2Z.inj_succ, Z.pow_succ_r in * by lia.
    replace (v + u * (256 * 256 ^ Z.of_nat a)) with (v + (u * 256 ^ Z.of_nat a) * 256) by ring.
    rewrite Z_mod_plus_full, Z_div_plus_full by done. f_equal. apply IH.
    split; [apply Z.div_pos; lia|apply Z.div_lt_upper_bound; lia].
Qed.

(** Two pixels in one store. *)
Lemma le_pair color :
  0 <= color < 2 ^ 32 -> le 8 (Z.lor (Z.shiftl color 32) color) = le 4 color ++ le 4 color.
Proof.
  intros Hc. assert (Z.lor (Z.shiftl color 32) color = color + color * 2 ^ 32) as ->.
  { pose proof (Z.add_lor_land (Z.shiftl color 32) color) as E.
    assert (Z.land (Z.shiftl color 32) color = 0) as E0; [|rewrite Z.shiftl_mul_pow2 in * by lia; lia].
    apply Z.bits_inj'. intros n Hn. rewrite Z.land_spec, Z.bits_0.
    destruct (Z.ltb_spec n 32); [by rewrite Z.shiftl_spec_low|].
    rewrite (Z.bits_above_log2 color); [apply andb_false_r|lia|].
    destruct (decide (color = 0)) as [->|]; [simpl; lia|]. apply Z.log2_lt_pow2; [lia|].
    apply Z.lt_le_trans with (2 ^ 32); [lia|]. apply Z.pow_le_mono_r; lia. }
  change (2 ^ 32) with (256 ^ Z.of_nat 4) in *. by apply (le_app 4 4).
Qed.

(** A pointer with room for [n] bytes. *)
Definition room (m : mem) (p : ptr) (n : Z) : Prop :=
  is_Some (m !! p.1) /\ 0 <= p.2 /\ 0 <= n /\ p.2 + n <= size_of m p.1.

Lemma store_nil m p n : room m p n -> store_bytes m p [] = Some m.
Proof.
  destruct p as [pb po]. intros ((l & El) & H0 & Hn & Hsz). unfold store_bytes, size_of in *. simpl in *. rewrite El in *.
  cbn [mbind option_bind]. change (len []) with 0. destruct (Z.leb_spec 0 po); [|lia].
  destruct (Z.leb_spec (po + 0) (len l)); [|lia]. simpl. f_equal. rewrite Z.add_0_r, take_drop. by apply insert_id.
Qed.

Lemma room_store m p bs n :
  room m p (len bs + n) -> 0 <= n -> exists m', store_bytes m p bs = Some m' /\ room m' (p.1, p.2 + len bs) n /\
    forall q k, room m q k -> room m' q k.
Proof.
  intros (Hl & H0 & Hn & Hsz) Hk. pose proof (len_nonneg bs).
  destruct (store_bytes_ok m p bs) as (m' & E); [done|lia|done|]. exists m'. split; [done|].
  unfold room. setoid_rewrite (size_of_store _ _ _ _ _ E). setoid_rewrite (store_bytes_dom _ _ _ _ _ E). simpl.
  split; [split_and!; try done; lia|]. naive_solver.
Qed.

Lemma solid_S w color : 0 <= w -> solid (w + 1) color = le 4 color ++ solid w color.
Proof. intros. unfold solid. replace (Z.to_nat (w + 1)) with (S (Z.to_nat w)) by lia. done. Qed.

Lemma solid_app a b color : 0 <= a -> 0 <= b -> solid (a + b) color = solid a color ++ solid b color.
Proof. intros. unfold solid. rewrite Z2Nat.inj_add by done. by rewrite replicate_add, concat_app. Qed.

Lemma pixels_loop_spec fuel m p pix w color :
  0 <= w - pix -> (Z.to_nat (w - pix) < fuel)%nat -> room m p (4 * (w - pix)) ->
  pixels_loop fuel m p pix w color = store_bytes m p (solid (w - pix) color).
Proof.
  revert m p pix. induction fuel as [|fuel IH]; intros m p pix Hw Hf Hr; [lia|]. simpl.
  destruct (Z.ltb_spec pix w).
  - replace (w - pix) with (w - (pix + 1) + 1) by lia. rewrite solid_S, store_bytes_app by lia. unfold store32.
    destruct (room_store m p (le 4 color) (4 * (w - (pix + 1)))) as (m1 & E1 & Hr1 & _);
      [rewrite len_le; by replace (Z.of_nat 4 + _) with (4 * (w - pix)) by lia|lia|].
    rewrite E1. cbn [mbind option_bind]. rewrite len_le in *. apply IH; [lia|lia|done].
  - replace (w - pix) with 0 by lia. symmetry. by eapply store_nil.
Qed.

Lemma pairs_loop_spec k fuel m p pix w color :
  0 <= color < 2 ^ 32 -> pix + 2 * Z.of_nat k <= w < pix + 2 * Z.of_nat k + 2 -> (k < fuel)%nat ->
  room m p (4 * (w - pix)) ->
  exists m', pairs_loop fuel m p pix w (Z.lor (Z.shiftl color 32) color) =
      Some (m', (p.1, p.2 + 8 * Z.of_nat k), pix + 2 * Z.of_nat k) /\
    store_bytes m p (solid (2 * Z.of_nat k) color) = Some m' /\
    room m' (p.1, p.2 + 8 * Z.of_nat k) (4 * (w - (pix + 2 * Z.of_nat k))).
Proof.
  intros Hc. revert fuel m p pix. induction k as [|k IH]; intros fuel m p pix Hk Hf Hr; (destruct fuel as [|fuel]; [lia|]).
  - simpl. destruct (Z.ltb_spec pix (w - 1)); [lia|]. exists m. rewrite !Z.add_0_r. destruct p as [pb po]. simpl.
    split_and!; [done|by eapply store_nil|done].
  - cbn [pairs_loop]. destruct (Z.ltb_spec pix (w - 1)); [|lia]. unfold store64. rewrite le_pair by done.
    destruct (room_store m p (le 4 color ++ le 4 color) (4 * (w - (pix + 2)))) as (m1 & E1 & Hr1 & _);
      [rewrite len_app, !len_le; by replace (Z.of_nat 4 + Z.of_nat 4 + _) with (4 * (w - pix)) by lia|lia|].
    rewrite E1. cbn [mbind option_bind]. rewrite len_app, !len_le in Hr1.
    destruct (IH fuel m1 (p.1, p.2 + 8) (pix + 2)) as (m2 & E2 & Es2 & Hr2); [lia|lia|done|].
    simpl in E2, Es2, Hr2. exists m2. rewrite E2.
    replace (p.2 + 8 * Z.of_nat (S k)) with (p.2 + 8 + 8 * Z.of_nat k) by lia.
    replace (pix + 2 * Z.of_nat (S k)) with (pix + 2 + 2 * Z.of_nat k) by lia.
    replace (2 * Z.of_nat (S k)) with (2 + 2 * Z.of_nat k) by lia.
    split_and!; [done| |done].
    rewrite solid_app by lia. change (solid 2 color) with (le 4 color ++ le 4 color).
    rewrite store_bytes_app, E1. cbn [mbind option_bind]. by rewrite len_app, !len_le.
Qed.

Lemma clear_row64_spec m p w color :
  0 <= color < 2 ^ 32 -> 0 <= w -> room m p (4 * w) ->
  clear_row64 m p w color = store_bytes m p (solid w color).
Proof.
  intros Hc Hw Hr. unfold clear_row64.
  assert (exists k, w = 2 * Z.of_nat k \/ w = 2 * Z.of_nat k + 1) as (k & Hk).
  { exists (Z.to_nat (w / 2)). rewrite Z2Nat.id by (apply Z.div_pos; lia). Z.div_mod_to_equations. lia. }
  destruct (pairs_loop_spec k (S (Z.to_nat w)) m p 0 w color) as (m1 & -> & Es & Hr1);
    [done|lia|lia|by rewrite Z.sub_0_r|].
  cbn [mbind option_bind]. destruct Hk as [->| ->].
  - destruct (Z.ltb_spec (0 + 2 * Z.of_nat k) (2 * Z.of_nat k)); [lia|]. by rewrite Es.
  - destruct (Z.ltb_spec (0 + 2 * Z.of_nat k) (2 * Z.of_nat k + 1)); [|lia].
    rewrite solid_app, store_bytes_app, Es by lia. cbn [mbind option_bind]. unfold store32.
    rewrite len_solid by lia. change (solid 1 color) with (le 4 color ++ []). rewrite app_nil_r.
    f_equal. f_equal. lia.
Qed.

(** Clearing a window fills it: for a locked surface whose rows are
    aligned to 4 bytes and lie inside the buffer, the loop of
    [__window_clear], which stores pixels in pairs where the row is aligned
    to 8 bytes and one by one elsewhere, writes what a single store of the
    colour to every row writes, and nothing else. *)
Lemma window_clear_fills (m : mem) (buf : ptr) (pitch h w color : Z) :
  0 <= color < 2 ^ 32 -> 0 <= w -> 0 <= h -> buf.2 `mod` 4 = 0 -> pitch `mod` 4 = 0 -> 4 * w <= pitch ->
  room m buf (h * pitch) ->
  clear_rows (S (Z.to_nat h)) m buf pitch 0 h w color = fill_rows (Z.to_nat h) m buf pitch w color /\
  is_Some (fill_rows (Z.to_nat h) m buf pitch w color).
Proof.
  intros Hc Hw Hh. destruct buf as [b off]. simpl.
  assert (forall n stride m off, h - stride = Z.of_nat n -> off `mod` 4 = 0 -> pitch `mod` 4 = 0 -> 4 * w <= pitch ->
    room m (b, off) (Z.of_nat n * pitch) ->
    clear_rows (S n) m (b, off) pitch stride h w color = fill_rows n m (b, off) pitch w color /\
    is_Some (fill_rows n m (b, off) pitch w color)) as H.
  2: { intros. apply H; rewrite ?Z2Nat.id; try done. lia. }
  induction n as [|n IH]; intros stride m0 o Hn Ho Hp Hwp Hr.
  - simpl. destruct (Z.ltb_spec stride h); [lia|]. by split.
  - assert (0 <= Z.of_nat n * pitch) by (apply Z.mul_nonneg_nonneg; lia).
    rewrite Nat2Z.inj_succ, Z.mul_succ_l in Hr.
    assert (room m0 (b, o) (4 * w)) as Hr4 by (destruct Hr as (? & ? & ? & ?); split_and!; try done; simpl in *; lia).
    assert ((if ALIGNED (b, o) 8 then clear_row64 m0 (b, o) w color else clear_row32 m0 (b, o) w color) =
      store_bytes m0 (b, o) (solid w color)) as Erow.
    { destruct (ALIGNED (b, o) 8); [by apply clear_row64_spec|]. unfold clear_row32, ALIGNED. cbn [snd]. rewrite Ho, Z.eqb_refl.
      rewrite (pixels_loop_spec _ m0 (b, o) 0 w color); rewrite ?Z.sub_0_r; [done|done|lia|done]. }
    destruct (room_store m0 (b, o) (solid w color) (Z.of_nat n * pitch + pitch - 4 * w)) as (m1 & E1 & _ & Hk);
      [rewrite len_solid by done; by replace (4 * w + _) with (Z.of_nat n * pitch + pitch) by lia|lia|].
    change (clear_rows (S (S n)) m0 (b, o) pitch stride h w color) with
      (if stride <? h then m1 ← (if ALIGNED (b, o) 8 then clear_row64 m0 (b, o) w color else clear_row32 m0 (b, o) w color);
       clear_rows (S n) m1 (b, o + pitch) pitch (stride + 1) h w color else Some m0).
    destruct (Z.ltb_spec stride h); [|lia]. rewrite Erow, E1. cbn [fill_rows mbind option_bind fst snd]. rewrite E1.
    apply IH; [lia|rewrite Zplus_mod, Ho, Hp; done|done..|]. apply Hk.
    destruct Hr as (? & ? & ? & ?). split_and!; try done; simpl in *; lia.
Qed.

Lemma window_clear_fills_witness :
  clear_rows 3 {[5 := replicate 40 0]} (5, 4) 16 0 2 3 4278255360 =
    fill_rows 2 {[5 := replicate 40 0]} (5, 4) 16 3 4278255360.
Proof.
  apply (window_clear_fills {[5 := replicate 40 0]} (5, 4) 16 2 3 4278255360); try lia; try done.
Defined.
