(* ===== verification/Screen.v ===== *)
(** * From windows to pixels (src/lib/ui/video.c on video-software.c)

    The calls the window system makes are executed by the software driver:
    the paint handlers write to the buffers of their windows, the updates
    copy them to the back buffer of the screen and the update of the root
    window flips the pages.  After every repaint the display shows, at
    every pixel inside some visible window, the pixel of the topmost one. *)

From S2P Require Import Prelude LinkedList Input Windows Painting Desktop Surfaces.

Open Scope Z_scope.

Section Screen.

(** What a paint handler or the decoration writes: a function of the call
    and of the buffer of the window, which keeps its size. *)
Context (draws : event -> list Z -> list Z).
Hypothesis draws_length : forall e l, length (draws e l) = length l.

(** A window draws on the buffer of the top-level surface it is part of. *)
Definition draw_on (d : driver) (s : Z) (e : event) : option driver :=
  sf ← surfs d !! s;
  r ← surfs d !! s_real sf;
  p ← s_pixels r;
  l ← bufs d !! p.1;
  Some (set_bufs (<[p.1 := draws e l]> (bufs d)) d).

Definition exec (st : video) (e : event) (d : driver) : option driver :=
  match e with
  | EvUpdate w f u => win ← wins st !! w; surface_update d (surface win) f u
  | EvDraw w _ _ | EvDecor w | EvClear w _ false => win ← wins st !! w; draw_on d (surface win) e
  | EvClear _ _ true => draw_on d (display_surface d) e
  | EvSurfaceDestroy s => surface_destroy d s
  | _ => Some d
  end.

Fixpoint replay (st : video) (evs : list event) (d : driver) : option driver :=
  match evs with
  | [] => Some d
  | e :: evs => d ← exec st e d; replay st evs d
  end.

Lemma replay_app st e1 e2 d : replay st (e1 ++ e2) d = d1 ← replay st e1 d; replay st e2 d1.
Proof.
  revert d. induction e1 as [|e e1 IH]; intros d; [done|]. simpl. destruct (exec st e d); [|done]. apply IH.
Qed.

(** Byte [k] of the pixel [p] of the display. *)
Definition screen_byte (d : driver) (p : Z * Z) (k : Z) : option Z :=
  s ← surfs d !! display_surface d;
  q ← s_pixels s;
  byte_at (bufs d) q.1 (q.2 + s_pitch s * p.2 + 4 * p.1 + k).

(** Byte [k] of the pixel of the window [w] that lies at the pixel [p] of
    the screen. *)
Definition window_byte (st : video) (d : driver) (w : Z) (p : Z * Z) (k : Z) : option Z :=
  win ← wins st !! w;
  s ← surfs d !! surface win;
  q ← s_pixels s;
  byte_at (bufs d) q.1 (q.2 + s_pitch s * (p.2 - ry (rect win)) + 4 * (p.1 - rx (rect win)) + k).

(** ** The surfaces of the windows on the screen *)

(** The surface of a top-level window, as [surface_new] makes it, on a
    screen of [W] x [H] pixels: its own buffer [b] and a place inside the
    screen (the driver does not clip). *)
Record top_surface (W H : Z) (d : driver) (win : avbox_window) (s : mbv_surface) (b : Z) : Prop := {
  ts_lookup : surfs d !! surface win = Some s;
  ts_real : s_real s = surface win;
  ts_pixels : s_pixels s = Some (b, 0);
  ts_rect : s_x s = rx (rect win) /\ s_y s = ry (rect win) /\ s_w s = rw (rect win) /\ s_h s = rh (rect win);
  ts_x : 0 <= rx (rect win) /\ 0 <= rw (rect win) /\ rx (rect win) + rw (rect win) <= W;
  ts_y : 0 <= ry (rect win) /\ 0 <= rh (rect win) /\ ry (rect win) + rh (rect win) <= H;
  ts_pitch : 0 < s_pitch s /\ 4 * rw (rect win) <= s_pitch s;
  ts_size : s_pitch s * rh (rect win) <= size_of (bufs d) b;
  ts_int : s_pitch s * rh (rect win) < 2 ^ 31;
  ts_buf : is_Some (bufs d !! b);
  ts_own : surface win <> root_surface d /\ surface win <> display_surface d;
}.

(** The driver fits the windows: page [bb] is the back buffer, page [fb] is
    on display. *)
Record fits (st : video) (W H P bb fb : Z) (d : driver) : Prop := {
  ft_root : exists r, surfs d !! root_surface d = Some r /\ s_real r = root_surface d /\
    s_pitch r = P /\ s_pixels r = Some (bb, 0);
  ft_display : exists s, surfs d !! display_surface d = Some s /\ s_real s = display_surface d /\
    s_pitch s = P /\ s_pixels s = Some (fb, 0);
  ft_pages : root_surface d <> display_surface d /\ bb <> fb /\ is_Some (bufs d !! bb) /\ is_Some (bufs d !! fb) /\
    P * H <= size_of (bufs d) bb /\ P * H <= size_of (bufs d) fb;
  ft_dims : 0 <= W /\ 0 <= H < 2 ^ 31 /\ 4 * W <= P < 2 ^ 31 /\ P * H < 2 ^ 31;
  ft_rootwin : exists r, wins st !! root_window = Some r /\ surface r = root_surface d;
  ft_tops : forall w, w ∈ window_stack st -> w <> root_window ->
    exists win s b, wins st !! w = Some win /\ top_surface W H d win s b /\ b <> bb /\ b <> fb;
  (** the buffers of different windows are different *)
  ft_distinct : forall w w' win win' s s' b, w ∈ window_stack st -> w' ∈ window_stack st -> w <> w' ->
    wins st !! w = Some win -> wins st !! w' = Some win' -> top_surface W H d win s b -> ~ top_surface W H d win' s' b;
  (** the surfaces of subwindows are part of that of their top-level window *)
  ft_inside : forall w win c, w ∈ window_stack st -> w <> root_window -> wins st !! w = Some win ->
    tc (child st) w c -> exists cw s, wins st !! c = Some cw /\ surfs d !! surface cw = Some s /\
      s_real s = surface win /\ surface cw <> surface win;
}.

(** ** Changes of bytes only *)

(** The driver with other bytes in buffers of the same sizes. *)
Definition rewritten (d d' : driver) : Prop :=
  surfs d' = surfs d /\ display_surface d' = display_surface d /\ root_surface d' = root_surface d /\
  (forall b, size_of (bufs d') b = size_of (bufs d) b) /\ (forall b, is_Some (bufs d' !! b) <-> is_Some (bufs d !! b)).

#[local] Instance rewritten_trans : Transitive rewritten.
Proof.
  intros a b c (? & ? & ? & Hs & Hd) (? & ? & ? & Hs' & Hd'). split_and!; [congruence..| |].
  - intros. by rewrite Hs'.
  - intros. by rewrite Hd'.
Qed.

Lemma rewritten_refl d : rewritten d d.
Proof. by split_and!. Qed.

Lemma top_surface_rewritten W H d d' win s b :
  rewritten d d' -> top_surface W H d' win s b <-> top_surface W H d win s b.
Proof.
  intros (E1 & E2 & E3 & Es & Ed).
  split; intros []; split; rewrite ?E1, ?E2, ?E3, ?Es in *; try done; by apply Ed.
Qed.

Lemma fits_rewritten st W H P bb fb d d' : rewritten d d' -> fits st W H P bb fb d -> fits st W H P bb fb d'.
Proof.
  intros Hr [H1 H2 H3 H4 H5 H6 H7 H8]. destruct (Hr) as (E1 & E2 & E3 & Es & Ed).
  split; rewrite ?E1, ?E2, ?E3, ?Es, ?Ed; try done.
  - intros w Hw Hn. destruct (H6 w Hw Hn) as (win & s & b & ? & Ht & ? & ?). exists win, s, b.
    split_and!; [done| |done..]. by apply (top_surface_rewritten W H d d').
  - intros w w' win win' s s' b. rewrite !(top_surface_rewritten W H d d') by done. apply H7.
Qed.

(** *** Drawing *)

(** Drawing [e] on a surface whose top-level surface has the buffer [b]. *)
Lemma draw_on_spec d s sf r b e :
  surfs d !! s = Some sf -> surfs d !! s_real sf = Some r -> s_pixels r = Some (b, 0) -> is_Some (bufs d !! b) ->
  exists d', draw_on d s e = Some d' /\ rewritten d d' /\
    (forall c i, c <> b -> byte_at (bufs d') c i = byte_at (bufs d) c i).
Proof.
  intros Hs Hr Hp (l & Hl). unfold draw_on. rewrite Hs. cbn [mbind option_bind]. rewrite Hr. cbn [mbind option_bind].
  rewrite Hp. cbn [mbind option_bind fst]. rewrite Hl. cbn [mbind option_bind]. eexists. split; [done|]. split.
  - split_and!; try done; simpl; intros c.
    + unfold size_of, len. destruct (decide (c = b)) as [->|]; [|by rewrite lookup_insert_ne].
      rewrite lookup_insert_eq, Hl. by rewrite draws_length.
    + destruct (decide (c = b)) as [->|]; [|by rewrite lookup_insert_ne].
      rewrite lookup_insert_eq, Hl. split; intros _; by eexists.
  - intros c i Hc. unfold byte_at. simpl. by rewrite lookup_insert_ne.
Qed.

(** The calls before the update of [w] change the bytes of its buffer at
    most. *)
Lemma replay_inside st W H P bb fb w win s b pre d :
  fits st W H P bb fb d -> w ∈ window_stack st -> w <> root_window -> wins st !! w = Some win ->
  top_surface W H d win s b -> Forall (inside st w) pre ->
  exists d', replay st pre d = Some d' /\ rewritten d d' /\ flips d' = flips d /\
    (forall c i, c <> b -> byte_at (bufs d') c i = byte_at (bufs d) c i).
Proof.
  intros Hf Hw Hn Hwin Hts Hpre. revert d Hf Hts. induction Hpre as [|e pre He _ IH]; intros d Hf Hts.
  { exists d. split_and!; try done. }
  assert (exists d1, exec st e d = Some d1 /\ rewritten d d1 /\ flips d1 = flips d /\
    (forall c i, c <> b -> byte_at (bufs d1) c i = byte_at (bufs d) c i)) as (d1 & E1 & Hr1 & Hfl1 & Hb1).
  { assert (forall c, rtc (child st) w c -> exists cw sf, wins st !! c = Some cw /\ surfs d !! surface cw = Some sf /\
      surfs d !! s_real sf = Some s) as Hsub.
    { intros c Hc. apply rtc_tc in Hc as [<-|Hc].
      - exists win, s. rewrite (ts_real _ _ _ _ _ _ Hts). by destruct Hts.
      - destruct (ft_inside _ _ _ _ _ _ _ Hf w win c Hw Hn Hwin Hc) as (cw & sf & ? & ? & Er & _).
        exists cw, sf. rewrite Er. by destruct Hts. }
    assert (forall c ev, rtc (child st) w c -> exists d1, (win ← wins st !! c; draw_on d (surface win) ev) = Some d1 /\
      rewritten d d1 /\ flips d1 = flips d /\
      (forall c i, c <> b -> byte_at (bufs d1) c i = byte_at (bufs d) c i)) as Hdraw.
    { intros c ev Hc. destruct (Hsub c Hc) as (cw & sf & -> & Hsf & Hsr). cbn [mbind option_bind].
      destruct (draw_on_spec d (surface cw) sf s b ev Hsf Hsr) as (d1 & E & ? & ?); [by destruct Hts..|].
      exists d1. split_and!; try done. unfold draw_on in E. by simplify_option_eq. }
    destruct e as [c fn ctx|c| |c f u| | | |]; simpl in He; try done; [by apply Hdraw..|]. simpl.
    destruct (ft_inside _ _ _ _ _ _ _ Hf w win c Hw Hn Hwin He) as (cw & sf & -> & Hsf & Er & Hne).
    cbn [mbind option_bind]. unfold surface_update. rewrite Hsf. cbn [mbind option_bind]. rewrite Er.
    destruct (Z.eqb_spec (surface win) (surface cw)); [congruence|]. simpl. exists d. split_and!; try done. }
  destruct (IH d1) as (d2 & E2 & Hr2 & Hfl2 & Hb2);
    [by eapply fits_rewritten|by eapply top_surface_rewritten; [|done]|].
  exists d2. simpl. rewrite E1. split_and!; [done|by etrans|congruence|].
  intros c i Hc. rewrite Hb2, Hb1 by done. done.
Qed.

(** *** Updating *)

Lemma blitflags_back win : Z.land (blitflags win) MBV_BLITFLAGS_FRONT = 0.
Proof. unfold blitflags. by destruct (hasflag _ _). Qed.

Lemma s32_id z : 0 <= z < 2 ^ 31 -> wraps 32 z = z.
Proof. intros. apply wraps_small; lia. Qed.

(** Where a pixel of the screen lies in a page with the given pitch, seen
    from a row of a rectangle inside the screen. *)
Lemma pixel_row W P x y w h px py r k :
  4 * W <= P -> 0 <= x -> x + w <= W -> 0 <= px < W -> 0 <= k < 4 -> 0 <= r < h ->
  y * P + x * 4 + r * P <= P * py + 4 * px + k < y * P + x * 4 + r * P + w * 4 ->
  py = y + r /\ x <= px < x + w.
Proof.
  intros HP Hx Hw Hpx Hk Hr H. assert (py = y + r); [|nia].
  destruct (Z.lt_trichotomy py (y + r)) as [Hl|[?|Hl]]; [|done|]; exfalso; nia.
Qed.

Lemma update_top_spec st W H P bb fb w win s b d :
  fits st W H P bb fb d -> wins st !! w = Some win -> top_surface W H d win s b -> b <> bb ->
  exists d', exec st (EvUpdate w (blitflags win) false) d = Some d' /\ rewritten d d' /\ flips d' = flips d /\
    (forall c i, c <> bb -> byte_at (bufs d') c i = byte_at (bufs d) c i) /\
    (forall p k, 0 <= p.1 < W -> 0 <= k < 4 ->
       byte_at (bufs d') bb (P * p.2 + 4 * p.1 + k) =
       if in_rect (rect win) p
       then byte_at (bufs d) b (s_pitch s * (p.2 - ry (rect win)) + 4 * (p.1 - rx (rect win)) + k)
       else byte_at (bufs d) bb (P * p.2 + 4 * p.1 + k)).
Proof.
  intros Hf Hw Hts Hne. destruct (Hts) as [Hl Hreal Hpx (Ex & Ey & Ew & Eh) (Hx0 & Hw0 & HxW) (Hy0 & Hh0 & HyH)
    (Hpi & Hpw) Hsz Hint Hbuf (Hnr & Hnd)].
  destruct (ft_root _ _ _ _ _ _ _ Hf) as (r & Hr & Hrr & HrP & Hrp).
  destruct (ft_pages _ _ _ _ _ _ _ Hf) as (_ & _ & Hbb & _ & Hbsz & _).
  destruct (ft_dims _ _ _ _ _ _ _ Hf) as (HW & HH & HWP & HPH).
  set (x := rx (rect win)) in *. set (y := ry (rect win)) in *. set (ww := rw (rect win)) in *.
  set (hh := rh (rect win)) in *.
  assert (ww * 4 < 2 ^ 31 /\ x * 4 < 2 ^ 31 /\ y * P < 2 ^ 31 /\ hh < 2 ^ 31 /\ y < 2 ^ 31) as (B1 & B2 & B3 & B4 & B5).
  { clearbody x y ww hh. assert (y * P <= H * P) by (apply Z.mul_le_mono_nonneg_r; lia). split_and!; lia. }
  assert (0 <= y * P) by (apply Z.mul_nonneg_nonneg; lia).
  simpl. rewrite Hw. cbn [mbind option_bind]. unfold surface_update. rewrite Hl. cbn [mbind option_bind].
  rewrite Hreal, Z.eqb_refl. simpl. destruct (Z.eqb_spec (surface win) (root_surface d)); [done|].
  unfold surface_blit, surface_lock at 1. rewrite Hl. cbn [mbind option_bind]. rewrite Hreal, Hl. cbn [mbind option_bind].
  change (Z.land MBV_LOCKFLAGS_READ MBV_LOCKFLAGS_FRONT =? 0) with true. cbn [negb]. rewrite Hpx. cbn [mbind option_bind].
  rewrite Ex, Ey, Ew, Eh. rewrite !s32_id by lia.
  unfold surface_blitbuf. change (AVBOX_PIXFMT_BGRA =? AVBOX_PIXFMT_BGRA) with true. cbv iota.
  rewrite blitflags_back. change (0 =? 0) with true. cbn [negb].
  unfold surface_lock. rewrite Hr. cbn [mbind option_bind]. rewrite Hrr, Hr. cbn [mbind option_bind].
  change (Z.land MBV_LOCKFLAGS_WRITE MBV_LOCKFLAGS_FRONT =? 0) with true. cbn [negb]. rewrite Hrp. cbn [mbind option_bind].
  rewrite HrP. rewrite (chk_int_Some (y * P)) by lia. cbn [mbind option_bind].
  rewrite (chk_int_Some (s_pitch s * hh)) by (split; [apply Z.le_trans with 0; [lia|apply Z.mul_nonneg_nonneg; lia]|lia]). cbn [mbind option_bind].
  rewrite (chk_int_Some (ww * 4)) by lia. cbn [mbind option_bind].
  rewrite (chk_int_Some (x * 4)) by lia. cbn [mbind option_bind fst snd].
  destruct (blit_rows_spec (Z.to_nat hh) (bufs d) bb (0 + y * P + x * 4) P b 0 (s_pitch s) (ww * 4))
    as (m & Em & Hsz' & Hdom & Ho & Hhit & Hmiss); try done; try lia.
  { intros Hh. rewrite Nat2Z.inj_sub, Z2Nat.id by lia.
    assert ((y + hh) * P <= H * P) by (apply Z.mul_le_mono_nonneg_r; lia). clearbody x y ww hh. lia. }
  rewrite Z2Nat.id in * by lia. replace (0 + s_pitch s * hh) with (0 + hh * s_pitch s) by lia. rewrite Em.
  cbn [mbind option_bind]. eexists. split; [done|]. split; [by split_and!|]. split; [done|]. split; [done|].
  intros [px py] k Hpxb Hk. simpl in *. destruct (in_rect (rect win) (px, py)) eqn:Ein.
  - unfold in_rect in Ein. rewrite !andb_true_iff, !Z.leb_le, !Z.ltb_lt in Ein. simpl in Ein. fold x y ww hh in Ein.
    replace (P * py + 4 * px + k) with (0 + y * P + x * 4 + (py - y) * P + (4 * (px - x) + k)) by ring.
    rewrite Hhit by lia. f_equal. ring.
  - apply Hmiss. intros rr Hrr' Hin. rewrite Z.add_0_l in Hin.
    destruct (pixel_row W P x y ww hh px py rr k) as [Epy Epx]; [lia..|].
    assert (in_rect (rect win) (px, py) = true); [|congruence].
    unfold in_rect. rewrite !andb_true_iff, !Z.leb_le, !Z.ltb_lt. simpl. fold x y ww hh. lia.
Qed.

(** The blocks of a repaint: at each pixel the back buffer ends up with the
    pixel of the last window drawn there, and the buffers of the windows
    that are not drawn stay as they are. *)
Lemma replay_blocks st W H P bb fb evs ws d :
  fits st W H P bb fb d -> blocks st evs ws -> (forall w, w ∈ ws -> w ∈ window_stack st /\ w <> root_window) ->
  exists d', replay st evs d = Some d' /\ rewritten d d' /\ flips d' = flips d /\
    (forall w win s b i, w ∈ window_stack st -> w <> root_window -> w ∉ ws -> wins st !! w = Some win ->
       top_surface W H d win s b -> byte_at (bufs d') b i = byte_at (bufs d) b i) /\
    (forall p k, 0 <= p.1 < W -> 0 <= k < 4 ->
       byte_at (bufs d') bb (P * p.2 + 4 * p.1 + k) =
       match seen (rect_of st) p ws with
       | Some t => window_byte st d' t p k
       | None => byte_at (bufs d) bb (P * p.2 + 4 * p.1 + k)
       end).
Proof.
  intros Hf Hb. revert d Hf. induction Hb as [|w win pre evs ws Hw Hpre _ IH]; intros d Hf Hin.
  { exists d. split_and!; try done. }
  destruct (Hin w) as [Hws Hwn]; [set_solver|].
  destruct (ft_tops _ _ _ _ _ _ _ Hf w Hws Hwn) as (win' & s & b & Hw' & Hts & Hbb & Hfb). simplify_eq.
  destruct (replay_inside st W H P bb fb w win s b pre d) as (d1 & E1 & Hr1 & Hfl1 & Hb1); [done..|].
  pose proof (fits_rewritten _ _ _ _ _ _ _ _ Hr1 Hf) as Hf1.
  assert (top_surface W H d1 win s b) as Hts1 by by apply (top_surface_rewritten W H d d1).
  destruct (update_top_spec st W H P bb fb w win s b d1) as (d2 & E2 & Hr2 & Hfl2 & Ho2 & Hp2); [done..|].
  pose proof (fits_rewritten _ _ _ _ _ _ _ _ Hr2 Hf1) as Hf2.
  destruct (IH d2 Hf2) as (d3 & E3 & Hr3 & Hfl3 & Ho3 & Hp3); [set_solver|].
  assert (rewritten d d3) as Hr by (etrans; [exact Hr1|]; etrans; [exact Hr2|exact Hr3]).
  exists d3. rewrite replay_app, E1. cbn [replay mbind option_bind]. rewrite E2. cbn [mbind option_bind].
  split_and!; [done|done|congruence| |].
  - intros v vwin vs vb i Hv Hvn Hnin Hvw Hvts. apply not_elem_of_cons in Hnin as [Hvw' Hnin].
    assert (vb <> bb) as Hvbb.
    { destruct (ft_tops _ _ _ _ _ _ _ Hf v Hv Hvn) as (? & ? & vb' & ? & Hvts' & ? & _).
      pose proof (ts_pixels _ _ _ _ _ _ Hvts). pose proof (ts_pixels _ _ _ _ _ _ Hvts').
      pose proof (ts_lookup _ _ _ _ _ _ Hvts). pose proof (ts_lookup _ _ _ _ _ _ Hvts'). congruence. }
    assert (vb <> b) as Hvb.
    { intros ->. by apply (ft_distinct _ _ _ _ _ _ _ Hf v w vwin win vs s b). }
    rewrite (Ho3 v vwin vs vb); try done.
    + rewrite Ho2, Hb1 by done. done.
    + apply (top_surface_rewritten W H d d2); [etrans; [exact Hr1|exact Hr2]|done].
  - intros p k Hp Hk. rewrite (Hp3 p k Hp Hk), seen_cons. destruct (seen (rect_of st) p ws) as [t|] eqn:Es; [done|].
    rewrite (Hp2 p k Hp Hk). assert (rect_of st w = rect win) as -> by (unfold rect_of; by rewrite Hw).
    destruct (in_rect (rect win) p) eqn:Ein; [|by rewrite Hb1].
    unfold window_byte. rewrite Hw. cbn [mbind option_bind]. destruct Hr as (-> & _).
    rewrite (ts_lookup _ _ _ _ _ _ Hts). cbn [mbind option_bind]. rewrite (ts_pixels _ _ _ _ _ _ Hts).
    cbn [mbind option_bind fst snd]. rewrite (Ho3 w win s b); try done.
    + rewrite Ho2, Z.add_0_l by done. done.
    + intros Hw'. rewrite seen_None in Es. specialize (Es w Hw').
      assert (rect_of st w = rect win) as E by (unfold rect_of; by rewrite Hw). congruence.
    + apply (top_surface_rewritten W H d d2); [etrans; [exact Hr1|exact Hr2]|done].
Qed.

(** *** The page flip *)

Lemma flip_spec st W H P bb fb d :
  fits st W H P bb fb d ->
  exists d', flip d = Some d' /\ fits st W H P fb bb d' /\ bufs d' = bufs d /\ flips d' = flips d + 1 /\
    (forall w win s b, w ∈ window_stack st -> w <> root_window -> wins st !! w = Some win ->
       top_surface W H d win s b -> surfs d' !! surface win = Some s).
Proof.
  intros Hf. destruct (ft_root _ _ _ _ _ _ _ Hf) as (r & Hr & Hrr & HrP & Hrp).
  destruct (ft_display _ _ _ _ _ _ _ Hf) as (s & Hs & Hsr & HsP & Hsp).
  destruct (ft_pages _ _ _ _ _ _ _ Hf) as (Hne & Hbf & Hb1 & Hb2 & Hb3 & Hb4).
  unfold flip. rewrite Hr. cbn [mbind option_bind]. rewrite Hs. cbn [mbind option_bind]. eexists. split; [done|].
  set (d' := Driver _ _ _ _ _).
  assert (forall z, z <> root_surface d -> z <> display_surface d -> surfs d' !! z = surfs d !! z) as Hz.
  { intros z Hz1 Hz2. simpl. by rewrite !lookup_insert_ne. }
  assert (forall win sf b, top_surface W H d win sf b <-> top_surface W H d' win sf b) as Ht.
  { intros win sf b. split; intros [T1 T2 T3 T4 T5 T6 T7 T8 T9 T10 [T11 T12]]; split; try done.
    - by rewrite Hz.
    - by rewrite Hz in T1. }
  split_and!; [|done|done|].
  2: { intros w win sf b _ _ _ Hts. apply Ht in Hts. by destruct Hts. }
  split; simpl.
  - exists (with_pixels (s_pixels s) r). rewrite lookup_insert_ne, lookup_insert_eq by done. by split_and!.
  - exists (with_pixels (s_pixels r) s). rewrite lookup_insert_eq. by split_and!.
  - by split_and!.
  - apply (ft_dims _ _ _ _ _ _ _ Hf).
  - apply (ft_rootwin _ _ _ _ _ _ _ Hf).
  - intros w Hw Hn. destruct (ft_tops _ _ _ _ _ _ _ Hf w Hw Hn) as (win & sf & b & ? & ? & ? & ?).
    exists win, sf, b. split_and!; try done. by apply Ht.
  - intros w w' win win' sf sf' b ????? Hts Hts'. apply Ht in Hts, Hts'.
    by apply (ft_distinct _ _ _ _ _ _ _ Hf w w' win win' sf sf' b).
  - intros w win c Hw Hn Hwin Hc. destruct (ft_inside _ _ _ _ _ _ _ Hf w win c Hw Hn Hwin Hc) as (cw & sf & ? & Hsf & Er & ?).
    exists cw, sf. split_and!; try done. change (surfs d' !! surface cw = Some sf).
    destruct (ft_tops _ _ _ _ _ _ _ Hf w Hw Hn) as (? & ? & ? & ? & Hts & _). simplify_eq.
    destruct (ts_own _ _ _ _ _ _ Hts). rewrite Hz; [done|..]; intros Ez; rewrite Ez in Hsf; congruence.
Qed.

(** *** A repaint *)

Lemma replay_root_draws st W H P bb fb pre d :
  fits st W H P bb fb d -> Forall (fun e => exists fn ctx, e = EvDraw root_window fn ctx) pre ->
  exists d', replay st pre d = Some d' /\ rewritten d d' /\ flips d' = flips d.
Proof.
  intros Hf Hpre. revert d Hf. induction Hpre as [|e pre (fn & ctx & ->) _ IH]; intros d Hf.
  { exists d. split_and!; try done. }
  destruct (ft_rootwin _ _ _ _ _ _ _ Hf) as (rw & Hrw & Ers). destruct (ft_root _ _ _ _ _ _ _ Hf) as (r & Hr & Hrr & _ & Hrp).
  destruct (draw_on_spec d (surface rw) r r bb (EvDraw root_window fn ctx)) as (d1 & E1 & Hr1 & _);
    [by rewrite Ers|by rewrite Hrr|done|by apply (ft_pages _ _ _ _ _ _ _ Hf)|].
  destruct (IH d1) as (d2 & E2 & Hr2 & Hfl); [by eapply fits_rewritten|].
  exists d2. simpl. rewrite Hrw. cbn [mbind option_bind]. rewrite E1. cbn [mbind option_bind].
  split_and!; [done|etrans; [exact Hr1|exact Hr2]|]. rewrite Hfl. unfold draw_on in E1. by simplify_option_eq.
Qed.

Lemma replay_repaint st W H P bb fb evs ws d :
  fits st W H P bb fb d -> repaint_log st evs ws ->
  exists d', replay st evs d = Some d' /\ fits st W H P fb bb d' /\ flips d' = flips d + 1 /\
    (forall p t k, 0 <= p.1 < W -> 0 <= k < 4 -> seen (rect_of st) p ws = Some t ->
       screen_byte d' p k = window_byte st d' t p k).
Proof.
  intros Hf (rwin & pre & bl & Hrw & -> & Hpre & Hb & Hin).
  destruct (replay_root_draws st W H P bb fb pre d Hf Hpre) as (d1 & E1 & Hr1 & Hfl1).
  pose proof (fits_rewritten _ _ _ _ _ _ _ _ Hr1 Hf) as Hf1.
  destruct (replay_blocks st W H P bb fb bl ws d1 Hf1 Hb Hin) as (d2 & E2 & Hr2 & Hfl2 & _ & Hp2).
  pose proof (fits_rewritten _ _ _ _ _ _ _ _ Hr2 Hf1) as Hf2.
  destruct (flip_spec st W H P bb fb d2 Hf2) as (d3 & E3 & Hf3 & Eb3 & Hfl3 & Hs3).
  exists d3. rewrite replay_app, E1. cbn [mbind option_bind]. rewrite replay_app, E2. cbn [mbind option_bind replay].
  destruct (ft_root _ _ _ _ _ _ _ Hf2) as (r & Hr & Hrr & _). destruct (ft_rootwin _ _ _ _ _ _ _ Hf2) as (rw' & Hrw' & Ers).
  simplify_eq. split_and!; [|done|lia|].
  - simpl. rewrite Hrw. cbn [mbind option_bind]. unfold surface_update. rewrite Ers, Hr. cbn [mbind option_bind].
    rewrite Hrr, !Z.eqb_refl. simpl. by rewrite E3.
  - intros p t k Hp Hk Hseen. specialize (Hp2 p k Hp Hk). rewrite Hseen in Hp2.
    unfold screen_byte. destruct (ft_display _ _ _ _ _ _ _ Hf3) as (ds & -> & _ & HP & Hpx). cbn [mbind option_bind].
    rewrite Hpx. cbn [mbind option_bind fst snd]. rewrite HP, Eb3, Z.add_0_l, Hp2. unfold window_byte.
    destruct (seen_elem _ _ _ _ Hseen) as [Ht _]. destruct (Hin t Ht) as [Hts Htn].
    destruct (ft_tops _ _ _ _ _ _ _ Hf2 t Hts Htn) as (win & s & b & Hw & Htop & _). rewrite Hw. cbn [mbind option_bind].
    by rewrite (Hs3 t win s b), (ts_lookup _ _ _ _ _ _ Htop), Eb3.
Qed.

Lemma replay_repaints st W H P bb fb evs d :
  fits st W H P bb fb d -> repaint_logs st evs ->
  exists d' bb' fb', replay st evs d = Some d' /\ fits st W H P bb' fb' d' /\ flips d <= flips d'.
Proof.
  intros Hf Hl. revert bb fb d Hf. induction Hl as [|evs ws rest He _ IH]; intros bb fb d Hf.
  { exists d, bb, fb. by split_and!. }
  destruct (replay_repaint st W H P bb fb evs ws d Hf He) as (d1 & E1 & Hf1 & Hfl1 & _).
  destruct (IH fb bb d1 Hf1) as (d2 & bb2 & fb2 & E2 & Hf2 & Hfl2).
  exists d2, bb2, fb2. rewrite replay_app, E1. cbn [mbind option_bind]. split_and!; [done..|lia].
Qed.

(** ** Property *)

(** C6. The picture on the display is right: when a program shows, hides,
    raises or updates a window and the software driver fits its windows
    (own buffers, places inside the screen), executing the calls of the
    operation never leaves a buffer, ends with a page flip, and then every
    pixel of the display inside some visible window is the pixel of the
    topmost visible window there. *)
Theorem display_shows_topmost new_dirty cairo_ok layout_ok (st : video) (o : op) :
  reachable new_dirty cairo_ok layout_ok st -> legal st o -> repaints_screen st o ->
  exists st' evs, run new_dirty cairo_ok layout_ok o st = Some st' /\ log st' = log st ++ evs /\
    forall W H P bb fb d, fits st' W H P bb fb d ->
    exists d', replay st' evs d = Some d' /\ flips d < flips d' /\
      forall p t k, topmost st' p = Some t -> 0 <= k < 4 -> screen_byte d' p k = window_byte st' d' t p k.
Proof.
  intros Hr Hl Hp. pose proof (reachable_wf _ _ _ st Hr) as Hwf.
  destruct (run_spec new_dirty cairo_ok layout_ok st o Hwf Hl) as (st' & E & Hwf' & Hsh).
  destruct (Hsh Hp) as (mid & evs & ws & El & Hmid & Hlast & Hseen).
  exists st', (mid ++ evs). split_and!; [done..|]. intros W H P bb fb d Hf.
  destruct (replay_repaints st' W H P bb fb mid d Hf Hmid) as (d1 & bb1 & fb1 & E1 & Hf1 & Hfl1).
  destruct (replay_repaint st' W H P bb1 fb1 evs ws d1 Hf1 Hlast) as (d2 & E2 & Hf2 & Hfl2 & Hpix).
  exists d2. rewrite replay_app, E1. cbn [mbind option_bind]. split_and!; [done|lia|].
  intros p t k Ht Hk. apply Hpix; [|done|by apply Hseen].
  destruct (seen_elem _ _ _ _ Ht) as [Hin Hpt]. apply list_elem_of_filter in Hin as [Hn Hin].
  destruct (ft_tops _ _ _ _ _ _ _ Hf t Hin Hn) as (win & s & b & Hw & Hts & _).
  unfold rect_of in Hpt. rewrite Hw in Hpt. unfold in_rect in Hpt.
  rewrite !andb_True, !Is_true_true, !Z.leb_le, !Z.ltb_lt in Hpt.
  destruct (ts_x _ _ _ _ _ _ Hts) as (? & ? & ?). lia.
Qed.

End Screen.

(** ** New surfaces *)

Lemma align16 p : 0 <= p -> p - 15 <= Z.land p (Z.lnot 15) <= p /\ Z.land p (Z.lnot 15) `mod` 16 = 0.
Proof.
  intros Hp. rewrite <- Z.ldiff_land. change 15 with (Z.ones 4) at 2 3 4. rewrite Z.ldiff_ones_r by lia.
  rewrite Z.shiftl_mul_pow2, Z.shiftr_div_pow2 by lia. change (2 ^ 4) with 16.
  split; [Z.div_mod_to_equations; lia|]. by rewrite Z_mod_mult.
Qed.

(** The driver gives a top-level window what the repaints need: for a
    window inside the screen, [surface_new] with a fresh block makes a
    surface of its own with the window's rectangle, in a buffer that holds
    all its rows, which start at multiples of 16 bytes. *)
Lemma surface_new_top (W H inst b : Z) (contents : list Z) (d : driver) (win : avbox_window) :
  surface win = inst -> inst <> root_surface d -> inst <> display_surface d ->
  0 <= rx (rect win) -> 0 < rw (rect win) -> rx (rect win) + rw (rect win) <= W ->
  0 <= ry (rect win) -> 0 <= rh (rect win) -> ry (rect win) + rh (rect win) <= H ->
  W < 2 ^ 15 -> H < 2 ^ 12 ->
  len contents = Z.land (rw (rect win) * 4 + 15) (Z.lnot 15) * rh (rect win) ->
  exists d' s, surface_new (Some inst) (Some (b, contents)) d None (rx (rect win)) (ry (rect win))
      (rw (rect win)) (rh (rect win)) = Some (Some inst, d') /\
    top_surface W H d' win s b /\ s_pitch s `mod` 16 = 0.
Proof.
  intros Es Hr Hd Hx Hw HxW Hy Hh HyH HW HH Hlen. set (w := rw (rect win)) in *. set (h := rh (rect win)) in *.
  unfold surface_new. rewrite (chk_int_Some (w * 4)) by lia. cbn [mbind option_bind].
  rewrite (chk_int_Some (w * 4 + 15)) by lia. cbn [mbind option_bind].
  destruct (align16 (w * 4 + 15)) as [Hp Hm]; [lia|]. set (P := Z.land (w * 4 + 15) (Z.lnot 15)) in *.
  assert (0 <= P * h < 2 ^ 31) as HPh.
  { split; [apply Z.mul_nonneg_nonneg; lia|]. apply Z.le_lt_trans with (2 ^ 18 * 2 ^ 12); [|lia].
    apply Z.mul_le_mono_nonneg; lia. }
  rewrite (chk_int_Some (P * h)) by lia. cbn [mbind option_bind].
  rewrite bool_decide_true by (rewrite wrapu_small by lia; done).
  eexists _, (Surface inst None (Some (b, 0)) P (wrapu 32 w) (wrapu 32 h) (wrapu 32 (rx (rect win)))
    (wrapu 32 (ry (rect win))) 0 0). split; [reflexivity|]. split; [|exact Hm]. split; simpl; rewrite ?Es; try done.
  all: fold w h; try lia.
  - by rewrite lookup_insert_eq.
  - rewrite !wrapu_small by lia. done.
  - unfold size_of. rewrite lookup_insert_eq. lia.
  - rewrite lookup_insert_eq. by eexists.
Qed.

Lemma surface_new_top_witness :
  exists d' s, surface_new (Some 110) (Some (5, replicate 32 0)) (Driver ∅ ∅ 101 100 0) None 1 1 3 2 = Some (Some 110, d') /\
    s_pitch s `mod` 16 = 0.
Proof.
  destruct (surface_new_top 8 8 110 5 (replicate 32 0) (Driver ∅ ∅ 101 100 0)
    (Window 110 None 10 (Some 1) (Some 1) None None None (Rect 1 1 3 2) true 0 false false false 0 0 0 0 []))
    as (d' & s & E & _ & Hm); simpl; try lia; try done. by exists d', s.
Defined.

(** *** Witness *)

(** A screen of 8 x 8 pixels with two windows of 4 x 4 pixels, the second
    shown last. *)
Definition tiny_new (w x y : Z) : op :=
  New (demo_answers w) no_answers true true 0 x y 4 4 None (Some 9) 0.

Definition tiny_start : video :=
  default demo_start (avbox_video_init (Some 100) true true Endpoints.avbox_input_init 8 8).2.

Definition tiny_ops : list op := [tiny_new 10 0 0; tiny_new 20 2 2; Show None 10].

Definition tiny_state : video := default tiny_start (run_all demo_dirty demo_ok demo_ok tiny_ops tiny_start).

Definition tiny_shown : video := default tiny_start (demo_run (Show None 20) tiny_state).

Definition tiny_surface (s b x y : Z) : mbv_surface := Surface s None (Some (b, 0)) 16 4 4 x y 0 0.

Definition tiny_driver : driver :=
  Driver (<[100 := Surface 100 None (Some (1, 0)) 32 8 8 0 0 0 0]>
            (<[101 := Surface 101 None (Some (2, 0)) 32 8 8 0 0 0 0]>
               (<[110 := tiny_surface 110 3 0 0]> {[120 := tiny_surface 120 4 2 2]})))
    (<[1 := replicate 256 0]> (<[2 := replicate 256 0]> (<[3 := replicate 64 7]> {[4 := replicate 64 9]})))
    101 100 0.

(** The handlers fill the buffer with the number of their window. *)
Definition tiny_draws (e : event) (l : list Z) : list Z :=
  match e with EvDraw w _ _ => replicate (length l) w | _ => l end.

Lemma tiny_draws_length e l : length (tiny_draws e l) = length l.
Proof. destruct e; simpl; by rewrite ?length_replicate. Qed.

Lemma tiny_reachable : reachable demo_dirty demo_ok demo_ok tiny_state.
Proof.
  exists (Some 100), true, true, Endpoints.avbox_input_init, [], 8, 8, tiny_start, tiny_ops.
  split_and!; [vm_compute; reflexivity|done|apply Endpoints.init_rep| |vm_compute; reflexivity].
  eapply legal_all_cons; [split; [by split|by intros [? _]]|vm_compute; reflexivity|].
  eapply legal_all_cons; [split; [by split|by intros [? _]]|vm_compute; reflexivity|].
  eapply legal_all_cons; [split; [split_and!; [is_child|vm_compute; reflexivity|done]|by intros []]|vm_compute; reflexivity|done].
Qed.

Lemma tiny_show_legal : legal tiny_state (Show None 20).
Proof. split; [split_and!; [is_child|vm_compute; reflexivity|done]|by intros []]. Qed.

Lemma tiny_no_child w c : w = 10 \/ w = 20 -> ~ child tiny_shown w c.
Proof. intros [-> | ->] (win & Hw & Hc); vm_compute in Hw; injection Hw as <-; by apply elem_of_nil in Hc. Qed.

Lemma tiny_stack w : w ∈ window_stack tiny_shown -> w <> root_window -> w = 10 \/ w = 20.
Proof.
  assert (window_stack tiny_shown = [1; 10; 20]) as -> by (vm_compute; reflexivity).
  unfold root_window. set_solver.
Qed.

Definition tiny_window (w : Z) : avbox_window :=
  default (Window 0 None 0 None None None None None (Rect 0 0 0 0) false 0 false false false 0 0 0 0 [])
    (wins tiny_shown !! w).

Lemma tiny_lookup w : w = 10 \/ w = 20 -> wins tiny_shown !! w = Some (tiny_window w).
Proof. intros [-> | ->]; vm_compute; reflexivity. Qed.

Lemma tiny_top w b x :
  (w, b, x) = (10, 3, 0) \/ (w, b, x) = (20, 4, 2) ->
  top_surface 8 8 tiny_driver (tiny_window w) (tiny_surface (100 + w) b x x) b.
Proof.
  intros [[= -> -> ->]|[= -> -> ->]]; split; try (vm_compute; reflexivity).
  all: try (vm_compute; intuition congruence).
  all: by eexists.
Qed.

Lemma tiny_buf w win s b :
  w ∈ window_stack tiny_shown -> wins tiny_shown !! w = Some win -> top_surface 8 8 tiny_driver win s b ->
  w = 10 /\ b = 3 \/ w = 20 /\ b = 4.
Proof.
  intros Hw Hwin T. destruct (decide (w = root_window)) as [->|Hn].
  - destruct (ts_own _ _ _ _ _ _ T) as [Hr _]. vm_compute in Hwin. injection Hwin as <-. by destruct Hr.
  - destruct (tiny_stack w Hw Hn) as [-> | ->]; [left|right]; (split; [done|]).
    all: vm_compute in Hwin; injection Hwin as <-; pose proof (ts_lookup _ _ _ _ _ _ T) as El;
      pose proof (ts_pixels _ _ _ _ _ _ T) as Ep; vm_compute in El; injection El as <-; simpl in Ep; congruence.
Qed.

Lemma tiny_fits : fits tiny_shown 8 8 32 1 2 tiny_driver.
Proof.
  split.
  - eexists. split_and!; vm_compute; reflexivity.
  - eexists. split_and!; vm_compute; reflexivity.
  - split_and!; try done; by eexists.
  - lia.
  - eexists. split; vm_compute; reflexivity.
  - intros w Hw Hn. destruct (tiny_stack w Hw Hn) as [-> | ->].
    + exists (tiny_window 10), (tiny_surface 110 3 0 0), 3. split_and!; [by apply tiny_lookup; auto|by apply (tiny_top 10); auto|done..].
    + exists (tiny_window 20), (tiny_surface 120 4 2 2), 4. split_and!; [by apply tiny_lookup; auto|by apply (tiny_top 20); auto|done..].
  - intros w w' win win' s s' b Hw Hw' Hne Hwin Hwin' T T'.
    destruct (tiny_buf w win s b Hw Hwin T) as [[-> ->]|[-> ->]],
      (tiny_buf w' win' s' _ Hw' Hwin' T') as [[-> ?]|[-> ?]]; done.
  - intros w win c Hw Hn _ Hc. pose proof (tiny_stack w Hw Hn) as Hw'. exfalso.
    destruct Hc as [? ? Hc|? ? ? Hc _]; by eapply tiny_no_child.
Qed.

Lemma display_shows_topmost_witness :
  exists st' evs d', demo_run (Show None 20) tiny_state = Some st' /\
    log st' = log tiny_state ++ evs /\ replay tiny_draws st' evs tiny_driver = Some d' /\
    topmost st' (3, 3) = Some 20 /\ screen_byte d' (3, 3) 0 = window_byte st' d' 20 (3, 3) 0.
Proof.
  destruct (display_shows_topmost tiny_draws tiny_draws_length demo_dirty demo_ok demo_ok tiny_state (Show None 20)
    tiny_reachable tiny_show_legal I) as (st' & evs & E & El & H).
  assert (st' = tiny_shown) as ->.
  { unfold tiny_shown, demo_run. by rewrite E. }
  destruct (H 8 8 32 1 2 tiny_driver tiny_fits) as (d' & Ed & _ & Hp).
  assert (topmost tiny_shown (3, 3) = Some 20) as Ht by (vm_compute; reflexivity).
  exists tiny_shown, evs, d'. split_and!; [exact E|done|done|done|]. apply Hp; [done|lia].
Defined.

(** The display after the run, computed: window 20 covers window 10. *)
Example tiny_picture :
  (d ← (st ← demo_run (Show None 20) tiny_state;
        replay tiny_draws st (drop (length (log tiny_state)) (log st)) tiny_driver);
   Some (screen_byte d (0, 0) 0, screen_byte d (3, 3) 0, screen_byte d (7, 0) 0)) = Some (Some 7, Some 20, Some 0).
Proof. vm_compute. reflexivity. Qed.

(** *** Where the driver departs from its intent *)

(** The pixels of a subsurface start [x] bytes into the row, not [x] pixels:
    a subwindow at (1, 0) writes from byte 1 of its parent's first pixel. *)
Example subsurface_offset :
  (fun r => match r with
            | (Some i, d) => s_pixels <$> surfs d !! i
            | _ => None
            end) <$> surface_new (Some 130) None tiny_driver (Some 110) 1 0 2 2 = Some (Some (Some (3, 1))).
Proof. vm_compute. reflexivity. Qed.

(** A failure of [posix_memalign] is not noticed: the surface is returned
    with a pixel pointer that was never set. *)
Example memalign_failure_unnoticed :
  (fun r => match r with (Some i, d) => s_pixels <$> surfs d !! i | _ => None end) <$>
    surface_new (Some 130) None tiny_driver None 0 0 2 2 = Some (Some None).
Proof. vm_compute. reflexivity. Qed.

(** Nothing clips a window that reaches over the edge of the screen: its
    update writes outside the page. *)
Example no_clipping :
  surface_update (Driver (<[110 := tiny_surface 110 3 6 6]> (surfs tiny_driver)) (bufs tiny_driver) 101 100 0)
    110 0 false = None.
Proof. vm_compute. reflexivity. Qed.
