(* ===== verification/Holders.v ===== *)
(** * Who holds what

    Addresses that go round between pools, queues and threads: how often an
    address occurs among all its holders ([occ]), lists that have every
    allocated address exactly once ([exact]), and the pools of
    src/lib/ui/player.c, whose elements are put at the head and taken from
    the tail.  The pipelines of the player use it. *)

From S2P Require Import Prelude.

(** [LIST_TAIL] and [LIST_REMOVE]: the last element of a pool. *)
Definition pool_take (l : list Z) : option (Z * list Z) :=
  match reverse l with [] => None | x :: k => Some (x, reverse k) end.

Lemma head_snoc {A} (l : list A) (x y : A) : head l = Some x -> head (l ++ [y]) = Some x.
Proof. by destruct l. Qed.

(** ** Counting the holders of an address *)

Definition one (x y : Z) : nat := if decide (x = y) then 1 else 0.

Definition occ (x : Z) (l : list Z) : nat := foldr (fun y n => one x y + n)%nat 0%nat l.

Lemma occ_nil x : occ x [] = 0%nat.
Proof. done. Qed.

Lemma occ_cons x y l : occ x (y :: l) = (one x y + occ x l)%nat.
Proof. done. Qed.

Lemma occ_app x l k : occ x (l ++ k) = (occ x l + occ x k)%nat.
Proof. induction l as [|y l IH]; [done|]. cbn. rewrite <- Nat.add_assoc. by f_equal. Qed.

Lemma one_self x : one x x = 1%nat.
Proof. unfold one. by rewrite decide_True. Qed.

Lemma one_other x y : x <> y -> one x y = 0%nat.
Proof. intros. unfold one. by rewrite decide_False. Qed.

Lemma occ_elem x l : x ∈ l <-> (1 <= occ x l)%nat.
Proof.
  induction l as [|y l IH]; [rewrite occ_nil; split; [intros H; by apply not_elem_of_nil in H|lia]|].
  rewrite occ_cons, elem_of_cons. destruct (decide (x = y)) as [->|Hne].
  - rewrite one_self. split; [lia|by left].
  - rewrite one_other, <- IH by done. cbn. split; [intros [?|?]; done|by right].
Qed.

Lemma occ_NoDup l : NoDup l <-> forall x, (occ x l <= 1)%nat.
Proof.
  induction l as [|y l IH]; [split; [intros _ x; rewrite occ_nil; lia|constructor]|].
  rewrite NoDup_cons, IH, occ_elem. setoid_rewrite (occ_cons _ y l). split.
  - intros [Hy Hl] x. specialize (Hl x). destruct (decide (x = y)) as [->|Hne].
    + rewrite one_self. lia.
    + rewrite one_other by done. lia.
  - intros H. split; [specialize (H y); rewrite one_self in H; lia|]. intros x. specialize (H x). lia.
Qed.

(** [l] has every address of [A] once, and no other. *)
Definition exact (l : list Z) (A : Z -> Prop) : Prop :=
  forall x, (A x -> occ x l = 1%nat) /\ (~ A x -> occ x l = 0%nat).

Lemma exact_same l l' A : (forall x, occ x l' = occ x l) -> exact l A -> exact l' A.
Proof. intros He H x. rewrite He. apply H. Qed.

Lemma exact_new l l' A (A' : Z -> Prop) f :
  ~ A f -> (forall x, A' x <-> x = f \/ A x) ->
  (forall x, occ x l' = one x f + occ x l)%nat -> exact l A -> exact l' A'.
Proof.
  intros Hf HA He H x. rewrite He, HA. destruct (H x) as [H1 H2]. destruct (decide (x = f)) as [->|Hne].
  - rewrite one_self, (proj2 (H f) Hf). split; [done|]. intros Hn. destruct Hn. by left.
  - rewrite one_other by done. split; [intros [?|?]; [done|auto]|]. intros Hn. apply H2. tauto.
Qed.

Lemma exact_elem l A x : exact l A -> x ∈ l -> occ x l = 1%nat.
Proof.
  intros H Hx. apply occ_elem in Hx. destruct (H x) as [H1 H2].
  assert (~ ~ A x) as Hn by (intros Hn; rewrite H2 in Hx by done; lia).
  destruct (occ x l) as [|[|n]] eqn:E; [lia|done|]. exfalso. apply Hn. intros HA. by apply H1 in HA.
Qed.

Lemma pool_take_Some l x k : pool_take l = Some (x, k) -> l = k ++ [x].
Proof.
  unfold pool_take. destruct (reverse l) as [|y r] eqn:E; [done|]. intros [= <- <-].
  rewrite <- (reverse_involutive l), E. by rewrite reverse_cons.
Qed.

Lemma pool_take_None l : pool_take l = None -> l = [].
Proof.
  unfold pool_take. destruct (reverse l) eqn:E; [|done]. intros _. by rewrite <- (reverse_involutive l), E.
Qed.

Lemma exact_pool (l k : list Z) A z y : exact (l ++ [z] ++ k) A -> y ∈ k -> y <> z.
Proof.
  intros Ha Hy ->. assert (z ∈ l ++ [z] ++ k) as Hz by set_solver.
  apply (exact_elem _ _ _ Ha) in Hz. apply occ_elem in Hy.
  rewrite !occ_app, occ_cons, one_self in Hz. lia.
Qed.

Lemma exact_fresh (l k : list Z) (A : Z -> Prop) z y : exact (l ++ k) A -> ~ A z -> y ∈ k -> y <> z.
Proof.
  intros Ha Hz Hy ->. apply (proj2 (Ha z)) in Hz. rewrite occ_app in Hz. apply occ_elem in Hy. lia.
Qed.

Lemma exact_NoDup l (A : Z -> Prop) : NoDup l -> (forall x, A x <-> x ∈ l) -> exact l A.
Proof.
  intros Hn HA x. rewrite HA, occ_elem. apply occ_NoDup with (x := x) in Hn. lia.
Qed.

Lemma exact_reverse l (A : Z -> Prop) : NoDup l -> (forall x, A x <-> x ∈ l) -> exact (reverse l ++ []) A.
Proof.
  intros Hn HA. rewrite app_nil_r. apply exact_NoDup; [by rewrite reverse_Permutation|].
  intros x. by rewrite elem_of_reverse.
Qed.

Lemma exact_spec l A : exact l A -> (forall x, A x \/ ~ A x) -> NoDup l /\ forall x, x ∈ l <-> A x.
Proof.
  intros H Hd. split.
  - apply occ_NoDup. intros x. destruct (H x) as [H1 H2], (Hd x) as [Hx|Hx]; [rewrite H1|rewrite H2]; auto.
  - intros x. rewrite occ_elem. destruct (H x) as [H1 H2], (Hd x) as [Hx|Hx].
    + rewrite H1 by done. split; [done|lia].
    + rewrite H2 by done. split; [lia|done].
Qed.

Lemma exact_ext l A A' : (forall x : Z, A' x <-> A x) -> exact l A -> exact l A'.
Proof. intros HA H x. rewrite HA. apply H. Qed.

Lemma some_insert {V} (m : gmap Z V) k v x : is_Some (<[k := v]> m !! x) <-> x = k \/ is_Some (m !! x).
Proof. rewrite lookup_insert_is_Some'. naive_solver. Qed.

Lemma some_known {V} (m : gmap Z V) k v x : is_Some (m !! k) -> is_Some (<[k := v]> m !! x) <-> is_Some (m !! x).
Proof. rewrite some_insert. naive_solver. Qed.

Lemma exact_known {V} l (m : gmap Z V) k v :
  k ∈ l -> exact l (fun x => is_Some (m !! x)) -> exact l (fun x => is_Some (<[k := v]> m !! x)).
Proof.
  intros Hk He. apply exact_ext with (2 := He). intros x. apply some_known.
  destruct (m !! k) eqn:E; [done|]. destruct (He k) as [_ H0]. rewrite E in H0. apply occ_elem in Hk.
  rewrite H0 in Hk by (intros [? ?]; done). lia.
Qed.

Lemma some_or_not {V} (m : gmap Z V) x : is_Some (m !! x) \/ ~ is_Some (m !! x).
Proof. destruct (m !! x) eqn:E; [by left; exists v|right]. by intros [? ?]. Qed.

Lemma exact_allocated {V} l (m : gmap Z V) x : exact l (fun x => is_Some (m !! x)) -> x ∈ l -> is_Some (m !! x).
Proof. intros He Hx. destruct (exact_spec _ _ He (some_or_not m)) as [_ H]. by apply H. Qed.

(** ** Tactics *)

Create Rewrite HintDb holders.

Ltac use_pools :=
  repeat match goal with
  | E : pool_take _ = Some (_, _) |- _ => apply pool_take_Some in E; cbn in E
  end.

(** Compare the holders before and after a step. *)
Ltac count_holders :=
  use_pools; intros ?x; cbn -[occ];
  repeat match goal with
  | E : ?f ?t = _ |- context [?f ?t] => rewrite E
  end; autorewrite with holders; cbn -[occ];
  repeat first [rewrite occ_app | rewrite occ_cons]; rewrite ?occ_nil; lia.

Ltac keep_holders Ha := revert Ha; apply exact_same; count_holders.

Ltac new_holder Ha x :=
  revert Ha; apply (exact_new _ _ _ _ x); [naive_solver|set_solver|count_holders].

(** The same when the allocated addresses are the domain of a map, also when
    a known one is written. *)
Ltac new_block Ha x :=
  revert Ha; apply (exact_new _ _ _ _ x); [intros [? ?]; naive_solver|intros ?; apply some_insert|count_holders].

Ltac known_block Ha := cbn -[occ exact]; apply exact_known; [set_solver|keep_holders Ha].
