(* ===== verification/VideoPipe.v ===== *)
(** * The video pipeline of the player (src/lib/ui/player.c)

    The threads that carry a picture from the file to the screen: the loop
    of the stream parser ([stream_parse_loop]), the video decoder
    ([avbox_player_video_decode]), the video output thread
    ([avbox_player_video]), the delegate the main thread runs to present a
    picture ([avbox_player_doupdate]) and what the control thread does to
    the queues while they run ([control_step]: seeking, dropping, flushing,
    pausing).  They share the pools of frames, video packets and encoded
    packets, two queues, three checkpoints and the flags of the player.

    Every thread is a program counter with its local variables; a step is
    the code up to and including one access to shared state.  Frames,
    packets and encoded packets are addresses.  The answers of FFmpeg, of
    the allocator, of the clock and of the main thread are in [answers].
    A picture is numbered when the filter graph delivers it.  [lost_frames],
    [lost_packets], [fates], [shown] and [clock_sets] record what happened
    and are never read by the code; [audio_lane] are the encoded packets in
    the hands of the audio side, which returns each of them to the pool. *)

From S2P Require Import Prelude Holders.

(** ** Data *)

Definition AV_NOPTS_VALUE : Z := - 2 ^ 63.
Definition AVBOX_LATENCY_CORRECT_MAX : Z := 0.
Definition AVBOX_MIN_FRAME_WAIT_US : Z := 5000.
Definition AVBOX_SKIP_FRAME_THRESHOLD : Z := 400 * 1000.
Definition AVBOX_SKIP_FRAME_MAX : Z := 3.

(** A decoded frame; [picture] is [None] after [av_frame_unref]. *)
Record avframe := AVFrame { pts : Z; picture : option nat }.

(** [struct avbox_player_packet]. *)
Inductive content := SET_CLOCK (clock_value : Z) | VIDEO (video_frame : Z).

(** What became of a picture taken from the frames queue: sent to the main
    thread (with its time and the last reading of the clock), skipped, lost
    because the message could not be sent, or dropped by the control
    thread. *)
Inductive fate :=
  | Sent (n : nat) (timing : option (Z * Z))
  | Skipped (n : nat) (frame_time clock : Z)
  | Unsent (n : nat)
  | Dropped (n : nat).

Definition fate_picture (f : fate) : nat :=
  match f with Sent n _ | Skipped n _ _ | Unsent n | Dropped n => n end.

Inductive par_pc :=
  | PTest | PHere | PAcquire | PRead (a : Z) | PPut (a : Z) | PFree (a : Z) (more : bool) | PExit | PExited.

Inductive dec_pc :=
  | DOpen | DHere | DPeek | DAgain | DSend (a : Z) | DReceive (a : option Z)
  | DPullTop (a : option Z) | DPull (a : option Z) (f : Z)
  | DClockAcquire (a : option Z) (f : Z) | DClockPut (a : option Z) (f p : Z)
  | DFrameAcquire (a : option Z) (f : Z) | DFramePut (a : option Z) (f p : Z)
  | DFail (f : Z) (p : option Z) | DFailPacket (p : Z)
  | DGet (a : Z) | DFree (a : Z) | DFlushed | DExit | DClose | DExited.

Inductive out_pc :=
  | OStart | OHere | OPeek | OClock (p v : Z) | OWindow (p f : Z) | OTime (p f : Z)
  | OSleep (p f frame_time : Z) | OLate (p f frame_time clock : Z)
  | OWait (p f : Z) (timing : option (Z * Z)) | OSend (p f : Z) (timing : option (Z * Z))
  | OClockGet (p : Z) | OGet (p : Z) | OFree (p : Z)
  | OExit | ODrain | ODrainFrame (p : Z) | ODrainPacket (p : Z) | OJoin | ODestroy | OLast | OExited.

(** The delegate of the output thread. *)
Inductive del_state := DelIdle | DelQueued | DelDone.

Inductive ctl_pc :=
  | CIdle | CSeekParser | CSeekEnd
  | CHaltParser | CHaltDecoder | CHaltOutput | CDropPackets | CDropFree (a : Z)
  | CDropTest | CDropCount | CDropPeek | CDropGet (p : Z) | CDropFrame (p : Z) | CDropPacket (p : Z)
  | CDropSleep | CResumeParser | CResumeOutput | CResumeDecoder
  | CPauseOutput | CFlushParser | CFlushTest | CPresentWait | CPresentCount | CPresentPeek | CPresentEnd
  | CFlushEnd.

(** ** State *)

Record heap := Heap {
  frame_pool : list Z; packet_pool : list Z; av_packet_pool : list Z; frames : gmap Z avframe;
  packets : gmap Z content; packet_blocks : gset Z; av_packets : gset Z
}.

Definition with_frame_pool (v : list Z) (h : heap) : heap :=
  Heap v (packet_pool h) (av_packet_pool h) (frames h) (packets h) (packet_blocks h) (av_packets h).
Definition with_packet_pool (v : list Z) (h : heap) : heap :=
  Heap (frame_pool h) v (av_packet_pool h) (frames h) (packets h) (packet_blocks h) (av_packets h).
Definition with_av_packet_pool (v : list Z) (h : heap) : heap :=
  Heap (frame_pool h) (packet_pool h) v (frames h) (packets h) (packet_blocks h) (av_packets h).
Definition with_frames (v : gmap Z avframe) (h : heap) : heap :=
  Heap (frame_pool h) (packet_pool h) (av_packet_pool h) v (packets h) (packet_blocks h)
    (av_packets h).
Definition with_packets (v : gmap Z content) (h : heap) : heap :=
  Heap (frame_pool h) (packet_pool h) (av_packet_pool h) (frames h) v (packet_blocks h)
    (av_packets h).
Definition with_packet_blocks (v : gset Z) (h : heap) : heap :=
  Heap (frame_pool h) (packet_pool h) (av_packet_pool h) (frames h) (packets h) v (av_packets h).
Definition with_av_packets (v : gset Z) (h : heap) : heap :=
  Heap (frame_pool h) (packet_pool h) (av_packet_pool h) (frames h) (packets h) (packet_blocks h) v.

Record decoder := Decoder {
  d_pc : dec_pc; just_flushed : bool; keep_going : bool; time_set : bool; flush_graph : bool;
  filter_graph : bool
}.

Definition with_d_pc (v : dec_pc) (d : decoder) : decoder :=
  Decoder v (just_flushed d) (keep_going d) (time_set d) (flush_graph d) (filter_graph d).
Definition with_just_flushed (v : bool) (d : decoder) : decoder :=
  Decoder (d_pc d) v (keep_going d) (time_set d) (flush_graph d) (filter_graph d).
Definition with_keep_going (v : bool) (d : decoder) : decoder :=
  Decoder (d_pc d) (just_flushed d) v (time_set d) (flush_graph d) (filter_graph d).
Definition with_time_set (v : bool) (d : decoder) : decoder :=
  Decoder (d_pc d) (just_flushed d) (keep_going d) v (flush_graph d) (filter_graph d).
Definition with_flush_graph (v : bool) (d : decoder) : decoder :=
  Decoder (d_pc d) (just_flushed d) (keep_going d) (time_set d) v (filter_graph d).
Definition with_filter_graph (v : bool) (d : decoder) : decoder :=
  Decoder (d_pc d) (just_flushed d) (keep_going d) (time_set d) (flush_graph d) v.

Record output := Output {
  o_pc : out_pc; delegate_waitable : bool; scaled : bool; skip_frame : Z; last_latency : Z;
  args_frame : option Z
}.

Definition with_o_pc (v : out_pc) (o : output) : output :=
  Output v (delegate_waitable o) (scaled o) (skip_frame o) (last_latency o) (args_frame o).
Definition with_delegate_waitable (v : bool) (o : output) : output :=
  Output (o_pc o) v (scaled o) (skip_frame o) (last_latency o) (args_frame o).
Definition with_scaled (v : bool) (o : output) : output :=
  Output (o_pc o) (delegate_waitable o) v (skip_frame o) (last_latency o) (args_frame o).
Definition with_skip_frame (v : Z) (o : output) : output :=
  Output (o_pc o) (delegate_waitable o) (scaled o) v (last_latency o) (args_frame o).
Definition with_last_latency (v : Z) (o : output) : output :=
  Output (o_pc o) (delegate_waitable o) (scaled o) (skip_frame o) v (args_frame o).
Definition with_args_frame (v : option Z) (o : output) : output :=
  Output (o_pc o) (delegate_waitable o) (scaled o) (skip_frame o) (last_latency o) v.

Record lane := Lane {
  video_frames_q : list Z; frames_closed : bool; video_packets_q : list Z;
  packets_closed : bool; video_decoder_flushed : bool; flushing_video : bool; quit : bool;
  p_count : Z; d_count : Z; o_count : Z; delegate : del_state; video_window : bool;
  last_video_frame : option Z
}.

Definition with_video_frames_q (v : list Z) (l : lane) : lane :=
  Lane v (frames_closed l) (video_packets_q l) (packets_closed l) (video_decoder_flushed l)
    (flushing_video l) (quit l) (p_count l) (d_count l) (o_count l) (delegate l) (video_window l)
    (last_video_frame l).
Definition with_frames_closed (v : bool) (l : lane) : lane :=
  Lane (video_frames_q l) v (video_packets_q l) (packets_closed l) (video_decoder_flushed l)
    (flushing_video l) (quit l) (p_count l) (d_count l) (o_count l) (delegate l) (video_window l)
    (last_video_frame l).
Definition with_video_packets_q (v : list Z) (l : lane) : lane :=
  Lane (video_frames_q l) (frames_closed l) v (packets_closed l) (video_decoder_flushed l)
    (flushing_video l) (quit l) (p_count l) (d_count l) (o_count l) (delegate l) (video_window l)
    (last_video_frame l).
Definition with_packets_closed (v : bool) (l : lane) : lane :=
  Lane (video_frames_q l) (frames_closed l) (video_packets_q l) v (video_decoder_flushed l)
    (flushing_video l) (quit l) (p_count l) (d_count l) (o_count l) (delegate l) (video_window l)
    (last_video_frame l).
Definition with_video_decoder_flushed (v : bool) (l : lane) : lane :=
  Lane (video_frames_q l) (frames_closed l) (video_packets_q l) (packets_closed l)
    v (flushing_video l) (quit l) (p_count l) (d_count l) (o_count l) (delegate l)
    (video_window l) (last_video_frame l).
Definition with_flushing_video (v : bool) (l : lane) : lane :=
  Lane (video_frames_q l) (frames_closed l) (video_packets_q l) (packets_closed l)
    (video_decoder_flushed l) v (quit l) (p_count l) (d_count l) (o_count l) (delegate l)
    (video_window l) (last_video_frame l).
Definition with_quit (v : bool) (l : lane) : lane :=
  Lane (video_frames_q l) (frames_closed l) (video_packets_q l) (packets_closed l)
    (video_decoder_flushed l) (flushing_video l) v (p_count l) (d_count l) (o_count l)
    (delegate l) (video_window l) (last_video_frame l).
Definition with_p_count (v : Z) (l : lane) : lane :=
  Lane (video_frames_q l) (frames_closed l) (video_packets_q l) (packets_closed l)
    (video_decoder_flushed l) (flushing_video l) (quit l) v (d_count l) (o_count l) (delegate l)
    (video_window l) (last_video_frame l).
Definition with_d_count (v : Z) (l : lane) : lane :=
  Lane (video_frames_q l) (frames_closed l) (video_packets_q l) (packets_closed l)
    (video_decoder_flushed l) (flushing_video l) (quit l) (p_count l) v (o_count l) (delegate l)
    (video_window l) (last_video_frame l).
Definition with_o_count (v : Z) (l : lane) : lane :=
  Lane (video_frames_q l) (frames_closed l) (video_packets_q l) (packets_closed l)
    (video_decoder_flushed l) (flushing_video l) (quit l) (p_count l) (d_count l) v (delegate l)
    (video_window l) (last_video_frame l).
Definition with_delegate (v : del_state) (l : lane) : lane :=
  Lane (video_frames_q l) (frames_closed l) (video_packets_q l) (packets_closed l)
    (video_decoder_flushed l) (flushing_video l) (quit l) (p_count l) (d_count l) (o_count l)
    v (video_window l) (last_video_frame l).
Definition with_video_window (v : bool) (l : lane) : lane :=
  Lane (video_frames_q l) (frames_closed l) (video_packets_q l) (packets_closed l)
    (video_decoder_flushed l) (flushing_video l) (quit l) (p_count l) (d_count l) (o_count l)
    (delegate l) v (last_video_frame l).
Definition with_last_video_frame (v : option Z) (l : lane) : lane :=
  Lane (video_frames_q l) (frames_closed l) (video_packets_q l) (packets_closed l)
    (video_decoder_flushed l) (flushing_video l) (quit l) (p_count l) (d_count l) (o_count l)
    (delegate l) (video_window l) v.

Record history := History {
  lost_frames : list Z; lost_packets : list Z; audio_lane : list Z; delivered : nat;
  fates : list fate; shown : list nat; clock_sets : list Z
}.

Definition with_lost_frames (v : list Z) (g : history) : history :=
  History v (lost_packets g) (audio_lane g) (delivered g) (fates g) (shown g) (clock_sets g).
Definition with_lost_packets (v : list Z) (g : history) : history :=
  History (lost_frames g) v (audio_lane g) (delivered g) (fates g) (shown g) (clock_sets g).
Definition with_audio_lane (v : list Z) (g : history) : history :=
  History (lost_frames g) (lost_packets g) v (delivered g) (fates g) (shown g) (clock_sets g).
Definition with_delivered (v : nat) (g : history) : history :=
  History (lost_frames g) (lost_packets g) (audio_lane g) v (fates g) (shown g) (clock_sets g).
Definition with_fates (v : list fate) (g : history) : history :=
  History (lost_frames g) (lost_packets g) (audio_lane g) (delivered g) v (shown g) (clock_sets g).
Definition with_shown (v : list nat) (g : history) : history :=
  History (lost_frames g) (lost_packets g) (audio_lane g) (delivered g) (fates g) v (clock_sets g).
Definition with_clock_sets (v : list Z) (g : history) : history :=
  History (lost_frames g) (lost_packets g) (audio_lane g) (delivered g) (fates g) (shown g) v.

Record video := Video {
  mem : heap; ln : lane; par : par_pc; dec : decoder; out : output; ctl : ctl_pc;
  paused_out : bool; seeking : bool; hist : history
}.

Definition set_mem (v : heap) (s : video) : video :=
  Video v (ln s) (par s) (dec s) (out s) (ctl s) (paused_out s) (seeking s) (hist s).
Definition set_ln (v : lane) (s : video) : video :=
  Video (mem s) v (par s) (dec s) (out s) (ctl s) (paused_out s) (seeking s) (hist s).
Definition set_par (v : par_pc) (s : video) : video :=
  Video (mem s) (ln s) v (dec s) (out s) (ctl s) (paused_out s) (seeking s) (hist s).
Definition set_dec (v : decoder) (s : video) : video :=
  Video (mem s) (ln s) (par s) v (out s) (ctl s) (paused_out s) (seeking s) (hist s).
Definition set_out (v : output) (s : video) : video :=
  Video (mem s) (ln s) (par s) (dec s) v (ctl s) (paused_out s) (seeking s) (hist s).
Definition set_ctl (v : ctl_pc) (s : video) : video :=
  Video (mem s) (ln s) (par s) (dec s) (out s) v (paused_out s) (seeking s) (hist s).
Definition set_paused_out (v : bool) (s : video) : video :=
  Video (mem s) (ln s) (par s) (dec s) (out s) (ctl s) v (seeking s) (hist s).
Definition set_seeking (v : bool) (s : video) : video :=
  Video (mem s) (ln s) (par s) (dec s) (out s) (ctl s) (paused_out s) v (hist s).
Definition set_hist (v : history) (s : video) : video :=
  Video (mem s) (ln s) (par s) (dec s) (out s) (ctl s) (paused_out s) (seeking s) v.

(** Answers of the environment, for the steps that ask for them. *)
Inductive send_result := SendOk | SendAgain | SendInvalid | SendError.
Inductive receive_result := ReceiveFrame | ReceiveEof | ReceiveAgain | ReceiveError.
Inductive sink_result := SinkFrame (pts : Z) | SinkEof | SinkAgain | SinkError.
Inductive read_result := ReadVideo | ReadAudio | ReadOther | ReadEnd.
Inductive request := ReqSeek | ReqDrop | ReqFlush | ReqPause | ReqResume | ReqQuit.

Record answers := Answers {
  a_alloc : option Z; a_put : option errno; a_send : send_result; a_receive : receive_result;
  a_sink : sink_result; a_read : read_result; a_codec : bool; a_seek : bool; a_graph : bool; a_feed : bool;
  a_clock : Z; a_delegate : bool; a_window : bool; a_sendmsg : bool; a_request : request;
  a_poll : bool; a_blocking : bool; a_wake : bool
}.

(** A step is taken, has to wait, or is an abort or undefined behaviour. *)
Inductive outcome := Next (s : video) | Blocked | Crash.

Definition need {A} (o : option A) (k : A -> outcome) : outcome :=
  match o with Some x => k x | None => Crash end.

(** Signed 64-bit arithmetic. *)
Definition chk64 (z : Z) : option Z := if in_s 64 z then Some z else None.

(** ** The pools *)

Definition upd_mem (f : heap -> heap) (s : video) : video := set_mem (f (mem s)) s.
Definition upd_ln (f : lane -> lane) (s : video) : video := set_ln (f (ln s)) s.
Definition upd_dec (f : decoder -> decoder) (s : video) : video := set_dec (f (dec s)) s.
Definition upd_out (f : output -> output) (s : video) : video := set_out (f (out s)) s.
Definition upd_hist (f : history -> history) (s : video) : video := set_hist (f (hist s)) s.

Definition acquire_av_packet (alloc : option Z) (s : video) : option (Z * video) :=
  match pool_take (av_packet_pool (mem s)) with
  | Some (a, l) => Some (a, upd_mem (with_av_packet_pool l) s)
  | None => a ← alloc; Some (a, upd_mem (fun h => with_av_packets ({[a]} ∪ av_packets h) h) s)
  end.

Definition release_av_packet (a : Z) (s : video) : video :=
  upd_mem (fun h => with_av_packet_pool (a :: av_packet_pool h) h) s.

Definition acquire_av_frame (alloc : option Z) (s : video) : option (Z * video) :=
  match pool_take (frame_pool (mem s)) with
  | Some (f, l) => Some (f, upd_mem (with_frame_pool l) s)
  | None => f ← alloc;
      Some (f, upd_mem (fun h => with_frames (<[f := AVFrame AV_NOPTS_VALUE None]> (frames h)) h) s)
  end.

Definition release_av_frame (f : Z) (s : video) : video :=
  upd_mem (fun h => with_frame_pool (f :: frame_pool h) h) s.

Definition acquire_packet (alloc : option Z) (s : video) : option (Z * video) :=
  match pool_take (packet_pool (mem s)) with
  | Some (p, l) => Some (p, upd_mem (with_packet_pool l) s)
  | None => p ← alloc; Some (p, upd_mem (fun h => with_packet_blocks ({[p]} ∪ packet_blocks h) h) s)
  end.

(** The assignments to the fields of a packet. *)
Definition write_packet (p : Z) (c : content) (s : video) : video :=
  upd_mem (fun h => with_packets (<[p := c]> (packets h)) h) s.

(** A packet has no list node of its own: the links of the pool overwrite
    its fields. *)
Definition release_packet (p : Z) (s : video) : video :=
  upd_mem (fun h => with_packets (delete p (packets h)) (with_packet_pool (p :: packet_pool h) h)) s.

Definition av_frame_unref (f : Z) (s : video) : option video :=
  fr ← frames (mem s) !! f;
  Some (upd_mem (fun h => with_frames (<[f := AVFrame (pts fr) None]> (frames h)) h) s).

Definition picture_of (f : Z) (s : video) : option nat := fr ← frames (mem s) !! f; picture fr.

Definition log_fate (x : fate) (s : video) : video :=
  upd_hist (fun g => with_fates (fates g ++ [x]) g) s.

Definition goto_dec (pc : dec_pc) (s : video) : video := upd_dec (with_d_pc pc) s.
Definition goto_out (pc : out_pc) (s : video) : video := upd_out (with_o_pc pc) s.

(** ** Checkpoints: where a thread is halted or its checkpoint disabled *)

Definition parser_halted (s : video) : bool :=
  match par s with PHere => 0 <? p_count (ln s) | PExited => true | _ => false end.

Definition decoder_halted (s : video) : bool :=
  match d_pc (dec s) with
  | DHere => 0 <? d_count (ln s) | DOpen | DClose | DExited => true | _ => false
  end.

Definition output_halted (s : video) : bool :=
  match o_pc (out s) with
  | OHere => 0 <? o_count (ln s)
  | OStart | ODrain | ODrainFrame _ | ODrainPacket _ | OJoin | ODestroy | OLast | OExited => true
  | _ => false
  end.

Section pipeline.
(** [av_rescale_q] from the time base of the stream to microseconds. *)
Variable rescale : Z -> Z.
(** Sizes of the two queues; whether the stream is one (a DVD) that can be
    blocked inside of a read. *)
Variables (frames_size packets_size : Z) (dvd : bool).

(** [avbox_queue_put]: taken when there is room; woken or out of memory
    otherwise. *)
Inductive put_result := PutOk | PutAgain | PutFailed | PutWait.

Definition queue_put (a : answers) (q : list Z) (size : Z) : put_result :=
  match a_put a with
  | None => if len q <? size then PutOk else PutWait
  | Some EAGAIN => PutAgain
  | Some _ => PutFailed
  end.

(** ** The stream parser *)

Definition stream_parse_loop (a : answers) (s : video) : outcome :=
  match par s with
  | PTest => Next (set_par (if quit (ln s) then PExit else PHere) s)
  | PHere => if 0 <? p_count (ln s) then Blocked else Next (set_par PAcquire s)
  | PAcquire => need (acquire_av_packet (a_alloc a) s) (fun '(x, s) => Next (set_par (PRead x) s))
  | PRead x =>
      match a_read a with
      | ReadVideo => Next (set_par (PPut x) s)
      | ReadAudio =>
          Next (set_par PTest (upd_hist (fun g => with_audio_lane (audio_lane g ++ [x]) g) s))
      | ReadOther => Next (set_par (PFree x true) s)
      | ReadEnd => Next (set_par PExit (upd_hist (fun g => with_lost_packets (x :: lost_packets g) g) s))
      end
  | PPut x =>
      match queue_put a (video_packets_q (ln s)) packets_size with
      | PutOk => Next (set_par PTest (upd_ln (fun l => with_video_packets_q (video_packets_q l ++ [x]) l) s))
      | PutAgain => Next s
      | PutFailed => Next (set_par (PFree x false) s)
      | PutWait => Blocked
      end
  | PFree x more => Next (set_par (if more then PTest else PExit) (release_av_packet x s))
  | PExit => Next (set_par PExited (upd_ln (fun l => with_quit true (with_packets_closed true l)) s))
  | PExited => Blocked
  end.

(** The audio side gives an encoded packet back. *)
Definition audio_step (s : video) : outcome :=
  match audio_lane (hist s) with
  | [] => Blocked
  | x :: l => Next (release_av_packet x (upd_hist (with_audio_lane l) s))
  end.

(** ** The video decoder *)

(** The flush packet. *)
Definition send_flush (a : answers) (s : video) : outcome :=
  match a_send a with
  | SendOk => Next (upd_dec (fun d => with_d_pc (DReceive None) (with_keep_going true (with_just_flushed true d))) s)
  | _ => Next (goto_dec DExit s)
  end.

(** [avcodec_receive_frame] and the feeding of the filter graph. *)
Definition receive_frame (a : answers) (x : option Z) (s : video) : outcome :=
  let d := dec s in
  let pull d := Next (set_dec (with_d_pc (DPullTop x) d) s) in
  match a_receive a with
  | ReceiveEof =>
      if filter_graph d then
        if a_feed a then pull (with_keep_going false (with_flush_graph true d))
        else Next (goto_dec DExit s)
      else pull (with_keep_going false d)
  | ReceiveAgain => if just_flushed d then Next s else pull (with_keep_going false d)
  | ReceiveError => pull (with_keep_going false d)
  | ReceiveFrame =>
      if filter_graph d || a_graph a then
        if a_feed a then pull (with_filter_graph true d)
        else Next (set_dec (with_d_pc DExit (with_filter_graph true d)) s)
      else Next (goto_dec DExit s)
  end.

(** The end of the inner loop: [keep_going], then the encoded packet. *)
Definition end_of_pull (x : option Z) (s : video) : video :=
  if keep_going (dec s) then goto_dec (DReceive x) s
  else match x with Some a => goto_dec (DGet a) s | None => goto_dec DFlushed s end.

(** [av_buffersink_get_frame]. *)
Definition pull_frame (a : answers) (x : option Z) (f : Z) (s : video) : outcome :=
  match a_sink a with
  | SinkEof => Next (end_of_pull x (upd_dec (with_flush_graph false) (release_av_frame f s)))
  | SinkAgain =>
      let s := release_av_frame f s in
      if flush_graph (dec s) then Next (goto_dec (DPullTop x) s) else Next (end_of_pull x s)
  | SinkError => Next (goto_dec DExit (release_av_frame f s))
  | SinkFrame t =>
      let s := upd_mem (fun h => with_frames (<[f := AVFrame t (Some (delivered (hist s)))]> (frames h)) h) s in
      Next (goto_dec (if time_set (dec s) then DFrameAcquire x f else DClockAcquire x f) s)
  end.

(** The next encoded packet, or the flush packet, goes to the codec. *)
Definition feed_decoder (a : answers) (s : video) : outcome :=
  match d_pc (dec s) with
  | DPeek =>
      match video_packets_q (ln s) with
      | x :: _ => Next (goto_dec (DSend x) s)
      | [] =>
          if packets_closed (ln s) then
            if video_decoder_flushed (ln s) then Next (goto_dec DExit s) else send_flush a s
          else if flushing_video (ln s) || a_wake a then Next (goto_dec DAgain s) else Blocked
      end
  | DAgain =>
      if video_decoder_flushed (ln s) || negb (flushing_video (ln s)) then Next (goto_dec DHere s)
      else send_flush a s
  | DSend x =>
      let s := upd_dec (with_keep_going true) s in
      match a_send a with
      | SendOk => Next (goto_dec (DReceive (Some x)) (upd_ln (with_video_decoder_flushed false) s))
      | SendAgain => Next (goto_dec (DReceive None) s)
      | SendInvalid => Next (goto_dec (DReceive (Some x)) s)
      | SendError => Next (goto_dec DExit s)
      end
  | _ => Blocked
  end.

(** A filtered frame goes to the frames queue, behind a SET_CLOCK packet
    when it is the first one. *)
Definition deliver_frame (a : answers) (s : video) : outcome :=
  match d_pc (dec s) with
  | DClockAcquire x f =>
      need (frames (mem s) !! f) (fun fr =>
        match acquire_packet (a_alloc a) s with
        | Some (p, s) => Next (goto_dec (DClockPut x f p) (upd_dec (with_time_set true)
                                 (write_packet p (SET_CLOCK (rescale (pts fr))) s)))
        | None => Next (goto_dec (DFail f None) s)
        end)
  | DClockPut x f p =>
      match queue_put a (video_frames_q (ln s)) frames_size with
      | PutOk => Next (goto_dec (DFrameAcquire x f)
                         (upd_ln (fun l => with_video_frames_q (video_frames_q l ++ [p]) l) s))
      | PutAgain => Next s
      | PutFailed => Next (goto_dec (DFail f (Some p)) s)
      | PutWait => Blocked
      end
  | DFrameAcquire x f =>
      match acquire_packet (a_alloc a) s with
      | Some (p, s) => Next (goto_dec (DFramePut x f p) (write_packet p (VIDEO f) s))
      | None => Next (goto_dec (DFail f None) s)
      end
  | DFramePut x f p =>
      match queue_put a (video_frames_q (ln s)) frames_size with
      | PutOk => Next (goto_dec (DPullTop x)
                         (upd_hist (fun g => with_delivered (S (delivered g)) g)
                           (upd_ln (fun l => with_video_frames_q (video_frames_q l ++ [p]) l) s)))
      | PutAgain => Next s
      | PutFailed => Next (goto_dec (DFail f (Some p)) s)
      | PutWait => Blocked
      end
  | DFail f op =>
      let s := release_av_frame f s in
      Next (match op with Some p => goto_dec (DFailPacket p) s | None => goto_dec DExit s end)
  | DFailPacket p => Next (goto_dec DExit (release_packet p s))
  | _ => Blocked
  end.

(** The encoded packet is dequeued; after a flush the codec starts over. *)
Definition finish_packet (a : answers) (s : video) : outcome :=
  match d_pc (dec s) with
  | DGet x =>
      match video_packets_q (ln s) with
      | y :: q =>
          let s := upd_ln (with_video_packets_q q) s in
          if y =? x then Next (goto_dec (DFree x) s)
          else Next (goto_dec DExit (upd_hist (fun g => with_lost_packets (y :: lost_packets g) g) s))
      | [] => if packets_closed (ln s) || a_wake a then Next (goto_dec DExit s) else Blocked
      end
  | DFree x => Next (goto_dec DFlushed (release_av_packet x s))
  | DFlushed =>
      if just_flushed (dec s) then
        Next (upd_dec (fun d => with_d_pc DHere (with_time_set false (with_just_flushed false (with_filter_graph false d))))
                (upd_ln (with_video_decoder_flushed true) s))
      else Next (goto_dec DHere s)
  | _ => Blocked
  end.

Definition avbox_player_video_decode (a : answers) (s : video) : outcome :=
  match d_pc (dec s) with
  | DOpen =>
      if a_codec a then Next (goto_dec DHere (upd_ln (with_video_decoder_flushed true) s))
      else Next (goto_dec DExit s)
  | DHere => if 0 <? d_count (ln s) then Blocked else Next (goto_dec DPeek s)
  | DPeek | DAgain | DSend _ => feed_decoder a s
  | DReceive x => receive_frame a x s
  | DPullTop x =>
      if filter_graph (dec s) then
        match acquire_av_frame (a_alloc a) s with
        | Some (f, s) => Next (goto_dec (DPull x f) s)
        | None => Next s
        end
      else Next (end_of_pull x s)
  | DPull x f => pull_frame a x f s
  | DClockAcquire _ _ | DClockPut _ _ _ | DFrameAcquire _ _ | DFramePut _ _ _ | DFail _ _ | DFailPacket _ =>
      deliver_frame a s
  | DGet _ | DFree _ | DFlushed => finish_packet a s
  | DExit => Next (goto_dec DClose s)
  | DClose => Next (goto_dec DExited (upd_ln (with_frames_closed true) s))
  | DExited => Blocked
  end.

(** ** The main thread *)

(** Present the frame the delegate carries. *)
Definition avbox_player_doupdate (s : video) : outcome :=
  match delegate (ln s) with
  | DelQueued =>
      need (args_frame (out s)) (fun f =>
        let s := upd_ln (with_delegate DelDone) s in
        if video_window (ln s) then
          need (picture_of f s) (fun n =>
            let s := upd_hist (fun g => with_shown (shown g ++ [n]) g) s in
            match last_video_frame (ln s) with
            | Some l => need (av_frame_unref l s) (fun s =>
                Next (upd_ln (with_last_video_frame (Some f)) (release_av_frame l s)))
            | None => Next (upd_ln (with_last_video_frame (Some f)) s)
            end)
        else Next (upd_hist (fun g => with_lost_frames (f :: lost_frames g) g) s))
  | _ => Blocked
  end.

(** [avbox_player_createwindow], run while the output thread waits. *)
Definition avbox_player_createwindow (a : answers) (s : video) : option video :=
  if a_window a then Some (upd_ln (with_video_window true) s) else None.

Definition avbox_player_destroywindow (s : video) : video := upd_ln (with_video_window false) s.

(** ** The video output thread *)

(** The first reading of the clock: sleep, or go on with the frame. *)
Definition frame_wait (latency frame_time clock : Z) : option bool :=
  if clock <? frame_time then
    d ← chk64 (frame_time - clock);
    delay ← chk64 (d - Z.min latency AVBOX_LATENCY_CORRECT_MAX);
    if AVBOX_MIN_FRAME_WAIT_US <? delay then _ ← chk64 (delay * 1000); Some true else Some false
  else Some false.

(** The test for late frames. *)
Definition frame_late (p f frame_time clock : Z) (s : video) : outcome :=
  need (chk64 (clock - frame_time)) (fun d =>
  let lat := Z.max 0 d in
  let s := upd_out (with_last_latency lat) s in
  if AVBOX_SKIP_FRAME_THRESHOLD <? lat then
    let s := upd_out (with_skip_frame (skip_frame (out s) + 1)) s in
    if skip_frame (out s) <=? AVBOX_SKIP_FRAME_MAX then
      need (picture_of f s) (fun n =>
      need (av_frame_unref f s) (fun s =>
        Next (goto_out (OGet p) (log_fate (Skipped n frame_time clock) (release_av_frame f s)))))
    else Next (goto_out (OWait p f (Some (frame_time, clock))) (upd_out (with_skip_frame 0) s))
  else Next (goto_out (OWait p f (Some (frame_time, clock))) s)).

(** [avbox_queue_get] has to return the packet that was peeked. *)
Definition get_peeked (a : answers) (p : Z) (s : video) (k : video -> video) : outcome :=
  match video_frames_q (ln s) with
  | y :: q => if y =? p then Next (k (upd_ln (with_video_frames_q q) s)) else Crash
  | [] => if frames_closed (ln s) || a_wake a then Crash else Blocked
  end.

(** [packet->video_frame] of a packet, if it carries a frame. *)
Definition unref_packet_frame (p : Z) (log : bool) (s : video) : option video :=
  c ← packets (mem s) !! p;
  match c with
  | SET_CLOCK _ => Some s
  | VIDEO f =>
      n ← picture_of f s;
      s ← av_frame_unref f s;
      Some (if log then log_fate (Dropped n) (release_av_frame f s) else release_av_frame f s)
  end.

(** The next packet: a control packet is handled, the first frame creates
    the window. *)
Definition video_peek (a : answers) (s : video) : outcome :=
  match o_pc (out s) with
  | OPeek =>
      match video_frames_q (ln s) with
      | p :: _ =>
          need (packets (mem s) !! p) (fun c =>
            match c with
            | SET_CLOCK v => Next (goto_out (OClock p v) s)
            | VIDEO f => Next (goto_out (if scaled (out s) then OTime p f else OWindow p f) s)
            end)
      | [] => Next (goto_out (if frames_closed (ln s) then OExit else OHere) s)
      end
  | OClock p v =>
      Next (goto_out (OClockGet p) (upd_hist (fun g => with_clock_sets (clock_sets g ++ [rescale v]) g) s))
  | OWindow p f =>
      let go s := Next (goto_out (OTime p f) (upd_out (with_scaled true) s)) in
      if a_delegate a then need (avbox_player_createwindow a s) go else go s
  | _ => Blocked
  end.

(** Wait for the time of the frame. *)
Definition video_time (a : answers) (s : video) : outcome :=
  match o_pc (out s) with
  | OTime p f =>
      need (frames (mem s) !! f) (fun fr =>
        if pts fr =? AV_NOPTS_VALUE then Next (goto_out (OWait p f None) s)
        else
          let frame_time := rescale (pts fr) in
          need (frame_wait (last_latency (out s)) frame_time (a_clock a)) (fun sleep =>
            Next (goto_out (if sleep then OSleep p f frame_time else OLate p f frame_time (a_clock a)) s)))
  | OSleep p f frame_time =>
      need (chk64 (a_clock a + 30 * 1000)) (fun c =>
        Next (goto_out (if c <? frame_time then OHere else OLate p f frame_time (a_clock a)) s))
  | OLate p f frame_time clock => frame_late p f frame_time clock s
  | _ => Blocked
  end.

(** Hand the frame to the main thread and dequeue its packet. *)
Definition video_send (a : answers) (s : video) : outcome :=
  match o_pc (out s) with
  | OWait p f t =>
      if delegate_waitable (out s) then
        match delegate (ln s) with
        | DelDone => Next (goto_out (OSend p f t) (upd_out (with_delegate_waitable false)
                             (upd_ln (with_delegate DelIdle) s)))
        | _ => Blocked
        end
      else Next (goto_out (OSend p f t) s)
  | OSend p f t =>
      need (picture_of f s) (fun n =>
        let s := upd_out (with_args_frame (Some f)) s in
        if a_sendmsg a then
          Next (goto_out (OGet p) (upd_out (with_delegate_waitable true)
                 (log_fate (Sent n t) (upd_ln (with_delegate DelQueued) s))))
        else
          Next (goto_out (OGet p) (log_fate (Unsent n)
                 (upd_hist (fun g => with_lost_frames (f :: lost_frames g) g) s))))
  | OClockGet p => get_peeked a p s (goto_out (OFree p))
  | OGet p => get_peeked a p s (goto_out (OFree p))
  | OFree p => Next (goto_out OHere (release_packet p s))
  | _ => Blocked
  end.

(** [video_exit]. *)
Definition video_exit (a : answers) (s : video) : outcome :=
  match o_pc (out s) with
  | ODrain =>
      match video_frames_q (ln s) with
      | p :: q => Next (goto_out (ODrainFrame p) (upd_ln (with_video_frames_q q) s))
      | [] => if frames_closed (ln s) || a_wake a then Next (goto_out OJoin s) else Blocked
      end
  | ODrainFrame p => need (unref_packet_frame p false s) (fun s => Next (goto_out (ODrainPacket p) s))
  | ODrainPacket p => Next (goto_out ODrain (release_packet p s))
  | OJoin =>
      if delegate_waitable (out s) then
        match delegate (ln s) with
        | DelDone => Next (goto_out ODestroy (upd_out (with_delegate_waitable false)
                             (upd_ln (with_delegate DelIdle) s)))
        | _ => Blocked
        end
      else Next (goto_out ODestroy s)
  | ODestroy =>
      Next (goto_out OLast (if video_window (ln s) && a_delegate a then avbox_player_destroywindow s else s))
  | OLast =>
      match last_video_frame (ln s) with
      | Some f => need (av_frame_unref f s) (fun s =>
          Next (goto_out OExited (upd_ln (with_last_video_frame None) (release_av_frame f s))))
      | None => Next (goto_out OExited s)
      end
  | _ => Blocked
  end.

Definition avbox_player_video (a : answers) (s : video) : outcome :=
  match o_pc (out s) with
  | OStart => if a_delegate a then Next (goto_out OHere s) else Crash
  | OHere => if 0 <? o_count (ln s) then Blocked else Next (goto_out OPeek s)
  | OPeek | OClock _ _ | OWindow _ _ => video_peek a s
  | OTime _ _ | OSleep _ _ _ | OLate _ _ _ _ => video_time a s
  | OWait _ _ _ | OSend _ _ _ | OClockGet _ | OGet _ | OFree _ => video_send a s
  | OExit => Next (goto_out ODrain s)
  | ODrain | ODrainFrame _ | ODrainPacket _ | OJoin | ODestroy | OLast => video_exit a s
  | OExited => Blocked
  end.

(** ** The control thread *)

Definition halt_parser (s : video) : video := upd_ln (fun l => with_p_count (p_count l + 1) l) s.
Definition continue_parser (s : video) : video := upd_ln (fun l => with_p_count (p_count l - 1) l) s.
Definition halt_decoder (s : video) : video := upd_ln (fun l => with_d_count (d_count l + 1) l) s.
Definition continue_decoder (s : video) : video := upd_ln (fun l => with_d_count (d_count l - 1) l) s.
Definition halt_output (s : video) : video := upd_ln (fun l => with_o_count (o_count l + 1) l) s.
Definition continue_output (s : video) : video := upd_ln (fun l => with_o_count (o_count l - 1) l) s.

(** [avbox_player_stream_checkpoint_wait]. *)
Definition avbox_player_stream_checkpoint_wait (a : answers) (s : video) : bool :=
  parser_halted s || (dvd && a_blocking a && match par s with PRead _ => true | _ => false end).

(** [avbox_player_drop] and [avbox_player_halt] up to the first wait. *)
Definition drop_begin (s : video) : video :=
  set_ctl CHaltParser (halt_parser (upd_ln (with_flushing_video true) s)).

(** A message arrives. *)
Definition control_idle (a : answers) (s : video) : outcome :=
  match a_request a with
  | ReqSeek => Next (set_ctl CSeekParser (halt_parser s))
  | ReqDrop => Next (drop_begin s)
  | ReqFlush => Next (if flushing_video (ln s) then set_ctl CFlushTest s else set_ctl CFlushParser (halt_parser s))
  | ReqPause => Next (if paused_out s then s else set_ctl CPauseOutput (set_paused_out true (halt_output s)))
  | ReqResume => Next (if paused_out s then set_paused_out false (continue_output s) else s)
  | ReqQuit => Next (upd_ln (with_quit true) s)
  end.

(** The loop of [avbox_player_drop] over the frames queue. *)
Definition drop_frames (a : answers) (s : video) : outcome :=
  match ctl s with
  | CDropTest => Next (set_ctl (if video_decoder_flushed (ln s) then CDropCount else CDropPeek) s)
  | CDropCount =>
      match video_frames_q (ln s) with
      | [] => Next (set_ctl CResumeParser (upd_ln (with_flushing_video false) s))
      | _ => Next (set_ctl CDropPeek s)
      end
  | CDropPeek =>
      match video_frames_q (ln s) with
      | p :: _ => Next (set_ctl (CDropGet p) s)
      | [] => Next (set_ctl CDropSleep (continue_decoder s))
      end
  | CDropGet p => get_peeked a p s (set_ctl (CDropFrame p))
  | CDropFrame p => need (unref_packet_frame p true s) (fun s => Next (set_ctl (CDropPacket p) s))
  | CDropPacket p => Next (set_ctl CDropTest (release_packet p s))
  | CDropSleep => Next (set_ctl CDropTest (halt_decoder s))
  | _ => Blocked
  end.

(** [avbox_player_halt], [avbox_player_drop] and [avbox_player_continue]. *)
Definition drop_step (a : answers) (s : video) : outcome :=
  match ctl s with
  | CHaltParser =>
      if avbox_player_stream_checkpoint_wait a s then Next (set_ctl CHaltDecoder (halt_decoder s)) else Blocked
  | CHaltDecoder => if decoder_halted s then Next (set_ctl CHaltOutput (halt_output s)) else Blocked
  | CHaltOutput => if output_halted s then Next (set_ctl CDropPackets s) else Blocked
  | CDropPackets =>
      match video_packets_q (ln s) with
      | x :: q => Next (set_ctl (CDropFree x) (upd_ln (with_video_packets_q q) s))
      | [] => Next (set_ctl CDropTest s)
      end
  | CDropFree x => Next (set_ctl CDropPackets (release_av_packet x s))
  | CResumeParser => Next (set_ctl CResumeOutput (continue_parser s))
  | CResumeOutput => Next (set_ctl CResumeDecoder (continue_output s))
  | CResumeDecoder => Next (set_ctl (if seeking s then CSeekEnd else CIdle) (continue_decoder s))
  | _ => drop_frames a s
  end.

(** The video side of [avbox_player_flush]; [a_poll] when the answer is "not
    yet" (sound is left, or the video clock runs). *)
Definition flush_step (a : answers) (s : video) : outcome :=
  match ctl s with
  | CFlushParser =>
      if avbox_player_stream_checkpoint_wait a s
      then Next (set_ctl CFlushTest (upd_ln (with_flushing_video true) s)) else Blocked
  | CFlushTest =>
      if a_poll a then Next (set_ctl CIdle s)
      else match video_frames_q (ln s), video_packets_q (ln s), video_decoder_flushed (ln s) with
      | [], [], true => Next (set_ctl CFlushEnd (upd_ln (with_flushing_video false) s))
      | _, _, _ => Next (set_ctl CPresentWait (halt_output s))
      end
  | CPresentWait => if output_halted s then Next (set_ctl CPresentCount s) else Blocked
  | CPresentCount => Next (set_ctl (match video_frames_q (ln s) with [] => CPresentEnd | _ => CPresentPeek end) s)
  | CPresentPeek =>
      match video_frames_q (ln s) with
      | [] => Crash
      | p :: _ =>
          need (packets (mem s) !! p) (fun c =>
            match c with
            | SET_CLOCK _ => Next (set_ctl CPresentEnd s)
            | VIDEO f =>
                need (frames (mem s) !! f) (fun fr =>
                  Next (set_ctl CPresentEnd (upd_mem (fun h =>
                    with_frames (<[f := AVFrame AV_NOPTS_VALUE (picture fr)]> (frames h)) h) s)))
            end)
      end
  | CPresentEnd => Next (set_ctl CFlushTest (continue_output s))
  | CFlushEnd => Next (set_ctl CIdle (continue_parser s))
  | _ => Blocked
  end.

Definition control_step (a : answers) (s : video) : outcome :=
  match ctl s with
  | CIdle => control_idle a s
  | CSeekParser =>
      if parser_halted s then
        if a_seek a then Next (drop_begin (set_seeking true s)) else Next (set_ctl CSeekEnd s)
      else Blocked
  | CSeekEnd => Next (set_ctl CIdle (set_seeking false (continue_parser s)))
  | CPauseOutput => if output_halted s then Next (set_ctl CIdle s) else Blocked
  | CFlushParser | CFlushTest | CPresentWait | CPresentCount | CPresentPeek | CPresentEnd | CFlushEnd =>
      flush_step a s
  | _ => drop_step a s
  end.

(** ** Start *)

Definition video_empty : video :=
  Video (Heap [] [] [] ∅ ∅ ∅ ∅) (Lane [] false [] false true false false 0 0 0 DelIdle false None)
    PTest (Decoder DOpen false false false false false) (Output OStart false false 0 0 None)
    CIdle false false (History [] [] [] 0 [] [] []).

(** [prime_pools]: fill a local array from the allocator, then release it. *)
Fixpoint acquire_all (acquire : option Z -> video -> option (Z * video)) (mems : list Z) (s : video) :
    option (list Z * video) :=
  match mems with
  | [] => Some ([], s)
  | m :: mems => '(x, s) ← acquire (Some m) s; '(l, s) ← acquire_all acquire mems s; Some (x :: l, s)
  end.

Definition prime_pool (acquire : option Z -> video -> option (Z * video)) (release : Z -> video -> video)
    (mems : list Z) (s : video) : option video :=
  '(pointers, s) ← acquire_all acquire mems s; Some (foldl (fun s x => release x s) s pointers).

Definition prime_pools (frame_mems av_mems packet_mems : list Z) (s : video) : option video :=
  s ← prime_pool acquire_av_frame release_av_frame frame_mems s;
  s ← prime_pool acquire_av_packet release_av_packet av_mems s;
  prime_pool acquire_packet release_packet packet_mems s.

(** ** Runs *)

Inductive thread := TParser | TAudio | TDecoder | TOutput | TMain | TControl.

Definition exec (t : thread) (a : answers) (s : video) : outcome :=
  match t with
  | TParser => stream_parse_loop a s
  | TAudio => audio_step s
  | TDecoder => avbox_player_video_decode a s
  | TOutput => avbox_player_video a s
  | TMain => avbox_player_doupdate s
  | TControl => control_step a s
  end.

End pipeline.
