(* ===== verification/Presentation.v ===== *)
(** * What the video pipeline guarantees

    Proofs about [VideoPipe]: who holds what while the parser, the decoder,
    the output thread, the main thread and the control thread run in any
    interleaving, and that a step fails only with a [fault]. *)

From S2P Require Import Prelude Holders VideoPipe.

(** ** Where the threads are *)

(** The packet the output thread has peeked and not yet taken. *)
Definition out_peeked (pc : out_pc) : option Z :=
  match pc with
  | OClock p _ | OWindow p _ | OTime p _ | OSleep p _ _ | OLate p _ _ _ | OWait p _ _ | OSend p _ _
  | OClockGet p | OGet p => Some p
  | _ => None
  end.

(** The encoded packet the decoder has peeked and not yet taken. *)
Definition dec_peeked (pc : dec_pc) : option Z :=
  match pc with
  | DSend a | DGet a => Some a
  | DReceive a | DPullTop a | DPull a _ | DClockAcquire a _ | DClockPut a _ _ | DFrameAcquire a _
  | DFramePut a _ _ => a
  | _ => None
  end.

(** The decoder is between two packets and holds nothing. *)
Definition dec_quiet (pc : dec_pc) : bool :=
  match pc with DOpen | DHere | DExit | DClose | DExited => true | _ => false end.

Definition dec_calm (pc : dec_pc) : bool :=
  match pc with DPeek | DAgain => true | _ => dec_quiet pc end.

Definition out_gone (pc : out_pc) : bool :=
  match pc with OExit | ODrain | OJoin | ODestroy | OLast | OExited => true | _ => false end.

Definition out_drains (pc : out_pc) : bool :=
  match pc with ODrainFrame _ | ODrainPacket _ => true | _ => false end.

(** Where the control thread holds the checkpoints. *)
Definition holds_decoder (c : ctl_pc) : bool :=
  match c with
  | CHaltDecoder | CHaltOutput | CDropPackets | CDropFree _ | CDropTest | CDropCount | CDropPeek
  | CDropGet _ | CDropFrame _ | CDropPacket _ | CResumeParser | CResumeOutput | CResumeDecoder => true
  | _ => false
  end.

Definition holds_output (c : ctl_pc) : bool :=
  match c with
  | CHaltOutput | CDropPackets | CDropFree _ | CDropTest | CDropCount | CDropPeek
  | CDropGet _ | CDropFrame _ | CDropPacket _ | CDropSleep | CResumeParser | CResumeOutput
  | CPresentWait | CPresentCount | CPresentPeek | CPresentEnd => true
  | _ => false
  end.

(** It has seen that the output thread is halted. *)
Definition output_seen (c : ctl_pc) : bool :=
  match c with CHaltOutput | CPresentWait => false | _ => holds_output c end.

Definition decoder_seen (c : ctl_pc) : bool :=
  match c with CHaltOutput | CDropPackets | CDropFree _ => true | _ => false end.

(** It is past the encoded packets. *)
Definition dropping (c : ctl_pc) : bool :=
  match c with
  | CDropTest | CDropCount | CDropPeek | CDropGet _ | CDropFrame _ | CDropPacket _ | CDropSleep
  | CResumeParser => true
  | _ => false
  end.

Definition holds_parser (c : ctl_pc) : bool :=
  match c with
  | CHaltParser | CHaltDecoder | CHaltOutput | CDropPackets | CDropFree _ => true
  | _ => dropping c
  end.

Definition parser_seen (c : ctl_pc) : bool :=
  match c with CHaltParser => false | _ => holds_parser c end.

(** Halts of the parser that are still to be undone. *)
Definition parser_debt (c : ctl_pc) (seeking flushing : bool) : Z :=
  match c with
  | CIdle | CPauseOutput => Z.b2z flushing
  | CSeekParser | CSeekEnd => 1 + Z.b2z flushing
  | CResumeOutput | CResumeDecoder => Z.b2z seeking
  | CFlushParser | CFlushTest | CPresentWait | CPresentCount | CPresentPeek | CPresentEnd | CFlushEnd => 1
  | _ => 1 + Z.b2z seeking
  end.

Definition resuming (c : ctl_pc) : bool :=
  match c with CResumeParser | CResumeOutput | CResumeDecoder => true | _ => false end.

(** It may be inside of a seek. *)
Definition may_seek (c : ctl_pc) : bool :=
  match c with CSeekEnd => true | _ => holds_parser c || resuming c end.

Record sync (s : video) : Prop := Sync {
  sync_d : d_count (ln s) = Z.b2z (holds_decoder (ctl s));
  sync_o : o_count (ln s) = Z.b2z (paused_out s) + Z.b2z (holds_output (ctl s));
  sync_out : output_seen (ctl s) = true -> output_halted s = true;
  sync_dec : decoder_seen (ctl s) = true -> dec_quiet (d_pc (dec s)) = true;
  sync_drains : out_drains (o_pc (out s)) = false;
  sync_gone : out_gone (o_pc (out s)) = true -> video_frames_q (ln s) = [] /\ frames_closed (ln s) = true;
  sync_closed : frames_closed (ln s) = true -> d_pc (dec s) = DExited;
  sync_out_head : forall p, out_peeked (o_pc (out s)) = Some p -> head (video_frames_q (ln s)) = Some p;
  sync_dec_head : forall a, dec_peeked (d_pc (dec s)) = Some a -> head (video_packets_q (ln s)) = Some a;
  sync_ctl_head : forall p, ctl s = CDropGet p -> head (video_frames_q (ln s)) = Some p;
  sync_present : ctl s = CPresentPeek -> video_frames_q (ln s) <> []
}.

Lemma decoder_seen_holds c : decoder_seen c = true -> holds_decoder c = true.
Proof. by destruct c. Qed.

Lemma output_seen_holds c : output_seen c = true -> holds_output c = true.
Proof. by destruct c. Qed.

Lemma halted_quiet s : decoder_halted s = true -> dec_quiet (d_pc (dec s)) = true.
Proof. unfold decoder_halted. by destruct (d_pc (dec s)). Qed.

Lemma quiet_peeked pc : dec_quiet pc = true -> dec_peeked pc = None.
Proof. by destruct pc. Qed.

Lemma halted_peeked s : output_halted s = true -> out_peeked (o_pc (out s)) = None.
Proof. unfold output_halted. by destruct (o_pc (out s)). Qed.

Lemma snoc_nonempty {A} (l : list A) (x : A) : l ++ [x] <> [].
Proof. by destruct l. Qed.

(** What the environment may answer: fresh memory, memory where its lack is
    an abort, clock readings and time stamps within 142 years. *)
Definition sane (t : Z) : Prop := - 2 ^ 52 <= t <= 2 ^ 52.

Ltac inv_next :=
  repeat match goal with
  | H : Next _ = Next _ |- _ => injection H as <-
  | H : Blocked = Next _ |- _ => discriminate H
  | H : Crash = Next _ |- _ => discriminate H
  | H : Next _ = Crash |- _ => discriminate H
  | H : Blocked = Crash |- _ => discriminate H
  | H : Some _ = Some _ |- _ => injection H as H; subst
  | H : None = Some _ |- _ => discriminate H
  | H : (_, _) = (_, _) |- _ => injection H as ? ?; subst
  end.

(** Split the code of a step into its paths. *)
Ltac paths H :=
  repeat (cbn in H; first [
    match type of H with
    | context [match ?x with _ => _ end] =>
        lazymatch x with context [match _ with _ => _ end] => fail | _ => destruct x eqn:? end
    end | progress inv_next ]);
  repeat match goal with
  | E : (_ =? _) = true |- _ => apply Z.eqb_eq in E; subst
  end;
  repeat match goal with
  | E : d_pc (dec _) = _ |- _ => progress rewrite ?E
  | E : o_pc (out _) = _ |- _ => progress rewrite ?E
  | E : ctl _ = _ |- _ => progress rewrite ?E
  | E : par _ = _ |- _ => progress rewrite ?E
  end.

Ltac open_code H :=
  unfold stream_parse_loop, audio_step, avbox_player_video_decode, feed_decoder,
    deliver_frame, finish_packet, avbox_player_doupdate, avbox_player_video, video_peek, video_time,
    video_send, video_exit, control_step, control_idle, drop_step, drop_frames, flush_step, send_flush, receive_frame, pull_frame,
    end_of_pull, frame_late, get_peeked, unref_packet_frame, avbox_player_createwindow,
    avbox_player_destroywindow, picture_of, av_frame_unref, acquire_av_frame, acquire_packet,
    acquire_av_packet, need, mbind, option_bind in H.

Section proofs.
Context (rescale : Z -> Z) (frames_size packets_size : Z) (dvd : bool).

(** The allocator hands out blocks that are not in use. *)
Definition fresh_blocks (a : answers) (s : video) : Prop :=
  forall x, a_alloc a = Some x -> frames (mem s) !! x = None /\ x ∉ packet_blocks (mem s) /\ x ∉ av_packets (mem s).

(** What the code is not prepared for: the parser aborts when there is no
    memory for a packet; the output thread goes on without its first
    delegate or without a window; and the clock or the time of a picture is
    so far off (beyond 2^52 microseconds, 142 years) that their difference
    may overflow. *)
Inductive fault (t : thread) (a : answers) (s : video) : Prop :=
  | NoMemory : t = TParser -> par s = PAcquire -> av_packet_pool (mem s) = [] -> a_alloc a = None -> fault t a s
  | NoDelegate : t = TOutput -> o_pc (out s) = OStart -> a_delegate a = false -> fault t a s
  | NoWindow : t = TOutput -> a_delegate a = true -> a_window a = false -> fault t a s
  | WildClock : t = TOutput -> ~ sane (a_clock a) -> fault t a s
  | WildTime pts : t = TDecoder -> a_sink a = SinkFrame pts -> pts <> AV_NOPTS_VALUE -> ~ sane (rescale pts) -> fault t a s.

Definition admissible (t : thread) (a : answers) (s : video) : Prop := fresh_blocks a s /\ ~ fault t a s.

#[export] Instance sane_dec t : Decision (sane t).
Proof. unfold sane. apply _. Defined.

Lemma admissible_iff t a s :
  admissible t a s <->
  fresh_blocks a s /\
  (t = TParser -> par s = PAcquire -> av_packet_pool (mem s) = [] -> a_alloc a <> None) /\
  (t = TOutput -> o_pc (out s) = OStart -> a_delegate a = true) /\
  (t = TOutput -> a_delegate a = true -> a_window a = true) /\
  (t = TOutput -> sane (a_clock a)) /\
  (t = TDecoder -> forall pts, a_sink a = SinkFrame pts -> pts = AV_NOPTS_VALUE \/ sane (rescale pts)).
Proof.
  split.
  - intros [Hf Hn]. split_and!; [done|..].
    + intros -> Hp Hl Ha. by apply Hn, NoMemory.
    + intros -> Ho. destruct (a_delegate a) eqn:E; [done|]. by destruct Hn; apply NoDelegate.
    + intros -> Ho. destruct (a_window a) eqn:E; [done|]. by destruct Hn; apply NoWindow.
    + intros ->. destruct (decide (sane (a_clock a))); [done|]. by destruct Hn; apply WildClock.
    + intros -> pts Hs. destruct (decide (pts = AV_NOPTS_VALUE)); [by left|]. destruct (decide (sane (rescale pts))); [by right|].
      by destruct Hn; apply (WildTime _ _ _ pts).
  - intros (Hf & H1 & H2 & H3 & H4 & H5). split; [done|]. intros [Ht Hp Hl Ha|Ht Ho Ha|Ht Hd Hw|Ht Hc|pts Ht Hs Hp Hr]; [by apply H1| | |by apply Hc, H4|].
    + by rewrite (H2 Ht Ho) in Ha.
    + by rewrite (H3 Ht Hd) in Hw.
    + by destruct (H5 Ht pts Hs).
Qed.

Definition step (s s' : video) : Prop :=
  exists t a, admissible t a s /\ exec rescale frames_size packets_size dvd t a s = Next s'.

Lemma sync_parser a s s' : sync s -> stream_parse_loop packets_size a s = Next s' -> sync s'.
Proof.
  intros [] H. open_code H.
  paths H. all: split; cbn; try done; eauto using head_snoc.
Qed.

Lemma sync_audio s s' : sync s -> audio_step s = Next s' -> sync s'.
Proof. intros [] H. open_code H. paths H. by split. Qed.

Lemma sync_main s s' : sync s -> avbox_player_doupdate s = Next s' -> sync s'.
Proof.
  intros [] H. open_code H.
  paths H. all: by split.
Qed.

Lemma sync_decoder a s s' : sync s -> avbox_player_video_decode rescale frames_size a s = Next s' -> sync s'.
Proof.
  intros [Hd Ho Hout Hdec Hdr Hgone Hcl Hoh Hdh Hch Hpr] H.
  open_code H.
  paths H.
  all: split; cbn in *; rewrite ?Heqd; try done; try congruence;
    try (intros; simplify_eq; by eauto using head_snoc);
    try (intros Hc; discriminate (Hcl Hc)).
  - intros Hc. apply decoder_seen_holds in Hc. rewrite Hc in Hd. cbn in Hd. blia.
  - intros ? [= ->]. by rewrite Heql.
  - intros Hg. destruct (Hgone Hg) as [_ Hc]. discriminate (Hcl Hc).
  - intros _. apply snoc_nonempty.
  - intros Hg. destruct (Hgone Hg) as [_ Hc]. discriminate (Hcl Hc).
  - intros _. apply snoc_nonempty.
  - intros Hg. by destruct (Hgone Hg).
Qed.

Lemma output_seen_count s : sync s -> output_seen (ctl s) = true -> (0 <? o_count (ln s)) = true.
Proof.
  intros [_ Ho _ _ _ _ _ _ _ _ _] Hs. apply Z.ltb_lt. rewrite Ho, (output_seen_holds _ Hs).
  destruct (paused_out s); cbn; lia.
Qed.

Lemma sync_output a s s' : sync s -> avbox_player_video rescale a s = Next s' -> sync s'.
Proof.
  intros Hsync H. pose proof (output_seen_count s Hsync) as Hcnt.
  destruct Hsync as [Hd Ho Hout Hdec Hdr Hgone Hcl Hoh Hdh Hch Hpr]. unfold output_halted in Hout.
  open_code H.
  paths H.
  all: split; cbn in *; rewrite ?Heqo; unfold output_halted; cbn in *; rewrite ?Heqo, ?Heql; try done; try congruence;
    try (intros; simplify_eq; by eauto);
    try (intros Hs; rewrite ?Hcnt in * by done; by eauto);
    try (intros; match goal with E : ctl _ = _ |- _ => rewrite E in Hout; discriminate (Hout eq_refl) end);
    try (by destruct (Hgone eq_refl)).
Qed.

Lemma sync_control a s s' : sync s -> control_step dvd a s = Next s' -> sync s'.
Proof.
  intros [Hd Ho Hout Hdec Hdr Hgone Hcl Hoh Hdh Hch Hpr] H.
  open_code H.
  paths H.
  all: split; cbn in *; rewrite ?Heqc, ?Heql, ?Heql0; cbn; rewrite ?Heqb; cbn; try done; try congruence; try lia;
    try (intros; simplify_eq; by eauto).
  - intros _. by apply halted_quiet.
  - intros x Hx. by rewrite quiet_peeked in Hx by eauto.
  - intros Hg. by destruct (Hgone Hg).
  - intros x Hx. by rewrite halted_peeked in Hx by eauto.
Qed.

Lemma sync_step s s' : sync s -> step s s' -> sync s'.
Proof.
  intros Hs (t & a & _ & H). destruct t; cbn in H;
    eauto using sync_parser, sync_audio, sync_decoder, sync_output, sync_main, sync_control.
Qed.

(** ** Encoded packets and video packets *)

Definition par_av (pc : par_pc) : list Z :=
  match pc with PRead a | PPut a | PFree a _ => [a] | _ => [] end.
Definition dec_av (pc : dec_pc) : list Z := match pc with DFree a => [a] | _ => [] end.
Definition ctl_av (c : ctl_pc) : list Z := match c with CDropFree a => [a] | _ => [] end.

Definition av_holders (s : video) : list Z :=
  av_packet_pool (mem s) ++ video_packets_q (ln s) ++ par_av (par s) ++ dec_av (d_pc (dec s)) ++
  ctl_av (ctl s) ++ audio_lane (hist s) ++ lost_packets (hist s).

Definition av_exact (s : video) : Prop := exact (av_holders s) (fun x => x ∈ av_packets (mem s)).

Lemma av_step s s' : av_exact s -> step s s' -> av_exact s'.
Proof.
  intros Ha (t & a & (Hf & _) & H). unfold fresh_blocks in Hf. unfold av_exact, av_holders in *.
  destruct t; cbn in H; open_code H; paths H.
  all: try (keep_holders Ha).
  new_holder Ha z.
Qed.

Definition dec_packets (pc : dec_pc) : list Z :=
  match pc with
  | DClockPut _ _ p | DFramePut _ _ p | DFail _ (Some p) | DFailPacket p => [p] | _ => []
  end.
Definition out_packets (pc : out_pc) : list Z :=
  match pc with OFree p | ODrainFrame p | ODrainPacket p => [p] | _ => [] end.
Definition ctl_packets (c : ctl_pc) : list Z :=
  match c with CDropFrame p | CDropPacket p => [p] | _ => [] end.

Definition packet_holders (s : video) : list Z :=
  packet_pool (mem s) ++ video_frames_q (ln s) ++ dec_packets (d_pc (dec s)) ++ out_packets (o_pc (out s)) ++
  ctl_packets (ctl s).

Definition packets_exact (s : video) : Prop :=
  exact (packet_holders s) (fun x => x ∈ packet_blocks (mem s)).

Lemma packets_step s s' : packets_exact s -> step s s' -> packets_exact s'.
Proof.
  intros Ha (t & a & (Hf & _) & H). unfold fresh_blocks in Hf. unfold packets_exact, packet_holders in *.
  destruct t; cbn in H; open_code H; paths H.
  all: try (keep_holders Ha).
  - new_holder Ha z.
  - new_holder Ha z.
Qed.

(** *** What the packets carry *)

Definition is_clock (m : gmap Z content) (p : Z) : Prop := exists v, m !! p = Some (SET_CLOCK v).
Definition is_video (m : gmap Z content) (p f : Z) : Prop := m !! p = Some (VIDEO f).

Definition out_content (m : gmap Z content) (pc : out_pc) : Prop :=
  match pc with
  | OClock p _ | OClockGet p => is_clock m p
  | OWindow p f | OTime p f | OSleep p f _ | OLate p f _ _ | OWait p f _ | OSend p f _ => is_video m p f
  | _ => True
  end.

Definition dec_content (m : gmap Z content) (pc : dec_pc) : Prop :=
  match pc with DClockPut _ _ p => is_clock m p | DFramePut _ f p => is_video m p f | _ => True end.

Record content_ok (s : video) : Prop := ContentOk {
  content_q : forall p, p ∈ video_frames_q (ln s) -> is_Some (packets (mem s) !! p);
  content_out : out_content (packets (mem s)) (o_pc (out s));
  content_dec : dec_content (packets (mem s)) (d_pc (dec s));
  content_ctl : forall p, p ∈ ctl_packets (ctl s) -> is_Some (packets (mem s) !! p)
}.

Lemma out_content_write m pc z c :
  out_content m pc -> (forall p, out_peeked pc = Some p -> p <> z) -> out_content (<[z := c]> m) pc.
Proof.
  intros Hm Hz. destruct pc; cbn in *; try done; unfold is_clock, is_video in *;
    rewrite lookup_insert_ne by (apply not_eq_sym; eauto); done.
Qed.

Lemma some_write (m : gmap Z content) z c p : is_Some (m !! p) -> is_Some (<[z := c]> m !! p).
Proof. intros. rewrite lookup_insert_is_Some'. by right. Qed.

(** A packet taken from the pool is in nobody's hands. *)
Lemma pooled_packet s k z y :
  packets_exact s -> pool_take (packet_pool (mem s)) = Some (z, k) ->
  y ∈ video_frames_q (ln s) \/ y ∈ ctl_packets (ctl s) -> y <> z.
Proof.
  intros Ha Hk%pool_take_Some Hy. unfold packets_exact, packet_holders in Ha. rewrite Hk, <- app_assoc in Ha.
  apply (exact_pool _ _ _ _ _ Ha). set_solver.
Qed.

Lemma new_packet s z y :
  packets_exact s -> z ∉ packet_blocks (mem s) ->
  y ∈ video_frames_q (ln s) \/ y ∈ ctl_packets (ctl s) -> y <> z.
Proof. intros Ha Hz Hy. apply (exact_fresh _ _ _ _ _ Ha Hz). set_solver. Qed.

Lemma out_content_free m pc z :
  out_content m pc -> (forall p, out_peeked pc = Some p -> p <> z) -> out_content (delete z m) pc.
Proof.
  intros Hm Hz. destruct pc; cbn in *; try done; unfold is_clock, is_video in *;
    rewrite lookup_delete_ne by (apply not_eq_sym; eauto); done.
Qed.

Lemma some_free (m : gmap Z content) z p : p <> z -> is_Some (m !! p) -> is_Some (delete z m !! p).
Proof. intros. by rewrite lookup_delete_ne. Qed.

Lemma dec_content_free m pc z :
  dec_content m pc -> (forall p, p ∈ dec_packets pc -> p <> z) -> dec_content (delete z m) pc.
Proof.
  intros Hm Hz. destruct pc; cbn in *; try done; unfold is_clock, is_video in *;
    rewrite lookup_delete_ne by (apply not_eq_sym, Hz; left); done.
Qed.

(** A packet the decoder or the output thread has in its hands is neither
    queued nor with the control thread. *)
Lemma hand_apart s p y :
  packets_exact s -> p ∈ dec_packets (d_pc (dec s)) ++ out_packets (o_pc (out s)) ->
  y ∈ video_frames_q (ln s) \/ y ∈ ctl_packets (ctl s) -> y <> p.
Proof.
  intros Ha Hp%occ_elem Hy ->. rewrite occ_app in Hp. assert (p ∈ packet_holders s) as Hin.
  { unfold packet_holders. rewrite !elem_of_app. tauto. }
  apply (exact_elem _ _ _ Ha) in Hin. unfold packet_holders in Hin. rewrite !occ_app in Hin.
  rewrite !occ_elem in Hy. lia.
Qed.

Lemma dropped_apart s p y :
  packets_exact s -> p ∈ ctl_packets (ctl s) -> y ∈ video_frames_q (ln s) -> y <> p.
Proof.
  intros Ha Hp%occ_elem Hy%occ_elem ->. assert (p ∈ packet_holders s) as Hin.
  { unfold packet_holders. rewrite !elem_of_app, !occ_elem. tauto. }
  apply (exact_elem _ _ _ Ha) in Hin. unfold packet_holders in Hin. rewrite !occ_app in Hin. lia.
Qed.

(** A packet in the pool is in nobody's hands. *)
Lemma pool_apart s p y :
  packets_exact s -> p ∈ packet_pool (mem s) ->
  y ∈ video_frames_q (ln s) \/ y ∈ dec_packets (d_pc (dec s)) \/ y ∈ ctl_packets (ctl s) -> y <> p.
Proof.
  intros Ha Hp%occ_elem Hy ->. assert (p ∈ packet_holders s) as Hin.
  { unfold packet_holders. rewrite !elem_of_app. tauto. }
  apply (exact_elem _ _ _ Ha) in Hin. unfold packet_holders in Hin. rewrite !occ_app in Hin.
  rewrite !occ_elem in Hy. lia.
Qed.

Lemma out_peeked_elem s p : sync s -> out_peeked (o_pc (out s)) = Some p -> p ∈ video_frames_q (ln s).
Proof.
  intros Hs Hp. apply (sync_out_head _ Hs) in Hp. destruct (video_frames_q (ln s)); [done|].
  injection Hp as ->. left.
Qed.

Lemma content_step s s' : sync s -> packets_exact s -> content_ok s -> step s s' -> content_ok s'.
Proof.
  intros Hsync Hp [Hq Ho Hd Hc] Hst.
  pose proof (sync_step _ _ Hsync Hst) as Hsync'. pose proof (packets_step _ _ Hp Hst) as Hp'.
  destruct Hst as (t & a & (Hf & _) & H). unfold fresh_blocks in Hf.
  pose proof (fun p y => pool_apart s' p y Hp') as Hap. pose proof (fun p => out_peeked_elem s' p Hsync') as Hel.
  destruct t; cbn in H; open_code H; paths H.
  all: split; cbn in *; rewrite ?Heqo, ?Heqd, ?Heqc, ?Heql; try done;
    try (by eauto using some_write, out_content_write, out_peeked_elem, pooled_packet).
  all: try (by unfold is_video; rewrite lookup_insert_eq).
  all: try (by eexists; rewrite lookup_insert_eq).
  all: try (by intros ? ?; apply Hq; right).
  all: try (by intros ? ?%not_elem_of_nil).
  all: try (intros ? [? | ->%list_elem_of_singleton]%elem_of_app; [by eauto|]; by inversion Hd).
  all: try (intros y Hy; apply some_free; [apply Hap; [left|tauto]|by eauto]; fail).
  all: try (apply out_content_free; [done|]; intros y Hy; apply Hap; [left|left; by apply Hel]; fail).
  all: try (apply dec_content_free; [done|]; intros y Hy; apply Hap; [left|tauto]; fail).
  - eapply out_content_write; [done|]. intros p Hpe. apply (new_packet s); [done|by apply (Hf z)|].
    left. by apply out_peeked_elem.
  - eapply out_content_write; [done|]. intros p Hpe. apply (new_packet s); [done|by apply (Hf z)|].
    left. by apply out_peeked_elem.
  - by eexists.
  - intros x ->%list_elem_of_singleton. apply Hq. left.
Qed.

(** *** The delegate of the output thread *)

Record deleg_ok (s : video) : Prop := DelegOk {
  deleg_idle : delegate_waitable (out s) = false -> delegate (ln s) = DelIdle;
  deleg_send : forall p f t, o_pc (out s) = OSend p f t -> delegate_waitable (out s) = false;
  deleg_args : delegate (ln s) = DelQueued -> args_frame (out s) <> None
}.

Lemma deleg_step s s' : deleg_ok s -> step s s' -> deleg_ok s'.
Proof.
  intros [Hi Hs Ha] (t & a & _ & H).
  destruct t; cbn in H; open_code H; paths H.
  all: split; cbn in *; rewrite ?Heqo, ?Heqd; try done; try congruence; try (by eauto);
    try (intros Hw; by apply Hi in Hw).
Qed.

(** ** Frames *)

Definition vid (m : gmap Z content) (p : Z) : list Z :=
  match m !! p with Some (VIDEO f) => [f] | _ => [] end.

Definition vids (m : gmap Z content) (q : list Z) : list Z := concat (map (vid m) q).

Lemma vids_app m q r : vids m (q ++ r) = vids m q ++ vids m r.
Proof. unfold vids. by rewrite map_app, concat_app. Qed.

Lemma vids_cons m p q : vids m (p :: q) = vid m p ++ vids m q.
Proof. done. Qed.

Lemma vid_video m p f : is_video m p f -> vid m p = [f].
Proof. unfold vid, is_video. by intros ->. Qed.

Lemma vid_clock m p : is_clock m p -> vid m p = [].
Proof. unfold vid, is_clock. by intros [v ->]. Qed.

Lemma vid_write m z c p : p <> z -> vid (<[z := c]> m) p = vid m p.
Proof. intros. unfold vid. by rewrite lookup_insert_ne. Qed.

Lemma vids_write m z c q : z ∉ q -> vids (<[z := c]> m) q = vids m q.
Proof.
  induction q as [|p q IH]; [done|]. intros [Hp Hq]%not_elem_of_cons. rewrite !vids_cons, IH by done.
  by rewrite vid_write.
Qed.

(** The packets whose frame the output thread has not passed on. *)
Definition pending (pc : out_pc) (q : list Z) : list Z := match pc with OGet _ => tail q | _ => q end.

Definition dec_frame (pc : dec_pc) : list Z :=
  match pc with
  | DPull _ f | DClockAcquire _ f | DClockPut _ f _ | DFrameAcquire _ f | DFramePut _ f _ | DFail f _ => [f]
  | _ => []
  end.

(** The packet the control thread drops. *)
Definition ctl_frame (m : gmap Z content) (c : ctl_pc) : list Z :=
  match c with CDropFrame p => vid m p | _ => [] end.

Definition opt (o : option Z) : list Z := match o with Some x => [x] | None => [] end.

(** The frame on its way to the main thread. *)
Definition flight (s : video) : list Z :=
  match delegate (ln s) with DelQueued => opt (args_frame (out s)) | _ => [] end.

(** Frames that wait for the output thread, the oldest first. *)
Definition wait_of (m : gmap Z content) (c : ctl_pc) (pc : out_pc) (q : list Z) : list Z :=
  ctl_frame m c ++ vids m (pending pc q).

Definition waiting (s : video) : list Z :=
  wait_of (packets (mem s)) (ctl s) (o_pc (out s)) (video_frames_q (ln s)).

Lemma wait_write m c pc q z v :
  (forall y, y ∈ q \/ y ∈ ctl_packets c -> y <> z) -> wait_of (<[z := v]> m) c pc q = wait_of m c pc q.
Proof.
  intros Hz. unfold wait_of. f_equal.
  - destruct c; try done. apply vid_write, Hz. right. left.
  - apply vids_write. intros Hy. apply (Hz z); [left|done].
    destruct pc; try done. destruct q; [done|by right].
Qed.

Lemma wait_put m c pc q p :
  (forall y, out_peeked pc = Some y -> head q = Some y) -> wait_of m c pc (q ++ [p]) = wait_of m c pc q ++ vid m p.
Proof.
  intros Hh. unfold wait_of. rewrite <- app_assoc. f_equal.
  assert (pending pc (q ++ [p]) = pending pc q ++ [p]) as ->.
  { destruct pc; try done. destruct q; [|done]. by specialize (Hh _ eq_refl). }
  rewrite vids_app. by rewrite vids_cons, app_nil_r.
Qed.

Lemma vids_free m z q : z ∉ q -> vids (delete z m) q = vids m q.
Proof.
  induction q as [|p q IH]; [done|]. intros [Hp Hq]%not_elem_of_cons. rewrite !vids_cons, IH by done.
  unfold vid. by rewrite lookup_delete_ne.
Qed.

Lemma wait_free m c pc q z :
  (forall y, y ∈ q \/ y ∈ ctl_packets c -> y <> z) -> wait_of (delete z m) c pc q = wait_of m c pc q.
Proof.
  intros Hz. unfold wait_of. f_equal.
  - destruct c; try done. cbn. unfold vid. rewrite lookup_delete_ne; [done|]. apply not_eq_sym, Hz. right. left.
  - apply vids_free. intros Hy. apply (Hz z); [left|done].
    destruct pc; try done. destruct q; [done|by right].
Qed.

Lemma dropped_pending s p :
  packets_exact s -> p ∈ ctl_packets (ctl s) -> p ∉ pending (o_pc (out s)) (video_frames_q (ln s)).
Proof.
  intros Ha Hp Hz. apply (dropped_apart s p p Ha Hp); [|done].
  destruct (o_pc (out s)); try done. destruct (video_frames_q (ln s)); [done|by right].
Qed.

(** The frame of the packet that was peeked is passed on. *)
Lemma wait_take m c pc p p' f q :
  is_video m p f -> pending pc (p :: q) = p :: q -> ctl_frame m c = [] ->
  wait_of m c pc (p :: q) = f :: wait_of m c (OGet p') (p :: q).
Proof.
  intros Hv Hp Hc. unfold wait_of. rewrite Hc, Hp, vids_cons, (vid_video _ _ _ Hv). done.
Qed.

Definition frame_holders (s : video) : list Z :=
  frame_pool (mem s) ++ waiting s ++ dec_frame (d_pc (dec s)) ++ flight s ++
  opt (last_video_frame (ln s)) ++ lost_frames (hist s).

Definition frames_exact (s : video) : Prop := exact (frame_holders s) (fun x => is_Some (frames (mem s) !! x)).

Lemma exact_iff l l' (A A' : Z -> Prop) :
  (forall x, A' x <-> A x) -> (forall x, occ x l' = occ x l) -> exact l A -> exact l' A'.
Proof. intros HA He H x. rewrite He, HA. apply H. Qed.

(** While the output thread works on a packet the control thread keeps off. *)
Lemma output_works s p m :
  sync s -> out_peeked (o_pc (out s)) = Some p ->
  ctl_frame m (ctl s) = [] /\ exists q, video_frames_q (ln s) = p :: q.
Proof.
  intros Hs Hp. split.
  - destruct (ctl s) eqn:E; try done. assert (output_halted s = true) as Hh by (apply (sync_out _ Hs); by rewrite E).
    by rewrite (halted_peeked _ Hh) in Hp.
  - apply (sync_out_head _ Hs) in Hp. destruct (video_frames_q (ln s)) as [|y q]; [done|].
    injection Hp as ->. by eexists.
Qed.

Lemma wait_pass s p f p' :
  sync s -> out_peeked (o_pc (out s)) = Some p -> is_video (packets (mem s)) p f ->
  pending (o_pc (out s)) (video_frames_q (ln s)) = video_frames_q (ln s) ->
  waiting s = f :: wait_of (packets (mem s)) (ctl s) (OGet p') (video_frames_q (ln s)).
Proof.
  intros Hs Hp Hv Hpe. destruct (output_works s p (packets (mem s)) Hs Hp) as (Hc & q & Hq).
  unfold waiting. rewrite Hq in *. by apply wait_take.
Qed.

Lemma halted_pending s q : output_halted s = true -> pending (o_pc (out s)) q = q.
Proof. unfold output_halted. by destruct (o_pc (out s)). Qed.

Lemma frame_held s f : frames_exact s -> f ∈ frame_holders s -> is_Some (frames (mem s) !! f).
Proof.
  intros Ha Hf. destruct (frames (mem s) !! f) eqn:E; [by eexists|].
  apply occ_elem in Hf. rewrite (proj2 (Ha f)) in Hf; [lia|]. rewrite E. by intros [? ?].
Qed.

(** What the proofs about frames start from. *)
Record held (s : video) : Prop := Held {
  held_sync : sync s; held_packets : packets_exact s; held_content : content_ok s;
  held_deleg : deleg_ok s; held_frames : frames_exact s
}.

Ltac frames_cases Hh H :=
  destruct Hh as [Hsync Hp [Hq Ho Hd Hc] [Hi Hse Har] Ha];
  pose proof (fun f => frame_held _ f Ha) as Hheld; pose proof (fun p f p' => wait_pass _ p f p' Hsync) as Hpass;
  unfold frames_exact, frame_holders, waiting, flight in *;
  open_code H; paths H;
  try (unfold wait_of in *; revert Ha; apply exact_iff; [done|]; count_holders);
  cbn in *.

(** A frame that is already allocated is written. *)
Ltac written Ha := revert Ha; apply exact_iff; [intros ?x; apply some_known; by eexists|count_holders].

Lemma frames_decoder a s s' :
  held s -> admissible TDecoder a s -> avbox_player_video_decode rescale frames_size a s = Next s' -> frames_exact s'.
Proof.
  intros Hh [Hf _] H. unfold fresh_blocks in Hf. frames_cases Hh H.
  - revert Ha. apply (exact_new _ _ _ _ z); [by rewrite (proj1 (Hf z eq_refl)); intros [? ?]| |count_holders].
    intros x. rewrite lookup_insert_is_Some'. naive_solver.
  - destruct (Hheld f) as [v Hv]; [set_solver|]. written Ha.
  - destruct (Hheld f) as [v Hv]; [set_solver|]. written Ha.
  - rewrite wait_write by eauto using pooled_packet. keep_holders Ha.
  - rewrite wait_write by (intros y; apply new_packet; [done|by apply (Hf z)]). keep_holders Ha.
  - rewrite wait_put by apply (sync_out_head _ Hsync). rewrite (vid_clock _ _ Hd). keep_holders Ha.
  - rewrite wait_write by eauto using pooled_packet. keep_holders Ha.
  - rewrite wait_write by (intros y; apply new_packet; [done|by apply (Hf z)]). keep_holders Ha.
  - rewrite wait_put by apply (sync_out_head _ Hsync). rewrite (vid_video _ _ _ Hd). keep_holders Ha.
  - rewrite wait_free by (intros y; apply (hand_apart s p y Hp); rewrite Heqd; left). keep_holders Ha.
Qed.

Lemma frames_output a s s' : held s -> avbox_player_video rescale a s = Next s' -> frames_exact s'.
Proof.
  intros Hh H. frames_cases Hh H.
  all: try (pose proof (sync_drains _ Hsync) as Hg; rewrite Heqo in Hg; discriminate Hg).
  - rewrite (Hpass p f p eq_refl Ho eq_refl) in Ha. written Ha.
  - rewrite (Hpass p f p eq_refl Ho eq_refl), (Hi (Hse _ _ _ eq_refl)) in Ha. keep_holders Ha.
  - rewrite (Hpass p f p eq_refl Ho eq_refl), (Hi (Hse _ _ _ eq_refl)) in Ha. rewrite (Hi (Hse _ _ _ eq_refl)).
    keep_holders Ha.
  - unfold wait_of in *. cbn [pending] in *. rewrite vids_cons, (vid_clock _ _ Ho) in Ha. keep_holders Ha.
  - rewrite wait_free by (intros y; apply (hand_apart s p y Hp); rewrite Heqo; set_solver).
    unfold wait_of in *. keep_holders Ha.
  - destruct (sync_gone _ Hsync) as [Hg _]; [by rewrite Heqo|]. by rewrite Hg in Heql.
  - unfold wait_of in *. cbn [pending] in *. written Ha.
Qed.

Lemma frames_main s s' : held s -> avbox_player_doupdate s = Next s' -> frames_exact s'.
Proof. intros Hh H. frames_cases Hh H. written Ha. Qed.

Lemma frames_control a s s' : held s -> control_step dvd a s = Next s' -> frames_exact s'.
Proof.
  intros Hh H. frames_cases Hh H.
  - pose proof (sync_out _ Hsync) as Hh. rewrite Heqc in Hh. specialize (Hh eq_refl).
    rewrite halted_pending in * by done. rewrite vids_cons in Ha. keep_holders Ha.
  - unfold vid in Ha. rewrite Heqo in Ha. keep_holders Ha.
  - unfold vid in Ha. rewrite Heqo in Ha. written Ha.
  - rewrite vids_free by (by apply (dropped_pending s p Hp); rewrite Heqc; left). keep_holders Ha.
  - written Ha.
Qed.

Lemma frames_step s s' : held s -> step s s' -> frames_exact s'.
Proof.
  intros Hh (t & a & Hadm & H). destruct t; cbn in H;
    eauto using frames_decoder, frames_output, frames_main, frames_control; frames_cases Hh H.
Qed.

Lemma held_step s s' : held s -> step s s' -> held s'.
Proof.
  intros Hh Hst. pose proof Hh as [H1 H2 H3 H4 H5].
  split; eauto using sync_step, packets_step, content_step, deleg_step, frames_step.
Qed.

(** ** Pictures *)

Definition pic (m : gmap Z avframe) (f : Z) : option nat := fr ← m !! f; picture fr.

Lemma pic_write m f v l : f ∉ l -> map (pic (<[f := v]> m)) l = map (pic m) l.
Proof.
  induction l as [|g l IH]; [done|]. intros [Hg Hl]%not_elem_of_cons. cbn. rewrite IH by done. f_equal.
  unfold pic. by rewrite lookup_insert_ne.
Qed.

Lemma pic_keep m f fr t g : m !! f = Some fr -> pic (<[f := AVFrame t (picture fr)]> m) g = pic m g.
Proof.
  intros Hf. unfold pic. destruct (decide (f = g)) as [->|Hne].
  - by rewrite lookup_insert_eq, Hf.
  - by rewrite lookup_insert_ne.
Qed.

Lemma pic_same m f fr t l :
  m !! f = Some fr -> map (pic (<[f := AVFrame t (picture fr)]> m)) l = map (pic m) l.
Proof. intros Hf. apply map_ext. intros g. by apply pic_keep. Qed.

(** The frame the decoder has filled. *)
Definition dec_filled (pc : dec_pc) : list Z :=
  match pc with
  | DClockAcquire _ f | DClockPut _ f _ | DFrameAcquire _ f | DFramePut _ f _ => [f] | _ => []
  end.

Fixpoint sent (l : list fate) : list nat :=
  match l with [] => [] | Sent n _ :: l => n :: sent l | _ :: l => sent l end.

Lemma sent_app l k : sent (l ++ k) = sent l ++ sent k.
Proof. induction l as [|[] l IH]; cbn; by rewrite ?IH. Qed.

Record fifo (s : video) : Prop := Fifo {
  fifo_order : map Some (seq 0 (delivered (hist s))) =
    map (fun x => Some (fate_picture x)) (fates (hist s)) ++ map (pic (frames (mem s))) (waiting s);
  fifo_dec : Forall (fun f => pic (frames (mem s)) f = Some (delivered (hist s))) (dec_filled (d_pc (dec s)));
  fifo_shown : lost_frames (hist s) = [] ->
    map Some (sent (fates (hist s))) = map Some (shown (hist s)) ++ map (pic (frames (mem s))) (flight s);
  fifo_flight : Forall (fun f => is_Some (pic (frames (mem s)) f)) (flight s)
}.

Lemma frames_once s x : frames_exact s -> (occ x (frame_holders s) <= 1)%nat.
Proof.
  intros Ha. destruct (decide (x ∈ frame_holders s)) as [Hx|Hx].
  - by rewrite (exact_elem _ _ _ Ha Hx).
  - rewrite occ_elem in Hx. lia.
Qed.

Lemma frames_fresh s z : frames_exact s -> frames (mem s) !! z = None -> occ z (frame_holders s) = 0%nat.
Proof. intros Ha Hz. apply (proj2 (Ha z)). rewrite Hz. by intros [? ?]. Qed.

(** [f ∉ l] from the count of the holders of [f]. *)
Ltac not_held H :=
  let Hin := fresh in
  intros Hin; apply occ_elem in Hin; cbn -[occ] in H; rewrite ?occ_app in Hin;
  repeat first [rewrite occ_app in H | rewrite occ_cons in H]; rewrite ?one_self in H; lia.

Lemma dec_filled_frame x pc : (occ x (dec_filled pc) <= occ x (dec_frame pc))%nat.
Proof. destruct pc; cbn; lia. Qed.

Lemma filled_write m f v n pc :
  occ f (dec_frame pc) = 0%nat -> Forall (fun g => pic m g = Some n) (dec_filled pc) ->
  Forall (fun g => pic (<[f := v]> m) g = Some n) (dec_filled pc).
Proof.
  intros Hf Hm. pose proof (dec_filled_frame f pc). apply Forall_forall. intros g Hg.
  rewrite Forall_forall in Hm. specialize (Hm g Hg). unfold pic in *. rewrite lookup_insert_ne; [done|].
  intros ->. apply occ_elem in Hg. lia.
Qed.

Lemma flight_write m f v l :
  f ∉ l -> Forall (fun g => is_Some (pic m g)) l -> Forall (fun g => is_Some (pic (<[f := v]> m) g)) l.
Proof.
  intros Hf Hm. apply Forall_forall. intros g Hg. rewrite Forall_forall in Hm. specialize (Hm g Hg).
  unfold pic in *. rewrite lookup_insert_ne; [done|]. by intros ->.
Qed.

(** [occ f l = 0] from the count of the holders of [f]. *)
Ltac zero_held H :=
  cbn -[occ] in H; repeat first [rewrite occ_app in H | rewrite occ_cons in H]; rewrite ?one_self in H; lia.

(** The picture of a frame the code has just read. *)
Ltac see_pic :=
  cbn; unfold pic at 1;
  repeat match goal with E : frames _ !! ?f = Some _ |- context [frames _ !! ?f] => rewrite E end;
  cbn; congruence.

Ltac use_pcs :=
  repeat match goal with
  | E : d_pc (dec _) = _ |- _ => progress rewrite ?E
  | E : o_pc (out _) = _ |- _ => progress rewrite ?E
  | E : ctl _ = _ |- _ => progress rewrite ?E
  | E : par _ = _ |- _ => progress rewrite ?E
  | E : video_frames_q (ln _) = _ |- _ => progress rewrite ?E
  | E : delegate (ln _) = _ |- _ => progress rewrite ?E
  | E : args_frame (out _) = _ |- _ => progress rewrite ?E
  end.

Ltac fifo_cases Hh Hf H :=
  destruct Hh as [Hsync Hp [Hq Ho Hd Hc] [Hi Hse Har] Ha]; destruct Hf as [Hor Hde Hsh Hfl];
  pose proof (fun x => frames_once _ x Ha) as Honce; pose proof (fun p f p' => wait_pass _ p f p' Hsync) as Hpass;
  unfold frame_holders, waiting, flight in *;
  open_code H; paths H;
  try (by split; cbn in *; unfold waiting, wait_of, flight in *; cbn in *; use_pcs; try done; by eauto).

Lemma fifo_decoder a s s' :
  held s -> admissible TDecoder a s -> fifo s -> avbox_player_video_decode rescale frames_size a s = Next s' -> fifo s'.
Proof.
  intros Hh [Hadm _] Hf H. unfold fresh_blocks in Hadm. fifo_cases Hh Hf H.
  all: split; cbn in *; unfold waiting, flight in *; cbn in *; use_pcs; try done.
  - pose proof (frames_fresh _ z Ha (proj1 (Hadm z eq_refl))) as H0. unfold frame_holders, waiting in H0.
    rewrite pic_write by not_held H0. done.
  - pose proof (frames_fresh _ z Ha (proj1 (Hadm z eq_refl))) as H0. unfold frame_holders, flight in H0.
    rewrite pic_write by not_held H0. done.
  - pose proof (frames_fresh _ z Ha (proj1 (Hadm z eq_refl))) as H0. unfold frame_holders, flight in H0.
    apply flight_write; [not_held H0|done].
  - specialize (Honce f). rewrite pic_write by not_held Honce. done.
  - constructor; [|done]. unfold pic. by rewrite lookup_insert_eq.
  - specialize (Honce f). rewrite pic_write by not_held Honce. done.
  - specialize (Honce f). apply flight_write; [not_held Honce|done].
  - specialize (Honce f). rewrite pic_write by not_held Honce. done.
  - constructor; [|done]. unfold pic. by rewrite lookup_insert_eq.
  - specialize (Honce f). rewrite pic_write by not_held Honce. done.
  - specialize (Honce f). apply flight_write; [not_held Honce|done].
  - by rewrite wait_write by eauto using pooled_packet.
  - by rewrite wait_write by (intros y; apply new_packet; [done|by apply (Hadm z)]).
  - rewrite wait_put by apply (sync_out_head _ Hsync). by rewrite (vid_clock _ _ Hd), app_nil_r.
  - by rewrite wait_write by eauto using pooled_packet.
  - by rewrite wait_write by (intros y; apply new_packet; [done|by apply (Hadm z)]).
  - change (Some 0%nat :: map Some (seq 1 (delivered (hist s)))) with (map Some (seq 0 (S (delivered (hist s))))).
    rewrite seq_S, map_app, Hor, wait_put by apply (sync_out_head _ Hsync).
    rewrite (vid_video _ _ _ Hd), map_app, app_assoc. f_equal. cbn. by rewrite (Forall_inv Hde).
  - by rewrite wait_free by (intros y; apply (hand_apart s p y Hp); rewrite Heqd; left).
Qed.

Lemma fifo_output a s s' : held s -> fifo s -> avbox_player_video rescale a s = Next s' -> fifo s'.
Proof.
  intros Hh Hf H. fifo_cases Hh Hf H.
  all: try (pose proof (sync_drains _ Hsync) as Hg; rewrite Heqo in Hg; discriminate Hg).
  all: split; cbn in *; unfold waiting, flight in *; cbn in *; use_pcs; try done.
  - rewrite (Hpass p f p eq_refl Ho eq_refl) in *. specialize (Honce f). rewrite pic_write by not_held Honce.
    rewrite Hor, map_app, <- app_assoc. see_pic.
  - rewrite (Hpass p f p eq_refl Ho eq_refl) in *. specialize (Honce f).
    apply filled_write; [zero_held Honce|done].
  - rewrite (Hpass p f p eq_refl Ho eq_refl) in *. specialize (Honce f). rewrite pic_write by not_held Honce.
    by rewrite sent_app, app_nil_r.
  - rewrite (Hpass p f p eq_refl Ho eq_refl) in *. specialize (Honce f). apply flight_write; [not_held Honce|done].
  - rewrite Hor, (Hpass p f p eq_refl Ho eq_refl), map_app, <- app_assoc. see_pic.
  - intros Hl. rewrite sent_app, map_app, (Hsh Hl), (Hi (Hse _ _ _ eq_refl)), app_nil_r. see_pic.
  - constructor; [|done]. exists n. see_pic.
  - rewrite Hor, (Hpass p f p eq_refl Ho eq_refl), map_app, <- app_assoc. see_pic.
  - by rewrite (Hi (Hse _ _ _ eq_refl)).
  - unfold wait_of in *. cbn [pending] in *. rewrite vids_cons, (vid_clock _ _ Ho) in Hor. done.
  - by rewrite wait_free by (intros y; apply (hand_apart s p y Hp); rewrite Heqo; set_solver).
  - destruct (sync_gone _ Hsync) as [Hg _]; [by rewrite Heqo|]. by rewrite Hg in Heql.
  - specialize (Honce z). unfold wait_of in *. cbn [pending] in *. rewrite pic_write by not_held Honce. done.
  - specialize (Honce z). apply filled_write; [zero_held Honce|done].
  - specialize (Honce z). rewrite pic_write by not_held Honce. done.
  - specialize (Honce z). apply flight_write; [not_held Honce|done].
Qed.

Lemma fifo_main s s' : held s -> fifo s -> avbox_player_doupdate s = Next s' -> fifo s'.
Proof.
  intros Hh Hf H. fifo_cases Hh Hf H.
  all: split; cbn in *; unfold waiting, flight in *; cbn in *; use_pcs; try done.
  - specialize (Honce z0). rewrite pic_write by not_held Honce. done.
  - specialize (Honce z0). apply filled_write; [zero_held Honce|done].
  - intros Hl. rewrite (Hsh Hl), map_app, app_nil_r. f_equal. see_pic.
  - intros Hl. rewrite (Hsh Hl), map_app, app_nil_r. f_equal. see_pic.
Qed.

Lemma fifo_control a s s' : held s -> fifo s -> control_step dvd a s = Next s' -> fifo s'.
Proof.
  intros Hh Hf H. fifo_cases Hh Hf H.
  all: split; cbn in *; unfold waiting, flight in *; cbn in *; use_pcs; try done.
  - pose proof (sync_out _ Hsync) as Hh. rewrite Heqc in Hh. rewrite halted_pending in * by auto.
    by rewrite vids_cons in Hor.
  - unfold vid in Hor. by rewrite Heqo in Hor.
  - unfold vid in Hor, Honce. rewrite Heqo in Hor, Honce. specialize (Honce video_frame).
    rewrite pic_write by not_held Honce. rewrite Hor, (map_app _ (fates (hist s))), <- app_assoc. see_pic.
  - unfold vid in Honce. rewrite Heqo in Honce. specialize (Honce video_frame).
    apply filled_write; [zero_held Honce|done].
  - unfold vid in Honce. rewrite Heqo in Honce. specialize (Honce video_frame).
    rewrite pic_write by not_held Honce. by rewrite sent_app, app_nil_r.
  - unfold vid in Honce. rewrite Heqo in Honce. specialize (Honce video_frame).
    apply flight_write; [not_held Honce|done].
  - rewrite vids_free by (by apply (dropped_pending s p Hp); rewrite Heqc; left). done.
  - by rewrite pic_same.
  - eapply Forall_impl; [exact Hde|]. intros g Hg. cbn in Hg. by rewrite pic_keep.
  - by rewrite pic_same.
  - eapply Forall_impl; [exact Hfl|]. intros g Hg. cbn in Hg. by rewrite pic_keep.
Qed.

Lemma fifo_step s s' : held s -> fifo s -> step s s' -> fifo s'.
Proof.
  intros Hh Hf (t & a & Hadm & H). destruct t; cbn in H;
    eauto using fifo_decoder, fifo_output, fifo_main, fifo_control; fifo_cases Hh Hf H.
Qed.

(** ** Timing *)

(** Presented at most 30 ms before its time, skipped when more than 400 ms
    late, by the last reading of the clock. *)
Definition fate_timely (x : fate) : Prop :=
  match x with
  | Sent _ (Some (frame_time, clock)) => frame_time - clock <= 30000
  | Skipped _ frame_time clock => 400000 < clock - frame_time
  | _ => True
  end.

(** Skipped frames since the last one that was not. *)
Definition skips (l : list fate) : nat :=
  foldl (fun n x => match x with Skipped _ _ _ => S n | Dropped _ => n | _ => 0%nat end) 0%nat l.

Lemma skips_snoc l x :
  skips (l ++ [x]) = match x with Skipped _ _ _ => S (skips l) | Dropped _ => skips l | _ => 0%nat end.
Proof. unfold skips. by rewrite foldl_snoc. Qed.

Definition out_timely (o : output) : Prop :=
  match o_pc o with
  | OSleep _ _ frame_time => sane frame_time
  | OLate _ _ frame_time clock => sane frame_time /\ sane clock /\ frame_time - clock <= 30000
  | OWait _ _ (Some (frame_time, clock)) | OSend _ _ (Some (frame_time, clock)) => frame_time - clock <= 30000
  | _ => True
  end.

Definition out_chosen (pc : out_pc) : bool := match pc with OWait _ _ _ | OSend _ _ _ => true | _ => false end.

Record timely (s : video) : Prop := Timely {
  timely_fates : Forall fate_timely (fates (hist s));
  timely_skips : forall xs ys, fates (hist s) = xs ++ ys -> (skips xs <= 3)%nat;
  timely_count : out_chosen (o_pc (out s)) = false -> Z.of_nat (skips (fates (hist s))) <= skip_frame (out s);
  timely_range : 0 <= skip_frame (out s) <= 3;
  timely_out : out_timely (out s);
  timely_latency : 0 <= last_latency (out s) <= 2 ^ 53;
  timely_pts : forall f fr, frames (mem s) !! f = Some fr -> pts fr = AV_NOPTS_VALUE \/ sane (rescale (pts fr))
}.

Lemma prefixes_snoc {A} (P : list A -> Prop) l x :
  (forall xs ys, l = xs ++ ys -> P xs) -> P (l ++ [x]) -> forall xs ys, l ++ [x] = xs ++ ys -> P xs.
Proof.
  intros Hl Hx xs ys He. destruct ys as [|y ys _] using rev_ind.
  - rewrite app_nil_r in He. by subst.
  - rewrite app_assoc in He. apply app_inj_tail in He as [-> _]. by eapply Hl.
Qed.

Lemma chk64_Some z : - 2 ^ 63 <= z < 2 ^ 63 -> chk64 z = Some z.
Proof. intros. unfold chk64, in_s. by rewrite bool_decide_true. Qed.

Lemma chk64_inv z y : chk64 z = Some y -> y = z.
Proof. unfold chk64. by destruct (in_s 64 z); intros [= ->]. Qed.

(** With sane times the arithmetic of the wait does not overflow, and a
    frame that is not waited for is at most 5 ms early. *)
Lemma frame_wait_spec lat ft c :
  sane ft -> sane c -> 0 <= lat ->
  exists b, frame_wait lat ft c = Some b /\ (b = false -> ft - c <= 5000).
Proof.
  unfold sane, frame_wait, AVBOX_MIN_FRAME_WAIT_US, AVBOX_LATENCY_CORRECT_MAX. intros Hf Hc Hl.
  destruct (c <? ft) eqn:E; [|exists false; split; [done|blia]].
  rewrite (chk64_Some (ft - c)) by lia. cbn. rewrite Z.min_r, Z.sub_0_r, (chk64_Some (ft - c)) by lia. cbn.
  destruct (5000 <? ft - c) eqn:E2; [|exists false; split; [done|blia]].
  rewrite chk64_Some by lia. by exists true.
Qed.

Lemma written_pts (m : gmap Z avframe) f v :
  (pts v = AV_NOPTS_VALUE \/ sane (rescale (pts v))) ->
  (forall g fr, m !! g = Some fr -> pts fr = AV_NOPTS_VALUE \/ sane (rescale (pts fr))) ->
  forall g fr, <[f := v]> m !! g = Some fr -> pts fr = AV_NOPTS_VALUE \/ sane (rescale (pts fr)).
Proof.
  intros Hv Hm g fr [[-> <-]|[_ Hg]]%lookup_insert_Some; [done|by eapply Hm].
Qed.

Lemma timely_others t a s s' :
  t <> TOutput -> admissible t a s -> timely s -> exec rescale frames_size packets_size dvd t a s = Next s' -> timely s'.
Proof.
  intros Ht (_ & _ & _ & _ & _ & Hs)%admissible_iff [Hf Hsk Hc Hr Ho Hl Hp] H.
  destruct t; try done; cbn in H; open_code H; paths H.
  all: split; cbn -[skips] in *; rewrite ?Heqo, ?Heqd; try done.
  all: try (by apply written_pts; eauto).
  all: try (by apply written_pts; [left|]).
  - apply written_pts; [cbn; by eapply Hp|done].
  - apply Forall_app_2; [done|]. by constructor.
  - apply prefixes_snoc; [done|]. rewrite skips_snoc. by eapply (Hsk _ []), eq_sym, app_nil_r.
  - by rewrite skips_snoc.
  - apply written_pts; [cbn; by eapply Hp|done].
Qed.

Ltac use_chk :=
  repeat match goal with E : chk64 _ = Some _ |- _ => apply chk64_inv in E; subst end; zify_bool.

Lemma timely_output a s s' :
  admissible TOutput a s -> timely s -> avbox_player_video rescale a s = Next s' -> timely s'.
Proof.
  intros (_ & _ & _ & _ & Hcl & _)%admissible_iff [Hf Hsk Hc Hr Ho Hl Hp] H. specialize (Hcl eq_refl). unfold out_timely in *.
  assert (Hall := Hsk (fates (hist s)) [] (eq_sym (app_nil_r _))).
  open_code H. unfold AVBOX_SKIP_FRAME_THRESHOLD, AVBOX_SKIP_FRAME_MAX in H. paths H.
  all: split; unfold out_timely; cbn -[skips] in *; rewrite ?Heqo, ?Heqd; try done; try lia.
  - destruct (Hp _ _ Heqo0); [blia|done].
  - destruct (Hp _ _ Heqo0) as [|Hsa]; [blia|]. split_and!; [done|done|].
    destruct (frame_wait_spec (last_latency (out s)) _ _ Hsa Hcl) as (b' & E & Hb); [lia|].
    rewrite E in Heqo1. injection Heqo1 as ->. specialize (Hb eq_refl). lia.
  - use_chk. split_and!; [done|done|]. lia.
  - apply Forall_app_2; [done|]. constructor; [|done]. use_chk. cbn. lia.
  - apply prefixes_snoc; [done|]. rewrite skips_snoc. specialize (Hc eq_refl). use_chk. lia.
  - intros _. rewrite skips_snoc. specialize (Hc eq_refl). lia.
  - use_chk. unfold sane in Ho. lia.
  - apply written_pts; [cbn; by eapply Hp|done].
  - use_chk. unfold sane in Ho. lia.
  - apply Forall_app_2; [done|]. constructor; [|done]. by destruct timing as [[]|].
  - apply prefixes_snoc; [done|]. rewrite skips_snoc. lia.
  - intros _. rewrite skips_snoc. lia.
  - apply Forall_app_2; [done|]. by constructor.
  - apply prefixes_snoc; [done|]. rewrite skips_snoc. lia.
  - intros _. rewrite skips_snoc. lia.
  - apply written_pts; [cbn; by eapply Hp|done].
  - apply written_pts; [cbn; by eapply Hp|done].
Qed.

Lemma timely_step s s' : timely s -> step s s' -> timely s'.
Proof.
  intros Ht (t & a & Hadm & H). destruct t; try (by eapply timely_others; [|done..|exact H]).
  by eapply timely_output.
Qed.

(** ** Dropping *)

Definition par_empty (p : par_pc) : bool := match p with PHere | PExited => true | _ => false end.

(** The flag is clear again. *)
Definition flush_over (c : ctl_pc) : bool := match c with CFlushEnd => true | _ => resuming c end.

Record emptied (s : video) : Prop := Emptied {
  emptied_debt : parser_debt (ctl s) (seeking s) (flushing_video (ln s)) <= p_count (ln s);
  emptied_seek : may_seek (ctl s) = false -> seeking s = false;
  emptied_flush : flush_over (ctl s) = true -> flushing_video (ln s) = false;
  emptied_par : parser_seen (ctl s) = true -> par_empty (par s) = true;
  emptied_av : dropping (ctl s) = true ->
    video_packets_q (ln s) = [] /\ (video_decoder_flushed (ln s) = true -> dec_calm (d_pc (dec s)) = true);
  emptied_count : ctl s = CDropCount \/ ctl s = CResumeParser -> video_decoder_flushed (ln s) = true;
  emptied_end : ctl s = CResumeParser -> video_frames_q (ln s) = []
}.

Lemma parser_seen_debt c b f : parser_seen c = true -> 1 <= parser_debt c b f.
Proof. destruct c; try done; destruct b; cbn; lia. Qed.

Lemma dropping_seen c : dropping c = true -> parser_seen c = true.
Proof. by destruct c. Qed.

Lemma halted_empty s : parser_halted s = true -> par_empty (par s) = true.
Proof. unfold parser_halted. by destruct (par s). Qed.

Lemma quiet_calm pc : dec_quiet pc = true -> dec_calm pc = true.
Proof. by destruct pc. Qed.

Lemma emptied_parser a s s' : emptied s -> stream_parse_loop packets_size a s = Next s' -> emptied s'.
Proof.
  intros [Hd Hk Hf Hp Ha Hc He] H. pose proof (parser_seen_debt (ctl s) (seeking s) (flushing_video (ln s))) as Hs.
  open_code H. paths H.
  all: split; cbn in *; rewrite ?Heqp; try done; try (intros Hx; discriminate (Hp Hx)).
  - intros Hx. specialize (Hs Hx). blia.
  - intros Hx. discriminate (Hp (dropping_seen _ Hx)).
Qed.

Lemma emptied_decoder a s s' :
  sync s -> emptied s -> avbox_player_video_decode rescale frames_size a s = Next s' -> emptied s'.
Proof.
  intros Hsync [Hd Hk Hf Hp Ha Hc He] H. pose proof (sync_dec_head _ Hsync) as Hh.
  destruct (dropping (ctl s)) eqn:Edr.
  - destruct (Ha eq_refl) as [Hq Hcalm]. open_code H. rewrite Hq in Hh, H. paths H.
    all: try (by specialize (Hh _ eq_refl)).
    all: split; cbn in *; rewrite ?Heqd, ?Hq; try done.
    all: try (intros _; split; [done|]; by auto).
    all: try (intros Hx; discriminate (Hcalm (Hc Hx))).
    all: try (intros Hx; discriminate (Hcalm (Hc (or_intror Hx)))).
    all: try (intros Hx; discriminate (Hc Hx)).
    all: intros _; split; [done|]; zify_bool; congruence.
  - open_code H. paths H.
    all: split; cbn in *; rewrite ?Heqd; try done; rewrite ?Edr; try done.
    all: try (intros [Hx|Hx]; by rewrite Hx in Edr).
    all: try (intros Hx; by rewrite Hx in Edr).
Qed.

Lemma emptied_output a s s' :
  sync s -> emptied s -> avbox_player_video rescale a s = Next s' -> emptied s'.
Proof.
  intros Hsync [Hd Hk Hf Hp Ha Hc He] H. open_code H. paths H.
  all: split; cbn in *; try done.
  all: try (intros Hx; discriminate (He Hx)).
Qed.

Lemma emptied_main s s' : emptied s -> avbox_player_doupdate s = Next s' -> emptied s'.
Proof. intros [] H. open_code H. paths H. all: by split. Qed.

Lemma emptied_audio s s' : emptied s -> audio_step s = Next s' -> emptied s'.
Proof. intros [] H. open_code H. paths H. all: by split. Qed.

Lemma emptied_control a s s' :
  dvd = false -> sync s -> emptied s -> control_step dvd a s = Next s' -> emptied s'.
Proof.
  intros Hdvd Hsync [Hd Hk Hf Hp Ha Hc He] H. pose proof (sync_dec _ Hsync) as Hq.
  unfold parser_debt in Hd. open_code H. unfold avbox_player_stream_checkpoint_wait in H. rewrite Hdvd in H.
  paths H.
  all: split; unfold parser_debt; cbn in *; rewrite ?Heqc; cbn in *; try done; try (by eauto); try (by intros [?|?]).
  all: rewrite ?Hf, ?Hk by done; try (destruct (flushing_video (ln s)), (seeking s); cbn in *; lia).
  - intros _. rewrite orb_false_r in Heqb. by apply halted_empty.
  - intros _. split; [done|]. intros _. apply quiet_calm. auto.
  - intros _. destruct (Ha eq_refl). split; auto.
  - intros _. destruct (Ha eq_refl). by rewrite Heqb.
Qed.

(** ** No step fails *)

Lemma waiting_pic s f : fifo s -> f ∈ waiting s -> is_Some (pic (frames (mem s)) f).
Proof.
  intros [Ho _ _ _] Hf.
  assert (pic (frames (mem s)) f ∈ map Some (seq 0 (delivered (hist s)))) as Hin.
  { rewrite Ho. apply elem_of_app. right. by apply (list_elem_of_fmap_2 (pic (frames (mem s)))). }
  apply (list_elem_of_fmap_1 (B := option nat)) in Hin as (n & -> & _). by eexists.
Qed.

Lemma pic_frame m f n : pic m f = Some n -> exists fr, m !! f = Some fr /\ picture fr = Some n.
Proof. unfold pic. destruct (m !! f); [|done]. intros H. by eexists. Qed.

(** The frame of the packet the output thread works on. *)
Lemma peeked_frame s p f :
  held s -> fifo s -> out_peeked (o_pc (out s)) = Some p -> is_video (packets (mem s)) p f ->
  pending (o_pc (out s)) (video_frames_q (ln s)) = video_frames_q (ln s) ->
  exists fr n, frames (mem s) !! f = Some fr /\ picture fr = Some n.
Proof.
  intros Hh Hf Hp Hv Hpe. destruct (waiting_pic s f Hf) as [n Hn].
  - rewrite (wait_pass s p f p (held_sync _ Hh) Hp Hv Hpe). left.
  - destruct (pic_frame _ _ _ Hn) as (fr & ? & ?). by exists fr, n.
Qed.

Lemma no_crash_output a s : held s -> fifo s -> timely s -> admissible TOutput a s -> avbox_player_video rescale a s <> Crash.
Proof.
  intros Hh Hf Ht (_ & _ & Hst & Hw & Hcl & _)%admissible_iff H. specialize (Hcl eq_refl). specialize (Hw eq_refl).
  pose proof (fun p f => peeked_frame s p f Hh Hf) as Hpf.
  destruct Hh as [Hsync _ [Hq Ho _ _] _ Ha]. pose proof (fun f => frame_held _ f Ha) as Hheld.
  destruct Ht as [_ _ _ _ Hot Hlat Hpts]. pose proof (sync_out_head _ Hsync) as Hh.
  unfold out_timely in Hot. open_code H. paths H.
  all: cbn in *; clear H; try (discriminate (Hst eq_refl eq_refl)); try congruence.
  all: try (destruct (Hpf _ _ eq_refl Ho eq_refl) as (fr & n & E1 & E2); congruence).
  all: try (pose proof (sync_drains _ Hsync) as Hg; rewrite Heqo in Hg; discriminate Hg).
  all: try (specialize (Hh _ eq_refl); simplify_eq; try lia; fail).
  - destruct (Hq z) as [? E]; [left|]. congruence.
  - destruct (Hpts _ _ Heqo0) as [|Hsa]; [blia|].
    destruct (frame_wait_spec (last_latency (out s)) _ _ Hsa Hcl) as (b & E & _); [lia|]. congruence.
  - unfold sane in *. rewrite chk64_Some in Heqo0 by lia. done.
  - unfold sane in *. rewrite chk64_Some in Heqo0 by lia. done.
  - destruct (Hheld z) as [? E]; [|congruence]. unfold frame_holders. rewrite Heqo0. set_solver.
Qed.

Lemma flight_frame s f : fifo s -> delegate (ln s) = DelQueued -> args_frame (out s) = Some f ->
  exists fr n, frames (mem s) !! f = Some fr /\ picture fr = Some n.
Proof.
  intros Hf Hd Hg. pose proof (fifo_flight _ Hf) as H. unfold flight in H. rewrite Hd, Hg in H.
  destruct (Forall_inv H) as [n Hn]. destruct (pic_frame _ _ _ Hn) as (fr & ? & ?). by exists fr, n.
Qed.

Lemma no_crash_main s : held s -> fifo s -> avbox_player_doupdate s <> Crash.
Proof.
  intros Hh Hf H. pose proof (flight_frame s) as Hfl. destruct Hh as [_ _ _ [_ _ Har] Ha].
  pose proof (fun f => frame_held _ f Ha) as Hheld. open_code H. paths H.
  all: cbn in *; try (by specialize (Har eq_refl)).
  all: try (destruct (Hfl _ Hf eq_refl eq_refl) as (fr & n' & E1 & E2); congruence).
  destruct (Hheld z0) as [? E]; [|congruence]. unfold frame_holders. rewrite Heqo2. set_solver.
Qed.

Lemma no_crash_decoder a s :
  held s -> admissible TDecoder a s -> avbox_player_video_decode rescale frames_size a s <> Crash.
Proof.
  intros Hh _ H. destruct Hh as [_ _ _ _ Ha]. pose proof (fun f => frame_held _ f Ha) as Hheld.
  open_code H. paths H. destruct (Hheld f) as [? E]; [|congruence].
  unfold frame_holders. rewrite Heqd. set_solver.
Qed.

(** The frame of the packet the control thread has taken. *)
Lemma dropped_frame s p f :
  fifo s -> ctl s = CDropFrame p -> packets (mem s) !! p = Some (VIDEO f) ->
  exists fr n, frames (mem s) !! f = Some fr /\ picture fr = Some n.
Proof.
  intros Hf Hc Hp. destruct (waiting_pic s f Hf) as [n Hn].
  - unfold waiting, wait_of. rewrite Hc. cbn. unfold vid. rewrite Hp. left.
  - destruct (pic_frame _ _ _ Hn) as (fr & ? & ?). by exists fr, n.
Qed.

Lemma presented_frame s p f q :
  held s -> fifo s -> ctl s = CPresentPeek -> video_frames_q (ln s) = p :: q ->
  packets (mem s) !! p = Some (VIDEO f) -> is_Some (frames (mem s) !! f).
Proof.
  intros Hh Hf Hc Hq Hp. destruct (waiting_pic s f Hf) as [n Hn].
  - unfold waiting, wait_of. rewrite halted_pending by (apply (sync_out _ (held_sync _ Hh)); by rewrite Hc).
    rewrite Hq, vids_cons. unfold vid at 1. rewrite Hp. set_solver.
  - destruct (pic_frame _ _ _ Hn) as (fr & ? & ?). by exists fr.
Qed.

Lemma no_crash_control a s : held s -> fifo s -> control_step dvd a s <> Crash.
Proof.
  intros Hh Hf H. pose proof (fun p f => dropped_frame s p f Hf) as Hdf.
  pose proof (fun p f q => presented_frame s p f q Hh Hf) as Hpf.
  destruct Hh as [Hsync _ [Hq _ _ Hct] _ _].
  pose proof (sync_ctl_head _ Hsync) as Hch. pose proof (sync_present _ Hsync) as Hpr.
  open_code H. paths H.
  all: cbn in *; clear H; try (by specialize (Hpr eq_refl)).
  all: try (specialize (Hch _ eq_refl); simplify_eq; try lia; fail).
  all: try (destruct (Hdf _ _ eq_refl Heqo) as (fr & n & E1 & E2); congruence).
  - destruct (Hct p) as [? E]; [left|congruence].
  - destruct (Hpf _ _ _ eq_refl eq_refl Heqo) as [? E]. congruence.
  - destruct (Hq z) as [? E]; [left|congruence].
Qed.

Lemma no_crash_parser a s : admissible TParser a s -> stream_parse_loop packets_size a s <> Crash.
Proof.
  intros (_ & Hal & _)%admissible_iff H. open_code H. paths H. apply (Hal eq_refl eq_refl); [|done].
  by apply pool_take_None.
Qed.

Lemma no_crash_audio s : audio_step s <> Crash.
Proof. intros H. open_code H. paths H. Qed.

(** ** Everything at once *)

Record good (s : video) : Prop := Good {
  good_held : held s; good_av : av_exact s; good_fifo : fifo s; good_timely : timely s
}.

Lemma good_step s s' : good s -> step s s' -> good s'.
Proof.
  intros [Hh Ha Hf Ht] Hs. split; eauto using held_step, av_step, fifo_step, timely_step.
Qed.

Lemma good_no_crash t a s :
  good s -> admissible t a s -> exec rescale frames_size packets_size dvd t a s <> Crash.
Proof.
  intros [Hh _ Hf Ht] Ha. destruct t; cbn;
    eauto using no_crash_parser, no_crash_audio, no_crash_decoder, no_crash_output, no_crash_main, no_crash_control.
Qed.

#[local] Instance thread_eq_dec : EqDecision thread.
Proof. solve_decision. Defined.
#[local] Instance par_pc_eq_dec : EqDecision par_pc.
Proof. solve_decision. Defined.
#[local] Instance out_pc_eq_dec : EqDecision out_pc.
Proof. solve_decision. Defined.
#[local] Instance fault_dec t a s : Decision (fault t a s).
Proof.
  destruct (decide (t = TParser /\ par s = PAcquire /\ av_packet_pool (mem s) = [] /\ a_alloc a = None)) as [(? & ? & ? & ?)|N1];
    [left; by apply NoMemory|].
  destruct (decide (t = TOutput /\ o_pc (out s) = OStart /\ a_delegate a = false)) as [(? & ? & ?)|N2]; [left; by apply NoDelegate|].
  destruct (decide (t = TOutput /\ a_delegate a = true /\ a_window a = false)) as [(? & ? & ?)|N3]; [left; by apply NoWindow|].
  destruct (decide (t = TOutput /\ ~ sane (a_clock a))) as [(? & ?)|N4]; [left; by apply WildClock|].
  assert (N : fault t a s -> exists pts, t = TDecoder /\ a_sink a = SinkFrame pts /\ pts <> AV_NOPTS_VALUE /\ ~ sane (rescale pts)).
  { intros [Ht Hp Hl Ha|Ht Ho Ha|Ht Hd Hw|Ht Hc|pts Ht Hs Hp Hr]; [by destruct N1|by destruct N2|by destruct N3|by destruct N4|].
    by exists pts. }
  destruct (decide (t = TDecoder)) as [Ht|Ht]; [|right; intros H; by destruct (N H) as (? & ? & _)].
  destruct (a_sink a) as [pts| | |] eqn:Es; try (right; intros H; by destruct (N H) as (? & _ & [=] & _)).
  destruct (decide (pts <> AV_NOPTS_VALUE /\ ~ sane (rescale pts))) as [[Hp Hr]|Hn]; [left; by apply (WildTime _ _ _ pts)|].
  right. intros H. by destruct (N H) as (? & _ & [= ->] & ? & ?), Hn.
Qed.

Lemma crash_is_fault t a s :
  good s -> fresh_blocks a s -> exec rescale frames_size packets_size dvd t a s = Crash -> fault t a s.
Proof.
  intros Hg Hf Hc. destruct (decide (fault t a s)) as [|Hn]; [done|]. exfalso. by apply (good_no_crash t a s Hg).
Qed.

Lemma emptied_step s s' : dvd = false -> sync s -> emptied s -> step s s' -> emptied s'.
Proof.
  intros Hdvd Hs He (t & a & _ & H). destruct t; cbn in H;
    eauto using emptied_parser, emptied_audio, emptied_decoder, emptied_output, emptied_main, emptied_control.
Qed.

(** ** The end of the output thread *)

Definition out_left (pc : out_pc) : bool := match pc with ODestroy | OLast | OExited => true | _ => false end.

Record left_ok (s : video) : Prop := LeftOk {
  left_del : out_left (o_pc (out s)) = true -> delegate_waitable (out s) = false;
  left_last : o_pc (out s) = OExited -> last_video_frame (ln s) = None
}.

Lemma left_step s s' : deleg_ok s -> left_ok s -> step s s' -> left_ok s'.
Proof.
  intros [Hi _ _] [Hd Hl] (t & a & _ & H). destruct t; cbn in H; open_code H; paths H.
  all: split; cbn in *; use_pcs; try done; try congruence; try (by eauto).
  all: intros Hx; rewrite Hx in Hd; by specialize (Hi (Hd eq_refl)).
Qed.

(** When every message is sent and every delegate created, no frame is lost. *)
Definition reliable_step (s s' : video) : Prop :=
  exists t a, admissible t a s /\ a_sendmsg a = true /\ a_delegate a = true /\
    exec rescale frames_size packets_size dvd t a s = Next s'.

Definition out_shows (pc : out_pc) : bool :=
  match pc with OTime _ _ | OSleep _ _ _ | OLate _ _ _ _ | OWait _ _ _ | OSend _ _ _ => true | _ => false end.

Definition out_closed (pc : out_pc) : bool := match pc with OLast | OExited => true | _ => false end.

Record reliable_ok (s : video) : Prop := ReliableOk {
  reliable_lost : lost_frames (hist s) = [];
  reliable_window : scaled (out s) = true -> out_closed (o_pc (out s)) = false -> video_window (ln s) = true;
  reliable_scaled : out_shows (o_pc (out s)) = true -> scaled (out s) = true;
  reliable_queued : delegate (ln s) = DelQueued -> video_window (ln s) = true
}.

Lemma reliable_ok_step s s' : deleg_ok s -> left_ok s -> reliable_ok s -> reliable_step s s' -> reliable_ok s'.
Proof.
  intros [Hi _ _] [Hd _] [Hl Hw Hs Hq] (t & a & (_ & _ & _ & Hwin & _)%admissible_iff & Hm & Hdel & H).
  destruct t; cbn in H; try specialize (Hwin eq_refl Hdel); open_code H; paths H.
  all: split; cbn in *; use_pcs; try done; try congruence; try (by eauto).
  - intros Hx. rewrite (Hi (Hd eq_refl)) in Hx. done.
  - by specialize (Hq eq_refl).
Qed.

End proofs.
