(* ===== verification/Playback.v ===== *)
(** * Playing a video

    The properties of the video pipeline, in every interleaving of its
    threads from the moment the pools are primed: nothing is lost or used
    twice, pictures are presented in order and on time, and a drop leaves
    the pipeline empty.  The last part has runs that show what the code does
    not do. *)

From S2P Require Import Prelude Holders VideoPipe Presentation.

(** ** The start *)

Definition blank_frame : avframe := AVFrame AV_NOPTS_VALUE None.
Definition alloc_frames (l : list Z) (m : gmap Z avframe) : gmap Z avframe := foldl (fun m f => <[f := blank_frame]> m) m l.
Definition alloc_set (l : list Z) (b : gset Z) : gset Z := foldl (fun b p => {[p]} ∪ b) b l.

Lemma alloc_frames_some l m x : is_Some (alloc_frames l m !! x) <-> x ∈ l \/ is_Some (m !! x).
Proof.
  revert m. induction l as [|y l IH]; intros m; [set_solver|].
  change (alloc_frames (y :: l) m) with (alloc_frames l (<[y := blank_frame]> m)).
  rewrite IH, lookup_insert_is_Some', elem_of_cons. naive_solver.
Qed.

Lemma alloc_frames_blank l m f fr :
  (forall f fr, m !! f = Some fr -> fr = blank_frame) -> alloc_frames l m !! f = Some fr -> fr = blank_frame.
Proof.
  revert m. induction l as [|y l IH]; intros m Hm H; [by eapply Hm|].
  apply (IH _) in H; [done|]. intros g gr [[_ <-]|[_ Hg]]%lookup_insert_Some; [done|by eapply Hm].
Qed.

Lemma alloc_set_elem l b x : x ∈ alloc_set l b <-> x ∈ l \/ x ∈ b.
Proof.
  revert b. induction l as [|y l IH]; intros b; [set_solver|].
  change (alloc_set (y :: l) b) with (alloc_set l ({[y]} ∪ b)). rewrite IH. set_solver.
Qed.

Lemma acquire_frames l s :
  frame_pool (mem s) = [] ->
  acquire_all acquire_av_frame l s = Some (l, upd_mem (fun h => with_frames (alloc_frames l (frames h)) h) s).
Proof.
  revert s. induction l as [|x l IH]; intros s Hp; cbn; [by destruct s as [[]]|].
  unfold acquire_av_frame. rewrite Hp. cbn. by rewrite IH.
Qed.

Lemma acquire_avs l s :
  av_packet_pool (mem s) = [] ->
  acquire_all acquire_av_packet l s = Some (l, upd_mem (fun h => with_av_packets (alloc_set l (av_packets h)) h) s).
Proof.
  revert s. induction l as [|x l IH]; intros s Hp; cbn; [by destruct s as [[]]|].
  unfold acquire_av_packet. rewrite Hp. cbn. by rewrite IH.
Qed.

Lemma acquire_packets l s :
  packet_pool (mem s) = [] ->
  acquire_all acquire_packet l s = Some (l, upd_mem (fun h => with_packet_blocks (alloc_set l (packet_blocks h)) h) s).
Proof.
  revert s. induction l as [|x l IH]; intros s Hp; cbn; [by destruct s as [[]]|].
  unfold acquire_packet. rewrite Hp. cbn. by rewrite IH.
Qed.

Lemma release_frames l s :
  foldl (fun s x => release_av_frame x s) s l = upd_mem (fun h => with_frame_pool (reverse l ++ frame_pool h) h) s.
Proof.
  revert s. induction l as [|x l IH]; intros s; [by destruct s as [[]]|].
  cbn [foldl]. rewrite IH. unfold upd_mem. by rewrite reverse_cons, <- app_assoc.
Qed.

Lemma release_avs l s :
  foldl (fun s x => release_av_packet x s) s l =
  upd_mem (fun h => with_av_packet_pool (reverse l ++ av_packet_pool h) h) s.
Proof.
  revert s. induction l as [|x l IH]; intros s; [by destruct s as [[]]|].
  cbn [foldl]. rewrite IH. unfold upd_mem. by rewrite reverse_cons, <- app_assoc.
Qed.

Lemma release_packets l s :
  packets (mem s) = ∅ ->
  foldl (fun s x => release_packet x s) s l = upd_mem (fun h => with_packet_pool (reverse l ++ packet_pool h) h) s.
Proof.
  revert s. induction l as [|x l IH]; intros s Hs; [by destruct s as [[]]|].
  cbn [foldl]. rewrite IH by (cbn; by rewrite Hs, delete_empty).
  unfold release_packet, upd_mem. cbn -[reverse]. rewrite Hs, delete_empty, reverse_cons, <- app_assoc.
  destruct s as [[]]; cbn -[reverse] in *. by subst.
Qed.

(** What [prime_pools] leaves. *)
Lemma prime_pools_spec fm am pm :
  prime_pools fm am pm video_empty =
  Some (set_mem (Heap (reverse fm) (reverse pm) (reverse am) (alloc_frames fm ∅) ∅ (alloc_set pm ∅) (alloc_set am ∅))
          video_empty).
Proof.
  unfold prime_pools, prime_pool. rewrite acquire_frames by done. cbn. rewrite release_frames. cbn.
  rewrite acquire_avs by done. cbn. rewrite release_avs. cbn.
  rewrite acquire_packets by done. cbn. rewrite release_packets by done.
  unfold upd_mem, with_packet_pool, with_av_packet_pool, with_frame_pool.
  cbn -[reverse alloc_frames alloc_set]. by rewrite !app_nil_r.
Qed.

Lemma map_Some_app {A B : Type} (ns xs : list A) (g : B -> option A) (l : list B) :
  map Some ns = map Some xs ++ map g l ->
  exists ys, Forall2 (fun f n => g f = Some n) l ys /\ ns = xs ++ ys.
Proof.
  revert xs l. induction ns as [|n ns IH]; intros [|x xs] l H; cbn in H.
  - destruct l; [|done]. exists []. split; [constructor|done].
  - done.
  - destruct l as [|f l]; [done|]. injection H as Hn H. destruct (IH [] l H) as (ys & Hy & ->).
    exists (n :: ys). split; [by constructor|done].
  - injection H as -> H. destruct (IH xs l H) as (ys & Hy & ->). by exists ys.
Qed.

#[export] Instance avframe_eq_dec : EqDecision avframe.
Proof. solve_decision. Defined.

Section runs.
Context (rescale : Z -> Z) (frames_size packets_size : Z) (dvd : bool).

(** Runs from primed pools. *)
Definition played (fm am pm : list Z) (s : video) : Prop :=
  NoDup fm /\ NoDup am /\ NoDup pm /\
  exists s0, prime_pools fm am pm video_empty = Some s0 /\ rtc (step rescale frames_size packets_size dvd) s0 s.

Lemma primed_good fm am pm s :
  NoDup fm -> NoDup am -> NoDup pm -> prime_pools fm am pm video_empty = Some s -> good rescale s.
Proof.
  intros Hf Ha Hp H. rewrite prime_pools_spec in H. injection H as <-. split.
  - split; [split; done|..].
    + apply exact_reverse; [done|]. intros x. cbn -[alloc_set]. rewrite alloc_set_elem. set_solver.
    + split; cbn; try done; by intros ? ?%not_elem_of_nil.
    + done.
    + apply exact_reverse; [done|]. intros x. cbn -[alloc_frames]. rewrite alloc_frames_some, lookup_empty.
      split; [intros [?|[? ?]]; done|by left].
  - apply exact_reverse; [done|]. intros x. cbn -[alloc_set]. rewrite alloc_set_elem. set_solver.
  - split; cbn; done.
  - split; cbn; try done; try lia.
    + intros xs ys Hx. symmetry in Hx. apply app_nil in Hx as [-> _]. cbn. lia.
    + intros f fr Hfr. left. by rewrite (alloc_frames_blank fm ∅ f fr).
Qed.

Lemma played_good fm am pm s : played fm am pm s -> good rescale s.
Proof.
  intros (Hf & Ha & Hp & s0 & Hs & Hr).
  apply (rtc_invariant (step rescale frames_size packets_size dvd) (good rescale)) with (x := s0); [|done|].
  - intros x y Hx Hxy. by eapply good_step.
  - exact (primed_good fm am pm s0 Hf Ha Hp Hs).
Qed.

Lemma played_emptied fm am pm s : dvd = false -> played fm am pm s -> emptied s.
Proof.
  intros Hdvd (Hf & Ha & Hp & s0 & Hs & Hr).
  assert (good rescale s /\ emptied s) as [_ ?]; [|done].
  apply (rtc_invariant (step rescale frames_size packets_size dvd) (fun s => good rescale s /\ emptied s))
    with (x := s0); [|done|].
  - intros x y [Hx He] Hxy. split; [by eapply good_step|].
    by eapply emptied_step; [| apply (held_sync _ (good_held _ _ Hx)) |..].
  - split; [exact (primed_good fm am pm s0 Hf Ha Hp Hs)|].
    rewrite prime_pools_spec in Hs. injection Hs as <-. split; cbn; try done; try lia.
Qed.

(** C4. While a file with video plays, whatever the threads, FFmpeg, the
    allocator and the clock do, and as long as none of five faults has
    happened: a step aborts, dereferences a missing frame or overflows only
    by one of these faults (no memory for a packet of the parser, no
    delegate at the start of the output thread, no window, a clock or a time
    of a picture beyond 2^52 microseconds); the output thread and the
    decoder always get from their queue the packet they peeked at; and every
    frame, video packet and encoded packet ever allocated has exactly one
    holder (its pool, a queue, one thread, the delegate, the last frame
    shown) or is recorded as lost. *)
Theorem video_pipeline_safe fm am pm s :
  played fm am pm s ->
  (forall t a, fresh_blocks a s -> exec rescale frames_size packets_size dvd t a s = Crash -> fault rescale t a s) /\
  (forall p, out_peeked (o_pc (out s)) = Some p -> head (video_frames_q (ln s)) = Some p) /\
  (forall a, dec_peeked (d_pc (dec s)) = Some a -> head (video_packets_q (ln s)) = Some a) /\
  (NoDup (frame_holders s) /\ forall f, f ∈ frame_holders s <-> is_Some (frames (mem s) !! f)) /\
  (NoDup (packet_holders s) /\ forall p, p ∈ packet_holders s <-> p ∈ packet_blocks (mem s)) /\
  (NoDup (av_holders s) /\ forall a, a ∈ av_holders s <-> a ∈ av_packets (mem s)).
Proof.
  intros Hpl. pose proof (played_good _ _ _ _ Hpl) as Hg.
  pose proof Hg as [[Hs Hp _ _ Hf] Ha _ _].
  split; [intros t a Hfr Hc; by apply (crash_is_fault _ _ _ _ _ _ _ Hg Hfr Hc)|]. split; [apply Hs|]. split; [apply Hs|].
  split; [|split].
  - apply exact_spec; [done|]. intros x. destruct (frames (mem s) !! x); [by left|right; by intros [? ?]].
  - apply exact_spec; [done|]. intros x. destruct (decide (x ∈ packet_blocks (mem s))); [by left|by right].
  - apply exact_spec; [done|]. intros x. destruct (decide (x ∈ av_packets (mem s))); [by left|by right].
Qed.

(** C7. The pipeline is a FIFO: the pictures the decoder delivered are, in
    the order in which it delivered them, those that were dealt with
    (presented, skipped, dropped by a seek, or not sent for lack of memory)
    followed by those still waiting; and unless a frame was lost the main
    thread has shown the pictures sent to it, in order and each once, up to
    the one that is on its way. *)
Theorem pictures_in_order fm am pm s :
  played fm am pm s ->
  (exists ns, Forall2 (fun f n => picture_of f s = Some n) (waiting s) ns /\
     seq 0 (delivered (hist s)) = map fate_picture (fates (hist s)) ++ ns) /\
  (lost_frames (hist s) = [] ->
     exists ns, Forall2 (fun f n => picture_of f s = Some n) (flight s) ns /\
       sent (fates (hist s)) = shown (hist s) ++ ns).
Proof.
  intros [_ _ [Ho _ Hs _] _]%played_good. split; [|intros Hl; specialize (Hs Hl)].
  - rewrite <- (map_map fate_picture Some) in Ho. apply map_Some_app in Ho as (ns & Hw & ->). by exists ns.
  - apply map_Some_app in Hs as (ns & Hw & ->). by exists ns.
Qed.

(** C23. A picture with a time stamp is sent to the screen at most 30 ms
    before its time and skipped only when it is more than 400 ms late, both
    by the last reading of the master clock; and never are more than three
    pictures in a row skipped. *)
Theorem pictures_on_time fm am pm s :
  played fm am pm s ->
  Forall fate_timely (fates (hist s)) /\
  (forall xs ys, fates (hist s) = xs ++ ys -> Z.of_nat (skips xs) <= AVBOX_SKIP_FRAME_MAX).
Proof.
  intros [_ _ _ [Hf Hs _ _ _ _ _]]%played_good. split; [done|]. intros xs ys H. specialize (Hs xs ys H).
  unfold AVBOX_SKIP_FRAME_MAX. lia.
Qed.

(** C21. When [avbox_player_drop] has run its course and is about to let the
    threads go, of a stream whose reads do not block ([dvd = false]: neither
    a DVD nor a torrent, where the parser may sit inside of a read and is
    not waited for), nothing of what was read before is left: both queues
    are empty, the decoder is flushed and holds nothing, the parser holds
    nothing, and every picture delivered so far was dealt with, so that what
    is presented from then on was read after the seek. *)
Theorem drop_empties_pipeline fm am pm s :
  dvd = false -> played fm am pm s -> ctl s = CResumeParser ->
  video_packets_q (ln s) = [] /\ video_frames_q (ln s) = [] /\ video_decoder_flushed (ln s) = true /\
  dec_calm (d_pc (dec s)) = true /\ par_empty (par s) = true /\ waiting s = [] /\
  map fate_picture (fates (hist s)) = seq 0 (delivered (hist s)).
Proof.
  intros Hdvd Hpl Hc. pose proof (played_emptied _ _ _ _ Hdvd Hpl) as [_ _ _ Hp Ha Hfl He].
  pose proof (played_good _ _ _ _ Hpl) as [_ _ [Ho _ _ _] _].
  rewrite Hc in *. destruct (Ha eq_refl) as [Hq Hd]. specialize (He eq_refl). specialize (Hfl (or_intror eq_refl)).
  assert (waiting s = []) as Hw.
  { unfold waiting, wait_of. rewrite Hc, He. by destruct (o_pc (out s)). }
  rewrite Hw, app_nil_r, <- (map_map fate_picture Some) in Ho. split_and!; auto.
  apply (inj (map Some)). done.
Qed.

Lemma played_left fm am pm s : played fm am pm s -> left_ok s.
Proof.
  intros (Hf & Ha & Hp & s0 & Hs & Hr).
  assert (good rescale s /\ left_ok s) as [_ ?]; [|done].
  apply (rtc_invariant (step rescale frames_size packets_size dvd) (fun s => good rescale s /\ left_ok s))
    with (x := s0); [|done|].
  - intros x y [Hx He] Hxy. split; [by eapply good_step|]. eapply left_step; [apply Hx|done|done].
  - split; [exact (primed_good fm am pm s0 Hf Ha Hp Hs)|].
    rewrite prime_pools_spec in Hs. by injection Hs as <-.
Qed.

(** C32. When the output thread has ended and no drop is under way, the
    decoder has ended too, no packet is queued and no frame is on its way:
    every video packet is back in its pool, and so is every frame that was
    not lost because its message could not be sent or no window was there. *)
Theorem video_exit_returns fm am pm s :
  played fm am pm s -> o_pc (out s) = OExited -> ctl s = CIdle ->
  d_pc (dec s) = DExited /\ video_frames_q (ln s) = [] /\
  (NoDup (frame_pool (mem s) ++ lost_frames (hist s)) /\
   forall f, f ∈ frame_pool (mem s) ++ lost_frames (hist s) <-> is_Some (frames (mem s) !! f)) /\
  (NoDup (packet_pool (mem s)) /\ forall p, p ∈ packet_pool (mem s) <-> p ∈ packet_blocks (mem s)).
Proof.
  intros Hpl Ho Hc. pose proof (played_left _ _ _ _ Hpl) as [Hd Hl]. rewrite Ho in *.
  destruct (played_good _ _ _ _ Hpl) as [[Hs Hp _ [Hi _ _] Hf] _ _ _].
  destruct (sync_gone _ Hs) as [Hq Hcl]; [by rewrite Ho|]. pose proof (sync_closed _ Hs Hcl) as Hdec.
  split; [done|]. split; [done|].
  unfold frames_exact, frame_holders, waiting, wait_of, flight in Hf.
  unfold packets_exact, packet_holders in Hp.
  rewrite Ho, Hc, Hq, Hdec, (Hl eq_refl) in *. rewrite (Hi (Hd eq_refl)) in Hf. cbn in Hf, Hp.
  rewrite app_nil_r in Hp. split.
  - apply exact_spec; [done|]. intros x. destruct (frames (mem s) !! x); [by left|right; by intros [? ?]].
  - apply exact_spec; [done|]. intros x. destruct (decide (x ∈ packet_blocks (mem s))); [by left|by right].
Qed.

(** With reliable messages and delegates no frame is lost. *)
Lemma reliable_nothing_lost fm am pm s0 s :
  NoDup fm -> NoDup am -> NoDup pm -> prime_pools fm am pm video_empty = Some s0 ->
  rtc (reliable_step rescale frames_size packets_size dvd) s0 s -> lost_frames (hist s) = [].
Proof.
  intros Hf Ha Hp Hs Hr.
  assert (good rescale s /\ left_ok s /\ reliable_ok s) as (_ & _ & [? _ _ _]); [|done].
  apply (rtc_invariant (reliable_step rescale frames_size packets_size dvd)
           (fun s => good rescale s /\ left_ok s /\ reliable_ok s)) with (x := s0); [|done|].
  - intros x y (Hx & Hl & Hk) Hxy.
    assert (step rescale frames_size packets_size dvd x y) as Hst by (destruct Hxy as (t & a & ? & _ & _ & ?); by exists t, a).
    split_and!; [by eapply good_step| |].
    + eapply left_step; [apply Hx|done|done].
    + eapply reliable_ok_step; [apply Hx|done..].
  - split; [exact (primed_good fm am pm s0 Hf Ha Hp Hs)|].
    rewrite prime_pools_spec in Hs. by injection Hs as <-.
Qed.

(** ** Scripted runs *)

Definition admissible_b (t : thread) (a : answers) (s : video) : bool :=
  match a_alloc a with
  | Some x => bool_decide (frames (mem s) !! x = None) && bool_decide (x ∉ packet_blocks (mem s)) &&
              bool_decide (x ∉ av_packets (mem s))
  | None => match t, par s, av_packet_pool (mem s) with TParser, PAcquire, [] => false | _, _, _ => true end
  end &&
  (a_delegate a || match t, o_pc (out s) with TOutput, OStart => false | _, _ => true end) &&
  (negb (a_delegate a) || a_window a) && bool_decide (sane (a_clock a)) &&
  match a_sink a with SinkFrame t => bool_decide (t = AV_NOPTS_VALUE) || bool_decide (sane (rescale t)) | _ => true end.

Fixpoint script (l : list (thread * answers)) (s : video) : option video :=
  match l with
  | [] => Some s
  | (t, a) :: l =>
      if admissible_b t a s then
        match exec rescale frames_size packets_size dvd t a s with Next s => script l s | _ => None end
      else None
  end.

Lemma admissible_b_spec t a s : admissible_b t a s = true -> admissible rescale t a s.
Proof.
  unfold admissible_b. intros H. apply admissible_iff. zify_bool. split_and!.
  - intros x Hx. rewrite Hx in *. zify_bool. done.
  - intros -> Hp Hl Hx. by rewrite Hx, Hp, Hl in *.
  - intros -> Hp. rewrite Hp in *. by destruct (a_delegate a).
  - intros _ Hd. rewrite Hd in *. by destruct (a_window a).
  - done.
  - intros _ u Hu. rewrite Hu in *. apply orb_true_iff in H0 as [?|?]; zify_bool; [by left|by right].
Qed.

Lemma script_rtc l s s' : script l s = Some s' -> rtc (step rescale frames_size packets_size dvd) s s'.
Proof.
  revert s. induction l as [|[t a] l IH]; intros s H; cbn in H; [injection H as ->; apply rtc_refl|].
  destruct (admissible_b t a s) eqn:Ea; [|done].
  destruct (exec rescale frames_size packets_size dvd t a s) as [s1| |] eqn:E; [|done|done].
  eapply rtc_l; [|by apply IH]. exists t, a. split; [by apply admissible_b_spec|done].
Qed.

Lemma script_played fm am pm l s0 s :
  NoDup fm -> NoDup am -> NoDup pm -> prime_pools fm am pm video_empty = Some s0 -> script l s0 = Some s ->
  played fm am pm s.
Proof. intros Hf Ha Hp Hs Hl. split_and!; [done..|]. exists s0. split; [done|by apply script_rtc with l]. Qed.
End runs.

(** ** A file played from its start to its end *)

Definition reply (receive : receive_result) (sink : sink_result) (read : read_result) (clock : Z) (sendmsg : bool) :
    answers :=
  Answers None None SendOk receive sink read true true true true clock true true sendmsg ReqDrop false false false.

Definition calm : answers := reply ReceiveAgain SinkAgain ReadVideo 0 true.
Definition ask (r : request) (poll : bool) : thread * answers :=
  (TControl, Answers None None SendOk ReceiveAgain SinkAgain ReadVideo true true true true 0 true true true r poll
     false false).

Definition steps (n : nat) (t : thread) : list (thread * answers) := replicate n (t, calm).
Definition receive (r : receive_result) (k : sink_result) : thread * answers :=
  (TDecoder, reply r k ReadVideo 0 true).

(** An encoded packet is read. *)
Definition read_one : list (thread * answers) := steps 5 TParser.

(** The decoder takes it and delivers one picture. *)
Definition decode_one (t : Z) : list (thread * answers) :=
  steps 4 TDecoder ++ [receive ReceiveFrame SinkAgain] ++ steps 1 TDecoder ++ [receive ReceiveFrame (SinkFrame t)] ++
  steps 12 TDecoder.

(** The output thread sets the clock and presents the picture. *)
Definition present_one (clock : Z) (sendmsg : bool) : list (thread * answers) :=
  steps 9 TOutput ++ replicate 6 (TOutput, reply ReceiveAgain SinkAgain ReadVideo clock sendmsg).

(** The decoder sees the flush through, from its checkpoint. *)
Definition flush_decoder : list (thread * answers) :=
  steps 3 TDecoder ++ [receive ReceiveEof SinkEof] ++ [receive ReceiveEof SinkEof] ++ [receive ReceiveEof SinkEof] ++
  steps 1 TDecoder.

Definition primed : video := default video_empty (prime_pools [1; 2; 3; 4] [11; 12] [21; 22; 23] video_empty).

Definition playing (rescale : Z -> Z) (l : list (thread * answers)) : option video := script rescale 9 9 false l primed.
Definition first_picture : list (thread * answers) := read_one ++ decode_one 0 ++ present_one 0 true ++ steps 1 TMain.

(** The file ends: the parser closes its queue, the decoder flushes and
    closes the frames queue, the output thread leaves. *)
Definition end_of_file : list (thread * answers) :=
  steps 3 TParser ++ [(TParser, reply ReceiveAgain SinkAgain ReadEnd 0 true)] ++ steps 1 TParser ++
  steps 2 TDecoder ++ [receive ReceiveEof SinkEof] ++ [receive ReceiveEof SinkEof] ++ [receive ReceiveEof SinkEof] ++
  steps 5 TDecoder ++ steps 7 TOutput.

(** A seek or a stop: the control thread halts the threads and empties the
    queues while the decoder flushes. *)
Definition drop_all : list (thread * answers) :=
  [ask ReqDrop false] ++ steps 1 TParser ++ steps 1 TOutput ++ steps 4 TControl ++
  steps 10 TControl ++ steps 2 TControl ++ flush_decoder ++ steps 3 TControl.

(** The picture is on the screen, its frame is kept until the next one. *)
Definition at_first_picture : video := default video_empty (playing id first_picture).
Definition at_the_end : video := default video_empty (playing id (first_picture ++ end_of_file)).
Definition at_the_drop : video := default video_empty (playing id (read_one ++ decode_one 0 ++ drop_all)).

Lemma primed_pools : prime_pools [1; 2; 3; 4] [11; 12] [21; 22; 23] video_empty = Some primed.
Proof. vm_compute. reflexivity. Qed.

Lemma addresses_distinct : NoDup [1; 2; 3; 4] /\ NoDup [11; 12] /\ NoDup [21; 22; 23].
Proof. split_and!; by_eval. Qed.

Lemma playing_played l s : playing id l = Some s -> played id 9 9 false [1; 2; 3; 4] [11; 12] [21; 22; 23] s.
Proof.
  unfold playing. intros H. destruct addresses_distinct as (Hf & Ha & Hp).
  exact (script_played id 9 9 false _ _ _ l primed s Hf Ha Hp primed_pools H).
Qed.

Lemma video_pipeline_safe_witness :
  shown (hist at_first_picture) = [0%nat] /\ NoDup (frame_holders at_first_picture).
Proof.
  split; [by vm_compute|].
  apply (video_pipeline_safe id 9 9 false [1; 2; 3; 4] [11; 12] [21; 22; 23] at_first_picture).
  apply (playing_played (first_picture)). vm_compute. reflexivity.
Defined.

Lemma pictures_in_order_witness :
  lost_frames (hist at_first_picture) = [] /\
  exists ns, Forall2 (fun f n => picture_of f at_first_picture = Some n) (flight at_first_picture) ns /\
    sent (fates (hist at_first_picture)) = shown (hist at_first_picture) ++ ns.
Proof.
  split; [by vm_compute|].
  apply (pictures_in_order id 9 9 false [1; 2; 3; 4] [11; 12] [21; 22; 23] at_first_picture); [|by vm_compute].
  apply (playing_played (first_picture)). vm_compute. reflexivity.
Defined.

Lemma pictures_on_time_witness :
  fates (hist at_first_picture) = [Sent 0 (Some (0, 0))] /\ Forall fate_timely (fates (hist at_first_picture)).
Proof.
  split; [by vm_compute|].
  apply (pictures_on_time id 9 9 false [1; 2; 3; 4] [11; 12] [21; 22; 23] at_first_picture).
  apply (playing_played (first_picture)). vm_compute. reflexivity.
Defined.

Lemma drop_empties_pipeline_witness :
  fates (hist at_the_drop) = [Dropped 0] /\ video_frames_q (ln at_the_drop) = [].
Proof.
  split; [by vm_compute|].
  apply (drop_empties_pipeline id 9 9 false [1; 2; 3; 4] [11; 12] [21; 22; 23] at_the_drop);
    [done| |by vm_compute].
  apply (playing_played ((read_one ++ decode_one 0 ++ drop_all))). vm_compute. reflexivity.
Defined.

Lemma video_exit_returns_witness :
  frame_pool (mem at_the_end) = [1; 4; 3; 2] /\ d_pc (dec at_the_end) = DExited.
Proof.
  split; [by vm_compute|].
  apply (video_exit_returns id 9 9 false [1; 2; 3; 4] [11; 12] [21; 22; 23] at_the_end); [|by vm_compute..].
  apply (playing_played ((first_picture ++ end_of_file))). vm_compute. reflexivity.
Defined.

(** ** What the code does not do *)

(** A stream with a time base of 1/90000 s. *)
Definition rescale90k (t : Z) : Z := t * 100 / 9.

(** The decoder puts microseconds into the SET_CLOCK packet and the output
    thread rescales them again: a file that starts at one second sets the
    clock to eleven seconds, and its first picture, due at one second, is
    skipped as late. *)
Example clock_rescaled_twice :
  option_map (fun s => (clock_sets (hist s), fates (hist s)))
    (playing rescale90k (read_one ++ decode_one 90000 ++ steps 9 TOutput ++
       replicate 2 (TOutput, reply ReceiveAgain SinkAgain ReadVideo 11111111 true))) =
  Some ([11111111], [Skipped 0 1000000 11111111]).
Proof. by vm_compute. Qed.

(** A frame whose message cannot be sent is never released. *)
Example unsent_frame_lost :
  option_map (fun s => (o_pc (out s), lost_frames (hist s)))
    (playing id (read_one ++ decode_one 0 ++ present_one 0 false ++ end_of_file)) = Some (OExited, [1]).
Proof. by vm_compute. Qed.

(** At the end of the file the parser leaves with the packet it had
    acquired. *)
Example packet_lost_at_end : lost_packets (hist at_the_end) = [12].
Proof. by vm_compute. Qed.

(** A flush that is polled and then overtaken by a drop leaves the parser
    halted: nobody undoes the first halt. *)
Example drop_during_flush_halts_parser :
  option_map (fun s => (ctl s, flushing_video (ln s), p_count (ln s), par s))
    (playing id (steps 1 TDecoder ++ steps 1 TOutput ++ [ask ReqFlush false] ++ steps 1 TParser ++
       [ask ReqFlush false; ask ReqFlush true; ask ReqDrop false] ++ steps 9 TControl)) =
  Some (CIdle, false, 1, PHere).
Proof. by vm_compute. Qed.

(** The subtraction the comment protects in one branch is done unprotected
    for the latency: a time stamp near the smallest one overflows. *)
Example latency_overflows p f s : frame_late p f (- 2 ^ 63 + 1) 1 s = Crash.
Proof. done. Qed.

Definition in_drop_loop (c : ctl_pc) : bool :=
  match c with
  | CDropTest | CDropPeek | CDropGet _ | CDropFrame _ | CDropPacket _ | CDropSleep => true | _ => false
  end.

(** When the decoder has left on an error before it was flushed, the loop
    of [avbox_player_drop] never ends. *)
Lemma drop_never_ends rescale frames_size packets_size dvd s s' :
  d_pc (dec s) = DExited -> video_decoder_flushed (ln s) = false -> in_drop_loop (ctl s) = true ->
  rtc (step rescale frames_size packets_size dvd) s s' -> in_drop_loop (ctl s') = true.
Proof.
  intros Hd Hf Hc Hr.
  assert (d_pc (dec s') = DExited /\ video_decoder_flushed (ln s') = false /\ in_drop_loop (ctl s') = true)
    as (_ & _ & ?); [|done].
  apply (rtc_invariant (step rescale frames_size packets_size dvd)
    (fun s => d_pc (dec s) = DExited /\ video_decoder_flushed (ln s) = false /\ in_drop_loop (ctl s) = true))
    with (x := s); [|done|done].
  clear. intros x y (Hd & Hf & Hc) (t & a & _ & H). destruct t; cbn in H; open_code H; rewrite ?Hd, ?Hf in H; paths H.
  all: split_and!; cbn in *; try done; congruence.
Qed.
