(* ===== verification/AudioDecoder.v ===== *)
(** * The audio pipeline of the player (src/lib/ui/player.c)

    The threads that carry sound from the file to the audio stream: the loop
    of the stream parser with its choice of an audio track, the audio decoder
    ([avbox_player_audio_decode]), the callback of the audio stream that
    gives frames back ([avbox_player_audiostream_callback]) and the audio
    side of what the control thread does while they run ([control_step]:
    dropping, flushing, changing the track).  They share the pools of frames
    and encoded packets, the queue of encoded packets, two checkpoints and
    the flags of the player.

    Every thread is a program counter with its local variables; a step is
    the code up to and including one access to shared state.  The answers
    of FFmpeg, of the allocator and of the audio stream are in [answers].
    The audio stream is a queue of frames and clock settings, which is what
    the development of src/lib/audio.c proves of it.  A sound is numbered
    when the filter graph delivers it.  [sound_history] records what
    happened and is never read by the code; [video_lane] are the encoded
    packets in the hands of the video side. *)

From S2P Require Import Prelude Holders.

(** ** Data *)

Record sound := Sound { pts : Z; number : nat }.

(** A pointer to a filter of the graph: not initialised, NULL, valid, or
    left over from a graph that was destroyed. *)
Inductive filter_ctx := Garbage | Null | Live | Freed.

(** What the audio stream has queued. *)
Inductive item := Clock (time : Z) | Data (frame : Z).

(** What the decoder did to the audio stream: set its clock (or failed to),
    wrote a sound, lost one, or started over after a flush. *)
Inductive mark := SetClock (time : Z) | ClockFailed | Written (x : sound) | Lost (x : sound) | Restarted.

(** A sound that was played, or dropped by the control thread. *)
Inductive fate := Heard (x : sound) | Cut (x : sound).

Definition fate_sound (f : fate) : sound := match f with Heard x | Cut x => x end.

(** Why the decoder left its loop: the queue was closed, an error it
    reported, a filter graph that could not be built (reported too), or an
    error it kept to itself. *)
Inductive reason := Ended | Reported | NoGraph | Silent.

Inductive par_pc :=
  | PTest | PHere | PAcquire | PRead (a : Z) | PPut (a : Z) | PFree (a : Z) (more : bool) | PExit | PExited.

Inductive dec_pc :=
  | AStart | AHere | APeek | AAgain | AOpen (a : Z) | ASend (a : Z) | AReceive (a : option Z)
  | APullTop (a : option Z) | APull (a : option Z) (f : Z) | AClock (a : option Z) (f : Z)
  | AWrite (a : option Z) (f : Z) | AGet (a : Z) | AFree (a : Z)
  | AFlushed | ADestroy (f : option Z)
  | AExit (r : reason) | AClose (r : reason) | ACloseGraph (r : reason) (f : Z) | AExited (r : reason).

Inductive ctl_pc :=
  | CIdle | CHaltParser | CHaltDecoder | CDropTest | CDropPeek | CDropGet (a : Z) | CDropFree (a : Z)
  | CDropYield | CDropWait | CDropStream | CResumeParser | CResumeDecoder | CFlushParser | CFlushTest.

(** ** State *)

Record sound_heap := SoundHeap {
  frame_pool : list Z; av_packet_pool : list Z;
  frames : gmap Z (option sound); av_packets : gmap Z Z
}.

Definition with_frame_pool (v : list Z) (h : sound_heap) : sound_heap :=
  SoundHeap v (av_packet_pool h) (frames h) (av_packets h).
Definition with_av_packet_pool (v : list Z) (h : sound_heap) : sound_heap :=
  SoundHeap (frame_pool h) v (frames h) (av_packets h).
Definition with_frames (v : gmap Z (option sound)) (h : sound_heap) : sound_heap :=
  SoundHeap (frame_pool h) (av_packet_pool h) v (av_packets h).
Definition with_av_packets (v : gmap Z Z) (h : sound_heap) : sound_heap :=
  SoundHeap (frame_pool h) (av_packet_pool h) (frames h) v.

Record sound_decoder := SoundDecoder {
  d_pc : dec_pc; just_flushed : bool; keep_going : bool; time_set : bool;
  flush_graph : bool; filter_graph : bool; buffersrc : filter_ctx; buffersink : filter_ctx;
  dec_ctx : bool; stream_index : Z
}.

Definition with_d_pc (v : dec_pc) (d : sound_decoder) : sound_decoder :=
  SoundDecoder v (just_flushed d) (keep_going d) (time_set d) (flush_graph d) (filter_graph d)
    (buffersrc d) (buffersink d) (dec_ctx d) (stream_index d).
Definition with_just_flushed (v : bool) (d : sound_decoder) : sound_decoder :=
  SoundDecoder (d_pc d) v (keep_going d) (time_set d) (flush_graph d) (filter_graph d) (buffersrc
    d) (buffersink d) (dec_ctx d) (stream_index d).
Definition with_keep_going (v : bool) (d : sound_decoder) : sound_decoder :=
  SoundDecoder (d_pc d) (just_flushed d) v (time_set d) (flush_graph d) (filter_graph d)
    (buffersrc d) (buffersink d) (dec_ctx d) (stream_index d).
Definition with_time_set (v : bool) (d : sound_decoder) : sound_decoder :=
  SoundDecoder (d_pc d) (just_flushed d) (keep_going d) v (flush_graph d) (filter_graph d)
    (buffersrc d) (buffersink d) (dec_ctx d) (stream_index d).
Definition with_flush_graph (v : bool) (d : sound_decoder) : sound_decoder :=
  SoundDecoder (d_pc d) (just_flushed d) (keep_going d) (time_set d) v (filter_graph d)
    (buffersrc d) (buffersink d) (dec_ctx d) (stream_index d).
Definition with_filter_graph (v : bool) (d : sound_decoder) : sound_decoder :=
  SoundDecoder (d_pc d) (just_flushed d) (keep_going d) (time_set d) (flush_graph d) v (buffersrc
    d) (buffersink d) (dec_ctx d) (stream_index d).
Definition with_buffersrc (v : filter_ctx) (d : sound_decoder) : sound_decoder :=
  SoundDecoder (d_pc d) (just_flushed d) (keep_going d) (time_set d) (flush_graph d)
    (filter_graph d) v (buffersink d) (dec_ctx d) (stream_index d).
Definition with_buffersink (v : filter_ctx) (d : sound_decoder) : sound_decoder :=
  SoundDecoder (d_pc d) (just_flushed d) (keep_going d) (time_set d) (flush_graph d)
    (filter_graph d) (buffersrc d) v (dec_ctx d) (stream_index d).
Definition with_dec_ctx (v : bool) (d : sound_decoder) : sound_decoder :=
  SoundDecoder (d_pc d) (just_flushed d) (keep_going d) (time_set d) (flush_graph d)
    (filter_graph d) (buffersrc d) (buffersink d) v (stream_index d).
Definition with_stream_index (v : Z) (d : sound_decoder) : sound_decoder :=
  SoundDecoder (d_pc d) (just_flushed d) (keep_going d) (time_set d) (flush_graph d)
    (filter_graph d) (buffersrc d) (buffersink d) (dec_ctx d) v.

Record sound_lane := SoundLane {
  audio_packets_q : list Z; packets_closed : bool; audio_decoder_flushed : bool; flushing_audio :
    bool;
  quit : bool; p_count : Z; d_count : Z; audio_stream_index : Z; audio_stream_id : Z;
  stream_q : list item; playing : option Z
}.

Definition with_audio_packets_q (v : list Z) (l : sound_lane) : sound_lane :=
  SoundLane v (packets_closed l) (audio_decoder_flushed l) (flushing_audio l) (quit l) (p_count
    l) (d_count l) (audio_stream_index l) (audio_stream_id l) (stream_q l) (playing l).
Definition with_packets_closed (v : bool) (l : sound_lane) : sound_lane :=
  SoundLane (audio_packets_q l) v (audio_decoder_flushed l) (flushing_audio l) (quit l) (p_count
    l) (d_count l) (audio_stream_index l) (audio_stream_id l) (stream_q l) (playing l).
Definition with_audio_decoder_flushed (v : bool) (l : sound_lane) : sound_lane :=
  SoundLane (audio_packets_q l) (packets_closed l) v (flushing_audio l) (quit l) (p_count l)
    (d_count l) (audio_stream_index l) (audio_stream_id l) (stream_q l) (playing l).
Definition with_flushing_audio (v : bool) (l : sound_lane) : sound_lane :=
  SoundLane (audio_packets_q l) (packets_closed l) (audio_decoder_flushed l) v (quit l) (p_count
    l) (d_count l) (audio_stream_index l) (audio_stream_id l) (stream_q l) (playing l).
Definition with_quit (v : bool) (l : sound_lane) : sound_lane :=
  SoundLane (audio_packets_q l) (packets_closed l) (audio_decoder_flushed l) (flushing_audio l) v
    (p_count l) (d_count l) (audio_stream_index l) (audio_stream_id l) (stream_q l) (playing l).
Definition with_p_count (v : Z) (l : sound_lane) : sound_lane :=
  SoundLane (audio_packets_q l) (packets_closed l) (audio_decoder_flushed l) (flushing_audio l)
    (quit l) v (d_count l) (audio_stream_index l) (audio_stream_id l) (stream_q l) (playing l).
Definition with_d_count (v : Z) (l : sound_lane) : sound_lane :=
  SoundLane (audio_packets_q l) (packets_closed l) (audio_decoder_flushed l) (flushing_audio l)
    (quit l) (p_count l) v (audio_stream_index l) (audio_stream_id l) (stream_q l) (playing l).
Definition with_audio_stream_index (v : Z) (l : sound_lane) : sound_lane :=
  SoundLane (audio_packets_q l) (packets_closed l) (audio_decoder_flushed l) (flushing_audio l)
    (quit l) (p_count l) (d_count l) v (audio_stream_id l) (stream_q l) (playing l).
Definition with_audio_stream_id (v : Z) (l : sound_lane) : sound_lane :=
  SoundLane (audio_packets_q l) (packets_closed l) (audio_decoder_flushed l) (flushing_audio l)
    (quit l) (p_count l) (d_count l) (audio_stream_index l) v (stream_q l) (playing l).
Definition with_stream_q (v : list item) (l : sound_lane) : sound_lane :=
  SoundLane (audio_packets_q l) (packets_closed l) (audio_decoder_flushed l) (flushing_audio l)
    (quit l) (p_count l) (d_count l) (audio_stream_index l) (audio_stream_id l) v (playing l).
Definition with_playing (v : option Z) (l : sound_lane) : sound_lane :=
  SoundLane (audio_packets_q l) (packets_closed l) (audio_decoder_flushed l) (flushing_audio l)
    (quit l) (p_count l) (d_count l) (audio_stream_index l) (audio_stream_id l) (stream_q l) v.

Record sound_history := SoundHistory {
  lost_frames : list Z; lost_packets : list Z; video_lane : list Z;
  serial : nat; tape : list mark; fates : list fate
}.

Definition with_lost_frames (v : list Z) (g : sound_history) : sound_history :=
  SoundHistory v (lost_packets g) (video_lane g) (serial g) (tape g) (fates g).
Definition with_lost_packets (v : list Z) (g : sound_history) : sound_history :=
  SoundHistory (lost_frames g) v (video_lane g) (serial g) (tape g) (fates g).
Definition with_video_lane (v : list Z) (g : sound_history) : sound_history :=
  SoundHistory (lost_frames g) (lost_packets g) v (serial g) (tape g) (fates g).
Definition with_serial (v : nat) (g : sound_history) : sound_history :=
  SoundHistory (lost_frames g) (lost_packets g) (video_lane g) v (tape g) (fates g).
Definition with_tape (v : list mark) (g : sound_history) : sound_history :=
  SoundHistory (lost_frames g) (lost_packets g) (video_lane g) (serial g) v (fates g).
Definition with_fates (v : list fate) (g : sound_history) : sound_history :=
  SoundHistory (lost_frames g) (lost_packets g) (video_lane g) (serial g) (tape g) v.

Record track := Track {
  mem : sound_heap; ln : sound_lane; par : par_pc; dec : sound_decoder; ctl : ctl_pc; hist :
    sound_history
}.

Definition set_mem (v : sound_heap) (s : track) : track :=
  Track v (ln s) (par s) (dec s) (ctl s) (hist s).
Definition set_ln (v : sound_lane) (s : track) : track :=
  Track (mem s) v (par s) (dec s) (ctl s) (hist s).
Definition set_par (v : par_pc) (s : track) : track :=
  Track (mem s) (ln s) v (dec s) (ctl s) (hist s).
Definition set_dec (v : sound_decoder) (s : track) : track :=
  Track (mem s) (ln s) (par s) v (ctl s) (hist s).
Definition set_ctl (v : ctl_pc) (s : track) : track :=
  Track (mem s) (ln s) (par s) (dec s) v (hist s).
Definition set_hist (v : sound_history) (s : track) : track :=
  Track (mem s) (ln s) (par s) (dec s) (ctl s) v.

(** Answers of the environment, for the steps that ask for them. *)
Inductive send_result := SendOk | SendAgain | SendInvalid | SendNoMemory | SendError.
Inductive receive_result := ReceiveFrame | ReceiveEof | ReceiveAgain | ReceiveError.
Inductive sink_result := SinkFrame (pts : Z) | SinkEof | SinkAgain | SinkError.
Inductive read_result := ReadAudio (index id : Z) | ReadVideo | ReadOther | ReadEnd.

(** [avbox_ffmpegutil_initaudiofilters]: the graph was built; could not be
    allocated; was allocated but nothing else; has no source; has no sink;
    or was refused after both were created. *)
Inductive graph_result := GraphOk | GraphNone | GraphEmpty | GraphNoSource | GraphNoSink | GraphRefused.

(** [avbox_audiostream_write]: queued; nothing to queue (a frame without
    samples); full; no packet; or refused by the queue of the stream, in
    which case the packet, and the frame with it, is released. *)
Inductive write_result := WriteOk | WriteEmpty | WriteAgain | WriteNoPacket | WriteRefused.

Inductive request := ReqDrop | ReqFlush | ReqTrack (next : Z) | ReqStream (id : Z) | ReqQuit.

Record answers := Answers {
  a_alloc : option Z; a_frame : bool; a_send : send_result; a_receive : receive_result; a_graph : graph_result;
  a_feed : bool; a_sink : sink_result; a_setclock : bool; a_write : write_result; a_best : Z; a_codec : bool;
  a_read : read_result; a_put : option errno; a_request : request; a_blocking : bool; a_wake : bool
}.

(** A step is taken, has to wait, or is an abort or undefined behaviour. *)
Inductive outcome := Next (s : track) | Blocked | Crash.

Definition need {A} (o : option A) (k : A -> outcome) : outcome :=
  match o with Some x => k x | None => Crash end.

Definition upd_mem (f : sound_heap -> sound_heap) (s : track) : track := set_mem (f (mem s)) s.
Definition upd_ln (f : sound_lane -> sound_lane) (s : track) : track := set_ln (f (ln s)) s.
Definition upd_dec (f : sound_decoder -> sound_decoder) (s : track) : track := set_dec (f (dec s)) s.
Definition upd_hist (f : sound_history -> sound_history) (s : track) : track := set_hist (f (hist s)) s.

Definition goto (pc : dec_pc) (s : track) : track := upd_dec (with_d_pc pc) s.
Definition log (m : mark) (s : track) : track := upd_hist (fun g => with_tape (tape g ++ [m]) g) s.
Definition log_fate (f : fate) (s : track) : track := upd_hist (fun g => with_fates (fates g ++ [f]) g) s.

(** ** The pools *)

(** A new packet has no stream yet. *)
Definition acquire_av_packet (alloc : option Z) (s : track) : option (Z * track) :=
  match pool_take (av_packet_pool (mem s)) with
  | Some (a, l) => Some (a, upd_mem (with_av_packet_pool l) s)
  | None => a ← alloc; Some (a, upd_mem (fun h => with_av_packets (<[a := -1]> (av_packets h)) h) s)
  end.

Definition release_av_packet (a : Z) (s : track) : track :=
  upd_mem (fun h => with_av_packet_pool (a :: av_packet_pool h) h) s.

Definition acquire_av_frame (alloc : option Z) (s : track) : option (Z * track) :=
  match pool_take (frame_pool (mem s)) with
  | Some (f, l) => Some (f, upd_mem (with_frame_pool l) s)
  | None => f ← alloc; Some (f, upd_mem (fun h => with_frames (<[f := None]> (frames h)) h) s)
  end.

Definition release_av_frame (f : Z) (s : track) : track :=
  upd_mem (fun h => with_frame_pool (f :: frame_pool h) h) s.

Definition fill_frame (f : Z) (x : option sound) (s : track) : track :=
  upd_mem (fun h => with_frames (<[f := x]> (frames h)) h) s.

Definition sound_of (f : Z) (s : track) : option sound := o ← frames (mem s) !! f; o.

(** The packets of the audio stream that carry a frame have it as their
    handle. *)
Definition avbox_player_audiostream_callback (f : Z) (s : track) : track :=
  release_av_frame f (fill_frame f None s).

(** ** Checkpoints: where a thread is halted or its checkpoint disabled *)

Definition parser_halted (s : track) : bool :=
  match par s with PHere => 0 <? p_count (ln s) | PExited => true | _ => false end.

Definition decoder_halted (s : track) : bool :=
  match d_pc (dec s) with
  | AHere => 0 <? d_count (ln s) | AStart | AClose _ | ACloseGraph _ _ | AExited _ => true | _ => false
  end.

Section track.
(** [av_rescale_q] from the time base of the stream to microseconds. *)
Variable rescale : Z -> Z.
(** The size of the packets queue, the number of streams in the file, and
    whether the stream is one (a DVD) that can be blocked inside of a read. *)
Variables (packets_size nb_streams : Z) (dvd : bool).

Definition stream_exists (i : Z) : bool := (0 <=? i) && (i <? nb_streams).

(** ** The stream parser *)

(** The parser waits for the stream that was asked for. *)
Definition choose_stream (index id : Z) (l : sound_lane) : Z :=
  if audio_stream_index l =? -2 then
    if negb (audio_stream_id l =? -1) then
      if id =? audio_stream_id l then index else audio_stream_index l
    else -1
  else audio_stream_index l.

Definition stream_parse_loop (a : answers) (s : track) : outcome :=
  match par s with
  | PTest => Next (set_par (if quit (ln s) then PExit else PHere) s)
  | PHere => if 0 <? p_count (ln s) then Blocked else Next (set_par PAcquire s)
  | PAcquire => need (acquire_av_packet (a_alloc a) s) (fun '(x, s) => Next (set_par (PRead x) s))
  | PRead x =>
      match a_read a with
      | ReadAudio index id =>
          let s := upd_mem (fun h => with_av_packets (<[x := index]> (av_packets h)) h) s in
          let s := upd_ln (fun l => with_audio_stream_index (choose_stream index id l) l) s in
          Next (set_par (if index =? audio_stream_index (ln s) then PPut x else PFree x true) s)
      | ReadVideo => Next (set_par PTest (upd_hist (fun g => with_video_lane (video_lane g ++ [x]) g) s))
      | ReadOther => Next (set_par (PFree x true) s)
      | ReadEnd => Next (set_par PExit (upd_hist (fun g => with_lost_packets (x :: lost_packets g) g) s))
      end
  | PPut x =>
      match a_put a with
      | None =>
          if len (audio_packets_q (ln s)) <? packets_size
          then Next (set_par PTest (upd_ln (fun l => with_audio_packets_q (audio_packets_q l ++ [x]) l) s))
          else Blocked
      | Some EAGAIN => Next s
      | Some _ => Next (set_par (PFree x false) s)
      end
  | PFree x more => Next (set_par (if more then PTest else PExit) (release_av_packet x s))
  | PExit => Next (set_par PExited (upd_ln (fun l => with_quit true (with_packets_closed true l)) s))
  | PExited => Blocked
  end.

(** The video side gives an encoded packet back. *)
Definition video_step (s : track) : outcome :=
  match video_lane (hist s) with
  | [] => Blocked
  | x :: l => Next (release_av_packet x (upd_hist (with_video_lane l) s))
  end.

(** ** The audio decoder *)

Definition begin_flush (s : track) : track :=
  upd_dec (fun d => with_d_pc (AReceive None) (with_keep_going true (with_just_flushed true d))) s.

(** The flush packet where its answer is looked at. *)
Definition send_flush (a : answers) (s : track) : outcome :=
  if dec_ctx (dec s) then
    match a_send a with
    | SendOk => Next (begin_flush s)
    | _ => Next (goto (AExit Reported) s)
    end
  else Crash.

(** A packet is at the head of the queue. *)
Definition peeked (a : answers) (x : Z) (s : track) : outcome :=
  need (av_packets (mem s) !! x) (fun index =>
    if dec_ctx (dec s) then
      if index =? stream_index (dec s) then Next (goto (ASend x) s)
      else if audio_decoder_flushed (ln s) then Next (goto (AOpen x) (upd_dec (with_dec_ctx false) s))
      else send_flush a s
    else Next (goto (AOpen x) s)).

(** [avbox_ffmpegutil_opencodeccontext]. *)
Definition open_codec (a : answers) (x : Z) (s : track) : outcome :=
  let i := if audio_stream_index (ln s) =? -1 then a_best a else audio_stream_index (ln s) in
  let s := upd_ln (with_audio_stream_index i) s in
  if i =? -1 then Next (goto (AExit Silent) s)
  else if stream_exists i then
    if a_codec a then
      need (av_packets (mem s) !! x) (fun index =>
        Next (log Restarted (upd_dec (fun d =>
          with_d_pc (ASend x) (with_time_set false (with_stream_index index (with_dec_ctx true d)))) s)))
    else Next (goto (AExit Silent) s)
  else Crash.

Definition feed_decoder (a : answers) (s : track) : outcome :=
  match d_pc (dec s) with
  | APeek =>
      match audio_packets_q (ln s) with
      | x :: _ => peeked a x s
      | [] =>
          if packets_closed (ln s) then
            if negb (dec_ctx (dec s)) || audio_decoder_flushed (ln s) then Next (goto (AExit Ended) s)
            else send_flush a s
          else if flushing_audio (ln s) || a_wake a then Next (goto AAgain s) else Blocked
      end
  | AAgain =>
      if audio_decoder_flushed (ln s) || negb (flushing_audio (ln s)) then Next (goto AHere s)
      else if dec_ctx (dec s) then Next (begin_flush s) else Crash
  | AOpen x => open_codec a x s
  | ASend x =>
      let s := upd_dec (with_keep_going true) s in
      let sent := upd_ln (with_audio_decoder_flushed false) s in
      if dec_ctx (dec s) then
        match a_send a with
        | SendOk | SendInvalid => Next (goto (AReceive (Some x)) sent)
        | SendAgain => Next (goto (AReceive None) sent)
        | SendNoMemory => Crash
        | SendError => Next (goto (AExit Reported) s)
        end
      else Crash
  | _ => Blocked
  end.

(** The outcome of building the filter graph. *)
Definition initaudiofilters (g : graph_result) (d : sound_decoder) : sound_decoder :=
  match g with
  | GraphNone => d
  | GraphEmpty => with_filter_graph true d
  | GraphNoSource => with_filter_graph true (with_buffersrc Null d)
  | GraphNoSink => with_filter_graph true (with_buffersrc Live (with_buffersink Null d))
  | GraphOk | GraphRefused => with_filter_graph true (with_buffersrc Live (with_buffersink Live d))
  end.

(** [avcodec_receive_frame] and the feeding of the filter graph. *)
Definition receive_frame (a : answers) (x : option Z) (s : track) : outcome :=
  let d := dec s in
  let pull d := Next (set_dec (with_d_pc (APullTop x) d) s) in
  let feed d := match buffersrc d with
                | Live => pull (if a_feed a then d else with_keep_going false d)
                | _ => Crash
                end in
  if dec_ctx d then
    match a_receive a with
    | ReceiveEof =>
        if filter_graph d then
          match buffersrc d with
          | Live => if a_feed a then pull (with_keep_going false (with_flush_graph true d))
                    else Next (goto (AExit Reported) s)
          | _ => Crash
          end
        else pull (with_keep_going false d)
    | ReceiveAgain | ReceiveError => if just_flushed d then Next s else pull (with_keep_going false d)
    | ReceiveFrame =>
        if filter_graph d then feed d
        else
          let d := initaudiofilters (a_graph a) d in
          match a_graph a with
          | GraphOk => feed d
          | _ => Next (set_dec (with_d_pc (AExit NoGraph) d) s)
          end
    end
  else Crash.

(** The end of the inner loop: [keep_going], then the encoded packet. *)
Definition end_of_pull (x : option Z) (s : track) : track :=
  if keep_going (dec s) then goto (AReceive x) s
  else match x with Some a => goto (AGet a) s | None => goto AFlushed s end.

(** [av_buffersink_get_frame]. *)
Definition pull_frame (a : answers) (x : option Z) (f : Z) (s : track) : outcome :=
  match buffersink (dec s) with
  | Live =>
      match a_sink a with
      | SinkEof => Next (end_of_pull x (upd_dec (with_flush_graph false) (release_av_frame f s)))
      | SinkAgain =>
          let s := release_av_frame f s in
          if flush_graph (dec s) then Next (goto (APullTop x) s) else Next (end_of_pull x s)
      | SinkError => Next (goto (AExit Reported) (release_av_frame f s))
      | SinkFrame t =>
          let s := fill_frame f (Some (Sound t (serial (hist s)))) s in
          let s := upd_hist (fun g => with_serial (S (serial g)) g) s in
          Next (goto (if time_set (dec s) then AWrite x f else AClock x f) s)
      end
  | _ => Crash
  end.

(** A filtered frame goes to the audio stream, behind its clock when it is
    the first one. *)
Definition write_frame (a : answers) (s : track) : outcome :=
  match d_pc (dec s) with
  | AClock x f =>
      need (sound_of f s) (fun y =>
        if stream_exists (audio_stream_index (ln s)) then
          let s := goto (AWrite x f) (upd_dec (with_time_set true) s) in
          let time := rescale (pts y) in
          if a_setclock a
          then Next (log (SetClock time) (upd_ln (fun l => with_stream_q (stream_q l ++ [Clock time]) l) s))
          else Next (log ClockFailed s)
        else Crash)
  | AWrite x f =>
      need (sound_of f s) (fun y =>
        let s' := goto (APullTop x) s in
        match a_write a with
        | WriteOk => Next (log (Written y) (upd_ln (fun l => with_stream_q (stream_q l ++ [Data f]) l) s'))
        | WriteEmpty => Next (log (Lost y) (upd_hist (fun g => with_lost_frames (f :: lost_frames g) g) s'))
        | WriteAgain => Next s
        | WriteNoPacket => Next (log (Lost y) (release_av_frame f s'))
        | WriteRefused =>
            Next (log (Lost y) (release_av_frame f (avbox_player_audiostream_callback f s')))
        end)
  | _ => Blocked
  end.

(** [avbox_player_destroy_filter_graph]. *)
Definition avbox_player_destroy_filter_graph (d : sound_decoder) : option sound_decoder :=
  let free c := match c with Live => Some Freed | Null => Some Null | _ => None end in
  sink ← free (buffersink d);
  src ← free (buffersrc d);
  Some (with_buffersink sink (with_buffersrc src d)).

Definition flushed (s : track) : track :=
  log Restarted (upd_dec (fun d =>
    with_d_pc AHere (with_time_set false (with_just_flushed false (with_filter_graph false d))))
    (upd_ln (with_audio_decoder_flushed true) s)).

(** The encoded packet is dequeued; after a flush the codec starts over. *)
Definition finish_packet (a : answers) (s : track) : outcome :=
  match d_pc (dec s) with
  | AGet x =>
      match audio_packets_q (ln s) with
      | y :: q =>
          let s := upd_ln (with_audio_packets_q q) s in
          if y =? x then Next (goto (AFree x) s)
          else Next (goto (AExit Reported) (upd_hist (fun g => with_lost_packets (y :: lost_packets g) g) s))
      | [] => if packets_closed (ln s) || a_wake a then Next (goto (AExit Reported) s) else Blocked
      end
  | AFree x => Next (goto AFlushed (release_av_packet x s))
  | AFlushed =>
      if just_flushed (dec s) then
        match acquire_av_frame (a_alloc a) s with
        | Some (f, s) => Next (goto (ADestroy (Some f)) s)
        | None => Next (goto (ADestroy None) s)
        end
      else Next (goto AHere s)
  | ADestroy o =>
      if dec_ctx (dec s) then
        match o with
        | None => Next (flushed s)
        | Some f =>
            need (avbox_player_destroy_filter_graph (dec s)) (fun d =>
              Next (flushed (release_av_frame f (set_dec d s))))
        end
      else Crash
  | _ => Blocked
  end.

(** From the label [end]. *)
Definition decoder_exit (a : answers) (s : track) : outcome :=
  match d_pc (dec s) with
  | AExit r => Next (goto (AClose r) s)
  | AClose r =>
      if filter_graph (dec s) then
        match acquire_av_frame (a_alloc a) s with
        | Some (f, s) => Next (goto (ACloseGraph r f) s)
        | None => Next (goto (AExited r) s)
        end
      else Next (goto (AExited r) s)
  | ACloseGraph r f =>
      need (avbox_player_destroy_filter_graph (dec s)) (fun d =>
        Next (goto (AExited r) (release_av_frame f (set_dec d s))))
  | _ => Blocked
  end.

Definition avbox_player_audio_decode (a : answers) (s : track) : outcome :=
  match d_pc (dec s) with
  | AStart =>
      if a_frame a then Next (goto AHere (upd_ln (with_audio_decoder_flushed true) s))
      else Next (goto (AExit Silent) s)
  | AHere => if 0 <? d_count (ln s) then Blocked else Next (goto APeek s)
  | APeek | AAgain | AOpen _ | ASend _ => feed_decoder a s
  | AReceive x => receive_frame a x s
  | APullTop x =>
      if filter_graph (dec s) then
        match acquire_av_frame (a_alloc a) s with
        | Some (f, s) => Next (goto (APull x f) s)
        | None => Next (goto (AExit Reported) s)
        end
      else Next (end_of_pull x s)
  | APull x f => pull_frame a x f s
  | AClock _ _ | AWrite _ _ => write_frame a s
  | AGet _ | AFree _ | AFlushed | ADestroy _ => finish_packet a s
  | AExit _ | AClose _ | ACloseGraph _ _ => decoder_exit a s
  | AExited _ => Blocked
  end.

(** ** The audio stream *)

(** The output thread of the audio stream plays what is queued and gives
    each frame back. *)
Definition stream_step (s : track) : outcome :=
  match playing (ln s) with
  | Some f => Next (avbox_player_audiostream_callback f (upd_ln (with_playing None) s))
  | None =>
      match stream_q (ln s) with
      | [] => Blocked
      | Clock _ :: q => Next (upd_ln (with_stream_q q) s)
      | Data f :: q =>
          need (sound_of f s) (fun y =>
            Next (log_fate (Heard y) (upd_ln (fun l => with_playing (Some f) (with_stream_q q l)) s)))
      end
  end.

(** ** The control thread *)

Definition halt_parser (s : track) : track := upd_ln (fun l => with_p_count (p_count l + 1) l) s.
Definition continue_parser (s : track) : track := upd_ln (fun l => with_p_count (p_count l - 1) l) s.
Definition halt_decoder (s : track) : track := upd_ln (fun l => with_d_count (d_count l + 1) l) s.
Definition continue_decoder (s : track) : track := upd_ln (fun l => with_d_count (d_count l - 1) l) s.

Definition avbox_player_stream_checkpoint_wait (a : answers) (s : track) : bool :=
  parser_halted s || (dvd && a_blocking a && match par s with PRead _ => true | _ => false end).

(** A message arrives: a seek or a stop, a flush, a change of the track (the
    next stream, or the one with an identifier, or none), the end. *)
Definition control_idle (a : answers) (s : track) : outcome :=
  match a_request a with
  | ReqDrop => Next (set_ctl CHaltParser (halt_parser (upd_ln (with_flushing_audio true) s)))
  | ReqFlush =>
      Next (if flushing_audio (ln s) then set_ctl CFlushTest s else set_ctl CFlushParser (halt_parser s))
  | ReqTrack next =>
      if negb (next =? -1) then Next (upd_ln (with_audio_stream_index next) s) else Next s
  | ReqStream id =>
      if negb (id =? -1)
      then Next (upd_ln (fun l => with_audio_stream_index (-2) (with_audio_stream_id id l)) s)
      else Next (upd_ln (with_audio_stream_index (-1)) s)
  | ReqQuit => Next (upd_ln (with_quit true) s)
  end.

(** The loop of [avbox_player_drop] over the encoded packets. *)
Definition drop_packets (a : answers) (s : track) : outcome :=
  match ctl s with
  | CDropTest =>
      match audio_packets_q (ln s), audio_decoder_flushed (ln s) with
      | [], true => Next (set_ctl CDropStream s)
      | _, _ => Next (set_ctl CDropPeek s)
      end
  | CDropPeek =>
      match audio_packets_q (ln s) with
      | x :: _ => Next (set_ctl (CDropGet x) s)
      | [] => Next (set_ctl CDropYield (continue_decoder s))
      end
  | CDropGet x =>
      match audio_packets_q (ln s) with
      | y :: q => if y =? x then Next (set_ctl (CDropFree x) (upd_ln (with_audio_packets_q q) s)) else Crash
      | [] => if packets_closed (ln s) || a_wake a then Crash else Blocked
      end
  | CDropFree x => Next (set_ctl CDropTest (release_av_packet x s))
  | CDropYield => Next (set_ctl CDropWait (halt_decoder s))
  | CDropWait => if decoder_halted s then Next (set_ctl CDropTest s) else Blocked
  | _ => Blocked
  end.

(** [avbox_audiostream_drop]; at its end the flags are cleared. *)
Definition drop_stream (s : track) : outcome :=
  match stream_q (ln s) with
  | [] => Next (set_ctl CResumeParser (upd_ln (with_flushing_audio false) s))
  | Clock _ :: q => Next (upd_ln (with_stream_q q) s)
  | Data f :: q =>
      need (sound_of f s) (fun y =>
        Next (log_fate (Cut y) (avbox_player_audiostream_callback f (upd_ln (with_stream_q q) s))))
  end.

(** [avbox_player_halt], [avbox_player_drop] and [avbox_player_continue]. *)
Definition drop_step (a : answers) (s : track) : outcome :=
  match ctl s with
  | CHaltParser =>
      if avbox_player_stream_checkpoint_wait a s then Next (set_ctl CHaltDecoder (halt_decoder s)) else Blocked
  | CHaltDecoder => if decoder_halted s then Next (set_ctl CDropTest s) else Blocked
  | CDropStream => drop_stream s
  | CResumeParser => Next (set_ctl CResumeDecoder (continue_parser s))
  | CResumeDecoder => Next (set_ctl CIdle (continue_decoder s))
  | _ => drop_packets a s
  end.

(** The audio side of [avbox_player_flush]. *)
Definition flush_step (a : answers) (s : track) : outcome :=
  match ctl s with
  | CFlushParser =>
      if avbox_player_stream_checkpoint_wait a s
      then Next (set_ctl CFlushTest (upd_ln (with_flushing_audio true) s)) else Blocked
  | CFlushTest =>
      match audio_decoder_flushed (ln s), stream_q (ln s), audio_packets_q (ln s) with
      | true, [], [] => Next (set_ctl CIdle (continue_parser (upd_ln (with_flushing_audio false) s)))
      | _, _, _ => Next (set_ctl CIdle s)
      end
  | _ => Blocked
  end.

Definition control_step (a : answers) (s : track) : outcome :=
  match ctl s with
  | CIdle => control_idle a s
  | CFlushParser | CFlushTest => flush_step a s
  | _ => drop_step a s
  end.

(** ** Start and runs *)

Definition track_start (frame_mems av_mems : list Z) (index : Z) : track :=
  Track (SoundHeap frame_mems av_mems (list_to_map (map (fun f => (f, None)) frame_mems))
           (list_to_map (map (fun x => (x, -1)) av_mems)))
    (SoundLane [] false true false false 0 0 index (-1) [] None) PTest
    (SoundDecoder AStart false false false false false Garbage Null false (-1))
    CIdle (SoundHistory [] [] [] 0 [] []).

Inductive thread := TParser | TVideo | TDecoder | TStream | TControl.

#[export] Instance thread_eq_dec : EqDecision thread.
Proof. solve_decision. Defined.

Definition exec (t : thread) (a : answers) (s : track) : outcome :=
  match t with
  | TParser => stream_parse_loop a s
  | TVideo => video_step s
  | TDecoder => avbox_player_audio_decode a s
  | TStream => stream_step s
  | TControl => control_step a s
  end.

End track.
