(* ===== verification/SoundTrack.v ===== *)
(** * What the audio pipeline guarantees

    Proofs about [AudioDecoder]: in any interleaving of the parser, the
    audio decoder, the audio stream and the control thread frames and
    packets have one holder each, the decoder fails only in the ways that
    are listed ([fault], [hazard]), sounds reach the audio stream in order, behind
    the clock of the first one, and a drop leaves the pipeline empty. *)

From S2P Require Import Prelude Holders AudioDecoder.

Ltac inv_next :=
  repeat match goal with
  | H : Next _ = Next _ |- _ => injection H as <-
  | H : Blocked = Next _ |- _ => discriminate H
  | H : Crash = Next _ |- _ => discriminate H
  | H : Next _ = Crash |- _ => discriminate H
  | H : Blocked = Crash |- _ => discriminate H
  | H : Some _ = Some _ |- _ => injection H as H; subst
  | H : None = Some _ |- _ => discriminate H
  | H : (_, _) = (_, _) |- _ => injection H as ? ?; subst
  end.

(** Split the code of a step into its paths. *)
Ltac paths H :=
  repeat (cbn in H; first [
    match type of H with
    | context [match ?x with _ => _ end] =>
        lazymatch x with context [match _ with _ => _ end] => fail | _ => destruct x eqn:? end
    end | progress inv_next ]);
  repeat match goal with
  | E : (_ =? _) = true |- _ => apply Z.eqb_eq in E; subst
  end;
  repeat match goal with
  | E : d_pc (dec _) = _ |- _ => progress rewrite ?E
  | E : ctl _ = _ |- _ => progress rewrite ?E
  | E : par _ = _ |- _ => progress rewrite ?E
  end.

Ltac open_code H :=
  unfold stream_parse_loop, video_step, avbox_player_audio_decode, feed_decoder, peeked, open_codec, send_flush,
    begin_flush, receive_frame, initaudiofilters, pull_frame, end_of_pull, write_frame, finish_packet, decoder_exit,
    flushed, avbox_player_destroy_filter_graph, stream_step, control_step, control_idle, drop_step, drop_packets,
    drop_stream, flush_step, acquire_av_frame, acquire_av_packet, need, mbind, option_bind in H.

(** ** Where the threads are *)

(** The encoded packet the decoder has peeked and not yet taken. *)
Definition dec_peeked (pc : dec_pc) : option Z :=
  match pc with
  | AOpen a | ASend a | AGet a => Some a
  | AReceive a | APullTop a | APull a _ | AClock a _ | AWrite a _ => a
  | _ => None
  end.

(** The decoder is between two packets and holds nothing. *)
Definition dec_quiet (pc : dec_pc) : bool :=
  match pc with AStart | AHere | AExit _ | AClose _ | ACloseGraph _ _ | AExited _ => true | _ => false end.

(** It has a packet or a flush in the codec. *)
Definition dec_busy (pc : dec_pc) : bool :=
  match pc with
  | AReceive _ | APullTop _ | APull _ _ | AClock _ _ | AWrite _ _ | AGet _ | AFree _ | AFlushed | ADestroy _ => true
  | _ => false
  end.

(** Before the next packet. *)
Definition dec_ahead (pc : dec_pc) : bool :=
  match pc with AStart | AHere | APeek | AAgain | AOpen _ | ASend _ => true | _ => false end.

Definition holds_decoder (c : ctl_pc) : bool :=
  match c with
  | CHaltDecoder | CDropTest | CDropPeek | CDropGet _ | CDropFree _ | CDropWait | CDropStream | CResumeParser
  | CResumeDecoder => true
  | _ => false
  end.

(** The control thread has seen that the decoder is halted. *)
Definition decoder_seen (c : ctl_pc) : bool :=
  match c with CHaltDecoder | CDropWait => false | _ => holds_decoder c end.

Record sync (s : track) : Prop := Sync {
  sync_d : d_count (ln s) = Z.b2z (holds_decoder (ctl s));
  sync_dec : decoder_seen (ctl s) = true -> dec_quiet (d_pc (dec s)) = true;
  sync_dec_head : forall x, dec_peeked (d_pc (dec s)) = Some x -> head (audio_packets_q (ln s)) = Some x;
  sync_ctl_head : forall x, ctl s = CDropGet x -> head (audio_packets_q (ln s)) = Some x
}.

Lemma seen_holds c : decoder_seen c = true -> holds_decoder c = true.
Proof. by destruct c. Qed.

Lemma track_halted_quiet s : decoder_halted s = true -> dec_quiet (d_pc (dec s)) = true.
Proof. unfold decoder_halted. by destruct (d_pc (dec s)). Qed.

Lemma track_quiet_peeked pc : dec_quiet pc = true -> dec_peeked pc = None.
Proof. by destruct pc. Qed.

Section proofs.
Context (rescale : Z -> Z) (packets_size nb_streams : Z) (dvd : bool).

(** The allocator hands out blocks that are not in use. *)
Definition fresh_blocks (a : answers) (s : track) : Prop :=
  forall x, a_alloc a = Some x -> frames (mem s) !! x = None /\ av_packets (mem s) !! x = None.

(** What leaves the pools of frames and packets in disorder: the parser
    aborts when there is no memory for a packet; and when the queue of the
    audio stream refuses a sound its frame is given back twice. *)
Inductive fault (t : thread) (a : answers) (s : track) : Prop :=
  | NoMemory : t = TParser -> par s = PAcquire -> av_packet_pool (mem s) = [] -> a_alloc a = None -> fault t a s
  | Refused x f : t = TDecoder -> d_pc (dec s) = AWrite x f -> a_write a = WriteRefused -> fault t a s.

Definition admissible (t : thread) (a : answers) (s : track) : Prop := fresh_blocks a s /\ ~ fault t a s.

Lemma track_admissible_iff t a s :
  admissible t a s <->
  (forall x, a_alloc a = Some x -> frames (mem s) !! x = None /\ av_packets (mem s) !! x = None) /\
  (t = TParser -> par s = PAcquire -> av_packet_pool (mem s) = [] -> a_alloc a <> None) /\
  (forall x f, t = TDecoder -> d_pc (dec s) = AWrite x f -> a_write a <> WriteRefused).
Proof.
  split.
  - intros [Hf Hn]. split_and!; [done|..]; intros; intros ?; apply Hn; [by apply NoMemory|by eapply Refused].
  - intros (Hf & Hm & Hr). split; [done|]. intros [Ht Hp Hl Ha|x f Ht Hd Hw]; [by apply Hm|by apply (Hr x f)].
Qed.

Definition step (s s' : track) : Prop :=
  exists t a, admissible t a s /\ exec rescale packets_size nb_streams dvd t a s = Next s'.

Lemma track_sync_step s s' : sync s -> step s s' -> sync s'.
Proof.
  intros [Hd Hq Hh Hc] (t & a & _ & H). destruct t; cbn in H; open_code H; paths H.
  all: split; cbn in *; rewrite ?Heqd, ?Heqc, ?Heql, ?Heql0; try done; try congruence; try lia;
    try (intros; simplify_eq; by eauto using head_snoc).
  - intros Hs%seen_holds. rewrite Hs in Hd. cbn in Hd. blia.
  - intros x Hx. rewrite Hx in Hq. by specialize (Hq eq_refl).
  - intros x Hx. rewrite Hx in Hq. by specialize (Hq eq_refl).
  - intros _. by apply track_halted_quiet.
  - intros x Hx. by rewrite track_quiet_peeked in Hx by eauto.
  - intros _. by apply track_halted_quiet.
Qed.

(** ** The decoder *)

Definition exit_reason (pc : dec_pc) : option reason :=
  match pc with AExit r | AClose r | ACloseGraph r _ | AExited r => Some r | _ => None end.

Definition dec_gone (pc : dec_pc) : bool := match pc with AExited _ => true | _ => false end.

Record dec_ok (s : track) : Prop := DecOk {
  dec_codec : audio_decoder_flushed (ln s) = false -> dec_ctx (dec s) = true;
  dec_loop : dec_busy (d_pc (dec s)) = true -> audio_decoder_flushed (ln s) = false;
  dec_send : forall x, d_pc (dec s) = ASend x -> dec_ctx (dec s) = true;
  dec_open : forall x, d_pc (dec s) = AOpen x -> audio_decoder_flushed (ln s) = true;
  dec_init : d_pc (dec s) = AStart -> audio_decoder_flushed (ln s) = true;
  dec_graph : filter_graph (dec s) = true -> dec_gone (d_pc (dec s)) = false ->
    (buffersrc (dec s) = Live /\ buffersink (dec s) = Live) \/ exit_reason (d_pc (dec s)) = Some NoGraph;
  dec_pull : forall x f, d_pc (dec s) = APull x f -> filter_graph (dec s) = true;
  dec_close : forall r f, d_pc (dec s) = ACloseGraph r f -> filter_graph (dec s) = true;
  dec_start : dec_ahead (d_pc (dec s)) = true -> audio_decoder_flushed (ln s) = true ->
    filter_graph (dec s) = false /\ time_set (dec s) = false;
  dec_clock : forall x f, d_pc (dec s) = AClock x f -> time_set (dec s) = false;
  dec_write : forall x f, d_pc (dec s) = AWrite x f -> time_set (dec s) = true
}.

(** Only the decoder moves its own state. *)
Lemma others_dec t a s s' :
  t <> TDecoder -> exec rescale packets_size nb_streams dvd t a s = Next s' ->
  dec s' = dec s /\ audio_decoder_flushed (ln s') = audio_decoder_flushed (ln s).
Proof. intros Ht H. destruct t; [| |done| |]; cbn in H; open_code H; paths H; done. Qed.

Lemma dec_ok_step s s' : dec_ok s -> step s s' -> dec_ok s'.
Proof.
  intros Hok (t & a & _ & H). destruct (decide (t = TDecoder)) as [->|Ht]; last first.
  { destruct (others_dec _ _ _ _ Ht H) as [Hd Hf]. destruct Hok. split; rewrite ?Hd, ?Hf; done. }
  destruct Hok as [Hc Hl Hs Ho Hi Hg Hp Hx Ha Hk Hw]. cbn in H; open_code H; paths H.
  all: cbn in *; split; cbn; rewrite ?Heqd, ?Heqb; try done; try congruence; try (by eauto);
    try (intros; simplify_eq; by eauto);
    try (intros ? _; destruct Hg as [[??]|?]; [congruence|done|left; split; congruence|by right || congruence]).
  - intros ? _. destruct (audio_decoder_flushed (ln s)); [done|]. by specialize (Hc eq_refl).
  - intros _. zify_bool. congruence.
  - intros _ Hf. split; [by apply Ha|done].
  - intros _ Hf. split; [by apply Ha|done].
  - intros _ Hf. by rewrite Hl in Hf.
Qed.

(** ** Frames and encoded packets *)

Definition datas (q : list item) : list Z := omap (fun i => match i with Data f => Some f | Clock _ => None end) q.

Lemma datas_app q r : datas (q ++ r) = datas q ++ datas r.
Proof. apply omap_app. Qed.

Lemma datas_cons i q : datas (i :: q) = match i with Data f => f :: datas q | Clock _ => datas q end.
Proof. by destruct i. Qed.

Lemma datas_nil : datas [] = [].
Proof. done. Qed.

Arguments datas : simpl never.
#[local] Hint Rewrite datas_app datas_cons datas_nil : holders.

Definition opt (o : option Z) : list Z := match o with Some x => [x] | None => [] end.

Definition dec_frame (pc : dec_pc) : list Z :=
  match pc with
  | APull _ f | AClock _ f | AWrite _ f | ACloseGraph _ f => [f]
  | ADestroy o => opt o
  | _ => []
  end.

Definition frame_holders (s : track) : list Z :=
  frame_pool (mem s) ++ dec_frame (d_pc (dec s)) ++ datas (stream_q (ln s)) ++ opt (playing (ln s)) ++
  lost_frames (hist s).

Definition frames_exact (s : track) : Prop := exact (frame_holders s) (fun f => is_Some (frames (mem s) !! f)).

Definition par_av (pc : par_pc) : list Z := match pc with PRead a | PPut a | PFree a _ => [a] | _ => [] end.
Definition dec_av (pc : dec_pc) : list Z := match pc with AFree a => [a] | _ => [] end.
Definition ctl_av (c : ctl_pc) : list Z := match c with CDropFree a => [a] | _ => [] end.

Definition av_holders (s : track) : list Z :=
  av_packet_pool (mem s) ++ audio_packets_q (ln s) ++ par_av (par s) ++ dec_av (d_pc (dec s)) ++
  ctl_av (ctl s) ++ video_lane (hist s) ++ lost_packets (hist s).

Definition av_exact (s : track) : Prop := exact (av_holders s) (fun x => is_Some (av_packets (mem s) !! x)).

Lemma track_av_step s s' : av_exact s -> step s s' -> av_exact s'.
Proof.
  intros Ha (t & a & (Hf & _)%track_admissible_iff & H). unfold av_exact, av_holders in *.
  destruct t; cbn in H; open_code H; paths H.
  all: try (keep_holders Ha).
  - new_block Ha z.
  - known_block Ha.
  - known_block Ha.
Qed.

Lemma track_frames_step s s' : frames_exact s -> step s s' -> frames_exact s'.
Proof.
  intros Ha (t & a & (Hf & _ & Hw)%track_admissible_iff & H). unfold frames_exact, frame_holders in *.
  destruct t; cbn in H; open_code H; paths H.
  all: try (keep_holders Ha).
  all: try (by destruct (Hw _ _ eq_refl eq_refl)).
  all: try (known_block Ha).
  all: try (match goal with E : a_alloc _ = Some ?z |- _ => new_block Ha z end).
Qed.

(** ** Sounds in order *)

Definition emitted (t : list mark) : list sound :=
  omap (fun m => match m with Written x | Lost x => Some x | _ => None end) t.
Definition written (t : list mark) : list sound := omap (fun m => match m with Written x => Some x | _ => None end) t.

Lemma emitted_app t u : emitted (t ++ u) = emitted t ++ emitted u.
Proof. apply omap_app. Qed.

Lemma written_app t u : written (t ++ u) = written t ++ written u.
Proof. apply omap_app. Qed.

(** The sounds in frames. *)
Definition snd (m : gmap Z (option sound)) (f : Z) : option sound := default None (m !! f).
Definition sounds (m : gmap Z (option sound)) (q : list Z) : list sound := omap (snd m) q.

Lemma sound_of_snd f s : sound_of f s = snd (frames (mem s)) f.
Proof. unfold sound_of, snd. by destruct (frames (mem s) !! f). Qed.

Lemma snd_same m f v : snd (<[f := v]> m) f = v.
Proof. unfold snd. by rewrite lookup_insert_eq. Qed.

Lemma snd_other m f v g : g <> f -> snd (<[f := v]> m) g = snd m g.
Proof. intros. unfold snd. by rewrite lookup_insert_ne. Qed.

Lemma sounds_app m q r : sounds m (q ++ r) = sounds m q ++ sounds m r.
Proof. apply omap_app. Qed.

Lemma sounds_cons m f q x : snd m f = Some x -> sounds m (f :: q) = x :: sounds m q.
Proof. intros H. unfold sounds. cbn. by rewrite H. Qed.

Lemma sounds_write m f v q : f ∉ q -> sounds (<[f := v]> m) q = sounds m q.
Proof.
  induction q as [|g q IH]; [done|]. intros [Hne Hq]%not_elem_of_cons. unfold sounds in *. cbn.
  by rewrite snd_other, IH.
Qed.

Lemma sounds_some_write m f v (q : list Z) :
  f ∉ q -> (forall g, g ∈ q -> is_Some (snd m g)) -> forall g, g ∈ q -> is_Some (snd (<[f := v]> m) g).
Proof. intros Hf Hq g Hg. rewrite snd_other by (by intros ->). auto. Qed.

Arguments sounds : simpl never.
Arguments emitted : simpl never.
Arguments written : simpl never.

(** The sound the decoder has in its hands. *)
Definition in_hand (pc : dec_pc) : option Z := match pc with AClock _ f | AWrite _ f => Some f | _ => None end.

Definition handed (pc : dec_pc) : nat := if in_hand pc then 1 else 0.

Record order_ok (s : track) : Prop := OrderOk {
  order_q : forall f, f ∈ datas (stream_q (ln s)) -> is_Some (snd (frames (mem s)) f);
  order_dec : forall f, in_hand (d_pc (dec s)) = Some f ->
    exists y, snd (frames (mem s)) f = Some y /\ S (number y) = serial (hist s);
  order_all : map number (emitted (tape (hist s))) = seq 0 (serial (hist s) - handed (d_pc (dec s)));
  order_written : written (tape (hist s)) =
    map fate_sound (fates (hist s)) ++ sounds (frames (mem s)) (datas (stream_q (ln s)))
}.

(** A frame in other hands is not queued in the audio stream. *)
Lemma apart s f :
  frames_exact s -> f ∈ frame_pool (mem s) ++ dec_frame (d_pc (dec s)) ++ opt (playing (ln s)) ->
  f ∉ datas (stream_q (ln s)).
Proof.
  intros Ha Hf%occ_elem Hq%occ_elem. assert (f ∈ frame_holders s) as Hin.
  { unfold frame_holders. rewrite !elem_of_app, !occ_elem. tauto. }
  apply (exact_elem _ _ _ Ha) in Hin. unfold frame_holders in Hin. rewrite !occ_app in Hf. repeat rewrite occ_app in Hin. lia.
Qed.

Lemma fresh_apart s f : frames_exact s -> frames (mem s) !! f = None -> f ∉ datas (stream_q (ln s)).
Proof.
  intros Ha Hf Hq%occ_elem. destruct (Ha f) as [_ H0]. rewrite Hf in H0. unfold frame_holders in H0.
  rewrite !occ_app in H0. specialize (H0 ltac:(intros [? ?]; done)). lia.
Qed.

(** A frame in the hands of the decoder is not the one that is played. *)
Lemma track_hand_apart s f g :
  frames_exact s -> in_hand (d_pc (dec s)) = Some f -> g ∈ opt (playing (ln s)) ++ datas (stream_q (ln s)) -> f <> g.
Proof.
  intros Ha Hf Hg%occ_elem ->. assert (g ∈ dec_frame (d_pc (dec s))) as Hd%occ_elem.
  { destruct (d_pc (dec s)); try done; injection Hf as ->; left. }
  assert (g ∈ frame_holders s) as Hin.
  { unfold frame_holders. rewrite !elem_of_app, !occ_elem. tauto. }
  apply (exact_elem _ _ _ Ha) in Hin. unfold frame_holders in Hin. repeat rewrite occ_app in Hin. repeat rewrite occ_app in Hg. lia.
Qed.

Lemma queue_NoDup s : frames_exact s -> NoDup (datas (stream_q (ln s))).
Proof.
  intros Ha. apply occ_NoDup. intros x. destruct (decide (x ∈ frame_holders s)) as [Hin|Hout].
  - apply (exact_elem _ _ _ Ha) in Hin. unfold frame_holders in Hin. repeat rewrite occ_app in Hin. lia.
  - assert (x ∉ datas (stream_q (ln s))) as Hx by (contradict Hout; unfold frame_holders; rewrite !elem_of_app; tauto).
    rewrite occ_elem in Hx. lia.
Qed.

(** The next sound has the next number. *)
Lemma emit_number t n x (m : mark) :
  emitted [m] = [x] -> S (number x) = n -> map number (emitted t) = seq 0 (n - 1) ->
  map number (emitted t ++ emitted [m]) = seq 0 (n - 0).
Proof.
  intros -> <- Ht. rewrite map_app, Ht. cbn [map]. replace (S (number x) - 0)%nat with (S (number x)) by lia.
  rewrite seq_S. do 2 f_equal. lia.
Qed.

Lemma order_step s s' : frames_exact s -> order_ok s -> step s s' -> order_ok s'.
Proof.
  intros Ha [Hq Hd Ho Hw] (t & a & (Hf & _ & Hr)%track_admissible_iff & H).
  pose proof (fun f => apart s f Ha) as Hap. pose proof (fun f => fresh_apart s f Ha) as Hfr.
  pose proof (fun f g => track_hand_apart s f g Ha) as Hha. pose proof (queue_NoDup s Ha) as Hn. clear Ha.
  destruct t; cbn in H; open_code H; paths H; rewrite ?sound_of_snd in *.
  all: try (by destruct (Hr _ _ eq_refl eq_refl)).
  all: split; cbn -[seq] in *; rewrite ?Heqd, ?Heql, ?Heql0; rewrite ?emitted_app, ?written_app, ?datas_app, ?app_nil_r;
    try done; try (by eauto).
  all: try (apply sounds_some_write; [|done]; first [apply Hfr; by apply (Hf _ eq_refl) | apply Hap; set_solver]; fail).
  all: try (rewrite sounds_write; [done|]; first [apply Hfr; by apply (Hf _ eq_refl) | apply Hap; set_solver]; fail).
  all: try (intros ? [= <-]; eexists; split; [apply snd_same|done]; fail).
  all: try (destruct (Hd _ eq_refl) as (? & Hs & Hk); rewrite Hs in Heqo; injection Heqo as ->; by eapply emit_number).
  all: rewrite ?datas_cons in *.
  - intros g [? | ->%list_elem_of_singleton]%elem_of_app; eauto.
  - by rewrite sounds_app, app_assoc, <- Hw, (sounds_cons _ _ _ _ Heqo).
  - intros g Hg. rewrite snd_other; [by apply Hd|]. apply Hha; [done|left].
  - intros g Hg. apply Hq. by right.
  - by rewrite Hw, map_app, (sounds_cons _ _ _ _ Heqo0), <- app_assoc.
  - rewrite Hw. apply app_nil_r.
  - apply NoDup_cons in Hn as [Hn _]. apply sounds_some_write; [done|]. intros g Hg. apply Hq. by right.
  - intros g Hg. rewrite snd_other; [by apply Hd|]. apply Hha; [done|]. apply elem_of_app. right. left.
  - apply NoDup_cons in Hn as [Hn _]. by rewrite sounds_write, Hw, map_app, (sounds_cons _ _ _ _ Heqo), <- app_assoc.
  - rewrite Hw. apply app_nil_r.
  - rewrite Hw. apply app_nil_r.
Qed.

(** ** The clock *)

(** After a restart the clock has to be set, to the time of the sound that
    follows. *)
Inductive clock_state := Unset | Announced (time : Z) | Running.

Definition clock_next (c : clock_state) (m : mark) : option clock_state :=
  match m, c with
  | Restarted, _ => Some Unset
  | SetClock t, Unset => Some (Announced t)
  | ClockFailed, Unset => Some Running
  | (Written x | Lost x), Announced t => if t =? rescale (pts x) then Some Running else None
  | (Written _ | Lost _), Running => Some Running
  | _, _ => None
  end.

Definition clock_run (t : list mark) : option clock_state :=
  foldl (fun o m => c ← o; clock_next c m) (Some Unset) t.

Lemma clock_snoc t m : clock_run (t ++ [m]) = c ← clock_run t; clock_next c m.
Proof. unfold clock_run. by rewrite foldl_snoc. Qed.

Arguments clock_run : simpl never.

Definition clock_at (d : sound_decoder) (m : gmap Z (option sound)) (c : clock_state) : Prop :=
  if time_set d then c = Running \/ exists f y, in_hand (d_pc d) = Some f /\ snd m f = Some y /\ c = Announced (rescale (pts y))
  else c = Unset.

Definition clock_ok (s : track) : Prop :=
  exists c, clock_run (tape (hist s)) = Some c /\ clock_at (dec s) (frames (mem s)) c.

Lemma others_hand t a s s' :
  frames_exact s -> t <> TDecoder -> exec rescale packets_size nb_streams dvd t a s = Next s' ->
  tape (hist s') = tape (hist s) /\
  forall f, in_hand (d_pc (dec s)) = Some f -> snd (frames (mem s')) f = snd (frames (mem s)) f.
Proof.
  intros Ha Ht H. pose proof (fun f g => track_hand_apart s f g Ha) as Hha. clear Ha.
  destruct t; [| |done| |]; cbn in H; open_code H; paths H; cbn; split; try done.
  - intros f Hf. rewrite snd_other; [done|]. apply Hha; [done|left].
  - intros f Hf. rewrite snd_other; [done|]. apply Hha; [done|]. apply elem_of_app. right. rewrite datas_cons. left.
Qed.

Lemma clock_step s s' : frames_exact s -> dec_ok s -> order_ok s -> clock_ok s -> step s s' -> clock_ok s'.
Proof.
  intros Ha Hok Hor (c & Hc & Hat) (t & a & (Hf & _ & Hr)%track_admissible_iff & H).
  destruct (decide (t = TDecoder)) as [->|Ht]; last first.
  { destruct (others_dec _ _ _ _ Ht H) as [Hd _], (others_hand _ _ _ _ Ha Ht H) as [Htp Hm].
    exists c. rewrite Htp, Hd. split; [done|]. unfold clock_at in *. destruct (time_set (dec s)); [|done].
    destruct Hat as [->|(f & y & Hh & Hs & ->)]; [by left|]. right. exists f, y. by rewrite Hm. }
  destruct Hok as [_ _ _ _ _ _ _ _ Hst Hk Hw]. destruct Hor as [_ Hd _ _]. unfold clock_ok, clock_at in *.
  cbn in H; open_code H; paths H; cbn in *; rewrite ?clock_snoc, ?Hc; cbn; try (by eauto);
    rewrite ?sound_of_snd in *.
  all: try (exists c; split; [done || exact Hc|]; destruct (time_set (dec s)) eqn:?; try done;
    (destruct Hat as [->|(? & ? & ? & _)]; [by left|done])).
  all: try (rewrite (Hk _ _ eq_refl) in Hat; subst c; eexists; split; [done|]; by eauto 8).
  all: rewrite (Hw _ _ eq_refl) in *; destruct Hat as [->|(g & y & [= <-] & Hs & ->)]; [by eauto|];
    rewrite Hs in Heqo; injection Heqo as ->; rewrite Z.eqb_refl; by eauto.
Qed.

(** ** Drops *)

(** Halts of the parser that are still to be undone. *)
Definition parser_debt (c : ctl_pc) (flushing : bool) : Z :=
  match c with CIdle => Z.b2z flushing | CResumeDecoder => 0 | _ => 1 end.

Definition parser_seen (c : ctl_pc) : bool :=
  match c with
  | CHaltDecoder | CDropTest | CDropPeek | CDropGet _ | CDropFree _ | CDropYield | CDropWait | CDropStream
  | CResumeParser => true
  | _ => false
  end.

Record emptied (s : track) : Prop := Emptied {
  emptied_debt : parser_debt (ctl s) (flushing_audio (ln s)) <= p_count (ln s);
  emptied_flag : ctl s = CResumeParser \/ ctl s = CResumeDecoder -> flushing_audio (ln s) = false;
  emptied_par : parser_seen (ctl s) = true -> par s = PHere \/ par s = PExited;
  emptied_q : ctl s = CDropStream \/ ctl s = CResumeParser ->
    audio_packets_q (ln s) = [] /\ audio_decoder_flushed (ln s) = true;
  emptied_stream : ctl s = CResumeParser -> stream_q (ln s) = []
}.

(** What stays as it is while the control thread does not move. *)
Definition same_control (s s' : track) : Prop :=
  ctl s' = ctl s /\ p_count (ln s') = p_count (ln s) /\ flushing_audio (ln s') = flushing_audio (ln s).

Lemma control_kept t a s s' :
  t <> TControl -> exec rescale packets_size nb_streams dvd t a s = Next s' -> same_control s s'.
Proof. intros Ht H. destruct t; [| | | |done]; cbn in H; open_code H; paths H; done. Qed.

(** A drop is past the encoded packets. *)
Definition dropped (c : ctl_pc) : bool := match c with CDropStream | CResumeParser => true | _ => false end.

Lemma dropped_seen c : dropped c = true -> parser_seen c = true /\ decoder_seen c = true.
Proof. by destruct c. Qed.

Lemma emptied_other s s' :
  same_control s s' -> emptied s ->
  (parser_seen (ctl s) = true -> par s' = par s) ->
  (dropped (ctl s) = true -> audio_packets_q (ln s') = audio_packets_q (ln s) /\
     (audio_decoder_flushed (ln s) = true -> audio_decoder_flushed (ln s') = true) /\
     (stream_q (ln s) = [] -> stream_q (ln s') = [])) ->
  emptied s'.
Proof.
  intros (Hc & Hp & Hf) [H1 H2 H3 H4 H5] Hpar Hd. split; rewrite ?Hc, ?Hp, ?Hf; [done..| | |].
  - intros Hs. rewrite Hpar; auto.
  - intros Hs. destruct (H4 Hs) as [Hq Hfl]. destruct Hd as (-> & Hfl' & _); [by destruct Hs as [-> | ->]|]. auto.
  - intros Hs. destruct Hd as (_ & _ & Hst); [by rewrite Hs|]. auto.
Qed.

Lemma track_emptied_step s s' : dvd = false -> sync s -> emptied s -> step s s' -> emptied s'.
Proof.
  intros Hdvd [Hd Hq _ _] He (t & a & _ & H).
  destruct (decide (t = TControl)) as [->|Ht]; last first.
  { pose proof (control_kept _ _ _ _ Ht H) as Hsame. apply (emptied_other _ _ Hsame He); destruct He as [He _ Hp _ _].
    - intros Hs. destruct t; try done; cbn in H; open_code H.
      + destruct (Hp Hs) as [E|E]; rewrite E in H; [|done].
        destruct (0 <? p_count (ln s)) eqn:E0; [done|]. destruct (ctl s); cbn in *; try done; blia.
      + paths H; done.
      + paths H; done.
      + paths H; done.
    - intros [Hs Hds]%dropped_seen. pose proof (Hq Hds) as Hqu. apply seen_holds in Hds. rewrite Hds in Hd.
      destruct t; try done; cbn in H; open_code H.
      + destruct (Hp Hs) as [E|E]; rewrite E in H; [|done].
        destruct (0 <? p_count (ln s)) eqn:E0; [done|]. destruct (ctl s); cbn in *; try done; blia.
      + paths H; done.
      + paths H; done.
      + paths H; done. }
  destruct He as [He Hf Hp Hs Hst].
  cbn in H; open_code H; unfold avbox_player_stream_checkpoint_wait in H; rewrite ?Hdvd in H; cbn in H; paths H.
  all: split; cbn in *; rewrite ?Heqd, ?Heqc, ?Heqp, ?Heql, ?Heql0; cbn; try done; try congruence; try lia;
    try (by eauto); try (intros; destruct_or?; done);
    try (destruct (flushing_audio (ln s)); cbn in *; lia).
  - intros _. unfold parser_halted in *. destruct (par s); zify_bool; destruct_or?; first [by left|by right|done].
  - by rewrite Hf by (by right).
Qed.

(** ** The end of the file *)

Record ended (s : track) : Prop := EndedOk {
  ended_closed : packets_closed (ln s) = true -> par s = PExited;
  ended_reason : exit_reason (d_pc (dec s)) = Some Ended ->
    packets_closed (ln s) = true /\ audio_packets_q (ln s) = [] /\ audio_decoder_flushed (ln s) = true
}.

Lemma ended_step s s' : dec_ok s -> ended s -> step s s' -> ended s'.
Proof.
  intros Hok [Hc Hr] (t & a & _ & H). destruct Hok as [Hcd _ _ _ _ _ _ _ _ _ _].
  destruct t; cbn in H; open_code H; paths H.
  all: split; cbn in *; rewrite ?Heqd, ?Heqp; cbn; try done; try congruence; try (by eauto);
    try (intros Hx; by apply Hc in Hx);
    try (intros Hx; destruct (Hr Hx) as (Hx1 & Hx2 & Hx3); first [by apply Hc in Hx1 | split_and!; congruence]).
  intros _. split_and!; [congruence..|]. destruct (audio_decoder_flushed (ln s)); [done|]. by rewrite Hcd in Heqb0.
Qed.

(** ** All of it *)

Record good (s : track) : Prop := Good {
  good_sync : sync s; good_dec : dec_ok s; good_av : av_exact s; good_frames : frames_exact s;
  good_order : order_ok s; good_clock : clock_ok s; good_ended : ended s
}.

Lemma track_good_step s s' : good s -> step s s' -> good s'.
Proof.
  intros [] Hs. split; eauto using track_sync_step, dec_ok_step, track_av_step, track_frames_step, order_step, clock_step, ended_step.
Qed.

(** The ways the decoder can fail: no memory in the codec, a stream that
    was not chosen yet when the codec is opened or the clock is set, a flush
    before the first sound, and a filter graph that could not be built. *)
Definition hazard (a : answers) (s : track) : Prop :=
  match d_pc (dec s) with
  | ASend _ => a_send a = SendNoMemory
  | AOpen _ =>
      stream_exists nb_streams
        (if audio_stream_index (ln s) =? -1 then a_best a else audio_stream_index (ln s)) = false
  | AClock _ _ => stream_exists nb_streams (audio_stream_index (ln s)) = false
  | ADestroy (Some _) => filter_graph (dec s) = false
  | ACloseGraph NoGraph _ => True
  | _ => False
  end.

Lemma crash_with_memory t a s :
  good s -> (t = TParser -> par s = PAcquire -> av_packet_pool (mem s) = [] -> a_alloc a <> None) ->
  exec rescale packets_size nb_streams dvd t a s = Crash -> t = TDecoder /\ hazard a s.
Proof.
  intros [Hsy Hok Hav Hfr Hor _ _] Hp H.
  destruct Hsy as [_ _ Hdh Hch], Hok as [Hc Hl Hs Ho Hi Hg Hpl Hx Ha Hk Hw], Hor as [Hq Hd _ _].
  assert (forall x, x ∈ audio_packets_q (ln s) -> is_Some (av_packets (mem s) !! x)) as Hkn.
  { intros x Hxq. apply (exact_allocated _ _ _ Hav). unfold av_holders. rewrite !elem_of_app. tauto. }
  clear Hav Hfr Hk Hw Ho Hi.
  unfold hazard. destruct t; cbn in H; open_code H; paths H; rewrite ?sound_of_snd in *; cbn in *; try done.
  all: try (destruct (Hkn _ ltac:(left)); congruence).
  all: try (destruct (Hd _ eq_refl) as (? & ? & ?); congruence).
  all: try (specialize (Hc (Hl eq_refl)); congruence).
  all: try (destruct Hg as [[? ?]|?]; congruence).
  all: try (split; congruence).
  all: try (split; [done|]; destruct (filter_graph (dec s)) eqn:?; [|done];
    destruct (Hg eq_refl eq_refl) as [[? ?]|?]; congruence).
  all: try (destruct (Hg (Hx _ _ eq_refl) eq_refl) as [[? ?]|[= ->]]; [congruence|done]).
  all: try (destruct (Hg (Hpl _ _ eq_refl) eq_refl) as [[? ?]|?]; congruence).
  all: try (rewrite datas_cons in Hq; destruct (Hq frame ltac:(left)); congruence).
  - by destruct (Hp eq_refl eq_refl (pool_take_None _ Heqo)).
  - zify_bool. specialize (Hc ltac:(done)). congruence.
  - pose proof (Hdh _ eq_refl) as Hh. destruct (Hkn a0); [by apply head_Some_elem_of|congruence].
  - pose proof (Hdh _ eq_refl) as Hh. destruct (Hkn a0); [by apply head_Some_elem_of|congruence].
  - by specialize (Hs _ eq_refl).
  - specialize (Hch _ eq_refl). simplify_eq/=.
  - specialize (Hch _ eq_refl). simplify_eq/=. by rewrite Z.eqb_refl in Heqb.
Qed.

Lemma crash_hazard t a s :
  good s -> exec rescale packets_size nb_streams dvd t a s = Crash -> fault t a s \/ t = TDecoder /\ hazard a s.
Proof.
  intros Hg Hc.
  destruct (decide (t = TParser /\ a_alloc a = None)) as [[Ht Ha]|Hn];
    [|right; apply crash_with_memory; [done| |done]; intros ? _ _ ?; by apply Hn].
  destruct (par s) eqn:Ep, (av_packet_pool (mem s)) eqn:El;
    try (right; apply crash_with_memory; [done|congruence|done]; fail).
  left. by apply NoMemory.
Qed.

(** A state of a run that starts with filled pools and a chosen stream. *)
Definition started (fm am : list Z) (s0 : track) : Prop :=
  NoDup fm /\ NoDup am /\ exists index, s0 = track_start fm am index.

Definition sounding (fm am : list Z) (s : track) : Prop := exists s0, started fm am s0 /\ rtc step s0 s.

Lemma start_domain {V} (l : list Z) (v : V) x :
  NoDup l -> is_Some ((list_to_map (map (fun f => (f, v)) l) : gmap Z V) !! x) <-> x ∈ l.
Proof.
  intros _. induction l as [|y l IH]; cbn; [rewrite lookup_empty; split; [by intros [? ?]|by intros ?%not_elem_of_nil]|].
  rewrite some_insert, elem_of_cons, IH. done.
Qed.

Lemma start_good fm am s : started fm am s -> good s /\ emptied s.
Proof.
  intros (Hf & Ha & index & ->). split; [split|split]; try done; try (by split).
  - apply exact_NoDup; cbn; rewrite app_nil_r; [done|]. intros x. by apply start_domain.
  - apply exact_NoDup; cbn; rewrite app_nil_r; [done|]. intros x. by apply start_domain.
  - split; cbn; try done. intros f Hfq. by apply not_elem_of_nil in Hfq.
  - by exists Unset.
Qed.

Lemma sounding_good fm am s : sounding fm am s -> good s.
Proof.
  intros (s0 & H0 & Hr). eapply (rtc_invariant step good); [apply track_good_step|exact Hr|]. by eapply start_good.
Qed.

Lemma sounding_emptied fm am s : dvd = false -> sounding fm am s -> emptied s.
Proof.
  intros Hdvd (s0 & H0 & Hr).
  eapply (rtc_invariant step (fun s => sync s /\ emptied s)); [|exact Hr|].
  - intros x y [Hs He] Hst. split; [by eapply track_sync_step|by eapply track_emptied_step].
  - destruct (start_good _ _ _ H0) as [[] ?]. done.
Qed.

End proofs.
