(* ===== verification/Listening.v ===== *)
(** * Sound, from the file to the audio stream

    The properties of the runs of the audio pipeline ([AudioDecoder]), from
    the invariants of [SoundTrack]: it is safe but for the failures that are
    listed, sounds reach the audio stream in order and behind their clock,
    and a drop leaves it empty.  The last part has runs that show what the
    code does not do. *)

From S2P Require Import Prelude Holders AudioDecoder SoundTrack.

Section runs.
Context (rescale : Z -> Z) (packets_size nb_streams : Z) (dvd : bool).
Local Notation sounding := (sounding rescale packets_size nb_streams dvd).
Local Notation exec := (exec rescale packets_size nb_streams dvd).

(** C8. While a file with sound plays, whatever the threads, FFmpeg and the
    allocator do, as long as neither of two faults ([fault]) has happened:
    that the parser had no memory for a packet, which aborts, or that the
    queue of the audio stream refused a sound, whose frame is then released
    twice.  In such a run a step fails only by the first of these faults, or
    in the decoder when the codec runs out of memory, when the stream is not
    chosen yet at the moment the codec is opened or the clock set, when it
    is flushed before the first sound, or after the filter graph could not
    be built ([hazard]).  The decoder gets from its queue the packet it
    peeked at, and every frame and encoded packet has exactly one holder or
    is recorded as lost. *)
Theorem sound_track_safe fm am s :
  sounding fm am s ->
  (forall t a, exec t a s = Crash -> fault t a s \/ t = TDecoder /\ hazard nb_streams a s) /\
  (forall x, dec_peeked (d_pc (dec s)) = Some x -> head (audio_packets_q (ln s)) = Some x) /\
  NoDup (frame_holders s) /\ (forall f, f ∈ frame_holders s <-> is_Some (frames (mem s) !! f)) /\
  NoDup (av_holders s) /\ (forall x, x ∈ av_holders s <-> is_Some (av_packets (mem s) !! x)).
Proof.
  intros Hs%sounding_good. destruct (exact_spec _ _ (good_frames _ _ Hs) (some_or_not _)) as [Hn Hf].
  destruct (exact_spec _ _ (good_av _ _ Hs) (some_or_not _)) as [Hna Ha].
  split_and!; try done; [|apply Hs]. intros t a Hc. by apply (crash_hazard rescale packets_size nb_streams dvd).
Qed.

(** C9. Every sound the filter graph delivers is handed to the audio stream
    in order, or recorded as lost; what the audio stream was given is what
    was played or dropped, in order, followed by what it has queued, each
    sound still in its frame; and after a start, a flush or a change of the
    codec the clock of the audio stream is set, before anything else, to
    the time of the first sound (unless setting it failed). *)
Theorem sounds_in_order fm am s :
  sounding fm am s ->
  map number (emitted (tape (hist s))) = seq 0 (serial (hist s) - handed (d_pc (dec s))) /\
  written (tape (hist s)) =
    map fate_sound (fates (hist s)) ++ sounds (frames (mem s)) (datas (stream_q (ln s))) /\
  length (sounds (frames (mem s)) (datas (stream_q (ln s)))) = length (datas (stream_q (ln s))) /\
  is_Some (clock_run rescale (tape (hist s))).
Proof.
  intros [_ _ _ _ [Hq _ Ho Hw] (c & Hc & _) _]%sounding_good. split_and!; [done..| |by exists c].
  revert Hq. generalize (datas (stream_q (ln s))). intros q. induction q as [|f q IH]; intros Hq; [done|].
  destruct (Hq f ltac:(left)) as [x Hx]. rewrite (sounds_cons _ _ _ _ Hx). cbn. rewrite IH; [done|].
  intros g Hg. apply Hq. by right.
Qed.

(** C22. When [avbox_player_drop] lets the threads go, of a stream that does
    not block inside of a read ([dvd = false]: neither a DVD nor a torrent):
    the queue of encoded packets and the audio stream are empty, the decoder
    is flushed, and every sound the audio stream was given was played or
    dropped; the decoder is not in the middle of a packet, and unless it is
    on its way out (at its start, or held at its checkpoint) it has no
    filter graph left and will set the clock at its next sound. *)
Theorem drop_empties_track fm am s :
  dvd = false -> sounding fm am s -> ctl s = CResumeParser ->
  audio_packets_q (ln s) = [] /\ stream_q (ln s) = [] /\ audio_decoder_flushed (ln s) = true /\
  dec_quiet (d_pc (dec s)) = true /\
  (d_pc (dec s) = AStart \/ d_pc (dec s) = AHere -> filter_graph (dec s) = false /\ time_set (dec s) = false) /\
  written (tape (hist s)) = map fate_sound (fates (hist s)).
Proof.
  intros Hdvd Hs Hc. destruct (sounding_emptied _ _ _ _ _ _ _ Hdvd Hs) as [_ _ _ Hq Hst].
  apply sounding_good in Hs. destruct (Hq (or_intror Hc)) as [Hq0 Hf]. specialize (Hst Hc). split_and!; try done.
  - apply (sync_dec _ (good_sync _ _ Hs)). by rewrite Hc.
  - intros Hpc. apply Hs; [|done]. by destruct Hpc as [-> | ->].
  - destruct Hs as [_ _ _ _ [_ _ _ Hw] _ _]. rewrite Hw, Hst. apply app_nil_r.
Qed.

(** A decoder that left because the file ended has decoded all of it. *)
Lemma sound_end fm am s :
  sounding fm am s -> exit_reason (d_pc (dec s)) = Some Ended ->
  packets_closed (ln s) = true /\ audio_packets_q (ln s) = [] /\ audio_decoder_flushed (ln s) = true.
Proof. intros Hs%sounding_good He. by apply Hs. Qed.

(** ** Scripts *)

Definition admissible_b (t : thread) (a : answers) (s : track) : bool :=
  match a_alloc a with
  | Some x => bool_decide (frames (mem s) !! x = None) && bool_decide (av_packets (mem s) !! x = None)
  | None => match t, par s, av_packet_pool (mem s) with TParser, PAcquire, [] => false | _, _, _ => true end
  end && match t, d_pc (dec s), a_write a with TDecoder, AWrite _ _, WriteRefused => false | _, _, _ => true end.

Fixpoint script (l : list (thread * answers)) (s : track) : option track :=
  match l with
  | [] => Some s
  | (t, a) :: l =>
      if admissible_b t a s then match exec t a s with Next s => script l s | _ => None end else None
  end.

Lemma track_admissible_b_spec t a s : admissible_b t a s = true -> admissible t a s.
Proof.
  unfold admissible_b. intros H. zify_bool. apply track_admissible_iff. split_and!.
  - intros x Hx. rewrite Hx in *. zify_bool. done.
  - intros -> Hp Hl Hx. by rewrite Hx, Hp, Hl in *.
  - intros x f -> Hd Hw. by rewrite Hd, Hw in *.
Qed.

Lemma track_script_rtc l s s' : script l s = Some s' -> rtc (step rescale packets_size nb_streams dvd) s s'.
Proof.
  revert s. induction l as [|[t a] l IH]; intros s H; cbn in H; [injection H as ->; apply rtc_refl|].
  destruct (admissible_b t a s) eqn:Ea; [|done].
  destruct (exec t a s) as [s1| |] eqn:E; [|done|done].
  eapply rtc_l; [|by apply IH]. exists t, a. split; [by apply track_admissible_b_spec|done].
Qed.
End runs.

(** ** A file with sound *)

Definition reply (send : send_result) (receive : receive_result) (sink : sink_result) (read : read_result) (r : request) :
    answers :=
  Answers None true send receive GraphOk true sink true WriteOk 0 true read None r false false.

Definition calm : answers := reply SendOk ReceiveAgain SinkAgain (ReadAudio 0 128) ReqDrop.
Definition steps (n : nat) (t : thread) : list (thread * answers) := replicate n (t, calm).
Definition receive (r : receive_result) (k : sink_result) : thread * answers :=
  (TDecoder, reply SendOk r k ReadOther ReqDrop).
Definition ask (r : request) : thread * answers := (TControl, reply SendOk ReceiveAgain SinkAgain ReadOther r).

(** A packet is read and queued, from [PTest] to [PTest]. *)
Definition read_one : list (thread * answers) := steps 5 TParser.

(** The decoder starts, opens the codec for the first packet and has the
    first sound, which sets the clock. *)
Definition first_sound (t : Z) : list (thread * answers) :=
  read_one ++ steps 5 TDecoder ++ [receive ReceiveFrame SinkAgain] ++ steps 1 TDecoder ++
  [receive ReceiveFrame (SinkFrame t)].

(** The sound is written and the packet is done with. *)
Definition write_sound : list (thread * answers) := steps 10 TDecoder.

(** A seek or a stop: the control thread halts the parser and the decoder
    and lets the decoder flush. *)
Definition drop_begins : list (thread * answers) := [ask ReqDrop] ++ steps 1 TParser ++ steps 4 TControl ++ steps 3 TDecoder.

(** The flush goes through codec and graph; the control thread drops what
    the audio stream has. *)
Definition drop_ends : list (thread * answers) :=
  replicate 4 (receive ReceiveEof SinkEof) ++ steps 1 TDecoder ++ steps 6 TControl.

Definition begin_track : track := track_start [1; 2; 3] [11; 12] 0.
Definition listening (l : list (thread * answers)) : option track := script id 9 2 false l begin_track.

Definition at_first_sound : track := default begin_track (listening (first_sound 100 ++ write_sound ++ steps 2 TStream)).
Definition at_the_drop : track := default begin_track (listening (first_sound 100 ++ write_sound ++ drop_begins ++ drop_ends)).

Lemma listening_sounding l s : listening l = Some s -> sounding id 9 2 false [1; 2; 3] [11; 12] s.
Proof.
  intros H. exists begin_track. split; [|by apply track_script_rtc with l].
  split_and!; [by_eval..|by exists 0].
Qed.

Lemma sound_track_safe_witness :
  playing (ln at_first_sound) = Some 3 /\ NoDup (frame_holders at_first_sound).
Proof.
  split; [by vm_compute|].
  apply (sound_track_safe id 9 2 false [1; 2; 3] [11; 12] at_first_sound).
  apply (listening_sounding (first_sound 100 ++ write_sound ++ steps 2 TStream)). vm_compute. reflexivity.
Defined.

Lemma sounds_in_order_witness :
  fates (hist at_first_sound) = [Heard (Sound 100 0)] /\
  tape (hist at_first_sound) = [Restarted; SetClock 100; Written (Sound 100 0)] /\
  is_Some (clock_run id (tape (hist at_first_sound))).
Proof.
  split; [by vm_compute|]. split; [by vm_compute|].
  apply (sounds_in_order id 9 2 false [1; 2; 3] [11; 12] at_first_sound).
  apply (listening_sounding (first_sound 100 ++ write_sound ++ steps 2 TStream)). vm_compute. reflexivity.
Defined.

Lemma drop_empties_track_witness :
  fates (hist at_the_drop) = [Cut (Sound 100 0)] /\ stream_q (ln at_the_drop) = [].
Proof.
  split; [by vm_compute|].
  apply (drop_empties_track id 9 2 false [1; 2; 3] [11; 12] at_the_drop); [done| |by vm_compute].
  apply (listening_sounding (first_sound 100 ++ write_sound ++ drop_begins ++ drop_ends)). vm_compute. reflexivity.
Defined.

(** ** What the code does not do *)

Definition then_ (l : list (thread * answers)) (t : thread) (a : answers) : option outcome :=
  option_map (exec id 9 2 false t a) (listening l).

(** A seek when the codec was given data it could not use, before any sound:
    [audio_buffersrc_ctx] was never initialised and is freed. *)
Example flush_before_sound_crashes :
  then_ (read_one ++ steps 4 TDecoder ++ [(TDecoder, reply SendInvalid ReceiveAgain SinkAgain ReadOther ReqDrop)] ++
         steps 5 TDecoder ++ drop_begins ++ [receive ReceiveEof SinkEof] ++ steps 2 TDecoder) TDecoder calm = Some Crash.
Proof. by vm_compute. Qed.

(** The audio track is changed between the first sound and its clock: the
    stream with index -2 is looked at. *)
Example track_change_crashes :
  then_ (first_sound 100 ++ [ask (ReqStream 129)]) TDecoder calm = Some Crash.
Proof. by vm_compute. Qed.

(** When the queue of the audio stream refuses a packet its frame is given
    back by the audio stream and once more by the decoder. *)
Example refused_frame_released_twice :
  option_map (fun o => match o with Next s => frame_pool (mem s) | _ => [] end)
    (then_ (first_sound 100 ++ steps 1 TDecoder) TDecoder
      (Answers None true SendOk ReceiveAgain GraphOk true SinkAgain true WriteRefused 0 true ReadOther None ReqDrop false false)) =
  Some [3; 3; 1; 2].
Proof. by vm_compute. Qed.

(** A frame without samples is never given back. *)
Example empty_frame_lost :
  option_map (fun o => match o with Next s => (stream_q (ln s), lost_frames (hist s)) | _ => ([], []) end)
    (then_ (first_sound 100 ++ steps 1 TDecoder) TDecoder
      (Answers None true SendOk ReceiveAgain GraphOk true SinkAgain true WriteEmpty 0 true ReadOther None ReqDrop false false)) =
  Some ([Clock 100], [3]).
Proof. by vm_compute. Qed.

(** A codec that cannot be opened ends the decoder without a word to the
    control thread. *)
Example missing_codec_is_silent :
  option_map (fun o => match o with Next s => d_pc (dec s) | _ => AStart end)
    (then_ (read_one ++ steps 3 TDecoder) TDecoder
      (Answers None true SendOk ReceiveAgain GraphOk true SinkAgain true WriteOk 0 false ReadOther None ReqDrop false false)) =
  Some (AExit Silent).
Proof. by vm_compute. Qed.
