(* ===== verification/Dvd.v ===== *)
(** * DVD input (src/lib/dvdio.c)

    The stream layer the player uses for DVDs.  libdvdnav delivers blocks of
    data interleaved with navigation events; [avio_read_packet], the read
    callback of the demuxer, hands out the data and turns the events into
    synchronous messages to the player.  It runs in the thread of the stream
    parser and holds the lock of the instance except while it waits on the
    condition variable; the input handler runs in the main thread and takes
    the lock, the control thread starts, seeks and closes.

    A step of the reader is the code up to the next wait or to the next
    access to [closed], which is written without the lock.  What libdvdnav
    answers is in [nav] and [answers].  [src] (the data of the blocks since
    the last call of [avbox_dvdio_play]), [given] (the data handed out since
    then) and [log] are never read by the code. *)

From S2P Require Import Prelude.

(** ** Data *)

Definition DVD_VIDEO_LB_LEN : Z := 2048.

Definition DVD_AUDIO_FORMAT_AC3 : Z := 0.
Definition DVD_AUDIO_FORMAT_MPEG2_EXT : Z := 3.
Definition DVD_AUDIO_FORMAT_LPCM : Z := 4.
Definition DVD_AUDIO_FORMAT_DTS : Z := 6.

Record area := Area { area_x : Z; area_y : Z; area_w : Z; area_h : Z }.

(** A button of a menu, as far as it is used. *)
Record btni := Btni { x_start : Z; x_end : Z; y_end : Z }.

(** What libdvdnav answers to the queries of one step. *)
Record nav := Nav {
  btn_ns : Z; btnit : list btni; btnid : Z;
  domain_vts : bool; domain_fp : bool;
  title_string : option (list Z); title_info : option (Z * Z); title_duration : option Z;
  current_time : Z; number_of_parts : option Z;
  audio_stream : Z; audio_channels : Z; audio_format : Z
}.

Inductive event :=
  | BLOCK_OK | NOP | STOP | HOP_CHANNEL | WAIT | STILL_FRAME (length : Z) | VTS_CHANGE | CELL_CHANGE
  | AUDIO_STREAM_CHANGE | SPU_CLUT_CHANGE | SPU_STREAM_CHANGE | HIGHLIGHT | NAV_PACKET | UNKNOWN_EVENT.

#[export] Instance event_eq_dec : EqDecision event.
Proof. solve_decision. Defined.

(** Messages to the player; [SET_DURATION None] is an uninitialised value. *)
Inductive ctlmsg :=
  | FLUSH | STILL (length : Z) | SET_TITLE (title : list Z) | SET_DURATION (duration : option Z)
  | CHANGE_AUDIO_TRACK (id : Z) | SET_POSITION (pos : Z) | UPDATE.

Inductive key := CONTEXT | ENTER | BACK | ARROW_UP | ARROW_DOWN | ARROW_LEFT | ARROW_RIGHT | OTHER_KEY.

Inductive effect :=
  | Send (m : ctlmsg) (* and wait for the answer *) | Answered | Post (m : ctlmsg)
  | WaitSkip | StillSkip | MenuCall | TopSearch | Activate | GoUp | Select (k : key) | PartPlay (title part : Z)
  | Play | Grab | Release | NavClose | Free | Handled (continue : bool)
  | Read (bufsz : Z) (data : list Z) | Eof.

Record avbox_dvdio := DvdIo {
  closed : bool; blocking : bool; playing : bool; waiting : bool; still_frame : bool; have_input : bool;
  active_stream : Z; active_stream_fmt : Z; active_stream_ch : Z;
  buf : option Z; mem : list Z; blen : Z; highlight : area
}.

Definition with_closed (v : bool) (i : avbox_dvdio) : avbox_dvdio :=
  DvdIo v (blocking i) (playing i) (waiting i) (still_frame i) (have_input i) (active_stream i)
    (active_stream_fmt i) (active_stream_ch i) (buf i) (mem i) (blen i) (highlight i).
Definition with_blocking (v : bool) (i : avbox_dvdio) : avbox_dvdio :=
  DvdIo (closed i) v (playing i) (waiting i) (still_frame i) (have_input i) (active_stream i)
    (active_stream_fmt i) (active_stream_ch i) (buf i) (mem i) (blen i) (highlight i).
Definition with_playing (v : bool) (i : avbox_dvdio) : avbox_dvdio :=
  DvdIo (closed i) (blocking i) v (waiting i) (still_frame i) (have_input i) (active_stream i)
    (active_stream_fmt i) (active_stream_ch i) (buf i) (mem i) (blen i) (highlight i).
Definition with_waiting (v : bool) (i : avbox_dvdio) : avbox_dvdio :=
  DvdIo (closed i) (blocking i) (playing i) v (still_frame i) (have_input i) (active_stream i)
    (active_stream_fmt i) (active_stream_ch i) (buf i) (mem i) (blen i) (highlight i).
Definition with_still_frame (v : bool) (i : avbox_dvdio) : avbox_dvdio :=
  DvdIo (closed i) (blocking i) (playing i) (waiting i) v (have_input i) (active_stream i)
    (active_stream_fmt i) (active_stream_ch i) (buf i) (mem i) (blen i) (highlight i).
Definition with_have_input (v : bool) (i : avbox_dvdio) : avbox_dvdio :=
  DvdIo (closed i) (blocking i) (playing i) (waiting i) (still_frame i) v (active_stream i)
    (active_stream_fmt i) (active_stream_ch i) (buf i) (mem i) (blen i) (highlight i).
Definition with_active (stream fmt ch : Z) (i : avbox_dvdio) : avbox_dvdio :=
  DvdIo (closed i) (blocking i) (playing i) (waiting i) (still_frame i) (have_input i) stream fmt ch
    (buf i) (mem i) (blen i) (highlight i).
Definition with_buf (v : option Z) (i : avbox_dvdio) : avbox_dvdio :=
  DvdIo (closed i) (blocking i) (playing i) (waiting i) (still_frame i) (have_input i) (active_stream i)
    (active_stream_fmt i) (active_stream_ch i) v (mem i) (blen i) (highlight i).
Definition with_mem (v : list Z) (i : avbox_dvdio) : avbox_dvdio :=
  DvdIo (closed i) (blocking i) (playing i) (waiting i) (still_frame i) (have_input i) (active_stream i)
    (active_stream_fmt i) (active_stream_ch i) (buf i) v (blen i) (highlight i).
Definition with_blen (v : Z) (i : avbox_dvdio) : avbox_dvdio :=
  DvdIo (closed i) (blocking i) (playing i) (waiting i) (still_frame i) (have_input i) (active_stream i)
    (active_stream_fmt i) (active_stream_ch i) (buf i) (mem i) v (highlight i).
Definition with_highlight (v : area) (i : avbox_dvdio) : avbox_dvdio :=
  DvdIo (closed i) (blocking i) (playing i) (waiting i) (still_frame i) (have_input i) (active_stream i)
    (active_stream_fmt i) (active_stream_ch i) (buf i) (mem i) (blen i) v.

(** Where the reader is: [RTest] before the test of [closed], [RNext] before
    the next block, then the waits for an answer of the player and, in
    [RStillPause], on the condition variable. *)
Inductive reader :=
  | RIdle | RTest | RNext
  | RWaitFlush | RStillWait | RStillPause
  | RVtsFlush | RVtsTitle (duration : option Z) | RVtsDuration
  | RAudioFlush (stream fmt ch id : Z) | RAudioTrack (stream fmt ch : Z) | RPosition.

Record dvd := Dvd {
  inst : avbox_dvdio; rd : reader; bufsz : Z; pending_msg : bool;
  log : list effect; src : list Z; given : list Z
}.

Definition upd_inst (f : avbox_dvdio -> avbox_dvdio) (s : dvd) : dvd :=
  Dvd (f (inst s)) (rd s) (bufsz s) (pending_msg s) (log s) (src s) (given s).
Definition set_rd (v : reader) (s : dvd) : dvd :=
  Dvd (inst s) v (bufsz s) (pending_msg s) (log s) (src s) (given s).
Definition set_bufsz (v : Z) (s : dvd) : dvd :=
  Dvd (inst s) (rd s) v (pending_msg s) (log s) (src s) (given s).
Definition set_pending (v : bool) (s : dvd) : dvd :=
  Dvd (inst s) (rd s) (bufsz s) v (log s) (src s) (given s).
Definition emit (e : effect) (s : dvd) : dvd :=
  Dvd (inst s) (rd s) (bufsz s) (pending_msg s) (log s ++ [e]) (src s) (given s).
Definition set_data (a b : list Z) (s : dvd) : dvd :=
  Dvd (inst s) (rd s) (bufsz s) (pending_msg s) (log s) a b.

Record answers := Answers {
  a_nav : nav; a_block : option (event * list Z); a_alloc : bool; a_grab : bool;
  a_bufsz : Z; a_key : key; a_skip_to_menu : bool; a_seek : Z
}.

Inductive outcome := Next (s : dvd) | Blocked | Crash.

Definition need {A} (o : option A) (k : A -> outcome) : outcome :=
  match o with Some x => k x | None => Crash end.

(** ** The buffer *)

(** [n] bytes of [mem] at [off]. *)
Definition bytes_at (m : list Z) (off n : Z) : option (list Z) :=
  if (0 <=? off) && (0 <=? n) && (off + n <=? len m) then Some (take (Z.to_nat n) (drop (Z.to_nat off) m)) else None.

(** [dvdnav_get_next_block] stores into [mem]. *)
Definition store_block (data : list Z) (i : avbox_dvdio) : option avbox_dvdio :=
  if len data <=? len (mem i)
  then Some (with_blen (len data) (with_buf (Some 0) (with_mem (data ++ drop (length data) (mem i)) i))) else None.

(** Return [n] bytes at [off], keeping what does not fit. *)
Definition copy_out (off : Z) (s : dvd) : outcome :=
  let i := inst s in
  let n := if blen i <=? bufsz s then blen i else bufsz s in
  need (bytes_at (mem i) off n) (fun data =>
    let i := if blen i <=? bufsz s then with_buf None i
             else with_buf (Some (off + bufsz s)) (with_blen (blen i - bufsz s) i) in
    let s := upd_inst (fun _ => with_blocking false i) s in
    Next (set_rd RIdle (emit (Read (bufsz s) data) (set_data (src s) (given s ++ data) s)))).

Definition return_eof (s : dvd) : outcome :=
  Next (set_rd RIdle (emit Eof (upd_inst (with_blocking false) s))).

(** [avbox_player_sendctl] with an argument on the stack, then the wait. *)
Definition send_wait (m : ctlmsg) (k : reader) (s : dvd) : dvd := set_rd k (set_pending true (emit (Send m) s)).

(** The end of the loop body after an event. *)
Definition next_event (s : dvd) : dvd := set_rd RTest (upd_inst (with_buf None) s).

(** ** Menus *)

Definition avbox_dvdio_process_menus (v : nav) (s : dvd) : option dvd :=
  let h := highlight (inst s) in
  if btnid v - 1 <? btn_ns v then
    if btnid v - 1 <? 0 then None
    else
      b ← btnit v !! Z.to_nat (btnid v - 1);
      if negb ((area_x h =? x_start b) && (area_y h =? y_end b) && (area_w h =? x_end b - x_start b))
      then Some (emit (Post UPDATE) (upd_inst (with_highlight (Area (x_start b) (y_end b) (x_end b - x_start b) 5)) s))
      else Some s
  else if negb (area_x h =? 0) || negb (area_y h =? 0)
  then Some (emit (Post UPDATE) (upd_inst (with_highlight (Area 0 0 (area_w h) (area_h h))) s))
  else Some s.

Definition avbox_dvdio_get_stream_id (format active_stream : Z) : Z :=
  if format =? DVD_AUDIO_FORMAT_DTS then Z.lor active_stream 0x88
  else if format =? DVD_AUDIO_FORMAT_AC3 then Z.lor active_stream 0x80
  else if format =? DVD_AUDIO_FORMAT_LPCM then Z.lor active_stream 0xa0
  else if format =? DVD_AUDIO_FORMAT_MPEG2_EXT then Z.lor active_stream 0xc0
  else -1.

(** ** The read callback *)

(** Units of 90 kHz to microseconds, truncated to seconds. *)
Definition pts_to_us (t : Z) : Z := Z.quot t 90000 * 1000 * 1000.

(** Underscores become spaces. *)
Definition spaced (t : list Z) : list Z := map (fun c => if c =? 95 then 32 else c) t.

Definition unknown_title : list Z := [85; 110; 107; 110; 111; 119; 110].

(** The title sent to the player: a copy, or the string of libdvdnav when
    there is no memory for one. *)
Definition vts_title (alloc : bool) (t : option (list Z)) : option (list Z) :=
  match t, alloc with
  | Some t, true => Some (spaced t) | Some t, false => Some t
  | None, true => Some (spaced unknown_title) | None, false => None
  end.

Definition vts_duration (v : nav) : option Z :=
  match title_info v with
  | None => Some 0
  | Some _ => d ← title_duration v; Some (wraps 64 (wrapu 64 (pts_to_us d)))
  end.

(** [DVDNAV_AUDIO_STREAM_CHANGE]. *)
Definition audio_stream_change (v : nav) (s : dvd) : outcome :=
  let i := inst s in
  if playing i then
    if negb ((active_stream i =? audio_stream v) && (active_stream_ch i =? audio_channels v) &&
             (active_stream_fmt i =? audio_format v))
    then Next (send_wait FLUSH (RAudioFlush (audio_stream v) (audio_format v) (audio_channels v)
                 (avbox_dvdio_get_stream_id (audio_format v) (audio_stream v))) s)
    else Next (next_event s)
  else Next (next_event s).

(** [DVDNAV_NAV_PACKET]. *)
Definition nav_packet (v : nav) (s : dvd) : outcome :=
  if playing (inst s) then
    need (avbox_dvdio_process_menus v s) (fun s =>
      if in_s 64 (pts_to_us (current_time v))
      then Next (send_wait (SET_POSITION (pts_to_us (current_time v))) RPosition s) else Crash)
  else Next (next_event s).

(** The switch over the event. *)
Definition handle_event (a : answers) (e : event) (s : dvd) : outcome :=
  let v := a_nav a in
  let i := inst s in
  match e with
  | BLOCK_OK => need (buf i) (fun off => copy_out off s)
  | NOP | CELL_CHANGE | SPU_CLUT_CHANGE | SPU_STREAM_CHANGE | HIGHLIGHT => Next (next_event s)
  | STOP => Next (next_event (upd_inst (with_closed true) s))
  | HOP_CHANNEL | WAIT =>
      if playing i then Next (send_wait FLUSH RWaitFlush (upd_inst (with_waiting true) s))
      else Next (next_event (emit WaitSkip s))
  | STILL_FRAME l =>
      if still_frame i then Next (set_rd RStillPause s)
      else if playing i then
        let s := upd_inst (with_still_frame true) s in
        if l <? 0xff then Next (send_wait (STILL l) RStillWait s) else Next (next_event (emit (Post (STILL l)) s))
      else Next (next_event (emit StillSkip s))
  | VTS_CHANGE =>
      if playing i then Next (send_wait FLUSH RVtsFlush (upd_inst (with_waiting true) s)) else Next (next_event s)
  | AUDIO_STREAM_CHANGE => audio_stream_change v s
  | NAV_PACKET => nav_packet v s
  | UNKNOWN_EVENT => Crash
  end.

(** The player has answered. *)
Definition after_wait (a : answers) (s : dvd) : outcome :=
  let v := a_nav a in
  if pending_msg s then Blocked
  else match rd s with
  | RWaitFlush => Next (next_event (upd_inst (with_waiting false) (emit WaitSkip s)))
  | RStillWait => Next (next_event (upd_inst (with_still_frame false) (emit StillSkip s)))
  | RVtsFlush =>
      need (vts_title (a_alloc a) (title_string v)) (fun title =>
        Next (send_wait (SET_TITLE title) (RVtsTitle (vts_duration v)) s))
  | RVtsTitle duration => Next (send_wait (SET_DURATION duration) RVtsDuration s)
  | RVtsDuration => Next (next_event (upd_inst (with_waiting false) s))
  | RAudioFlush stream fmt ch id => Next (send_wait (CHANGE_AUDIO_TRACK id) (RAudioTrack stream fmt ch) s)
  | RAudioTrack stream fmt ch => Next (next_event (upd_inst (with_active stream fmt ch) s))
  | RPosition => Next (next_event s)
  | _ => Blocked
  end.

Definition avio_read_packet (a : answers) (s : dvd) : outcome :=
  match rd s with
  | RIdle => Next (set_rd RTest (set_bufsz (a_bufsz a) (upd_inst (with_blocking true) s)))
  | RTest => if closed (inst s) then return_eof s else Next (set_rd RNext s)
  | RNext =>
      match buf (inst s) with
      | Some off => copy_out off s
      | None =>
          match a_block a with
          | None => return_eof s
          | Some (e, data) =>
              need (store_block data (inst s)) (fun i =>
                let s := upd_inst (fun _ => i) s in
                handle_event a e (match e with BLOCK_OK => set_data (src s ++ data) (given s) s | _ => s end))
          end
      end
  | RStillPause => Next (next_event s)
  | _ => after_wait a s
  end.

(** ** The other threads *)

(** The reader holds the lock. *)
Definition locked (s : dvd) : bool := match rd s with RIdle | RStillPause => false | _ => true end.

(** The control thread of the player answers the message. *)
Definition player_answers (s : dvd) : outcome :=
  if pending_msg s then Next (set_pending false (emit Answered s)) else Blocked.

Definition in_menu (v : nav) : bool := negb (domain_vts v) && negb (domain_fp v).

Definition when_menu (v : nav) (f : dvd -> dvd) (s : dvd) : dvd := if in_menu v then f s else s.

(** [AVBOX_MESSAGETYPE_INPUT] of [avbox_dvdio_control]. *)
Definition avbox_dvdio_control (a : answers) (s : dvd) : outcome :=
  let v := a_nav a in
  let finish s := need (avbox_dvdio_process_menus v s) (fun s => Next (emit (Handled false) s)) in
  if locked s then Blocked
  else match a_key a with
  | CONTEXT => finish (upd_inst (with_still_frame false) (emit MenuCall s))
  | ENTER => finish (when_menu v (fun s => upd_inst (with_still_frame false) (emit Activate s)) s)
  | BACK => Next (emit (Handled true) (when_menu v (fun s => upd_inst (with_still_frame false) (emit GoUp s)) s))
  | OTHER_KEY => Next (emit (Handled true) s)
  | k => finish (when_menu v (emit (Select k)) s)
  end.

Definition avbox_dvdio_play (a : answers) (s : dvd) : outcome :=
  if locked s then Blocked
  else
    let s := upd_inst (fun i => with_buf None (with_playing true i)) (set_data [] [] s) in
    let s := emit (if a_skip_to_menu a then MenuCall else TopSearch) (emit Play s) in
    Next (if a_grab a then upd_inst (with_have_input true) (emit Grab s) else s).

Definition avbox_dvdio_highlight (s : dvd) : option area :=
  let h := highlight (inst s) in if (area_x h =? 0) && (area_y h =? 0) then None else Some h.

Definition avbox_dvdio_is_blocking (s : dvd) : bool := blocking (inst s).

Definition avbox_dvdio_underrun_expected (v : nav) (s : dvd) : bool :=
  true || (in_menu v || waiting (inst s) || still_frame (inst s)).

Definition avbox_dvdio_can_pause (v : nav) : bool := domain_fp v || domain_vts v.

(** Only messages are logged when the part is outside of the title. *)
Definition avbox_dvdio_seek (a : answers) (s : dvd) : outcome :=
  match title_info (a_nav a) with
  | None => Next s
  | Some (title, part) =>
      if title =? -1 then Next s
      else match number_of_parts (a_nav a) with
      | None => Next s
      | Some _ => Next (emit (PartPlay title (wraps 32 (part + a_seek a))) s)
      end
  end.

Definition avbox_dvdio_close (s : dvd) : outcome :=
  if closed (inst s) then Next s
  else Next (upd_inst (with_closed true) (if have_input (inst s) then emit Release s else s)).

(** [AVBOX_MESSAGETYPE_DESTROY]. *)
Definition dvdio_destroy (s : dvd) : outcome := Next (if closed (inst s) then s else emit NavClose s).

(** ** Opening *)

Inductive resource := RInst | RPath | RAvioBuffer | RAvio | RNav | RObject.

#[export] Instance resource_eq_dec : EqDecision resource.
Proof. solve_decision. Defined.

Record open_answers := OpenAnswers {
  o_inst : bool; o_mutex : bool; o_path : bool; o_buffer : bool; o_avio : bool; o_nav : bool; o_setup : bool;
  o_object : bool
}.

Definition opened : avbox_dvdio :=
  DvdIo false false false false false false (-1) 0xffff 0 None (replicate (Z.to_nat DVD_VIDEO_LB_LEN) 0) 0 (Area 0 0 0 0).

Definition free_resource (r : resource) (live : list resource) : list resource := filter (fun x => x <> r) live.

(** The label [end] when nothing is returned. *)
Definition open_failed (live : list resource) : list resource :=
  free_resource RInst (free_resource RPath (free_resource RNav (free_resource RAvio live))).

(** [AVBOX_MESSAGETYPE_CLEANUP]. *)
Definition dvdio_cleanup (live : list resource) : list resource := free_resource RInst (free_resource RAvio live).

(** The instance, if it could be opened, and what stays allocated. *)
Definition avbox_dvdio_open (o : open_answers) : option dvd * list resource :=
  if negb (o_inst o) then (None, [])
  else if negb (o_mutex o) then (None, open_failed [RInst])
  else if negb (o_path o) then (None, open_failed [RInst])
  else if negb (o_buffer o) then (None, open_failed [RInst; RPath])
  else if negb (o_avio o) then (None, open_failed [RInst; RPath; RAvioBuffer])
  else if negb (o_nav o) then (None, open_failed [RInst; RPath; RAvioBuffer; RAvio])
  else if negb (o_setup o) then (None, open_failed [RInst; RPath; RAvioBuffer; RAvio; RNav])
  else if negb (o_object o) then (None, open_failed [RInst; RPath; RAvioBuffer; RAvio; RNav])
  else (Some (Dvd opened RIdle 0 false [] [] []), [RInst; RPath; RAvioBuffer; RAvio; RNav; RObject]).

(** ** Runs *)

Inductive thread := TReader | TPlayer | TInput | TPlay | TSeek | TClose.

Definition exec (t : thread) (a : answers) (s : dvd) : outcome :=
  match t with
  | TReader => avio_read_packet a s
  | TPlayer => player_answers s
  | TInput => avbox_dvdio_control a s
  | TPlay => avbox_dvdio_play a s
  | TSeek => avbox_dvdio_seek a s
  | TClose => avbox_dvdio_close s
  end.
