(* ===== verification/DvdReads.v ===== *)
(** * What DVD input guarantees

    Proofs about [Dvd]: in every interleaving of the reader with the player,
    the input handler and the control thread the demuxer is given the data
    of the blocks in order, and the player the messages of the events in an
    order it can rely on. *)

From S2P Require Import Prelude Dvd.

(** What libdvdnav and FFmpeg document: a block fits its buffer and is not
    empty, the table has as many buttons as it says, and a read asks for
    something. *)
Definition promised (a : answers) : Prop :=
  (forall e d, a_block a = Some (e, d) -> len d <= DVD_VIDEO_LB_LEN /\ (e = BLOCK_OK -> 0 < len d)) /\
  0 < a_bufsz a /\ btn_ns (a_nav a) <= len (btnit (a_nav a)).

(** What the code is not prepared for: an event it does not know, button 0
    for no button, which it looks up before the start of the table, no
    memory for the name of a title without one, and a position that does
    not fit in 64 bits. *)
Inductive fault (a : answers) : Prop :=
  | UnknownEvent d : a_block a = Some (UNKNOWN_EVENT, d) -> fault a
  | NoButton : btnid (a_nav a) < 1 -> fault a
  | NoTitle : title_string (a_nav a) = None -> a_alloc a = false -> fault a
  | WildTime : in_s 64 (pts_to_us (current_time (a_nav a))) = false -> fault a.

Definition admissible (a : answers) : Prop := promised a /\ ~ fault a.

Lemma dvd_admissible_iff a :
  admissible a <->
  (forall e d, a_block a = Some (e, d) ->
     e <> UNKNOWN_EVENT /\ len d <= DVD_VIDEO_LB_LEN /\ (e = BLOCK_OK -> 0 < len d)) /\
  0 < a_bufsz a /\ 1 <= btnid (a_nav a) /\ btn_ns (a_nav a) <= len (btnit (a_nav a)) /\
  (title_string (a_nav a) <> None \/ a_alloc a = true) /\ in_s 64 (pts_to_us (current_time (a_nav a))) = true.
Proof.
  split.
  - intros [(Hb & Hs & Hn) Hf]. split_and!; try done.
    + intros e d He. split; [|by apply Hb in He]. intros ->. apply Hf. by eapply UnknownEvent.
    + apply Z.nlt_ge. intros H. apply Hf, NoButton. lia.
    + destruct (title_string (a_nav a)) eqn:Et; [by left|right]. destruct (a_alloc a) eqn:Ea; [done|].
      destruct Hf. by apply NoTitle.
    + destruct (in_s 64 _) eqn:E; [done|]. destruct Hf. by apply WildTime.
  - intros (Hb & Hs & H1 & Hn & Ht & Hc). split.
    + split_and!; try done. intros e d He. by apply Hb in He as (_ & ? & ?).
    + intros [d He|H|He Ha|H]; [by apply Hb in He as (? & _)|lia| |congruence]. destruct Ht; congruence.
Qed.

Lemma dvd_fault_or_not a : fault a \/ ~ fault a.
Proof.
  destruct (decide (btnid (a_nav a) < 1)); [left; by apply NoButton|].
  destruct (in_s 64 (pts_to_us (current_time (a_nav a)))) eqn:Ec; [|left; by apply WildTime].
  destruct (decide (title_string (a_nav a) = None /\ a_alloc a = false)) as [[? ?]|Ht]; [left; by apply NoTitle|].
  destruct (a_block a) as [[e d]|] eqn:Eb.
  - destruct (decide (e = UNKNOWN_EVENT)) as [->|He]; [left; by eapply UnknownEvent|].
    right. intros [d' H|H|H1 H2|H]; [congruence|done|by apply Ht|congruence].
  - right. intros [d' H|H|H1 H2|H]; [congruence|done|by apply Ht|congruence].
Qed.

Definition step (s s' : dvd) : Prop := exists t a, admissible a /\ exec t a s = Next s'.

(** ** The order of messages *)

(** Whether playback was started, whether an answer is outstanding, and the
    last message that was sent. *)
Record proto := Proto { started : bool; outstanding : bool; last_sent : option ctlmsg }.

(** Title and track only after a flush, the duration after the title. *)
Definition follows (last : option ctlmsg) (m : ctlmsg) : bool :=
  match m, last with
  | SET_TITLE _, Some FLUSH | CHANGE_AUDIO_TRACK _, Some FLUSH | SET_DURATION _, Some (SET_TITLE _) => true
  | SET_TITLE _, _ | CHANGE_AUDIO_TRACK _, _ | SET_DURATION _, _ => false
  | _, _ => true
  end.

Definition proto_step (p : proto) (e : effect) : option proto :=
  match e with
  | Send m =>
      if started p && negb (outstanding p) && follows (last_sent p) m then Some (Proto true true (Some m)) else None
  | Answered => if outstanding p then Some (Proto (started p) false (last_sent p)) else None
  | Post (STILL _) => if started p then Some p else None
  | WaitSkip =>
      if started p then
        match outstanding p, last_sent p with false, Some FLUSH => Some p | _, _ => None end
      else Some p
  | StillSkip =>
      if started p then
        match outstanding p, last_sent p with false, Some (STILL _) => Some p | _, _ => None end
      else Some p
  | Play => Some (Proto true (outstanding p) (last_sent p))
  | _ => Some p
  end.

Definition protocol (l : list effect) : option proto :=
  foldl (fun o e => p ← o; proto_step p e) (Some (Proto false false None)) l.

Lemma protocol_snoc l e p : protocol l = Some p -> protocol (l ++ [e]) = proto_step p e.
Proof. intros H. unfold protocol in *. by rewrite foldl_snoc, H. Qed.

(** ** The invariant *)

Definition read_ok (e : effect) : Prop := match e with Read n d => 0 < len d <= n | _ => True end.

(** Data that was read from the disc and not yet handed out. *)
Definition pending (s : dvd) : list Z :=
  match rd s, buf (inst s) with
  | (RIdle | RTest | RNext), Some off => take (Z.to_nat (blen (inst s))) (drop (Z.to_nat off) (mem (inst s)))
  | _, _ => []
  end.

Definition in_range (s : dvd) : Prop :=
  match rd s, buf (inst s) with
  | (RIdle | RTest | RNext), Some off => 0 <= off /\ 0 < blen (inst s) /\ off + blen (inst s) <= DVD_VIDEO_LB_LEN
  | _, _ => True
  end.

(** The message the reader has sent. *)
Definition sent_ok (r : reader) (m : option ctlmsg) : Prop :=
  match r with
  | RWaitFlush | RVtsFlush | RAudioFlush _ _ _ _ => m = Some FLUSH
  | RStillWait => exists l, m = Some (STILL l)
  | RVtsTitle _ => exists t, m = Some (SET_TITLE t)
  | _ => True
  end.

Definition waits (r : reader) : bool := match r with RIdle | RTest | RNext | RStillPause => false | _ => true end.

Definition idle (r : reader) : bool := match r with RIdle => true | _ => false end.

Record inv (s : dvd) : Prop := Inv {
  inv_mem : len (mem (inst s)) = DVD_VIDEO_LB_LEN;
  inv_blocking : blocking (inst s) = negb (idle (rd s));
  inv_waits : waits (rd s) = false -> pending_msg s = false;
  inv_playing : waits (rd s) = true -> playing (inst s) = true;
  inv_bufsz : idle (rd s) = false -> 0 < bufsz s;
  inv_range : in_range s;
  inv_data : src s = given s ++ pending s;
  inv_reads : Forall read_ok (log s);
  inv_proto : exists m, protocol (log s) = Some (Proto (playing (inst s)) (pending_msg s) m) /\ sent_ok (rd s) m
}.

(** ** The buffer *)

Lemma bytes_at_Some m off n :
  0 <= off -> 0 <= n -> off + n <= len m ->
  bytes_at m off n = Some (take (Z.to_nat n) (drop (Z.to_nat off) m)).
Proof. intros. unfold bytes_at. destruct (_ && _) eqn:E; [done|]. zify_bool. lia. Qed.

Lemma take_drop_split (m : list Z) off k n :
  0 <= off -> 0 <= k <= n ->
  take (Z.to_nat n) (drop (Z.to_nat off) m) =
  take (Z.to_nat k) (drop (Z.to_nat off) m) ++ take (Z.to_nat (n - k)) (drop (Z.to_nat (off + k)) m).
Proof.
  intros Ho Hk. replace (Z.to_nat n) with (Z.to_nat k + Z.to_nat (n - k))%nat by lia.
  rewrite <- take_take_drop, drop_drop. by replace (Z.to_nat off + Z.to_nat k)%nat with (Z.to_nat (off + k)) by lia.
Qed.

Lemma copy_out_inv off s m :
  len (mem (inst s)) = DVD_VIDEO_LB_LEN -> 0 < bufsz s -> 0 <= off -> 0 < blen (inst s) ->
  off + blen (inst s) <= DVD_VIDEO_LB_LEN ->
  src s = given s ++ take (Z.to_nat (blen (inst s))) (drop (Z.to_nat off) (mem (inst s))) ->
  Forall read_ok (log s) -> pending_msg s = false ->
  protocol (log s) = Some (Proto (playing (inst s)) false m) ->
  exists s', copy_out off s = Next s' /\ inv s'.
Proof.
  intros Hm Hb Ho Hl Hr Hd Hf Hp Hpr. unfold copy_out, DVD_VIDEO_LB_LEN in *.
  destruct (blen (inst s) <=? bufsz s) eqn:E; zify_bool; rewrite bytes_at_Some by lia; cbn [need];
    eexists; (split; [done|]); split; cbn; try done; unfold in_range, pending, DVD_VIDEO_LB_LEN; cbn.
  - by rewrite Hd, app_nil_r.
  - apply Forall_app_2; [done|]. apply Forall_singleton. unfold read_ok, len in *. rewrite length_take, length_drop. lia.
  - exists m. by rewrite (protocol_snoc _ _ _ Hpr), Hp.
  - lia.
  - rewrite Hd, <- app_assoc. f_equal. apply take_drop_split; lia.
  - apply Forall_app_2; [done|]. apply Forall_singleton. unfold read_ok, len in *. rewrite length_take, length_drop. lia.
  - exists m. by rewrite (protocol_snoc _ _ _ Hpr), Hp.
Qed.

Lemma store_block_ok d i :
  len (mem i) = DVD_VIDEO_LB_LEN -> len d <= DVD_VIDEO_LB_LEN ->
  exists i', store_block d i = Some i' /\ len (mem i') = DVD_VIDEO_LB_LEN /\ buf i' = Some 0 /\ blen i' = len d /\
    take (length d) (mem i') = d /\ blocking i' = blocking i /\ playing i' = playing i.
Proof.
  intros Hm Hd. unfold store_block. rewrite (proj2 (Z.leb_le _ _)) by lia. eexists. split; [done|]. cbn.
  unfold len, DVD_VIDEO_LB_LEN in *. rewrite length_app, length_drop, take_app_length. repeat split. lia.
Qed.

(** Menus change the highlight and post updates. *)
Lemma process_menus_spec v s s' :
  avbox_dvdio_process_menus v s = Some s' ->
  exists h l, s' = Dvd (with_highlight h (inst s)) (rd s) (bufsz s) (pending_msg s) (log s ++ l) (src s) (given s) /\
    (l = [] \/ l = [Post UPDATE]).
Proof.
  unfold avbox_dvdio_process_menus. intros H. destruct s as [[] r b pm lg sr gv]. cbn in *.
  repeat case_match; simplify_option_eq; repeat case_match; simplify_eq.
  all: first [eexists _, [Post UPDATE]; split; [reflexivity|by right]
             | eexists _, []; split; [rewrite app_nil_r; reflexivity|by left]].
Qed.

Lemma process_menus_total v s :
  1 <= btnid v -> btn_ns v <= len (btnit v) -> is_Some (avbox_dvdio_process_menus v s).
Proof.
  intros H1 H2. unfold avbox_dvdio_process_menus. destruct (btnid v - 1 <? btn_ns v) eqn:E; zify_bool.
  - destruct (btnid v - 1 <? 0) eqn:E0; zify_bool; [lia|].
    destruct (lookup_lt_is_Some_2 (btnit v) (Z.to_nat (btnid v - 1))) as [b ->]; [unfold len in *; lia|]. cbn. case_match; by eexists.
  - case_match; by eexists.
Qed.

(** Effects of the input handler and of the menus that neither read nor
    concern the protocol. *)
Definition side_effect (e : effect) : Prop :=
  match e with
  | Post UPDATE | MenuCall | TopSearch | Activate | GoUp | Select _ | PartPlay _ _ | Grab | Release | Handled _ => True
  | _ => False
  end.

Lemma side_effects l k p :
  Forall side_effect k -> protocol l = Some p -> Forall read_ok l ->
  protocol (l ++ k) = Some p /\ Forall read_ok (l ++ k).
Proof.
  intros Hk. revert l. induction Hk as [|e k He Hk IH]; intros l Hl Hr; [by rewrite app_nil_r|].
  rewrite cons_middle, app_assoc. apply IH.
  - rewrite (protocol_snoc _ _ _ Hl). by destruct e as [| |[]| | | | | | | | | | | | | | | |].
  - apply Forall_app_2; [done|]. apply Forall_singleton. by destruct e.
Qed.

(** A change that the invariant does not see. *)
Lemma inv_side s s' k :
  inv s -> Forall side_effect k -> log s' = log s ++ k ->
  rd s' = rd s -> bufsz s' = bufsz s -> pending_msg s' = pending_msg s -> src s' = src s -> given s' = given s ->
  blocking (inst s') = blocking (inst s) -> playing (inst s') = playing (inst s) -> buf (inst s') = buf (inst s) ->
  mem (inst s') = mem (inst s) -> blen (inst s') = blen (inst s) -> inv s'.
Proof.
  intros [H1 H2 H3 H4 H5 H6 H7 H8 (m & H9 & H10)] Hk El Er Eb Ep Es Eg Ebl Epl Ebu Em Ebn.
  destruct (side_effects _ k _ Hk H9 H8) as [Hp Hr].
  split; unfold in_range, pending in *; rewrite ?El, ?Er, ?Eb, ?Ep, ?Es, ?Eg, ?Ebl, ?Epl, ?Ebu, ?Em, ?Ebn; try done.
  exists m. split; done.
Qed.

(** ** The reader between an event and the next block *)

Record mid (s : dvd) (m : option ctlmsg) : Prop := Mid {
  mid_mem : len (mem (inst s)) = DVD_VIDEO_LB_LEN;
  mid_blocking : blocking (inst s) = true;
  mid_bufsz : 0 < bufsz s;
  mid_pending : pending_msg s = false;
  mid_data : src s = given s;
  mid_reads : Forall read_ok (log s);
  mid_proto : protocol (log s) = Some (Proto (playing (inst s)) false m)
}.

Lemma mid_upd f s m :
  (forall i, mem (f i) = mem i /\ blocking (f i) = blocking i /\ playing (f i) = playing i) ->
  mid s m -> mid (upd_inst f s) m.
Proof. intros Hf []. destruct (Hf (inst s)) as (E1 & E2 & E3). split; cbn; by rewrite ?E1, ?E2, ?E3. Qed.

Lemma mid_emit e s m :
  (match e with Read _ _ => False | _ => True end) ->
  proto_step (Proto (playing (inst s)) false m) e = Some (Proto (playing (inst s)) false m) ->
  mid s m -> mid (emit e s) m.
Proof.
  intros He Hp []. split; cbn; try done.
  - apply Forall_app_2; [done|]. apply Forall_singleton. by destruct e.
  - by erewrite protocol_snoc.
Qed.

Lemma mid_next s m : mid s m -> inv (next_event s).
Proof.
  intros []. split; cbn; try done; unfold pending; cbn.
  - by rewrite app_nil_r.
  - exists m. by rewrite mid_pending0.
Qed.

Lemma mid_send msg k s m :
  mid s m -> playing (inst s) = true -> follows m msg = true -> waits k = true -> sent_ok k (Some msg) ->
  inv (send_wait msg k s).
Proof.
  intros [] Hpl Hf Hw Hs. split; cbn; try done.
  - rewrite mid_blocking0. by destruct k.
  - by rewrite Hw.
  - unfold in_range. cbn. by destruct k.
  - unfold pending. cbn. destruct k; try discriminate Hw; by rewrite app_nil_r.
  - apply Forall_app_2; [done|]. by apply Forall_singleton.
  - exists (Some msg). split; [|done]. erewrite protocol_snoc by done. cbn. by rewrite Hpl, Hf.
Qed.

Lemma mid_menus v s s' m :
  mid s m -> avbox_dvdio_process_menus v s = Some s' -> mid s' m /\ playing (inst s') = playing (inst s).
Proof.
  intros [] (h & l & -> & Hl)%process_menus_spec. split; [|done].
  assert (Forall side_effect l) as Hse by (destruct Hl as [-> | ->]; [constructor|by apply Forall_singleton]).
  destruct (side_effects _ _ _ Hse mid_proto0 mid_reads0) as [Hp Hr]. by split.
Qed.

#[local] Ltac settle :=
  eexists; split; [reflexivity|];
  first
    [ eapply mid_next; repeat first [eassumption | apply mid_upd; [done|] | apply mid_emit; [done|cbn; try done|]]
    | eapply mid_send; [repeat first [eassumption | apply mid_upd; [done|]]|done|done|done|by cbn; eauto] ].

Lemma handle_event_inv a e s m :
  admissible a -> mid s m -> e <> BLOCK_OK -> e <> UNKNOWN_EVENT -> exists s', handle_event a e s = Next s' /\ inv s'.
Proof.
  intros (_ & _ & Hb & Hn & _ & Hc)%dvd_admissible_iff Hm He Hu. destruct e; try done; unfold handle_event, audio_stream_change, nav_packet.
  all: try (destruct (playing (inst s)) eqn:Hpl); try (by settle).
  all: try (settle; cbn; rewrite Hpl; done).
  - destruct (still_frame (inst s)); [|destruct (length <? 255)].
    + eexists. split; [reflexivity|]. destruct Hm. split; cbn; try done; unfold pending; cbn; [by rewrite app_nil_r|].
      exists m. by rewrite mid_pending0.
    + settle.
    + settle. cbn. by rewrite Hpl.
  - destruct (still_frame (inst s)); [|settle; cbn; by rewrite Hpl].
    eexists. split; [reflexivity|]. destruct Hm. split; cbn; try done; unfold pending; cbn; [by rewrite app_nil_r|].
    exists m. by rewrite mid_pending0.
  - destruct (negb _); settle.
  - destruct (process_menus_total (a_nav a) s Hb Hn) as [s1 Hs1]. rewrite Hs1. cbn [need]. rewrite Hc.
    destruct (mid_menus _ _ _ _ Hm Hs1) as [Hm1 Hp1]. eexists. split; [reflexivity|].
    eapply mid_send; [done|by rewrite Hp1|done|done|done].
Qed.

Lemma waiting_mid s : inv s -> waits (rd s) = true -> pending_msg s = false -> exists m, mid s m /\ sent_ok (rd s) m.
Proof.
  intros [H1 H2 _ _ H5 _ H7 H8 (m & H9 & H10)] Hw Hp. exists m. split; [|done]. rewrite Hp in H9.
  unfold pending in H7. destruct (rd s) eqn:E; try discriminate Hw; rewrite app_nil_r in H7; by split; try (apply H5).
Qed.

Lemma after_wait_inv a s :
  admissible a -> inv s -> waits (rd s) = true ->
  after_wait a s = Blocked \/ exists s', after_wait a s = Next s' /\ inv s'.
Proof.
  intros (_ & _ & _ & _ & Ht & _)%dvd_admissible_iff Hi Hw. unfold after_wait. destruct (pending_msg s) eqn:Hp; [by left|right].
  destruct (waiting_mid _ Hi Hw Hp) as (m & Hm & Hs). pose proof (inv_playing _ Hi Hw) as Hpl.
  destruct (rd s) eqn:E; try discriminate Hw; cbn in Hs.
  - subst. settle. cbn. by rewrite Hpl.
  - destruct Hs as [l ->]. settle. cbn. by rewrite Hpl.
  - subst. destruct (vts_title (a_alloc a) (title_string (a_nav a))) as [t|] eqn:Et.
    + cbn [need]. settle.
    + destruct (title_string (a_nav a)), (a_alloc a); try done. by destruct Ht.
  - destruct Hs as [t ->]. settle.
  - settle.
  - subst. settle.
  - settle.
  - settle.
Qed.

Lemma return_eof_inv s : inv s -> rd s = RTest \/ rd s = RNext /\ buf (inst s) = None ->
  exists s', return_eof s = Next s' /\ inv s'.
Proof.
  intros [H1 H2 H3 H4 H5 H6 H7 H8 (m & H9 & H10)] Hr. eexists. split; [reflexivity|].
  assert (waits (rd s) = false) as Hw by (by destruct Hr as [-> | [-> _]]). specialize (H3 Hw).
  split; cbn; try done.
  - unfold in_range in *. cbn. destruct Hr as [-> | [-> ->]] in H6; done.
  - rewrite H7. unfold pending. cbn. destruct Hr as [-> | [-> ->]]; done.
  - apply Forall_app_2; [done|]. by apply Forall_singleton.
  - exists m. split; [|done]. erewrite protocol_snoc by done. by rewrite H3.
Qed.

Lemma next_block_inv a s :
  admissible a -> inv s -> rd s = RNext -> exists s', avio_read_packet a s = Next s' /\ inv s'.
Proof.
  intros Ha Hi Hr. unfold avio_read_packet. rewrite Hr. pose proof Hi as [H1 H2 H3 H4 H5 H6 H7 H8 (m & H9 & H10)].
  unfold in_range, pending in H6, H7. rewrite Hr in *. specialize (H3 eq_refl). specialize (H5 eq_refl). rewrite H3 in H9.
  destruct (buf (inst s)) as [off|] eqn:Hb; [destruct H6 as (? & ? & ?); by eapply copy_out_inv|].
  rewrite app_nil_r in H7. destruct (a_block a) as [[e d]|] eqn:Hbl; [|apply return_eof_inv; [done|by right]].
  destruct (proj1 (proj1 (dvd_admissible_iff a) Ha) e d Hbl) as (Hu & Hl & Hpos).
  destruct (store_block_ok d (inst s) H1 Hl) as (i & Es & E1 & E2 & E3 & E4 & E5 & E6). rewrite Es. cbn [need].
  destruct (decide (e = BLOCK_OK)) as [->|He].
  - cbn [handle_event]. cbn. rewrite E2. cbn [need].
    eapply (copy_out_inv 0 _ m); cbn; rewrite ?E3; try done.
    + by apply Hpos.
    + rewrite H7. f_equal. unfold len. by rewrite Nat2Z.id, drop_0, E4.
    + by rewrite E6.
  - match goal with |- context [handle_event a e ?x] => assert (x = upd_inst (fun _ => i) s) as -> by (by destruct e) end.
    apply handle_event_inv with m; try done. split; cbn; try done; by rewrite ?E5, ?E6, ?H2.
Qed.

(** ** Steps *)

Lemma reader_inv a s :
  admissible a -> inv s -> avio_read_packet a s = Blocked \/ exists s', avio_read_packet a s = Next s' /\ inv s'.
Proof.
  intros Ha Hi. destruct (rd s) eqn:E;
    try (unfold avio_read_packet; rewrite E; apply after_wait_inv; [done|done|by rewrite E]); right.
  - pose proof Hi as [H1 H2 H3 H4 H5 H6 H7 H8 H9]. unfold avio_read_packet, in_range, pending in *. rewrite E in *.
    eexists. split; [reflexivity|]. split; cbn; try done. intros _. apply Ha.
  - unfold avio_read_packet. rewrite E. destruct (closed (inst s)); [by apply return_eof_inv; [|left]|].
    pose proof Hi as [H1 H2 H3 H4 H5 H6 H7 H8 H9]. unfold in_range, pending in *. rewrite E in *.
    eexists. split; [reflexivity|]. by split.
  - by apply next_block_inv.
  - unfold avio_read_packet. rewrite E. eexists. split; [reflexivity|].
    pose proof Hi as [H1 H2 H3 H4 H5 H6 H7 H8 (m & H9 & H10)]. unfold pending in H7. rewrite E in *.
    rewrite app_nil_r in H7. rewrite H3 in H9 by done. apply mid_next with m. split; try done; auto.
Qed.

Lemma player_inv s : inv s -> player_answers s = Blocked \/ exists s', player_answers s = Next s' /\ inv s'.
Proof.
  intros [H1 H2 H3 H4 H5 H6 H7 H8 (m & H9 & H10)]. unfold player_answers.
  destruct (pending_msg s) eqn:Hp; [right|by left]. eexists. split; [reflexivity|]. split; cbn; try done.
  - apply Forall_app_2; [done|]. by apply Forall_singleton.
  - exists m. split; [|done]. by rewrite (protocol_snoc _ _ _ H9).
Qed.

Lemma menu_inv v f s :
  inv s -> (inv s -> inv (f s)) -> inv (when_menu v f s).
Proof. intros Hi Hf. unfold when_menu. destruct (in_menu v); auto. Qed.

Lemma handled_inv a s :
  admissible a -> inv s ->
  exists s', need (avbox_dvdio_process_menus (a_nav a) s) (fun s => Next (emit (Handled false) s)) = Next s' /\ inv s'.
Proof.
  intros (_ & _ & Hb & Hn & _)%dvd_admissible_iff Hi. destruct (process_menus_total (a_nav a) s Hb Hn) as [s1 Hs1]. rewrite Hs1. cbn [need].
  eexists. split; [reflexivity|]. destruct (process_menus_spec _ _ _ Hs1) as (h & l & -> & Hl).
  apply (inv_side s _ (l ++ [Handled false]) Hi); try done.
  - apply Forall_app_2; [destruct Hl as [-> | ->]|]; repeat constructor.
  - cbn. by rewrite app_assoc.
Qed.

#[local] Ltac side es := eapply (inv_side _ _ es); [eassumption|by repeat constructor|try done..].

Lemma input_inv a s :
  admissible a -> inv s -> avbox_dvdio_control a s = Blocked \/ exists s', avbox_dvdio_control a s = Next s' /\ inv s'.
Proof.
  intros Ha Hi. unfold avbox_dvdio_control. destruct (locked s); [by left|right].
  destruct (a_key a) eqn:Ek; try (eexists; split; [reflexivity|]); try (apply handled_inv; [done|]).
  - side [MenuCall].
  - apply menu_inv; [done|]. intros _. side [Activate].
  - unfold when_menu. destruct (in_menu (a_nav a)); [|side [Handled true]].
    side [GoUp; Handled true]. cbn. by rewrite <- app_assoc.
  - apply menu_inv; [done|]. intros _. side [Select ARROW_UP].
  - apply menu_inv; [done|]. intros _. side [Select ARROW_DOWN].
  - apply menu_inv; [done|]. intros _. side [Select ARROW_LEFT].
  - apply menu_inv; [done|]. intros _. side [Select ARROW_RIGHT].
  - side [Handled true].
Qed.

Lemma dvd_play_inv a s :
  inv s -> avbox_dvdio_play a s = Blocked \/ exists s', avbox_dvdio_play a s = Next s' /\ inv s'.
Proof.
  intros [H1 H2 H3 H4 H5 H6 H7 H8 (m & H9 & H10)]. unfold avbox_dvdio_play.
  destruct (locked s) eqn:El; [by left|right]. eexists. split; [reflexivity|].
  assert (waits (rd s) = false) as Hw by (unfold locked in El; by destruct (rd s)).
  pose (s1 := upd_inst (fun i => with_buf None (with_playing true i)) (set_data [] [] (emit Play s))).
  assert (inv s1) as Hi.
  { split; cbn; try done.
    - unfold in_range. cbn. by destruct (rd s).
    - unfold pending. cbn. by destruct (rd s).
    - apply Forall_app_2; [done|]. by apply Forall_singleton.
    - exists m. split; [|done]. by rewrite (protocol_snoc _ _ _ H9). }
  destruct (a_grab a), (a_skip_to_menu a).
  - apply (inv_side s1 _ [MenuCall; Grab] Hi); [by repeat constructor|cbn; by rewrite <- !app_assoc|done..].
  - apply (inv_side s1 _ [TopSearch; Grab] Hi); [by repeat constructor|cbn; by rewrite <- !app_assoc|done..].
  - apply (inv_side s1 _ [MenuCall] Hi); [by repeat constructor|done..].
  - apply (inv_side s1 _ [TopSearch] Hi); [by repeat constructor|done..].
Qed.

Lemma dvd_seek_inv a s : inv s -> exists s', avbox_dvdio_seek a s = Next s' /\ inv s'.
Proof.
  intros Hi. unfold avbox_dvdio_seek. repeat case_match; (eexists; split; [reflexivity|try done]).
  side [PartPlay z (wraps 32 (z0 + a_seek a))].
Qed.

Lemma dvd_close_inv s : inv s -> exists s', avbox_dvdio_close s = Next s' /\ inv s'.
Proof.
  intros Hi. unfold avbox_dvdio_close. repeat case_match; (eexists; split; [reflexivity|try done]).
  - side [Release].
  - side (@nil effect). cbn. by rewrite app_nil_r.
Qed.

Lemma dvd_exec_inv t a s : admissible a -> inv s -> exec t a s = Blocked \/ exists s', exec t a s = Next s' /\ inv s'.
Proof.
  intros Ha Hi. destruct t; cbn; eauto using reader_inv, player_inv, input_inv, dvd_play_inv, dvd_seek_inv, dvd_close_inv.
Qed.

Lemma step_inv s s' : inv s -> step s s' -> inv s'.
Proof. intros Hi (t & a & Ha & H). destruct (dvd_exec_inv t a s Ha Hi) as [E|(s1 & E & Hs1)]; congruence. Qed.

(** ** Properties *)

(** States of an instance that was opened. *)
Definition runs_to (s : dvd) : Prop := exists o s0 live, avbox_dvdio_open o = (Some s0, live) /\ rtc step s0 s.

Lemma opened_inv o s live : avbox_dvdio_open o = (Some s, live) -> inv s.
Proof.
  unfold avbox_dvdio_open. repeat case_match; intros [= <- _]. split; cbn; try done; try (by constructor).
  exists None. done.
Qed.

Lemma runs_inv s : runs_to s -> inv s.
Proof.
  intros (o & s0 & live & Ho & Hr).
  apply (rtc_invariant step inv) with (x := s0); [|done|by eapply opened_inv]. intros x y Hx Hxy. by eapply step_inv.
Qed.

(** C13. Whatever the order of reads, messages, keys, [play], seeks and
    [close], and whatever libdvdnav delivers until the first of four faults
    ([fault]: an unknown event, button 0 for no button, no memory for the
    name of a title without one, a position beyond 64 bits), the demuxer is
    given exactly the data of the blocks read from the disc since playback
    was started, in order, up to the part of the last block that did not fit
    in its buffer; a read that is not the end of the file returns at least
    one byte and no more than were asked for; and a step overruns a buffer,
    reads outside of the table of buttons or fails otherwise only by one of
    these faults. *)
Theorem dvd_read_refines_blocks s :
  runs_to s ->
  src s = given s ++ pending s /\
  Forall (fun e => match e with Read n d => 0 < len d <= n | _ => True end) (log s) /\
  (forall t a, promised a -> exec t a s = Crash -> fault a).
Proof.
  intros Hi%runs_inv. split; [apply Hi|]. split; [exact (inv_reads _ Hi)|].
  intros t a Ha He. destruct (dvd_fault_or_not a) as [|Hf]; [done|].
  destruct (dvd_exec_inv t a s (conj Ha Hf) Hi) as [E|(s' & E & _)]; congruence.
Qed.

(** C18. The player can rely on the order of the messages of a DVD: none is
    sent before playback starts or before the last one was answered, a
    title or an audio track is only announced right after a flush was
    answered and a duration right after the title, and a wait or a still
    frame is only skipped once the player has flushed or has shown it; and
    the stream says it is blocking exactly while a read is under way. *)
Theorem dvd_messages_ordered s :
  runs_to s ->
  (exists m, protocol (log s) = Some (Proto (playing (inst s)) (pending_msg s) m)) /\
  avbox_dvdio_is_blocking s = negb (idle (rd s)).
Proof.
  intros Hi%runs_inv. destruct (inv_proto _ Hi) as (m & Hm & _). split; [by exists m|apply Hi].
Qed.

(** ** A disc *)

Definition reply (v : nav) (b : option (event * list Z)) (n : Z) : answers := Answers v b true true n ENTER false 0.

Definition menu (button buttons : Z) (stream : Z) : nav :=
  Nav buttons [Btni 10 20 30; Btni 10 20 60] button false false (Some [77; 95; 49]) (Some (1, 1)) (Some 900000)
    180000 (Some 3) stream 2 DVD_AUDIO_FORMAT_AC3.

Definition admissible_b (a : answers) : bool :=
  match a_block a with
  | Some (e, d) => bool_decide (e <> UNKNOWN_EVENT) && (len d <=? DVD_VIDEO_LB_LEN) &&
                   (bool_decide (e <> BLOCK_OK) || (0 <? len d))
  | None => true
  end && (0 <? a_bufsz a) && (1 <=? btnid (a_nav a)) && (btn_ns (a_nav a) <=? len (btnit (a_nav a))) &&
  (match title_string (a_nav a) with Some _ => true | None => a_alloc a end) &&
  in_s 64 (pts_to_us (current_time (a_nav a))).

Lemma admissible_b_sound a : admissible_b a = true -> admissible a.
Proof.
  unfold admissible_b. intros H. zify_bool. apply dvd_admissible_iff. split_and!; try done.
  - intros e d He. rewrite He in *. zify_bool. split_and!; [done|lia|]. intros ->.
    match goal with H : _ || _ = true |- _ => apply orb_true_iff in H as [?|?] end; zify_bool; [done|lia].
  - destruct (title_string (a_nav a)); [by left|by right].
Qed.

Fixpoint script (l : list (thread * answers)) (s : dvd) : option dvd :=
  match l with
  | [] => Some s
  | (t, a) :: l => if admissible_b a then match exec t a s with Next s => script l s | _ => None end else None
  end.

Lemma script_runs l s s' : script l s = Some s' -> rtc step s s'.
Proof.
  revert s. induction l as [|[t a] l IH]; intros s H; cbn in H; [injection H as ->; apply rtc_refl|].
  destruct (admissible_b a) eqn:Ea; [|done]. destruct (exec t a s) as [s1| |] eqn:E; [|done|done].
  eapply rtc_l; [|by apply IH]. exists t, a. split; [by apply admissible_b_sound|done].
Qed.

Definition all_right : open_answers := OpenAnswers true true true true true true true true.
Definition fresh_dvd : dvd := Dvd opened RIdle 0 false [] [] [].

Lemma script_runs_to l s : script l fresh_dvd = Some s -> runs_to s.
Proof. intros H. exists all_right, fresh_dvd, [RInst; RPath; RAvioBuffer; RAvio; RNav; RObject]. split; [done|by eapply script_runs]. Qed.

Definition get (b : option (event * list Z)) : thread * answers := (TReader, reply (menu 2 2 0) b 4).
Definition answer : thread * answers := (TPlayer, reply (menu 2 2 0) None 4).

(** Playback starts; the title changes, a block of six bytes is read in two
    parts. *)
Definition demo : list (thread * answers) :=
  [(TPlay, reply (menu 1 2 0) None 4); get None; get None; get (Some (VTS_CHANGE, [])); answer; get None; answer;
   get None; answer; get None; get None; get (Some (BLOCK_OK, [1; 2; 3; 4; 5; 6])); get None; get None].

Definition demo_state : dvd := default fresh_dvd (script demo fresh_dvd).

Lemma demo_runs : runs_to demo_state.
Proof. apply (script_runs_to demo). vm_compute. reflexivity. Qed.

Lemma dvd_read_refines_blocks_witness :
  given demo_state = [1; 2; 3; 4] /\ pending demo_state = [5; 6] /\ src demo_state = given demo_state ++ pending demo_state.
Proof.
  split; [by vm_compute|]. split; [by vm_compute|]. apply (dvd_read_refines_blocks demo_state demo_runs).
Defined.

Lemma dvd_messages_ordered_witness :
  log demo_state = [Play; TopSearch; Grab; Send FLUSH; Answered; Send (SET_TITLE [77; 32; 49]); Answered;
    Send (SET_DURATION (Some 10000000)); Answered; Read 4 [1; 2; 3; 4]] /\
  avbox_dvdio_is_blocking demo_state = negb (idle (rd demo_state)).
Proof. split; [by vm_compute|]. apply (dvd_messages_ordered demo_state demo_runs). Defined.

(** ** What the code does not do *)

(** While the reader waits for the player no key reaches the handler, not
    even one it ignores: the main thread waits for the lock. *)
Lemma keys_wait_for_player a s : waits (rd s) = true -> avbox_dvdio_control a s = Blocked.
Proof. intros Hw. unfold avbox_dvdio_control, locked. by destruct (rd s). Qed.

(** Button 0, no button, indexes before the table. *)
Example no_button_selected s : avbox_dvdio_process_menus (menu 0 2 0) s = None.
Proof. done. Qed.

(** A seek beyond the last part is reported and done all the same. *)
Example seek_outside_title :
  option_map log (script [(TSeek, Answers (menu 1 2 0) None true true 4 ENTER false 5)] fresh_dvd) = Some [PartPlay 1 6].
Proof. by vm_compute. Qed.

(** A title without chapter times sends an uninitialised duration. *)
Lemma duration_uninitialised v t : title_info v = Some t -> title_duration v = None -> vts_duration v = None.
Proof. unfold vts_duration. by intros -> ->. Qed.

(** The buffer of the I/O context is leaked whenever opening fails after it
    was allocated. *)
Lemma open_failure_leaks_buffer o live :
  o_inst o = true -> o_mutex o = true -> o_path o = true -> o_buffer o = true ->
  avbox_dvdio_open o = (None, live) -> live = [RAvioBuffer].
Proof.
  intros H1 H2 H3 H4. unfold avbox_dvdio_open. rewrite H1, H2, H3, H4. cbn [negb].
  repeat case_match; intros [= <-]; by vm_compute.
Qed.

(** A stream that was closed is never closed in libdvdnav, and what was
    allocated for the path and the buffer is not freed. *)
Lemma closed_never_released s s' :
  avbox_dvdio_close s = Next s' -> dvdio_destroy s' = Next s' /\
  dvdio_cleanup [RInst; RPath; RAvioBuffer; RAvio; RNav] = [RPath; RAvioBuffer; RNav].
Proof.
  intros H. unfold avbox_dvdio_close, dvdio_destroy in *. split; [|by vm_compute].
  destruct (closed (inst s)) eqn:E; injection H as <-; [by rewrite E|]. by destruct (have_input (inst s)).
Qed.
