(* ===== verification/Application.v ===== *)
(** * The application (src/lib/application.c)

    [KernelArgs]: the arguments of the program when it runs as process 1,
    taken from the kernel command line.  [Subscribers]: the handlers of
    application events, a list of the macros of [LinkedList].  [Startup]:
    the options, the order in which the subsystems are started and stopped,
    and the main loop. *)

From S2P Require Import Prelude LinkedList Strings.
Import Replace.

Module KernelArgs.

Definition CMDLINE_MAX : Z := 1024.
Definition ARGS_MAX : Z := 10.
Definition NEWLINE : byte := 10.

(** "mediabox." and "--". *)
Definition prefix : list byte := [109; 101; 100; 105; 97; 98; 111; 120; 46].
Definition dashes : list byte := [45; 45].

(** [argv] holds [*argc] arguments; [arg] and [n] are the word being read. *)
Record kargs := KArgs { kbuf : list byte; n : Z; arg : Z; argv : list (list byte) }.

Inductive outcome := Parsed (argv : list (list byte)) | NoMemory | TooMany.

Definition separator (c : byte) : bool := (c =? SPACE) || (c =? NEWLINE).

(** The end of a word: [Some (inr o)] leaves through [err].  [mem] says
    whether the allocation for an argument succeeds; [None] when the copy
    does not fit. *)
Definition end_word (mem : Z -> bool) (s : kargs) : option (kargs + outcome) :=
  if 0 <? n s then
    match strip prefix (cstring (zdrop (arg s) (kbuf s))) with
    | Some rest =>
        if len (argv s) <? ARGS_MAX then
          if mem (len (argv s)) then
            let text := dashes ++ rest in
            if len text + 1 <=? n s - 6 then Some (inl (KArgs (kbuf s) 0 (arg s) (argv s ++ [text]))) else None
          else Some (inr NoMemory)
        else Some (inr TooMany)
    | None => Some (if ARGS_MAX <=? len (argv s) then inr TooMany else inl (KArgs (kbuf s) 0 (arg s) (argv s)))
    end
  else Some (inl s).

(** The loop over the characters. *)
Fixpoint parse_loop (fuel : nat) (mem : Z -> bool) (nb_read i : Z) (s : kargs) : option outcome :=
  match fuel with
  | O => None
  | S fuel =>
      if i <? nb_read then
        c ← kbuf s !! Z.to_nat i;
        if separator c then
          r ← end_word mem (KArgs (<[Z.to_nat i := 0]> (kbuf s)) (n s) (arg s) (argv s));
          match r with inl s => parse_loop fuel mem nb_read (i + 1) s | inr o => Some o end
        else parse_loop fuel mem nb_read (i + 1)
               (KArgs (kbuf s) (n s + 1) (if n s =? 0 then i else arg s) (argv s))
      else Some (Parsed (argv s))
  end.

(** [line]: what was read from /proc/cmdline, if it could be mounted, opened
    and read. *)
Definition parse_kernel_args (prog : list byte) (line : option (list byte)) (argv_ok prog_ok : bool)
    (mem : Z -> bool) : option (option outcome) :=
  match line with
  | None => Some None
  | Some line =>
      if len line =? CMDLINE_MAX - 2 then Some (Some TooMany)
      else if (1 <=? len line) && bool_decide (last line = Some NEWLINE) then
        let buf := <[(length line - 1)%nat := SPACE]> line ++ [0] in
        if argv_ok && prog_ok
        then o ← parse_loop (S (length line)) mem (len line) 0 (KArgs buf 0 0 [prog]); Some (Some o)
        else Some (Some NoMemory)
      else None
  end.

(** ** What it means *)

(** The words of a line, separated by spaces and newlines. *)
Fixpoint words (word line : list byte) : list (list byte) :=
  match line with
  | [] => []
  | c :: line => if separator c then match word with [] => words [] line | _ => word :: words [] line end
                 else words (word ++ [c]) line
  end.

(** Every word [mediabox.x] becomes an argument [--x]; any word after the
    tenth argument is an error. *)
Fixpoint arguments (mem : Z -> bool) (ws argv : list (list byte)) : outcome :=
  match ws with
  | [] => Parsed argv
  | w :: ws =>
      if ARGS_MAX <=? len argv then TooMany
      else match strip prefix w with
      | Some rest => if mem (len argv) then arguments mem ws (argv ++ [dashes ++ rest]) else NoMemory
      | None => arguments mem ws argv
      end
  end.

Lemma cstring_stop w r : Forall (fun c => c <> 0) w -> cstring (w ++ 0 :: r) = w.
Proof. induction 1 as [|c w Hc Hw IH]; [done|]. cbn. rewrite (proj2 (Z.eqb_neq c 0)) by done. by rewrite IH. Qed.

Lemma end_word_spec mem pre w r a l :
  Forall (fun c => c <> 0) w -> (w <> [] -> a = len pre) ->
  end_word mem (KArgs (pre ++ w ++ 0 :: r) (len w) a l) =
  match w with
  | [] => Some (inl (KArgs (pre ++ w ++ 0 :: r) 0 a l))
  | _ =>
      if ARGS_MAX <=? len l then Some (inr TooMany)
      else match strip prefix w with
      | Some rest => if mem (len l) then Some (inl (KArgs (pre ++ w ++ 0 :: r) 0 a (l ++ [dashes ++ rest])))
                     else Some (inr NoMemory)
      | None => Some (inl (KArgs (pre ++ w ++ 0 :: r) 0 a l))
      end
  end.
Proof.
  intros Hw Ha. unfold end_word. cbn [n arg kbuf argv]. destruct w as [|c w']; [done|]. set (w := c :: w') in *.
  rewrite (proj2 (Z.ltb_lt 0 (len w))) by (unfold w, len; cbn; lia). rewrite Ha by done. unfold zdrop, len at 1.
  rewrite Nat2Z.id, drop_app_length, cstring_stop by done.
  destruct (strip prefix w) as [rest|] eqn:Es; [|by destruct (ARGS_MAX <=? len l)].
  rewrite Z.ltb_antisym. destruct (ARGS_MAX <=? len l); [done|]. cbn [negb]. destruct (mem (len l)); [|done].
  apply strip_Some in Es. rewrite Es. rewrite !len_app. rewrite (proj2 (Z.leb_le _ _)); [done|].
  unfold len, prefix, dashes. cbn. lia.
Qed.

Lemma nonzero_snoc w (c : byte) : Forall (fun c => c <> 0) w -> c <> 0 -> Forall (fun c => c <> 0) (w ++ [c]).
Proof. intros. apply Forall_app_2; [done|]. by apply Forall_singleton. Qed.

(** From the middle of the line: [pre] is done, [w] is the word so far and
    [line] what is left. *)
Lemma parse_loop_spec mem line : forall fuel pre w a l,
  (length line < fuel)%nat -> Forall (fun c => c <> 0) w -> Forall (fun c => c <> 0) line -> (w <> [] -> a = len pre) ->
  parse_loop fuel mem (len (pre ++ w ++ line)) (len (pre ++ w)) (KArgs (pre ++ w ++ line ++ [0]) (len w) a l) =
  Some (arguments mem (words w line) l).
Proof.
  induction line as [|c line IH]; intros fuel pre w a l Hf Hw Hl Ha; (destruct fuel as [|fuel]; [cbn in Hf; lia|]).
  { cbn [parse_loop]. rewrite app_nil_r, Z.ltb_irrefl. done. }
  cbn [parse_loop kbuf n arg argv]. inversion Hl as [|? ? Hc Hl']; subst.
  rewrite (proj2 (Z.ltb_lt _ _)) by (rewrite !len_app, len_cons; pose proof (len_nonneg line); lia).
  assert ((pre ++ w ++ (c :: line) ++ [0]) !! Z.to_nat (len (pre ++ w)) = Some c) as ->.
  { unfold len. rewrite Nat2Z.id, app_assoc. by apply list_lookup_middle. }
  cbn [mbind option_bind words]. destruct (separator c) eqn:Es.
  - assert (<[Z.to_nat (len (pre ++ w)) := 0]> (pre ++ w ++ (c :: line) ++ [0]) = pre ++ w ++ 0 :: line ++ [0]) as ->.
    { unfold len. rewrite Nat2Z.id, app_assoc, <- (Nat.add_0_r (length (pre ++ w))), insert_app_r. cbn.
      by rewrite <- app_assoc. }
    rewrite end_word_spec by done.
    assert (forall l', parse_loop fuel mem (len (pre ++ w ++ c :: line)) (len (pre ++ w) + 1)
      (KArgs (pre ++ w ++ 0 :: line ++ [0]) 0 a l') = Some (arguments mem (words [] line) l')) as Hgo.
    { intros l'. rewrite <- (IH fuel (pre ++ w ++ [0]) [] a l'); [|cbn in Hf; lia|constructor|done|done].
      rewrite app_nil_r, !app_nil_l, <- !app_assoc. cbn [app].
      replace (len (pre ++ w ++ 0 :: line)) with (len (pre ++ w ++ c :: line)) by (by rewrite !len_app, !len_cons).
      by replace (len (pre ++ w ++ [0])) with (len (pre ++ w) + 1) by (rewrite !len_app; unfold len; cbn; lia). }
    destruct w as [|d w]; [apply Hgo|]. set (u := d :: w) in *. cbn [arguments].
    destruct (ARGS_MAX <=? len l); [done|]. destruct (strip prefix u); [|apply Hgo].
    destruct (mem (len l)); [apply Hgo|done].
  - replace (len w + 1) with (len (w ++ [c])) by (by rewrite len_app).
    replace (len (pre ++ w) + 1) with (len (pre ++ w ++ [c])) by (rewrite !len_app; unfold len; cbn; lia).
    replace (pre ++ w ++ c :: line) with (pre ++ (w ++ [c]) ++ line) by (by rewrite <- app_assoc).
    replace (pre ++ w ++ (c :: line) ++ [0]) with (pre ++ (w ++ [c]) ++ line ++ [0]) by (by rewrite <- app_assoc).
    apply IH; [cbn in Hf; lia|by apply nonzero_snoc|done|]. intros _.
    destruct w as [|d w]; [cbn; by rewrite app_nil_r|].
    rewrite (proj2 (Z.eqb_neq _ _)) by (unfold len; cbn; lia). by apply Ha.
Qed.

Lemma words_last w line : words w (line ++ [SPACE]) = words w (line ++ [NEWLINE]).
Proof. revert w. induction line as [|c line IH]; intros w; cbn; [done|]. by destruct (separator c), w; rewrite ?IH. Qed.

(** C39. As process 1 the program takes its arguments from the kernel command
    line: scanning the line in place, ending each word with a zero and
    allocating two bytes less than it is long, [parse_kernel_args] never
    writes outside of a buffer and returns the program name followed by
    [--x] for every word [mediabox.x], in order; a word after the tenth
    argument, or a line that fills the buffer, is an error. *)
Theorem kernel_args_exact prog line mem :
  Forall (fun c => c <> 0) line ->
  parse_kernel_args prog (Some (line ++ [NEWLINE])) true true mem =
  Some (Some (if len line + 1 =? CMDLINE_MAX - 2 then TooMany
              else arguments mem (words [] (line ++ [NEWLINE])) [prog])).
Proof.
  intros Hl. unfold parse_kernel_args. rewrite len_app. change (len [NEWLINE]) with 1.
  destruct (len line + 1 =? CMDLINE_MAX - 2); [done|].
  rewrite last_snoc, bool_decide_true, (proj2 (Z.leb_le _ _)) by (done || (pose proof (len_nonneg line); lia)).
  cbn [andb]. rewrite length_app. replace (length line + length [NEWLINE] - 1)%nat with (length line + 0)%nat by (cbn; lia).
  rewrite insert_app_r. cbn [list_insert insert].
  assert (Forall (fun c => c <> 0) (line ++ [SPACE])) as Hs by (by apply nonzero_snoc).
  pose proof (parse_loop_spec mem (line ++ [SPACE]) (S (length line + length [NEWLINE])) [] [] 0 [prog]) as Hp.
  rewrite !app_nil_l, !len_app in Hp. rewrite <- words_last. change (len []) with 0 in Hp.
  change (len [SPACE]) with 1 in Hp. rewrite Hp; try done. rewrite length_app. cbn. lia.
Qed.

(** quiet mediabox.x root=a mediabox. *)
Definition sample_line : list byte :=
  [113; 117; 105; 101; 116; 32] ++ prefix ++ [120; 32; 114; 61; 97; 32; 32] ++ prefix.

Lemma kernel_args_exact_witness :
  Forall (fun c => c <> 0) sample_line /\
  parse_kernel_args [109] (Some (sample_line ++ [NEWLINE])) true true (fun _ => true) =
  Some (Some (Parsed [[109]; [45; 45; 120]; [45; 45]])).
Proof.
  assert (Forall (fun c => c <> 0) sample_line) as H by (repeat constructor; done). split; [exact H|].
  rewrite (kernel_args_exact [109] sample_line (fun _ => true) H). vm_compute. reflexivity.
Defined.

End KernelArgs.

Module Subscribers.

(** A handler and its context. *)
Definition subscriber : Type := Z * Z.

(** The address of the static list head. *)
Definition subscribers : loc := 1%positive.

(** The list links of the nodes and their fields. *)
Record app := App { nodes : heap; fields : gmap loc subscriber }.

(** After [LIST_INIT] in [avbox_application_init]. *)
Definition app_init : app := App {[ subscribers := Listhead subscribers subscribers ]} ∅.

Definition avbox_application_findsubscriber (hc : subscriber) (s : app) : option (option loc) :=
  snd <$> LIST_FOREACH (S (size (nodes s))) (fun p h out =>
    f ← fields s !! p;
    if bool_decide (f = hc) then Some (true, h, Some p) else Some (false, h, out)) subscribers (nodes s) None.

(** [mem] is the answer of [malloc]. *)
Definition avbox_application_subscribe (mem : option loc) (hc : subscriber) (s : app) : option (result () * app) :=
  found ← avbox_application_findsubscriber hc s;
  match found, mem with
  | Some _, _ => Some (inl EEXIST, s)
  | None, None => Some (inl ENOMEM, s)
  | None, Some p =>
      h ← LIST_APPEND (<[p := Listhead p p]> (nodes s)) subscribers p;
      Some (inr (), App h (<[p := hc]> (fields s)))
  end.

Definition avbox_application_unsubscribe (hc : subscriber) (s : app) : option (result () * app) :=
  '(h, (fs, r)) ← LIST_FOREACH_SAFE (S (size (nodes s))) (fun p h '(fs, r) =>
      f ← fs !! p;
      if bool_decide (f = hc) then h ← LIST_REMOVE h p; Some (true, delete p h, (delete p fs, inr ()))
      else Some (false, h, (fs, r))) subscribers (nodes s) (fields s, inl ENOENT);
  Some (r, App h fs).

Inductive op := Subscribe (hc : subscriber) (malloc_ok : bool) | Unsubscribe (hc : subscriber).

Definition run_op (malloc : gset loc -> loc) (o : op) (s : app) : option (result () * app) :=
  match o with
  | Subscribe hc ok => avbox_application_subscribe (if ok then Some (malloc (dom (nodes s))) else None) hc s
  | Unsubscribe hc => avbox_application_unsubscribe hc s
  end.

Fixpoint run_ops (malloc : gset loc -> loc) (ops : list op) (s : app) : option (list (result ()) * app) :=
  match ops with
  | [] => Some ([], s)
  | o :: ops => '(r, s) ← run_op malloc o s; '(rs, s) ← run_ops malloc ops s; Some (r :: rs, s)
  end.

(** [AVBOX_MESSAGETYPE_DESTROY]: every handler is called with the quit event
    and may itself subscribe and unsubscribe ([react]).  Answers the handlers
    in the order in which they were called. *)
Definition notify_quit (malloc : gset loc -> loc) (react : subscriber -> list op) (s : app) :
    option (list subscriber * app) :=
  '(h, (fs, called)) ← LIST_FOREACH_SAFE (S (size (nodes s))) (fun p h '(fs, called) =>
      f ← fs !! p;
      '(_, s) ← run_ops malloc (react f) (App h fs);
      Some (false, nodes s, (fields s, called ++ [f]))) subscribers (nodes s) (fields s, []);
  Some (called, App h fs).

(** *** Specification: a list without repetitions *)

Definition without (hc : subscriber) (st : list subscriber) : list subscriber := filter (fun f => f <> hc) st.

Definition reg_op (st : list subscriber) (o : op) : list subscriber :=
  match o with
  | Subscribe hc ok => if bool_decide (hc ∈ st) then st else if ok then st ++ [hc] else st
  | Unsubscribe hc => without hc st
  end.

Definition reg_result (st : list subscriber) (o : op) : result () :=
  match o with
  | Subscribe hc ok => if bool_decide (hc ∈ st) then inl EEXIST else if ok then inr () else inl ENOMEM
  | Unsubscribe hc => if bool_decide (hc ∈ st) then inr () else inl ENOENT
  end.

Fixpoint reg_results (st : list subscriber) (ops : list op) : list (result ()) :=
  match ops with [] => [] | o :: ops => reg_result st o :: reg_results (reg_op st o) ops end.

Definition reg_rep (s : app) (st : list subscriber) : Prop :=
  NoDup st /\ exists ns, is_list (nodes s) subscribers ns /\ Forall2 (fun p f => fields s !! p = Some f) ns st /\
    dom (nodes s) = {[ subscribers ]} ∪ list_to_set ns /\ dom (fields s) = list_to_set ns.

(** *** Lemmas *)

Lemma fields_split s ns st hc :
  Forall2 (fun p f => fields s !! p = Some f) ns st -> hc ∈ st ->
  exists l p k a b, ns = l ++ p :: k /\ st = a ++ hc :: b /\ fields s !! p = Some hc /\
    Forall2 (fun p f => fields s !! p = Some f) l a /\ Forall2 (fun p f => fields s !! p = Some f) k b /\
    (forall q, q ∈ l -> exists f, fields s !! q = Some f /\ f <> hc).
Proof.
  intros HF (a & b & -> & Ha)%list_elem_of_split_l.
  apply Forall2_app_inv_r in HF as (l & k' & Hl & Hk & ->). apply Forall2_cons_inv_r in Hk as (p & k & Hp & Hk & ->).
  exists l, p, k, a, b. split_and!; try done. intros q [i Hi]%list_elem_of_lookup_1.
  destruct (Forall2_lookup_l _ _ _ _ _ Hl Hi) as (f & Hf & E). exists f. split; [done|].
  intros ->. by apply Ha, list_elem_of_lookup_2 with i.
Qed.

Lemma fields_absent s ns st hc q :
  Forall2 (fun p f => fields s !! p = Some f) ns st -> hc ∉ st -> q ∈ ns -> exists f, fields s !! q = Some f /\ f <> hc.
Proof.
  intros HF Ho [i Hi]%list_elem_of_lookup_1. destruct (Forall2_lookup_l _ _ _ _ _ HF Hi) as (f & Hs & E).
  exists f. split; [done|]. intros ->. by apply Ho, list_elem_of_lookup_2 with i.
Qed.

Lemma fields_agree (fs fs' : gmap loc subscriber) ns st :
  (forall q, q ∈ ns -> fs' !! q = fs !! q) ->
  Forall2 (fun p f => fs !! p = Some f) ns st -> Forall2 (fun p f => fs' !! p = Some f) ns st.
Proof.
  intros Hq HF. revert Hq. induction HF; intros Hq; constructor.
  - rewrite Hq; [done|set_solver].
  - apply IHHF. set_solver.
Qed.

Lemma without_absent hc st : hc ∉ st -> without hc st = st.
Proof. intros. apply filter_all. set_solver. Qed.

Lemma without_middle hc a b : NoDup (a ++ hc :: b) -> without hc (a ++ hc :: b) = a ++ b.
Proof.
  intros Hnd. apply NoDup_remove_mid in Hnd as [_ Hn]. unfold without.
  rewrite filter_app, filter_cons_False by (intros H; by apply H). rewrite !filter_all; [done|set_solver..].
Qed.

Lemma find_spec s st hc :
  reg_rep s st -> exists r, avbox_application_findsubscriber hc s = Some r /\ (is_Some r <-> hc ∈ st).
Proof.
  intros (Hnd & ns & Hl & HF & _). unfold avbox_application_findsubscriber.
  set (body := fun (p : loc) (h : heap) (out : option loc) => _).
  assert (forall q r, (exists f, fields s !! q = Some f /\ f <> hc) -> body q (nodes s) r = Some (false, nodes s, r)) as Hsk.
  { intros q r (f & Hf & Hne). unfold body. rewrite Hf. cbn. by rewrite bool_decide_false. }
  destruct (decide (hc ∈ st)) as [Hin|Hin].
  - destruct (fields_split s ns st hc HF Hin) as (l & p & k & a & b & -> & -> & Hp & _ & _ & Hq).
    destruct (FOREACH_break body (nodes s) subscribers l p k None (nodes s, Some p)) as [-> _]; [done|auto| |].
    { unfold body. rewrite Hp. cbn. by rewrite bool_decide_true. }
    exists (Some p). cbn. split; [done|]. by split; [|eexists].
  - destruct (LIST_FOREACH_inv (fun _ out => out = None) body (nodes s) subscribers ns None) as (r & -> & ->); [done..| |].
    + intros l q k r -> ->. exists None. split; [|done]. apply Hsk. eapply fields_absent; [done..|set_solver].
    + exists None. split; [done|]. by split; [intros [? ?]|].
Qed.

Lemma subscribe_new s st hc p :
  reg_rep s st -> hc ∉ st -> p ∉ dom (nodes s) ->
  exists s', avbox_application_subscribe (Some p) hc s = Some (inr (), s') /\ reg_rep s' (st ++ [hc]).
Proof.
  intros Hr Hin Hp. pose proof Hr as (Hnd & ns & Hl & HF & Hdn & Hdo). unfold avbox_application_subscribe.
  destruct (find_spec s st hc Hr) as ([q|] & -> & Hf); [destruct Hin; apply Hf; by eexists|]. cbn [mbind option_bind].
  destruct (@list_alloc_rep heap heap_list_store (nodes s) p Hp) as [Ha Hd]. cbn in Ha, Hd.
  assert (p ∉ subscribers :: ns) as Hpn by set_solver.
  destruct (@list_append_rep heap heap_list_store _ subscribers ns p (Ha _ _ Hl)) as (h' & E & Hl' & Hd' & _);
    [apply Hd; by left|done|]. cbn in E, Hl', Hd'. rewrite E. cbn [mbind option_bind].
  eexists. split; [done|]. split; [apply NoDup_app; split_and!; [done|set_solver|apply NoDup_singleton]|].
  exists (ns ++ [p]). cbn. split_and!; [done| | |].
  - apply Forall2_app; [|constructor; [apply lookup_insert_eq|constructor]].
    apply (fields_agree (fields s)); [|done]. intros q Hq. rewrite lookup_insert_ne; [done|set_solver].
  - apply set_eq. intros q. rewrite Hd', Hd, Hdn. set_solver.
  - rewrite dom_insert_L. set_solver.
Qed.

(** Where the node of a subscriber is known. *)
Lemma unsubscribe_at s hc l p k a b :
  is_list (nodes s) subscribers (l ++ p :: k) -> NoDup (a ++ hc :: b) ->
  Forall2 (fun p f => fields s !! p = Some f) l a -> fields s !! p = Some hc ->
  Forall2 (fun p f => fields s !! p = Some f) k b ->
  dom (nodes s) = {[ subscribers ]} ∪ list_to_set (l ++ p :: k) -> dom (fields s) = list_to_set (l ++ p :: k) ->
  exists s', avbox_application_unsubscribe hc s = Some (inr (), s') /\ is_list (nodes s') subscribers (l ++ k) /\
    Forall2 (fun p f => fields s' !! p = Some f) l a /\ Forall2 (fun p f => fields s' !! p = Some f) k b /\
    dom (nodes s') = {[ subscribers ]} ∪ list_to_set (l ++ k) /\ dom (fields s') = list_to_set (l ++ k).
Proof.
  intros Hl Hnd Hla Hp Hkb Hdn Hdo. unfold avbox_application_unsubscribe.
  set (body := fun (p : loc) (h : heap) '(fs, r) => _).
  destruct (@list_remove_rep heap heap_list_store _ _ _ _ _ Hl) as (h1 & E & Hr & Hd & _). cbn in E, Hr, Hd.
  assert (dom h1 = dom (nodes s)) as Hd1 by (apply set_eq; apply Hd).
  apply NoDup_remove_mid in Hnd as [_ Hob].
  destruct (FOREACH_break body (nodes s) subscribers l p k (fields s, inl ENOENT)
    (delete p h1, (delete p (fields s), inr ()))) as [_ ->]; [done| | |].
  { intros q [i Hi]%list_elem_of_lookup_1. destruct (Forall2_lookup_l _ _ _ _ _ Hla Hi) as (f & Hf & E').
    unfold body. rewrite E'. cbn. rewrite bool_decide_false; [done|]. intros ->. apply Hob, elem_of_app. left.
    by apply list_elem_of_lookup_2 with i. }
  { unfold body. rewrite Hp. cbn. by rewrite bool_decide_true, E. }
  cbn [mbind option_bind]. eexists. split; [done|].
  assert (NoDup (subscribers :: l ++ p :: k)) as Hndn by apply Hl.
  change (NoDup ((subscribers :: l) ++ p :: k)) in Hndn. apply NoDup_remove_mid in Hndn as [_ Hnl].
  assert (forall q, q ∈ l \/ q ∈ k -> delete p (fields s) !! q = fields s !! q) as Hag.
  { intros q Hq. rewrite lookup_delete_ne; [done|set_solver]. }
  cbn. rewrite !dom_delete_L, Hd1, Hdn, Hdo. split_and!.
  - apply (is_list_agree h1); [|done]. intros q Hq'. unfold get_next, get_prev.
    rewrite lookup_delete_ne; [done|set_solver].
  - apply (fields_agree (fields s)); [|done]. auto.
  - apply (fields_agree (fields s)); [|done]. auto.
  - set_solver.
  - set_solver.
Qed.

Lemma unsubscribe_spec s st hc :
  reg_rep s st ->
  exists s', avbox_application_unsubscribe hc s = Some (reg_result st (Unsubscribe hc), s') /\ reg_rep s' (without hc st).
Proof.
  intros (Hnd & ns & Hl & HF & Hdn & Hdo). unfold reg_result. destruct (decide (hc ∈ st)) as [Hin|Hin].
  - destruct (fields_split s ns st hc HF Hin) as (l & p & k & a & b & -> & -> & Hp & Hla & Hkb & Hq).
    destruct (unsubscribe_at s hc l p k a b) as (s' & -> & Hl' & Ha' & Hb' & Hn' & Hf'); [done..|].
    rewrite bool_decide_true by done. exists s'. split; [done|]. rewrite without_middle by done.
    apply NoDup_remove_mid in Hnd as [Hnd _]. split; [done|]. exists (l ++ k). split_and!; [done| |done..].
    by apply Forall2_app.
  - rewrite bool_decide_false by done. exists s. rewrite without_absent by done. split; [|split; [done|by exists ns]].
    unfold avbox_application_unsubscribe. set (body := fun (p : loc) (h : heap) '(fs, r) => _).
    rewrite (LIST_FOREACH_SAFE_skip body (nodes s) subscribers ns); [by destruct s|done|].
    intros q Hq. destruct (fields_absent s ns st hc q HF Hin Hq) as (f & Hf & Hne). unfold body. rewrite Hf. cbn.
    by rewrite bool_decide_false.
Qed.

Lemma run_op_spec malloc o s st :
  (forall X, malloc X ∉ X) -> reg_rep s st ->
  exists s', run_op malloc o s = Some (reg_result st o, s') /\ reg_rep s' (reg_op st o).
Proof.
  intros Hm Hr. destruct o as [hc ok|hc]; [|by apply unsubscribe_spec]. cbn [run_op reg_result reg_op].
  destruct (decide (hc ∈ st)) as [Hin|Hin].
  - rewrite bool_decide_true by done. unfold avbox_application_subscribe.
    destruct (find_spec s st hc Hr) as ([p|] & -> & Hf); [by exists s|]. by destruct (proj2 Hf Hin).
  - rewrite bool_decide_false by done. destruct ok; [by apply subscribe_new|].
    unfold avbox_application_subscribe. destruct (find_spec s st hc Hr) as ([p|] & -> & Hf); [|by exists s].
    destruct Hin. apply Hf. by eexists.
Qed.

(** The loop of [notify_quit] from the middle: [l] was called and stayed. *)
Lemma notify_from malloc (leaves : subscriber -> bool) fuel : forall (hk : heap) (fs : gmap loc subscriber) a l k b v called,
  (forall X, malloc X ∉ X) -> head (k ++ [subscribers]) = Some v -> (length k < fuel)%nat ->
  NoDup (a ++ b) -> is_list hk subscribers (l ++ k) ->
  Forall2 (fun p f => fs !! p = Some f) l a -> Forall2 (fun p f => fs !! p = Some f) k b ->
  dom hk = {[ subscribers ]} ∪ list_to_set (l ++ k) -> dom fs = list_to_set (l ++ k) ->
  exists h' fs', LIST_FOREACH_SAFE_from fuel (fun p h '(fs, called) =>
      f ← fs !! p;
      '(_, s) ← run_ops malloc (if leaves f then [Unsubscribe f] else []) (App h fs);
      Some (false, nodes s, (fields s, called ++ [f]))) subscribers v hk (fs, called)
    = Some (h', (fs', called ++ b)) /\ reg_rep (App h' fs') (a ++ filter (fun f => leaves f = false) b).
Proof.
  induction fuel as [|fuel IH]; intros hk fs a l k b v called Hm Hv Hf Hnd Hl Hla Hkb Hdh Hdf; [lia|].
  cbn [LIST_FOREACH_SAFE_from]. destruct k as [|x k]; cbn in Hv; injection Hv as <-.
  { apply Forall2_nil_inv_l in Hkb as ->. rewrite bool_decide_true by done. exists hk, fs. rewrite !app_nil_r in *.
    split; [done|]. split; [done|]. exists l. done. }
  apply Forall2_cons_inv_l in Hkb as (f & b' & Hx & Hkb & ->).
  rewrite bool_decide_false by (destruct Hl as [[Hd _]%NoDup_cons _]; set_solver).
  unfold LIST_NEXT. rewrite (is_list_succ hk subscribers l x k Hl).
  destruct (ring_ends subscribers [] k) as (_ & _ & _ & nx & _ & _ & _ & Hn). rewrite Hn.
  cbn [mbind option_bind]. rewrite Hx. cbn [mbind option_bind]. rewrite filter_cons.
  rewrite (cons_middle f), app_assoc in Hnd.
  destruct (leaves f) eqn:El; cbn [run_ops run_op].
  - destruct (unsubscribe_at (App hk fs) f l x k a b') as (s' & -> & Hl' & Ha' & Hb' & Hn' & Hf');
      [done|by rewrite <- app_assoc in Hnd|done..|]. cbn [mbind option_bind fst snd].
    rewrite decide_False by done.
    destruct (IH (nodes s') (fields s') a l k b' nx (called ++ [f])) as (h' & fs' & Hgo & Hr');
      [done|done|cbn in Hf; lia|rewrite <- app_assoc in Hnd; by apply NoDup_remove_mid in Hnd as [? _]|done..|].
    exists h', fs'. rewrite <- app_assoc in Hgo. split; [exact Hgo|done].
  - rewrite decide_True by done. cbn [mbind option_bind fst snd nodes fields].
    destruct (IH hk fs (a ++ [f]) (l ++ [x]) k b' nx (called ++ [f])) as (h' & fs' & Hgo & Hr'); try done.
    + cbn in Hf. lia.
    + by rewrite <- app_assoc.
    + by apply Forall2_app; [|constructor].
    + by rewrite <- app_assoc.
    + by rewrite <- app_assoc.
    + exists h', fs'. rewrite <- app_assoc in Hgo, Hr'. split; [exact Hgo|done].
Qed.

Lemma app_init_rep : reg_rep app_init [].
Proof.
  split; [constructor|]. exists []. split_and!; [|constructor| |done].
  - split; [apply NoDup_singleton|]. by repeat split.
  - simpl. by rewrite dom_singleton_L, union_empty_r_L.
Qed.

Lemma run_ops_spec malloc ops : forall s st,
  (forall X, malloc X ∉ X) -> reg_rep s st ->
  exists s', run_ops malloc ops s = Some (reg_results st ops, s') /\ reg_rep s' (foldl reg_op st ops).
Proof.
  induction ops as [|o ops IH]; intros s st Hm Hr; [by exists s|]. cbn [run_ops reg_results foldl].
  destruct (run_op_spec malloc o s st Hm Hr) as (s1 & -> & Hr1). cbn [mbind option_bind].
  destruct (IH s1 _ Hm Hr1) as (s2 & -> & Hr2). by exists s2.
Qed.

Lemma notify_spec malloc (leaves : subscriber -> bool) s st :
  (forall X, malloc X ∉ X) -> reg_rep s st ->
  exists s', notify_quit malloc (fun f => if leaves f then [Unsubscribe f] else []) s = Some (st, s') /\
    reg_rep s' (filter (fun f => leaves f = false) st).
Proof.
  intros Hm (Hnd & ns & Hl & HF & Hdn & Hdo). unfold notify_quit, LIST_FOREACH_SAFE, LIST_NEXT.
  rewrite (is_list_next _ subscribers ns Hl).
  destruct (ring_ends subscribers [] ns) as (_ & _ & _ & v & _ & _ & _ & Hv). rewrite Hv. cbn [mbind option_bind].
  pose proof (is_list_size _ subscribers ns Hl).
  destruct (notify_from malloc leaves (S (size (nodes s))) (nodes s) (fields s) [] [] ns st v []) as (h' & fs' & Hgo & Hr);
    try done; [lia|].
  exists (App h' fs'). split; [|done]. change ([] ++ st) with st in Hgo.
  match type of Hgo with ?x = _ => change (x ≫= (fun '(h, (fs, called)) => Some (called, App h fs)) = Some (st, App h' fs')) end.
  by rewrite Hgo.
Qed.

(** C40. The subscribers of application events are a list without
    repetitions: after any sequence of calls of subscribe and unsubscribe,
    also without memory, the list holds the pairs that subscribed and did
    not unsubscribe, in order, one node each and no other node allocated,
    and each call reported EEXIST, ENOMEM or ENOENT exactly when it changed
    nothing.  When the application quits every one of them is called once,
    in that order, also when handlers unsubscribe themselves, and those
    that did are gone. *)
Lemma subscribers_exact malloc ops (leaves : subscriber -> bool) :
  (forall X, malloc X ∉ X) ->
  exists s s', run_ops malloc ops app_init = Some (reg_results [] ops, s) /\ reg_rep s (foldl reg_op [] ops) /\
    notify_quit malloc (fun f => if leaves f then [Unsubscribe f] else []) s = Some (foldl reg_op [] ops, s') /\
    reg_rep s' (filter (fun f => leaves f = false) (foldl reg_op [] ops)).
Proof.
  intros Hm. destruct (run_ops_spec malloc ops app_init [] Hm app_init_rep) as (s & Hs & Hr).
  destruct (notify_spec malloc leaves s _ Hm Hr) as (s' & Hn & Hr'). by exists s, s'.
Qed.

Definition sample_ops : list op :=
  [Subscribe (1, 0) true; Subscribe (2, 0) true; Subscribe (1, 0) true; Unsubscribe (3, 0); Subscribe (3, 5) true].

Lemma subscribers_exact_witness :
  exists s s', run_ops (fun X => fresh X) sample_ops app_init =
      Some ([inr (); inr (); inl EEXIST; inl ENOENT; inr ()], s) /\
    notify_quit (fun X => fresh X) (fun f => if bool_decide (f = (2, 0)) then [Unsubscribe f] else []) s =
      Some ([(1, 0); (2, 0); (3, 5)], s') /\ reg_rep s' [(1, 0); (3, 5)].
Proof.
  destruct (subscribers_exact (fun X => fresh X) sample_ops (fun f => bool_decide (f = (2, 0)))) as (s & s' & H1 & _ & H2 & H3).
  - intros X. apply is_fresh.
  - exists s, s'. split; [exact H1|]. split; [exact H2|]. exact H3.
Defined.

(** The note on the loop says that a handler may unsubscribe; it may
    unsubscribe itself, but when it unsubscribes the next one the loop goes
    on with the freed node. *)
Example unsubscribing_next_dangles :
  exists s, run_ops (fun X => fresh X) [Subscribe (1, 0) true; Subscribe (2, 0) true] app_init = Some ([inr (); inr ()], s) /\
    notify_quit (fun X => fresh X) (fun f => if bool_decide (f = (1, 0)) then [Unsubscribe (2, 0)] else []) s = None.
Proof. eexists. split; [vm_compute; reflexivity|]. vm_compute. reflexivity. Qed.

End Subscribers.

Module Startup.

(** ** Options *)

Inductive option_arg := OptInit | OptLogfile | OptNolog | OptOther (text : string).

Definition classify (a : string) : option_arg :=
  if bool_decide (a = "--avbox:init") then OptInit
  else if bool_decide (a = "--avbox:logfile") then OptLogfile
  else if bool_decide (a = "--avbox:nolog") then OptNolog else OptOther a.

(** [pid1], [logfile] and [nolog]. *)
Record options := Options { pid1 : bool; logfile : option string; nolog : bool }.

(** The loop over [argv + 1]; the argument vector ends with NULL. *)
Fixpoint parse_options (args : list string) (o : options) : options :=
  match args with
  | [] => o
  | a :: args =>
      match classify a with
      | OptInit => parse_options args (Options true (logfile o) (nolog o))
      | OptLogfile =>
          match args with
          | f :: args => parse_options args (Options (pid1 o) (Some f) (nolog o))
          | [] => Options (pid1 o) None (nolog o)
          end
      | OptNolog => parse_options args (Options (pid1 o) (logfile o) true)
      | OptOther _ => parse_options args o
      end
  end.

Definition default_logfile (o : options) : options :=
  if negb (nolog o) && pid1 o && bool_decide (logfile o = None)
  then Options (pid1 o) (Some "/var/log/avbox.log") (nolog o) else o.

(** ** The subsystems *)

Inductive subsystem :=
  | Dispatcher | Workqueue | Settings | Timers | ProcessManager | VideoSystem | System | Coredump | Logfile
  | BluetoothSystem | InputSystem | AudioSystem | Torrent | SubscriberList | DropRoot.

#[export] Instance subsystem_eq_dec : EqDecision subsystem.
Proof. solve_decision. Defined.

(** Start the subsystems in order; a failure of one that is [needed] ends
    the start.  Answers what was started. *)
Fixpoint start (ok : subsystem -> bool) (todo : list (subsystem * bool)) : bool * list subsystem :=
  match todo with
  | [] => (true, [])
  | (x, needed) :: todo =>
      if ok x then let '(r, l) := start ok todo in (r, x :: l)
      else if needed then (false, []) else start ok todo
  end.

Definition start_system (o : options) : list (subsystem * bool) :=
  if pid1 o then [(System, true)]
  else match logfile o with Some _ => [(Logfile, true); (Coredump, false)] | None => [(Coredump, false)] end.

Definition start_order (bluetooth : bool) (o : options) : list (subsystem * bool) :=
  [(Dispatcher, true); (Workqueue, true); (Settings, true); (Timers, true); (ProcessManager, true); (VideoSystem, true)] ++
  start_system o ++ (if bluetooth then [(BluetoothSystem, true)] else []) ++
  [(InputSystem, true); (AudioSystem, false); (Torrent, true); (SubscriberList, false); (DropRoot, false)].

Definition avbox_application_init (bluetooth is_init : bool) (logf : option string) (args : list string)
    (ok : subsystem -> bool) : bool * list subsystem :=
  start ok (start_order bluetooth (default_logfile (parse_options args (Options is_init logf false)))).

(** The end of [avbox_application_run]. *)
Definition shutdown_order (bluetooth : bool) : list subsystem :=
  [Torrent; AudioSystem; ProcessManager; Timers; Settings; InputSystem] ++
  (if bluetooth then [BluetoothSystem] else []) ++ [Workqueue; Dispatcher; VideoSystem].

(** ** The main loop *)

(** What [avbox_queue_get] returns. *)
Inductive got {M : Type} := Message (m : M) | Again | Shutdown | Failed.
#[global] Arguments got : clear implicits.

(** The loop over the results of the queue: the messages it dispatches, and
    whether it left.  A failure other than a wake-up or a shutdown goes on
    with no message, which aborts. *)
Fixpoint run_loop {M} (l : list (got M)) : option (list M * bool) :=
  match l with
  | [] => Some ([], false)
  | Message m :: l => '(ms, q) ← run_loop l; Some (m :: ms, q)
  | Again :: l => run_loop l
  | Shutdown :: _ => Some ([], true)
  | Failed :: _ => None
  end.

(** ** Properties *)

Lemma start_prefix ok todo r l :
  start ok todo = (r, l) ->
  exists done rest, todo = done ++ rest /\ l = map fst (filter (fun x => ok x.1 = true) done) /\
    (r = true -> rest = []) /\ (r = false -> exists x rest', rest = (x, true) :: rest' /\ ok x = false).
Proof.
  revert r l. induction todo as [|[x needed] todo IH]; intros r l H; cbn in H.
  - injection H as <- <-. by exists [], [].
  - destruct (ok x) eqn:Ex.
    + destruct (start ok todo) as [r' l'] eqn:Es. injection H as <- <-.
      destruct (IH _ _ eq_refl) as (dn & rest & -> & -> & H1 & H2). exists ((x, needed) :: dn), rest.
      split_and!; [done| |done|done]. by rewrite filter_cons_True.
    + destruct needed; [injection H as <- <-|].
      * exists [], ((x, true) :: todo). split_and!; try done. intros _. by exists x, todo.
      * destruct (IH _ _ H) as (dn & rest & -> & -> & H1 & H2). exists ((x, false) :: dn), rest.
        split_and!; [done| |done|done]. rewrite filter_cons_False; [done|]. cbn. by rewrite Ex.
Qed.

(** Subsystems that the end of the program shuts down. *)
Definition owned (x : subsystem) : bool :=
  match x with System | Coredump | Logfile | SubscriberList | DropRoot => false | _ => true end.

(** Starting the application starts the subsystems in one fixed order
    that depends on the options and the build only, skips audio when it
    fails and stops at the first other failure; and when all were started
    the end of the program shuts down each of those it owns exactly once. *)
Lemma init_shutdown_match bluetooth is_init logf args ok r l :
  avbox_application_init bluetooth is_init logf args ok = (r, l) ->
  exists o done rest, start_order bluetooth o = done ++ rest /\ l = map fst (filter (fun x => ok x.1 = true) done) /\
    (r = true <-> rest = []) /\
    (r = true -> (forall x, ok x = true) -> filter (fun x => owned x = true) l ≡ₚ shutdown_order bluetooth).
Proof.
  intros H. unfold avbox_application_init in H. set (o := default_logfile _) in H.
  destruct (start_prefix _ _ _ _ H) as (dn & rest & Ho & Hl & Hr & Hf). exists o, dn, rest. split_and!; try done.
  - split; [done|]. intros ->. destruct r; [done|]. destruct (Hf eq_refl) as (x & rest' & ? & _). done.
  - intros -> Hok. rewrite (Hr eq_refl), app_nil_r in Ho. subst dn. rewrite Hl. clear -Hok.
    rewrite (filter_all (fun x => ok x.1 = true)) by (intros; apply Hok).
    unfold start_order, start_system. destruct (pid1 o), (logfile o), bluetooth; apply (bool_decide_unpack _);
      vm_compute; exact I.
Qed.

Lemma init_shutdown_match_witness :
  exists l, avbox_application_init true false None ["--avbox:init"] (fun _ => true) = (true, l) /\
    filter (fun x => owned x = true) l ≡ₚ shutdown_order true.
Proof.
  eexists. split; [vm_compute; reflexivity|].
  destruct (init_shutdown_match true false None ["--avbox:init"] (fun _ => true) true
    (avbox_application_init true false None ["--avbox:init"] (fun _ => true)).2) as (o & dn & rest & _ & _ & _ & Hp).
  - vm_compute. reflexivity.
  - apply Hp; done.
Defined.

(** The loop dispatches every message up to the shutdown, in order. *)
Lemma run_loop_spec {M} (ms : list M) (l : list (got M)) :
  run_loop (map Message ms ++ Shutdown :: l) = Some (ms, true).
Proof. induction ms as [|m ms IH]; [done|]. cbn. by rewrite IH. Qed.

(** A failed start leaves what was started running. *)
Example failed_start_leaves_running :
  avbox_application_init false false None [] (fun x => negb (bool_decide (x = InputSystem))) =
  (false, [Dispatcher; Workqueue; Settings; Timers; ProcessManager; VideoSystem; Coredump]).
Proof. by vm_compute. Qed.

End Startup.
