(* ===== verification/Settings.v ===== *)
(** * Settings and volume (src/lib/db_util.c, settings.c, volume.c)

    [Sql]: the quoting of strings in SQL statements.  [Store]: the settings,
    key and value pairs in a table of SQLite, read and written with
    statements built as text.  [Volume]: the volume of the mixer.

    SQLite is a parameter: the class [Sqlite] states what its documentation
    says of the four statements the code uses.  Strings are lists of bytes
    without zeros. *)

From S2P Require Import Prelude Strings.

Module Sql.

Definition QUOTE : byte := 39.

(** The first pass computes the length. *)
Fixpoint escaped_length (sql : list byte) (n : Z) : Z :=
  match sql with
  | [] => n
  | c :: sql => escaped_length sql (if c =? QUOTE then n + 2 else n + 1)
  end.

(** A store through [psafesql] into the buffer of [cap] bytes. *)
Definition put (cap : Z) (c : byte) (out : list byte) : option (list byte) :=
  if len out <? cap then Some (out ++ [c]) else None.

(** The second pass copies, doubling the quotes. *)
Fixpoint escape_copy (cap : Z) (sql out : list byte) : option (list byte) :=
  match sql with
  | [] => put cap 0 out
  | c :: sql =>
      out ← (if c =? QUOTE then put cap QUOTE out else Some out);
      out ← put cap c out;
      escape_copy cap sql out
  end.

(** The argument is NULL or a string; the result, if there is memory, is a
    buffer that ends with a zero. *)
Definition avbox_dbutil_escapesql (mem : bool) (sql : option (list byte)) : option (option (list byte)) :=
  sql ← sql;
  if mem then buf ← escape_copy (escaped_length sql 0 + 1) sql []; Some (Some (cstring buf)) else Some None.

(** ** What it means *)

Definition escape (sql : list byte) : list byte := concat (map (fun c => if c =? QUOTE then [QUOTE; QUOTE] else [c]) sql).

(** The string a literal stands for, without its outer quotes: two quotes
    are one quote, a single one would end it. *)
Fixpoint literal (lit : list byte) : option (list byte) :=
  match lit with
  | [] => Some []
  | c :: lit =>
      if c =? QUOTE then
        match lit with
        | d :: lit => if d =? QUOTE then cons QUOTE <$> literal lit else None
        | [] => None
        end
      else cons c <$> literal lit
  end.

Lemma literal_escape s : literal (escape s) = Some s.
Proof.
  induction s as [|c s IH]; [done|]. unfold escape in *. cbn. destruct (c =? QUOTE) eqn:E.
  - zify_bool. subst. cbn in *. by rewrite IH.
  - cbn. rewrite E. by rewrite IH.
Qed.

Lemma escaped_length_spec s n : escaped_length s n = n + len (escape s).
Proof.
  revert n. induction s as [|c s IH]; intros n; [unfold len; cbn; lia|]. cbn [escaped_length]. rewrite IH.
  unfold escape. cbn [map concat]. rewrite len_app. destruct (c =? QUOTE); unfold len; cbn; lia.
Qed.

Lemma put_ok cap c out : len out < cap -> put cap c out = Some (out ++ [c]).
Proof. intros. unfold put. by rewrite (proj2 (Z.ltb_lt _ _)). Qed.

Lemma escape_copy_spec cap s out :
  len out + len (escape s) < cap -> escape_copy cap s out = Some (out ++ escape s ++ [0]).
Proof.
  revert out. induction s as [|c s IH]; intros out H; cbn [escape_copy].
  - rewrite put_ok; [done|]. unfold len in *. cbn in H. lia.
  - unfold escape in H |- *. cbn [map concat] in H |- *. fold (escape s) in H |- *. pose proof (len_nonneg (escape s)).
    rewrite len_app in H. destruct (c =? QUOTE) eqn:E.
    + zify_bool. subst. unfold len at 2 in H. cbn in H. rewrite put_ok by lia. cbn [mbind option_bind].
      rewrite put_ok by (rewrite len_app; unfold len at 2; cbn; lia). cbn [mbind option_bind].
      rewrite IH by (rewrite !len_app; unfold len at 2 3; cbn; lia). f_equal. by rewrite <- !app_assoc.
    + unfold len at 2 in H. cbn in H. cbn [mbind option_bind]. rewrite put_ok by lia. cbn [mbind option_bind].
      rewrite IH by (rewrite !len_app; unfold len at 2; cbn; lia). f_equal. by rewrite <- !app_assoc.
Qed.

Lemma escape_nonzero s : Forall (fun c => c <> 0) s -> Forall (fun c => c <> 0) (escape s).
Proof.
  induction 1 as [|c s Hc Hs IH]; [constructor|]. unfold escape. cbn. apply Forall_app_2; [|done].
  destruct (c =? QUOTE); by repeat constructor.
Qed.

Lemma cstring_end w : Forall (fun c => c <> 0) w -> cstring (w ++ [0]) = w.
Proof. induction 1 as [|c w Hc Hw IH]; [done|]. cbn. rewrite (proj2 (Z.eqb_neq c 0)) by done. by rewrite IH. Qed.

(** The two passes agree: the copy fills the buffer exactly. *)
Lemma escapesql_spec mem s :
  Forall (fun c => c <> 0) s -> avbox_dbutil_escapesql mem (Some s) = Some (if mem then Some (escape s) else None).
Proof.
  intros Hs. unfold avbox_dbutil_escapesql. cbn [mbind option_bind]. destruct mem; [|done].
  rewrite escape_copy_spec by (rewrite escaped_length_spec; unfold len at 1; cbn; lia). cbn.
  by rewrite cstring_end by (by apply escape_nonzero).
Qed.

End Sql.

Module Store.
Import Sql.

Definition SQLBUFLEN : Z := 1024.

Abbreviation row := (list byte * list byte)%type.

(** The statements, with literals in place. *)
Definition select_sql (key : list byte) : list byte :=
  text "SELECT value FROM settings WHERE key = '" ++ key ++ text "' LIMIT 1;".
Definition insert_sql (key value : list byte) : list byte :=
  text "INSERT INTO settings (key, value) VALUES ('" ++ key ++ text "', '" ++ value ++ text "');".
Definition delete_sql (key : list byte) : list byte := text "DELETE FROM settings WHERE key = '" ++ key ++ text "';".
Definition update_sql (key value : list byte) : list byte :=
  text "UPDATE settings SET value = '" ++ value ++ text "' WHERE key = '" ++ key ++ text "';".

Definition update_row (k v : list byte) (r : row) : row := if decide (r.1 = k) then (r.1, v) else r.

(** [snprintf] into the buffer. *)
Definition snprintf (s : list byte) : list byte := ztake (SQLBUFLEN - 1) s.

(** SQLite, for a database with the table [settings]: what the statements
    return (the first column of the rows) and do. *)
Class Sqlite := {
  db : Type;
  rows : db -> list row;
  sqlite_exec : db -> list byte -> option (list (list byte) * db);
  exec_select : forall d lit k, literal lit = Some k ->
    sqlite_exec d (select_sql lit) = Some (map snd (take 1 (filter (fun r => r.1 = k) (rows d))), d);
  exec_insert : forall d lit lit' k v, literal lit = Some k -> literal lit' = Some v ->
    exists d', sqlite_exec d (insert_sql lit lit') = Some ([], d') /\ rows d' = rows d ++ [(k, v)];
  exec_delete : forall d lit k, literal lit = Some k ->
    exists d', sqlite_exec d (delete_sql lit) = Some ([], d') /\ rows d' = filter (fun r => r.1 <> k) (rows d);
  exec_update : forall d lit lit' k v, literal lit = Some k -> literal lit' = Some v ->
    exists d', sqlite_exec d (update_sql lit lit') = Some ([], d') /\
      rows d' = map (update_row k v) (rows d)
}.

Section store.
Context `{Sqlite}.

(** Which calls succeed: memory for the escaped key, the name of the
    database and the copy of the result, opening and executing. *)
Record get_answers := GetAnswers { g_key : bool; g_file : bool; g_open : bool; g_exec : bool; g_copy : bool }.

(** The callback: the last row wins. *)
Definition avbox_settings_getstring_callback (copy : bool) (value : option (list byte)) (r : list byte) :
    option (list byte) := if copy then Some r else None.

Definition avbox_settings_getstring (a : get_answers) (key : list byte) (d : db) : option (option (list byte)) :=
  safekey ← avbox_dbutil_escapesql (g_key a) (Some key);
  match safekey with
  | None => Some None
  | Some safekey =>
      if g_file a && g_open a && g_exec a then
        match sqlite_exec d (snprintf (select_sql safekey)) with
        | Some (rs, _) => Some (foldl (avbox_settings_getstring_callback (g_copy a)) None rs)
        | None => Some None
        end
      else Some None
  end.

Record set_answers := SetAnswers {
  s_key : bool; s_value : bool; s_get : get_answers; s_file : bool; s_open : bool; s_exec : bool
}.

(** The statement for a key that was found or not. *)
Definition set_sql (existing value : option (list byte)) (safekey safevalue : list byte) : option (list byte) :=
  match existing, value with
  | None, None => None
  | None, Some _ => Some (insert_sql safekey safevalue)
  | Some _, None => Some (delete_sql safekey)
  | Some _, Some _ => Some (update_sql safekey safevalue)
  end.

(** Answers the return value and the database. *)
Definition avbox_settings_setstring (a : set_answers) (key : list byte) (value : option (list byte)) (d : db) :
    option (Z * db) :=
  safekey ← avbox_dbutil_escapesql (s_key a) (Some key);
  safevalue ← avbox_dbutil_escapesql (s_value a) value;
  match safekey, safevalue with
  | Some safekey, Some safevalue =>
      existing ← avbox_settings_getstring (s_get a) key d;
      match set_sql existing value safekey safevalue with
      | None => Some (-1, d)
      | Some sql =>
          if s_file a && s_open a && s_exec a then
            match sqlite_exec d (snprintf sql) with Some (_, d) => Some (0, d) | None => Some (-1, d) end
          else Some (-1, d)
      end
  | _, _ => Some (-1, d)
  end.

(** Anything but "0" and "1" aborts. *)
Definition avbox_settings_getbool (a : get_answers) (key : list byte) (d : db) : option Z :=
  str ← avbox_settings_getstring a key d;
  match str with
  | None => Some 0
  | Some s => if bool_decide (s = text "0") then Some 0 else if bool_decide (s = text "1") then Some 1 else None
  end.

Definition avbox_settings_setbool (a : set_answers) (key : list byte) (value : Z) (d : db) : option (Z * db) :=
  avbox_settings_setstring a key (Some (if value =? 0 then text "0" else text "1")) d.

(** ** The settings as a map *)

Definition lookup_rows (l : list row) (k : list byte) : option (list byte) := snd <$> head (filter (fun r => r.1 = k) l).

Definition setting (d : db) (k : list byte) : option (list byte) := lookup_rows (rows d) k.

Definition get_ok : get_answers := GetAnswers true true true true true.
Definition set_ok : set_answers := SetAnswers true true get_ok true true true.

(** The statements fit in the buffer. *)
Definition fits (k v : list byte) : Prop :=
  len (select_sql (escape k)) < SQLBUFLEN /\ len (insert_sql (escape k) (escape v)) < SQLBUFLEN /\
  len (update_sql (escape k) (escape v)) < SQLBUFLEN.

Definition plain (s : list byte) : Prop := Forall (fun c => c <> 0) s.

Lemma snprintf_fits s : len s < SQLBUFLEN -> snprintf s = s.
Proof. intros. apply ztake_all. lia. Qed.

Lemma getstring_spec k d :
  plain k -> len (select_sql (escape k)) < SQLBUFLEN -> avbox_settings_getstring get_ok k d = Some (setting d k).
Proof.
  intros Hk Hf. unfold avbox_settings_getstring. cbn [g_key get_ok]. rewrite (escapesql_spec true k Hk).
  cbn [mbind option_bind g_file g_open g_exec get_ok andb]. rewrite snprintf_fits by done.
  rewrite (exec_select d _ k) by apply literal_escape. unfold setting, lookup_rows. f_equal.
  by destruct (filter _ (rows d)) as [|r l].
Qed.

Lemma lookup_insert_rows l k v k' :
  lookup_rows l k = None -> lookup_rows (l ++ [(k, v)]) k' = if decide (k' = k) then Some v else lookup_rows l k'.
Proof.
  unfold lookup_rows. intros Hk. rewrite filter_app. destruct (decide (k' = k)) as [->|Hne].
  - rewrite (filter_cons_True _ (k, v)) by done. by destruct (filter (fun r => r.1 = k) l).
  - rewrite (filter_cons_False _ (k, v)) by (cbn; congruence). cbn. by rewrite app_nil_r.
Qed.

Lemma update_other l k v k' :
  k' <> k -> filter (fun r => r.1 = k') (map (update_row k v) l) = filter (fun r => r.1 = k') l.
Proof.
  intros Hne. induction l as [|[a b] l IH]; [done|]. cbn [map]. rewrite !filter_cons, IH. unfold update_row. cbn [fst].
  destruct (decide (a = k)) as [->|Ha]; cbn [fst]; [by rewrite !decide_False by congruence|done].
Qed.

Lemma update_same l k v :
  filter (fun r => r.1 = k) (map (update_row k v) l) = map (fun r => (r.1, v)) (filter (fun r => r.1 = k) l).
Proof.
  induction l as [|[a b] l IH]; [done|]. cbn [map]. rewrite !filter_cons, IH. unfold update_row. cbn [fst].
  destruct (decide (a = k)) as [->|Ha]; cbn [fst]; [by rewrite decide_True|by rewrite decide_False].
Qed.

Lemma lookup_update_rows l k v k' :
  is_Some (lookup_rows l k) ->
  lookup_rows (map (update_row k v) l) k' = if decide (k' = k) then Some v else lookup_rows l k'.
Proof.
  unfold lookup_rows. intros [w Hw]. destruct (decide (k' = k)) as [->|Hne]; [|by rewrite update_other].
  rewrite update_same. by destruct (filter (fun r => r.1 = k) l).
Qed.

(** What a call does that does not fail. *)
Lemma setstring_spec k v d :
  plain k -> plain v -> fits k v ->
  exists d', avbox_settings_setstring set_ok k (Some v) d = Some (0, d') /\
    forall k', setting d' k' = if decide (k' = k) then Some v else setting d k'.
Proof.
  intros Hk Hv (Hs & Hi & Hu). unfold avbox_settings_setstring. cbn [s_key s_value s_get set_ok].
  rewrite (escapesql_spec true k Hk), (escapesql_spec true v Hv). cbn [mbind option_bind].
  rewrite getstring_spec by done. cbn [mbind option_bind s_file s_open s_exec set_ok andb].
  destruct (setting d k) as [w|] eqn:E; cbn [set_sql]; rewrite snprintf_fits by done.
  - destruct (exec_update d (escape k) (escape v) k v) as (d' & -> & Hr); [apply literal_escape..|].
    exists d'. split; [done|]. intros k'. unfold setting. rewrite Hr.
    apply lookup_update_rows. by exists w.
  - destruct (exec_insert d (escape k) (escape v) k v) as (d' & -> & Hr); [apply literal_escape..|].
    exists d'. split; [done|]. intros k'. unfold setting. rewrite Hr. by apply lookup_insert_rows.
Qed.

Fixpoint set_all (l : list row) (d : db) : option db :=
  match l with
  | [] => Some d
  | (k, v) :: l => '(r, d) ← avbox_settings_setstring set_ok k (Some v) d; if r =? 0 then set_all l d else None
  end.

(** The value a sequence of writes leaves. *)
Definition last_written (l : list row) (k : list byte) (v : option (list byte)) : option (list byte) :=
  foldl (fun o r => if decide (k = r.1) then Some r.2 else o) v l.

Lemma set_all_spec l : forall d,
  Forall (fun r => plain r.1 /\ plain r.2 /\ fits r.1 r.2) l ->
  exists d', set_all l d = Some d' /\ forall k, setting d' k = last_written l k (setting d k).
Proof.
  induction l as [|[k v] l IH]; intros d Hl; [by exists d|]. inversion Hl as [|? ? (Hk & Hv & Hf) Hl']; subst.
  cbn [fst snd] in *. destruct (setstring_spec k v d Hk Hv Hf) as (d1 & Hs & H1). cbn [set_all]. rewrite Hs.
  cbn [mbind option_bind]. destruct (IH d1 Hl') as (d' & Hd & H'). exists d'. split; [done|]. intros k'.
  by rewrite H', H1.
Qed.

(** ** Integers *)

(** [sprintf] with %d. *)
Fixpoint digits (fuel : nat) (z : Z) : list byte :=
  match fuel with
  | O => []
  | S fuel => if z <? 10 then [48 + z] else digits fuel (z / 10) ++ [48 + z mod 10]
  end.

Definition sprintf_d (z : Z) : list byte := if z <? 0 then 45 :: digits 10 (- z) else digits 10 z.

Fixpoint digits_value (s : list byte) (acc : Z) : Z :=
  match s with
  | c :: s => if isdigit c then digits_value s (acc * 10 + (c - 48)) else acc
  | [] => acc
  end.

Definition isspace (c : byte) : bool := (c =? 32) || ((9 <=? c) && (c <=? 13)).

Fixpoint skip_spaces (s : list byte) : list byte :=
  match s with c :: t => if isspace c then skip_spaces t else s | [] => [] end.

Definition atoi (s : list byte) : Z :=
  match skip_spaces s with
  | c :: t => if c =? 45 then - digits_value t 0 else if c =? 43 then digits_value t 0 else digits_value (c :: t) 0
  | [] => 0
  end.

Definition avbox_settings_setint (a : set_answers) (key : list byte) (value : Z) (d : db) : option (Z * db) :=
  avbox_settings_setstring a key (Some (sprintf_d value)) d.

Definition avbox_settings_getint (a : get_answers) (key : list byte) (defvalue : Z) (d : db) : option Z :=
  svalue ← avbox_settings_getstring a key d;
  Some (match svalue with Some s => atoi s | None => defvalue end).

Lemma digits_digits fuel z : 0 <= z -> Forall (fun c => isdigit c = true) (digits fuel z).
Proof.
  revert z. induction fuel as [|fuel IH]; intros z Hz; cbn; [constructor|]. destruct (z <? 10) eqn:E; zify_bool.
  - apply Forall_singleton. unfold isdigit. apply andb_true_intro. split; apply Z.leb_le; lia.
  - apply Forall_app_2; [apply IH; by apply Z.div_pos|]. apply Forall_singleton. unfold isdigit.
    pose proof (Z.mod_pos_bound z 10 ltac:(done)). apply andb_true_intro. split; apply Z.leb_le; lia.
Qed.

Lemma digits_value_snoc s c acc :
  Forall (fun c => isdigit c = true) s -> isdigit c = true ->
  digits_value (s ++ [c]) acc = digits_value s acc * 10 + (c - 48).
Proof. intros Hs Hc. revert acc. induction Hs as [|d s Hd Hs IH]; intros acc; cbn; [by rewrite Hc|]. by rewrite Hd. Qed.

Lemma digits_value_digits fuel z : 0 <= z < 10 ^ Z.of_nat fuel -> digits_value (digits fuel z) 0 = z.
Proof.
  revert z. induction fuel as [|fuel IH]; intros z Hz; [cbn in Hz |- *; lia|].
  rewrite Nat2Z.inj_succ, Z.pow_succ_r in Hz by lia. cbn [digits]. pose proof (Z.mod_pos_bound z 10 ltac:(done)).
  assert (forall x, 0 <= x < 10 -> isdigit (48 + x) = true) as Hdig.
  { intros x Hx. unfold isdigit. apply andb_true_intro. split; apply Z.leb_le; lia. }
  destruct (z <? 10) eqn:E; zify_bool.
  - cbn. rewrite Hdig by lia. lia.
  - rewrite digits_value_snoc by (apply digits_digits, Z.div_pos || apply Hdig; lia).
    rewrite IH; [pose proof (Z.div_mod z 10); lia|]. split; [apply Z.div_pos; lia|]. apply Z.div_lt_upper_bound; lia.
Qed.

(** Printing an [int] and reading it back. *)
Lemma atoi_sprintf z : in_s 32 z = true -> atoi (sprintf_d z) = z.
Proof.
  unfold in_s. intros Hz. zify_bool. cbn in Hz. unfold atoi, sprintf_d. destruct (z <? 0) eqn:E; zify_bool.
  - change (skip_spaces (45 :: digits 10 (- z))) with (45 :: digits 10 (- z)). cbn -[digits]. rewrite digits_value_digits; [lia|]. cbn. lia.
  - destruct (digits 10 z) as [|c t] eqn:Ed.
    + exfalso. cbn in Ed. destruct (z <? 10); [done|]. by destruct (app_cons_not_nil _ _ _ (eq_sym Ed)).
    + pose proof (digits_digits 10 z) as Hd. rewrite Ed in Hd.
      pose proof (Forall_inv (Hd ltac:(lia))) as Hc. cbn in Hc.
      unfold isdigit in Hc. zify_bool. cbn [skip_spaces]. assert (isspace c = false) as ->.
      { unfold isspace. apply orb_false_intro; [apply Z.eqb_neq; lia|]. apply andb_false_intro2. apply Z.leb_gt. lia. }
      rewrite (proj2 (Z.eqb_neq c 45)), (proj2 (Z.eqb_neq c 43)) by lia. rewrite <- Ed, digits_value_digits; [done|].
      cbn. lia.
Qed.

Lemma sprintf_plain z : in_s 32 z = true -> plain (sprintf_d z).
Proof.
  intros Hz. unfold sprintf_d, plain.
  assert (forall x, 0 <= x -> Forall (fun c => c <> 0) (digits 10 x)) as Hd.
  { intros x Hx. eapply Forall_impl; [by apply digits_digits|]. intros c Hc. cbn in Hc. unfold isdigit in Hc. zify_bool. lia. }
  destruct (z <? 0) eqn:E; zify_bool; [constructor; [done|]|]; apply Hd; lia.
Qed.

(** C36. The settings behave like a map: after any sequence of writes whose
    statements fit in the buffer, and when no call fails, every key reads as
    the value that was last written for it (quotes and all), other keys as
    before, a key that was never written as missing, and an integer that is
    written reads back as that integer. *)
Theorem settings_roundtrip l d :
  Forall (fun r => plain r.1 /\ plain r.2 /\ fits r.1 r.2) l ->
  exists d', set_all l d = Some d' /\
    (forall k, plain k -> len (select_sql (escape k)) < SQLBUFLEN ->
       avbox_settings_getstring get_ok k d' = Some (last_written l k (setting d k))) /\
    (forall k z defvalue, plain k -> fits k (sprintf_d z) -> in_s 32 z = true ->
       exists d2, avbox_settings_setint set_ok k z d' = Some (0, d2) /\
         avbox_settings_getint get_ok k defvalue d2 = Some z).
Proof.
  intros Hl. destruct (set_all_spec l d Hl) as (d' & Hs & Hk). exists d'. split; [done|]. split.
  - intros k Hp Hf. by rewrite getstring_spec, Hk.
  - intros k z defvalue Hp Hf Hz. destruct (setstring_spec k (sprintf_d z) d' Hp (sprintf_plain z Hz) Hf) as (d2 & H2 & Hv).
    exists d2. split; [done|]. unfold avbox_settings_getint. rewrite getstring_spec, Hv by (done || apply Hf).
    rewrite decide_True by done. cbn. by rewrite atoi_sprintf.
Qed.
End store.

(** ** A database *)

Import Replace.

(** The string up to the quote that ends a literal, and the rest. *)
Fixpoint read_literal (s : list byte) : option (list byte * list byte) :=
  match s with
  | [] => None
  | c :: s =>
      if c =? QUOTE then
        match s with
        | d :: t => if d =? QUOTE then '(k, r) ← read_literal t; Some (QUOTE :: k, r) else Some ([], s)
        | [] => Some ([], [])
        end
      else '(k, r) ← read_literal s; Some (c :: k, r)
  end.

Lemma read_literal_spec lit k rest :
  literal lit = Some k -> head rest <> Some QUOTE -> read_literal (lit ++ QUOTE :: rest) = Some (k, rest).
Proof.
  remember (length lit) as n eqn:Hn. assert (length lit <= n)%nat as Hle by lia. clear Hn. revert lit k Hle.
  induction n as [|n IH]; intros lit k Hle Hl Hr.
  { destruct lit; [|cbn in Hle; lia]. injection Hl as <-. cbn. destruct rest as [|c r]; [done|].
    destruct (c =? QUOTE) eqn:E; [zify_bool; by subst|done]. }
  destruct lit as [|c lit].
  { injection Hl as <-. cbn. destruct rest as [|c r]; [done|]. destruct (c =? QUOTE) eqn:E; [zify_bool; by subst|done]. }
  cbn [literal] in Hl. cbn [app read_literal]. destruct (c =? QUOTE) eqn:E.
  - destruct lit as [|d lit]; [done|]. destruct (d =? QUOTE) eqn:E'; [|done]. cbn [app].
    rewrite E'. destruct (literal lit) as [k'|] eqn:El; [|done]. injection Hl as <-.
    rewrite (IH lit k') by (done || (cbn in Hle; lia)). done.
  - destruct (literal lit) as [k'|] eqn:El; [|done]. injection Hl as <-.
    rewrite (IH lit k') by (done || (cbn in Hle; lia)). done.
Qed.

(** An interpreter of the statements, also without a WHERE clause. *)
Definition mini_exec (d : list row) (s : list byte) : option (list (list byte) * list row) :=
  match strip (text "SELECT value FROM settings WHERE key = '") s with
  | Some s =>
      '(k, r) ← read_literal s;
      if bool_decide (r = text " LIMIT 1;") then Some (map snd (take 1 (filter (fun x => x.1 = k) d)), d) else None
  | None =>
  match strip (text "INSERT INTO settings (key, value) VALUES ('") s with
  | Some s =>
      '(k, r) ← read_literal s; r ← strip (text ", '") r; '(v, r) ← read_literal r;
      if bool_decide (r = text ");") then Some ([], d ++ [(k, v)]) else None
  | None =>
  match strip (text "DELETE FROM settings WHERE key = '") s with
  | Some s =>
      '(k, r) ← read_literal s;
      if bool_decide (r = text ";") then Some ([], filter (fun x => x.1 <> k) d) else None
  | None =>
  match strip (text "UPDATE settings SET value = '") s with
  | Some s =>
      '(v, r) ← read_literal s;
      match r with
      | [] => Some ([], map (fun x => (x.1, v)) d)
      | _ => r ← strip (text " WHERE key = '") r; '(k, r) ← read_literal r;
             if bool_decide (r = text ";") then Some ([], map (update_row k v) d) else None
      end
  | None => None
  end end end end.

Lemma strip_prefix p s : strip p (p ++ s) = Some s.
Proof. by apply strip_Some. Qed.

(** The constants behind a literal start with its closing quote. *)
Lemma closing_select : text "' LIMIT 1;" = QUOTE :: text " LIMIT 1;".
Proof. done. Qed.
Lemma closing_comma : text "', '" = QUOTE :: text ", '".
Proof. done. Qed.
Lemma closing_insert : text "');" = QUOTE :: text ");".
Proof. done. Qed.
Lemma closing_end : text "';" = QUOTE :: text ";".
Proof. done. Qed.
Lemma closing_where : text "' WHERE key = '" = QUOTE :: text " WHERE key = '".
Proof. done. Qed.

#[local] Ltac other_statement := match goal with |- context [strip ?p ?s] =>
  first [rewrite strip_prefix | assert (strip p s = None) as -> by reflexivity] end.

#[export] Program Instance mini_sqlite : Sqlite := {| db := list row; rows d := d; sqlite_exec := mini_exec |}.
Next Obligation.
  intros d lit k Hl. unfold mini_exec, select_sql. rewrite closing_select. other_statement.
  rewrite (read_literal_spec _ k) by done. done.
Qed.
Next Obligation.
  intros d lit lit' k v Hl Hl'. eexists. split; [|done]. unfold mini_exec, insert_sql.
  rewrite closing_comma, closing_insert. do 2 other_statement. rewrite <- app_comm_cons.
  rewrite (read_literal_spec _ k) by done. cbn [mbind option_bind]. rewrite strip_prefix. cbn [mbind option_bind].
  rewrite (read_literal_spec _ v) by done. done.
Qed.
Next Obligation.
  intros d lit k Hl. eexists. split; [|done]. unfold mini_exec, delete_sql. rewrite closing_end. do 3 other_statement.
  rewrite (read_literal_spec _ k) by done. done.
Qed.
Next Obligation.
  intros d lit lit' k v Hl Hl'. eexists. split; [|done]. unfold mini_exec, update_sql.
  rewrite closing_where, closing_end. do 4 other_statement. rewrite <- app_comm_cons.
  rewrite (read_literal_spec _ v) by done. cbn [mbind option_bind]. other_statement. cbn [mbind option_bind].
  rewrite (read_literal_spec _ k) by done. done.
Qed.

(** Two settings, the second with a quote. *)
Definition sample : list row := [(text "name", text "box"); (text "title", text "it's"); (text "name", text "tv")].

Lemma settings_roundtrip_witness :
  Forall (fun r => plain r.1 /\ plain r.2 /\ fits r.1 r.2) sample /\
  exists d', set_all (H := mini_sqlite) sample [] = Some d' /\
    avbox_settings_getstring get_ok (text "title") d' = Some (Some (text "it's")).
Proof.
  assert (Forall (fun r => plain r.1 /\ plain r.2 /\ fits r.1 r.2) sample) as Hs.
  { repeat constructor; try done; by_eval. }
  split; [exact Hs|]. destruct (settings_roundtrip (H := mini_sqlite) sample [] Hs) as (d' & Hd & Hg & _).
  exists d'. split; [exact Hd|]. rewrite Hg; [vm_compute; reflexivity|repeat constructor; done|].
  by_eval.
Defined.

(** ** What the code does not do *)

(** Writing NULL was meant to delete a setting; the value is escaped before
    it is tested. *)
Lemma null_value_crashes `{Sqlite} a k d : plain k -> avbox_settings_setstring a k None d = None.
Proof. intros Hk. unfold avbox_settings_setstring. by rewrite escapesql_spec. Qed.

(** A read that fails for another reason looks like a missing key: the value
    is inserted a second time and never seen. *)
Example failed_read_duplicates :
  avbox_settings_setstring (SetAnswers true true (GetAnswers true true false true true) true true true)
    (text "k") (Some (text "new")) [(text "k", text "old")] = Some (0, [(text "k", text "old"); (text "k", text "new")]) /\
  avbox_settings_getstring get_ok (text "k") [(text "k", text "old"); (text "k", text "new")] = Some (Some (text "old")).
Proof. split; vm_compute; reflexivity. Qed.

(** A value of 993 bytes: the buffer ends behind the literal, before the
    WHERE clause, and every setting is overwritten. *)
Example truncated_update_overwrites_all :
  let v := replicate 993 122 in
  avbox_settings_setstring set_ok (text "k") (Some v) [(text "k", text "1"); (text "use_dhcp", text "1")] =
  Some (0, [(text "k", v); (text "use_dhcp", v)]).
Proof. vm_compute. reflexivity. Qed.

End Store.

(** ** The mixer *)
Module Volume.

(** The static variables and the device: [elem] is NULL until the mixer was
    found, [level] is what the device plays at, [saved] the setting. *)
Record mixer := Mixer { elem : bool; vmin : Z; vmax : Z; level : Z; msgobj : bool; saved : option Z; sent : list Z }.

Definition chk_long (z : Z) : option Z := if in_s 64 z then Some z else None.

(** [ok]: the answer of ALSA. *)
Definition avbox_volume_get (ok : bool) (m : mixer) : option Z :=
  if negb (elem m) then Some (-1)
  else if ok then
    v ← chk_long (level m * 100);
    if vmax m =? 0 then None else Some (wraps 32 (Z.quot v (vmax m)))
  else Some (-1).

(** Always answers -1. *)
Definition avbox_volume_set (ok sendmsg save : bool) (volume : Z) (m : mixer) : option (Z * mixer) :=
  if negb (elem m) then Some (-1, m)
  else
    v ← chk_long (volume * vmax m);
    if ok then
      Some (-1, Mixer (elem m) (vmin m) (vmax m) (Z.quot v 100) (msgobj m)
                  (if save then Some volume else saved m) (if msgobj m && sendmsg then sent m ++ [volume] else sent m))
    else Some (-1, m).

(** [range]: what ALSA answers, if opening, attaching, registering, loading
    and looking for the element succeed.  The notifications start after the
    saved volume, or 60, was set. *)
Definition avbox_volume_init (range : option (Z * Z)) (ok save : bool) (m : mixer) : option (Z * mixer) :=
  match range with
  | None => Some (-1, Mixer false (vmin m) (vmax m) (level m) (msgobj m) (saved m) (sent m))
  | Some (lo, hi) =>
      '(_, m) ← avbox_volume_set ok true save (default 60 (saved m))
                  (Mixer true lo hi (level m) (msgobj m) (saved m) (sent m));
      Some (0, Mixer (elem m) (vmin m) (vmax m) (level m) true (saved m) (sent m))
  end.

Definition avbox_volume_shutdown (m : mixer) : mixer :=
  Mixer (elem m) (vmin m) (vmax m) (level m) false (saved m) (sent m).

(** The volume that is read is the one that was set, up to the steps of the
    device: never more, and less by at most one plus 100 divided by the
    number of steps. *)
Lemma volume_roundtrip v m :
  elem m = true -> 0 <= v <= 100 -> 0 < vmax m < 2 ^ 31 ->
  exists m' g, avbox_volume_set true true true v m = Some (-1, m') /\ avbox_volume_get true m' = Some g /\
    g <= v /\ (v - g) * vmax m < 100 + vmax m.
Proof.
  intros He Hv Hm. unfold avbox_volume_set. rewrite He. cbn [negb].
  assert (0 <= v * vmax m <= 100 * vmax m) as Hb by nia.
  unfold chk_long at 1, in_s. rewrite bool_decide_true by lia. cbn [mbind option_bind].
  do 2 eexists. split; [done|]. unfold avbox_volume_get. cbn [elem level vmax negb].
  rewrite Z.quot_div_nonneg by lia. set (q := v * vmax m / 100).
  pose proof (Z.div_mod (v * vmax m) 100 ltac:(done)) as Hq. pose proof (Z.mod_pos_bound (v * vmax m) 100 ltac:(done)) as Hr.
  fold q in Hq. assert (0 <= q <= vmax m) as Hqb by nia.
  unfold chk_long, in_s. rewrite bool_decide_true by lia. cbn [mbind option_bind].
  rewrite (proj2 (Z.eqb_neq (vmax m) 0)) by lia. split; [done|].
  rewrite Z.quot_div_nonneg by lia. fold q. set (g := q * 100 / vmax m).
  pose proof (Z.div_mod (q * 100) (vmax m) ltac:(lia)) as Hg. pose proof (Z.mod_pos_bound (q * 100) (vmax m) ltac:(lia)).
  fold g in Hg. assert (0 <= g <= 100) by nia. change (2 ^ 31) with 2147483648 in Hm. rewrite (wraps_small 32 g) by (change (2 ^ (32 - 1)) with 2147483648; lia).
  assert ((v - g) * vmax m = (v * vmax m) mod 100 + (q * 100) mod vmax m) as He' by lia. split; nia.
Qed.

(** A device with 255 steps. *)
Lemma volume_roundtrip_witness :
  exists m' g, avbox_volume_set true true true 60 (Mixer true 0 255 0 true None []) = Some (-1, m') /\
    avbox_volume_get true m' = Some g /\ g <= 60 /\ (60 - g) * 255 < 100 + 255.
Proof. apply (volume_roundtrip 60 (Mixer true 0 255 0 true None [])); cbn; [done|lia|lia]. Defined.

(** The notification that a volume was restored at the start is not sent. *)
Example init_is_silent :
  option_map (fun r => sent r.2) (avbox_volume_init (Some (0, 255)) true true (Mixer false 0 0 0 false (Some 40) [])) = Some [].
Proof. vm_compute. reflexivity. Qed.

End Volume.
