(* ===== verification/Titles.v ===== *)
(** * Titles of videos (src/library.c)

    How the name of a file becomes an entry of the library: the extension
    is cut ([mbox_library_stripext]), names like [Serie.S01E02.Title] are
    recognised ([mbox_library_local_video_name]) and noise is removed from
    the title ([mbox_library_transform_video_title]).  Strings are lists of
    bytes without zeros; the 1024 bytes of the local buffer are a list with
    the zeros in it, and a store outside of it is [None].  Memory is taken
    to be there: the code aborts or crashes without it. *)

From S2P Require Import Prelude Strings.
Import Str Replace.

Definition SLASH : byte := 47.
Definition DOT : byte := 46.

(** The part of [s] before the last [c] and the part after it. *)
Fixpoint cut_last (c : byte) (s : list byte) : option (list byte * list byte) :=
  match s with
  | [] => None
  | x :: s =>
      match cut_last c s with
      | Some (pre, post) => Some (x :: pre, post)
      | None => if x =? c then Some ([], s) else None
      end
  end.

(** [basename] of a path that does not end in a slash. *)
Definition basename (path : list byte) : list byte :=
  match cut_last SLASH path with Some (_, name) => name | None => path end.

(** The name that is left and the extension. *)
Definition mbox_library_stripext (filename : list byte) : list byte * option (list byte) :=
  if bool_decide (filename = [DOT; DOT]) then (filename, None)
  else match cut_last DOT filename with
       | Some (pre, ext) => (pre, Some ext)
       | None => (filename, None)
       end.

(** ** Noise *)

Definition replace (s what with_ : list byte) : option (list byte) :=
  match strreplace (S (length s)) s what with_ true with Some (Some r, _) => Some r | _ => None end.

Fixpoint replace_all (l : list (list byte * list byte)) (s : list byte) : option (list byte) :=
  match l with [] => Some s | (what, with_) :: l => s ← replace s what with_; replace_all l s end.

Definition erase (l : list string) : list (list byte * list byte) := map (fun w => (text w, [])) l.

Definition noise : list (list byte * list byte) :=
  [([TAB], [])] ++
  erase ["YIFY"; "BluRay"; "x264"; "BrRip"; "HDRip"; "AAC2"; "AAC-JYK"; "bitloks"; "H264"; "AAC-RARBG"; "SiNNERS";
         "X264"; "XViD"; "XviD"; "EVO"]%string ++
  [(text "_", [SPACE]); (text "psig", [SPACE])] ++
  erase ["xvid"; "dvdrip"; "ac3"; "AC3"; "DvDrip"; "DVDRip"; "internal"; "iNFAMOUS"; "HD-CAM"; "AC3-CPG"; "HQMic";
         "BRRip"; "Bluray"; "500MB"; "aXXo"; "VPPV"; "BOKUTOX"; "George Lucas"; "Eng Subs"; "BRrip"; "DTS"; "GAZ";
         "AAC"; "YTS"; "AG"; "RARBG"; "CPG"; "HD TS"; "SyED"; "MkvCage"; "WEBRip"; "HC ETRG"; "DVDSrc"; "XVID";
         "HQ Hive"; "CM8"; "mkv muxed old"; "0 STUTTERSHIT"; "WEB DL"; "JYK"; "Xvid"; "avi"; "mp4"]%string ++
  [(text ".", [SPACE]); (text "-", [SPACE])].

(** The loop that turns runs of spaces into one. *)
Fixpoint collapse (fuel : nat) (title : list byte) : option (list byte) :=
  match fuel with
  | O => None
  | S fuel =>
      let tmp := title in
      title ← replace title [SPACE; SPACE] [SPACE];
      if streq tmp title then Some title else collapse fuel title
  end.

Definition trim (s : list byte) : option (list byte) :=
  match strtrim (Some s) with inl _ => None | inr r => Some r end.

Definition mbox_library_transform_video_title (title : list byte) : option (list byte) :=
  title ← replace_all noise title;
  title ← collapse (S (length title)) title;
  title ← replace_all [(text "[]", []); (text "[ ]", [])] title;
  title ← trim title;
  Some (if streq title (text "COM") || streq title (text "com") then [] else title).

(** ** Episodes *)

Definition is_S (c : byte) : bool := (c =? 83) || (c =? 115).
Definition is_E (c : byte) : bool := (c =? 69) || (c =? 101).

(** What the two regular expressions match after their first group; its
    star takes as much as it can, so the last place is the one. *)
Definition episode_at (s : list byte) : option (list byte * list byte * list byte) :=
  match s with
  | c0 :: a :: b :: c1 :: c :: d :: rest =>
      if is_S c0 && isdigit a && isdigit b && is_E c1 && isdigit c && isdigit d
      then Some ([a; b], [c; d], rest) else None
  | _ => None
  end.

Definition season_at (s : list byte) : option (list byte * list byte * list byte) :=
  match s with
  | c0 :: a :: b :: rest => if is_S c0 && isdigit a && isdigit b then Some ([a; b], rest, []) else None
  | _ => None
  end.

Fixpoint last_match (f : list byte -> option (list byte * list byte * list byte)) (s : list byte) :
    option (list byte * (list byte * list byte * list byte)) :=
  match s with
  | [] => None
  | c :: s' =>
      match last_match f s' with
      | Some (pre, x) => Some (c :: pre, x)
      | None => option_map (pair []) (f s)
      end
  end.

(** The groups of [regexec] for the two patterns in turn. *)
Definition match_serie (name : list byte) : option (list byte * (list byte * list byte * list byte)) :=
  match last_match episode_at name with
  | Some x => Some x
  | None => last_match season_at name
  end.

(** The strings that are put together in [buf]: [strncpy] does not end the
    last part with a zero. *)
Definition BUFSIZE : nat := 1024.

Definition strncat (buf : list byte) (s : list byte) : option (list byte) :=
  memcpy buf (len (cstring buf)) (s ++ [0]).

Definition episode_strings (serie season episode rest : list byte) : option (list byte * list byte * list byte) :=
  let buf := replicate BUFSIZE 0 in
  buf ← memcpy buf 0 serie;
  buf ← memcpy buf (len serie) [0];
  let serie_name := cstring buf in
  buf ← memcpy buf 0 (text "Season " ++ [0]);
  buf ← strncat buf season;
  buf ← memcpy buf (len season + 7) [0];
  let season_name := cstring buf in
  buf ← memcpy buf 0 (text "Episode " ++ [0]);
  buf ← strncat buf episode;
  buf ← memcpy buf (len episode + 8) [0];
  buf ← strncat buf [SPACE];
  buf ← memcpy buf (len episode + 9) rest;
  Some (serie_name, season_name, cstring buf).

(** Where a video goes. *)
Inductive place := Movie (title : list byte) | Episode (serie season title : list byte).

(** [mbox_library_local_video_name] up to the database. *)
Definition video_name (path : list byte) : option place :=
  let name := (mbox_library_stripext (basename path)).1 in
  match match_serie name with
  | Some (serie, (season, episode, rest)) =>
      '(serie, season, episode) ← episode_strings serie season episode rest;
      serie ← mbox_library_transform_video_title serie;
      serie ← trim serie;
      title ← mbox_library_transform_video_title episode;
      Some (Episode serie season title)
  | None => title ← mbox_library_transform_video_title name; Some (Movie title)
  end.

(** ** Titles *)

(** Enough for every name of a file. *)
Definition short (s : list byte) : Prop := len s <= 2 ^ 20.

Lemma replaced_elem what with_ s r : replaced what with_ s r -> forall c, c ∈ r -> c ∈ s \/ c ∈ with_.
Proof. induction 1 as [|pre rest r _ _ IH]; intros c Hc; [by left|]. specialize (IH c). set_solver. Qed.

Lemma replaced_absent c with_ s r : replaced [c] with_ s r -> c ∉ with_ -> c ∉ r.
Proof.
  intros H Hw. induction H as [s Hs|pre rest r Hmin _ IH].
  - intros Hc. apply list_elem_of_split in Hc as (a & b & ->). apply Hs. by exists a, b.
  - rewrite !elem_of_app. intros [Hp|[?|?]]; [|done|done].
    apply list_elem_of_split in Hp as (a & b & ->). specialize (Hmin a (b ++ [c] ++ rest)).
    rewrite length_app in Hmin. cbn in Hmin. rewrite <- app_assoc in Hmin. specialize (Hmin eq_refl). lia.
Qed.

Lemma replaced_length what with_ s r : len with_ <= len what -> replaced what with_ s r -> len r <= len s.
Proof. intros Hl. induction 1 as [|pre rest r _ _ IH]; [done|]. rewrite !len_app. lia. Qed.

Lemma replaced_shorter what with_ s r :
  len with_ < len what -> replaced what with_ s r -> r = s /\ ~ occurs what s \/ (length r < length s)%nat.
Proof.
  intros Hl Hr. destruct Hr as [s Hs|pre rest r _ Hr]; [by left|right].
  apply (replaced_length _ _ _ _ (Z.lt_le_incl _ _ Hl)) in Hr. unfold len in *. rewrite !length_app. lia.
Qed.

Lemma replace_spec what with_ s :
  what <> [] -> len with_ <= 1 -> short s -> exists r, replace s what with_ = Some r /\ replaced what with_ s r.
Proof.
  intros Hw Hx Hs. assert (len s * (1 + len with_) <= INT_MAX) as Hm.
  { unfold short, INT_MAX in *. pose proof (len_nonneg s). nia. }
  destruct (strreplace_replaces s what with_ true Hw Hm) as (r & Hr & [E|[? _]]); [|done].
  exists r. unfold replace. by rewrite E.
Qed.

(** A replacement by nothing or by a space. *)
Definition tidy (p : list byte * list byte) : Prop := p.1 <> [] /\ (p.2 = [] \/ p.2 = [SPACE]).

#[local] Instance tidy_dec p : Decision (tidy p).
Proof. unfold tidy. apply _. Defined.

Lemma tidy_len p : tidy p -> len p.2 <= 1 /\ len p.2 <= len p.1 /\ forall c, c ∈ p.2 -> c = SPACE.
Proof.
  destruct p as [w x]. intros [Hw [Hx|Hx]]; cbn in *; subst x; (destruct w; [done|]); unfold len; cbn; split_and!; try lia; set_solver.
Qed.

Lemma replace_all_spec l s :
  Forall tidy l -> short s ->
  exists r, replace_all l s = Some r /\ len r <= len s /\ (forall c, c ∈ r -> c ∈ s \/ c = SPACE) /\
    (forall c x, ([c], x) ∈ l -> c <> SPACE -> c ∉ r).
Proof.
  intros Hl. revert s. induction Hl as [|[w x] l Hp Hl IH]; intros s Hs; cbn.
  { exists s. split_and!; [done|lia|auto|set_solver]. }
  destruct (tidy_len _ Hp) as (H1 & H2 & H3). destruct Hp as [Hw _]. cbn in *.
  destruct (replace_spec w x s Hw H1 Hs) as (s1 & -> & Hr). cbn.
  pose proof (replaced_length _ _ _ _ H2 Hr) as Hlen.
  destruct (IH s1) as (r & -> & Hlr & Hel & Hab); [unfold short in *; lia|].
  exists r. split_and!; [done|lia| |].
  - intros c Hc. destruct (Hel c Hc) as [Hc1| ->]; [|by right].
    destruct (replaced_elem _ _ _ _ Hr c Hc1) as [?|?%H3]; auto.
  - intros c y [[= <- <-]|Hin]%elem_of_cons Hsp; [|by eapply Hab].
    intros Hc. destruct (Hel c Hc) as [Hc1|?]; [|done]. apply replaced_absent in Hr; [done|].
    intros ?%H3. done.
Qed.

Lemma collapse_spec fuel s :
  (length s < fuel)%nat -> short s ->
  exists r, collapse fuel s = Some r /\ len r <= len s /\ (forall c, c ∈ r -> c ∈ s \/ c = SPACE) /\
    ~ occurs [SPACE; SPACE] r.
Proof.
  revert s. induction fuel as [|fuel IH]; intros s Hf Hs; [lia|]. cbn.
  destruct (replace_spec [SPACE; SPACE] [SPACE] s) as (s1 & -> & Hr); [done|by unfold len; cbn; lia|done|]. cbn.
  assert (forall c, c ∈ s1 -> c ∈ s \/ c = SPACE) as Hel1.
  { intros c Hc. destruct (replaced_elem _ _ _ _ Hr c Hc) as [?|?%list_elem_of_singleton]; auto. }
  destruct (replaced_shorter _ _ _ _ (eq_refl : len [SPACE] < len [SPACE; SPACE]) Hr) as [[-> Hno]|Hlt].
  - rewrite (proj2 (streq_eq s s) eq_refl). exists s. split_and!; [done|lia|auto|done].
  - destruct (streq s s1) eqn:E; [apply streq_eq in E; subst; lia|].
    destruct (IH s1) as (r & -> & Hlr & Hel & Hno); [lia|unfold short, len in *; lia|].
    exists r. split_and!; [done|unfold len in *; lia| |done].
    intros c Hc. destruct (Hel c Hc) as [?|?]; auto.
Qed.

Lemma noise_tidy : Forall tidy noise.
Proof. by_eval. Qed.

(** The title made of a name: the loops that remove noise end, the
    title is made of the characters of the name and spaces, it has no
    underscores, dots, dashes or tabs left, and neither begins nor ends
    with a blank. *)
Lemma title_spec name :
  short name ->
  exists title, mbox_library_transform_video_title name = Some title /\ len title <= len name /\
    (forall c, c ∈ title -> c ∈ name \/ c = SPACE) /\
    (forall c, c ∈ text "_.-" ++ [TAB] -> c ∉ title) /\
    (forall c, head title = Some c -> blank c = false) /\ (forall c, last title = Some c -> blank c = false).
Proof.
  intros Hs. unfold mbox_library_transform_video_title.
  destruct (replace_all_spec noise name noise_tidy Hs) as (s1 & -> & Hl1 & He1 & Ha1). cbn [mbind option_bind].
  destruct (collapse_spec (S (length s1)) s1) as (s2 & -> & Hl2 & He2 & _); [lia|unfold short in *; lia|]. cbn [mbind option_bind].
  destruct (replace_all_spec [(text "[]", []); (text "[ ]", [])] s2) as (s3 & -> & Hl3 & He3 & _);
    [by_eval|unfold short in *; lia|]. cbn [mbind option_bind].
  destruct (strtrim_exact s3) as (_ & r & pre & post & E & Hr & _ & _ & Hh & Hla).
  unfold trim. rewrite E. cbn [mbind option_bind]. assert (forall c, c ∈ s3 -> c ∈ name \/ c = SPACE) as Hel.
  { intros c Hc. destruct (He3 c Hc) as [Hc2|]; [|auto]. destruct (He2 c Hc2) as [Hc1|]; auto. }
  assert (forall c, c ∈ text "_.-" ++ [TAB] -> c ∉ s3) as Hab.
  { intros c Hc Hc3. assert (c <> SPACE /\ exists x, ([c], x) ∈ noise) as [Hsp [x Hx]].
    { change (text "_.-" ++ [TAB]) with [95; 46; 45; 9] in Hc. rewrite !elem_of_cons in Hc.
      destruct Hc as [-> | [-> | [-> | [-> | Hc%not_elem_of_nil]]]]; [..|done];
        (split; [done|]; first [exists [SPACE]; by_eval|exists []; by_eval]). }
    destruct (He3 c Hc3) as [Hc2|]; [|done]. destruct (He2 c Hc2) as [Hc1|]; [|done]. by apply (Ha1 c x). }
  destruct (streq r (text "COM") || streq r (text "com")).
  - exists []. split_and!; try done; [apply len_nonneg|by intros c ?%not_elem_of_nil|by intros c _ ?%not_elem_of_nil].
  - exists r. assert (forall c, c ∈ r -> c ∈ s3) as Hsub by (intros c Hc; rewrite Hr; set_solver).
    split_and!; [done| |by eauto| |done|done].
    + assert (len r <= len s3) by (rewrite Hr, !len_app; pose proof (len_nonneg pre); pose proof (len_nonneg post); lia). lia.
    + intros c Hc Hcr. by apply (Hab c Hc), Hsub.
Qed.

(** ** Where titles of episodes begin *)

(** One of the two is a prefix of the other. *)
Fixpoint agree (w p : list byte) : bool :=
  match w, p with
  | x :: w, y :: p => (x =? y) && agree w p
  | _, _ => true
  end.

(** No occurrence of [w] can begin inside of [p], whatever follows it. *)
Definition clear_of (p w : list byte) : bool := forallb (fun k => negb (agree w (drop k p))) (seq 0 (length p)).

Lemma agree_app w p a b : w ++ a = p ++ b -> agree w p = true.
Proof.
  revert p. induction w as [|x w IH]; intros [|y p]; cbn; try done. intros [= -> E].
  by rewrite Z.eqb_refl, (IH p E).
Qed.

Lemma replaced_prefix p w x s r : clear_of p w = true -> replaced w x (p ++ s) r -> p `prefix_of` r.
Proof.
  intros Hc Hr. inversion Hr as [|pre rest r' _ _ E]; subst; [by exists s|].
  apply app_eq_inv in E as [(k & -> & E)|(k & -> & E)]; [by exists (k ++ x ++ r'); rewrite <- app_assoc|].
  destruct k as [|c k]; [by exists (x ++ r'); rewrite app_nil_r|exfalso].
  unfold clear_of in Hc. rewrite forallb_forall in Hc. specialize (Hc (length pre)). rewrite drop_app_length in Hc.
  rewrite (agree_app _ _ _ _ E) in Hc. enough (negb true = true) by done. apply Hc, in_seq.
  rewrite length_app. cbn. lia.
Qed.

Lemma replace_prefix p s w x r :
  tidy (w, x) -> short s -> clear_of p w = true -> p `prefix_of` s -> replace s w x = Some r -> p `prefix_of` r.
Proof.
  intros Ht Hs Hc [k ->] E. destruct (replace_spec w x (p ++ k)) as (r' & E' & Hr); [apply Ht|by apply (tidy_len _ Ht)|done|].
  rewrite E in E'. injection E' as <-. by eapply replaced_prefix.
Qed.

Lemma replace_all_prefix p l s r :
  Forall tidy l -> Forall (fun q => clear_of p q.1 = true) l -> short s -> p `prefix_of` s ->
  replace_all l s = Some r -> p `prefix_of` r.
Proof.
  intros Ht. revert s. induction Ht as [|[w x] l Hw Ht IH]; intros s Hc Hs Hp; cbn; [by intros [= <-]|].
  inversion Hc as [|? ? Hc1 Hc2]; subst. destruct (tidy_len _ Hw) as (H1 & H2 & _).
  destruct (replace_spec w x s) as (s1 & E & Hr); [apply Hw|done|done|]. rewrite E. cbn.
  apply replaced_length in Hr; [|done]. apply IH; [done|unfold short in *; lia|by apply (replace_prefix p s w x s1)].
Qed.

Lemma collapse_prefix p fuel s r :
  clear_of p [SPACE; SPACE] = true -> short s -> p `prefix_of` s -> collapse fuel s = Some r -> p `prefix_of` r.
Proof.
  intros Hc. revert s. induction fuel as [|fuel IH]; intros s Hs Hp; cbn; [done|].
  destruct (replace_spec [SPACE; SPACE] [SPACE] s) as (s1 & E & Hr); [done|by unfold len; cbn; lia|done|].
  rewrite E. cbn. assert (p `prefix_of` s1) by (apply (replace_prefix p s [SPACE; SPACE] [SPACE]); [by_eval|done..]).
  destruct (streq s s1); [by intros [= <-]|]. apply IH; [|done]. apply replaced_length in Hr; [|done].
  unfold short in *. lia.
Qed.

Lemma trim_prefix p s r :
  (exists c, head p = Some c /\ blank c = false) -> (exists c, last p = Some c /\ blank c = false) ->
  p `prefix_of` s -> trim s = Some r -> p `prefix_of` r.
Proof.
  intros (c & Hc & Hcb) (d & Hd & Hdb) [k ->]. unfold trim.
  destruct (strtrim_exact (p ++ k)) as (_ & r' & pre & post & -> & E & Hpre & Hpost & _ & _). intros [= ->].
  destruct p as [|c' p]; [done|]. injection Hc as ->. destruct pre as [|c' pre]; last first.
  { injection E as -> E. inversion Hpre; congruence. }
  cbn [app] in E. change (c :: p ++ k) with ((c :: p) ++ k) in E.
  apply app_eq_inv in E as [(m & Ep & ->)|(m & -> & E)]; [|by exists m].
  destruct m as [|e m _] using rev_ind; [rewrite app_nil_r in Ep; by exists []; rewrite app_nil_r|exfalso].
  rewrite Ep, app_assoc, last_snoc in Hd. injection Hd as ->.
  apply Forall_app in Hpost as [[_ [? _]%Forall_cons]%Forall_app _]. congruence.
Qed.

(** The word every title of an episode begins with. *)
Definition EPISODE : list byte := text "Episode".

Lemma episode_title s t :
  short (EPISODE ++ s) -> mbox_library_transform_video_title (EPISODE ++ s) = Some t -> EPISODE `prefix_of` t.
Proof.
  intros Hs. unfold mbox_library_transform_video_title.
  destruct (replace_all_spec noise _ noise_tidy Hs) as (s1 & E1 & Hl1 & _). rewrite E1. cbn [mbind option_bind].
  assert (EPISODE `prefix_of` s1) as P1 by (apply (replace_all_prefix _ noise (EPISODE ++ s)); [apply noise_tidy|by_eval|done|by exists s|done]).
  destruct (collapse_spec (S (length s1)) s1) as (s2 & E2 & Hl2 & _); [lia|unfold short in *; lia|]. rewrite E2. cbn [mbind option_bind].
  apply collapse_prefix with (p := EPISODE) in E2; [|by_eval|unfold short in *; lia|done].
  destruct (replace_all_spec [(text "[]", []); (text "[ ]", [])] s2) as (s3 & E3 & _); [by_eval|unfold short in *; lia|].
  rewrite E3. cbn [mbind option_bind]. apply replace_all_prefix with (p := EPISODE) in E3; [|by_eval|by_eval|unfold short in *; lia|done].
  destruct (trim s3) as [r|] eqn:E4; [|done]. cbn [mbind option_bind].
  apply trim_prefix with (p := EPISODE) in E4; [|by eexists|by eexists|done].
  destruct (streq r (text "COM") || streq r (text "com")) eqn:Ec; [|by intros [= <-]].
  apply orb_true_iff in Ec as [->%streq_eq | ->%streq_eq]; by destruct E4 as [? ?].
Qed.

(** Removing brackets last can leave two spaces together. *)
Example brackets_leave_spaces : mbox_library_transform_video_title (text "a [] b") = Some (text "a  b").
Proof. by vm_compute. Qed.

(** ** The text of an episode *)

Definition solid (s : list byte) : Prop := Forall (fun c => c <> 0) s.

(** A store after a prefix. *)
Lemma memcpy_after a t src :
  (length src <= length t)%nat -> memcpy (a ++ t) (len a) src = Some (a ++ src ++ drop (length src) t).
Proof.
  intros H. rewrite <- (take_drop (length src) t) at 1. apply Builder.memcpy_app.
  unfold len. rewrite length_take. lia.
Qed.

Lemma memcpy_first t src :
  (length src <= length t)%nat -> memcpy t 0 src = Some (src ++ drop (length src) t).
Proof. exact (memcpy_after [] t src). Qed.

Lemma strncat_after a t s :
  solid a -> (S (length s) <= S (length t))%nat ->
  strncat (a ++ 0 :: t) s = Some (a ++ s ++ 0 :: drop (length s) t).
Proof.
  intros Ha Hl. unfold strncat. rewrite Builder.cstring_zero by done.
  rewrite memcpy_after by (rewrite length_app; cbn; lia). rewrite length_app. cbn [length].
  rewrite Nat.add_comm. cbn [drop Nat.add]. by rewrite <- app_assoc.
Qed.

Lemma cstring_after a t : solid a -> cstring (a ++ t) = a ++ cstring t.
Proof.
  induction 1 as [|c a Hc Ha IH]; [done|]. cbn. destruct (c =? 0) eqn:E; [by apply Z.eqb_eq in E|]. by rewrite IH.
Qed.

Lemma cstring_zeros n : cstring (replicate n 0) = [].
Proof. by destruct n. Qed.

Lemma cstring_drop m s j : solid s -> cstring (drop m (s ++ 0 :: replicate j 0)) = drop m s.
Proof.
  intros Hs. destruct (decide (m <= length s)%nat) as [Hm|Hm].
  - rewrite drop_app_le by done. apply Builder.cstring_zero. by apply Forall_drop.
  - rewrite (drop_ge s) by lia. rewrite drop_app_ge by lia.
    change (0 :: replicate j 0) with (replicate (S j) 0). rewrite drop_replicate. apply cstring_zeros.
Qed.

(** A zero over a zero. *)
Lemma memcpy_zero a t off : off = len a -> memcpy (a ++ 0 :: t) off [0] = Some (a ++ 0 :: t).
Proof. intros ->. rewrite memcpy_after by (cbn; lia). done. Qed.

(** The texts of an episode: its title ends, when there is one, with what
    the text of the serie left in the buffer. *)
Lemma episode_strings_exact serie a b e rest :
  solid serie -> solid [a; b] -> solid e -> solid rest -> rest = [] \/ e <> [] ->
  (length serie + length e + length rest < 1000)%nat ->
  episode_strings serie [a; b] e rest =
    Some (serie, text "Season " ++ [a; b],
          text "Episode " ++ e ++ SPACE :: rest ++
          (if decide (rest = []) then [] else drop (9 + length e + length rest) serie)).
Proof.
  intros Hs Hab He Hr Hre Hl. unfold episode_strings.
  assert (solid (text "Season ")) as Hse by by_eval. assert (solid (text "Episode ")) as Hep by by_eval.
  set (n := length serie) in *. set (B := serie ++ 0 :: replicate (1023 - n) 0).
  assert (length B = 1024)%nat as HB.
  { subst B. rewrite length_app. cbn. rewrite length_replicate. fold n. lia. }
  assert (memcpy (replicate BUFSIZE 0) 0 serie = Some B) as ->.
  { rewrite memcpy_first by (rewrite length_replicate; unfold BUFSIZE; lia).
    rewrite drop_replicate. subst B. f_equal. f_equal. unfold BUFSIZE. fold n.
    by replace (1024 - n)%nat with (S (1023 - n)) by lia. }
  cbn [mbind option_bind]. subst B. rewrite memcpy_zero by done. cbn [mbind option_bind].
  rewrite Builder.cstring_zero by done. set (B := serie ++ 0 :: replicate (1023 - n) 0) in *.
  assert (forall k, (k < 1024)%nat -> (length (drop k B) = 1024 - k)%nat) as HD by (intros; rewrite length_drop; lia).
  rewrite memcpy_first by (cbn; lia).
  change ((text "Season " ++ [0]) ++ drop (length (text "Season " ++ [0])) B) with (text "Season " ++ 0 :: drop 8 B).
  cbn [mbind option_bind]. rewrite strncat_after by first [done|rewrite HD; cbn; lia].
  cbn [mbind option_bind length]. rewrite drop_drop. rewrite app_assoc, memcpy_zero by done. cbn [mbind option_bind].
  rewrite Builder.cstring_zero by (apply Forall_app; auto).
  rewrite memcpy_first by (cbn; rewrite HD; cbn; lia).
  match goal with |- Some ?x ≫= _ = _ => change x with (text "Episode " ++ 0 :: 0 :: drop 10 B) end.
  cbn [mbind option_bind]. rewrite strncat_after by first [done|cbn [length]; rewrite HD by lia; lia].
  set (T := drop (length e) (0 :: drop 10 B)).
  assert (length T = 1015 - length e)%nat as HT by (subst T; rewrite length_drop; cbn [length]; rewrite HD by lia; lia).
  cbn [mbind option_bind]. rewrite app_assoc.
  assert (solid (text "Episode " ++ e)) as Hep2 by (apply Forall_app; auto).
  assert (len (text "Episode " ++ e) = len e + 8) as Hlen by (rewrite len_app, Z.add_comm; done).
  rewrite memcpy_zero by done. cbn [mbind option_bind].
  rewrite strncat_after by first [done|cbn [length]; lia]. cbn [mbind option_bind length]. rewrite app_assoc.
  replace (len e + 9) with (len ((text "Episode " ++ e) ++ [SPACE])) by (rewrite len_app, Hlen; unfold len; cbn; lia).
  rewrite memcpy_after by (cbn [length]; rewrite length_drop; lia). cbn [mbind option_bind].
  do 3 f_equal. assert (solid ((text "Episode " ++ e) ++ [SPACE])) as Hep3.
  { apply Forall_app. split; [done|]. by repeat constructor. }
  rewrite (cstring_after _ _ Hep3), (cstring_after _ _ Hr), <- !app_assoc. cbn [app]. do 4 f_equal.
  destruct rest as [|r rest]; [done|]. destruct Hre as [?|Hne]; [done|]. rewrite decide_False by done.
  destruct e as [|x e]; [done|]. subst T. cbn [length drop]. rewrite !drop_drop. subst B.
  rewrite cstring_drop by done. f_equal; lia.
Qed.

(** The title of a serie with a long name ends up in the title of its
    episodes. *)
Example episode_keeps_old_text :
  video_name (text "/v/The.Very.Long.Serie.Name.S01E02.abc.mkv") =
  Some (Episode (text "The Very Long Serie Name") (text "Season 01") (text "Episode 02 abcerie Name")).
Proof. by vm_compute. Qed.

(** ** Every name has a place *)

Lemma cut_last_Some c s pre post : cut_last c s = Some (pre, post) -> s = pre ++ c :: post /\ c ∉ post.
Proof.
  revert pre post. induction s as [|x s IH]; intros pre post; cbn; [done|].
  destruct (cut_last c s) as [[p q]|] eqn:E.
  - intros [= <- <-]. destruct (IH p q eq_refl) as [-> ?]. done.
  - destruct (x =? c) eqn:Ex; [|done]. intros [= <- <-]. apply Z.eqb_eq in Ex as ->. split; [done|].
    clear IH. revert E. induction s as [|y s IH]; intros E; [by intros ?%not_elem_of_nil|]. cbn in E.
    destruct (cut_last c s) as [[? ?]|] eqn:E2; [done|]. destruct (y =? c) eqn:Ey; [done|]. apply Z.eqb_neq in Ey.
    intros [->|Hc]%elem_of_cons; [done|]. by apply IH.
Qed.

Lemma last_match_Some f s pre x : last_match f s = Some (pre, x) -> exists post, s = pre ++ post /\ f post = Some x.
Proof.
  revert pre. induction s as [|c s IH]; intros pre; cbn; [done|].
  destruct (last_match f s) as [[p y]|].
  - intros [= <- ->]. destruct (IH p eq_refl) as (post & -> & ?). by exists post.
  - destruct (f (c :: s)) eqn:E; [|done]. intros [= <- ->]. by exists (c :: s).
Qed.

Lemma digits_solid c : isdigit c = true -> c <> 0.
Proof. unfold isdigit. intros H ->. done. Qed.
(** A title as [title_spec] has it. *)
Definition neat (title : list byte) : Prop :=
  (forall c, c ∈ text "_.-" ++ [TAB] -> c ∉ title) /\
  (forall c, head title = Some c -> blank c = false) /\ (forall c, last title = Some c -> blank c = false).

(** What the groups are: parts of the name. *)
Lemma match_serie_Some name serie season episode rest :
  match_serie name = Some (serie, (season, episode, rest)) ->
  exists a b, season = [a; b] /\ isdigit a = true /\ isdigit b = true /\ (rest = [] \/ episode <> []) /\
    (length serie + length episode + length rest <= length name)%nat /\
    (forall c, c ∈ serie ++ episode ++ rest -> c ∈ name).
Proof.
  unfold match_serie. destruct (last_match episode_at name) as [[p x]|] eqn:E.
  - intros [= -> ->]. apply last_match_Some in E as (post & -> & Hf). unfold episode_at in Hf.
    do 6 (destruct post as [|? post]; [done|]). destruct (_ && _) eqn:Hd; [|done]. injection Hf as <- <- <-. zify_bool.
    do 2 eexists. rewrite !length_app. cbn. split_and!; try done; [by right|lia|set_solver].
  - intros E2. apply last_match_Some in E2 as (post & -> & Hf). unfold season_at in Hf.
    do 3 (destruct post as [|? post]; [done|]). destruct (_ && _) eqn:Hd; [|done]. injection Hf as <- <- <-. zify_bool.
    do 2 eexists. rewrite !length_app. cbn. split_and!; try done; [by left|lia|set_solver].
Qed.

(** The name of a file: no slash, no zero byte, at most 255 bytes. *)
Definition filename (s : list byte) : Prop := SLASH ∉ s /\ solid s /\ len s <= 255.

Lemma stripext_part s c : c ∈ (mbox_library_stripext s).1 -> c ∈ s.
Proof.
  unfold mbox_library_stripext. case_bool_decide; [done|]. destruct (cut_last DOT s) as [[pre ext]|] eqn:E; [|done].
  apply cut_last_Some in E as [-> _]. cbn. set_solver.
Qed.

Lemma stripext_length s : len (mbox_library_stripext s).1 <= len s.
Proof.
  unfold mbox_library_stripext. case_bool_decide; [done|]. destruct (cut_last DOT s) as [[pre ext]|] eqn:E; [|done].
  apply cut_last_Some in E as [-> _]. cbn. rewrite len_app. pose proof (len_nonneg (DOT :: ext)). lia.
Qed.

Lemma filename_part s t : filename s -> len t <= 255 -> (forall c, c ∈ t -> c ∈ s) -> filename t.
Proof.
  intros (H1 & H2 & _) Hl Ht. split_and!; [by intros ?%Ht| |done]. apply Forall_forall. intros c Hc.
  unfold solid in H2. rewrite Forall_forall in H2. auto.
Qed.

Lemma filename_short s : filename s -> short s.
Proof. unfold short. intros (_ & _ & ?). lia. Qed.

(** What is left of the text of the serie behind the title. *)
Definition leftover (serie e rest : list byte) : list byte :=
  if decide (rest = []) then [] else drop (9 + length e + length rest) serie.

(** The parts of a name that looks like an episode. *)
Record parts (name serie season e rest : list byte) : Prop := Parts {
  parts_season : exists a b, season = [a; b] /\ isdigit a = true /\ isdigit b = true;
  parts_elem : forall c, c ∈ serie ++ e ++ rest -> c ∈ name;
  parts_length : (length serie + length e + length rest <= length name)%nat;
  parts_text : episode_strings serie season e rest =
    Some (serie, text "Season " ++ season, text "Episode " ++ e ++ SPACE :: rest ++ leftover serie e rest)
}.

Lemma name_parts name serie season e rest :
  filename name -> match_serie name = Some (serie, (season, e, rest)) -> parts name serie season e rest.
Proof.
  intros (_ & Hsol & Hl) E. destruct (match_serie_Some _ _ _ _ _ E) as (a & b & -> & Ha & Hb & Hre & Hlen & Hel).
  split; [by exists a, b|done|done|].
  assert (forall t, (forall c, c ∈ t -> c ∈ serie ++ e ++ rest) -> solid t) as Hpart.
  { intros t Ht. apply Forall_forall. intros c Hc. unfold solid in Hsol. rewrite Forall_forall in Hsol. auto. }
  apply episode_strings_exact; [apply Hpart; set_solver| |apply Hpart; set_solver|apply Hpart; set_solver|done|].
  - repeat constructor; by apply digits_solid.
  - unfold len in Hl. lia.
Qed.

Lemma leftover_part serie e rest :
  (length (leftover serie e rest) <= length serie)%nat /\ forall c, c ∈ leftover serie e rest -> c ∈ serie.
Proof.
  unfold leftover. destruct (decide (rest = [])); [split; [cbn; lia|by intros c ?%not_elem_of_nil]|].
  rewrite length_drop. split; [lia|]. intros c. apply subseteq_drop.
Qed.

Lemma stripped_filename s : filename s -> filename (mbox_library_stripext s).1.
Proof.
  intros Hf. apply (filename_part _ _ Hf); [|apply stripext_part]. pose proof (stripext_length s).
  destruct Hf as (_ & _ & ?). lia.
Qed.

Definition placed (p : place) : Prop :=
  match p with
  | Movie title => neat title /\ SLASH ∉ title
  | Episode serie season title =>
      neat serie /\ SLASH ∉ serie /\ neat title /\ SLASH ∉ title /\ EPISODE `prefix_of` title /\
      exists a b, season = text "Season " ++ [a; b] /\ isdigit a = true /\ isdigit b = true
  end.

Lemma title_placed s :
  short s -> exists t, mbox_library_transform_video_title s = Some t /\ neat t /\ (SLASH ∉ s -> SLASH ∉ t).
Proof.
  intros Hs. destruct (title_spec s Hs) as (t & E & _ & Hel & Hab & Hh & Hl). exists t. split_and!; [done|by split_and!|].
  intros Hno Ht. by destruct (Hel SLASH Ht).
Qed.

(** Trimming what is trimmed changes nothing. *)
Lemma trim_neat s :
  (forall c, head s = Some c -> blank c = false) -> (forall c, last s = Some c -> blank c = false) -> trim s = Some s.
Proof.
  intros Hh Hl. destruct (strtrim_exact s) as (_ & r & pre & post & E & Hs & Hpre & Hpost & _ & _).
  unfold trim. rewrite E. f_equal. rewrite Hs. destruct pre as [|c pre]; last first.
  { inversion Hpre as [|? ? Hc]; subst. rewrite (Hh c) in Hc by done. done. }
  destruct post as [|c post _] using rev_ind; [by rewrite app_nil_r|].
  apply Forall_app in Hpost as [_ [Hc _]%Forall_cons]. rewrite (Hl c) in Hc; [done|].
  by rewrite Hs, !app_assoc, last_snoc.
Qed.

(** Where a file goes, from its name. *)
Lemma video_name_placed path : filename (basename path) -> exists p, video_name path = Some p /\ placed p.
Proof.
  intros Hf. unfold video_name. pose proof (stripped_filename _ Hf) as Hn.
  set (name := (mbox_library_stripext (basename path)).1) in *.
  destruct (match_serie name) as [[serie [[season e] rest]]|] eqn:E; last first.
  { destruct (title_placed name (filename_short _ Hn)) as (t & -> & Hne & Hsl). exists (Movie t). split; [done|].
    split; [done|]. apply Hsl, Hn. }
  destruct (name_parts _ _ _ _ _ Hn E) as [(a & b & -> & Ha & Hb) Hel Hlen ->]. cbn [mbind option_bind].
  destruct (leftover_part serie e rest) as [Ht1 Ht2]. destruct Hn as (Hslash & _ & Hl).
  destruct (title_placed serie) as (t1 & -> & Hn1 & Hsl1); [unfold short, len in *; lia|]. cbn [mbind option_bind].
  rewrite trim_neat by apply Hn1. cbn [mbind option_bind].
  assert (short (text "Episode " ++ e ++ SPACE :: rest ++ leftover serie e rest)) as Hsh.
  { unfold short, len in *. rewrite !length_app. cbn [length]. rewrite length_app.
    change (length (text "Episode ")) with 8%nat. lia. }
  destruct (title_placed _ Hsh) as (t2 & E2 & Hn2 & Hsl2). rewrite E2.
  apply (episode_title (SPACE :: e ++ SPACE :: rest ++ leftover serie e rest) t2 Hsh) in E2.
  cbn [mbind option_bind]. eexists. split; [done|]. cbn. split_and!; [done| |done| |done|by exists a, b].
  - apply Hsl1. intros Hs. apply Hslash, Hel. set_solver.
  - apply Hsl2. rewrite !elem_of_app, elem_of_cons, elem_of_app.
    assert (SLASH ∉ text "Episode ") by by_eval. assert (SLASH <> SPACE) by done.
    assert (forall c, c ∈ e \/ c ∈ rest \/ c ∈ serie -> c <> SLASH) by (intros c Hc ->; apply Hslash, Hel; set_solver).
    naive_solver.
Qed.

(** C35. A file whose name has at most 255 bytes always finds its place in
    the library: the loops that clean its title end and the texts fit the
    buffer; it is a movie, or an episode of a serie and a season of two
    digits, and no title has slashes, underscores, dots, dashes, tabs or
    blanks at its ends.  The title of an episode begins with the word
    Episode; it is made of its number, the text behind it, and what the name
    of the serie left in the buffer. *)
Theorem video_names_placed path :
  filename (basename path) ->
  (exists p, video_name path = Some p /\ placed p) /\
  forall serie season e rest,
    match_serie (mbox_library_stripext (basename path)).1 = Some (serie, (season, e, rest)) ->
    episode_strings serie season e rest =
    Some (serie, text "Season " ++ season, text "Episode " ++ e ++ SPACE :: rest ++ leftover serie e rest).
Proof.
  intros Hf. split; [by apply video_name_placed|]. intros serie season e rest E.
  by apply (name_parts _ _ _ _ _ (stripped_filename _ Hf) E).
Qed.

Lemma video_names_placed_witness :
  video_name (text "/v/Some_Serie.S01E02.x264-YIFY.mkv") =
    Some (Episode (text "Some Serie") (text "Season 01") (text "Episode 02")) /\
  exists p, video_name (text "/v/Some_Serie.S01E02.x264-YIFY.mkv") = Some p /\ placed p.
Proof.
  split; [by vm_compute|]. apply (video_names_placed (text "/v/Some_Serie.S01E02.x264-YIFY.mkv")).
  split_and!; by_eval.
Defined.
