(* ===== verification/Library.v ===== *)
(** * The local library (src/library.c)

    The catalogue of the videos that are stored on the box: a table of
    SQLite whose rows are directories (with an empty path) and files, filled
    by scanning the store and by the events of inotify.  [Objects]: the
    table and SQLite as an interface.  [Catalogue]: the operations.

    SQLite is a parameter: the class [Sqlite] states what its documentation
    says of the statements the code uses.  What opening, preparing, binding
    and stepping answer is an input, a list that is used up call by call and
    is followed by successes; SQLITE_MISUSE, the answer to calls that break
    the rules of the interface, is not among them.  A statement that writes
    is stepped again after every failure but SQLITE_ERROR: if such a failure
    never goes away (a full disk, a file that cannot be written) the
    function does not return, and nothing is said of it.  The files are an
    input too, a tree with what libmagic says of each file.  Identifiers are cut to the width of an int where the code
    does so.  Memory is taken to be there. *)

From stdpp Require Import sorting.
From S2P Require Import Prelude Strings Titles.
Import Str.

Module Objects.

Record row := Row { id : Z; parent : Z; name : list byte; path : list byte }.

#[export] Instance row_eq_dec : EqDecision row.
Proof. solve_decision. Defined.

Inductive value := Int (z : Z) | Text (s : list byte).

(** The statements. *)
Definition SQL_CHILD : list byte := text "SELECT id FROM local_objects WHERE parent_id = ? AND name = ?".
Definition SQL_BY_PATH : list byte := text "SELECT id FROM local_objects WHERE path = ? LIMIT 1".
Definition SQL_MKDIR : list byte := text "INSERT INTO local_objects (parent_id, name, path) VALUES (?, ?, '')".
Definition SQL_INSERT : list byte := text "INSERT INTO local_objects (parent_id, name, path) VALUES (?, ?, ?)".
Definition SQL_UPDATE : list byte := text "UPDATE local_objects SET name = ? WHERE id = ?".
Definition SQL_DELETE : list byte := text "DELETE FROM local_objects WHERE path LIKE ?".
Definition SQL_LIST : list byte := text "SELECT id, name, path FROM local_objects WHERE parent_id = ? ORDER BY name;".

Definition PERCENT : byte := 37.

(** The key of a new row: one more than the largest. *)
Definition next_id (l : list row) : Z := 1 + foldr Z.max 0 (map id l).

Definition rename (i : Z) (n : list byte) (r : row) : row := if id r =? i then Row i (parent r) n (path r) else r.

(** The order of ORDER BY: bytes from the left. *)
Fixpoint name_leb (a b : list byte) : bool :=
  match a, b with
  | [], _ => true
  | _ :: _, [] => false
  | x :: a, y :: b => (x <? y) || ((x =? y) && name_leb a b)
  end.

Definition by_name (r q : row) : Prop := Is_true (name_leb (name r) (name q)).

(** SQLite, for a database with the table [local_objects]: the rows in the
    order of their keys, what the statements answer (the columns of the
    rows, the key of the last row inserted by the connection) and do.
    [sqlite_like] is the LIKE of patterns. *)
Class Sqlite := {
  cat : Type;
  rows : cat -> list row;
  run : cat -> list byte -> list value -> list (list value) * Z * cat;
  sqlite_like : list byte -> list byte -> bool;
  like_prefix : forall p s, sqlite_like (p ++ [PERCENT]) (p ++ s) = true;
  like_empty : forall c p, c <> PERCENT -> sqlite_like (c :: p) [] = false;
  run_child : forall d p n, exists l,
    run d SQL_CHILD [Int p; Text n] = (map (fun r => [Int (id r)]) l, 0, d) /\
    l ≡ₚ filter (fun r => parent r = p /\ name r = n) (rows d);
  run_by_path : forall d u, exists l,
    run d SQL_BY_PATH [Text u] = (map (fun r => [Int (id r)]) (take 1 l), 0, d) /\
    l ≡ₚ filter (fun r => path r = u) (rows d);
  run_list : forall d p, exists l,
    run d SQL_LIST [Int p] = (map (fun r => [Int (id r); Text (name r); Text (path r)]) l, 0, d) /\
    l ≡ₚ filter (fun r => parent r = p) (rows d) /\ Sorted by_name l;
  run_mkdir : forall d p n, next_id (rows d) < 2 ^ 63 -> exists d',
    run d SQL_MKDIR [Int p; Text n] = ([], next_id (rows d), d') /\
    rows d' = rows d ++ [Row (next_id (rows d)) p n []];
  run_insert : forall d p n u, next_id (rows d) < 2 ^ 63 -> exists d',
    run d SQL_INSERT [Int p; Text n; Text u] = ([], next_id (rows d), d') /\
    rows d' = rows d ++ [Row (next_id (rows d)) p n u];
  run_update : forall d n i, exists d',
    run d SQL_UPDATE [Text n; Int i] = ([], 0, d') /\ rows d' = map (rename i n) (rows d);
  run_delete : forall d u, exists d',
    run d SQL_DELETE [Text u] = ([], 0, d') /\ rows d' = filter (fun r => sqlite_like u (path r) = false) (rows d)
}.

End Objects.

Module Catalogue.
Import Objects.

Definition MBOX_LIBRARY_LOCAL_DIRECTORY_MOVIES : Z := 3.
Definition MBOX_LIBRARY_LOCAL_DIRECTORY_SERIES : Z := 4.

(** What a call of SQLite answers: SQLITE_OK (or, of a step, a row or the
    end), SQLITE_LOCKED, SQLITE_BUSY, SQLITE_ERROR or another code. *)
Inductive answer := Ok | Locked | Busy | Error | Other.

(** What becomes of a statement: it is executed, or the database cannot be
    opened or the statement not prepared, or its execution fails. *)
Inductive outcome := Good | Unprepared | StepError.

#[export] Instance answer_eq_dec : EqDecision answer.
Proof. solve_decision. Defined.

(** Opening and binding. *)
Definition call (l : list answer) : bool * list answer :=
  match l with [] => (true, []) | a :: l => (bool_decide (a = Ok), l) end.

(** The loop around [sqlite3_prepare_v2], with a number of retries where
    the code limits them. *)
Fixpoint prepare_loop (retries : option nat) (l : list answer) : bool * list answer :=
  match l with
  | [] => (true, [])
  | Ok :: l => (true, l)
  | Locked :: l =>
      match retries with
      | None => prepare_loop None l
      | Some O => (false, l)
      | Some (S n) => prepare_loop (Some n) l
      end
  | _ :: l => (false, l)
  end.

(** The loop around [sqlite3_step]: a statement that writes is stepped
    again unless the answer is SQLITE_ERROR. *)
Fixpoint step_loop (write : bool) (l : list answer) : bool * list answer :=
  match l with
  | [] => (true, [])
  | Ok :: l => (true, l)
  | Busy :: l => step_loop write l
  | Error :: l => (false, l)
  | _ :: l => if write then step_loop write l else (false, l)
  end.

Definition attempt (write : bool) (retries : option nat) (l : list answer) : outcome * list answer :=
  let '(ok, l) := call l in
  if negb ok then (Unprepared, l)
  else
    let '(ok, l) := prepare_loop retries l in
    if negb ok then (Unprepared, l)
    else
      let '(ok, l) := call l in
      if negb ok then (Unprepared, l)
      else let '(ok, l) := step_loop write l in (if ok then Good else StepError, l).

(** The files that a scan finds; libmagic may fail for a file.  [Missing]:
    stat fails. *)
Inductive node :=
  | File (mime : option (list byte))
  | Dir (opened : bool) (entries : list (list byte * node))
  | Missing.

Section catalogue.
Context `{Sqlite}.

Record st := St { db : cat; answers : list answer }.

(** One statement on a connection of its own. *)
Definition exec (write : bool) (retries : option nat) (sql : list byte) (args : list value) (s : st) :
    outcome * list (list value) * Z * st :=
  let '(o, l) := attempt write retries (answers s) in
  match o with
  | Good => let '(rs, i, d) := run (db s) sql args in (Good, rs, i, St d l)
  | _ => (o, [], 0, St (db s) l)
  end.

(** [sqlite3_column_int] of the first column. *)
Definition column_int (r : list value) : Z := match r with Int i :: _ => s32 i | _ => 0 end.

(** A name up to the next slash and what follows. *)
Fixpoint component (s : list byte) : list byte * list byte :=
  match s with
  | [] => ([], [])
  | c :: s' => if c =? SLASH then ([], s) else let '(a, b) := component s' in (c :: a, b)
  end.

Definition skip_slash (path : list byte) : list byte :=
  match path with c :: p => if c =? SLASH then p else path | [] => path end.

Fixpoint getid (fuel : nat) (path : list byte) (start_at : Z) (s : st) : option (Z * st) :=
  match fuel with
  | O => None
  | S fuel =>
      let '(name, ppath) := component (skip_slash path) in
      if bool_decide (name = []) then Some (start_at, s)
      else
        let '(o, rs, _, s) := exec false None SQL_CHILD [Int (s32 start_at); Text name] s in
        match o, rs with
        | Good, r :: _ =>
            let ret := column_int r in
            if 1 <? len ppath then getid fuel ppath ret s else Some (ret, s)
        | _, _ => Some (-1, s)
        end
  end.

Definition mbox_library_local_getid (path : list byte) (start_at : Z) (s : st) : option (Z * st) :=
  getid (S (length path)) path start_at s.

Definition mbox_library_local_getid_by_uri (uri : list byte) (s : st) : Z * st :=
  let '(o, rs, _, s) := exec false None SQL_BY_PATH [Text uri] s in
  match o, rs with Good, r :: _ => (column_int r, s) | _, _ => (-1, s) end.

(** An empty name fails an assertion. *)
Definition mbox_library_local_mkdir (name : list byte) (parent_id : Z) (s : st) : option (Z * st) :=
  if bool_decide (name = []) then None
  else
    let '(o, _, i, s) := exec true None SQL_MKDIR [Int (s32 parent_id); Text name] s in
    Some (match o with Good => s32 i | _ => -1 end, s).

(** Looks a directory up and creates it if it is not there. *)
Definition getdir (name : list byte) (parent_id : Z) (s : st) : option (Z * st) :=
  '(i, s) ← mbox_library_local_getid name parent_id s;
  if i =? -1 then mbox_library_local_mkdir name parent_id s else Some (i, s).

(** The name of a video and the directory it goes to. *)
Definition mbox_library_local_video_name (path : list byte) (s : st) : option (option (list byte * Z) * st) :=
  p ← video_name path;
  match p with
  | Movie title => Some (Some (title, MBOX_LIBRARY_LOCAL_DIRECTORY_MOVIES), s)
  | Episode serie season title =>
      '(i, s) ← getdir serie MBOX_LIBRARY_LOCAL_DIRECTORY_SERIES s;
      if i =? -1 then Some (None, s)
      else
        '(i, s) ← getdir season i s;
        if i =? -1 then Some (None, s) else Some (Some (title, i), s)
  end.

Definition is_video (mime : list byte) : bool := bool_decide (ztake 6 mime = text "video/").

(** The condition of the code. *)
Definition accepted (mime : list byte) : bool :=
  (is_video mime && negb (streq mime (text "video/subtitle"))) || is_video mime.

Definition is_sub (path : list byte) : bool := bool_decide (zdrop (len path - 3) path = text "sub").

(** Reading before a short path is [None]. *)
Definition mbox_library_addcontent (mime : option (list byte)) (path : list byte) (s : st) : option (Z * st) :=
  match mime with
  | None => Some (-1, s)
  | Some mime =>
      if accepted mime then
        if len path <? 3 then None
        else if is_sub path then Some (-1, s)
        else
          let '(i, s) := mbox_library_local_getid_by_uri path s in
          '(r, s) ← mbox_library_local_video_name path s;
          match r with
          | None => Some (-1, s)
          | Some (name, parent_id) =>
              if bool_decide (name = []) then Some (-1, s)
              else
                let '(o, _, rowid, s) :=
                  if i =? -1 then exec true (Some 3%nat) SQL_INSERT [Int (s32 parent_id); Text name; Text path] s
                  else exec true (Some 3%nat) SQL_UPDATE [Text name; Int (s32 i)] s in
                match o with Unprepared => Some (-1, s) | _ => Some (s32 rowid, s) end
          end
      else Some (-1, s)
  end.

Definition hidden (name : list byte) : bool := match name with c :: _ => c =? DOT | [] => false end.

(** The body of the loop of [mbox_library_scandir] for what is found at a
    path, and the loop. *)
Fixpoint scan_node (n : node) (path : list byte) (s : st) : option st :=
  match n with
  | Missing => Some s
  | File mime => '(_, s) ← mbox_library_addcontent mime path s; Some s
  | Dir opened entries =>
      if opened then
        (fix loop l s :=
           match l with
           | [] => Some s
           | (name, n) :: l =>
               if hidden name then loop l s
               else s ← scan_node n (path ++ SLASH :: name) s; loop l s
           end) entries s
      else Some s
  end.

Definition mbox_library_scandir (path : list byte) (n : node) (s : st) : option (Z * st) :=
  match n with
  | Dir true _ => s ← scan_node n path s; Some (0, s)
  | _ => Some (-1, s)
  end.

(** ** Watching the store *)

Record watch := Watch { watch_fd : Z; watch_path : list byte }.

(** [inotify_add_watch]. *)
Context (add_watch : list byte -> option Z).

Definition join (dir name : list byte) : list byte :=
  dir ++ (if bool_decide (last dir = Some SLASH) then [] else [SLASH]) ++ name.

Fixpoint mbox_library_local_add_watch (n : node) (path : list byte) (ws : list watch) : list watch :=
  match n with
  | Dir opened entries =>
      match add_watch path with
      | None => ws
      | Some fd =>
          if opened then
            let ws :=
              (fix loop l ws :=
                 match l with
                 | [] => ws
                 | (name, n) :: l =>
                     if hidden name || streq name (text "lost+found") then loop l ws
                     else loop l (mbox_library_local_add_watch n (join path name) ws)
                 end) entries ws in
            Watch fd path :: ws
          else ws
      end
  | _ => ws
  end.

Definition IN_CLOSE_WRITE : Z := 8.
Definition IN_MOVED_FROM : Z := 64.
Definition IN_MOVED_TO : Z := 128.
Definition IN_CREATE : Z := 256.
Definition IN_DELETE : Z := 512.
Definition IN_DELETE_SELF : Z := 1024.
Definition IN_MOVE_SELF : Z := 2048.

(** An event with what stat and libmagic find at its path. *)
Record event := Event { wd : Z; mask : Z; ename : list byte; found : node; magic : option (list byte) }.

Definition has (m bits : Z) : bool := negb (Z.land m bits =? 0).

(** The last watch of the list with the descriptor. *)
Definition watched (ws : list watch) (fd : Z) : option (list byte) :=
  foldl (fun o w => if watch_fd w =? fd then Some (watch_path w) else o) None ws.

(** One event of [mbox_library_local_inotify]; [None] is an abort. *)
Definition inotify_event (e : event) (ws : list watch) (s : st) : option (list watch * st) :=
  if bool_decide (ename e = []) then Some (ws, s)
  else
    match watched ws (wd e) with
    | None => Some (ws, s)
    | Some dir =>
        let path := join dir (ename e) in
        if has (mask e) (Z.lor IN_DELETE_SELF IN_MOVE_SELF) then None
        else if has (mask e) IN_MOVED_TO then
          match found e with
          | Missing => Some (ws, s)
          | Dir _ _ =>
              let ws := mbox_library_local_add_watch (found e) path ws in
              '(_, s) ← mbox_library_scandir path (found e) s; Some (ws, s)
          | File mime => '(_, s) ← mbox_library_addcontent mime path s; Some (ws, s)
          end
        else if has (mask e) IN_CREATE then
          match found e with
          | Dir _ _ =>
              let ws := mbox_library_local_add_watch (found e) path ws in
              '(_, s) ← mbox_library_scandir path (found e) s; Some (ws, s)
          | _ => Some (ws, s)
          end
        else if has (mask e) (Z.lor IN_DELETE IN_MOVED_FROM) then
          let '(_, _, _, s) := exec true None SQL_DELETE [Text (path ++ [PERCENT])] s in Some (ws, s)
        else if has (mask e) IN_CLOSE_WRITE then
          '(_, s) ← mbox_library_addcontent (magic e) path s; Some (ws, s)
        else Some (ws, s)
    end.

(** ** The shape of the catalogue *)

(** The rows of [mbox_library_create_db_if_not_exist]. *)
Definition initial : list row :=
  [Row 1 0 (text "Audio") []; Row 2 0 (text "Video") []; Row 3 2 (text "Movies") []; Row 4 2 (text "TV Shows") []].

Abbreviation MOVIES := MBOX_LIBRARY_LOCAL_DIRECTORY_MOVIES.
Abbreviation SERIES := MBOX_LIBRARY_LOCAL_DIRECTORY_SERIES.

(** A directory of the catalogue with this key, parent and name. *)
Definition dir_at (l : list row) (i p : Z) (n : list byte) : Prop := Row i p n [] ∈ l.

Definition season_name (n : list byte) : Prop := exists a b, n = text "Season " ++ [a; b] /\ isdigit a = true /\ isdigit b = true.

(** Where a directory may be: series, and seasons in series. *)
Definition dir_slot (l : list row) (p : Z) (n : list byte) : Prop :=
  p = SERIES \/ season_name n /\ exists se, dir_at l p SERIES se.

(** The directory of a serie; without a name it is that of all series. *)
Definition serie_at (l : list row) (i : Z) (se : list byte) : Prop := if decide (se = []) then i = SERIES else dir_at l i SERIES se.

(** The place of a video. *)
Definition placed_at (l : list row) (p : place) (i : Z) (n : list byte) : Prop :=
  match p with
  | Movie t => i = MOVIES /\ n = t
  | Episode se sn t => n = t /\ exists j, serie_at l j se /\ dir_at l i j sn
  end.

Definition filed (l : list row) (r : row) : Prop :=
  exists p, video_name (path r) = Some p /\ placed p /\ placed_at l p (parent r) (name r).

Definition row_ok (l : list row) (r : row) : Prop :=
  name r <> [] /\ SLASH ∉ name r /\ 0 <= parent r < id r /\
  (if decide (path r = []) then r ∈ initial \/ dir_slot l (parent r) (name r) else filed l r).

Record shaped (l : list row) : Prop := Shaped {
  sh_ids : NoDup (map id l);
  sh_initial : initial ⊆ l;
  sh_rows : forall r, r ∈ l -> row_ok l r
}.

(** No directory has the name of another row beside it, no two rows are
    for one file. *)
Record unique (l : list row) : Prop := Unique {
  un_dirs : forall r q, r ∈ l -> q ∈ l -> path r = [] -> parent q = parent r -> name q = name r -> q = r;
  un_files : forall r q, r ∈ l -> q ∈ l -> path r <> [] -> path q = path r -> q = r
}.

(** The four cases of a first row. *)
Ltac case_initial H :=
  unfold initial in H; rewrite !elem_of_cons in H;
  destruct H as [H|[H|[H|[H|H%not_elem_of_nil]]]]; [..|destruct H].

Lemma initial_shaped : shaped initial /\ unique initial.
Proof.
  split; split.
  - by_eval.
  - done.
  - intros r Hr. pose proof Hr as Hr'. case_initial Hr; subst r;
      (split_and!; [done|by_eval|done|done|]; rewrite decide_True by done; by left).
  - intros r q Hr Hq _ H1 H2. case_initial Hr; subst r; case_initial Hq; subst q; done.
  - intros r q Hr _ Hp. case_initial Hr; subst r; done.
Qed.

Lemma next_id_gt l r : r ∈ l -> id r < next_id l.
Proof.
  unfold next_id. induction l as [|q l IH]; intros Hr; [by apply not_elem_of_nil in Hr|]. cbn [map foldr].
  apply elem_of_cons in Hr as [->|Hr]; [lia|]. specialize (IH Hr). lia.
Qed.

Lemma next_id_snoc l r : id r = next_id l -> next_id (l ++ [r]) = next_id l + 1.
Proof.
  unfold next_id. rewrite map_app, foldr_app. cbn [map foldr]. intros ->. generalize (map id l). intros k.
  enough (forall m, 0 <= m -> foldr Z.max m k = Z.max m (foldr Z.max 0 k)) as E.
  { assert (0 <= foldr Z.max 0 k) by (clear E; induction k; cbn [foldr]; lia). rewrite E by lia. lia. }
  intros m Hm. induction k as [|x k IH]; cbn [foldr]; lia.
Qed.

Lemma same_id l r q : shaped l -> r ∈ l -> q ∈ l -> id r = id q -> r = q.
Proof.
  intros [Hid _ _] Hr Hq E. apply list_elem_of_lookup in Hr as [i Hi]. apply list_elem_of_lookup in Hq as [j Hj].
  assert (i = j) as ->; [|congruence]. apply (NoDup_lookup _ _ _ (id r) Hid); rewrite list_lookup_fmap.
  - by rewrite Hi.
  - by rewrite Hj, E.
Qed.

Lemma initial_row l i p n u : shaped l -> Row i p n u ∈ l -> i <= 4 -> Row i p n u ∈ initial.
Proof.
  intros Hl Hr Hi. destruct (sh_rows _ Hl _ Hr) as (_ & _ & Hp & _). cbn in Hp.
  assert (exists q, q ∈ initial /\ id q = i) as (q & Hq & Eq).
  { destruct (decide (i = 1)); [by exists (Row 1 0 (text "Audio") []); split; [by_eval|]|].
    destruct (decide (i = 2)); [by exists (Row 2 0 (text "Video") []); split; [by_eval|]|].
    destruct (decide (i = 3)); [by exists (Row 3 2 (text "Movies") []); split; [by_eval|]|].
    exists (Row 4 2 (text "TV Shows") []). split; [by_eval|cbn; lia]. }
  by rewrite (same_id l (Row i p n u) q Hl Hr (sh_initial _ Hl _ Hq) (eq_sym Eq)).
Qed.

(** The keys of series and seasons are not those of the first rows. *)
Lemma serie_key l i se : shaped l -> dir_at l i SERIES se -> 4 < i.
Proof.
  intros Hl Hr. destruct (decide (4 < i)); [done|]. assert (i <= 4) as Hi by lia.
  apply (initial_row _ _ _ _ _ Hl Hr) in Hi. case_initial Hi; by injection Hi as _ Hi _.
Qed.

Lemma season_key l i j se sn : shaped l -> serie_at l j se -> dir_at l i j sn -> 4 < i.
Proof.
  intros Hl Hj Hi. destruct (sh_rows _ Hl _ Hi) as (_ & _ & Hp & _). cbn in Hp.
  unfold serie_at in Hj. destruct (decide (se = [])) as [_|_]; [rewrite Hj in Hp; apply Hp|].
  apply serie_key in Hj; [lia|done].
Qed.

(** No file is where a directory may be. *)
Lemma file_not_in_slot l r : shaped l -> r ∈ l -> dir_slot l (parent r) (name r) -> path r = [].
Proof.
  intros Hl Hr Hs. destruct (decide (path r = [])) as [|Hp]; [done|exfalso].
  destruct (sh_rows _ Hl _ Hr) as (_ & _ & _ & Hf). rewrite decide_False in Hf by done.
  destruct Hf as ([t|se sn t] & _ & Hpl & Hat); cbn in Hat.
  - destruct Hat as [Ei _]. rewrite Ei in Hs. destruct Hs as [Hs|(_ & se & Hs)]; [done|].
    by apply serie_key in Hs.
  - destruct Hat as (Et & j & Hj & Hi). pose proof (season_key _ _ _ _ _ Hl Hj Hi) as Hk.
    destruct Hs as [Hs|((a & b & En & _) & _)]; [unfold MBOX_LIBRARY_LOCAL_DIRECTORY_SERIES in Hs; lia|].
    destruct Hpl as (_ & _ & _ & _ & [k Hk'] & _). rewrite Et, Hk' in En. done.
Qed.

(** What is said of a row depends on the directories only. *)
Lemma row_ok_mono l k r : (forall i p n, dir_at l i p n -> dir_at k i p n) -> row_ok l r -> row_ok k r.
Proof.
  intros Hs (H1 & H2 & H3 & H4). split_and!; try done; [by apply H3..|]. destruct (decide (path r = [])).
  - destruct H4 as [?|[?|(? & se & ?)]]; [by left|right; by left|right; right]. split; [done|]. exists se. by apply Hs.
  - destruct H4 as ([t|se sn t] & Ev & Hp & Hat); (eexists; split_and!; [done|done|]); [done|].
    destruct Hat as (Et & j & Hj & Hi). split; [done|]. exists j. split; [|by apply Hs].
    unfold serie_at in *. destruct (decide (se = [])); [done|by apply Hs].
Qed.

Lemma insert_shaped l r : shaped l -> id r = next_id l -> row_ok l r -> shaped (l ++ [r]).
Proof.
  intros [H1 H2 H3] Hi Hr. split; [|set_solver|].
  - rewrite map_app. apply NoDup_snoc. split; [done|]. rewrite Hi. intros (q & E & Hq%next_id_gt)%list_elem_of_fmap. lia.
  - intros q [Hq|Hq%list_elem_of_singleton]%elem_of_app; (apply (row_ok_mono l); [unfold dir_at; set_solver|]); [by apply H3|by subst].
Qed.

Lemma insert_unique_dir l r :
  unique l -> path r = [] -> (forall q, q ∈ l -> parent q = parent r -> name q <> name r) -> unique (l ++ [r]).
Proof.
  intros [H1 H2] Hp Hn. split; intros a b; rewrite !elem_of_app, !list_elem_of_singleton;
    intros [Ha| ->] [Hb| ->] E1 E2; try done; eauto.
  - intros E3. by destruct (Hn a Ha).
  - intros E3. by destruct (Hn b Hb).
  - by rewrite Hp in E2.
Qed.

Lemma insert_unique_file l r :
  unique l -> path r <> [] -> (forall q, q ∈ l -> path q <> path r) ->
  (forall q, q ∈ l -> path q = [] -> parent q = parent r -> name q <> name r) -> unique (l ++ [r]).
Proof.
  intros [H1 H2] Hp Hn Hd. split; intros a b; rewrite !elem_of_app, !list_elem_of_singleton;
    intros [Ha| ->] [Hb| ->] E1 E2; try done; eauto.
  - intros E3. by destruct (Hd a Ha).
  - by destruct (Hn a Ha).
  - by destruct (Hn b Hb).
Qed.

(** Nothing but directories was added. *)
Definition grown (l l' : list row) : Prop := exists k, l' = l ++ k /\ Forall (fun r => path r = []) k.

Lemma grown_refl l : grown l l.
Proof. exists []. by rewrite app_nil_r. Qed.

Lemma grown_trans l l' l'' : grown l l' -> grown l' l'' -> grown l l''.
Proof. intros (k & -> & Hk) (k' & -> & Hk'). exists (k ++ k'). rewrite app_assoc. split; [done|]. by apply Forall_app. Qed.

Lemma grown_sub l l' : grown l l' -> l ⊆ l'.
Proof. intros (k & -> & _). set_solver. Qed.

(** A key fits an int. *)
Definition fits (i : Z) : Prop := 0 <= i <= INT_MAX.

Lemma s32_fits i : fits i -> s32 i = i.
Proof. unfold fits, INT_MAX. intros. apply wraps_small; lia. Qed.

Lemma row_fits l r : shaped l -> next_id l <= INT_MAX + 1 -> r ∈ l -> fits (id r).
Proof.
  intros Hl Hn Hr. destruct (sh_rows _ Hl _ Hr) as (_ & _ & ? & _). apply next_id_gt in Hr. unfold fits. lia.
Qed.

Definition table (s : st) : list row := rows (db s).

(** The calls that are left succeed. *)
Definition reliable (s : st) : Prop := answers s = [].

(** A statement is executed or leaves the database as it is. *)
Lemma exec_spec write retries sql args s :
  exists o rs z s', exec write retries sql args s = (o, rs, z, s') /\ (reliable s -> reliable s' /\ o = Good) /\
    match o with
    | Good => run (db s) sql args = (rs, z, db s')
    | _ => rs = [] /\ z = 0 /\ db s' = db s
    end.
Proof.
  unfold exec. assert (reliable s -> attempt write retries (answers s) = (Good, [])) as Hr by (unfold reliable; by intros ->).
  destruct (attempt write retries (answers s)) as [o l].
  destruct o; [destruct (run (db s) sql args) as [[rs z] d] eqn:E|..];
    (eexists _, _, _, _; split; [done|]; split; [intros Hre; specialize (Hr Hre); by simplify_eq|done]).
Qed.

(** A failure of another kind is retried by a statement that writes, for as
    long as it lasts. *)
Lemma full_disk_retried n l : step_loop true (replicate n Other ++ l) = step_loop true l.
Proof. by induction n. Qed.

Lemma component_whole n : SLASH ∉ n -> component n = (n, []).
Proof.
  induction n as [|c n IH]; [done|]. intros [Hc Hn]%not_elem_of_cons. cbn.
  destruct (c =? SLASH) eqn:E; [apply Z.eqb_eq in E; congruence|]. by rewrite IH.
Qed.

Lemma skip_slash_none n : SLASH ∉ n -> skip_slash n = n.
Proof.
  destruct n as [|c n]; [done|]. intros [Hc Hn]%not_elem_of_cons. cbn.
  destruct (c =? SLASH) eqn:E; [apply Z.eqb_eq in E; congruence|done].
Qed.

(** ** Directories *)

Lemma lookup_spec n p s :
  n <> [] -> SLASH ∉ n -> fits p -> shaped (table s) -> next_id (table s) <= INT_MAX + 1 ->
  exists i s', mbox_library_local_getid n p s = Some (i, s') /\ db s' = db s /\ (reliable s -> reliable s') /\
    ((exists r, r ∈ table s /\ parent r = p /\ name r = n /\ i = id r) \/
     (i = -1 /\ (reliable s -> forall r, r ∈ table s -> parent r = p -> name r <> n))).
Proof.
  intros Hn Hs Hp Hl Hm. unfold mbox_library_local_getid. cbn [getid].
  rewrite skip_slash_none, component_whole, bool_decide_false by done. rewrite (s32_fits p Hp).
  destruct (exec_spec false None SQL_CHILD [Int p; Text n] s) as (o & rs & z & s' & -> & Hr & Ho).
  destruct (run_child (db s) p n) as (l & E & El).
  destruct o; [|destruct Ho as (_ & _ & Ed); eexists (-1), s'; split_and!; [done|done|intros Hre; apply (Hr Hre)|right; split; [done|by intros [_ ?]%Hr]]..].
  rewrite E in Ho. injection Ho as <- _ Ed. destruct l as [|r l]; cbn [map].
  - eexists (-1), s'. split_and!; [done|done|by intros [? _]%Hr|right; split; [done|]]. intros _ q Hq E1 E2.
    assert (q ∈ filter (fun r => parent r = p /\ name r = n) (rows (db s))) as Hf by by apply list_elem_of_filter.
    rewrite <- El in Hf. by apply not_elem_of_nil in Hf.
  - assert (r ∈ filter (fun r => parent r = p /\ name r = n) (rows (db s))) as ((E1 & E2) & Hin)%list_elem_of_filter
      by (rewrite <- El; by left).
    cbn [column_int]. rewrite (s32_fits (id r)) by (by apply (row_fits (table s))). cbn.
    eexists (id r), s'. split_and!; [done|done|by intros [? _]%Hr|left; by exists r].
Qed.

Lemma mkdir_spec n p s :
  n <> [] -> fits p -> 0 < next_id (table s) <= INT_MAX ->
  exists i s', mbox_library_local_mkdir n p s = Some (i, s') /\ (reliable s -> reliable s' /\ i <> -1) /\
    ((i = -1 /\ db s' = db s) \/ (i = next_id (table s) /\ table s' = table s ++ [Row i p n []])).
Proof.
  intros Hn Hp Hm. unfold mbox_library_local_mkdir. rewrite bool_decide_false, (s32_fits p Hp) by done.
  destruct (exec_spec true None SQL_MKDIR [Int p; Text n] s) as (o & rs & z & s' & -> & Hr & Ho).
  destruct (run_mkdir (db s) p n) as (d' & E & Er); [unfold table, INT_MAX in Hm; lia|].
  destruct o; [|destruct Ho as (_ & _ & Ed); eexists (-1), s'; split_and!; [done|by intros [_ ?]%Hr|by left]..].
  rewrite E in Ho. injection Ho as _ <- Ed. unfold table in *. rewrite (s32_fits (next_id (rows (db s)))) by (unfold fits; lia).
  eexists _, s'. split_and!; [done|intros [? _]%Hr; split; [done|lia]|right; split; [done|by rewrite <- Ed]].
Qed.

(** What a lookup with creation leaves. *)
Lemma getdir_spec n p s :
  SLASH ∉ n -> fits p -> dir_slot (table s) p n -> (p = SERIES \/ n <> []) -> p < next_id (table s) ->
  shaped (table s) -> next_id (table s) <= INT_MAX ->
  exists i s', getdir n p s = Some (i, s') /\ shaped (table s') /\ grown (table s) (table s') /\
    next_id (table s') <= next_id (table s) + 1 /\ (reliable s -> reliable s' /\ i <> -1) /\
    (reliable s -> unique (table s) -> unique (table s')) /\
    (i = -1 \/ (n = [] /\ i = SERIES) \/ (n <> [] /\ dir_at (table s') i p n)).
Proof.
  intros Hs Hp Hsl Hne Hlt Hl Hm. assert (0 < next_id (table s)) as H0 by (destruct Hp; lia).
  unfold getdir. destruct (decide (n = [])) as [->|Hn].
  { destruct Hne as [->|?]; [|done]. cbn. eexists _, s. split_and!; try done; [apply grown_refl|lia|right; by left]. }
  destruct (lookup_spec n p s) as (i & s1 & -> & Ed & Hr1 & Hi); [done|done|done|done|lia|].
  cbn [mbind option_bind]. assert (table s1 = table s) as Et by (unfold table; by rewrite Ed).
  destruct Hi as [(r & Hr & E1 & E2 & ->)|(-> & Hno)].
  - destruct (row_fits _ _ Hl (Z.le_le_succ_r _ _ Hm) Hr) as [? _]. destruct (id r =? -1) eqn:E; [zify_bool; lia|].
    eexists _, s1. rewrite Et. split_and!; try done; [apply grown_refl|lia|intros; split; [auto|lia]|].
    right; right. split; [done|]. rewrite <- E1, <- E2 in Hsl. apply (file_not_in_slot _ _ Hl Hr) in Hsl. subst.
    unfold dir_at. rewrite <- Hsl. by destruct r.
  - cbn. destruct (mkdir_spec n p s1) as (j & s2 & -> & Hr2 & Hj); [done|done|by rewrite Et|]. rewrite Et in Hj.
    eexists _, s2. destruct Hj as [(-> & Ed2)|(-> & Et2)].
    + assert (table s2 = table s) as Et2 by (unfold table; by rewrite Ed2, Ed). rewrite Et2.
      split_and!; try done; [apply grown_refl|lia|auto|by left].
    + rewrite Et2. split_and!; [done| |eexists; split; [done|by repeat constructor]|rewrite next_id_snoc; [lia|done]|auto| |].
      * apply insert_shaped; [done|done|]. split_and!; try done; [apply Hp|]. cbn. by right.
      * intros Hre Hu. apply insert_unique_dir; [done|done|]. cbn. intros q Hq. by apply Hno.
      * right; right. split; [done|]. unfold dir_at. set_solver.
Qed.

(** ** Files *)

Lemma dir_at_fits l i p n : shaped l -> next_id l <= INT_MAX + 1 -> dir_at l i p n -> fits i /\ i < next_id l.
Proof. intros Hl Hm Hi. split; [by apply (row_fits _ _ Hl Hm) in Hi|by apply next_id_gt in Hi]. Qed.

Lemma serie_at_fits l i se : shaped l -> next_id l <= INT_MAX + 1 -> serie_at l i se -> fits i /\ i < next_id l.
Proof.
  intros Hl Hm. unfold serie_at. destruct (decide (se = [])) as [_|_]; [|by apply dir_at_fits]. intros ->.
  apply (dir_at_fits l SERIES 2 (text "TV Shows") Hl Hm), (sh_initial _ Hl). by_eval.
Qed.

Lemma serie_at_mono l l' i se : l ⊆ l' -> serie_at l i se -> serie_at l' i se.
Proof. unfold serie_at. intros Hs. destruct (decide (se = [])); [done|apply Hs]. Qed.

Lemma season_no_slash n : season_name n -> SLASH ∉ n /\ n <> [].
Proof.
  intros (a & b & -> & Ha & Hb). split; [|done]. rewrite elem_of_app, !elem_of_cons.
  assert (SLASH ∉ text "Season ") by by_eval. assert (isdigit SLASH = false) by done.
  intros [?|[<-|[<-|?%not_elem_of_nil]]]; congruence.
Qed.

Lemma video_name_spec path s :
  filename (basename path) -> shaped (table s) -> next_id (table s) + 1 <= INT_MAX ->
  exists r s', mbox_library_local_video_name path s = Some (r, s') /\ shaped (table s') /\
    grown (table s) (table s') /\ next_id (table s') <= next_id (table s) + 2 /\
    (reliable s -> reliable s' /\ r <> None) /\ (reliable s -> unique (table s) -> unique (table s')) /\
    match r with
    | None => True
    | Some (n, i) => exists p, video_name path = Some p /\ placed p /\ placed_at (table s') p i n
    end.
Proof.
  intros Hf Hl Hm. unfold mbox_library_local_video_name.
  destruct (video_name_placed path Hf) as (p & -> & Hp). cbn [mbind option_bind].
  destruct p as [t|se sn t]; cbn in Hp.
  { eexists _, s. split_and!; try done; [apply grown_refl|lia|]. by exists (Movie t). }
  destruct Hp as (H1 & H2 & H3 & H4 & H5 & H6).
  destruct (getdir_spec se SERIES s) as (i & s1 & -> & Hl1 & Hg1 & Hm1 & Hr1 & Hu1 & Hi);
    [done|done|by left|by left| |done|lia|].
  { apply (next_id_gt _ (Row 4 2 (text "TV Shows") [])), (sh_initial _ Hl). by_eval. }
  cbn [mbind option_bind]. destruct (i =? -1) eqn:Ei; zify_bool.
  { eexists _, s1. split_and!; try done; [lia|]. intros Hr. by apply Hr1 in Hr as [_ ?]. }
  assert (serie_at (table s1) i se) as Hse.
  { unfold serie_at. destruct (decide (se = [])); naive_solver. }
  destruct (serie_at_fits _ _ _ Hl1 ltac:(lia) Hse) as [Hf1 Hlt1]. destruct (season_no_slash sn H6) as [Hns Hsn].
  destruct (getdir_spec sn i s1) as (j & s2 & -> & Hl2 & Hg2 & Hm2 & Hr2 & Hu2 & Hj);
    [done|done| |by right|done|done|lia|].
  { destruct Hi as [?|[[_ ?]|[_ ?]]]; [done|by left|right]. split; [done|by exists se]. }
  cbn [mbind option_bind]. pose proof (grown_trans _ _ _ Hg1 Hg2) as Hg.
  assert (reliable s -> reliable s2 /\ j <> -1) as Hr by (intros Hr; by apply Hr2, Hr1).
  assert (reliable s -> unique (table s) -> unique (table s2)) as Hu.
  { intros Hre ?. apply Hu2; [by apply Hr1|by apply Hu1]. }
  destruct (j =? -1) eqn:Ej; zify_bool.
  { eexists _, s2. split_and!; try done; [lia|]. intros Hre. by apply Hr in Hre as [_ ?]. }
  eexists _, s2. split_and!; try done; [lia|intros Hre; split; [by apply Hr|done]|].
  exists (Episode se sn t). split_and!; [done|done|]. split; [done|]. exists i.
  split; [by apply (serie_at_mono _ _ _ _ (grown_sub _ _ Hg2))|]. naive_solver.
Qed.

Lemma by_uri_spec uri s :
  shaped (table s) -> next_id (table s) <= INT_MAX + 1 ->
  exists i s', mbox_library_local_getid_by_uri uri s = (i, s') /\ db s' = db s /\ (reliable s -> reliable s') /\
    ((exists r, r ∈ table s /\ path r = uri /\ i = id r) \/
     (i = -1 /\ (reliable s -> forall r, r ∈ table s -> path r <> uri))).
Proof.
  intros Hl Hm. unfold mbox_library_local_getid_by_uri.
  destruct (exec_spec false None SQL_BY_PATH [Text uri] s) as (o & rs & z & s' & -> & Hr & Ho).
  destruct (run_by_path (db s) uri) as (l & E & El).
  destruct o; [|destruct Ho as (_ & _ & Ed); eexists (-1), s'; split_and!; [done|done|by intros [? _]%Hr|right; split; [done|by intros [_ ?]%Hr]]..].
  rewrite E in Ho. injection Ho as <- _ Ed. destruct l as [|r l]; cbn [take map].
  - eexists (-1), s'. split_and!; [done|done|by intros [? _]%Hr|right; split; [done|]]. intros _ q Hq E1.
    assert (q ∈ filter (fun r => path r = uri) (rows (db s))) as Hf by by apply list_elem_of_filter.
    rewrite <- El in Hf. by apply not_elem_of_nil in Hf.
  - assert (r ∈ filter (fun r => path r = uri) (rows (db s))) as (E1 & Hin)%list_elem_of_filter by (rewrite <- El; by left).
    cbn [column_int]. rewrite (s32_fits (id r)) by (by apply (row_fits (table s))).
    eexists (id r), s'. split_and!; [done|done|by intros [? _]%Hr|left; by exists r].
Qed.

(** No directory has the place and the name of a video. *)
Lemma video_not_dir l p i n q :
  shaped l -> placed p -> placed_at l p i n -> q ∈ l -> path q = [] -> parent q = i -> name q <> n.
Proof.
  intros Hl Hp Hat Hq Hd E En. destruct (sh_rows _ Hl _ Hq) as (_ & _ & _ & Hok). rewrite decide_True in Hok by done.
  assert (i = MOVIES \/ 4 < i /\ EPISODE `prefix_of` n) as Hi.
  { destruct p as [t|se sn t]; [left; apply Hat|right]. destruct Hat as (-> & j & Hj & Hi).
    split; [by apply (season_key _ _ _ _ _ Hl Hj Hi)|apply Hp]. }
  destruct Hok as [Hok|[Hok|((a & b & Es & _) & se & Hok)]].
  - case_initial Hok; subst q; cbn in E; subst i; destruct Hi as [Hi|[Hi _]]; by vm_compute in Hi.
  - rewrite E in Hok. rewrite Hok in Hi. destruct Hi as [Hi|[Hi _]]; by vm_compute in Hi.
  - rewrite E in Hok. destruct Hi as [->|[_ [k Hi]]]; [by apply serie_key in Hok|]. rewrite <- En, Es in Hi. done.
Qed.

(** The videos the library takes. *)
Definition title_of (p : place) : list byte := match p with Movie t => t | Episode _ _ t => t end.

Definition wanted (mime : option (list byte)) (path : list byte) : bool :=
  match mime, video_name path with
  | Some mime, Some p => is_video mime && negb (is_sub path) && negb (bool_decide (title_of p = []))
  | _, _ => false
  end.

Definition listed (l : list row) (u : list byte) : Prop := exists r, r ∈ l /\ path r = u.

(** What an operation does that may only add the files [new], and adds
    them under the condition [R]: that no call fails. *)
Record adds (R : Prop) (n : Z) (new : list byte -> Prop) (s s' : st) : Prop := Adds {
  ad_shaped : shaped (table s');
  ad_next : next_id (table s') <= next_id (table s) + n;
  ad_reliable : R -> reliable s';
  ad_unique : R -> unique (table s) -> unique (table s');
  ad_kept : table s ⊆ table s';
  ad_new : forall u, u <> [] -> listed (table s') u -> listed (table s) u \/ new u;
  ad_all : R -> forall u, new u -> listed (table s') u
}.

Lemma adds_grown R n (new : list byte -> Prop) s s' :
  shaped (table s') -> grown (table s) (table s') -> next_id (table s') <= next_id (table s) + n ->
  (R -> reliable s') -> (R -> unique (table s) -> unique (table s')) ->
  (R -> forall u, new u -> listed (table s') u) -> adds R n new s s'.
Proof.
  intros Hl Hg Hn Hr Hu Ha. split; try done; [by apply grown_sub|]. intros u Hu0 (r & Hr0 & Eu).
  destruct Hg as (k & Ek & Hk). rewrite Ek in Hr0. apply elem_of_app in Hr0 as [Hr0|Hr0]; [left; by exists r|].
  rewrite Forall_forall in Hk. apply Hk in Hr0. congruence.
Qed.

Lemma adds_same_table (R : Prop) n (new : list byte -> Prop) s s' :
  shaped (table s) -> table s' = table s -> (R -> reliable s') -> 0 <= n ->
  (R -> forall u, new u -> listed (table s) u) -> adds R n new s s'.
Proof. intros Hl Et Hr Hn Ha. apply adds_grown; rewrite ?Et; try done; [apply grown_refl|lia]. Qed.

Lemma adds_none n (new : list byte -> Prop) s :
  shaped (table s) -> 0 <= n -> (forall u, ~ new u) -> adds (reliable s) n new s s.
Proof. intros Hl Hn Hno. apply adds_same_table; try done. intros _ u Hu. by destruct (Hno u). Qed.

Lemma adds_weaken (R R' : Prop) n m (new : list byte -> Prop) s s' :
  adds R n new s s' -> (R' -> R) -> n <= m -> adds R' m new s s'.
Proof. intros [A1 A2 A3 A4 A5 A6 A7] HR Hn. split; auto. lia. Qed.

Lemma adds_trans R n m (P Q T : list byte -> Prop) s s1 s2 :
  adds R n P s s1 -> adds R m Q s1 s2 -> (forall u, T u <-> P u \/ Q u) -> adds R (n + m) T s s2.
Proof.
  intros [A1 A2 A3 A4 A5 A6 A7] [B1 B2 B3 B4 B5 B6 B7] HT. split; [done|lia|auto|auto|set_solver| |].
  - intros u Hu Hl. rewrite HT. destruct (B6 u Hu Hl) as [?|?]; [|by auto]. destruct (A6 u Hu); auto.
  - intros Hre u [Hu|Hu]%HT; [|by auto]. destruct (A7 Hre u Hu) as (r & Hr & <-). exists r. auto.
Qed.

(** Renaming a file as it is named. *)
Lemma rename_same l r : shaped l -> r ∈ l -> map (rename (id r) (name r)) l = l.
Proof.
  intros Hl Hr. rewrite <- (map_id l) at 2. apply map_ext_in. intros q Hq%list_elem_of_In. unfold rename.
  destruct (id q =? id r) eqn:E; [|done]. apply Z.eqb_eq in E. rewrite (same_id l q r Hl Hq Hr E). by destruct r.
Qed.

Lemma placed_name l p i n : placed p -> placed_at l p i n -> n = title_of p /\ SLASH ∉ n.
Proof. destruct p as [t|se sn t]; cbn; [intros [? ?] [? ->]; done|intros (_ & _ & _ & ? & _) (-> & _); done]. Qed.

Lemma placed_fits l p i n :
  shaped l -> next_id l <= INT_MAX + 1 -> placed_at l p i n -> fits i /\ i < next_id l.
Proof.
  intros Hl Hm. destruct p as [t|se sn t]; cbn.
  - intros [-> _]. apply (dir_at_fits l MOVIES 2 (text "Movies") Hl Hm), (sh_initial _ Hl). by_eval.
  - intros (_ & j & _ & Hi). by apply (dir_at_fits _ _ _ _ Hl Hm Hi).
Qed.

(** The two statements that end [mbox_library_addcontent]. *)
Lemma insert_spec (R : Prop) s p i n u :
  shaped (table s) -> next_id (table s) <= INT_MAX -> u <> [] -> n <> [] ->
  video_name u = Some p -> placed p -> placed_at (table s) p i n -> (R -> reliable s /\ ~ listed (table s) u) ->
  exists o rs z s', exec true (Some 3%nat) SQL_INSERT [Int (s32 i); Text n; Text u] s = (o, rs, z, s') /\ adds R 1 (fun v => v = u) s s'.
Proof.
  intros Hl Hm Hu Hn Ev Hp Hat Hno. destruct (placed_fits _ _ _ _ Hl ltac:(lia) Hat) as [Hfi Hlt]. rewrite (s32_fits i Hfi).
  destruct (run_insert (db s) i n u) as (d' & E & Er); [unfold table, INT_MAX in Hm; lia|].
  set (r := Row (next_id (table s)) i n u).
  assert (row_ok (table s) r) as Hr.
  { destruct (placed_name _ _ _ _ Hp Hat) as [_ ?]. destruct Hfi. split_and!; try done.
    cbn. rewrite decide_False by done. by exists p. }
  destruct (exec_spec true (Some 3%nat) SQL_INSERT [Int i; Text n; Text u] s) as (o & rs & z & s' & Ex & Hre & Ho).
  exists o, rs, z, s'. split; [done|].
  destruct o; [|destruct Ho as (_ & _ & Ed); (apply adds_same_table; [done|unfold table; by rewrite Ed|by intros [[? _]%Hre _]%Hno|done|by intros [[_ ?]%Hre _]%Hno])..].
  rewrite E in Ho. injection Ho as _ _ Ed. assert (table s' = table s ++ [r]) as Et by (unfold table at 1; by rewrite <- Ed).
  split; rewrite ?Et; [by apply insert_shaped|rewrite next_id_snoc; [lia|done]|by intros [[? _]%Hre _]%Hno| |set_solver| |].
  - intros [_ Hnl]%Hno Hun. apply insert_unique_file; [done|done| |].
    + intros q Hq Eq. apply Hnl. by exists q.
    + intros q Hq Hd Eq. by apply (video_not_dir (table s) p i n q).
  - intros v _ (q & [Hq|Hq%list_elem_of_singleton]%elem_of_app & Eq); [left; by exists q|right; by subst].
  - intros _ v ->. exists r. split; [set_solver|done].
Qed.

Lemma update_spec s r :
  shaped (table s) -> next_id (table s) <= INT_MAX + 1 -> r ∈ table s ->
  exists o rs z s', exec true (Some 3%nat) SQL_UPDATE [Text (name r); Int (s32 (id r))] s = (o, rs, z, s') /\ table s' = table s /\
    (reliable s -> reliable s').
Proof.
  intros Hl Hm Hr. rewrite (s32_fits (id r)) by (by apply (row_fits (table s))).
  destruct (exec_spec true (Some 3%nat) SQL_UPDATE [Text (name r); Int (id r)] s) as (o & rs & z & s' & Ex & Hre & Ho).
  destruct (run_update (db s) (name r) (id r)) as (d' & E & Er). exists o, rs, z, s'. split; [done|].
  split; [|by intros [? _]%Hre]. unfold table in *. rewrite rename_same in Er by done.
  destruct o; [rewrite E in Ho; injection Ho as _ _ <-; done|by destruct Ho as (_ & _ & ->)..].
Qed.

Lemma video_of_file l r p : shaped l -> r ∈ l -> path r <> [] -> video_name (path r) = Some p -> name r = title_of p.
Proof.
  intros Hl Hr Hp Ev. destruct (sh_rows _ Hl _ Hr) as (_ & _ & _ & Hf). rewrite decide_False in Hf by done.
  destruct Hf as (q & Eq & Hq & Hat). rewrite Ev in Eq. injection Eq as <-. by apply (placed_name l p (parent r)).
Qed.

(** A file may be added to the library. *)
Definition proper (path : list byte) : Prop := filename (basename path) /\ 3 <= len path.

(** The statement for a file that was found or not. *)
Lemma store_spec (R : Prop) s p i j u :
  shaped (table s) -> next_id (table s) <= INT_MAX -> u <> [] -> title_of p <> [] ->
  video_name u = Some p -> placed p -> placed_at (table s) p j (title_of p) -> (R -> reliable s) ->
  (exists r, r ∈ table s /\ path r = u /\ i = id r) \/ (i = -1 /\ (R -> ~ listed (table s) u)) ->
  exists o rs z s', (if i =? -1 then exec true (Some 3%nat) SQL_INSERT [Int (s32 j); Text (title_of p); Text u] s
    else exec true (Some 3%nat) SQL_UPDATE [Text (title_of p); Int (s32 i)] s) = (o, rs, z, s') /\ adds R 1 (fun v => v = u) s s'.
Proof.
  intros Hl Hm Hu En Ep Hp Hat Hre [(r & Hr & Eu & ->)|(-> & Hno)]; [|by apply insert_spec with p; auto].
  assert (title_of p = name r) as -> by (symmetry; apply (video_of_file (table s)); subst; done).
  destruct (row_fits _ _ Hl ltac:(lia) Hr) as [? _]. destruct (id r =? -1) eqn:Ei; [zify_bool; lia|].
  destruct (update_spec s r Hl ltac:(lia) Hr) as (o & rs & z & s' & -> & Et & Hr').
  eexists o, rs, z, s'. split; [done|]. apply adds_same_table; try done; [by auto|]. intros _ v ->. by exists r.
Qed.

Lemma addcontent_spec mime u s :
  proper u -> shaped (table s) -> next_id (table s) + 2 <= INT_MAX ->
  exists z s', mbox_library_addcontent mime u s = Some (z, s') /\
    adds (reliable s) 3 (fun v => v = u /\ wanted mime u = true) s s'.
Proof.
  intros [Hf Hlen] Hl Hm. unfold mbox_library_addcontent, wanted. destruct mime as [mime|]; last first.
  { eexists _, s. split; [done|]. apply adds_none; [done|lia|]. by intros v [_ ?]. }
  assert (accepted mime = is_video mime) as -> by (unfold accepted; by destruct (is_video mime), (streq _ _)).
  destruct (video_name_placed u Hf) as (p & Ep & Hp). rewrite Ep.
  destruct (is_video mime); cbn [andb]; last first.
  { eexists _, s. split; [done|]. apply adds_none; [done|lia|]. by intros v [_ ?]. }
  destruct (len u <? 3) eqn:E3; [zify_bool; lia|]. destruct (is_sub u); cbn [andb negb].
  { eexists _, s. split; [done|]. apply adds_none; [done|lia|]. by intros v [_ ?]. }
  assert (u <> []) as Hu by (intros ->; by vm_compute in Hlen).
  destruct (by_uri_spec u s) as (i & s1 & -> & Ed & Hr1 & Hi); [done|lia|].
  assert (table s1 = table s) as Et by (unfold table; by rewrite Ed).
  destruct (video_name_spec u s1) as (r & s2 & -> & Hl2 & Hg2 & Hm2 & Hr2 & Hu2 & Hat); [done|by rewrite Et|rewrite Et; lia|].
  rewrite Et in *. cbn [mbind option_bind].
  assert (forall P, (reliable s -> forall v, P v -> listed (table s2) v) -> adds (reliable s) 2 P s s2) as Hadds.
  { intros P HP. apply adds_grown; try done; [|intros Hre; by apply Hu2, Hr1]. intros Hre. by apply Hr2, Hr1. }
  assert (adds (reliable s) 2 (fun _ => False) s s2) as Hdirs by by apply Hadds.
  destruct r as [[n j]|]; last first.
  { eexists _, s2. split; [done|]. apply (adds_weaken (reliable s) _ 2); [|done|lia]. apply Hadds. intros Hre.
    destruct (Hr2 (Hr1 Hre)) as [_ ?]. done. }
  destruct Hat as (p' & Ep' & _ & Hat). rewrite Ep in Ep'. injection Ep' as <-.
  destruct (placed_name _ _ _ _ Hp Hat) as [-> _]. destruct (bool_decide (title_of p = [])) eqn:En; cbn [negb].
  { eexists _, s2. split; [done|]. apply (adds_weaken (reliable s) _ 2); [|done|lia]. apply Hadds. by intros _ v [_ ?]. }
  apply bool_decide_eq_false in En.
  destruct (store_spec (reliable s) s2 p i j u) as (o & rs & z & s3 & -> & Ha); try done; [lia|intros Hre; by apply Hr2, Hr1| |].
  { destruct Hi as [(r & Hr & ? & ?)|(-> & Hno)]; [left; exists r; split; [by apply (grown_sub _ _ Hg2)|done]|right].
    split; [done|]. intros Hre Hin. destruct (ad_new _ _ _ _ _ Hdirs u Hu Hin) as [(r & Hr & Er)|[]]. by apply (Hno Hre r). }
  exists (match o with Unprepared => -1 | _ => s32 z end), s3. split; [by destruct o|].
  apply (adds_trans _ 2 1 _ _ _ _ _ _ Hdirs Ha). intuition.
Qed.

(** ** Scans *)

(** The files a scan meets, in its order, with what libmagic says. *)
Fixpoint files (n : node) (path : list byte) : list (list byte * option (list byte)) :=
  match n with
  | Missing => []
  | File mime => [(path, mime)]
  | Dir opened entries =>
      if opened then
        (fix loop l :=
           match l with
           | [] => []
           | (name, n) :: l => if hidden name then loop l else files n (path ++ SLASH :: name) ++ loop l
           end) entries
      else []
  end.

Fixpoint add_all (l : list (list byte * option (list byte))) (s : st) : option st :=
  match l with
  | [] => Some s
  | (u, mime) :: l => '(_, s) ← mbox_library_addcontent mime u s; add_all l s
  end.

Lemma add_all_app l k s : add_all (l ++ k) s = s ← add_all l s; add_all k s.
Proof.
  revert s. induction l as [|[u mime] l IH]; intros s; cbn; [done|].
  destruct (mbox_library_addcontent mime u s) as [[? ?]|]; cbn; [apply IH|done].
Qed.

(** Induction over the files. *)
Lemma node_induction (P : node -> Prop) :
  (forall mime, P (File mime)) -> P Missing ->
  (forall opened entries, Forall (fun e => P e.2) entries -> P (Dir opened entries)) -> forall n, P n.
Proof.
  intros HF HM HD. fix IH 1. intros [mime|opened entries|]; [apply HF| |apply HM].
  apply HD. induction entries as [|[name n] entries IHe]; constructor; [apply IH|apply IHe].
Qed.

(** A scan adds the files it meets one after the other. *)
Lemma scan_files n : forall path s, scan_node n path s = add_all (files n path) s.
Proof.
  induction n as [mime| |opened entries IH] using node_induction; intros path s; [|done|].
  - cbn. by destruct (mbox_library_addcontent mime path s) as [[? ?]|].
  - cbn. destruct opened; [|done]. revert s. induction IH as [|[name n] l Hn _ IHl]; intros s; [done|].
    destruct (hidden name); [apply IHl|]. rewrite add_all_app, <- Hn. cbn.
    destruct (scan_node n (path ++ SLASH :: name) s); cbn; [apply IHl|done].
Qed.

(** The videos among files. *)
Definition taken (l : list (list byte * option (list byte))) (u : list byte) : Prop :=
  exists mime, (u, mime) ∈ l /\ wanted mime u = true.

Lemma add_all_spec l s :
  Forall (fun e => proper e.1) l -> shaped (table s) -> next_id (table s) + 3 * len l <= INT_MAX + 1 ->
  exists s', add_all l s = Some s' /\ adds (reliable s) (3 * len l) (taken l) s s'.
Proof.
  intros Hl. revert s. induction Hl as [|[u mime] l Hu Hl IH]; intros s Hs Hm; cbn [add_all].
  { exists s. split; [done|]. apply adds_none; [done|done|]. by intros u (mime & ?%not_elem_of_nil & _). }
  rewrite len_cons in *. pose proof (len_nonneg l).
  destruct (addcontent_spec mime u s) as (z & s1 & -> & A1); [done|done|lia|]. cbn [mbind option_bind].
  destruct (IH s1) as (s2 & -> & A2); [apply A1|pose proof (ad_next _ _ _ _ _ A1); lia|].
  exists s2. split; [done|]. apply (adds_weaken (reliable s) _ (3 + 3 * len l)); [|done|lia].
  eapply adds_trans; [done|apply (adds_weaken _ _ _ _ _ _ _ A2 (ad_reliable _ _ _ _ _ A1)); lia|].
  intros v. unfold taken. split.
  - intros (m & [[= -> ->]|Hin]%elem_of_cons & Hw); [by left|right; by exists m].
  - intros [[-> Hw]|(m & Hin & Hw)]; [exists mime; split; [by left|done]|exists m; split; [by right|done]].
Qed.

(** Names as readdir has them. *)
Fixpoint names_ok (n : node) : Prop :=
  match n with
  | Dir _ entries =>
      (fix loop l := match l with [] => True | (name, n) :: l => (filename name /\ name <> []) /\ names_ok n /\ loop l end) entries
  | _ => True
  end.

Lemma cut_last_absent c s : c ∉ s -> cut_last c s = None.
Proof.
  induction s as [|x s IH]; [done|]. intros [Hx Hs]%not_elem_of_cons. cbn. rewrite IH by done.
  destruct (x =? c) eqn:E; [apply Z.eqb_eq in E; congruence|done].
Qed.

Lemma cut_last_app c a s : c ∉ s -> cut_last c (a ++ c :: s) = Some (a, s).
Proof.
  intros Hs. induction a as [|x a IH]; cbn; [by rewrite cut_last_absent, Z.eqb_refl by done|by rewrite IH].
Qed.

Lemma proper_join dir n : dir <> [] -> filename n -> n <> [] -> proper (dir ++ SLASH :: n).
Proof.
  intros Hd Hn Hne. unfold proper, basename. rewrite cut_last_app by apply Hn. split; [done|].
  rewrite len_app, len_cons. destruct dir as [|c dir]; [done|]. destruct n as [|b n]; [done|]. rewrite !len_cons.
  pose proof (len_nonneg dir). pose proof (len_nonneg n). lia.
Qed.

Lemma files_proper n : forall path, names_ok n -> proper path -> Forall (fun e => proper e.1) (files n path).
Proof.
  induction n as [mime| |opened entries IH] using node_induction; intros path Hn Hp; [by apply Forall_singleton|constructor|].
  cbn. destruct opened; [|constructor]. assert (path <> []) as Hne by (intros ->; by destruct Hp).
  cbn in Hn. induction IH as [|[name n] l IHn _ IHl]; [constructor|]. destruct Hn as ([Hf Hn0] & Hn & Hl).
  destruct (hidden name); [by apply IHl|]. apply Forall_app. split; [|by apply IHl]. by apply IHn, proper_join.
Qed.

(** ** The library over time *)

(** What changes the library: a scan, or an event. *)
Inductive op := Scan (path : list byte) (n : node) | Inotify (e : event).

Definition run_op (o : op) (ws : list watch) (s : st) : option (list watch * st) :=
  match o with
  | Scan path n => '(_, s) ← mbox_library_scandir path n s; Some (ws, s)
  | Inotify e => inotify_event e ws s
  end.

Fixpoint run_ops (l : list op) (ws : list watch) (s : st) : option (list watch * st) :=
  match l with [] => Some (ws, s) | o :: l => '(ws, s) ← run_op o ws s; run_ops l ws s end.

(** Directories are watched under absolute paths. *)
Definition watch_ok (path : list byte) : Prop := head path = Some SLASH /\ last path <> Some SLASH /\ 3 <= len path.

Definition op_ok (o : op) : Prop :=
  match o with
  | Scan path n => proper path /\ names_ok n
  | Inotify e =>
      (ename e = [] \/ filename (ename e)) /\ names_ok (found e) /\
      has (mask e) (Z.lor IN_DELETE_SELF IN_MOVE_SELF) = false
  end.

(** What an operation means for the set of files of the library. *)
Inductive effect := More (l : list (list byte * option (list byte))) | Less (path : list byte).

Definition dir_files (n : node) (path : list byte) : list (list byte * option (list byte)) :=
  match n with Dir _ _ => files n path | _ => [] end.

Definition event_effect (e : event) (path : list byte) : effect :=
  if has (mask e) IN_MOVED_TO then More (files (found e) path)
  else if has (mask e) IN_CREATE then More (dir_files (found e) path)
  else if has (mask e) (Z.lor IN_DELETE IN_MOVED_FROM) then Less path
  else if has (mask e) IN_CLOSE_WRITE then More [(path, magic e)]
  else More [].

Definition effect_of (ws : list watch) (o : op) : effect :=
  match o with
  | Scan path n => More (dir_files n path)
  | Inotify e =>
      match ename e, watched ws (wd e) with
      | [], _ | _, None => More []
      | _, Some dir => event_effect e (dir ++ SLASH :: ename e)
      end
  end.

(** The directories that are watched after an operation. *)
Definition watches_after (ws : list watch) (o : op) : list watch :=
  match o with
  | Scan _ _ => ws
  | Inotify e =>
      match ename e, watched ws (wd e), found e with
      | _ :: _, Some dir, Dir _ _ =>
          if has (mask e) IN_MOVED_TO || has (mask e) IN_CREATE
          then mbox_library_local_add_watch (found e) (dir ++ SLASH :: ename e) ws else ws
      | _, _, _ => ws
      end
  end.

Definition after (f : effect) (X : list byte -> Prop) (u : list byte) : Prop :=
  match f with
  | More l => X u \/ taken l u
  | Less path => X u /\ sqlite_like (path ++ [PERCENT]) u = false
  end.

Definition weight (f : effect) : Z := match f with More l => 3 * len l | Less _ => 0 end.

(** An operation does what its effect says. *)
Record does (f : effect) (s s' : st) : Prop := Does {
  do_shaped : shaped (table s');
  do_next : next_id (table s') <= next_id (table s) + weight f;
  do_reliable : reliable s -> reliable s';
  do_unique : reliable s -> unique (table s) -> unique (table s');
  do_effect : reliable s -> forall u, u <> [] -> listed (table s') u <-> after f (listed (table s)) u
}.

Lemma adds_does l s s' : adds (reliable s) (3 * len l) (taken l) s s' -> does (More l) s s'.
Proof.
  intros [A1 A2 A3 A4 A5 A6 A7]. split; try done. intros Hre u Hu. cbn. split; [by apply A6|].
  intros [(r & Hr & <-)|Ht]; [exists r; auto|by apply A7].
Qed.

Lemma nothing_does s : shaped (table s) -> does (More []) s s.
Proof. intros Hl. apply adds_does, adds_none; [done|done|]. by intros u (mime & ?%not_elem_of_nil & _). Qed.

Lemma scandir_does n path s :
  names_ok n -> proper path -> shaped (table s) -> next_id (table s) + weight (More (dir_files n path)) <= INT_MAX + 1 ->
  exists z s', mbox_library_scandir path n s = Some (z, s') /\ does (More (dir_files n path)) s s'.
Proof.
  intros Hn Hp Hl Hm. unfold mbox_library_scandir.
  destruct n as [mime|[|] entries|]; cbn [dir_files] in *; [by eexists _, s; split; [|apply nothing_does]| | |].
  - rewrite scan_files. destruct (add_all_spec (files (Dir true entries) path) s) as (s' & -> & Ha);
      [by apply files_proper|done|done|]. exists 0, s'. split; [done|by apply adds_does].
  - by eexists _, s; split; [|apply nothing_does].
  - by eexists _, s; split; [|apply nothing_does].
Qed.

Lemma addcontent_does mime path s :
  proper path -> shaped (table s) -> next_id (table s) + 3 <= INT_MAX + 1 ->
  exists z s', mbox_library_addcontent mime path s = Some (z, s') /\ does (More [(path, mime)]) s s'.
Proof.
  intros Hp Hl Hm. destruct (add_all_spec [(path, mime)] s) as (s' & E & Ha); [by apply Forall_singleton|done|done|].
  cbn in E. destruct (mbox_library_addcontent mime path s) as [[z s1]|]; [|done]. injection E as ->.
  exists z, s'. split; [done|by apply adds_does].
Qed.

(** Removing files keeps the rest as it is. *)
Lemma filter_shaped (P : row -> Prop) `{!forall r, Decision (P r)} l :
  shaped l -> (forall r, path r = [] -> P r) -> shaped (filter P l).
Proof.
  intros [H1 H2 H3] HP. assert (forall i p n, dir_at l i p n -> dir_at (filter P l) i p n) as Hd.
  { intros i p n Hi. apply list_elem_of_filter. split; [by apply HP|done]. }
  split.
  - eapply sublist_NoDup; [exact H1|]. apply (fmap_sublist id), sublist_filter.
  - intros r Hr. apply list_elem_of_filter. split; [apply HP; by case_initial Hr; subst r|by apply H2].
  - intros r (_ & Hr)%list_elem_of_filter. by apply (row_ok_mono l), H3.
Qed.

Lemma unique_sub l k : k ⊆ l -> unique l -> unique k.
Proof. intros Hs [H1 H2]. split; intros r q Hr%Hs Hq%Hs; auto. Qed.

Lemma next_id_sub l k : k ⊆ l -> next_id k <= next_id l.
Proof.
  intros Hs. unfold next_id. induction k as [|r k IH]; cbn [map foldr].
  - enough (0 <= foldr Z.max 0 (map id l)) by lia. induction (map id l); cbn [foldr]; lia.
  - assert (r ∈ l) as Hr%next_id_gt by (apply Hs; by left). unfold next_id in Hr.
    specialize (IH (fun x Hx => Hs x (list_elem_of_further _ _ _ Hx))). lia.
Qed.

Lemma delete_does path s :
  head path = Some SLASH -> shaped (table s) ->
  exists o rs z s', exec true None SQL_DELETE [Text (path ++ [PERCENT])] s = (o, rs, z, s') /\ does (Less path) s s'.
Proof.
  intros Hp Hl. destruct path as [|c path]; [done|]. injection Hp as ->.
  destruct (run_delete (db s) ((SLASH :: path) ++ [PERCENT])) as (d' & E & Er).
  destruct (exec_spec true None SQL_DELETE [Text ((SLASH :: path) ++ [PERCENT])] s) as (o & rs & z & s' & Ex & Hre & Ho).
  exists o, rs, z, s'. split; [done|]. destruct o.
  2,3: destruct Ho as (_ & _ & Ed); assert (table s' = table s) as Et by (unfold table; by rewrite Ed);
    split; rewrite ?Et; try done; [cbn [weight]; lia|by intros [? _]%Hre|by intros [_ ?]%Hre].
  rewrite E in Ho. injection Ho as _ _ Ed. split; [| |by intros [? _]%Hre| |]; unfold table in *; rewrite <- Ed, Er.
  - apply filter_shaped; [done|]. intros r ->. by apply like_empty.
  - cbn [weight]. rewrite Z.add_0_r. apply next_id_sub. by intros r (_ & ?)%list_elem_of_filter.
  - intros _. apply unique_sub. by intros r (_ & ?)%list_elem_of_filter.
  - intros _ u _. unfold listed. cbn [after]. setoid_rewrite list_elem_of_filter. naive_solver.
Qed.

Lemma watch_ok_join path n :
  watch_ok path -> filename n -> n <> [] ->
  join path n = path ++ SLASH :: n /\ watch_ok (path ++ SLASH :: n) /\ proper (path ++ SLASH :: n).
Proof.
  intros (Hh & Hl & Hlen) Hf Hn. assert (path <> []) as Hp by by intros ->. unfold watch_ok. split_and!.
  - unfold join. by rewrite bool_decide_false.
  - by destruct path.
  - rewrite last_app_cons, last_cons. destruct (last n) as [c|] eqn:E; [|by apply last_None in E].
    intros [= ->]. apply last_Some_elem_of in E. destruct Hf as [Hf _]. done.
  - rewrite len_app. pose proof (len_nonneg (SLASH :: n)). lia.
  - by apply proper_join.
Qed.

Lemma add_watch_ok n : forall path ws,
  names_ok n -> watch_ok path -> Forall (fun w => watch_ok (watch_path w)) ws ->
  Forall (fun w => watch_ok (watch_path w)) (mbox_library_local_add_watch n path ws).
Proof.
  induction n as [mime| |opened entries IH] using node_induction; intros path ws Hn Hp Hws; [done|done|]. cbn.
  destruct (add_watch path) as [fd|]; [|done]. destruct opened; [|done]. constructor; [done|].
  cbn in Hn. revert ws Hws. induction IH as [|[nm n] l IHn _ IHl]; intros ws Hws; [done|].
  destruct Hn as ([Hf Hn0] & Hn & Hl). destruct (hidden nm || _); [by apply IHl|]. apply IHl; [done|].
  destruct (watch_ok_join path nm Hp Hf Hn0) as (-> & ? & _). by apply IHn.
Qed.

Lemma watched_ok ws fd dir :
  Forall (fun w => watch_ok (watch_path w)) ws -> watched ws fd = Some dir -> watch_ok dir.
Proof.
  unfold watched. assert (forall d : list byte, None = Some d -> watch_ok d) as H0 by done. revert H0.
  generalize (@None (list byte)). intros o Ho Hws. revert o Ho. induction Hws as [|w ws Hw Hws IH]; intros o Ho; cbn; [apply Ho|].
  apply IH. destruct (watch_fd w =? fd); [by intros d [= <-]|done].
Qed.

Lemma files_length n : forall p q, length (files n p) = length (files n q).
Proof.
  induction n as [mime| |opened entries IH] using node_induction; intros p q; [done|done|]. cbn.
  destruct opened; [|done]. induction IH as [|[nm n] l IHn _ IHl]; [done|].
  destruct (hidden nm); [done|]. by rewrite !length_app, IHl, (IHn _ (q ++ SLASH :: nm)).
Qed.

(** How many rows an operation can add. *)
Definition op_weight (o : op) : Z :=
  match o with
  | Scan _ n => 3 * len (files n [])
  | Inotify e => 3 * (len (files (found e) []) + 1)
  end.

Lemma event_weight e path : weight (event_effect e path) <= op_weight (Inotify e).
Proof.
  assert (forall p, len (files (found e) p) = len (files (found e) [])) as Hf by (intros p; unfold len; by rewrite (files_length _ p [])).
  pose proof (len_nonneg (files (found e) [])). cbn [op_weight]. unfold event_effect.
  assert (len (dir_files (found e) path) <= len (files (found e) [])).
  { destruct (found e); cbn [dir_files]; [by vm_compute|by rewrite Hf|done]. }
  repeat case_match; cbn [weight]; rewrite ?Hf; unfold len in *; cbn [length] in *; lia.
Qed.

(** One event, for a watched directory. *)
Lemma event_does e ws s dir :
  op_ok (Inotify e) -> Forall (fun w => watch_ok (watch_path w)) ws -> shaped (table s) ->
  next_id (table s) + op_weight (Inotify e) <= INT_MAX + 1 -> ename e <> [] -> watched ws (wd e) = Some dir ->
  exists s', inotify_event e ws s = Some (watches_after ws (Inotify e), s') /\
    does (event_effect e (dir ++ SLASH :: ename e)) s s'.
Proof.
  intros (Hne & Hn & Hsf) Hws Hl Hm He Hd. destruct Hne as [?|Hne]; [done|].
  pose proof (watched_ok _ _ _ Hws Hd) as Hw. destruct (watch_ok_join dir (ename e) Hw Hne He) as (Ej & Hwp & Hp).
  pose proof (event_weight e (dir ++ SLASH :: ename e)) as Hwt.
  unfold inotify_event, watches_after. rewrite bool_decide_false, Hd, Hsf, Ej by done.
  destruct (ename e) as [|c nm] eqn:En; [done|]. rewrite <- En in *. clear En c nm.
  set (u := dir ++ SLASH :: ename e) in *. assert (next_id (table s) + weight (event_effect e u) <= INT_MAX + 1) as Hm' by lia.
  clear Hwt Hm. unfold event_effect in *. destruct (has (mask e) IN_MOVED_TO); cbn [orb].
  { destruct (found e) as [mime|b l|] eqn:Ef.
    - destruct (addcontent_does mime u s Hp Hl Hm') as (z & s' & -> & Hdo). by exists s'.
    - destruct (scandir_does (Dir b l) u s Hn Hp Hl Hm') as (z & s' & -> & Hdo). by exists s'.
    - exists s. split; [done|by apply nothing_does]. }
  destruct (has (mask e) IN_CREATE).
  { destruct (found e) as [mime|b l|] eqn:Ef.
    - exists s. split; [done|by apply nothing_does].
    - destruct (scandir_does (Dir b l) u s Hn Hp Hl Hm') as (z & s' & -> & Hdo). by exists s'.
    - exists s. split; [done|by apply nothing_does]. }
  assert (match found e with Dir _ _ => ws | _ => ws end = ws) as -> by by destruct (found e).
  destruct (has (mask e) (Z.lor IN_DELETE IN_MOVED_FROM)).
  { destruct (delete_does u s) as (o & rs & z & s' & -> & Hdo); [apply Hwp|done|]. by exists s'. }
  destruct (has (mask e) IN_CLOSE_WRITE).
  - destruct (addcontent_does (magic e) u s Hp Hl Hm') as (z & s' & -> & Hdo). by exists s'.
  - exists s. split; [done|by apply nothing_does].
Qed.

Abbreviation watches_ok := (Forall (fun w => watch_ok (watch_path w))).

Lemma watches_after_ok ws o : op_ok o -> watches_ok ws -> watches_ok (watches_after ws o).
Proof.
  intros Ho Hws. destruct o as [path n|e]; [done|]. destruct Ho as (Hne & Hn & _). cbn [watches_after].
  destruct (ename e) as [|c nm] eqn:En; [done|]. rewrite <- En in *. destruct Hne as [?|Hne]; [congruence|].
  destruct (watched ws (wd e)) as [dir|] eqn:Ew; [|done].
  destruct (found e) as [mime|b l|] eqn:Ef; [done| |done]. destruct (_ || _); [|done].
  apply add_watch_ok; [done| |done]. apply watched_ok in Ew; [|done]. apply watch_ok_join; [done|done|congruence].
Qed.

Lemma op_weight_nonneg o : 0 <= op_weight o.
Proof.
  destruct o as [? n|e]; cbn [op_weight]; [pose proof (len_nonneg (files n []))|pose proof (len_nonneg (files (found e) []))]; lia.
Qed.

Lemma effect_weight ws o : weight (effect_of ws o) <= op_weight o.
Proof.
  pose proof (op_weight_nonneg o). destruct o as [path n|e]; cbn [effect_of].
  - cbn [weight op_weight] in *. assert (len (dir_files n path) <= len (files n [])); [|lia].
    destruct n; cbn [dir_files]; [by vm_compute|unfold len; by rewrite (files_length _ _ [])|done].
  - destruct (ename e) as [|c l] eqn:Ee; [done|]. destruct (watched ws (wd e)); [|done]. rewrite <- Ee. apply event_weight.
Qed.

Lemma op_does o ws s :
  op_ok o -> watches_ok ws -> shaped (table s) -> next_id (table s) + op_weight o <= INT_MAX + 1 ->
  exists s', run_op o ws s = Some (watches_after ws o, s') /\ does (effect_of ws o) s s'.
Proof.
  intros Ho Hws Hl Hm. destruct o as [path n|e].
  - destruct Ho as [Hp Hn]. cbn [run_op effect_of watches_after].
    destruct (scandir_does n path s Hn Hp Hl) as (z & s' & -> & Hdo); [|by exists s'].
    pose proof (effect_weight ws (Scan path n)) as Hw. cbn [effect_of] in Hw. lia.
  - destruct (decide (ename e = [])) as [Ee|Ee].
    { exists s. cbn. unfold inotify_event. rewrite Ee. split; [done|by apply nothing_does]. }
    destruct (watched ws (wd e)) as [dir|] eqn:Ew.
    + destruct (event_does e ws s dir Ho Hws Hl Hm Ee Ew) as (s' & E & Hdo). exists s'. split; [done|]. cbn.
      rewrite Ew. by destruct (ename e).
    + exists s. cbn. unfold inotify_event. rewrite bool_decide_false, Ew by done.
      destruct (ename e); (split; [done|by apply nothing_does]).
Qed.

Definition ops_weight (l : list op) : Z := foldr Z.add 0 (map op_weight l).

(** The files the library should have after operations. *)
Fixpoint expected (l : list op) (ws : list watch) (X : list byte -> Prop) : list byte -> Prop :=
  match l with
  | [] => X
  | o :: l => expected l (watches_after ws o) (after (effect_of ws o) X)
  end.

Lemma after_iff f (X Y : list byte -> Prop) u : (X u <-> Y u) -> after f X u <-> after f Y u.
Proof. destruct f; cbn; tauto. Qed.

Lemma expected_iff l : forall ws (X Y : list byte -> Prop) u, (X u <-> Y u) -> expected l ws X u <-> expected l ws Y u.
Proof. induction l as [|o l IH]; intros ws X Y u HX; cbn; [done|]. by apply IH, after_iff. Qed.

Lemma ops_weight_nonneg l : 0 <= ops_weight l.
Proof. unfold ops_weight. induction l as [|o l IH]; cbn; [done|]. pose proof (op_weight_nonneg o). lia. Qed.

Lemma ops_spec l : forall ws s,
  Forall op_ok l -> watches_ok ws -> shaped (table s) -> next_id (table s) + ops_weight l <= INT_MAX + 1 ->
  exists s', run_ops l ws s = Some (foldl watches_after ws l, s') /\ shaped (table s') /\
    (reliable s -> unique (table s) -> unique (table s')) /\
    (reliable s -> forall u, u <> [] -> listed (table s') u <-> expected l ws (listed (table s)) u).
Proof.
  induction l as [|o l IH]; intros ws s Hl Hws Hs Hm; [by exists s|]. inversion Hl as [|? ? Ho Hl']; subst.
  cbn [run_ops expected foldl]. unfold ops_weight in Hm. cbn [map foldr] in Hm. fold (ops_weight l) in Hm.
  pose proof (ops_weight_nonneg l).
  destruct (op_does o ws s Ho Hws Hs) as (s1 & -> & [D1 D2 D3 D4 D5]); [lia|]. cbn [mbind option_bind].
  destruct (IH (watches_after ws o) s1 Hl' (watches_after_ok _ _ Ho Hws) D1) as (s2 & -> & Hs2 & Hu2 & He2);
    [pose proof (effect_weight ws o); lia|].
  exists s2. split_and!; try done; [auto|]. intros Hre u Hu. rewrite (He2 (D3 Hre) u Hu). apply expected_iff. by apply D5.
Qed.

(** Every parent is a directory with a smaller key. *)
Lemma shaped_parent l r : shaped l -> r ∈ l -> parent r = 0 \/ exists q, q ∈ l /\ path q = [] /\ id q = parent r /\ id q < id r.
Proof.
  intros Hl Hr. destruct (sh_rows _ Hl _ Hr) as (_ & _ & Hp & Hk).
  assert ((exists p n, dir_at l (parent r) p n) -> exists q, q ∈ l /\ path q = [] /\ id q = parent r /\ id q < id r) as Hd.
  { intros (p & n & Hq). eexists. split_and!; [exact Hq|done|done|apply Hp]. }
  assert (forall q, q ∈ initial -> dir_at l (id q) (parent q) (name q)) as Hi.
  { intros q Hq. apply (sh_initial _ Hl). by case_initial Hq; subst q; by_eval. }
  destruct (decide (path r = [])).
  - destruct Hk as [Hk|[Hk|(_ & se & Hk)]]; [|right; apply Hd|right; apply Hd; by eauto].
    + pose proof (Hi (Row 2 0 (text "Video") []) ltac:(by_eval)). case_initial Hk; subst r; [by left|by left|right; apply Hd; by eauto..].
    + rewrite Hk. pose proof (Hi (Row 4 2 (text "TV Shows") []) ltac:(by_eval)). by eauto.
  - right. apply Hd. destruct Hk as ([t|se sn t] & _ & _ & Hat).
    + destruct Hat as [-> _]. pose proof (Hi (Row 3 2 (text "Movies") []) ltac:(by_eval)). by eauto.
    + destruct Hat as (_ & j & _ & Hj). by eauto.
Qed.

(** A file that was deleted or moved away is no longer in the library, nor
    is anything below it. *)
Lemma deleted_gone path s s' v :
  does (Less path) s s' -> reliable s -> path ++ v <> [] -> ~ listed (table s') (path ++ v).
Proof.
  intros Hd Hre Hne Hl. apply (do_effect _ _ _ Hd Hre _ Hne) in Hl as [_ Hl]. by rewrite like_prefix in Hl.
Qed.

End catalogue.

Abbreviation watches_ok := (Forall (fun w => watch_ok (watch_path w))).

(** ** A database *)

(** The LIKE of SQLite for ASCII: any case, a percent sign for any text and
    an underscore for any character. *)
Definition fold_case (c : byte) : byte := if (65 <=? c) && (c <=? 90) then c + 32 else c.

Fixpoint like (pat s : list byte) : bool :=
  match pat with
  | [] => match s with [] => true | _ => false end
  | p :: pat =>
      if p =? PERCENT then
        (fix any s := like pat s || match s with [] => false | _ :: s => any s end) s
      else
        match s with
        | [] => false
        | c :: s => ((p =? 95) || (fold_case p =? fold_case c)) && like pat s
        end
  end.

Lemma like_any s : like [PERCENT] s = true.
Proof. cbn. induction s as [|c s IH]; [done|]. by rewrite IH. Qed.

Lemma like_self p s : like (p ++ [PERCENT]) (p ++ s) = true.
Proof.
  induction p as [|c p IH]; [apply like_any|]. cbn [app like]. rewrite Z.eqb_refl, orb_true_r, IH.
  destruct (c =? PERCENT); [|done]. destruct (p ++ s) as [|x k]; rewrite ?IH; by rewrite ?orb_true_r.
Qed.

#[global] Instance by_name_dec : RelDecision by_name.
Proof. unfold by_name. intros r q. apply _. Defined.

#[global] Instance by_name_total : Total by_name.
Proof.
  intros r q. unfold by_name. generalize (name r) (name q). clear r q. intros a.
  induction a as [|x a IH]; intros [|y b]; cbn; [by left|by left|by right|].
  destruct (x <? y) eqn:E1; [by left|]. destruct (y <? x) eqn:E2; [by right|]. zify_bool.
  assert (x = y) as -> by lia. rewrite Z.eqb_refl. apply IH.
Qed.

Definition ids (l : list row) : list (list value) := map (fun r => [Int (id r)]) l.

Definition mem_run (d : list row) (sql : list byte) (args : list value) : list (list value) * Z * list row :=
  match args with
  | [Int p; Text n] =>
      if bool_decide (sql = SQL_CHILD) then (ids (filter (fun r => parent r = p /\ name r = n) d), 0, d)
      else ([], next_id d, d ++ [Row (next_id d) p n []])
  | [Int p; Text n; Text u] => ([], next_id d, d ++ [Row (next_id d) p n u])
  | [Text n; Int i] => ([], 0, map (rename i n) d)
  | [Text u] =>
      if bool_decide (sql = SQL_BY_PATH) then (ids (take 1 (filter (fun r => path r = u) d)), 0, d)
      else ([], 0, filter (fun r => like u (path r) = false) d)
  | [Int p] =>
      (map (fun r => [Int (id r); Text (name r); Text (path r)]) (merge_sort by_name (filter (fun r => parent r = p) d)), 0, d)
  | _ => ([], 0, d)
  end.

(** A table in memory. *)
#[global, program] Instance mem_sqlite : Sqlite := {|
  cat := list row; rows := fun d => d; run := mem_run; sqlite_like := like
|}.
Next Obligation. apply like_self. Qed.
Next Obligation. intros c p Hc. cbn. destruct (c =? PERCENT) eqn:E; [by apply Z.eqb_eq in E|done]. Qed.
Next Obligation. intros d p n. by eexists. Qed.
Next Obligation. intros d u. by eexists. Qed.
Next Obligation. intros d p. eexists. split_and!; [done|apply merge_sort_Permutation|apply Sorted_merge_sort, _]. Qed.
Next Obligation. intros d p n _. by eexists. Qed.
Next Obligation. intros d p n u _. by eexists. Qed.
Next Obligation. intros d n i. by eexists. Qed.
Next Obligation. intros d u. by eexists. Qed.

(** ** Claims *)

(** C12. The library stays in order whatever happens: scans and events in
    any sequence, whichever of their statements fail in whatever way, run to
    their end (no assertion fails, no buffer overflows), provided that no
    failure that the code retries lasts forever, and keep the catalogue in
    shape: keys are unique, the first four directories are there, every row has a
    name without slashes and lies in a directory with a smaller key, so that
    there are no cycles; directories are series and their seasons, and each
    file is in the directory that its name says under the title its name
    says. *)
Theorem catalogue_keeps_shape `{Sqlite} (add_watch : list byte -> option Z) (l : list op) (ws : list watch) (s : st) :
  Forall op_ok l -> watches_ok ws -> shaped (table s) -> next_id (table s) + ops_weight l <= INT_MAX + 1 ->
  exists ws' s', run_ops add_watch l ws s = Some (ws', s') /\ watches_ok ws' /\ shaped (table s') /\
    forall r, r ∈ table s' -> parent r = 0 \/ exists q, q ∈ table s' /\ path q = [] /\ id q = parent r /\ id q < id r.
Proof.
  intros Hl Hws Hs Hm. destruct (ops_spec add_watch l ws s Hl Hws Hs Hm) as (s' & E & Hs' & _ & _).
  exists (foldl (watches_after add_watch) ws l), s'. split_and!; [done| |done|by intros r; apply shaped_parent].
  clear -Hl Hws. revert ws Hws. induction Hl as [|o l Ho _ IH]; intros ws Hws; [done|]. by apply IH, watches_after_ok.
Qed.

(** C11. The library is the set of the videos it was told of: when no
    statement fails, scans and events leave one row for each file of the
    set that is obtained by adding the videos a scan finds and removing what
    a deleted path matches, no other rows of files, and no two directories
    of one name in one place. *)
Theorem catalogue_refines_set `{Sqlite} (add_watch : list byte -> option Z) (l : list op) (ws : list watch) (d : cat) :
  Forall op_ok l -> watches_ok ws -> shaped (rows d) -> unique (rows d) -> next_id (rows d) + ops_weight l <= INT_MAX + 1 ->
  exists ws' s', run_ops add_watch l ws (St d []) = Some (ws', s') /\ unique (table s') /\
    forall u, u <> [] ->
      ((exists r, r ∈ table s' /\ path r = u) <-> expected add_watch l ws (listed (rows d)) u) /\
      (forall r q, r ∈ table s' -> q ∈ table s' -> path r = u -> path q = u -> r = q) /\
      (forall r, r ∈ table s' -> path r = u -> filed (table s') r).
Proof.
  intros Hl Hws Hs Hun Hm. destruct (ops_spec add_watch l ws (St d []) Hl Hws Hs Hm) as (s' & E & Hs' & Hu & He).
  specialize (Hu eq_refl Hun). exists (foldl (watches_after add_watch) ws l), s'. split_and!; [done|done|].
  intros u Hne. split_and!; [by apply (He eq_refl)| |].
  - intros r q Hr Hq Er Eq. apply (un_files _ Hu); congruence.
  - intros r Hr Er. destruct (sh_rows _ Hs' _ Hr) as (_ & _ & _ & Hf). rewrite decide_False in Hf by congruence. done.
Qed.

(** A store with a movie, an episode and a text, scanned; then the movie is
    deleted. *)
Definition sample : node :=
  Dir true [(text "The.Movie.avi", File (Some (text "video/x-msvideo; charset=binary")));
            (text ".hidden.avi", File (Some (text "video/x-msvideo; charset=binary")));
            (text "Serie", Dir true [(text "Serie.S01E02.mkv", File (Some (text "video/x-matroska; charset=binary")))]);
            (text "notes.txt", File (Some (text "text/plain; charset=us-ascii")))].

Definition sample_ops : list op :=
  [Scan (text "/store") sample; Inotify (Event 1 IN_DELETE (text "The.Movie.avi") Missing None)].

Definition sample_watches : list watch := [Watch 1 (text "/store")].

Lemma sample_ok : Forall op_ok sample_ops /\ watches_ok sample_watches.
Proof.
  split; [|by repeat constructor]. constructor; [|constructor; [|done]].
  - split; [split; [split_and!|]; by_eval|]. cbn. unfold filename. split_and!; by_eval.
  - split_and!; [right; split_and!; by_eval|done|done].
Qed.

Lemma catalogue_keeps_shape_witness :
  exists ws' s', run_ops (fun _ => None) sample_ops sample_watches (St initial [Ok; Ok; Ok; Other; Error; Ok; Locked; Ok; Ok; Busy; Other; Other; Ok]) = Some (ws', s') /\
    watches_ok ws' /\ shaped (table s') /\
    forall r, r ∈ table s' -> parent r = 0 \/ exists q, q ∈ table s' /\ path q = [] /\ id q = parent r /\ id q < id r.
Proof.
  destruct sample_ok. apply catalogue_keeps_shape; [done|done|apply initial_shaped|by vm_compute].
Defined.

Lemma catalogue_refines_set_witness :
  option_map (fun x => rows (db x.2)) (run_ops (fun _ => None) sample_ops sample_watches (St initial [])) =
    Some (initial ++ [Row 6 4 (text "Serie") []; Row 7 6 (text "Season 01") [];
                      Row 8 7 (text "Episode 02") (text "/store/Serie/Serie.S01E02.mkv")]) /\
  exists ws' s', run_ops (fun _ => None) sample_ops sample_watches (St initial []) = Some (ws', s') /\ unique (table s') /\
    forall u, u <> [] ->
      ((exists r, r ∈ table s' /\ path r = u) <-> expected (fun _ => None) sample_ops sample_watches (listed initial) u) /\
      (forall r q, r ∈ table s' -> q ∈ table s' -> path r = u -> path q = u -> r = q) /\
      (forall r, r ∈ table s' -> path r = u -> filed (table s') r).
Proof.
  split; [by vm_compute|]. destruct sample_ok.
  apply (@catalogue_refines_set mem_sqlite (fun _ => None) sample_ops sample_watches initial); [done|done|apply initial_shaped..|by vm_compute].
Defined.

(** A file whose path begins with that of a deleted file is forgotten too. *)
Example delete_takes_siblings :
  option_map (fun x => rows (db x.2))
    (run_ops (fun _ => None)
       [Scan (text "/store") (Dir true [(text "film", File (Some (text "video/mp4"))); (text "Film 2", File (Some (text "video/mp4")))]);
        Inotify (Event 1 IN_DELETE (text "film") Missing None)] sample_watches (St initial [])) = Some initial.
Proof. by vm_compute. Qed.

(** A lookup that failed adds a file a second time. *)
Example failed_lookup_duplicates :
  option_map (fun x => map path (drop 4 (rows (db x.2))))
    (run_ops (fun _ => None)
       [Scan (text "/store") (Dir true [(text "film", File (Some (text "video/mp4")))]);
        Scan (text "/store") (Dir true [(text "film", File (Some (text "video/mp4")))])]
       sample_watches (St initial [Ok; Ok; Ok; Ok; Ok; Ok; Ok; Ok; Error])) = Some [text "/store/film"; text "/store/film"].
Proof. by vm_compute. Qed.

(** Audio is not taken, subtitles are. *)
Example audio_refused :
  wanted (Some (text "audio/mpeg")) (text "/store/song.mp3") = false /\
  wanted (Some (text "video/subtitle")) (text "/store/film.srt") = true.
Proof. by vm_compute. Qed.

End Catalogue.
