(* ===== verification/Browsing.v ===== *)
(** * Browsing the local library (src/library.c)

    The directories under [/local]: opening one by its path and reading its
    entries, over the catalogue of [Library]. *)

From stdpp Require Import sorting.
From S2P Require Import Prelude Strings Titles Library.
Import Objects Catalogue.

(** Cuts the last name off; running off the front is [None]. *)
Definition mbox_library_striplastlevel (path : list byte) : option (list byte) :=
  let p := if bool_decide (last path = Some SLASH) then removelast path else path in
  match cut_last SLASH p with Some (pre, _) => Some (pre ++ [SLASH]) | None => None end.

Record dirent := Dirent { e_name : list byte; e_path : list byte; e_isdir : bool }.

Section browsing.
Context `{Sqlite}.

(** An open directory: its path, the parameter of its statement, the rows
    that are left once it was stepped. *)
Record localdir := LocalDir { d_path : list byte; d_id : Z; stmt : option (list (list value)); dotdot_sent : bool }.

(** Opening the database, preparing the statement and binding. *)
Definition prepare (s : st) : bool * st :=
  let '(ok, l) := call (answers s) in
  if negb ok then (false, St (db s) l)
  else
    let '(ok, l) := prepare_loop None l in
    if negb ok then (false, St (db s) l)
    else let '(ok, l) := call l in (ok, St (db s) l).

Definition mbox_library_local_opendir (path : list byte) (s : st) : option (option localdir * st) :=
  '(id, s) ← mbox_library_local_getid (drop 6 path) 0 s;
  if id =? -1 then Some (None, s)
  else
    let '(ok, s) := prepare s in
    Some (if ok then Some (LocalDir path (s32 id) None false) else None, s).

Definition column_text (k : nat) (r : list value) : list byte := match r !! k with Some (Text t) => t | _ => [] end.

(** The next row; the first step executes the statement, and a step after
    the last row does so again.  Any failure ends the directory. *)
Definition step (d : localdir) (s : st) : option (list value) * localdir * st :=
  let '(o, rs, s) :=
    match stmt d with
    | Some rs => (true, rs, s)
    | None =>
        let '(ok, l) := call (answers s) in
        if ok then let '(rs, _, d') := run (db s) SQL_LIST [Int (d_id d)] in (true, rs, St d' l) else (false, [], St (db s) l)
    end in
  match o, rs with
  | true, r :: rs => (Some r, LocalDir (d_path d) (d_id d) (Some rs) (dotdot_sent d), s)
  | _, _ => (None, LocalDir (d_path d) (d_id d) None (dotdot_sent d), s)
  end.

(** No entry is the end of the directory or an error. *)
Definition mbox_library_local_readdir (d : localdir) (s : st) : option (option dirent * localdir * st) :=
  if negb (dotdot_sent d) then
    path ← mbox_library_striplastlevel (d_path d);
    Some (Some (Dirent (text "..") path true), LocalDir (d_path d) (d_id d) (stmt d) true, s)
  else
    let '(r, d, s) := step d s in
    match r with
    | None => Some (None, d, s)
    | Some r =>
        let isdir := bool_decide (column_text 2 r = []) in
        let name := column_text 1 r in
        Some (Some (Dirent name (if isdir then join (d_path d) name else column_text 2 r) isdir), d, s)
    end.

(** Reading until there is no entry; [None] without enough fuel. *)
Fixpoint read_all (fuel : nat) (d : localdir) (s : st) : option (list dirent * st) :=
  match fuel with
  | O => None
  | S fuel =>
      '(e, d, s) ← mbox_library_local_readdir d s;
      match e with
      | None => Some ([], s)
      | Some e => '(l, s) ← read_all fuel d s; Some (e :: l, s)
      end
  end.

(** ** What is read *)

(** The directory reached from [i] by names. *)
Fixpoint walk (l : list row) (i : Z) (names : list (list byte)) (j : Z) : Prop :=
  match names with
  | [] => i = j
  | n :: names => exists k, dir_at l k i n /\ walk l k names j
  end.

Definition below (names : list (list byte)) : list byte := concat (map (cons SLASH) names).
Definition path_of (names : list (list byte)) : list byte := text "/local" ++ below names.

Definition entry_of (names : list (list byte)) (r : row) : dirent :=
  if decide (path r = []) then Dirent (name r) (path_of (names ++ [name r])) true else Dirent (name r) (path r) false.

Lemma component_app n rest : SLASH ∉ n -> head rest = None \/ head rest = Some SLASH -> component (n ++ rest) = (n, rest).
Proof.
  intros Hn Hr. induction n as [|c n IH]; cbn.
  - destruct rest as [|x rest]; [done|]. destruct Hr as [?|[= ->]]; done.
  - apply not_elem_of_cons in Hn as [Hc Hn]. destruct (c =? SLASH) eqn:E; [apply Z.eqb_eq in E; congruence|]. by rewrite IH.
Qed.

Lemma below_cons n names tail : below (n :: names) ++ tail = SLASH :: n ++ below names ++ tail.
Proof. unfold below. cbn. by rewrite <- app_assoc. Qed.

Lemma below_head names tail :
  tail = [] \/ tail = [SLASH] -> head (below names ++ tail) = None \/ head (below names ++ tail) = Some SLASH.
Proof. intros Ht. destruct names as [|n names]; [destruct Ht as [->| ->]; auto|right; by rewrite below_cons]. Qed.

Lemma walk_fits l i names j :
  shaped l -> next_id l <= INT_MAX + 1 -> fits i -> walk l i names j -> fits j.
Proof.
  intros Hl Hm. revert i. induction names as [|n names IH]; intros i Hi; cbn; [by intros <-|].
  intros (k & Hk & Hw). apply (IH k); [|done]. by apply (dir_at_fits _ _ _ _ Hl Hm Hk).
Qed.

(** A name that is a directory is found. *)
Lemma child_found d i k n :
  shaped (rows d) -> unique (rows d) -> dir_at (rows d) k i n ->
  exists rs, run d SQL_CHILD [Int i; Text n] = ([Int k] :: rs, 0, d).
Proof.
  intros Hl Hu Hk. destruct (run_child d i n) as (l & E & El).
  assert (Row k i n [] ∈ l) as Hin by (rewrite El; by apply list_elem_of_filter).
  destruct l as [|r l]; [by apply not_elem_of_nil in Hin|]. rewrite E. eexists. cbn. do 4 f_equal.
  assert (r ∈ filter (fun r => parent r = i /\ name r = n) (rows d)) as ((E1 & E2) & Hr)%list_elem_of_filter
    by (rewrite <- El; by left).
  by rewrite (un_dirs _ Hu (Row k i n []) r Hk Hr eq_refl E1 E2).
Qed.

Lemma getid_walk d names : forall fuel tail i j,
  shaped (rows d) -> unique (rows d) -> next_id (rows d) <= INT_MAX + 1 -> fits i -> tail = [] \/ tail = [SLASH] ->
  (length (below names ++ tail) < fuel)%nat -> walk (rows d) i names j ->
  getid fuel (below names ++ tail) i (St d []) = Some (j, St d []).
Proof.
  induction names as [|n names IH]; intros fuel tail i j Hl Hu Hm Hi Ht Hf Hw; (destruct fuel as [|fuel]; [lia|]).
  { destruct Hw. by destruct Ht as [-> | ->]. }
  destruct Hw as (k & Hk & Hw). destruct (sh_rows _ Hl _ Hk) as (Hn & Hs & _). cbn in Hn, Hs.
  rewrite below_cons in *. cbn [getid skip_slash]. rewrite (Z.eqb_refl SLASH), component_app by (try done; by apply below_head).
  rewrite bool_decide_false by done. unfold exec. cbn [answers db attempt call prepare_loop step_loop negb]. rewrite (s32_fits i Hi).
  destruct (child_found d i k n Hl Hu Hk) as (rs & ->). cbn [column_int].
  destruct (dir_at_fits _ _ _ _ Hl Hm Hk) as [Hfk _]. rewrite (s32_fits k Hfk).
  destruct (1 <? len (below names ++ tail)) eqn:E.
  - apply IH; try done. cbn [length] in Hf. rewrite length_app in Hf. lia.
  - destruct names as [|m names]; [cbn in Hw; by subst|]. destruct Hw as (k' & Hk' & _).
    destruct (sh_rows _ Hl _ Hk') as (Hm' & _). cbn in Hm'. rewrite below_cons, len_cons, len_app in E. destruct m; [done|].
    rewrite len_cons in E. pose proof (len_nonneg m). pose proof (len_nonneg (below names ++ tail)). zify_bool. lia.
Qed.

(** Opening a directory that exists. *)
Lemma opendir_spec d names tail j :
  shaped (rows d) -> unique (rows d) -> next_id (rows d) <= INT_MAX + 1 -> tail = [] \/ tail = [SLASH] ->
  walk (rows d) 0 names j ->
  mbox_library_local_opendir (path_of names ++ tail) (St d []) =
    Some (Some (LocalDir (path_of names ++ tail) j None false), St d []).
Proof.
  intros Hl Hu Hm Ht Hw. unfold mbox_library_local_opendir, path_of.
  change (drop 6 ((text "/local" ++ below names) ++ tail)) with (below names ++ tail).
  unfold mbox_library_local_getid. rewrite (getid_walk d names _ tail 0 j) by (try done; lia). cbn [mbind option_bind].
  pose proof (walk_fits _ 0 names j Hl Hm ltac:(done) Hw) as Hj.
  destruct (j =? -1) eqn:E; [destruct Hj; zify_bool; lia|]. unfold prepare. cbn. by rewrite (s32_fits j Hj).
Qed.

Definition proper_name (n : list byte) : Prop := n <> [] /\ SLASH ∉ n.

Lemma walk_names l names : forall i j, shaped l -> walk l i names j -> Forall proper_name names.
Proof.
  induction names as [|n names IH]; intros i j Hl; cbn; [constructor|]. intros (k & Hk & Hw).
  destruct (sh_rows _ Hl _ Hk) as (? & ? & _). constructor; [done|]. by apply (IH k j).
Qed.

Lemma path_of_snoc names n : path_of (names ++ [n]) = path_of names ++ SLASH :: n.
Proof. unfold path_of, below. rewrite map_app, concat_app, app_assoc. cbn. by rewrite app_nil_r. Qed.

Lemma path_of_last names : Forall proper_name names -> last (path_of names) <> Some SLASH.
Proof.
  destruct names as [|n names _] using rev_ind; [done|]. intros [_ [[Hn Hs] _]%Forall_cons]%Forall_app.
  rewrite path_of_snoc, last_app_cons, last_cons. destruct (last n) as [c|] eqn:E; [|by apply last_None in E].
  intros [= ->]. by apply last_Some_elem_of in E.
Qed.

Lemma join_path names tail n :
  Forall proper_name names -> tail = [] \/ tail = [SLASH] -> join (path_of names ++ tail) n = path_of (names ++ [n]).
Proof.
  intros Hn Ht. unfold join. rewrite path_of_snoc. destruct Ht as [-> | ->].
  - rewrite app_nil_r, bool_decide_false by by apply path_of_last. done.
  - rewrite bool_decide_true by by rewrite last_snoc. by rewrite <- app_assoc.
Qed.

Lemma strip_tail names tail :
  Forall proper_name names -> tail = [] \/ tail = [SLASH] ->
  mbox_library_striplastlevel (path_of names ++ tail) =
    match cut_last SLASH (path_of names) with Some (pre, _) => Some (pre ++ [SLASH]) | None => None end.
Proof.
  intros Hn Ht. unfold mbox_library_striplastlevel. destruct Ht as [-> | ->].
  - by rewrite app_nil_r, bool_decide_false by by apply path_of_last.
  - rewrite bool_decide_true by by rewrite last_snoc. by rewrite removelast_last.
Qed.

(** The path of the directory above. *)
Definition up (names : list (list byte)) : list byte :=
  match reverse names with [] => [SLASH] | _ :: above => path_of (reverse above) ++ [SLASH] end.

Lemma strip_up names tail :
  Forall proper_name names -> tail = [] \/ tail = [SLASH] -> mbox_library_striplastlevel (path_of names ++ tail) = Some (up names).
Proof.
  intros Hn Ht. rewrite strip_tail by done. unfold up. destruct names as [|n names _] using rev_ind; [by vm_compute|].
  rewrite reverse_snoc, reverse_involutive, path_of_snoc. apply Forall_app in Hn as [_ [[_ Hs] _]%Forall_cons].
  by rewrite cut_last_app.
Qed.

Definition columns (r : row) : list value := [Int (id r); Text (name r); Text (path r)].

(** The rows of the statement, once it is stepped. *)
Lemma read_rows names tail i s rs : forall fuel,
  Forall proper_name names -> tail = [] \/ tail = [SLASH] -> (length rs < fuel)%nat ->
  read_all fuel (LocalDir (path_of names ++ tail) i (Some (map columns rs)) true) s = Some (map (entry_of names) rs, s).
Proof.
  induction rs as [|r rs IH]; intros fuel Hn Ht Hf; (destruct fuel as [|fuel]; [lia|]); cbn in Hf; [done|].
  cbn [map read_all mbox_library_local_readdir dotdot_sent negb step stmt mbind option_bind d_path d_id].
  rewrite IH by (try done; lia). cbn [mbind option_bind]. do 3 f_equal. unfold entry_of. cbn [column_text columns lookup list_lookup].
  case_bool_decide as Hp; [rewrite decide_True by done|by rewrite decide_False]. by rewrite join_path.
Qed.

Lemma read_dir d names tail i :
  Forall proper_name names -> tail = [] \/ tail = [SLASH] ->
  exists rs, rs ≡ₚ filter (fun r => parent r = i) (rows d) /\ Sorted by_name rs /\
    forall fuel, (S (S (length rs)) <= fuel)%nat ->
      read_all fuel (LocalDir (path_of names ++ tail) i None false) (St d []) =
        Some (Dirent (text "..") (up names) true :: map (entry_of names) rs, St d []).
Proof.
  intros Hn Ht. destruct (run_list d i) as (rs & E & Hp & Hs). exists rs. split_and!; [done|done|].
  intros fuel Hf. destruct fuel as [|fuel]; [lia|]. cbn [read_all mbox_library_local_readdir dotdot_sent negb d_path].
  rewrite strip_up by done. cbn [mbind option_bind d_path d_id stmt dotdot_sent]. destruct fuel as [|fuel]; [lia|].
  enough (read_all (S fuel) (LocalDir (path_of names ++ tail) i None true) (St d []) =
    Some (map (entry_of names) rs, St d [])) as -> by done.
  rewrite <- (read_rows names tail i (St d []) rs (S fuel)) by (try done; lia).
  cbn [read_all]. unfold mbox_library_local_readdir. cbn [dotdot_sent negb]. unfold step. cbn [stmt d_id d_path dotdot_sent].
  cbn [answers db call]. rewrite E. done.
Qed.

Lemma walk_snoc l names n : forall i j, walk l i (names ++ [n]) j <-> exists k, walk l i names k /\ dir_at l j k n.
Proof.
  induction names as [|m names IH]; intros i j; cbn; [naive_solver|]. setoid_rewrite IH. naive_solver.
Qed.

End browsing.

(** C34. The local library can be browsed: every directory of a catalogue
    in order is opened by its path, with or without a slash at the end;
    reading it ends, after an entry for the directory above, with an entry
    for each row in it, in the order of their names.  The path of an entry
    that is a directory opens that directory, that of another is the path of
    its file, and the path of the first entry opens the directory above. *)
Theorem library_browsable `{Sqlite} (d : cat) (names : list (list byte)) (tail : list byte) (i : Z) :
  shaped (rows d) -> unique (rows d) -> next_id (rows d) <= INT_MAX + 1 -> tail = [] \/ tail = [SLASH] ->
  walk (rows d) 0 names i ->
  exists dir rs,
    mbox_library_local_opendir (path_of names ++ tail) (St d []) = Some (Some dir, St d []) /\ d_id dir = i /\
    rs ≡ₚ filter (fun r => parent r = i) (rows d) /\ Sorted by_name rs /\
    (forall fuel, (S (S (length rs)) <= fuel)%nat ->
       read_all fuel dir (St d []) = Some (Dirent (text "..") (up names) true :: map (entry_of names) rs, St d [])) /\
    (forall r, r ∈ rs -> path r = [] -> exists dir',
       mbox_library_local_opendir (e_path (entry_of names r)) (St d []) = Some (Some dir', St d []) /\ d_id dir' = id r) /\
    (forall above n, names = above ++ [n] -> exists dir' j,
       walk (rows d) 0 above j /\
       mbox_library_local_opendir (up names) (St d []) = Some (Some dir', St d []) /\ d_id dir' = j).
Proof.
  intros Hl Hu Hm Ht Hw. pose proof (walk_names _ _ _ _ Hl Hw) as Hn.
  destruct (read_dir d names tail i Hn Ht) as (rs & Hp & Hs & Hr).
  eexists _, rs. split_and!; [by apply opendir_spec|done|done|done|done| |].
  - intros r Hin Hd. rewrite Hp in Hin. apply list_elem_of_filter in Hin as (Ep & Hin). unfold entry_of.
    rewrite decide_True by done. cbn [e_path].
    rewrite <- (app_nil_r (path_of _)). eexists. split; [apply opendir_spec; try done; [by left|]|done].
    apply walk_snoc. exists i. split; [done|]. unfold dir_at. rewrite <- Ep, <- Hd. by destruct r.
  - intros above n ->. apply walk_snoc in Hw as (j & Hj & _). eexists _, j.
    unfold up. rewrite reverse_snoc, reverse_involutive. split_and!; [done| |]; [apply opendir_spec; try done; by right|done].
Qed.

(** A library with one serie. *)
Definition sample_db : list row :=
  initial ++ [Row 5 4 (text "Serie") []; Row 6 5 (text "Season 01") [];
              Row 7 6 (text "Episode 02") (text "/store/Serie.S01E02.mkv")].

Definition sample_scan : list op :=
  [Scan (text "/store") (Dir true [(text "Serie.S01E02.mkv", File (Some (text "video/x-matroska; charset=binary")))])].

Lemma sample_db_ok : shaped sample_db /\ unique sample_db.
Proof.
  assert (Forall op_ok sample_scan) as Hok.
  { constructor; [|done]. split; [split; [split_and!|]; by_eval|]. cbn. unfold filename. split_and!; by_eval. }
  destruct (@ops_spec mem_sqlite (fun _ => None) sample_scan [] (@St mem_sqlite initial []) Hok) as (s' & E & Hs & Hu & _);
    [done|apply initial_shaped|by vm_compute|].
  assert (run_ops (fun _ => None) sample_scan [] (@St mem_sqlite initial []) = Some ([], St sample_db [])) as E' by by vm_compute.
  rewrite E in E'. injection E' as ->. split; [done|]. apply Hu; [done|apply initial_shaped].
Qed.

Lemma library_browsable_witness :
  (x ← mbox_library_local_opendir (text "/local/Video/TV Shows/Serie/") (St sample_db []);
   dir ← x.1; option_map fst (read_all 9 dir x.2)) =
    Some [Dirent (text "..") (text "/local/Video/TV Shows/") true;
          Dirent (text "Season 01") (text "/local/Video/TV Shows/Serie/Season 01") true] /\
  exists dir rs,
    mbox_library_local_opendir (path_of (map text ["Video"; "TV Shows"; "Serie"]%string) ++ [SLASH]) (St sample_db []) =
      Some (Some dir, St sample_db []) /\ d_id dir = 5 /\ rs ≡ₚ filter (fun r => parent r = 5) sample_db.
Proof.
  split; [by vm_compute|].
  destruct (@library_browsable mem_sqlite sample_db (map text ["Video"; "TV Shows"; "Serie"]%string) [SLASH] 5)
    as (dir & rs & H1 & H2 & H3 & _); [apply sample_db_ok|apply sample_db_ok|by vm_compute|by right| |by exists dir, rs].
  cbn. unfold dir_at. exists 2. split; [by_eval|]. exists 4. split; [by_eval|]. exists 5. split; [by_eval|done].
Defined.
