(* ===== verification/FileIO.v ===== *)
(** * Pipes and directories (src/lib/pipe_util.c, src/lib/file_util.c)

    [Pipes]: the loops that write or read a whole buffer over calls that may
    be interrupted or transfer only a part.  [Dirs]: [mkdir_p], and the loop
    of [avbox_get_resource].  The answers of the system calls are lists; a
    loop that runs out of answers has not returned yet. *)

From S2P Require Import Prelude Strings.

Module Pipes.

(** What [write] or [read] answers: the number of bytes (0 is end of file),
    or an error. *)
Inductive sysret := Bytes (n : Z) | Interrupted | Broken | Error.

(** [Done]: the bytes that went through.  [Stopped]: the function returned 0.
    [Aborted]: [abort] was called.  [Outside]: memory outside of the buffer
    was used. *)
Inductive ret := Done (out : list byte) | Stopped | Aborted | Outside | Waiting (out : list byte).

(** The bytes of the buffer a call of [write] with [n] bytes left takes. *)
Definition slice (buf : list byte) (off n : Z) : option (list byte) :=
  if (0 <=? off) && (0 <=? n) && (off + n <=? len buf) then Some (ztake n (zdrop off buf)) else None.

Fixpoint write_or_die (l : list sysret) (buf : list byte) (written n : Z) (out : list byte) : ret :=
  match l with
  | [] => Waiting out
  | Bytes r :: l =>
      match slice buf written r with
      | Some data =>
          if r =? n then Done (out ++ data)
          else if r =? 0 then Aborted
          else write_or_die l buf (written + r) (n - r) (out ++ data)
      | None => Outside
      end
  | Interrupted :: l => write_or_die l buf written n out
  | (Broken | Error) :: _ => Aborted
  end.

(** Reading takes the bytes from [data], what the other side wrote; [out] is
    the part of the buffer that is filled. *)
Fixpoint read_or_die (l : list sysret) (data : list byte) (n : Z) (out : list byte) : ret * list byte :=
  match l with
  | [] => (Waiting out, data)
  | Bytes r :: l =>
      if r =? n then (Done (out ++ ztake r data), zdrop r data)
      else if r =? 0 then (Aborted, data)
      else read_or_die l (zdrop r data) (n - r) (out ++ ztake r data)
  | Interrupted :: l => read_or_die l data n out
  | (Broken | Error) :: _ => (Aborted, data)
  end.

(** The end of the file is an answer before the first byte only. *)
Fixpoint read_or_eof (l : list sysret) (data : list byte) (n : Z) (out : list byte) : ret * list byte :=
  match l with
  | [] => (Waiting out, data)
  | Bytes r :: l =>
      if r =? n then (Done (out ++ ztake r data), zdrop r data)
      else if r =? 0 then (if len out =? 0 then Stopped else Aborted, data)
      else read_or_eof l (zdrop r data) (n - r) (out ++ ztake r data)
  | Interrupted :: l => read_or_eof l data n out
  | (Broken | Error) :: _ => (Aborted, data)
  end.

(** An error that is neither EINTR nor EPIPE goes on with the -1 as a count. *)
Fixpoint write_or_epipe (l : list sysret) (buf : list byte) (written n : Z) (out : list byte) : ret :=
  match l with
  | [] => Waiting out
  | Bytes r :: l =>
      match slice buf written r with
      | Some data =>
          if r =? n then Done (out ++ data)
          else if r =? 0 then Aborted
          else write_or_epipe l buf (written + r) (n - r) (out ++ data)
      | None => Outside
      end
  | Interrupted :: l => write_or_epipe l buf written n out
  | Broken :: _ => Stopped
  | Error :: l => write_or_epipe l buf (written - 1) (n + 1) out
  end.

(** ** What the system calls may answer *)

(** A transfer of [n] bytes, in pieces and with interruptions. *)
Fixpoint transfers (l : list sysret) (n : Z) : Prop :=
  match l with
  | [] => False
  | Bytes r :: l => 0 < r <= n /\ (r = n \/ transfers l (n - r))
  | Interrupted :: l => transfers l n
  | _ => False
  end.

Lemma transfers_pos l n : transfers l n -> 0 < n.
Proof. induction l as [|[r| | |] l IH]; cbn; try done. lia. Qed.

Lemma ztake_plus {A} a b (l : list A) : 0 <= a -> 0 <= b -> ztake (a + b) l = ztake a l ++ ztake b (zdrop a l).
Proof. intros. unfold ztake, zdrop. rewrite Z2Nat.inj_add by done. by rewrite take_take_drop. Qed.

Lemma zdrop_plus {A} a b (l : list A) : 0 <= a -> 0 <= b -> zdrop b (zdrop a l) = zdrop (a + b) l.
Proof. intros. unfold zdrop. by rewrite drop_drop, Z2Nat.inj_add. Qed.

Lemma ztake_app_len {A} (l k : list A) : ztake (len l) (l ++ k) = l.
Proof. unfold ztake, len. by rewrite Nat2Z.id, take_app_length. Qed.

Lemma zdrop_app_len {A} (l k : list A) : zdrop (len l) (l ++ k) = k.
Proof. unfold zdrop, len. by rewrite Nat2Z.id, drop_app_length. Qed.

Lemma slice_Some buf off n : 0 <= off -> 0 <= n -> off + n <= len buf -> slice buf off n = Some (ztake n (zdrop off buf)).
Proof. intros. unfold slice. destruct (_ && _) eqn:E; [done|]. zify_bool. lia. Qed.

Lemma write_from l : forall buf written n out,
  transfers l n -> 0 <= written -> written + n <= len buf ->
  write_or_die l buf written n out = Done (out ++ ztake n (zdrop written buf)) /\
  write_or_epipe l buf written n out = Done (out ++ ztake n (zdrop written buf)).
Proof.
  induction l as [|[r| | |] l IH]; intros buf written n out Ht Hw Hn; cbn in Ht; try done; [|by apply IH].
  destruct Ht as [Hr Ht]. cbn [write_or_die write_or_epipe]. rewrite slice_Some by lia.
  destruct (r =? n) eqn:E; zify_bool; [by subst|]. rewrite (proj2 (Z.eqb_neq r 0)) by lia.
  destruct Ht as [->|Ht]; [lia|]. destruct (IH buf (written + r) (n - r) (out ++ ztake r (zdrop written buf)) Ht) as [-> ->];
    [lia|lia|]. rewrite <- zdrop_plus, <- app_assoc, <- ztake_plus by lia. by replace (r + (n - r)) with n by lia.
Qed.

Lemma read_from l : forall data n out,
  transfers l n -> n <= len data ->
  read_or_die l data n out = (Done (out ++ ztake n data), zdrop n data) /\
  read_or_eof l data n out = (Done (out ++ ztake n data), zdrop n data).
Proof.
  induction l as [|[r| | |] l IH]; intros data n out Ht Hn; cbn in Ht; try done; [|by apply IH].
  destruct Ht as [Hr Ht]. cbn [read_or_die read_or_eof]. destruct (r =? n) eqn:E; zify_bool; [by subst|].
  rewrite (proj2 (Z.eqb_neq r 0)) by lia. destruct Ht as [->|Ht]; [lia|].
  destruct (IH (zdrop r data) (n - r) (out ++ ztake r data) Ht) as [-> ->]; [rewrite len_zdrop; lia|].
  rewrite <- app_assoc, <- ztake_plus, zdrop_plus by lia. by replace (r + (n - r)) with n by lia.
Qed.

(** Messages written one after the other, with the answers of each call. *)
Fixpoint write_all (msgs : list (list byte * list sysret)) : option (list byte) :=
  match msgs with
  | [] => Some []
  | (m, l) :: msgs => match write_or_die l m 0 (len m) [] with Done out => app out <$> write_all msgs | _ => None end
  end.

Fixpoint read_all (ls : list (Z * list sysret)) (data : list byte) : option (list (list byte) * list byte) :=
  match ls with
  | [] => Some ([], data)
  | (n, l) :: ls =>
      match read_or_die l data n [] with
      | (Done m, data) => '(ms, rest) ← read_all ls data; Some (m :: ms, rest)
      | _ => None
      end
  end.

(** C37. Whatever way the kernel cuts the transfers and however often a
    signal interrupts them, messages written to a pipe with [write_or_die]
    are read with [read_or_die] as they were written, one read for one
    write, and nothing is left over. *)
Theorem pipe_roundtrip (msgs : list (list byte)) (ws rs : list (list sysret)) :
  Forall2 (fun m l => transfers l (len m)) msgs ws -> Forall2 (fun m l => transfers l (len m)) msgs rs ->
  exists data, write_all (zip msgs ws) = Some data /\ read_all (zip (map len msgs) rs) data = Some (msgs, []).
Proof.
  intros Hw. revert rs. induction Hw as [|m w msgs ws Hm Hw IH]; intros rs Hr.
  - apply Forall2_nil_inv_l in Hr as ->. by exists [].
  - apply Forall2_cons_inv_l in Hr as (r & rs' & Hr & Hrs & ->). destruct (IH rs' Hrs) as (data & Hd & Hrd).
    exists (m ++ data). cbn [map]. change (zip (m :: msgs) (w :: ws)) with ((m, w) :: zip msgs ws).
    change (zip (len m :: map len msgs) (r :: rs')) with ((len m, r) :: zip (map len msgs) rs'). cbn [write_all read_all].
    destruct (write_from w m 0 (len m) [] Hm) as [-> _]; [lia|lia|]. change (zdrop 0 m) with m. rewrite ztake_all by lia. cbn [app]. split; [by rewrite Hd|].
    destruct (read_from r (m ++ data) (len m) [] Hr) as [-> _]; [rewrite len_app; pose proof (len_nonneg data); lia|].
    rewrite ztake_app_len, zdrop_app_len. cbn [app]. by rewrite Hrd.
Qed.

Lemma pipe_roundtrip_witness :
  exists data, write_all (zip [[1; 2; 3]; [4]] [[Bytes 2; Interrupted; Bytes 1]; [Bytes 1]]) = Some data /\
    read_all (zip (map len [[1; 2; 3]; [4]]) [[Bytes 1; Bytes 2]; [Interrupted; Bytes 1]]) data = Some ([[1; 2; 3]; [4]], []).
Proof.
  apply (pipe_roundtrip [[1; 2; 3]; [4]]); repeat (apply Forall2_cons_2; [unfold len; cbn; lia|]); apply Forall2_nil_2.
Defined.

(** An error that is not a broken pipe makes [write_or_epipe] go on one byte
    before the buffer. *)
Example epipe_error_underruns : write_or_epipe [Error; Bytes 4] [7; 8; 9] 0 3 [] = Outside.
Proof. done. Qed.

End Pipes.

Module Dirs.

Definition SLASH : byte := 47.

(** The last index of [path_tmp]. *)
Definition UBOUND : Z := 254.

(** [path_tmp], of 255 bytes, as it is initialised. *)
Definition path_tmp : list byte := SLASH :: replicate 254 0.

(** The characters of one name are stored from [ptr] on; [Some None] when
    the path is too long, [None] for a store outside of the buffer. *)
Fixpoint copy_name (path buf : list byte) (ptr : Z) : option (option (list byte * list byte * Z)) :=
  match path with
  | [] => Some (Some ([], buf, ptr))
  | c :: rest =>
      if c =? SLASH then buf ← memcpy buf ptr [0]; Some (Some (rest, buf, ptr))
      else if UBOUND <=? ptr then Some None
      else buf ← memcpy buf ptr [c]; copy_name rest buf (ptr + 1)
  end.

(** The slash before a name, unless there is one. *)
Definition put_slash (buf : list byte) (ptr : Z) : option (list byte * Z) :=
  before ← (if ptr =? 0 then Some 0 else buf !! Z.to_nat (ptr - 1));
  if before =? SLASH then Some (buf, ptr) else buf ← memcpy buf ptr [SLASH]; Some (buf, ptr + 1).

(** The string in the buffer; [None] when it runs off its end. *)
Definition read_tmp (buf : list byte) : option (list byte) :=
  if bool_decide (0 ∈ buf) then Some (cstring buf) else None.

(** Answers the return value, the paths that exist and those for which
    [mkdir] succeeded.  [ok] says whether a directory can be made; [None] is
    an access outside of the buffer (or too little fuel). *)
Fixpoint mkdir_loop (fuel : nat) (ok : list byte -> bool) (path buf : list byte) (ptr : Z) (fs : gset (list byte))
    (made : list (list byte)) : option (Z * gset (list byte) * list (list byte)) :=
  match fuel with
  | O => None
  | S fuel =>
      match path with
      | [] => Some (0, fs, made)
      | _ =>
          if UBOUND <=? ptr then Some (-1, fs, made)
          else
            '(buf, ptr) ← put_slash buf ptr;
            r ← copy_name path buf ptr;
            match r with
            | None => Some (-1, fs, made)
            | Some (path, buf, ptr) =>
                tmp ← read_tmp buf;
                if bool_decide (tmp ∈ fs) then mkdir_loop fuel ok path buf ptr fs made
                else if ok tmp then mkdir_loop fuel ok path buf ptr ({[tmp]} ∪ fs) (made ++ [tmp])
                else Some (-1, fs, made)
            end
      end
  end.

Definition mkdir_p (ok : list byte -> bool) (path : list byte) (fs : gset (list byte)) :
    option (Z * gset (list byte) * list (list byte)) :=
  '(r, fs, made) ← mkdir_loop (S (length path)) ok path path_tmp 0 fs [];
  if r =? 0 then Some (if bool_decide (path ∈ fs) then 0 else -1, fs, made) else Some (r, fs, made).

(** ** The buffer *)

(** The buffer with [tmp] in it, and zeros. *)
Definition holds (tmp : list byte) : list byte := tmp ++ replicate (255 - length tmp) 0.

Definition solid (s : list byte) : Prop := Forall (fun c => c <> 0) s.

(** The same loop on strings. *)
Fixpoint copy_text (path tmp : list byte) : option (list byte * list byte) :=
  match path with
  | [] => Some ([], tmp)
  | c :: rest =>
      if c =? SLASH then Some (rest, tmp)
      else if UBOUND <=? len tmp then None
      else copy_text rest (tmp ++ [c])
  end.

Definition slashed (tmp : list byte) : list byte := if decide (last tmp = Some SLASH) then tmp else tmp ++ [SLASH].

Fixpoint text_loop (fuel : nat) (ok : list byte -> bool) (path tmp : list byte) (fs : gset (list byte))
    (made : list (list byte)) : option (Z * gset (list byte) * list (list byte)) :=
  match fuel with
  | O => None
  | S fuel =>
      match path with
      | [] => Some (0, fs, made)
      | _ =>
          if UBOUND <=? len tmp then Some (-1, fs, made)
          else
            match copy_text path (slashed tmp) with
            | None => Some (-1, fs, made)
            | Some (path, tmp) =>
                if bool_decide (tmp ∈ fs) then text_loop fuel ok path tmp fs made
                else if ok tmp then text_loop fuel ok path tmp ({[tmp]} ∪ fs) (made ++ [tmp])
                else Some (-1, fs, made)
            end
      end
  end.

Lemma holds_store tmp c : len tmp <= UBOUND -> memcpy (holds tmp) (len tmp) [c] = Some (tmp ++ c :: replicate (254 - length tmp) 0).
Proof.
  intros Hl. unfold holds. assert (255 - length tmp = S (254 - length tmp))%nat as -> by (unfold len, UBOUND in Hl; lia).
  cbn [replicate]. apply (Builder.memcpy_app tmp [0]). done.
Qed.

Lemma holds_zero tmp : len tmp <= UBOUND -> memcpy (holds tmp) (len tmp) [0] = Some (holds tmp).
Proof.
  intros Hl. rewrite holds_store by done. unfold holds. do 2 f_equal.
  by assert (255 - length tmp = S (254 - length tmp))%nat as -> by (unfold len, UBOUND in Hl; lia).
Qed.

Lemma holds_put tmp c : len tmp < UBOUND -> memcpy (holds tmp) (len tmp) [c] = Some (holds (tmp ++ [c])).
Proof.
  intros Hl. rewrite holds_store by lia. unfold holds. rewrite length_app, <- app_assoc. cbn [length app].
  do 4 f_equal. lia.
Qed.

Lemma read_holds tmp : solid tmp -> len tmp <= UBOUND -> read_tmp (holds tmp) = Some tmp.
Proof.
  intros Hs Hl. unfold read_tmp, holds.
  assert (255 - length tmp = S (254 - length tmp))%nat as -> by (unfold len, UBOUND in Hl; lia). cbn [replicate].
  rewrite bool_decide_true by set_solver. by rewrite Builder.cstring_zero.
Qed.

Lemma copy_name_text path : forall tmp,
  solid path -> solid tmp -> len tmp <= UBOUND ->
  match copy_text path tmp with
  | None => copy_name path (holds tmp) (len tmp) = Some None
  | Some (rest, tmp') => copy_name path (holds tmp) (len tmp) = Some (Some (rest, holds tmp', len tmp')) /\
      solid rest /\ solid tmp' /\ len tmp' <= UBOUND
  end.
Proof.
  induction path as [|c path IH]; intros tmp Hp Ht Hl; cbn [copy_text copy_name]; [done|]. inversion Hp; subst.
  destruct (c =? SLASH); [by rewrite holds_zero|]. destruct (UBOUND <=? len tmp) eqn:E; [done|]. zify_bool.
  rewrite holds_put by lia. cbn [mbind option_bind].
  assert (len (tmp ++ [c]) = len tmp + 1) as Hc by by rewrite len_app. rewrite <- Hc.
  apply IH; [done| |lia]. apply Forall_app. by repeat constructor.
Qed.

Lemma put_slash_text tmp :
  solid tmp -> len tmp < UBOUND -> tmp <> [] ->
  put_slash (holds tmp) (len tmp) = Some (holds (slashed tmp), len (slashed tmp)) /\ solid (slashed tmp) /\ len (slashed tmp) <= UBOUND.
Proof.
  intros Hs Hl Hn. unfold put_slash, slashed. destruct tmp as [|c t _] using rev_ind; [done|].
  assert (len (t ++ [c]) = len t + 1) as El by by rewrite len_app. rewrite El. pose proof (len_nonneg t).
  rewrite (proj2 (Z.eqb_neq _ _)) by lia. replace (len t + 1 - 1) with (len t) by lia.
  assert (holds (t ++ [c]) !! Z.to_nat (len t) = Some c) as ->.
  { unfold holds, len. rewrite Nat2Z.id, <- app_assoc. by apply list_lookup_middle. }
  cbn [mbind option_bind]. rewrite last_snoc. destruct (c =? SLASH) eqn:Ec; zify_bool.
  - rewrite decide_True by congruence. rewrite El. split_and!; [done|done|lia].
  - rewrite decide_False by congruence. rewrite <- El, holds_put by done. cbn [mbind option_bind].
    split_and!; [by rewrite (len_app (t ++ [c]))| |rewrite len_app, El; unfold len at 2; cbn; lia].
    apply Forall_app. by repeat constructor.
Qed.

(** The buffer is never left: the loop does what it does on strings. *)
Lemma mkdir_loop_text fuel ok : forall path tmp fs made,
  solid path -> solid tmp -> len tmp <= UBOUND -> tmp <> [] ->
  mkdir_loop fuel ok path (holds tmp) (len tmp) fs made = text_loop fuel ok path tmp fs made.
Proof.
  induction fuel as [|fuel IH]; intros path tmp fs made Hp Ht Hl Hn; [done|]. cbn [mkdir_loop text_loop].
  destruct path as [|c path]; [done|]. destruct (UBOUND <=? len tmp) eqn:E; [done|]. zify_bool.
  destruct (put_slash_text tmp) as (-> & Hs & Hls); [done|lia|done|]. cbn [mbind option_bind].
  pose proof (copy_name_text (c :: path) (slashed tmp) Hp Hs Hls) as Hc.
  assert (forall rest t, copy_text (c :: path) (slashed tmp) = Some (rest, t) -> t <> []) as Hne.
  { assert (forall p t rest t', t <> [] -> copy_text p t = Some (rest, t') -> t' <> []) as H.
    { induction p as [|x p IHp]; intros t rest t' Hnt; cbn; [by intros [= _ <-]|]. destruct (x =? SLASH); [by intros [= _ <-]|].
      destruct (UBOUND <=? len t); [done|]. apply IHp. by destruct t. }
    intros rest t. apply H. unfold slashed. destruct (decide _); [done|by destruct tmp]. }
  destruct (copy_text (c :: path) (slashed tmp)) as [[rest t]|]; [|by rewrite Hc].
  destruct Hc as (-> & Hr & Hst & Hlt). cbn [mbind option_bind]. rewrite read_holds by done. cbn [mbind option_bind].
  specialize (Hne rest t eq_refl). destruct (bool_decide (t ∈ fs)); [by apply IH|]. destruct (ok t); [by apply IH|done].
Qed.

Lemma copy_text_shorter p : forall t rest t', copy_text p t = Some (rest, t') -> (length rest <= length p)%nat /\ (p <> [] -> (length rest < length p)%nat).
Proof.
  induction p as [|x p IH]; intros t rest t'; cbn; [by intros [= <- _]|]. destruct (x =? SLASH); [intros [= <- _]; lia|].
  destruct (UBOUND <=? len t); [done|]. intros E%IH. lia.
Qed.

Lemma text_loop_ends ok fuel : forall path tmp fs made, (length path < fuel)%nat -> is_Some (text_loop fuel ok path tmp fs made).
Proof.
  induction fuel as [|fuel IH]; intros path tmp fs made Hf; [lia|]. cbn [text_loop].
  destruct path as [|c path]; [by eexists|]. destruct (UBOUND <=? len tmp); [by eexists|].
  destruct (copy_text (c :: path) (slashed tmp)) as [[rest t]|] eqn:E; [|by eexists].
  apply copy_text_shorter in E as [_ E]. specialize (E ltac:(done)).
  destruct (bool_decide (t ∈ fs)); [apply IH; lia|]. destruct (ok t); [apply IH; lia|by eexists].
Qed.

(** The first turn starts at the beginning of the buffer. *)
Lemma mkdir_first fuel ok c path fs made :
  solid (c :: path) ->
  mkdir_loop (S fuel) ok (c :: path) path_tmp 0 fs made = text_loop (S fuel) ok (c :: path) [SLASH] fs made.
Proof.
  intros Hp. rewrite <- mkdir_loop_text by (done || by repeat constructor). cbn [mkdir_loop].
  change (UBOUND <=? 0) with false. change (UBOUND <=? len [SLASH]) with false.
  assert (put_slash path_tmp 0 = Some (holds [SLASH], 1)) as -> by by vm_compute.
  by assert (put_slash (holds [SLASH]) (len [SLASH]) = Some (holds [SLASH], 1)) as -> by by vm_compute.
Qed.

(** ** What it means *)

Definition name (s : list byte) : Prop := s <> [] /\ Forall (fun c => c <> SLASH) s /\ solid s.

(** "/a/b/c" *)
Definition absolute (names : list (list byte)) : list byte := concat (map (cons SLASH) names).

(** The directories on the way, shortest first. *)
Fixpoint parents (pre : list byte) (names : list (list byte)) : list (list byte) :=
  match names with [] => [] | s :: names => (pre ++ SLASH :: s) :: parents (pre ++ SLASH :: s) names end.

(** What is to become of a list of directories: made one after the other
    until one cannot be. *)
Fixpoint make_all (ok : list byte -> bool) (dirs : list (list byte)) (fs : gset (list byte)) (made : list (list byte)) :
    Z * gset (list byte) * list (list byte) :=
  match dirs with
  | [] => (0, fs, made)
  | d :: dirs =>
      if decide (d ∈ fs) then make_all ok dirs fs made
      else if ok d then make_all ok dirs ({[d]} ∪ fs) (made ++ [d])
      else (-1, fs, made)
  end.

(** A name and what follows it. *)
Lemma copy_text_spec s rest tmp :
  Forall (fun c => c <> SLASH) s -> len tmp + len s <= UBOUND ->
  copy_text (s ++ rest) tmp = copy_text rest (tmp ++ s).
Proof.
  intros Hs. revert tmp. induction Hs as [|c s Hc Hs IH]; intros tmp Hl; [by rewrite app_nil_r|].
  cbn [app copy_text]. rewrite (proj2 (Z.eqb_neq c SLASH)) by done. rewrite len_cons in Hl. pose proof (len_nonneg s).
  rewrite (proj2 (Z.leb_gt _ _)) by lia. rewrite IH by (rewrite len_app; unfold len at 2; cbn; lia).
  by rewrite <- app_assoc.
Qed.

Lemma copy_text_long s rest tmp :
  Forall (fun c => c <> SLASH) s -> len tmp <= UBOUND < len tmp + len s -> copy_text (s ++ rest) tmp = None.
Proof.
  intros Hs. revert tmp. induction Hs as [|c s Hc Hs IH]; intros tmp Hl; [unfold len at 3 in Hl; cbn in Hl; lia|].
  cbn [app copy_text]. rewrite (proj2 (Z.eqb_neq c SLASH)) by done. destruct (UBOUND <=? len tmp) eqn:E; [done|].
  zify_bool. rewrite len_cons in Hl. apply IH. rewrite len_app. unfold len at 2 4. cbn. lia.
Qed.

Lemma absolute_cons s names : absolute (s :: names) = SLASH :: s ++ absolute names.
Proof. done. Qed.

Lemma last_path pre s : name s -> last (pre ++ SLASH :: s) <> Some SLASH.
Proof.
  intros (Hn & Hs & _). destruct s as [|c s _] using rev_ind; [done|].
  rewrite app_comm_cons, app_assoc, last_snoc. apply Forall_app in Hs as [_ ?%Forall_inv]. congruence.
Qed.

(** What is left of the path behind a directory that was made. *)
Definition rest_of (names : list (list byte)) : list byte := drop 1 (absolute names).

(** The text in the buffer for a directory; the root keeps its slash. *)
Definition tmp_of (pre : list byte) : list byte := if decide (pre = []) then [SLASH] else pre.

Lemma slashed_of pre : last pre <> Some SLASH -> slashed (tmp_of pre) = pre ++ [SLASH].
Proof. unfold tmp_of, slashed. intros Hp. destruct (decide (pre = [])) as [->|]; [done|]. by rewrite decide_False. Qed.

Lemma text_loop_spec ok names : forall fuel pre fs made,
  (length (rest_of names) < fuel)%nat -> Forall name names -> last pre <> Some SLASH -> len pre <= UBOUND ->
  if decide (len (pre ++ absolute names) <= UBOUND)
  then text_loop fuel ok (rest_of names) (tmp_of pre) fs made = Some (make_all ok (parents pre names) fs made)
  else exists fs' made', text_loop fuel ok (rest_of names) (tmp_of pre) fs made = Some (-1, fs', made').
Proof.
  induction names as [|s names IH]; intros fuel pre fs made Hf Hn Hp Hlp; (destruct fuel as [|fuel]; [lia|]).
  { rewrite app_nil_r, decide_True by done. done. }
  inversion Hn as [|? ? Hns Hn']; subst. pose proof Hns as (Hne & Hs & _). unfold rest_of in *. rewrite absolute_cons in *.
  change (drop 1 (SLASH :: s ++ absolute names)) with (s ++ absolute names) in *.
  assert (len (pre ++ SLASH :: s ++ absolute names) = len pre + 1 + len s + len (absolute names)) as -> by
    (rewrite len_app, len_cons, len_app; lia).
  pose proof (len_nonneg (absolute names)) as Ha. pose proof (len_nonneg s) as Hls. pose proof (len_nonneg pre) as Hlp'.
  assert (length (rest_of names) < fuel)%nat as Hf'.
  { unfold rest_of. rewrite length_drop. rewrite length_app in Hf. destruct s; [done|]. cbn in Hf. lia. }
  assert (0 < len s) as Hpos by (destruct s; [done|]; rewrite len_cons; pose proof (len_nonneg s); lia).
  set (d := pre ++ SLASH :: s). assert (tmp_of d = d) as Hd by (unfold tmp_of, d; rewrite decide_False; [done|by destruct pre]).
  assert (len d = len pre + 1 + len s) as Hld by (unfold d; rewrite len_app, len_cons; lia).
  assert (len (d ++ absolute names) = len pre + 1 + len s + len (absolute names)) as Hlda by (rewrite len_app; lia).
  cbn [text_loop]. destruct (s ++ absolute names) as [|c0 t0] eqn:Es; [by destruct s|]. rewrite <- Es in *. clear Es c0 t0 Hf.
  rewrite slashed_of by done. destruct (UBOUND <=? len (tmp_of pre)) eqn:Eb; zify_bool.
  { assert (len (tmp_of pre) = len pre) as Et.
    { unfold tmp_of, UBOUND in *. destruct (decide (pre = [])); [by vm_compute in Eb|done]. }
    rewrite decide_False by lia. by eexists _, _. }
  assert (len (pre ++ [SLASH]) = len pre + 1) as Hls1 by by rewrite len_app.
  destruct (decide (len pre + 1 + len s <= UBOUND)) as [Hfit|Hlong]; last first.
  { rewrite decide_False by lia. rewrite copy_text_long; [by eexists _, _|done|].
    split; [|lia]. unfold tmp_of in Eb. destruct (decide (pre = [])) as [->|]; [by vm_compute|lia]. }
  rewrite copy_text_spec by (done || lia). rewrite <- app_assoc. cbn [app]. fold d.
  assert (copy_text (absolute names) d = Some (rest_of names, d)) as ->.
  { destruct names as [|s' names]; [done|]. unfold rest_of. rewrite absolute_cons. cbn [copy_text]. by rewrite Z.eqb_refl. }
  cbn [parents make_all]. fold d. rewrite <- Hlda.
  assert (last d <> Some SLASH) as Hd' by by apply last_path.
  specialize (fun fs made => IH fuel d fs made Hf' Hn' Hd' ltac:(lia)) as IHd. rewrite Hd in IHd.
  destruct (decide (d ∈ fs)) as [Hin|Hin].
  - rewrite bool_decide_true by done. apply IHd.
  - rewrite bool_decide_false by done. destruct (ok d); [apply IHd|].
    destruct (decide _); [done|by eexists _, _].
Qed.

Lemma make_all_ok ok dirs : forall fs made,
  (forall d, d ∈ dirs -> d ∈ fs \/ ok d = true) ->
  exists l, make_all ok dirs fs made = (0, list_to_set dirs ∪ fs, made ++ l) /\ l `sublist_of` dirs.
Proof.
  induction dirs as [|d dirs IH]; intros fs made Hok; cbn.
  { exists []. by rewrite app_nil_r, union_empty_l_L. }
  destruct (decide (d ∈ fs)) as [Hin|Hin].
  - destruct (IH fs made) as (l & -> & Hl); [set_solver|]. exists l. split; [|by constructor]. do 2 f_equal. set_solver.
  - destruct (Hok d) as [?|Hd]; [by left|done|]. rewrite Hd.
    destruct (IH ({[d]} ∪ fs) (made ++ [d])) as (l & -> & Hl); [set_solver|].
    exists (d :: l). rewrite <- app_assoc. split; [|by constructor]. do 2 f_equal. set_solver.
Qed.

Lemma make_all_fails ok l d k : forall fs made,
  (forall x, x ∈ l -> x ∈ fs \/ ok x = true) -> d ∉ l -> d ∉ fs -> ok d = false ->
  exists m, make_all ok (l ++ d :: k) fs made = (-1, list_to_set l ∪ fs, made ++ m) /\ m `sublist_of` l.
Proof.
  induction l as [|x l IH]; intros fs made Hok Hdl Hd Ed; cbn.
  { rewrite decide_False, Ed by done. exists []. by rewrite app_nil_r, union_empty_l_L. }
  apply not_elem_of_cons in Hdl as [Hdx Hdl]. destruct (decide (x ∈ fs)) as [Hin|Hin].
  - destruct (IH fs made) as (m & -> & Hm); [set_solver|done..|]. exists m. split; [|by constructor]. do 2 f_equal. set_solver.
  - destruct (Hok x) as [?|Hx]; [by left|done|]. rewrite Hx.
    destruct (IH ({[x]} ∪ fs) (made ++ [x])) as (m & -> & Hm); [set_solver|done|set_solver|done|].
    exists (x :: m). rewrite <- app_assoc. split; [|by constructor]. do 2 f_equal. set_solver.
Qed.

Lemma absolute_parent names : forall pre, names <> [] -> pre ++ absolute names ∈ parents pre names.
Proof.
  induction names as [|s names IH]; intros pre Hns; [done|]. cbn [parents]. rewrite absolute_cons.
  destruct names as [|s' names]; [rewrite app_nil_r; left|right].
  replace (pre ++ SLASH :: s ++ absolute (s' :: names)) with ((pre ++ SLASH :: s) ++ absolute (s' :: names)) by (by rewrite <- app_assoc).
  by apply IH.
Qed.

Lemma absolute_solid names : Forall name names -> solid (absolute names).
Proof.
  induction 1 as [|s names (_ & _ & Hs) _ IH]; [constructor|]. rewrite absolute_cons. constructor; [done|].
  by apply Forall_app.
Qed.

(** An absolute path: the loop makes the directories on the way. *)
Lemma mkdir_absolute ok names fs :
  names <> [] -> Forall name names -> [SLASH] ∈ fs ->
  let r := mkdir_loop (S (length (absolute names))) ok (absolute names) path_tmp 0 fs [] in
  if decide (len (absolute names) <= UBOUND) then r = Some (make_all ok (parents [] names) fs [])
  else exists fs' made', r = Some (-1, fs', made').
Proof.
  intros Hne Hn Hroot. pose proof (absolute_solid _ Hn) as Hsol. destruct names as [|s names]; [done|].
  pose proof (text_loop_spec ok (s :: names) (S (length (s ++ absolute names))) [] fs []) as Hspec.
  unfold rest_of in Hspec. rewrite absolute_cons in *. rewrite mkdir_first by done.
  change (drop 1 (SLASH :: s ++ absolute names)) with (s ++ absolute names) in Hspec.
  change (tmp_of []) with [SLASH] in Hspec. specialize (Hspec (Nat.lt_succ_diag_r _) Hn ltac:(done) ltac:(done)).
  cbn [length]. remember (S (length (s ++ absolute names))) as fuel eqn:Hfuel.
  assert (text_loop (S fuel) ok (SLASH :: s ++ absolute names) [SLASH] fs [] =
    text_loop fuel ok (s ++ absolute names) [SLASH] fs []) as ->; [|exact Hspec].
  cbn [text_loop]. change (UBOUND <=? len [SLASH]) with false. change (slashed [SLASH]) with [SLASH].
  cbn [copy_text]. by rewrite Z.eqb_refl, bool_decide_true.
Qed.

(** C38. [mkdir_p] never reads or writes outside of its buffer of 255 bytes
    and always returns, whatever the path and whichever calls of [mkdir]
    fail.  For an absolute path of at most 254 characters whose missing
    directories can all be made it returns 0; the directory and all above
    it then exist and nothing else was added, the new ones made in order,
    parents first.  At the first that cannot be made it returns -1, with
    exactly those above it made; for a longer path it returns -1. *)
Theorem mkdir_p_makes_path (ok : list byte -> bool) (fs : gset (list byte)) :
  (forall path, solid path -> is_Some (mkdir_p ok path fs)) /\
  forall names, names <> [] -> Forall name names -> [SLASH] ∈ fs ->
    (len (absolute names) <= UBOUND -> (forall d, d ∈ parents [] names -> d ∈ fs \/ ok d = true) ->
     exists made, mkdir_p ok (absolute names) fs = Some (0, list_to_set (parents [] names) ∪ fs, made) /\
       made `sublist_of` parents [] names /\ absolute names ∈ parents [] names) /\
    (forall l d k, len (absolute names) <= UBOUND -> parents [] names = l ++ d :: k ->
       (forall x, x ∈ l -> x ∈ fs \/ ok x = true) -> d ∉ l -> d ∉ fs -> ok d = false ->
     exists made, mkdir_p ok (absolute names) fs = Some (-1, list_to_set l ∪ fs, made) /\ made `sublist_of` l) /\
    (UBOUND < len (absolute names) -> exists fs' made, mkdir_p ok (absolute names) fs = Some (-1, fs', made)).
Proof.
  split.
  { intros path Hp. unfold mkdir_p. destruct path as [|c path]; [by eexists|].
    rewrite mkdir_first by done. destruct (text_loop_ends ok (S (length (c :: path))) (c :: path) [SLASH] fs []) as [[[r fs'] made] ->]; [lia|].
    cbn. by destruct (r =? 0). }
  intros names Hne Hn Hroot. pose proof (mkdir_absolute ok names fs Hne Hn Hroot) as Hm. cbv zeta in Hm. unfold mkdir_p.
  pose proof (absolute_parent names [] Hne) as Hin. cbn [app] in Hin. split_and!.
  - intros Hl Hok. rewrite decide_True in Hm by done. destruct (make_all_ok ok _ fs [] Hok) as (made & E & Hs).
    rewrite Hm, E. cbn. exists made. rewrite bool_decide_true by set_solver. done.
  - intros l d k Hl Ep Hok Hdl Hd Ed. rewrite decide_True in Hm by done. rewrite Ep in Hm.
    destruct (make_all_fails ok l d k fs [] Hok Hdl Hd Ed) as (made & E & Hs). rewrite Hm, E. by exists made.
  - intros Hl. rewrite decide_False in Hm by lia. destruct Hm as (fs' & made & ->). by exists fs', made.
Qed.

Definition sample_names : list (list byte) := [[118; 97; 114]; [108; 105; 98]; [109]].

Lemma mkdir_p_makes_path_witness :
  exists made, mkdir_p (fun _ => true) (absolute sample_names) {[ [SLASH]; [47; 118; 97; 114] ]} =
    Some (0, list_to_set (parents [] sample_names) ∪ {[ [SLASH]; [47; 118; 97; 114] ]}, made) /\
    made `sublist_of` parents [] sample_names /\ absolute sample_names ∈ parents [] sample_names.
Proof.
  destruct (mkdir_p_makes_path (fun _ => true) {[ [SLASH]; [47; 118; 97; 114] ]}) as [_ H].
  apply (H sample_names).
  - done.
  - repeat constructor; done.
  - set_solver.
  - by vm_compute.
  - by right.
Defined.

(** A relative path is taken from the root, and reported as a failure. *)
Example relative_path_misplaced :
  mkdir_p (fun _ => true) [97] {[ [SLASH] ]} = Some (-1, {[ [SLASH; 97]; [SLASH] ]}, [[SLASH; 97]]).
Proof. by vm_compute. Qed.

(** The loop of [avbox_get_resource]: the bytes still to read and the
    position in the buffer, after the answers of [read]; an error that is
    neither EAGAIN nor EINTR is used as a count. *)
Fixpoint get_resource_loop (l : list Pipes.sysret) (left pos : Z) : Z * Z :=
  match l with
  | [] => (left, pos)
  | a :: l =>
      if 0 <? left then
        match a with
        | Pipes.Interrupted => get_resource_loop l left pos
        | Pipes.Bytes r => get_resource_loop l (left - r) (pos + r)
        | _ => get_resource_loop l (left + 1) (pos - 1)
        end
      else (left, pos)
  end.

(** Read in pieces, the whole file is read. *)
Lemma get_resource_reads l n : Pipes.transfers l n -> get_resource_loop l n 0 = (0, n).
Proof.
  assert (forall l n pos, Pipes.transfers l n -> get_resource_loop l n pos = (0, pos + n)) as H; [|apply H].
  clear. induction l as [|[r| | |] l IH]; intros n pos Ht; try done; pose proof (Pipes.transfers_pos _ _ Ht) as Hn; cbn in Ht;
    cbn [get_resource_loop]; rewrite (proj2 (Z.ltb_lt 0 n)) by done; [|by apply IH].
  destruct Ht as [Hr [->|Ht]].
  - rewrite Z.sub_diag. by destruct l.
  - rewrite IH by done. f_equal. lia.
Qed.

(** A file that was cut short is read forever, and an error moves the
    position before the buffer. *)
Example resource_error_underruns : get_resource_loop [Pipes.Error] 10 0 = (11, -1).
Proof. done. Qed.

End Dirs.
